(* ===== verification/_CoqProject ===== *)
-Q . S2P
Prelude.v
Doubles.v
Table.v
Prog.v
Once.v
Canonical.v
Money.v
Contracts.v
PolicyEngine.v
Defaults.v
KernelStore.v
TradeGateway.v
KernelCaps.v
GatewaySafety.v
GatewayPool.v
Reconciler.v
Lock.v
RiskControl.v
RiskLimits.v
Approvals.v
ApprovalSafety.v
Frames.v
Bytes.v
SignerPolicy.v
SignerEnvelope.v
Simulation.v
SignerReplay.v
SignerService.v
TransactionCodec.v
RpcSimulator.v
RpcSafety.v
Issuer.v
SignerSafety.v
HostGateway.v
LiveTrading.v
SignerClient.v
LiveSafety.v
LiveSigning.v
SignerCompletes.v
Jobs.v
JobSafety.v
JobLeases.v
Schedule.v
ScheduleDue.v
Workers.v
WorkerSafety.v
Strategy.v
StrategySafety.v
StrategyExec.v
Console.v
ConsoleSafety.v
Agent.v
AgentSafety.v
Tools.v
ToolsSafety.v
Telegram.v
GatewayCore.v
Models.v
Context.v
Sessions.v
SessionHistory.v
RunStore.v
Curve.v
PumpCurve.v
Bins.v
Events.v
EventDelivery.v
EventEffects.v
Delegation.v
DelegationSafety.v
DelegationCancel.v
Perps.v
PerpsGuards.v
PerpsSafety.v
Rebalance.v
PoolGuards.v
PumpTrades.v
PumpSafety.v
Venue.v
LpTools.v
