(* ===== verification/Prelude.v ===== *)
(** * Verification of the ARI OS runtime

    ARI OS (`src/`) is a TypeScript runtime in which language-model agents propose
    trades and a kernel decides which of them are signed.  This library models the
    parts that guard money and authority, the state they depend on and the ways an
    agent or an operator reaches them, and proves what they promise.

    ** How the parts interact

    Messages come in through the channels and the message gateway (`gateway/`). The
    agent loop (`agent/runtime`) asks a model what to do and dispatches its calls to
    the tool registry (`agent/tools`), where an intent tool
    (`tools/intent-bridge.ts`, such as those of `pools/tools/pumpfun.ts`) or a
    strategy builds a trade intent. The trade gateway (`kernel/trade-gateway.ts`)
    checks it against the policy (`kernel/policy-engine.ts`, `kernel/defaults.ts`),
    reserves the spend and journals it in the kernel's store (`kernel/store.ts`),
    signs, broadcasts, confirms and settles; a perp intent is first judged by the
    guards of `perps/`; `kernel/reconciler.ts` finishes at boot what a crash left,
    and `kernel/lock.ts` is the lock against a second process. An operator stops and
    arms trading from the control plane (`control/`). Production orders also pass
    the risk evaluator and the reservation ledger (`execution/control`) and, where
    the policy asks for it, a quorum of operators (`execution/approvals`). Keys live
    in another process, the signer (`signer/`), which re-checks an operator-signed
    authorization and its own policy and signs once per authorization. Live trading
    (`live-trading/`) drives one execution through these: it quotes, simulates
    (`execution/simulation.ts`, `rpc-simulator.ts`), asks for approval, has an
    authorization issued (`execution/authorization`), crosses to the signer,
    broadcasts and reconciles. Work is scheduled on a durable queue
    (`autonomy/jobs`), triggered by events (`autonomy/events`) and handed to child
    runs (`autonomy/delegation`); what was said and done is kept by the stores of
    `storage/`. Amounts of liquidity and bonding-curve trades come from the
    arithmetic of `pools/`.

    ** Files

    Shared: [Prelude] (sums, strings, throwing code [result], tactics), [Table]
    (the SQLite statements on lists of rows), [Prog] (effect trees for `async`
    code, pools of interleaved tasks, protocols and their invariants), [Once] (at
    most one action per claimed key, used by the gateway and the signer),
    [Canonical] (canonical JSON text), [Bytes] (the encodings of
    transactions and accounts).

    Kernel: [Money], [Contracts], [PolicyEngine], [Defaults], [KernelStore],
    [TradeGateway], [Reconciler] translate the files of `src/kernel/` of the same
    names, and [Lock] is `kernel/lock.ts`.  [KernelCaps], [GatewaySafety] and
    [GatewayPool] hold the theorems.

    Execution: [RiskControl] is `execution/control/index.ts`, [RiskLimits] its
    theorems; [Approvals] is `execution/approvals/index.ts`, [ApprovalSafety] its
    theorems.

    Signer: [Frames] (`JsonFrameDecoder`), [SignerPolicy] (`signer/policy.ts`),
    [SignerEnvelope] (`signer/authorization.ts`), [SignerReplay]
    (`signer/replay.ts`, behind the class [SignerReplay.ReplayStore]),
    [SignerService] (`signer/index.ts`), [TransactionCodec]
    (`signer/transaction.ts`); [SignerSafety] and [SignerCompletes] hold the
    theorems.

    The host's way to the signer: [Simulation] is `execution/simulation.ts`,
    [RpcSimulator] `execution/rpc-simulator.ts` with [RpcSafety]; [Issuer] is the
    issuer of `execution/authorization/index.ts`, [HostGateway] its verifier with
    `execution/gateway.ts`.  [LiveTrading] is the store and the orchestrator of
    `live-trading/index.ts`, [SignerClient] its client of the signer's socket;
    [LiveSafety] (the lifecycle, over interleaved methods), [LiveSigning] (what
    precedes a signature and a broadcast, and runs worth knowing) hold the theorems.

    Autonomy: [Jobs] and [Schedule] are `autonomy/jobs/index.ts`; [JobSafety] ties
    jobs to attempts, [JobLeases] and [ScheduleDue] hold the theorems.  [Events] is
    `autonomy/events/index.ts` (envelopes, buses, market triggers), with
    [EventDelivery] and [EventEffects].  [Delegation] is
    `autonomy/delegation/index.ts`, with [DelegationSafety] and
    [DelegationCancel].  [Workers] is `workers/jobs.ts`, [WorkerSafety] its
    theorems.

    Strategies: [Strategy] is `strategy/store.ts` and `strategy/runner.ts`,
    [StrategyExec] is `strategy/executor.ts`, [StrategySafety] holds the theorems.

    Control plane: [Console] is `control/auth.ts`, `control/policy.ts` and the
    routes of `control/index.ts`, [ConsoleSafety] holds the theorems.

    Agent: [Agent] is `agent/runtime/index.ts`, [AgentSafety] its theorems; [Tools]
    is `agent/tools/registry.ts`, the dispatcher of `app/adapters.ts` and
    `tools/intent-bridge.ts`, [ToolsSafety] its theorems.  [Models] is the router of
    `agent/models/index.ts` and [Context] is `cognition/context/index.ts`, with
    their theorems.  [GatewayCore] is `gateway/core/index.ts` and [Telegram]
    `gateway/channels/index.ts`.

    Storage: [Sessions] is `storage/session-store.ts` with [SessionHistory], and
    [RunStore] is `storage/run-store.ts`.

    Perps: [Doubles] rounds as IEEE 754 does; [Perps] is `perps/policy.ts`,
    `liquidation.ts` and `exposure.ts`; [PerpsGuards] is `perps/intent.ts`,
    `guards.ts` and the snapshot of `tools/deps.ts`; [PerpsSafety] holds the
    theorems.

    Pools: [Curve] is `pools/pumpfun/math.ts`, [PumpCurve] the accounts of
    `pools/pumpfun/`, [PumpTrades] its client, routing and instructions with the
    trading tools of `pools/tools/pumpfun.ts`, [PumpSafety] their theorems; [Bins]
    is `pools/meteora/bins.ts`, [PoolGuards] is `pools/guards.ts` and `intent.ts`,
    [Rebalance] is `pools/rebalance/` with its theorems, [Venue] is
    `pools/meteora/venue.ts`, and [LpTools] the tools of `pools/tools/pools.ts` over
    them with their theorems.

    Operations keep the names of the functions and methods they translate; a name
    of the library's own (a part of a long function, a WHERE clause) says in its
    comment what it stands for.

    ** What is proved

    - Money path: the caps hold for every interleaving of intents
      ([KernelCaps.spend_caps_hold]); only a cleared, journalled, simulated intent
      is signed, once per idempotency key; broadcasts, confirmations, settlement
      and reservations are accounted for; rows follow their lifecycle; recovery
      settles what it finds; the locks held at once are one at most, and one more for
      every release that removes the file of another ([Lock.one_writer]).
    - Control: an order is admitted exactly when its conditions hold, and the
      ledger's exposure is bounded; approvals need a quorum and are consumed once.
    - Signer: one signature per authorization, only for what was authorized and
      allowed by the policy; a recorded signature stays retrievable; canonical
      texts bind their values; frames do not depend on chunking; signing completes;
      a transaction reads back with the signature that was attached.
    - Host and live trading: exactly when the signer accepts what is issued; a
      transaction crosses to the signer once per authorization and only verified; a
      simulation that is accepted read every account the transaction can write and
      moves only allowed assets; executions follow their lifecycle and keep their
      signature, once signed move only by what the cluster answered for it, are
      signed for only while they may be, and broadcast only after the signature is
      recorded.
    - Job queue: the invariant of jobs and attempts, reissued leases are powerless,
      claims end, and when a call is refused with which error; schedules give the next time
      and miss none.
    - Event bus: a consumer's effect is committed once per event and in order of
      the cursors, which grow with gaps, and a delivery settles every event.
    - Delegation: the limits on depth, children, concurrency and budget hold
      whatever happens in whatever order, capabilities are only attenuated, and a
      cancelled session takes every live descendant with it.
    - Workers: the handler of a job starts at most once per lease, an outcome under a
      lost lease is ignored, and a fire of a schedule becomes exactly one job, also
      when the tick is interrupted between any two of its statements.
    - Strategies: counted swaps stay within the budget, a strategy whose last three
      runs failed is paused, and every swap reaches the gateway as one guarded intent.
    - Perps: an intent is admitted exactly when it is admissible, getting flat is
      subject to few conditions, and what is opened stays within the caps of the
      portfolio the venue reported.
    - Pools: quotes of the curve are within budget and reserves, an account that is
      written reads back, an intent of the buying and selling tools follows from
      what the run read and carries a transaction of just these amounts, a deposit
      is split without loss, rebalancing keeps its daily number and interval, and what
      the liquidity tools offer follows from what they read and passed every guard.
    - Control plane: in every run, only a request that holds the token, or a live
      session an earlier sign-in minted, changes the policy or a strategy, and the
      policy differs from the booted one in its two flags only, within its ceiling.
    - Agent: a run keeps its budgets, dispatches only calls that were judged and
      recorded, does not change providers after a proposal, and ends exactly once; an
      invocation of a tool is admitted, announced and reported; a tool that spends
      needs a capability to write, and only the runtime says that a user confirmed;
      the router asks only healthy and sufficient models, within its retries; a
      compiled context keeps what is protected and whole tool exchanges.
    - Messages: a handler is called for an authenticated request, and not again once
      its key was answered; sessions stay with who claimed them; a text is sent whole.
    - Storage: the history of a session only grows, also through branches, and the
      log of a run holds what was appended.

    ** Conventions

    A `bigint` is a [Z]; a `number` used as an integer is a [Z] with
    `isSafeInteger` written out; [number] is the type where NaN, infinities and
    fractions matter.  A synchronous function that may throw answers a [result]
    (or an [option] where only the fact matters), with the code or message of the
    error; asynchronous code is an effect tree, and concurrency is the
    interleaving of such trees at their `await`s.  A clock reading, a random draw
    or a uuid is an argument.  Code the repository only calls (the codec of the web3
    library, validators, signature checks, SHA-256, RPC nodes) is a parameter or an
    effect, with what is relied on as a named hypothesis.

    ** Fuel

    [Jobs.recover_expired] gets the number of expired rows, and
    [JobSafety.recover_expired_ok] shows that it ends with none; [Bins.shrink] gets
    the sum of the two sides ([Bins.shrink_fits]); [Schedule.add_values] gets the
    number of values of a part ([ScheduleDue.add_values_elem]); [Schedule.scan]
    makes exactly the 4216320 turns of the source; [Events.deliver_batches] gets
    one more than the number of events
    ([EventDelivery.deliver_batches_complete]); [Delegation.visit] gets one more
    than the number of entries ([DelegationCancel.visit_visited]), and
    [Delegation.drain_loop] the length of the queue, of which each turn takes one.
    [Sessions.lineage] gets one more than the number of sessions,
    [PumpCurve.read_tiers] the number of bytes ([PumpCurve.read_tiers_spec]), and
    [Telegram.chunks] the length of the text, of which each turn takes a character
    ([Telegram.chunks_ok]); [Context.buildUnits] gets the number of messages
    ([Context.build_units_spec]); [Agent.iterate] makes as many turns as its limit
    says, and [Models.attempts] one more than the retries.

    ** Simplifications

    Failures of SQLite itself (a full disk, a locked file) are not modelled.
    Strings are ASCII where their order or length matters.  Payload numbers in
    JSON are integers.  Perp guards compute with doubles, less the sign of zero.
    Retry delays, liquidity weights and the costs of models are exact rationals
    where the code computes with doubles.  Claims of an authorization are the
    declared fields.

    ** Not modelled

    Left out are: composition, HTTP and command-line code (`app`, `api`,
    `server.ts`, `cli`, `bin`, `gateway/api`, `web`) and the views and pages of
    `control`, which pass values on; the HTTP transport of `agent/models`, memory and
    skills (`cognition`, `adapters`), whose answers are free effects here; network clients
    and feeds (the SDK and the data API of `pools/meteora`, `chains`, `data`, `market`, `telegram`, `mcp`), schemas of third-party
    validators (`config`, `plugins`), encryption at rest (`vault`), files
    (`storage/maintenance.ts`) and logging: input and output over the parts above.
    The adapters of third-party SDKs (`perps/drift`, `pools/meteora/real-sdk.ts`)
    translate between data types of libraries that are not part of the repository;
    what they hand to the kernel passes the guards that are modelled. *)
From stdpp Require Export base tactics option list strings gmap.
From Stdlib Require Export ZArith Lia.
From Stdlib Require Import QArith Qround.

#[global] Open Scope Z_scope.

(** ** Sums, as the source writes them: reduce((n, x) => n + f(x), 0n). *)

Definition sum_by {A} (f : A -> Z) (l : list A) : Z :=
  fold_left (fun n x => n + f x) l 0.

Section SumBy.
Context {A : Type}.
Implicit Types (f g : A -> Z) (l : list A).

Lemma fold_left_add f l n : fold_left (fun n x => n + f x) l n = n + sum_by f l.
Proof.
  revert n. induction l as [|x l IH]; intros n; unfold sum_by; simpl; [lia|].
  rewrite !IH. lia.
Qed.

Lemma sum_by_nil f : sum_by f [] = 0.
Proof. done. Qed.

Lemma sum_by_cons f x l : sum_by f (x :: l) = f x + sum_by f l.
Proof. unfold sum_by at 1. simpl. rewrite fold_left_add. lia. Qed.

Lemma sum_by_app f l1 l2 : sum_by f (l1 ++ l2) = sum_by f l1 + sum_by f l2.
Proof. unfold sum_by at 1. rewrite fold_left_app, !fold_left_add. simpl. lia. Qed.

Lemma sum_by_nonneg f l : (forall x, x ∈ l -> 0 <= f x) -> 0 <= sum_by f l.
Proof.
  induction l as [|x l IH]; intros H; [done|]. rewrite sum_by_cons.
  pose proof (H x (list_elem_of_here _ _)).
  specialize (IH (fun y Hy => H y (list_elem_of_further _ _ _ Hy))). lia.
Qed.

Lemma sum_by_le f g l : (forall x, x ∈ l -> f x <= g x) -> sum_by f l <= sum_by g l.
Proof.
  induction l as [|x l IH]; intros H; [done|]. rewrite !sum_by_cons.
  pose proof (H x (list_elem_of_here _ _)).
  specialize (IH (fun y Hy => H y (list_elem_of_further _ _ _ Hy))). lia.
Qed.

Lemma sum_by_ext f g l : (forall x, x ∈ l -> f x = g x) -> sum_by f l = sum_by g l.
Proof.
  intros H. apply Z.le_antisymm; apply sum_by_le; intros x Hx; rewrite (H x Hx); lia.
Qed.

Lemma sum_by_filter f (p : A -> bool) l :
  sum_by f (List.filter p l) = sum_by (fun x => if p x then f x else 0) l.
Proof.
  induction l as [|x l IH]; [done|]. simpl List.filter.
  destruct (p x) eqn:E; rewrite ?sum_by_cons, IH, ?E; lia.
Qed.
End SumBy.

Lemma sum_by_map {A B} (h : A -> B) (f : B -> Z) (l : list A) :
  sum_by f (map h l) = sum_by (fun x => f (h x)) l.
Proof. induction l as [|x l IH]; [done|]. simpl map. by rewrite !sum_by_cons, IH. Qed.

Lemma sum_by_perm {A} (f : A -> Z) l1 l2 : l1 ≡ₚ l2 -> sum_by f l1 = sum_by f l2.
Proof. induction 1; rewrite ?sum_by_cons; lia. Qed.

(** ** Filters *)

Lemma filter_none {A} (p : A -> bool) (l : list A) :
  (forall x, x ∈ l -> p x = false) -> List.filter p l = [].
Proof.
  induction l as [|x l IH]; intros H; [done|]. simpl.
  rewrite (H x (list_elem_of_here _ _)). apply IH.
  intros y Hy. by apply H, list_elem_of_further.
Qed.

Lemma existsb_rev {A} (p : A -> bool) (l : list A) : existsb p (rev l) = existsb p l.
Proof.
  induction l as [|x l IH]; [done|]. simpl.
  by rewrite existsb_app, IH, orb_comm; simpl; rewrite orb_false_r.
Qed.

Lemma forallb_rev {A} (p : A -> bool) (l : list A) : forallb p (rev l) = forallb p l.
Proof.
  induction l as [|x l IH]; [done|]. simpl.
  by rewrite forallb_app, IH, andb_comm; simpl; rewrite andb_true_r.
Qed.

Lemma insert_lookup_cases {A} (l : list A) i j x y :
  <[i := x]> l !! j = Some y -> (j = i /\ y = x) \/ (j <> i /\ l !! j = Some y).
Proof.
  intros [(-> & -> & _)|[Hne Hj]]%list_lookup_insert_Some; [by left|right].
  split; [congruence|done].
Qed.

(** ** JavaScript numbers

    A `bigint` is a [Z].  A `number` the code uses as an integer is a [Z] too:
    the checks the code makes on it ([isSafeInteger]) are then checks on the
    exact value, and a sum of two safe integers is safe as a double exactly when
    it is safe as a [Z].  Where the code has to tell NaN, an infinity or a
    fraction apart, the type is [number]. *)

Definition MAX_SAFE_INTEGER : Z := 2 ^ 53 - 1.

Definition isSafeInteger (z : Z) : bool :=
  (- MAX_SAFE_INTEGER <=? z) && (z <=? MAX_SAFE_INTEGER).

Inductive number : Type :=
  | NaN
  | Infinite (negative : bool)
  | Finite (q : Q).

Definition js_num (z : Z) : number := Finite (inject_Z z).

(** `x < z` for an integer literal [z]. *)
Definition num_ltb (x : number) (z : Z) : bool :=
  match x with
  | NaN => false
  | Infinite neg => neg
  | Finite q => negb (Qle_bool (inject_Z z) q)
  end.

(** `Number.isFinite(x)` *)
Definition isFinite (x : number) : bool :=
  match x with Finite _ => true | _ => false end.

(** `BigInt(Math.floor(x))`; only reached when [isFinite x]. *)
Definition floor_number (x : number) : Z :=
  match x with Finite q => Qfloor q | _ => 0 end.

Lemma num_ltb_floor x z : isFinite x = true -> num_ltb x z = false -> z <= floor_number x.
Proof.
  destruct x as [| |q]; try done. simpl. intros _ H. apply negb_false_iff, Qle_bool_iff in H.
  rewrite <- (Qfloor_Z z). by apply Qfloor_resp_le.
Qed.

(** ** Strings *)

(** `list.includes(s)` *)
Definition includes {A} `{EqDecision A} (l : list A) (x : A) : bool := bool_decide (x ∈ l).

Definition streq (a b : string) : bool := bool_decide (a = b).

Lemma includes_spec {A} `{EqDecision A} (l : list A) x : includes l x = true <-> x ∈ l.
Proof. unfold includes. by rewrite bool_decide_eq_true. Qed.

Lemma includes_false {A} `{EqDecision A} (l : list A) x : includes l x = false <-> x ∉ l.
Proof. unfold includes. by rewrite bool_decide_eq_false. Qed.

Lemma streq_spec a b : streq a b = true <-> a = b.
Proof. unfold streq. by rewrite bool_decide_eq_true. Qed.

Lemma streq_false a b : streq a b = false <-> a <> b.
Proof. unfold streq. by rewrite bool_decide_eq_false. Qed.

Lemma streq_refl a : streq a a = true.
Proof. by apply streq_spec. Qed.

(** The value of `if (s)` for a string that may be absent: null and the empty
    string are falsy. *)
Definition truthy (s : option string) : option string :=
  match s with
  | Some x => if streq x ""%string then None else Some x
  | None => None
  end.

(** ** Code that throws

    A synchronous function that may throw is a [result]: the error's code, or
    the value. *)
Definition result (A : Type) : Type := (string + A)%type.

Definition rbind {A B} (m : result A) (f : A -> result B) : result B :=
  match m with inl e => inl e | inr a => f a end.

(** `if (b) throw Error(code)` *)
Definition throw_on (b : bool) (code : string) : result unit := if b then inl code else inr tt.

Declare Scope result_scope.
Delimit Scope result_scope with result.
Notation "'let?' x := m 'in' k" := (rbind m (fun x => k))
  (at level 10, x name, m at level 100, k at level 200) : result_scope.
Notation "'check' b 'else' code ; k" := (rbind (throw_on b code) (fun _ => k))
  (at level 10, b at level 100, code at level 100, k at level 200) : result_scope.

Lemma rbind_inr {A B} (m : result A) (f : A -> result B) b :
  rbind m f = inr b <-> exists a, m = inr a /\ f a = inr b.
Proof. destruct m as [e|a]; simpl; split; [done|by intros (? & ? & ?)|eauto|by intros (? & [= <-] & ?)]. Qed.

Lemma throw_on_inr b code u : throw_on b code = inr u <-> b = false.
Proof. destruct b, u; simpl; split; done. Qed.

(** ** Automation *)

(** Open the boolean connectives and comparisons of the hypotheses. *)
Ltac bool_hyps :=
  repeat match goal with
  | H : _ && _ = true |- _ => apply andb_true_iff in H as [? ?]
  | H : _ || _ = false |- _ => apply orb_false_iff in H as [? ?]
  | H : negb _ = true |- _ => apply negb_true_iff in H
  | H : negb _ = false |- _ => apply negb_false_iff in H
  | H : (_ <? _) = true |- _ => apply Z.ltb_lt in H
  | H : (_ <? _) = false |- _ => apply Z.ltb_ge in H
  | H : (_ <=? _) = true |- _ => apply Z.leb_le in H
  | H : (_ <=? _) = false |- _ => apply Z.leb_gt in H
  | H : (_ =? _) = true |- _ => apply Z.eqb_eq in H
  | H : (_ =? _) = false |- _ => apply Z.eqb_neq in H
  | H : streq _ _ = true |- _ => apply streq_spec in H
  | H : streq _ _ = false |- _ => apply streq_false in H
  | H : includes _ _ = true |- _ => apply includes_spec in H
  | H : includes _ _ = false |- _ => apply includes_false in H
  | H : bool_decide _ = true |- _ => apply bool_decide_eq_true in H
  | H : bool_decide _ = false |- _ => apply bool_decide_eq_false in H
  end.

(** Open a hypothesis [rbind _ _ = inr _]. *)
Ltac open_result H :=
  repeat match type of H with
  | rbind (throw_on ?b _) _ = inr _ =>
      let Hb := fresh "Hb" in
      apply rbind_inr in H as (? & Hb & H); apply throw_on_inr in Hb
  | rbind _ _ = inr _ => let a := fresh "a" in let Ha := fresh "Ha" in apply rbind_inr in H as (a & Ha & H)
  end.

(** Split on every `if` of the goal. *)
Ltac split_ifs :=
  repeat match goal with
  | |- context [if ?b then _ else _] => destruct b eqn:?
  end.

(** Split on every `if` of a hypothesis, dropping the impossible branches. *)
Ltac split_ifs_in H :=
  repeat match type of H with
  | context [if ?b then _ else _] => destruct b eqn:?; try discriminate H
  end.

(** Split on every `match` of the goal. *)
Ltac split_matches :=
  repeat (case_match; simpl; try done).
