(* ===== verification/Doubles.v ===== *)
(** IEEE 754 double arithmetic on [number].

    A [number] is the exact value of a double.  A sum, difference, product or
    quotient is the double nearest to the exact result, ties to even: [round_double]
    rounds with the Standard Library's specification of binary floating point
    ([SpecFloat]).  Zero has no sign here: the code modelled with this file divides
    by positive numbers only. *)
From S2P Require Import Prelude.
From Stdlib Require Import QArith Qround SpecFloat.
#[local] Open Scope Z_scope.

(** The value of a double in sign, mantissa and exponent. *)
Definition value_of (x : spec_float) : number :=
  match x with
  | S754_zero _ => Finite 0
  | S754_infinity s => Infinite s
  | S754_nan => NaN
  | S754_finite s m e =>
      let n := if s then Zneg m else Zpos m in
      Finite (Qred (if 0 <=? e then inject_Z (n * 2 ^ e) else n # Z.to_pos (2 ^ (- e))))
  end.

(** The double nearest to [n / d]. *)
Definition round_double (q : Q) : number :=
  let round s n :=
    let '(mz, ez, lz) := SFdiv_core_binary 53 1024 (Zpos n) 0 (Zpos (Qden q)) 0 in
    value_of (binary_round_aux 53 1024 s mz ez lz) in
  match Qnum q with
  | Z0 => Finite 0
  | Zpos n => round false n
  | Zneg n => round true n
  end.

Definition negative (q : Q) : bool := negb (Qle_bool 0 q).

Definition num_neg (x : number) : number :=
  match x with NaN => NaN | Infinite s => Infinite (negb s) | Finite q => Finite (- q) end.

Definition num_abs (x : number) : number :=
  match x with NaN => NaN | Infinite _ => Infinite false | Finite q => Finite (if negative q then - q else q) end.

Definition num_add (x y : number) : number :=
  match x, y with
  | NaN, _ | _, NaN => NaN
  | Infinite s, Infinite t => if Bool.eqb s t then x else NaN
  | Infinite _, _ => x
  | _, Infinite _ => y
  | Finite p, Finite q => round_double (p + q)
  end.

Definition num_sub (x y : number) : number := num_add x (num_neg y).

Definition is_zero (q : Q) : bool := Qeq_bool q 0.

Definition num_mul (x y : number) : number :=
  match x, y with
  | NaN, _ | _, NaN => NaN
  | Infinite s, Infinite t => Infinite (xorb s t)
  | Infinite s, Finite q | Finite q, Infinite s => if is_zero q then NaN else Infinite (xorb s (negative q))
  | Finite p, Finite q => round_double (p * q)
  end.

Definition num_div (x y : number) : number :=
  match x, y with
  | NaN, _ | _, NaN => NaN
  | Infinite _, Infinite _ => NaN
  | Infinite s, Finite q => Infinite (xorb s (negative q))
  | Finite _, Infinite _ => Finite 0
  | Finite p, Finite q =>
      if is_zero q then (if is_zero p then NaN else Infinite (negative p)) else round_double (p / q)
  end.

(** `x <= y`, `x < y`, `x > y` *)
Definition num_le (x y : number) : bool :=
  match x, y with
  | NaN, _ | _, NaN => false
  | Infinite true, _ => true
  | _, Infinite false => true
  | Finite p, Finite q => Qle_bool p q
  | _, _ => false
  end.

Definition num_lt (x y : number) : bool :=
  match x, y with NaN, _ | _, NaN => false | _, _ => negb (num_le y x) end.

Definition num_gt (x y : number) : bool := num_lt y x.

(** `Math.floor(x)`, an integer or not finite. *)
Definition num_floor (x : number) : number :=
  match x with Finite q => js_num (Qfloor q) | _ => x end.

(** `Math.round(x)`: the integer nearest to the exact value, halves up. *)
Definition num_round (x : number) : number :=
  match x with Finite q => js_num (Qfloor (q + (1 # 2))) | _ => x end.

(** `Number.isInteger(x)` *)
Definition num_isInteger (x : number) : bool :=
  match x with Finite q => Qeq_bool q (inject_Z (Qfloor q)) | _ => false end.

(** `Math.sqrt(x)` of a double: the denominator of its value is a power of two. *)
Definition num_sqrt (x : number) : number :=
  match x with
  | Finite q =>
      match Qnum q with
      | Z0 => Finite 0
      | Zpos n => let '(mz, ez, lz) := SFsqrt_core_binary 53 1024 (Zpos n) (- Z.log2 (Zpos (Qden q))) in
                  value_of (binary_round_aux 53 1024 false mz ez lz)
      | Zneg _ => NaN
      end
  | Infinite true => NaN
  | _ => x
  end.

(** *** Lemmas *)

Lemma num_lt_finite p q : num_lt (Finite p) (Finite q) = false <-> (q <= p)%Q.
Proof. unfold num_lt, num_le. by rewrite negb_false_iff, Qle_bool_iff. Qed.

Lemma num_le_finite p q : num_le (Finite p) (Finite q) = true <-> (p <= q)%Q.
Proof. apply Qle_bool_iff. Qed.

Lemma num_lt_le x y : num_lt x y = true -> num_le y x = false.
Proof. unfold num_lt. destruct x, y; try done; by intros ?%negb_true_iff. Qed.

Lemma num_le_trans x y z : num_le x y = true -> num_le y z = true -> num_le x z = true.
Proof.
  destruct x as [|[]|p], y as [|[]|q], z as [|[]|r]; cbn; try done.
  rewrite !Qle_bool_iff. apply Qle_trans.
Qed.

Lemma num_not_lt x y : isFinite x = true -> isFinite y = true -> num_lt x y = false -> num_le y x = true.
Proof. destruct x, y; try done. intros _ _. by rewrite num_lt_finite, num_le_finite. Qed.

Lemma num_not_gt x y : x <> NaN -> isFinite y = true -> num_gt x y = false -> num_le x y = true.
Proof.
  unfold num_gt, num_lt. destruct x as [|[]|p], y as [| |q]; try done. intros _ _. by intros ?%negb_false_iff.
Qed.

Lemma num_le_not_gt x y : num_le x y = true -> num_gt x y = false.
Proof. unfold num_gt, num_lt. destruct x, y; try done; intros H; by rewrite H. Qed.

(** A rounding of a non-negative mantissa is never NaN. *)
Lemma iter_pos_keeps {A} (P : A -> Prop) (f : A -> A) : (forall x, P x -> P (f x)) -> forall n x, P x -> P (iter_pos f n x).
Proof. intros Hf. induction n as [n IH|n IH|]; intros x Hx; cbn; auto. Qed.

Lemma shr_nonneg m e l : 0 <= m -> 0 <= shr_m (fst (shr_fexp 53 1024 m e l)).
Proof.
  intros Hm. unfold shr_fexp, shr.
  assert (0 <= shr_m (shr_record_of_loc m l)) as H by (destruct l as [|[]]; done).
  destruct (_ - e); [done| |done]. apply (iter_pos_keeps (fun r => 0 <= shr_m r)); [|done].
  intros [[|n|n] r s]; cbn; [done| |lia]. destruct n; cbn; lia.
Qed.

Lemma round_aux_not_nan s m e l : 0 <= m -> value_of (binary_round_aux 53 1024 s m e l) <> NaN.
Proof.
  intros Hm. unfold binary_round_aux. pose proof (shr_nonneg m e l Hm) as H1.
  destruct (shr_fexp 53 1024 m e l) as [r1 e1]. cbn [fst] in H1.
  assert (0 <= round_nearest_even (shr_m r1) (loc_of_shr_record r1)) as H2.
  { unfold round_nearest_even. destruct (loc_of_shr_record r1) as [|[]]; try lia. destruct (Z.even _); lia. }
  pose proof (shr_nonneg _ e1 loc_Exact H2) as H3. destruct (shr_fexp 53 1024 _ e1 loc_Exact) as [r2 e2]. cbn [fst] in H3.
  destruct (shr_m r2); [done| |lia]. by destruct (e2 <=? _).
Qed.

Lemma round_double_not_nan q : round_double q <> NaN.
Proof.
  assert (forall n d s, let '(m, e, l) := SFdiv_core_binary 53 1024 (Zpos n) 0 (Zpos d) 0 in
    value_of (binary_round_aux 53 1024 s m e l) <> NaN) as H.
  { intros n d s. unfold SFdiv_core_binary. set (m' := match _ with Zpos _ => _ | Z0 => _ | Zneg _ => _ end).
    assert (0 <= m') as Hm.
    { unfold m'. destruct (_ - Z.min _ _) eqn:E; try lia. by apply Z.shiftl_nonneg. }
    pose proof (Z_div_nonneg_nonneg m' (Zpos d) Hm ltac:(lia)) as Hd. unfold Z.div in Hd.
    destruct (Z.div_eucl m' (Zpos d)) as [x y]. by apply round_aux_not_nan. }
  unfold round_double. destruct (Qnum q) as [|n|n]; [done|..].
  - specialize (H n (Qden q) false). by destruct (SFdiv_core_binary _ _ _ _ _ _) as [[m e] l].
  - specialize (H n (Qden q) true). by destruct (SFdiv_core_binary _ _ _ _ _ _) as [[m e] l].
Qed.

(** Rounding keeps a double, and rounds 0.1 + 0.2 and its like as JavaScript does. *)
Lemma round_double_examples :
  round_double (1 # 1) = Finite (1 # 1) /\ round_double (3 # 2) = Finite (3 # 2) /\
  num_add (round_double (1 # 10)) (round_double (2 # 10)) = Finite (1351079888211149 # 4503599627370496) /\
  num_add (js_num 9007199254740992) (js_num 1) = js_num 9007199254740992 /\
  num_sqrt (Finite (9 # 4)) = Finite (3 # 2) /\ num_sqrt (js_num 2) = Finite (6369051672525773 # 4503599627370496) /\
  num_mul (js_num (10 ^ 305)) (js_num 10000) = Infinite false /\
  num_sub (js_num 1) (num_div (js_num 1) (js_num 3)) = Finite (3002399751580331 # 4503599627370496).
Proof. by vm_compute. Qed.
