(* ===== verification/Table.v ===== *)
(** Tables of the SQLite stores.

    Every store of the program (`src/kernel/store.ts`, `src/execution/control`,
    `src/execution/approvals`, `src/signer/replay.ts`, `src/autonomy/jobs`)
    keeps its state in tables with a primary key.  A table is modelled as the
    list of its rows in rowid order; the statements the stores prepare are

    - [get]          SELECT * FROM t WHERE key = ?
    - [select]       SELECT * FROM t WHERE p
    - [insert]       INSERT INTO t, failing when the key is taken
    - [update_where] UPDATE t SET f WHERE p
    - [delete_where] DELETE FROM t WHERE p
    - [changes]      the number of rows a WHERE clause touched

    A statement runs inside a synchronous driver call, so it is one atomic
    function on the table. *)
From stdpp Require Import sorting.
From S2P Require Import Prelude.

Section Table.
Context {Row Key : Type} `{EqDecision Key} (key : Row -> Key).

Definition get (k : Key) (t : list Row) : option Row :=
  List.find (fun r => bool_decide (key r = k)) t.

Definition has (k : Key) (t : list Row) : bool :=
  match get k t with Some _ => true | None => false end.

Definition select (p : Row -> bool) (t : list Row) : list Row := List.filter p t.

Definition changes (p : Row -> bool) (t : list Row) : nat := length (List.filter p t).

Definition insert (r : Row) (t : list Row) : option (list Row) :=
  if has (key r) t then None else Some (t ++ [r]).

Definition update_where (p : Row -> bool) (f : Row -> Row) (t : list Row) : list Row :=
  map (fun r => if p r then f r else r) t.

Definition delete_where (p : Row -> bool) (t : list Row) : list Row :=
  List.filter (fun r => negb (p r)) t.

(** The primary key constraint. *)
Definition keyed (t : list Row) : Prop := NoDup (map key t).

Lemma get_Some k t r : get k t = Some r -> r ∈ t /\ key r = k.
Proof.
  unfold get. intros H. apply find_some in H as [Hin Hk].
  rewrite list_elem_of_In. case_bool_decide; done.
Qed.

Lemma get_None k t : get k t = None <-> (forall r, r ∈ t -> key r <> k).
Proof.
  unfold get. split.
  - intros H r Hin Hk. pose proof (find_none _ _ H r) as Hn.
    rewrite <- list_elem_of_In in Hn. specialize (Hn Hin). by case_bool_decide.
  - intros H. destruct (List.find _ t) eqn:E; [|done].
    apply find_some in E as [Hin Hk]. rewrite <- list_elem_of_In in Hin.
    case_bool_decide; [|done]. by destruct (H r Hin).
Qed.

Lemma get_cons k r t :
  get k (r :: t) = if decide (key r = k) then Some r else get k t.
Proof. unfold get. simpl. case_bool_decide; case_decide; done. Qed.

Lemma get_app k t1 t2 :
  get k (t1 ++ t2) = match get k t1 with Some r => Some r | None => get k t2 end.
Proof.
  induction t1 as [|r t1 IH]; [done|]. simpl app. rewrite !get_cons.
  by case_decide.
Qed.

Lemma keyed_get t r : keyed t -> r ∈ t -> get (key r) t = Some r.
Proof.
  unfold keyed. induction t as [|x t IH]; intros Hnd Hin; [by apply elem_of_nil in Hin|].
  rewrite get_cons. apply NoDup_cons in Hnd as [Hx Hnd].
  apply elem_of_cons in Hin as [->|Hin]; [by rewrite decide_True|].
  rewrite decide_False; [by apply IH|].
  intros E. apply Hx. rewrite E. by apply list_elem_of_fmap_2.
Qed.

Lemma has_spec k t : has k t = true <-> exists r, get k t = Some r.
Proof. unfold has. destruct (get k t); split; try done; [eauto|by intros [? ?]]. Qed.

Lemma insert_Some r t t' :
  insert r t = Some t' <-> get (key r) t = None /\ t' = t ++ [r].
Proof. unfold insert, has. destruct (get (key r) t); split; try done; intros H'; [by destruct H'|by simplify_eq|by destruct H' as [_ ->]]. Qed.

Lemma insert_keyed r t t' : insert r t = Some t' -> keyed t -> keyed t'.
Proof.
  intros [Hg ->]%insert_Some Hnd. unfold keyed in *. rewrite map_app.
  apply NoDup_app. split_and!; [done| |apply NoDup_singleton].
  intros k Hk Hk'. simpl in Hk'. apply list_elem_of_singleton in Hk' as ->.
  apply list_elem_of_fmap in Hk as (x & Hx & Hin).
  by destruct (proj1 (get_None _ _) Hg x Hin).
Qed.

Lemma insert_get_eq r t t' : insert r t = Some t' -> get (key r) t' = Some r.
Proof. intros [Hg ->]%insert_Some. rewrite get_app, Hg, get_cons. by rewrite decide_True. Qed.

Lemma insert_get_ne r t t' k :
  insert r t = Some t' -> key r <> k -> get k t' = get k t.
Proof.
  intros [Hg ->]%insert_Some Hk. rewrite get_app, get_cons, decide_False by done.
  by destruct (get k t).
Qed.

Section Update.
Context (p : Row -> bool) (f : Row -> Row).
Hypothesis f_key : forall r, key (f r) = key r.

Lemma update_keys t : map key (update_where p f t) = map key t.
Proof.
  unfold update_where. rewrite map_map. apply map_ext. intros r.
  by destruct (p r).
Qed.

Lemma update_keyed t : keyed t -> keyed (update_where p f t).
Proof. unfold keyed. by rewrite update_keys. Qed.

Lemma update_get k t :
  get k (update_where p f t) =
  (fun r => if p r then f r else r) <$> get k t.
Proof.
  induction t as [|r t IH]; [done|].
  change (update_where p f (r :: t))
    with ((if p r then f r else r) :: update_where p f t).
  rewrite !get_cons.
  assert (key (if p r then f r else r) = key r) as -> by (by destruct (p r)).
  by case_decide.
Qed.
End Update.

Lemma update_elem p f t r :
  r ∈ update_where p f t -> exists x, x ∈ t /\ r = if p x then f x else x.
Proof.
  unfold update_where. intros (x & -> & Hin)%list_elem_of_fmap. eauto.
Qed.

Lemma update_where_none p f t :
  (forall r, r ∈ t -> p r = false) -> update_where p f t = t.
Proof.
  induction t as [|r t IH]; intros H; [done|]. simpl.
  rewrite (H r) by apply list_elem_of_here. f_equal. apply IH.
  intros x Hx. apply H. by apply list_elem_of_further.
Qed.

Lemma delete_keyed p t : keyed t -> keyed (delete_where p t).
Proof.
  unfold keyed, delete_where. intros H. apply NoDup_ListNoDup.
  apply NoDup_ListNoDup in H. induction t as [|r t IH]; simpl; [constructor|].
  inversion_clear H. destruct (negb (p r)); [|by apply IH]. simpl. constructor; [|by apply IH].
  rewrite in_map_iff. intros (x & Hx & [Hin _]%filter_In). apply H0.
  rewrite <- Hx. by apply in_map.
Qed.

Lemma delete_elem p t r : r ∈ delete_where p t <-> r ∈ t /\ p r = false.
Proof.
  unfold delete_where. rewrite !list_elem_of_In, filter_In.
  by rewrite negb_true_iff.
Qed.

Lemma select_elem p t r : r ∈ select p t <-> r ∈ t /\ p r = true.
Proof. unfold select. by rewrite !list_elem_of_In, filter_In. Qed.

Lemma changes_get k q t :
  keyed t ->
  changes (fun r => bool_decide (key r = k) && q r) t =
  match get k t with Some r => if q r then 1%nat else 0%nat | None => 0%nat end.
Proof.
  unfold keyed, changes. induction t as [|r t IH]; intros Hnd; [done|].
  apply NoDup_cons in Hnd as [Hr Hnd]. rewrite get_cons. simpl.
  case_bool_decide as Hk.
  - rewrite decide_True by done.
    assert (List.filter (fun x => bool_decide (key x = k) && q x) t = []) as Ht.
    { apply filter_none. intros x Hx.
      rewrite bool_decide_false; [done|]. intros E. apply Hr. rewrite Hk, <- E.
      by apply list_elem_of_fmap_2. }
    simpl. destruct (q r); simpl; by rewrite Ht.
  - rewrite decide_False by done. by apply IH.
Qed.
End Table.

Lemma keyed_lookup_unique {Row Key} (key : Row -> Key) t i j r r' :
  keyed key t -> t !! i = Some r -> t !! j = Some r' -> key r = key r' -> i = j.
Proof.
  intros Hk Hi Hj E. eapply NoDup_lookup; [exact Hk| |]; rewrite list_lookup_fmap.
  - rewrite Hi. done.
  - rewrite Hj. cbn. by rewrite E.
Qed.

Lemma keyed_same {Row Key} (key : Row -> Key) t r r' :
  keyed key t -> r ∈ t -> r' ∈ t -> key r = key r' -> r = r'.
Proof.
  intros Hk [i Hi]%list_elem_of_lookup [j Hj]%list_elem_of_lookup E.
  assert (i = j) as -> by by eapply keyed_lookup_unique. congruence.
Qed.

Lemma select_keyed {Row Key} (key : Row -> Key) p t : keyed key t -> keyed key (select p t).
Proof.
  unfold select. intros H. pose proof (delete_keyed key (fun r => negb (p r)) t H) as Hd.
  unfold delete_where in Hd. rewrite (filter_ext _ p) in Hd; [done|]. intros r. by rewrite negb_involutive.
Qed.

(** *** Updates of one row *)

Section OneRow.
Context {Row Key : Type} (key : Row -> Key) (p : Row -> bool) (r : Row).

(** In a keyed table a clause that only the key of [r] satisfies, and [r] does,
    touches exactly [r]. *)
Lemma filter_one t :
  keyed key t -> r ∈ t -> p r = true -> (forall x, x ∈ t -> p x = true -> key x = key r) -> List.filter p t = [r].
Proof.
  intros Hk Hin Hp Hu. induction t as [|x t IH]; [by apply elem_of_nil in Hin|].
  apply NoDup_cons in Hk as [Hx Hk]. simpl. apply elem_of_cons in Hin as [<-|Hin].
  - rewrite Hp. f_equal. apply filter_none. intros y Hy. apply not_true_is_false. intros Hpy. apply Hx.
    rewrite <- (Hu y) by (by right || done). by apply list_elem_of_fmap_2.
  - assert (p x = false) as ->.
    { apply not_true_is_false. intros Hpx. apply Hx. rewrite (Hu x) by (by left || done).
      by apply list_elem_of_fmap_2. }
    apply IH; [done..|]. intros y Hy. apply Hu. by right.
Qed.

Lemma changes_one t :
  keyed key t -> r ∈ t -> p r = true -> (forall x, x ∈ t -> p x = true -> key x = key r) -> changes p t = 1%nat.
Proof. intros. unfold changes. by rewrite filter_one. Qed.

Lemma find_one t :
  keyed key t -> r ∈ t -> p r = true -> (forall x, x ∈ t -> p x = true -> key x = key r) -> List.find p t = Some r.
Proof.
  intros Hk Hin Hp Hu. destruct (List.find p t) as [x|] eqn:E.
  - apply find_some in E as [Hx%list_elem_of_In Hpx]. f_equal. by apply (keyed_same key t); auto.
  - pose proof (find_none _ _ E r (proj1 (list_elem_of_In _ _) Hin)). congruence.
Qed.
End OneRow.

Lemma filter_filter_same {A} (p q : A -> bool) l :
  (forall x, p x = true -> q x = true) -> List.filter p l = List.filter p (List.filter q l).
Proof.
  intros H. induction l as [|x l IH]; [done|]. simpl. destruct (q x) eqn:Eq; simpl.
  - destruct (p x); by rewrite IH.
  - destruct (p x) eqn:Ep; [|done]. apply H in Ep. congruence.
Qed.

Lemma changes_zero {Row} (p : Row -> bool) t : (forall x, x ∈ t -> p x = false) -> changes p t = 0%nat.
Proof. intros H. unfold changes. by rewrite filter_none. Qed.

(** An update that takes every row it touches out of a selection. *)
Lemma filter_update_less {Row} (q p : Row -> bool) f (t : list Row) :
  (forall x, x ∈ t -> p x = true -> q x = true /\ q (f x) = false) ->
  (length (List.filter q (update_where p f t)) + changes p t = length (List.filter q t))%nat.
Proof.
  unfold changes. induction t as [|x t IH]; intros H; [done|].
  assert (forall y, y ∈ t -> p y = true -> q y = true /\ q (f y) = false) as H' by (intros y Hy; apply H; by right).
  specialize (IH H'). cbn. destruct (p x) eqn:Ep.
  - destruct (H x) as [-> ->]; [left|done|]. cbn. unfold update_where in IH. lia.
  - unfold update_where in IH. destruct (q x); cbn; lia.
Qed.

(** An update that keeps a selection's clause acts on the selected rows. *)
Lemma select_update {Row} (q p : Row -> bool) f (t : list Row) :
  (forall x, p x = true -> q (f x) = q x) -> select q (update_where p f t) = update_where p f (select q t).
Proof.
  intros Hq. induction t as [|x t IH]; [done|]. cbn.
  assert (q (if p x then f x else x) = q x) as -> by (destruct (p x) eqn:E; auto).
  destruct (q x); [cbn; f_equal|]; exact IH.
Qed.

Create HintDb table.
#[export] Hint Resolve insert_keyed update_keyed delete_keyed : table.

(** Some rows of a sorted list are sorted. *)
Lemma strongly_sorted_filter {A} (R : A -> A -> Prop) p (l : list A) :
  StronglySorted R l -> StronglySorted R (List.filter p l).
Proof.
  induction 1 as [|x l Hl IH Hx]; cbn; [constructor|]. destruct (p x); [|done]. constructor; [done|].
  apply Forall_forall. intros y Hy. apply list_elem_of_In, filter_In in Hy as [Hy _].
  rewrite Forall_forall in Hx. by apply Hx, list_elem_of_In.
Qed.

(** A sorted list grows at its end. *)
Lemma sorted_snoc {A} (R : A -> A -> Prop) l x : StronglySorted R l -> (forall y, y ∈ l -> R y x) -> StronglySorted R (l ++ [x]).
Proof.
  induction 1 as [|t l Hl IH Ht]; intros Hx; cbn; [by repeat constructor|]. constructor.
  - apply IH. intros y Hy. apply Hx. by right.
  - apply Forall_app. split; [done|]. constructor; [|done]. apply Hx. left.
Qed.
