(* ===== verification/Prog.v ===== *)
(** Effectful code.

    An `async` method of the program is a tree of effects: at each node it asks
    its environment for something (a store statement, an RPC answer, a clock
    reading, a signature) and continues with the answer.  [prog E X A] is that
    tree, with [E R] the effects that answer with an [R], [X] the errors a
    `throw` carries and [A] the result.  The same program can then be

    - run against a deterministic environment ([run], used by the witnesses),
    - stepped in a pool of concurrent tasks over one shared store ([pool_step]):
      JavaScript switches tasks only at an `await`, so a step per effect allows
      every interleaving the runtime can produce and more,
    - checked against a protocol ([follows]): what a task may do next, given a
      ghost record of what it did so far.  [pool_invariant] turns a protocol
      that every task follows into an invariant of all interleavings. *)
From S2P Require Import Prelude.

Inductive prog (E : Type -> Type) (X A : Type) : Type :=
  | Ret (a : A)
  | Throw (x : X)
  | Vis (R : Type) (e : E R) (k : R -> prog E X A).

Arguments Ret {E X A} a.
Arguments Throw {E X A} x.
Arguments Vis {E X A R} e k.

Definition trigger {E X R} (e : E R) : prog E X R := Vis e Ret.

Fixpoint bind {E X A B} (p : prog E X A) (f : A -> prog E X B) : prog E X B :=
  match p with
  | Ret a => f a
  | Throw x => Throw x
  | Vis e k => Vis e (fun r => bind (k r) f)
  end.

(** `try { p } catch (x) { h(x) }`; what the handler throws has its own type,
    [Empty_set] when the handler cannot throw. *)
Fixpoint catch {E X Y A} (p : prog E X A) (h : X -> prog E Y A) : prog E Y A :=
  match p with
  | Ret a => Ret a
  | Throw x => h x
  | Vis e k => Vis e (fun r => catch (k r) h)
  end.

(** The same program over a larger set of effects. *)
Fixpoint translate {E F : Type -> Type} {X A} (h : forall R, E R -> F R) (p : prog E X A) : prog F X A :=
  match p with
  | Ret a => Ret a
  | Throw x => Throw x
  | Vis e k => Vis (h _ e) (fun r => translate h (k r))
  end.

(** The same program, its errors tagged: a handler that reads the local
    variables of the `try` block gets their values at the `throw` this way. *)
Definition tag_exn {E X Y A} (f : X -> Y) (p : prog E X A) : prog E Y A :=
  catch p (fun x => Throw (f x)).

(** An answer that may itself be an exception, rethrown. *)
Definition raise {E X A} (r : X + A) : prog E X A :=
  match r with inl x => Throw x | inr a => Ret a end.

Declare Scope prog_scope.
Delimit Scope prog_scope with prog.
Bind Scope prog_scope with prog.
Notation "'let*' x := p 'in' q" := (bind p (fun x => q))
  (at level 10, x name, p at level 100, q at level 200) : prog_scope.
Notation "'let*' ' pat := p 'in' q" := (bind p (fun y => match y with pat => q end))
  (at level 10, pat strict pattern, p at level 100, q at level 200) : prog_scope.
Notation "p ;; q" := (bind p (fun _ => q))
  (at level 100, right associativity) : prog_scope.

(** `if (b) p;` *)
Definition when {E X} (b : bool) (p : prog E X unit) : prog E X unit :=
  if b then p else Ret tt.

(** ** Running against a deterministic environment *)

Section Run.
Context {E : Type -> Type} {W : Type} (h : forall R, E R -> W -> R * W).

Fixpoint run {X A} (p : prog E X A) (w : W) : (X + A) * W :=
  match p with
  | Ret a => (inr a, w)
  | Throw x => (inl x, w)
  | Vis e k => let '(r, w') := h _ e w in run (k r) w'
  end.

Lemma run_bind {X A B} (p : prog E X A) (f : A -> prog E X B) w :
  run (bind p f) w =
  match run p w with
  | (inr a, w') => run (f a) w'
  | (inl x, w') => (inl x, w')
  end.
Proof.
  revert w. induction p as [a|x|R e k IH]; intros w; simpl; [done..|].
  destruct (h R e w) as [r w']. apply IH.
Qed.

Lemma run_catch {X Y A} (p : prog E X A) (g : X -> prog E Y A) w :
  run (catch p g) w =
  match run p w with
  | (inr a, w') => (inr a, w')
  | (inl x, w') => run (g x) w'
  end.
Proof.
  revert w. induction p as [a|x|R e k IH]; intros w; simpl; [done..|].
  destruct (h R e w) as [r w']. apply IH.
Qed.
End Run.

(** ** Traces: the effects of one run and the answers they got *)

Record event (E : Type -> Type) : Type := Event { ev_type : Type; ev_op : E ev_type; ev_ans : ev_type }.
Arguments Event {E ev_type} ev_op ev_ans.

Inductive traces {E X A} : prog E X A -> list (event E) -> prog E X A -> Prop :=
  | traces_nil p : traces p [] p
  | traces_cons R (e : E R) k r l q :
      traces (k r) l q -> traces (Vis e k) (Event e r :: l) q.

(** The trace of a run against a deterministic environment. *)
Section RunTrace.
Context {E : Type -> Type} {W : Type} (h : forall R, E R -> W -> R * W).

Fixpoint run_trace {X A} (p : prog E X A) (w : W) : list (event E) :=
  match p with
  | Ret _ | Throw _ => []
  | Vis e k => let '(r, w') := h _ e w in Event e r :: run_trace (k r) w'
  end.

Definition finished {X A} (r : X + A) : prog E X A :=
  match r with inl x => Throw x | inr a => Ret a end.

Lemma run_traces {X A} (p : prog E X A) w :
  traces p (run_trace p w) (finished (run h p w).1).
Proof.
  revert w. induction p as [a|x|R e k IH]; intros w; simpl; [constructor..|].
  destruct (h R e w) as [r w']. constructor. apply IH.
Qed.
End RunTrace.

(** ** Programs that use only some effects *)

Section Only.
Context {E : Type -> Type} (ok : forall R, E R -> bool).

Fixpoint only {X A} (p : prog E X A) : Prop :=
  match p with
  | Ret _ | Throw _ => True
  | Vis e k => ok _ e = true /\ forall r, only (k r)
  end.

Lemma only_bind {X A B} (p : prog E X A) (f : A -> prog E X B) :
  only p -> (forall a, only (f a)) -> only (bind p f).
Proof. induction p as [a|x|R e k IH]; simpl; intros H Hf; [done..|]. destruct H. split; [done|]. auto. Qed.
End Only.

Lemma only_mono {E : Type -> Type} (ok ok' : forall R, E R -> bool) {X A} (p : prog E X A) :
  only ok p -> (forall R (e : E R), ok _ e = true -> ok' _ e = true) -> only ok' p.
Proof. induction p as [a|x|R e k IH]; simpl; intros H Hok; [done..|]. destruct H. split; auto. Qed.

(** ** Runs over a store

    [exec] says how an effect may change the store and what it may answer;
    [execs] is a whole trace, and [wp p Q s] says that every run of [p] from [s]
    that ends does so with [Q]. *)
Section Wp.
Context {E : Type -> Type} {St : Type} (exec : forall R, E R -> St -> R -> St -> Prop).

Fixpoint execs (l : list (event E)) (s s' : St) : Prop :=
  match l with
  | [] => s' = s
  | Event e r :: l' => exists s1, exec _ e s r s1 /\ execs l' s1 s'
  end.

Fixpoint wp {X A} (p : prog E X A) (Q : X + A -> St -> Prop) (s : St) : Prop :=
  match p with
  | Ret a => Q (inr a) s
  | Throw x => Q (inl x) s
  | Vis e k => forall r s', exec _ e s r s' -> wp (k r) Q s'
  end.

Lemma wp_mono {X A} (p : prog E X A) (Q Q' : X + A -> St -> Prop) s :
  wp p Q s -> (forall r s', Q r s' -> Q' r s') -> wp p Q' s.
Proof.
  intros H HQ. revert s H. induction p as [a|x|R e k IH]; simpl; intros s H; [by auto..|].
  intros r s' Hr. by apply IH, H.
Qed.

Lemma wp_bind {X A B} (p : prog E X A) (f : A -> prog E X B) Q s :
  wp p (fun r s' => match r with inr a => wp (f a) Q s' | inl x => Q (inl x) s' end) s ->
  wp (bind p f) Q s.
Proof.
  revert s. induction p as [a|x|R e k IH]; simpl; intros s H; [done..|].
  intros r s' Hr. by apply IH, H.
Qed.

(** Every trace that a store and its environment allow ends as [wp] says. *)
Lemma wp_traces {X A} (p q : prog E X A) l Q s s' :
  wp p Q s -> traces p l q -> execs l s s' -> wp q Q s'.
Proof.
  intros Hw Ht. revert s Hw. induction Ht as [|R e k r l q Ht IH]; intros s Hw He; simpl in He.
  - by subst.
  - destruct He as (s1 & He & Hl). eapply IH; [|done]. by apply Hw.
Qed.
End Wp.

(** ** Protocols *)

Section Follows.
Context {E : Type -> Type} {G : Type}.
(** May a task with ghost state [g] perform [e]; the answers it may expect;
    its ghost state after the answer. *)
Context (pre : forall R, E R -> G -> Prop)
        (ans : forall R, E R -> R -> Prop)
        (upd : forall R, E R -> R -> G -> G).

Fixpoint follows {X A} (p : prog E X A) (g : G) : Prop :=
  match p with
  | Ret _ | Throw _ => True
  | Vis e k => pre _ e g /\ forall r, ans _ e r -> follows (k r) (upd _ e r g)
  end.

(** [follows] with a postcondition on the result and the ghost state. *)
Fixpoint ensures {X A} (p : prog E X A) (Q : X + A -> G -> Prop) (g : G) : Prop :=
  match p with
  | Ret a => Q (inr a) g
  | Throw x => Q (inl x) g
  | Vis e k => pre _ e g /\ forall r, ans _ e r -> ensures (k r) Q (upd _ e r g)
  end.

Lemma ensures_mono {X A} (p : prog E X A) (Q Q' : X + A -> G -> Prop) g :
  ensures p Q g -> (forall r g', Q r g' -> Q' r g') -> ensures p Q' g.
Proof.
  intros H HQ. revert g H. induction p as [a|x|R e k IH]; simpl; intros g; [by auto..|].
  intros [? H]. split; [done|]. intros r Hr. by apply IH, H.
Qed.

Lemma ensures_bind {X A B} (p : prog E X A) (f : A -> prog E X B) Q g :
  ensures p (fun r g' => match r with
                         | inr a => ensures (f a) Q g'
                         | inl x => Q (inl x) g' end) g ->
  ensures (bind p f) Q g.
Proof.
  revert g. induction p as [a|x|R e k IH]; simpl; intros g; [done..|].
  intros [? H]. split; [done|]. intros r Hr. by apply IH, H.
Qed.

Lemma ensures_catch {X Y A} (p : prog E X A) (h : X -> prog E Y A) Q g :
  ensures p (fun r g' => match r with
                         | inr a => Q (inr a) g'
                         | inl x => ensures (h x) Q g' end) g ->
  ensures (catch p h) Q g.
Proof.
  revert g. induction p as [a|x|R e k IH]; simpl; intros g; [done..|].
  intros [? H]. split; [done|]. intros r Hr. by apply IH, H.
Qed.

(** A program whose effects are all allowed and leave the ghost state alone. *)
Lemma only_ensures (ok : forall R, E R -> bool) {X A} (p : prog E X A) g :
  only ok p -> (forall R (e : E R), ok _ e = true -> pre _ e g /\ forall r, upd _ e r g = g) ->
  ensures p (fun _ g' => g' = g) g.
Proof.
  intros Hp Hok. induction p as [a|x|R e k IH]; simpl in *; [done..|]. destruct Hp as [He Hk].
  destruct (Hok _ _ He) as [H1 H2]. split; [done|]. intros r _. rewrite H2. by apply IH.
Qed.

Lemma ensures_follows {X A} (p : prog E X A) Q g : ensures p Q g -> follows p g.
Proof.
  revert g. induction p as [a|x|R e k IH]; simpl; intros g; [done..|].
  intros [? H]. split; [done|]. intros r Hr. by apply IH, H.
Qed.

(** The ghost state after a trace. *)
Fixpoint ghost_after (l : list (event E)) (g : G) : G :=
  match l with
  | [] => g
  | Event e r :: l' => ghost_after l' (upd _ e r g)
  end.

Definition expected (l : list (event E)) : Prop :=
  Forall (fun '(Event e r) => ans _ e r) l.

Lemma follows_traces {X A} (p q : prog E X A) l g :
  follows p g -> traces p l q -> expected l -> follows q (ghost_after l g).
Proof.
  intros Hf Ht. revert g Hf. induction Ht as [|R e k r l q Ht IH]; intros g Hf Hl; [done|].
  apply Forall_cons in Hl as [Hr Hl]. apply IH; [|done]. destruct Hf as [_ Hf]. by apply Hf.
Qed.

(** What a trace leaves of a program with a postcondition has it too. *)
Lemma ensures_traces {X A} (p q : prog E X A) l Q g :
  ensures p Q g -> traces p l q -> expected l -> ensures q Q (ghost_after l g).
Proof.
  intros Hf Ht. revert g Hf. induction Ht as [|R e k r l q Ht IH]; intros g Hf Hl; [done|].
  apply Forall_cons in Hl as [Hr Hl]. apply IH; [|done]. destruct Hf as [_ Hf]. by apply Hf.
Qed.

Definition allowed (ev : event E) (g : G) : Prop :=
  match ev with Event e _ => pre _ e g end.

(** Every effect of a trace was performed in a ghost state that allows it. *)
Lemma follows_allowed {X A} (p q : prog E X A) l1 ev l2 g :
  follows p g -> traces p (l1 ++ ev :: l2) q -> expected l1 ->
  allowed ev (ghost_after l1 g).
Proof.
  intros Hf Ht. remember (l1 ++ ev :: l2) as l eqn:El. revert l1 g Hf El.
  induction Ht as [|R e k r l q Ht IH]; intros l1 g Hf El Hl; [by destruct l1|].
  destruct Hf as [Hpre Hf].
  destruct l1 as [|ev1 l1]; simpl in El; injection El as Eev El.
  - by subst ev.
  - subst ev1. apply Forall_cons in Hl as [Hr Hl]. simpl.
    by apply IH; [apply Hf| |].
Qed.
End Follows.

(** A protocol whose ghost state is the history of the task, latest event first. *)
Definition record_event {E : Type -> Type} R (e : E R) (r : R) (h : list (event E)) : list (event E) :=
  Event e r :: h.

Lemma ghost_after_history {E : Type -> Type} (l h : list (event E)) :
  ghost_after record_event l h = rev l ++ h.
Proof.
  revert h. induction l as [|[R e r] l IH]; intros h; simpl; [done|].
  unfold record_event at 2. rewrite IH, <- app_assoc. done.
Qed.

Lemma history_allowed {E : Type -> Type} {X A} (pre : forall R, E R -> list (event E) -> Prop)
    (p q : prog E X A) l1 ev l2 :
  follows pre (fun _ _ _ => True) record_event p [] -> traces p (l1 ++ ev :: l2) q ->
  allowed pre ev (rev l1).
Proof.
  intros Hf Ht. rewrite <- (app_nil_r (rev l1)), <- ghost_after_history.
  eapply follows_allowed; [done..|]. apply Forall_forall. by intros [].
Qed.

Lemma history_result {E : Type -> Type} {X A} (pre : forall R, E R -> list (event E) -> Prop)
    (p : prog E X A) Q l a :
  ensures pre (fun _ _ _ => True) record_event p Q [] -> traces p l (Ret a) -> Q (inr a) (rev l).
Proof.
  intros He Ht. eapply ensures_traces in He; [|exact Ht|].
  - simpl in He. by rewrite ghost_after_history, app_nil_r in He.
  - apply Forall_forall. by intros [].
Qed.

(** ** Concurrent tasks over one shared state *)

Section Pool.
Context {E : Type -> Type} {X A St : Type}.
(** One effect of task [i] on the shared state: any answer and state it allows. *)
Context (exec : nat -> forall R, E R -> St -> R -> St -> Prop).
(** The programs task [n] may be. *)
Context (startable : nat -> prog E X A -> Prop).

Inductive pool_step : St * list (prog E X A) -> St * list (prog E X A) -> Prop :=
  | pool_run s ts i R (e : E R) k r s' :
      ts !! i = Some (Vis e k) -> exec i _ e s r s' ->
      pool_step (s, ts) (s', <[i := k r]> ts)
  | pool_start s ts p :
      startable (length ts) p -> pool_step (s, ts) (s, ts ++ [p]).

Definition pool_reachable (s0 : St) : St * list (prog E X A) -> Prop :=
  rtc pool_step (s0, []).

Context {G : Type}
        (pre : forall R, E R -> G -> Prop)
        (ans : forall R, E R -> R -> Prop)
        (upd : forall R, E R -> R -> G -> G)
        (start : nat -> G -> Prop) (Inv : St -> list G -> Prop).

Definition pool_ok (c : St * list (prog E X A)) : Prop :=
  exists gs, Inv c.1 gs /\ Forall2 (fun p g => follows pre ans upd p g) c.2 gs.

Hypothesis exec_ans : forall i R (e : E R) s r s', exec i _ e s r s' -> ans _ e r.
Hypothesis start_follows : forall n p, startable n p ->
  exists g, start n g /\ follows pre ans upd p g.
Hypothesis inv_start : forall s gs g, Inv s gs -> start (length gs) g -> Inv s (gs ++ [g]).
Hypothesis inv_step : forall i R (e : E R) s r s' gs g,
  Inv s gs -> gs !! i = Some g -> pre _ e g -> exec i _ e s r s' ->
  Inv s' (<[i := upd _ e r g]> gs).

Lemma pool_step_ok c c' : pool_step c c' -> pool_ok c -> pool_ok c'.
Proof.
  intros Hs (gs & HI & Hfs). destruct Hs as [s ts i R e k r s' Hi He|s ts p Hp]; simpl in *.
  - destruct (Forall2_lookup_l _ _ _ _ _ Hfs Hi) as (g & Hg & Hpre & Hf).
    exists (<[i := upd _ e r g]> gs). split; [by eapply inv_step|].
    apply Forall2_insert; [done|]. eapply Hf, exec_ans, He.
  - destruct (start_follows _ _ Hp) as (g & Hg & Hf).
    exists (gs ++ [g]). split; [apply inv_start; [done|by rewrite <- (Forall2_length _ _ _ Hfs)]|].
    apply Forall2_app; [done|]. constructor; [done|constructor].
Qed.

Lemma pool_invariant s0 c : Inv s0 [] -> pool_reachable s0 c -> pool_ok c.
Proof.
  intros HI Hr. assert (pool_ok (s0, [])) as Hok by (exists []; split; [done|constructor]).
  unfold pool_reachable in Hr. revert Hok.
  induction Hr as [c|c1 c2 c3 H12 _ IH]; intros Hok; [done|].
  by eapply IH, pool_step_ok.
Qed.
End Pool.

(** The same effect, logged with the task that performed it, latest first. *)
Definition logged {E : Type -> Type} {St} (exec : nat -> forall R, E R -> St -> R -> St -> Prop)
    (i : nat) R (e : E R) (sl : St * list (nat * event E)) (r : R) (sl' : St * list (nat * event E)) : Prop :=
  exec i R e sl.1 r sl'.1 /\ sl'.2 = (i, Event e r) :: sl.2.

(** A task run to its end by a handler that answers as the environment may is a
    sequence of pool steps. *)
Section RunPool.
Context {E : Type -> Type} {X A St : Type}.
Context (exec : nat -> forall R, E R -> St -> R -> St -> Prop)
        (startable : nat -> prog E X A -> Prop).
Context (h : nat -> forall R, E R -> St -> R * St).
Hypothesis h_exec : forall i R (e : E R) s, exec i _ e s (h i _ e s).1 (h i _ e s).2.

Lemma run_pool (p : prog E X A) ts i s :
  ts !! i = Some p ->
  rtc (pool_step exec startable) (s, ts)
      ((run (h i) p s).2, <[i := finished (run (h i) p s).1]> ts).
Proof.
  revert ts s. induction p as [a|x|R e k IH]; intros ts s Hi; simpl.
  - by rewrite list_insert_id.
  - by rewrite list_insert_id.
  - pose proof (h_exec i R e s) as He. destruct (h i R e s) as [r s'] eqn:Eh. simpl in He.
    eapply rtc_l; [by eapply pool_run|].
    assert (i < length ts)%nat by by eapply lookup_lt_Some.
    specialize (IH r (<[i := k r]> ts) s').
    rewrite list_insert_insert_eq in IH. apply IH. by apply list_lookup_insert_eq.
Qed.

Lemma run_pool_one (p : prog E X A) s :
  startable 0%nat p -> pool_reachable exec startable s ((run (h 0%nat) p s).2, [finished (run (h 0%nat) p s).1]).
Proof.
  intros Hp. eapply rtc_l; [by apply pool_start|]. simpl.
  by apply (run_pool p [p] 0 s).
Qed.

(** Tasks run one after the other. *)
Fixpoint run_seq (n : nat) (ps : list (prog E X A)) (s : St) : St :=
  match ps with
  | [] => s
  | p :: ps' => run_seq (S n) ps' (run (h n) p s).2
  end.

Lemma run_pool_seq s0 ps ts s :
  pool_reachable exec startable s0 (s, ts) ->
  (forall k p, ps !! k = Some p -> startable (length ts + k)%nat p) ->
  exists ts', pool_reachable exec startable s0 (run_seq (length ts) ps s, ts').
Proof.
  revert ts s. induction ps as [|p ps IH]; intros ts s Hr Hp; [by eauto|]. simpl.
  assert (startable (length ts) p) as Hs by (rewrite <- (Nat.add_0_r (length ts)); by apply Hp).
  destruct (IH (ts ++ [finished (run (h (length ts)) p s).1]) (run (h (length ts)) p s).2)
    as (ts' & Hts').
  - unfold pool_reachable in *. etrans; [exact Hr|]. eapply rtc_l; [by apply pool_start|].
    pose proof (run_pool p (ts ++ [p]) (length ts) s) as Hrun.
    rewrite list_lookup_middle in Hrun by done. specialize (Hrun eq_refl).
    by rewrite insert_app_r_alt, Nat.sub_diag in Hrun by done.
  - intros k q Hq. rewrite length_app. simpl.
    replace (length ts + 1 + k)%nat with (length ts + S k)%nat by lia. by apply Hp.
  - exists ts'. by rewrite length_app, Nat.add_comm in Hts'.
Qed.

(** Tasks interleaved as a schedule says: each entry lets that task do its next
    effect. *)
Fixpoint run_schedule (l : list nat) (c : St * list (prog E X A)) : St * list (prog E X A) :=
  match l with
  | [] => c
  | i :: l' =>
      match c.2 !! i with
      | Some (Vis e k) => let '(r, s') := h i _ e c.1 in run_schedule l' (s', <[i := k r]> c.2)
      | _ => run_schedule l' c
      end
  end.

Lemma run_schedule_steps l c : rtc (pool_step exec startable) c (run_schedule l c).
Proof.
  revert c. induction l as [|i l IH]; intros [s ts]; simpl; [apply rtc_refl|].
  destruct (ts !! i) as [[a|x|R e k]|] eqn:Hi; [apply IH..| |apply IH].
  pose proof (h_exec i R e s) as He. destruct (h i R e s) as [r s'] eqn:Eh. simpl in He.
  eapply rtc_l; [by eapply pool_run|apply IH].
Qed.

Lemma start_all s ps ts : (forall k p, ps !! k = Some p -> startable (length ts + k)%nat p) ->
  rtc (pool_step exec startable) (s, ts) (s, ts ++ ps).
Proof.
  revert ts. induction ps as [|p ps IH]; intros ts Hp; [rewrite app_nil_r; apply rtc_refl|].
  eapply rtc_l; [apply pool_start; rewrite <- (Nat.add_0_r (length ts)); by apply Hp|].
  rewrite (cons_middle p ts ps), app_assoc. apply IH. intros k q Hq. rewrite length_app. simpl.
  replace (length ts + 1 + k)%nat with (length ts + S k)%nat by lia. by apply Hp.
Qed.

Lemma run_schedule_reachable l ps s :
  (forall k p, ps !! k = Some p -> startable k p) ->
  pool_reachable exec startable s (run_schedule l (s, ps)).
Proof. intros Hp. unfold pool_reachable. etrans; [by apply (start_all s ps [])|apply run_schedule_steps]. Qed.
End RunPool.

(** A handler that logs what it did. *)
Definition logging {E : Type -> Type} {St} (h : nat -> forall R, E R -> St -> R * St)
    (i : nat) R (e : E R) (sl : St * list (nat * event E)) : R * (St * list (nat * event E)) :=
  let '(r, s') := h i R e sl.1 in (r, (s', (i, Event e r) :: sl.2)).

Lemma logging_logged {E : Type -> Type} {St} (exec : nat -> forall R, E R -> St -> R -> St -> Prop) h :
  (forall i R (e : E R) s, exec i _ e s (h i _ e s).1 (h i _ e s).2) ->
  forall i R (e : E R) s, logged exec i _ e s (logging h i _ e s).1 (logging h i _ e s).2.
Proof.
  intros Hh i R e s. unfold logging, logged. pose proof (Hh i R e s.1) as H.
  by destruct (h i R e s.1).
Qed.

(** Membership of an event in a history that is a concrete list. *)
Ltac in_history :=
  unfold record_event;
  repeat first [ apply list_elem_of_here | apply list_elem_of_further ].

Ltac unit_answers := repeat match goal with u : unit |- _ => destruct u end.
