(* ===== verification/Once.v ===== *)
(** At most once per key.

    Two parts of the program fence an action with a claim on a key: the trade
    gateway signs only after it inserted the idempotency key
    (`src/kernel/trade-gateway.ts`), the signer only after it inserted the
    authorization id (`src/signer/index.ts`).  The argument is the same and is
    made here once, for any pool of tasks: if a claim is granted only when the
    key is free, a granted key stays taken, and every task acts at most once and
    only under its own granted claim, then no key is acted on twice, whatever the
    interleaving, and a key taken before the start is not acted on at all. *)
From S2P Require Import Prelude Prog.

Record Fence : Type := { fc_key : string; fc_claimed : bool; fc_used : bool }.

Section Once.
Context {E : Type -> Type} {X A St : Type}.
Context (exec : nat -> forall R, E R -> St -> R -> St -> Prop)
        (startable : nat -> prog E X A -> Prop).
(** The key task [n] works on; the key an effect claims, whether the answer
    grants it, whether an effect is the fenced action; the keys of a store. *)
Context (key_of : nat -> option string)
        (claims : forall R, E R -> option string)
        (granted : forall R, E R -> R -> bool)
        (acts : forall R, E R -> bool)
        (taken : St -> string -> Prop).

Definition fence_pre R (e : E R) (g : Fence) : Prop :=
  (forall k, claims _ e = Some k -> k = fc_key g /\ fc_claimed g = false) /\
  (acts _ e = true -> fc_claimed g = true /\ fc_used g = false).

Definition fence_upd R (e : E R) (r : R) (g : Fence) : Fence :=
  {| fc_key := fc_key g;
     fc_claimed := match claims _ e with Some _ => granted _ e r | None => fc_claimed g end;
     fc_used := fc_used g || acts _ e |}.

Definition fence_start (n : nat) (g : Fence) : Prop :=
  exists k, key_of n = Some k /\ g = {| fc_key := k; fc_claimed := false; fc_used := false |}.

(** *** Programs that neither claim nor act *)

Definition idle R (e : E R) : bool :=
  match claims _ e with Some _ => false | None => negb (acts _ e) end.

Lemma idle_fence g R (e : E R) : idle _ e = true -> fence_pre _ e g /\ forall r, fence_upd _ e r g = g.
Proof.
  unfold idle, fence_pre, fence_upd. destruct g, (claims _ e), (acts _ e); try done. intros _. split; [done|].
  intros r. cbn. by rewrite orb_false_r.
Qed.

#[local] Abbreviation fenced := (ensures fence_pre (fun _ _ _ => True) fence_upd).

Lemma idle_fenced {Y B} (p : prog E Y B) g : only idle p -> fenced p (fun _ g' => g' = g) g.
Proof. intros H. by apply (only_ensures _ _ _ idle), idle_fence. Qed.

(** A program that first runs [p], which is idle. *)
Lemma fenced_after {Y B C} (p : prog E Y B) (f : B -> prog E Y C) Q g :
  only idle p -> (forall x, Q (inl x) g) -> (forall b, fenced (f b) Q g) -> fenced (bind p f) Q g.
Proof.
  intros Hp Hx Hf. apply ensures_bind. eapply ensures_mono; [by apply idle_fenced|]. by intros [x|b] g' ->.
Qed.

(** The keys acted on, one entry per action. *)
Definition acted (log : list (nat * event E)) : list string :=
  omap (fun '(n, ev) => match ev with Event e _ => if acts _ e then key_of n else None end) log.

Hypothesis start_follows : forall n p, startable n p ->
  exists g, fence_start n g /\ follows fence_pre (fun _ _ _ => True) fence_upd p g.
Hypothesis claim_frees : forall i R (e : E R) s r s' k,
  exec i _ e s r s' -> claims _ e = Some k -> granted _ e r = true -> ~ taken s k /\ taken s' k.
Hypothesis taken_stays : forall i R (e : E R) s r s' k, exec i _ e s r s' -> taken s k -> taken s' k.
Hypothesis acts_not_claims : forall R (e : E R), acts _ e = true -> claims _ e = None.

Context (s0 : St).

Record fence_inv (c : St * list (nat * event E)) (gs : list Fence) : Prop := {
  fi_key : forall n g, gs !! n = Some g -> key_of n = Some (fc_key g);
  fi_claimed : forall n g, gs !! n = Some g -> fc_claimed g = true ->
    taken c.1 (fc_key g) /\ ~ taken s0 (fc_key g);
  fi_unique : forall n m g h, gs !! n = Some g -> gs !! m = Some h ->
    fc_claimed g = true -> fc_claimed h = true -> fc_key g = fc_key h -> n = m;
  fi_old : forall k, taken s0 k -> taken c.1 k;
  fi_nodup : NoDup (acted c.2);
  fi_acted : forall k, k ∈ acted c.2 ->
    exists n g, gs !! n = Some g /\ fc_key g = k /\ fc_claimed g = true /\ fc_used g = true
}.

Lemma fence_inv_start c gs g : fence_inv c gs -> fence_start (length gs) g -> fence_inv c (gs ++ [g]).
Proof.
  intros [Hk Hc Hu Ho Hn Hs] (k & Hkey & ->).
  pose proof (fun n g => proj1 (lookup_app_Some gs [{| fc_key := k; fc_claimed := false; fc_used := false |}] n g)) as Hl.
  split; try done.
  - intros n g [H|[Hlt H]]%Hl; [by apply Hk|].
    apply list_lookup_singleton_Some in H as [Hz <-]. simpl.
    by replace n with (length gs) by lia.
  - intros n g [H|[_ H]]%Hl; [by eapply Hc|]. by apply list_lookup_singleton_Some in H as [_ <-].
  - intros n m g h [Hg|[_ Hg]]%Hl [Hh|[_ Hh]]%Hl; [by eapply Hu|..];
      repeat match goal with H : [_] !! _ = Some _ |- _ => apply list_lookup_singleton_Some in H as [_ <-] end; done.
  - intros k' (n & g & Hg & ?)%Hs. exists n, g. split; [|done]. by apply lookup_app_l_Some.
Qed.

(** A claim that succeeds: the key was free and is now this task's. *)
Lemma fence_inv_claim s s' log gs i g :
  fence_inv (s, log) gs -> gs !! i = Some g -> fc_claimed g = false -> ~ taken s (fc_key g) ->
  taken s' (fc_key g) -> (forall k, taken s k -> taken s' k) ->
  fence_inv (s', log) (<[i := {| fc_key := fc_key g; fc_claimed := true; fc_used := fc_used g |}]> gs).
Proof.
  intros [Hk Hc Hu Ho Hn Hs] Hi Hcl Hfree Htaken Hmono.
  match goal with |- fence_inv _ (<[i := ?g']> _) =>
    pose proof (fun n h => insert_lookup_cases gs i n g' h) as Hl end.
  assert (forall n h, gs !! n = Some h -> fc_claimed h = true -> fc_key h <> fc_key g) as Hnew.
  { intros m h Hh Hch E1. destruct (Hc _ _ Hh Hch) as [Hin _]. by rewrite E1 in Hin. }
  split; simpl; try done.
  - intros m h [[-> ->]|[_ Hh]]%Hl; simpl; by apply Hk.
  - intros m h [[-> ->]|[_ Hh]]%Hl Hch; simpl.
    + split; [done|]. intros Hold. by apply Hfree, Ho.
    + destruct (Hc _ _ Hh Hch). split; [by apply Hmono|done].
  - intros n1 n2 h1 h2 [[-> ->]|[? H1]]%Hl [[-> ->]|[? H2]]%Hl; simpl; intros C1 C2 E1;
      [done| | |by eapply Hu].
    + by destruct (Hnew _ _ H2 C2).
    + by destruct (Hnew _ _ H1 C1).
  - intros k Hold. by apply Hmono, Ho.
  - intros k Hin. destruct (Hs k Hin) as (m & h & Hh & ? & Hch & ?).
    exists m, h. split; [|done]. rewrite list_lookup_insert_ne; [done|]. intros ->. congruence.
Qed.

(** The action: the key is this task's alone, and it did not act before. *)
Lemma fence_inv_act s log gs i g R (e : E R) a :
  fence_inv (s, log) gs -> gs !! i = Some g -> fc_claimed g = true -> fc_used g = false ->
  acts _ e = true ->
  fence_inv (s, (i, Event e a) :: log)
    (<[i := {| fc_key := fc_key g; fc_claimed := fc_claimed g; fc_used := true |}]> gs).
Proof.
  intros [Hk Hc Hu Ho Hn Hs] Hi Hcl Hsg Hact.
  match goal with |- fence_inv _ (<[i := ?g']> _) =>
    pose proof (fun n h => insert_lookup_cases gs i n g' h) as Hl end.
  assert (i < length gs)%nat as Hlt by by eapply lookup_lt_Some.
  split; simpl; try done.
  - intros m h [[-> ->]|[_ Hh]]%Hl; simpl; by apply Hk.
  - intros m h [[-> ->]|[_ Hh]]%Hl Hch; simpl; [by apply (Hc _ _ Hi)|by apply (Hc _ _ Hh)].
  - intros n1 n2 h1 h2 [[-> ->]|[? H1]]%Hl [[-> ->]|[? H2]]%Hl; simpl; intros C1 C2 E1;
      [done|by eapply (Hu i n2)|by eapply (Hu n1 i)|by eapply (Hu n1 n2)].
  - rewrite Hact, (Hk _ _ Hi). apply NoDup_cons. split; [|done].
    intros (m & h & Hh & E1 & Hch & Hsh)%Hs.
    assert (m = i) as -> by by eapply Hu. congruence.
  - rewrite Hact, (Hk _ _ Hi). intros k [->|(m & h & Hh & ? & Hch & ?)%Hs]%elem_of_cons.
    + eexists i, _. by rewrite list_lookup_insert_eq.
    + destruct (decide (m = i)) as [->|Hne].
      * eexists i, _. rewrite list_lookup_insert_eq by done. by simplify_eq/=.
      * exists m, h. by rewrite list_lookup_insert_ne.
Qed.

Lemma fence_inv_mono s s' log gs :
  fence_inv (s, log) gs -> (forall k, taken s k -> taken s' k) -> fence_inv (s', log) gs.
Proof.
  intros [Hk Hc Hu Ho Hn Hs] Hmono. split; simpl in *; try done.
  - intros n g Hg Hcl. destruct (Hc _ _ Hg Hcl). split; [by apply Hmono|done].
  - intros k Hk0. by apply Hmono, Ho.
Qed.

Lemma fence_inv_log s log gs i R (e : E R) a :
  fence_inv (s, log) gs -> acts _ e = false -> fence_inv (s, (i, Event e a) :: log) gs.
Proof. intros [Hk Hc Hu Ho Hn Hs] Hact. split; simpl; rewrite ?Hact; done. Qed.

Lemma fence_inv_step i R (e : E R) c r c' gs g :
  fence_inv c gs -> gs !! i = Some g -> fence_pre _ e g -> logged exec i _ e c r c' ->
  fence_inv c' (<[i := fence_upd _ e r g]> gs).
Proof.
  destruct c as [s log], c' as [s' log']. intros HI Hi [Hpc Hpa] [He Hlog]. simpl in He, Hlog. subst log'.
  assert (forall k, taken s k -> taken s' k) as Hmono by (intros k; by eapply taken_stays).
  destruct (acts _ e) eqn:Ea.
  - destruct (Hpa eq_refl) as [Hcl Hus]. unfold fence_upd. rewrite (acts_not_claims _ _ Ea), Ea, orb_true_r.
    apply fence_inv_act; try done. by eapply fence_inv_mono.
  - destruct (claims _ e) as [k|] eqn:Ec; [destruct (granted _ e r) eqn:Eg|].
    + destruct (Hpc k eq_refl) as [-> Hcl].
      destruct (claim_frees _ _ _ _ _ _ _ He Ec Eg) as [Hfree Htaken].
      unfold fence_upd. rewrite Ec, Eg, Ea, orb_false_r.
      apply fence_inv_log; [|done]. by eapply fence_inv_claim.
    + destruct (Hpc k eq_refl) as [_ Hcl].
      assert (fence_upd _ e r g = g) as ->.
      { unfold fence_upd. rewrite Ec, Eg, Ea, orb_false_r, <- Hcl. by destruct g. }
      rewrite list_insert_id by done.
      apply fence_inv_log; [|done]. by eapply fence_inv_mono.
    + assert (fence_upd _ e r g = g) as ->.
      { unfold fence_upd. rewrite Ec, Ea, orb_false_r. by destruct g. }
      rewrite list_insert_id by done.
      apply fence_inv_log; [|done]. by eapply fence_inv_mono.
Qed.

Lemma acts_once s log ts :
  pool_reachable (logged exec) startable (s0, []) ((s, log), ts) ->
  NoDup (acted log) /\ forall k, k ∈ acted log -> ~ taken s0 k.
Proof.
  intros Hreach.
  assert (fence_inv (s0, []) []) as H0.
  { split; try done; [constructor|]. intros k Hk. by apply elem_of_nil in Hk. }
  destruct (pool_invariant _ _ _ _ _ _ _ (fun _ _ _ _ _ _ _ => I) start_follows
              fence_inv_start fence_inv_step _ _ H0 Hreach) as (gs & [Hk Hc Hu Ho Hn Hs] & _).
  split; [done|]. intros k (n & g & Hg & <- & Hcl & _)%Hs. by apply (Hc _ _ Hg).
Qed.
End Once.
