(* ===== verification/Canonical.v ===== *)
(** Canonical serialization.

    `src/execution/control` (`canonical`), `src/execution/approvals`
    (`canonicalSerialize`) and `src/autonomy/jobs` (`canonical`) print a value as
    JSON with the keys of every object sorted, and hash or compare the text.  The
    printer is shared here, with the theorem the callers rely on: equal texts
    come from equal values, up to the order of keys.

    A [value] is what the code can be handed: a JSON value, a `bigint`, or
    something it refuses.  Values are trees, so the cycle check of the source
    never fires on one; a number is an integer below 10^21, printed in decimal;
    a string is its UTF-8 text, and keys are ASCII, where the UTF-16 order of
    `sort()` is the byte order. *)
From stdpp Require Import sorting pretty.
From S2P Require Import Prelude Table.
From Stdlib Require Import Ascii.
#[local] Open Scope string_scope.
#[local] Open Scope Z_scope.

#[local] Arguments String.append !_ _ / : simpl nomatch.
#[local] Infix "+++" := String.append (at level 60, right associativity).

(** *** Strings *)

Definition hex_digit (n : nat) : ascii :=
  match String.get n "0123456789abcdef" with Some c => c | None => "0"%char end.

Definition dquote : ascii := ascii_of_nat 34.
Definition backslash : ascii := ascii_of_nat 92.

(** A backslash and a character. *)
Definition slashed (c : ascii) : string := String backslash (String c "").

(** One character of a JSON string, as `JSON.stringify` escapes it. *)
Definition escape (c : ascii) : string :=
  let n := nat_of_ascii c in
  if (n =? 34)%nat || (n =? 92)%nat then slashed c
  else if (n =? 8)%nat then slashed "b"
  else if (n =? 9)%nat then slashed "t"
  else if (n =? 10)%nat then slashed "n"
  else if (n =? 12)%nat then slashed "f"
  else if (n =? 13)%nat then slashed "r"
  else if (n <? 32)%nat
  then slashed "u" +++ "00" +++ String (hex_digit (n / 16)) (String (hex_digit (n mod 16)) "")
  else String c "".

Fixpoint escape_all (s : string) : string :=
  match s with
  | "" => ""
  | String c s' => escape c +++ escape_all s'
  end.

(** `JSON.stringify` on a string. *)
Definition quoted (s : string) : string := String dquote (escape_all s +++ String dquote "").

(** `arr.join(",")` *)
Fixpoint join (l : list string) : string :=
  match l with
  | [] => ""
  | [x] => x
  | x :: l' => x +++ "," +++ join l'
  end.

(** *** Values *)

#[warnings="-register-all"]
Inductive value : Type :=
  | V_null
  | V_bool (b : bool)
  | V_string (s : string)
  | V_number (z : Z)
  | V_bigint (z : Z)
  | V_array (l : list value)
  | V_object (fields : list (string * value))
  | V_other.

Section ValueInd.
Context (P : value -> Prop).
Hypotheses (Hnull : P V_null) (Hbool : forall b, P (V_bool b)) (Hstr : forall s, P (V_string s))
  (Hnum : forall z, P (V_number z)) (Hbig : forall z, P (V_bigint z))
  (Harr : forall l, Forall P l -> P (V_array l))
  (Hobj : forall fs, Forall (fun f => P (snd f)) fs -> P (V_object fs))
  (Hoth : P V_other).

Fixpoint value_strong_ind (v : value) : P v :=
  match v with
  | V_null => Hnull
  | V_bool b => Hbool b
  | V_string s => Hstr s
  | V_number z => Hnum z
  | V_bigint z => Hbig z
  | V_array l => Harr l ((fix go l := match l return Forall P l with
      | [] => List.Forall_nil P
      | x :: l' => List.Forall_cons P x l' (value_strong_ind x) (go l') end) l)
  | V_object fs => Hobj fs ((fix go l := match l return Forall (fun f => P (snd f)) l with
      | [] => List.Forall_nil _
      | x :: l' => List.Forall_cons _ x l' (value_strong_ind (snd x)) (go l') end) fs)
  | V_other => Hoth
  end.
End ValueInd.

(** The order of `Object.keys(v).sort()`. *)
Definition key_le {A} (x y : string * A) : Prop := String.le (fst x) (fst y).

#[export] Instance key_le_dec {A} : RelDecision (@key_le A).
Proof. intros x y. unfold key_le. apply _. Defined.

Definition sort_keys {A} (fs : list (string * A)) : list (string * A) := merge_sort key_le fs.

(** The value with the keys of every object sorted. *)
Fixpoint sorted (v : value) : value :=
  match v with
  | V_array l => V_array (map sorted l)
  | V_object fs => V_object (sort_keys (map (fun f => (fst f, sorted (snd f))) fs))
  | _ => v
  end.

Fixpoint print (v : value) : string :=
  match v with
  | V_null => "null"
  | V_bool true => "true"
  | V_bool false => "false"
  | V_string s => quoted s
  | V_number z => pretty z
  | V_bigint z => "{" +++ quoted "$bigint" +++ ":" +++ quoted (pretty z) +++ "}"
  | V_array l => "[" +++ join (map print l) +++ "]"
  | V_object fs => "{" +++ join (map (fun f => quoted (fst f) +++ ":" +++ print (snd f)) fs) +++ "}"
  | V_other => ""
  end.

(** *** Reading a string back *)

Lemma sapp_nil s : s +++ "" = s.
Proof. induction s as [|c s IH]; simpl; [done|by rewrite IH]. Qed.

Lemma sapp_assoc s t u : (s +++ t) +++ u = s +++ (t +++ u).
Proof. induction s as [|c s IH]; simpl; [done|by rewrite IH]. Qed.

Definition hex_value (c : ascii) : nat :=
  match String.index 0 (String c "") "0123456789abcdef" with Some n => n | None => 0 end.

(** The first character of an escaped text, and the rest. *)
Definition unescape (s : string) : option (ascii * string) :=
  match s with
  | String c (String d r) =>
      if ascii_dec c backslash then
        if ascii_dec d "u" then
          match r with
          | String _ (String _ (String h (String l r'))) =>
              Some (ascii_of_nat (hex_value h * 16 + hex_value l), r')
          | _ => None
          end
        else if ascii_dec d "b" then Some (ascii_of_nat 8, r)
        else if ascii_dec d "t" then Some (ascii_of_nat 9, r)
        else if ascii_dec d "n" then Some (ascii_of_nat 10, r)
        else if ascii_dec d "f" then Some (ascii_of_nat 12, r)
        else if ascii_dec d "r" then Some (ascii_of_nat 13, r)
        else Some (d, r)
      else if ascii_dec c dquote then None else Some (c, String d r)
  | _ => None
  end.

Lemma unescape_escape c a r : unescape (escape c +++ String a r) = Some (c, String a r).
Proof. destruct c as [[] [] [] [] [] [] [] []]; reflexivity. Qed.

Lemma unescape_dquote r : unescape (String dquote r) = None.
Proof. by destruct r. Qed.

(** Every text that follows a character starts with something. *)
Lemma escaped_starts s r : exists a t, escape_all s +++ String dquote r = String a t.
Proof.
  destruct s as [|c s]; simpl; [by eauto|].
  rewrite sapp_assoc. destruct c as [[] [] [] [] [] [] [] []]; simpl; eauto.
Qed.

Lemma escape_all_inj s t x y :
  escape_all s +++ String dquote x = escape_all t +++ String dquote y -> s = t /\ x = y.
Proof.
  revert t. induction s as [|c s IH]; intros [|d t] H; simpl in H.
  - by simplify_eq.
  - rewrite sapp_assoc in H. destruct (escaped_starts t y) as (a & r & E). rewrite E in H.
    pose proof (unescape_escape d a r) as Hd. by rewrite <- H, unescape_dquote in Hd.
  - rewrite sapp_assoc in H. destruct (escaped_starts s x) as (a & r & E). rewrite E in H.
    pose proof (unescape_escape c a r) as Hc. by rewrite H, unescape_dquote in Hc.
  - rewrite !sapp_assoc in H.
    destruct (escaped_starts s x) as (a1 & r1 & E1), (escaped_starts t y) as (a2 & r2 & E2).
    rewrite E1, E2 in H. pose proof (unescape_escape c a1 r1) as H1.
    rewrite H, unescape_escape in H1. simplify_eq. rewrite <- E2 in E1.
    destruct (IH t E1) as [-> ->]. done.
Qed.

Lemma quoted_inj s t x y : quoted s +++ x = quoted t +++ y -> s = t /\ x = y.
Proof.
  unfold quoted. simpl. rewrite !sapp_assoc. simpl. intros [= H]. by apply escape_all_inj.
Qed.

(** *** Reading a number back *)

Definition numeral (c : ascii) : bool :=
  let n := nat_of_ascii c in ((48 <=? n) && (n <=? 57) || (n =? 45))%nat.

Fixpoint all_chars (p : ascii -> bool) (s : string) : bool :=
  match s with "" => true | String c s' => p c && all_chars p s' end.

Lemma pretty_N_char_numeral x : numeral (pretty_N_char x) = true.
Proof. unfold pretty_N_char. by repeat case_match. Qed.

Lemma pretty_N_go_numeral x s : all_chars numeral s = true -> all_chars numeral (pretty_N_go x s) = true.
Proof.
  revert s. induction (N.lt_wf_0 x) as [x _ IH]; intros s Hs.
  destruct (decide (0 < x)%N) as [Hx|Hx].
  - rewrite pretty_N_go_step by done. apply IH; [by apply N.div_lt|]. simpl.
    by rewrite pretty_N_char_numeral.
  - assert (x = 0%N) as -> by lia. done.
Qed.

Lemma pretty_N_numeral (x : N) : all_chars numeral (pretty x) = true.
Proof. unfold pretty, pretty_N. case_decide; [done|]. by apply pretty_N_go_numeral. Qed.

Lemma pretty_Z_numeral (z : Z) : all_chars numeral (pretty z) = true.
Proof. destruct z; [done| |simpl]; apply pretty_N_numeral. Qed.

(** A text that may follow a value: nothing, a comma or a closing bracket. *)
Definition follow (s : string) : bool :=
  match s with
  | "" => true
  | String c _ => let n := nat_of_ascii c in ((n =? 44) || (n =? 93) || (n =? 125))%nat
  end.

Lemma follow_not_numeral c s : follow (String c s) = true -> numeral c = false.
Proof. destruct c as [[] [] [] [] [] [] [] []]; done. Qed.

Lemma numeral_span s t x y :
  all_chars numeral s = true -> all_chars numeral t = true -> follow x = true -> follow y = true ->
  s +++ x = t +++ y -> s = t /\ x = y.
Proof.
  revert t. induction s as [|c s IH]; intros [|d t] Hs Ht Hx Hy H; simpl in *.
  - done.
  - subst x. apply follow_not_numeral in Hx. by rewrite Hx in Ht.
  - subst y. apply follow_not_numeral in Hy. by rewrite Hy in Hs.
  - simplify_eq. bool_hyps. destruct (IH t) as [-> ->]; done.
Qed.

Lemma pretty_Z_inj_follow (z w : Z) x y :
  follow x = true -> follow y = true -> pretty z +++ x = pretty w +++ y -> z = w /\ x = y.
Proof.
  intros Hx Hy H. destruct (numeral_span (pretty z) (pretty w) x y) as [E ->];
    auto using pretty_Z_numeral. by apply (inj pretty) in E.
Qed.

(** *** Reading a value back *)

(** What the printer accepts.  With [big], bigints are printed under the
    reserved key `$bigint`, which no object may use; without, they are refused. *)
Fixpoint printable (big : bool) (v : value) : bool :=
  match v with
  | V_bigint _ => big
  | V_array l => forallb (printable big) l
  | V_object fs =>
      forallb (fun f => printable big (snd f) && (negb big || negb (streq (fst f) "$bigint"))) fs
  | V_other => false
  | _ => true
  end.

(** The kind of value a text starts. *)
Definition text_kind (c : ascii) : nat :=
  let n := nat_of_ascii c in
  (if n =? 110 then 0 else if n =? 116 then 1 else if n =? 102 then 2 else if n =? 34 then 3
   else if numeral c then 4 else if n =? 123 then 5 else if n =? 91 then 6 else 7)%nat.

Definition value_kind (v : value) : nat :=
  match v with
  | V_null => 0 | V_bool true => 1 | V_bool false => 2 | V_string _ => 3 | V_number _ => 4
  | V_bigint _ | V_object _ => 5 | V_array _ => 6 | V_other => 7
  end.

Lemma numeral_kind c : numeral c = true -> text_kind c = 4%nat.
Proof. destruct c as [[] [] [] [] [] [] [] []]; done. Qed.

Lemma pretty_N_go_nonempty x s : s <> "" -> pretty_N_go x s <> "".
Proof.
  revert s. induction (N.lt_wf_0 x) as [x _ IH]; intros s Hs.
  destruct (decide (0 < x)%N) as [Hx|Hx].
  - rewrite pretty_N_go_step by done. apply IH; [by apply N.div_lt|done].
  - assert (x = 0%N) as -> by lia. done.
Qed.

Lemma pretty_N_nonempty (x : N) : pretty x <> "".
Proof.
  unfold pretty, pretty_N. case_decide; [done|].
  rewrite pretty_N_go_step by lia. by apply pretty_N_go_nonempty.
Qed.

Lemma pretty_Z_head (z : Z) : exists c r, pretty z = String c r /\ numeral c = true.
Proof.
  pose proof (pretty_Z_numeral z) as H. destruct (pretty z) as [|c r] eqn:E.
  - destruct z as [|p|p]; [done| |done]. by destruct (pretty_N_nonempty (Npos p)).
  - simpl in H. bool_hyps. eauto.
Qed.

Lemma print_head big v : printable big v = true ->
  exists c r, print v = String c r /\ text_kind c = value_kind v.
Proof.
  destruct v as [|[]| |z| | | |]; simpl; intros H; try done; try (eexists _, _; by split).
  destruct (pretty_Z_head z) as (c & r & -> & Hc). exists c, r. split; [done|by apply numeral_kind].
Qed.

#[local] Opaque quoted.

Section Join.
Context {A : Type} (p : A -> string) (close : ascii) (ok : A -> Prop).
Hypothesis close_follow : forall s, follow (String close s) = true.
Hypothesis close_comma : forall s t, String close s <> "," +++ t.
Hypothesis p_open : forall a, ok a -> forall s t, p a +++ s <> String close t.

Definition rest (l : list A) : string := match l with [] => "" | _ => "," +++ join (map p l) end.

Lemma join_cons a l : join (map p (a :: l)) = p a +++ rest l.
Proof. destruct l; simpl; [by rewrite sapp_nil|done]. Qed.

Lemma rest_follow l x : follow (rest l +++ String close x) = true.
Proof. destruct l; [apply (close_follow x)|done]. Qed.

Lemma join_inj l1 l2 x y :
  Forall (fun a => ok a /\ forall b s t, ok b -> follow s = true -> follow t = true ->
                   p a +++ s = p b +++ t -> a = b /\ s = t) l1 ->
  Forall ok l2 ->
  join (map p l1) +++ String close x = join (map p l2) +++ String close y -> l1 = l2 /\ x = y.
Proof.
  revert l2. induction l1 as [|a l1 IH]; intros [|b l2] H1 H2 H.
  - by simplify_eq/=.
  - rewrite join_cons, sapp_assoc in H. apply Forall_cons in H2 as [Hb _].
    by destruct (p_open b Hb (rest l2 +++ String close y) x).
  - rewrite join_cons, sapp_assoc in H. apply Forall_cons in H1 as [[Ha _] _].
    by destruct (p_open a Ha (rest l1 +++ String close x) y).
  - rewrite !join_cons, !sapp_assoc in H.
    apply Forall_cons in H1 as [[_ Ha] H1]. apply Forall_cons in H2 as [Hb H2].
    apply Ha in H as [-> H]; [|done|apply rest_follow..].
    destruct l1 as [|a1 l1], l2 as [|b2 l2].
    + by simplify_eq/=.
    + by apply close_comma in H.
    + symmetry in H. by apply close_comma in H.
    + unfold rest in H. rewrite !sapp_assoc in H. injection H as H.
      destruct (IH (b2 :: l2) H1 H2 H) as [-> ->]. done.
Qed.
End Join.

Lemma quoted_field_inj k1 k2 s t : quoted k1 +++ ":" +++ s = quoted k2 +++ ":" +++ t -> k1 = k2 /\ s = t.
Proof. intros [-> H]%quoted_inj. by simplify_eq/=. Qed.

Definition field_text (f : string * value) : string := quoted (fst f) +++ ":" +++ print (snd f).

Definition field_ok (big : bool) (f : string * value) : bool :=
  printable big (snd f) && (negb big || negb (streq (fst f) "$bigint")).

(** A tagged bigint is not the text of an object. *)
Lemma tagged_object big (z : Z) fs x y :
  big = true -> forallb (field_ok big) fs = true ->
  quoted "$bigint" +++ ":" +++ quoted (pretty z) +++ "}" +++ x =
  join (map field_text fs) +++ "}" +++ y -> False.
Proof.
  intros -> Hfs. destruct fs as [|[k v] fs]; [done|]. rewrite join_cons, sapp_assoc.
  unfold field_text. simpl. rewrite !sapp_assoc. intros [E _]%quoted_field_inj.
  simpl in Hfs. bool_hyps. unfold field_ok in *. simpl in *. bool_hyps. simpl in *. bool_hyps. done.
Qed.

Lemma print_bigint (z : Z) x :
  print (V_bigint z) +++ x = "{" +++ (quoted "$bigint" +++ ":" +++ (quoted (pretty z) +++ "}" +++ x)).
Proof. cbn [print]. by rewrite !sapp_assoc. Qed.

Lemma print_array l x : print (V_array l) +++ x = "[" +++ (join (map print l) +++ "]" +++ x).
Proof. cbn [print]. by rewrite !sapp_assoc. Qed.

Lemma print_object fs x : print (V_object fs) +++ x = "{" +++ (join (map field_text fs) +++ "}" +++ x).
Proof. cbn [print]. by rewrite !sapp_assoc. Qed.

Lemma append_inj s t u : s +++ t = s +++ u -> t = u.
Proof. apply (inj (String.append s)). Qed.

Lemma field_inj big f :
  (forall w x y, printable big (snd f) = true -> printable big w = true ->
     follow x = true -> follow y = true -> print (snd f) +++ x = print w +++ y -> snd f = w /\ x = y) ->
  field_ok big f = true ->
  forall g s t, field_ok big g = true -> follow s = true -> follow t = true ->
  field_text f +++ s = field_text g +++ t -> f = g /\ s = t.
Proof.
  intros IH Hf g s t Hg Hs Ht H. unfold field_text, field_ok in *. bool_hyps.
  rewrite !sapp_assoc in H. apply quoted_field_inj in H as [Hk H].
  apply IH in H as [Hv ->]; try done. destruct f, g; simpl in *. by subst.
Qed.

(** Equal texts, whatever follows them, come from equal values. *)
Lemma print_inj_follow big v w x y :
  printable big v = true -> printable big w = true -> follow x = true -> follow y = true ->
  print v +++ x = print w +++ y -> v = w /\ x = y.
Proof.
  revert w x y. induction v as [|b|s|z|z|l IH|fs IH|] using value_strong_ind;
    intros w x y Hv Hw Hx Hy H.
  all: destruct (print_head big _ Hv) as (c1 & r1 & E1 & K1), (print_head big _ Hw) as (c2 & r2 & E2 & K2).
  all: assert (c1 = c2) as <- by (rewrite E1, E2 in H; by simplify_eq/=).
  all: rewrite K1 in K2; clear E1 E2 K1.
  all: destruct w as [|[]| | | | | |]; try destruct b; try done.
  all: rewrite ?print_bigint, ?print_array, ?print_object in H.
  - by apply append_inj in H.
  - by apply append_inj in H.
  - by apply append_inj in H.
  - apply quoted_inj in H as [-> ->]. done.
  - apply pretty_Z_inj_follow in H as [-> ->]; done.
  - apply append_inj, quoted_field_inj in H as [_ H].
    apply quoted_inj in H as [E H]. apply (inj pretty) in E as ->. by apply append_inj in H.
  - by apply append_inj, (tagged_object big) in H.
  - apply append_inj in H.
    apply (join_inj print "]" (fun a => printable big a = true)) in H as [-> ->]; try done.
    + intros a Ha s t E. destruct (print_head big a Ha) as (c & r & Ea & Hc).
      rewrite Ea in E. injection E as -> _. by destruct a as [|[]| | | | | |].
    + apply Forall_forall. intros a Ha. rewrite Forall_forall in IH. simpl in Hv.
      pose proof (proj1 (forallb_forall _ _) Hv a) as Hp. rewrite <- list_elem_of_In in Hp.
      split; [by apply Hp|]. intros b s t Hb Hs Ht. by apply IH; [|apply Hp|..].
    + apply Forall_forall. intros a Ha. apply (proj1 (forallb_forall _ _) Hw). by apply list_elem_of_In.
  - symmetry in H. by apply append_inj, (tagged_object big) in H.
  - apply append_inj in H.
    apply (join_inj field_text "}" (fun f => field_ok big f = true)) in H as [-> ->]; try done.
    + apply Forall_forall. intros f Hf. rewrite Forall_forall in IH.
      pose proof (proj1 (forallb_forall _ _) Hv f) as Hp. rewrite <- list_elem_of_In in Hp.
      split; [by apply Hp|]. apply field_inj; [|by apply Hp]. intros. by eapply IH.
    + apply Forall_forall. intros f Hf. apply (proj1 (forallb_forall _ _) Hw). by apply list_elem_of_In.
Qed.

(** *** Sorting keys *)

Lemma forallb_perm {A} (p : A -> bool) l1 l2 : l1 ≡ₚ l2 -> forallb p l1 = forallb p l2.
Proof.
  induction 1; simpl; [done|by f_equal| |by etrans].
  by rewrite !andb_assoc, (andb_comm (p x)).
Qed.

Lemma sorted_printable big v : printable big (sorted v) = printable big v.
Proof.
  induction v as [| | | | |l IH|fs IH|] using value_strong_ind; try done; simpl.
  - rewrite Forall_forall in IH.
    induction l as [|x l IHl]; [done|]. simpl. rewrite IH by apply list_elem_of_here. f_equal.
    apply IHl. intros y Hy. by apply IH, list_elem_of_further.
  - unfold sort_keys. rewrite (forallb_perm _ _ _ (merge_sort_Permutation _ _)).
    induction fs as [|f fs IHl]; [done|]. apply Forall_cons in IH as [Hf IH].
    simpl. rewrite Hf. f_equal. by apply IHl.
Qed.

(** Sorting keeps what each key holds: two objects that list the same keys in the
    same order, each once, sort alike only when they hold alike values. *)
Lemma sort_keys_inj {A} (fs gs : list (string * A)) :
  map fst fs = map fst gs -> NoDup (map fst fs) -> sort_keys fs = sort_keys gs -> fs = gs.
Proof.
  intros Hk Hnd Hs.
  assert (fs ≡ₚ gs) as Hp.
  { unfold sort_keys in Hs. rewrite <- (merge_sort_Permutation key_le fs), Hs.
    apply merge_sort_Permutation. }
  apply list_eq. intros i. destruct (fs !! i) as [[k v]|] eqn:Ei.
  - assert (map fst gs !! i = Some k) as Hg by (rewrite <- Hk, list_lookup_fmap, Ei; done).
    rewrite list_lookup_fmap in Hg. destruct (gs !! i) as [[k' w]|] eqn:Eg; [|done].
    injection Hg as ->. f_equal. rewrite Hk in Hnd.
    apply (keyed_same fst gs); [exact Hnd| |by eapply list_elem_of_lookup_2|done].
    rewrite <- Hp. by eapply list_elem_of_lookup_2.
  - symmetry. apply lookup_ge_None in Ei. apply lookup_ge_None.
    by rewrite <- (length_map fst gs), <- Hk, length_map.
Qed.

Lemma sorted_object_inj fs gs :
  map fst fs = map fst gs -> NoDup (map fst fs) -> sorted (V_object fs) = sorted (V_object gs) ->
  Forall2 (fun f g => sorted (snd f) = sorted (snd g)) fs gs.
Proof.
  simpl. intros Hk Hnd [= Hs]. apply sort_keys_inj in Hs; rewrite ?map_map; [|done..].
  revert gs Hk Hs. induction fs as [|f fs IH]; intros [|g gs] Hk Hs; simplify_eq/=; constructor; [done|].
  apply NoDup_cons in Hnd as [_ Hnd]. by apply IH.
Qed.

(** Split the equation of two sorted objects with the same concrete keys. *)
Ltac open_object H :=
  apply sorted_object_inj in H; [|reflexivity|apply (bool_decide_unpack _); vm_compute; exact I];
  rewrite !Forall2_cons in H; cbn [snd] in H; destruct_and!.

Lemma sorted_flat {A} (f : A -> value) (l : list A) :
  (forall a, sorted (f a) = f a) -> sorted (V_array (map f l)) = V_array (map f l).
Proof. intros Hf. simpl. rewrite map_map. f_equal. by apply map_ext. Qed.

(** The printer of `src/execution/approvals`: JSON values only. *)
Definition canonicalSerialize (v : value) : option string :=
  if printable false v then Some (print (sorted v)) else None.

Lemma canonicalSerialize_binds_values v w s :
  canonicalSerialize v = Some s -> canonicalSerialize w = Some s -> sorted v = sorted w.
Proof.
  intros Hv Hw.
  unfold canonicalSerialize in *. destruct (printable false v) eqn:Ev; [|done].
  destruct (printable false w) eqn:Ew; [|done].
  rewrite <- sorted_printable in Ev, Ew.
  destruct (print_inj_follow false (sorted v) (sorted w) "" "") as [E _]; auto.
  rewrite !sapp_nil. congruence.
Qed.

(** C26: the canonical text binds the value: two JSON values with the same text
    are equal up to the order in which their objects list their keys, whatever
    their strings contain. *)
Theorem canonicalSerialize_binds v w s
    (Hv : canonicalSerialize v = Some s) (Hw : canonicalSerialize w = Some s) :
  sorted v = sorted w.
Proof. by eapply canonicalSerialize_binds_values. Qed.

Lemma canonicalSerialize_binds_witness :
  canonicalSerialize (V_object [("b", V_number 1); ("a", V_string "x")])
  = Some (print (V_object [("a", V_string "x"); ("b", V_number 1)])) /\
  sorted (V_object [("b", V_number 1); ("a", V_string "x")])
  = sorted (V_object [("a", V_string "x"); ("b", V_number 1)]).
Proof.
  split; [vm_compute; reflexivity|].
  apply (canonicalSerialize_binds _ _ (print (V_object [("a", V_string "x"); ("b", V_number 1)])));
    vm_compute; reflexivity.
Defined.
