(* ===== verification/Money.v ===== *)
(** `src/kernel/money.ts`: amounts, the assets spend caps are denominated in,
    and the slippage between two amounts. *)
From S2P Require Import Prelude.
From Stdlib Require Import Ascii QArith Qround.
#[local] Open Scope Z_scope.

Definition LAMPORTS_PER_SOL : Z := 1000000000.
Definition SOL_DECIMALS : nat := 9.
Definition USDC_DECIMALS : nat := 6.

Definition WSOL_MINT : string := "So11111111111111111111111111111111111111112".
Definition USDC_MINT : string := "EPjFWdd5AufqSSqeM2qN1xzybapC8G4wEGGkZwyTDt1v".
Definition USDT_MINT : string := "Es9vMFrzaCERmJfrF4H2FYD4KCoNkY11McCe8BenwNYB".

Definition SOL_QUOTE_MINTS : list string := [WSOL_MINT].
Definition USDC_QUOTE_MINTS : list string := [USDC_MINT; USDT_MINT].

Inductive QuoteBucket : Type := sol | usdc.

#[export] Instance QuoteBucket_eq_dec : EqDecision QuoteBucket.
Proof. solve_decision. Defined.

(** The cap bucket an input mint draws from; None when it is not a quote asset. *)
Definition quoteBucketFor (mint : string) : option QuoteBucket :=
  if includes SOL_QUOTE_MINTS mint then Some sol
  else if includes USDC_QUOTE_MINTS mint then Some usdc
  else None.

Record TokenAmount : Type := { mint : string; amount : Z; decimals : nat }.

(** *** Parsing UI amounts *)

Definition is_digit (c : ascii) : bool :=
  (48 <=? nat_of_ascii c)%nat && (nat_of_ascii c <=? 57)%nat.

Definition digit_value (c : ascii) : Z := Z.of_nat (nat_of_ascii c) - 48.

(** `BigInt(s)` of a string of digits. *)
Definition digits_value (l : list ascii) : Z :=
  fold_left (fun n c => n * 10 + digit_value c) l 0.

(** The ASCII white space `String.prototype.trim` removes. *)
Definition is_space (c : ascii) : bool :=
  includes [9; 10; 11; 12; 13; 32]%nat (nat_of_ascii c).

Fixpoint drop_spaces (l : list ascii) : list ascii :=
  match l with
  | c :: l' => if is_space c then drop_spaces l' else l
  | [] => []
  end.

Definition trim (l : list ascii) : list ascii := rev (drop_spaces (rev (drop_spaces l))).

(** `s.split(".")` at the first dot: what precedes it, and what follows if there is one. *)
Fixpoint split_dot (l : list ascii) : list ascii * option (list ascii) :=
  match l with
  | [] => ([], None)
  | c :: l' =>
      if Ascii.eqb c "."%char then ([], Some l')
      else let '(w, f) := split_dot l' in (c :: w, f)
  end.

(** `/^\d+(\.\d+)?$/.test(s)`, with the two groups of digits. *)
Definition decimal_parts (l : list ascii) : option (list ascii * list ascii) :=
  let digits l := negb (bool_decide (l = [])) && forallb is_digit l in
  match split_dot l with
  | (w, None) => if digits w then Some (w, []) else None
  | (w, Some f) => if digits w && digits f then Some (w, f) else None
  end.

(** `toBaseUnits` on a string; None where the code throws a RangeError. *)
Definition toBaseUnits (s : string) (decimals : nat) : option Z :=
  match decimal_parts (trim (String.list_ascii_of_string s)) with
  | None => None
  | Some (whole, frac) =>
      let fracPadded := firstn decimals (frac ++ replicate decimals "0"%char) in
      Some (digits_value whole * 10 ^ Z.of_nat decimals + digits_value fracPadded)
  end.

(** `toBaseUnits` on a number: `toFixed(decimals)` rounds the exact value half
    up to [decimals] digits and prints it; a negative value, NaN, an infinity, a
    magnitude of 10^21 or more (printed with an exponent) and more than 100
    digits are refused. *)
Definition toBaseUnits_number (x : number) (decimals : nat) : option Z :=
  match x with
  | Finite q =>
      if negb (Qle_bool 0 q) || Qle_bool (inject_Z (10 ^ 21)) q || (100 <? decimals)%nat
      then None
      else Some (Qfloor (q * inject_Z (10 ^ Z.of_nat decimals) + (1 # 2)))
  | _ => None
  end.

(** Slippage in bps between an expected and an actual amount; `bigint`
    division truncates towards zero. *)
Definition slippageBps (expected actual : Z) : Z :=
  if expected <=? 0 then 0
  else Z.quot ((expected - actual) * 10000) expected.

(** *** Lemmas *)

Lemma quoteBucketFor_spec m b :
  quoteBucketFor m = Some b <->
  (b = sol /\ m ∈ SOL_QUOTE_MINTS) \/ (b = usdc /\ m ∈ USDC_QUOTE_MINTS).
Proof.
  unfold quoteBucketFor.
  destruct (includes SOL_QUOTE_MINTS m) eqn:E1; [|destruct (includes USDC_QUOTE_MINTS m) eqn:E2];
    bool_hyps.
  - apply list_elem_of_singleton in E1 as ->. split.
    + intros [= <-]. left. split; [done|]. by apply list_elem_of_singleton.
    + intros [[-> _]|[_ H]]; [done|]. by apply includes_spec in H.
  - split; [intros [= <-]; by right|]. by intros [[_ H]|[-> _]].
  - split; [done|]. by intros [[_ H]|[_ H]].
Qed.

Lemma digits_value_app l1 l2 :
  digits_value (l1 ++ l2) = digits_value l1 * 10 ^ Z.of_nat (length l2) + digits_value l2.
Proof.
  unfold digits_value. rewrite fold_left_app.
  generalize (fold_left (fun n c => n * 10 + digit_value c) l1 0) as n. clear l1.
  induction l2 as [|c l IH] using rev_ind; intros n; [simpl; lia|].
  rewrite !fold_left_app, length_app. simpl. rewrite IH, Nat2Z.inj_add, Z.pow_add_r by lia.
  change (Z.of_nat 1) with 1. lia.
Qed.

Lemma digits_value_zeros n : digits_value (replicate n "0"%char) = 0.
Proof.
  induction n as [|n IH]; [done|]. change (replicate (S n) "0"%char) with (["0"%char] ++ replicate n "0"%char).
  rewrite digits_value_app, IH. change (digits_value ["0"%char]) with 0. lia.
Qed.

Lemma digit_value_bound c : is_digit c = true -> 0 <= digit_value c <= 9.
Proof.
  unfold is_digit, digit_value. intros H. apply andb_true_iff in H as [H1%Nat.leb_le H2%Nat.leb_le]. lia.
Qed.

Lemma digits_value_bound l :
  forallb is_digit l = true -> 0 <= digits_value l < 10 ^ Z.of_nat (length l).
Proof.
  induction l as [|c l IH] using rev_ind; [done|].
  rewrite forallb_app, andb_true_iff. intros [Hl Hc]. specialize (IH Hl).
  simpl in Hc. rewrite andb_true_r in Hc. apply digit_value_bound in Hc.
  rewrite digits_value_app, length_app, Nat2Z.inj_add, Z.pow_add_r by lia.
  change (Z.of_nat (length [c])) with 1. change (digits_value [c]) with (digit_value c).
  change (10 ^ 1) with 10. lia.
Qed.

(** Padding with zeros and cutting to [d] digits is multiplication by [10^d]
    and division by the number of digits given. *)
Lemma frac_padded_value frac d :
  forallb is_digit frac = true ->
  digits_value (firstn d (frac ++ replicate d "0"%char)) =
  digits_value frac * 10 ^ Z.of_nat d / 10 ^ Z.of_nat (length frac).
Proof.
  intros Hf. destruct (Nat.le_ge_cases (length frac) d) as [Hle|Hge].
  - rewrite take_app_ge by done. rewrite take_replicate, Nat.min_l by lia.
    rewrite digits_value_app, digits_value_zeros, length_replicate.
    assert (10 ^ Z.of_nat d = 10 ^ Z.of_nat (d - length frac) * 10 ^ Z.of_nat (length frac)) as ->
      by (rewrite <- Z.pow_add_r by lia; f_equal; lia).
    rewrite Z.mul_assoc, Z.div_mul by lia. lia.
  - rewrite take_app_le by done.
    rewrite <- (firstn_skipn d frac) at 2. rewrite digits_value_app, length_skipn.
    assert (0 <= digits_value (drop d frac) < 10 ^ Z.of_nat (length frac - d)) as Hb.
    { rewrite <- (length_skipn d frac). apply digits_value_bound.
      rewrite <- (firstn_skipn d frac), forallb_app in Hf. bool_hyps. done. }
    replace (10 ^ Z.of_nat (length frac)) with (10 ^ Z.of_nat (length frac - d) * 10 ^ Z.of_nat d)
      by (rewrite <- Z.pow_add_r by lia; f_equal; lia).
    rewrite Z.div_mul_cancel_r by lia.
    rewrite Z.div_add_l by lia. rewrite (Z.div_small (digits_value (drop d frac))) by lia. lia.
Qed.

(** The value of a UI amount: its digits, truncated to [decimals] places. *)
Lemma toBaseUnits_value s decimals w f :
  decimal_parts (trim (String.list_ascii_of_string s)) = Some (w, f) ->
  toBaseUnits s decimals =
  Some ((digits_value w * 10 ^ Z.of_nat (length f) + digits_value f) * 10 ^ Z.of_nat decimals
        / 10 ^ Z.of_nat (length f)).
Proof.
  intros H. unfold toBaseUnits. rewrite H. f_equal.
  assert (forallb is_digit f = true) as Hf.
  { unfold decimal_parts in H. destruct (split_dot _) as [w' [f'|]]; [|split_ifs_in H; by simplify_eq].
    split_ifs_in H. simplify_eq. bool_hyps. done. }
  rewrite frac_padded_value by done.
  rewrite Z.mul_add_distr_r, <- Z.mul_assoc, (Z.mul_comm (10 ^ Z.of_nat (length f))), Z.mul_assoc.
  rewrite Z.div_add_l by lia. done.
Qed.

Lemma toBaseUnits_nonneg s decimals n : toBaseUnits s decimals = Some n -> 0 <= n.
Proof.
  unfold toBaseUnits. destruct (decimal_parts _) as [[w f]|] eqn:H; [|done]. intros [= <-].
  assert (forallb is_digit w = true /\ forallb is_digit f = true) as [Hw Hf].
  { unfold decimal_parts in H. destruct (split_dot _) as [w' [f'|]]; split_ifs_in H;
      simplify_eq; bool_hyps; done. }
  rewrite frac_padded_value by done.
  apply digits_value_bound in Hw, Hf.
  pose proof (Z.div_pos (digits_value f * 10 ^ Z.of_nat decimals) (10 ^ Z.of_nat (length f))). lia.
Qed.

(** A fill that is at least [m] bounds the slippage by that of [m]. *)
Lemma slippageBps_antitone expected a b :
  a <= b -> slippageBps expected b <= slippageBps expected a.
Proof.
  intros H. unfold slippageBps. destruct (Z.leb_spec expected 0); [lia|].
  apply Z.quot_le_mono; lia.
Qed.

Lemma slippageBps_bounds expected actual :
  0 <= actual <= expected -> 0 <= slippageBps expected actual <= 10000.
Proof.
  intros H. unfold slippageBps. destruct (Z.leb_spec expected 0); [lia|].
  rewrite Z.quot_div_nonneg by lia. split; [apply Z.div_pos; lia|].
  apply Z.div_le_upper_bound; lia.
Qed.
