(* ===== verification/Contracts.v ===== *)
(** `src/kernel/contracts.ts` and `src/kernel/errors.ts`: the types the money
    path shares.

    A field the source types as a union of string literals but re-validates at
    run time (the intent kind) is a [string] here too; the unions the code only
    ever switches on are inductive types.  The texts of error messages are not
    modelled, only the codes. *)
From S2P Require Import Prelude Money.
#[local] Open Scope string_scope.
#[local] Open Scope Z_scope.

(** *** Lifecycle *)

Inductive TradeState : Type := reserved | sent | confirmed | expired | errored | rejected.

#[export] Instance TradeState_eq_dec : EqDecision TradeState.
Proof. solve_decision. Defined.

Definition terminal (s : TradeState) : bool :=
  match s with reserved | sent => false | _ => true end.

(** *** Intent kinds *)

Definition PERP_INTENT_KINDS : list string :=
  ["perp_open"; "perp_increase"; "perp_reduce"; "perp_close"].

Definition POOL_INTENT_KINDS : list string :=
  ["lp_open"; "lp_add"; "lp_remove"; "lp_close"; "lp_claim"; "lp_rebalance";
   "curve_buy"; "curve_sell"].

Definition INTENT_KINDS : list string := "swap" :: PERP_INTENT_KINDS ++ POOL_INTENT_KINDS.

Definition isIntentKind (kind : string) : bool := includes INTENT_KINDS kind.

Definition isPerpIntentKind (kind : string) : bool := includes PERP_INTENT_KINDS kind.

Definition postsZeroCollateral (kind : string) : bool :=
  streq kind "perp_reduce" || streq kind "perp_close".

Inductive SettleMode : Type := token_delta | venue_position.

Definition settleModeFor (kind : string) : SettleMode :=
  if isPerpIntentKind kind then venue_position else token_delta.

Inductive LandMode : Type := jupiter_ultra | self_rpc.

Inductive MintProvenance : Type := user | watchlist | untrusted.

#[export] Instance MintProvenance_eq_dec : EqDecision MintProvenance.
Proof. solve_decision. Defined.

(** *** Policy *)

Record SpendCaps : Type := { perTrade : Z; perHour : Z; perDay : Z }.

Record PolicyConfig : Type := {
  executionEnabled : bool;
  killSwitch : bool;
  maxSlippageBps : Z;
  capsSol : SpendCaps;
  capsUsdc : SpendCaps;
  mintAllowlist : option (list string);
  mintDenylist : list string;
  allowToken2022 : bool;
  priorityFeeMaxLamports : Z;
  priorityFeeMaxBps : Z
}.

(** The caps a bucket draws from: `bucket === "sol" ? capsSol : capsUsdc`. *)
Definition caps_for (p : PolicyConfig) (b : QuoteBucket) : SpendCaps :=
  match b with sol => capsSol p | usdc => capsUsdc p end.

(** *** Intents *)

Record QuoteSummary : Type := {
  inAmount : Z;
  outAmount : Z;
  minOutAmount : Z;
  priceImpactPct : number;
  routeLabel : string;
  slippage_bps : Z;
  contextSlot : option Z
}.

Inductive Side : Type := long | short.

Record PerpSettleLeg : Type := {
  venue : string;
  market : string;
  accountSubId : Z;
  side : Side;
  baseDecimals : nat;
  expectedBaseAmount : Z;
  minBaseAmount : Z
}.

Record MintRef : Type := { out_mint : string; out_decimals : nat }.

Record TradeIntent : Type := {
  kind : string;
  source : string;
  input : TokenAmount;
  output : MintRef;
  inputProvenance : MintProvenance;
  outputProvenance : MintProvenance;
  unsignedTxBase64 : string;
  recentBlockhash : string;
  lastValidBlockHeight : Z;
  landMode : LandMode;
  landHandle : option string;
  priorityFeeLamports : number;
  quote : QuoteSummary;
  perp : option PerpSettleLeg;
  summary : string
}.

(** *** Ports *)

Record SignedTx : Type := { wireBase64 : string; signature : string }.

Record MintInfo : Type := {
  info_mint : string; info_decimals : nat; programId : string; isToken2022 : bool;
  freezeAuthority : option string; mintAuthority : option string
}.

Record PerpPositionRef : Type := {
  ref_venue : string; ref_market : string; ref_owner : string; ref_subAccountId : Z
}.

Inductive ConfirmStatus : Type := C_confirmed | C_expired | C_failed.

Record ExecuteOptions : Type := {
  idempotencyKey : string; dryRun : bool; confirmedByUser : bool
}.

(** *** Errors *)

Inductive GuardCode : Type :=
  | EXECUTION_DISABLED | KILL_SWITCH | INVALID_INTENT | MINT_NOT_PINNED | MINT_DENIED
  | TOKEN2022_UNSUPPORTED | CAP_EXCEEDED | INSUFFICIENT_BALANCE | SLIPPAGE_EXCEEDED
  | PRIORITY_FEE_EXCEEDED | PRIORITY_FEE_INVALID | SIMULATION_FAILED | MIN_OUT_MISMATCH
  | DUPLICATE_INTENT | BROADCAST_FAILED | CONFIRM_TIMEOUT | SETTLE_SHORTFALL
  | SETTLE_UNVERIFIABLE | SETTLE_UNVERIFIED.

#[export] Instance GuardCode_eq_dec : EqDecision GuardCode.
Proof. solve_decision. Defined.

(** What a `throw` of the kernel carries: a GuardError, or any other error
    (a port or driver that failed). *)
Inductive exn : Type := GuardError (c : GuardCode) | OtherError.

(** The `error` of a result or of a trade row:
    `isGuardError(err) ? err.code : "INTERNAL"`, or one of the reconciler's
    `RECONCILE_...` codes. *)
Inductive ResultCode : Type :=
  | Guard (c : GuardCode)
  | INTERNAL
  | RECONCILE_NO_SIGNATURE
  | RECONCILE (status : ConfirmStatus).

Definition result_code (e : exn) : ResultCode :=
  match e with GuardError c => Guard c | OtherError => INTERNAL end.

(** `isGuardError(err) ? err.code : "INVALID_INTENT"`: the code of a journal row. *)
Definition journal_code (e : exn) : GuardCode :=
  match e with GuardError c => c | OtherError => INVALID_INTENT end.

(** *** Results *)

Record FillReport : Type := {
  inputDelta : Z; outputDelta : Z; effectiveSlippageBps : Z; positionDelta : option Z
}.

Record ExecuteResult : Type := {
  res_tradeId : string;
  res_state : TradeState;
  res_signature : option string;
  res_simulated : bool;
  res_fill : option FillReport;
  res_error : option ResultCode
}.

(** *** Journal *)

Inductive JournalBody : Type :=
  | J_intent_received (idempotencyKey source summary : string)
  | J_guard_rejected (code : GuardCode)
  | J_trade_reserved (bucket : option QuoteBucket) (amount : Z)
  | J_trade_simulated (ok : bool)
  | J_trade_signed (signature : string)
  | J_trade_sent (signature : string)
  | J_trade_confirmed (signature : string) (fill : FillReport)
  | J_trade_failed (code : GuardCode)
  | J_trade_dryrun (summary : string).

Record JournalEvent : Type := { j_tradeId : string; j_at : Z; j_body : JournalBody }.

(** *** Tools *)

Inductive ToolCapability : Type := read | sign | spend | network | read_state | write_state.

#[export] Instance ToolCapability_eq_dec : EqDecision ToolCapability.
Proof. solve_decision. Defined.

Definition hasToolCapability (capabilities : list ToolCapability) (c : ToolCapability) : bool :=
  includes capabilities c.

Definition movesValue (caps : list ToolCapability) : bool :=
  includes caps sign || includes caps spend.

(** *** Lemmas *)

Lemma perp_kind_is_kind k : isPerpIntentKind k = true -> isIntentKind k = true.
Proof.
  unfold isPerpIntentKind, isIntentKind. rewrite !includes_spec. intros H.
  apply list_elem_of_further, elem_of_app. by left.
Qed.

Lemma zero_collateral_is_perp k : postsZeroCollateral k = true -> isPerpIntentKind k = true.
Proof.
  unfold postsZeroCollateral. rewrite orb_true_iff, !streq_spec. by intros [-> | ->].
Qed.

(** Every kind selects exactly one settle strategy, and only the four perp
    kinds are verified against a venue position. *)
Lemma settle_venue_iff k : settleModeFor k = venue_position <-> k ∈ PERP_INTENT_KINDS.
Proof.
  unfold settleModeFor, isPerpIntentKind. rewrite <- includes_spec.
  by destruct (includes PERP_INTENT_KINDS k).
Qed.
