(* ===== verification/PolicyEngine.v ===== *)
(** `src/kernel/policy-engine.ts`: the deterministic guards.

    `staticGuards` throws on the first failing guard; here it returns the code
    it would throw, [None] when the intent passes.  [and_then] is the sequence
    of two blocks of guards. *)
From S2P Require Import Prelude Money Contracts.
#[local] Open Scope Z_scope.

Definition MIN_OUT_TOLERANCE_BPS : Z := 50.

Record GuardOptions : Type := { opt_dryRun : bool; opt_confirmedByUser : bool }.

Definition and_then (a b : option GuardCode) : option GuardCode :=
  match a with Some c => Some c | None => b end.
Notation "a >>> b" := (and_then a b) (at level 60, right associativity).

Definition throw_if (b : bool) (c : GuardCode) : option GuardCode :=
  if b then Some c else None.

(** The input leg is a real outflow for every kind that has one. *)
Definition inputGuard (i : TradeIntent) : option GuardCode :=
  if postsZeroCollateral (kind i)
  then throw_if (amount (input i) <? 0) INVALID_INTENT
  else throw_if (amount (input i) <=? 0) INVALID_INTENT.

(** A perp leg is required for a perp kind and forbidden for any other. *)
Definition perpGuard (i : TradeIntent) : option GuardCode :=
  if isPerpIntentKind (kind i) then
    match perp i with
    | None => Some INVALID_INTENT
    | Some leg =>
        throw_if (expectedBaseAmount leg <? minBaseAmount leg) INVALID_INTENT >>>
        throw_if (expectedBaseAmount leg <=? 0) INVALID_INTENT
    end
  else throw_if (match perp i with Some _ => true | None => false end) INVALID_INTENT.

Definition provenanceGuard (i : TradeIntent) (o : GuardOptions) : option GuardCode :=
  throw_if ((bool_decide (inputProvenance i = untrusted) || bool_decide (outputProvenance i = untrusted))
            && negb (opt_confirmedByUser o)) MINT_NOT_PINNED.

(** The priority fee is at most the lamport ceiling and, when there is a quote
    asset to take a fraction of, at most that many bps of it. *)
Definition feeGuard (p : PolicyConfig) (i : TradeIntent) : option GuardCode :=
  throw_if (num_ltb (priorityFeeLamports i) 0 || negb (isFinite (priorityFeeLamports i)))
    PRIORITY_FEE_INVALID >>>
  let feeLamports := floor_number (priorityFeeLamports i) in
  throw_if (priorityFeeMaxLamports p <? feeLamports) PRIORITY_FEE_EXCEEDED >>>
  match quoteBucketFor (mint (input i)) with
  | Some _ =>
      if 0 <? amount (input i) then
        let bpsCeiling := Z.quot (amount (input i) * priorityFeeMaxBps p) 10000 in
        throw_if (bpsCeiling <? feeLamports) PRIORITY_FEE_EXCEEDED
      else None
  | None => None
  end.

Definition slippageGuard (p : PolicyConfig) (i : TradeIntent) : option GuardCode :=
  throw_if (maxSlippageBps p <? slippage_bps (quote i)) SLIPPAGE_EXCEEDED >>>
  let impliedBps := slippageBps (outAmount (quote i)) (minOutAmount (quote i)) in
  throw_if (maxSlippageBps p + MIN_OUT_TOLERANCE_BPS <? impliedBps) MIN_OUT_MISMATCH.

(** One iteration of `for (const mint of [input, output])`. *)
Definition mintGuard (p : PolicyConfig) (m : string) : option GuardCode :=
  throw_if (includes (mintDenylist p) m) MINT_DENIED >>>
  match mintAllowlist p with
  | Some l => throw_if (negb (includes l m)) MINT_DENIED
  | None => None
  end.

Definition staticGuards (p : PolicyConfig) (i : TradeIntent) (o : GuardOptions) : option GuardCode :=
  throw_if (killSwitch p) KILL_SWITCH >>>
  throw_if (negb (opt_dryRun o) && negb (executionEnabled p)) EXECUTION_DISABLED >>>
  throw_if (negb (isIntentKind (kind i))) INVALID_INTENT >>>
  inputGuard i >>>
  perpGuard i >>>
  throw_if (streq (unsignedTxBase64 i) "") INVALID_INTENT >>>
  provenanceGuard i o >>>
  feeGuard p i >>>
  slippageGuard p i >>>
  mintGuard p (mint (input i)) >>>
  mintGuard p (out_mint (output i)).

(** *** Lemmas *)

Lemma and_then_None a b : (a >>> b) = None <-> a = None /\ b = None.
Proof. destruct a; simpl; intuition congruence. Qed.

Lemma throw_if_None b c : throw_if b c = None <-> b = false.
Proof. by destruct b. Qed.

Lemma throw_if_Some b c d : throw_if b c = Some d <-> b = true /\ c = d.
Proof. destruct b; simpl; intuition congruence. Qed.

(** *** Specification

    What an intent has to satisfy for the money path to touch it, in terms of
    the quantities and not of the code's order of checks. *)

Record policy_wf (p : PolicyConfig) : Prop := {
  wf_slippage : 0 <= maxSlippageBps p;
  wf_feeBps : 0 <= priorityFeeMaxBps p
}.

Definition mint_allowed (p : PolicyConfig) (m : string) : Prop :=
  (m ∉ mintDenylist p) /\ forall l, mintAllowlist p = Some l -> m ∈ l.

Record admissible (p : PolicyConfig) (i : TradeIntent) (o : GuardOptions) : Prop := {
  ad_kill : killSwitch p = false;
  ad_armed : opt_dryRun o = true \/ executionEnabled p = true;
  ad_kind : kind i ∈ INTENT_KINDS;
  ad_input : 0 < amount (input i) \/
             (amount (input i) = 0 /\ (kind i = "perp_reduce" \/ kind i = "perp_close"))%string;
  ad_perp : if isPerpIntentKind (kind i)
            then exists leg, perp i = Some leg /\
                   0 < expectedBaseAmount leg /\ minBaseAmount leg <= expectedBaseAmount leg
            else perp i = None;
  ad_tx : unsignedTxBase64 i <> ""%string;
  ad_pinned : (inputProvenance i <> untrusted /\ outputProvenance i <> untrusted) \/
              opt_confirmedByUser o = true;
  ad_fee : exists fee, 0 <= fee /\ isFinite (priorityFeeLamports i) = true /\
             num_ltb (priorityFeeLamports i) 0 = false /\
             floor_number (priorityFeeLamports i) = fee /\
             fee <= priorityFeeMaxLamports p /\
             (quoteBucketFor (mint (input i)) <> None -> 0 < amount (input i) ->
              fee * 10000 <= amount (input i) * priorityFeeMaxBps p);
  ad_slippage : slippage_bps (quote i) <= maxSlippageBps p;
  ad_minOut : 0 < outAmount (quote i) ->
              (outAmount (quote i) - minOutAmount (quote i)) * 10000 <
              (maxSlippageBps p + MIN_OUT_TOLERANCE_BPS + 1) * outAmount (quote i);
  ad_in_mint : mint_allowed p (mint (input i));
  ad_out_mint : mint_allowed p (out_mint (output i))
}.

Lemma inputGuard_None i :
  inputGuard i = None <->
  0 < amount (input i) \/
  (amount (input i) = 0 /\ (kind i = "perp_reduce" \/ kind i = "perp_close"))%string.
Proof.
  unfold inputGuard. destruct (postsZeroCollateral (kind i)) eqn:E; rewrite throw_if_None;
    unfold postsZeroCollateral in E.
  - rewrite orb_true_iff, !streq_spec in E. rewrite Z.ltb_ge. split; [|lia].
    intros H. destruct (Z.eq_dec (amount (input i)) 0); [by right|left; lia].
  - bool_hyps. rewrite Z.leb_gt. split; [by left|]. by intros [?|[_ [?|?]]].
Qed.

Lemma perpGuard_None i :
  perpGuard i = None <->
  if isPerpIntentKind (kind i)
  then exists leg, perp i = Some leg /\
         0 < expectedBaseAmount leg /\ minBaseAmount leg <= expectedBaseAmount leg
  else perp i = None.
Proof.
  unfold perpGuard. destruct (isPerpIntentKind (kind i)); destruct (perp i) as [leg|].
  - rewrite and_then_None, !throw_if_None, Z.ltb_ge, Z.leb_gt. split.
    + intros [? ?]. exists leg. auto with lia.
    + intros (? & [= <-] & ? & ?). auto with lia.
  - split; [done|]. by intros (? & ? & _).
  - done.
  - done.
Qed.

Lemma mintGuard_None p m : mintGuard p m = None <-> mint_allowed p m.
Proof.
  unfold mintGuard, mint_allowed. rewrite and_then_None, throw_if_None, includes_false.
  destruct (mintAllowlist p) as [l|].
  - rewrite throw_if_None, negb_false_iff, includes_spec. split; intros [H1 H2]; split; auto.
    by intros l' [= <-].
  - split; intros [H1 H2]; by split.
Qed.

Lemma provenanceGuard_None i o :
  provenanceGuard i o = None <->
  (inputProvenance i <> untrusted /\ outputProvenance i <> untrusted) \/
  opt_confirmedByUser o = true.
Proof.
  unfold provenanceGuard. rewrite throw_if_None, andb_false_iff, orb_false_iff,
    !bool_decide_eq_false, negb_false_iff. done.
Qed.

Lemma feeGuard_None p i :
  0 <= priorityFeeMaxBps p ->
  feeGuard p i = None <->
  exists fee, 0 <= fee /\ isFinite (priorityFeeLamports i) = true /\
    num_ltb (priorityFeeLamports i) 0 = false /\
    floor_number (priorityFeeLamports i) = fee /\
    fee <= priorityFeeMaxLamports p /\
    (quoteBucketFor (mint (input i)) <> None -> 0 < amount (input i) ->
     fee * 10000 <= amount (input i) * priorityFeeMaxBps p).
Proof.
  intros Hb. unfold feeGuard. cbv zeta.
  rewrite !and_then_None, !throw_if_None, orb_false_iff, negb_false_iff, Z.ltb_ge.
  set (fee := floor_number (priorityFeeLamports i)).
  assert (forall a, 0 < a -> (Z.quot (a * priorityFeeMaxBps p) 10000 <? fee) = false <->
                             fee * 10000 <= a * priorityFeeMaxBps p) as Hq.
  { intros a Ha. rewrite Z.ltb_ge, Z.quot_div_nonneg by nia.
    pose proof (Z.div_le_lower_bound (a * priorityFeeMaxBps p) 10000 fee).
    pose proof (Z.mul_div_le (a * priorityFeeMaxBps p) 10000). lia. }
  split.
  - intros ([Hlt Hfin] & Hmax & Hbps). exists fee.
    pose proof (num_ltb_floor _ _ Hfin Hlt). split_and!; try done.
    intros Hq' Ha. destruct (quoteBucketFor _); [|done].
    rewrite (proj2 (Z.ltb_lt _ _) Ha), throw_if_None in Hbps. by apply Hq.
  - intros (f & Hf & Hfin & Hlt & <- & Hmax & Hbps). split_and!; try done.
    destruct (quoteBucketFor _); [|done].
    destruct (Z.ltb_spec 0 (amount (input i))); [|done].
    apply throw_if_None, Hq; auto.
Qed.

Lemma slippageGuard_None p i :
  0 <= maxSlippageBps p ->
  slippageGuard p i = None <->
  slippage_bps (quote i) <= maxSlippageBps p /\
  (0 < outAmount (quote i) ->
   (outAmount (quote i) - minOutAmount (quote i)) * 10000 <
   (maxSlippageBps p + MIN_OUT_TOLERANCE_BPS + 1) * outAmount (quote i)).
Proof.
  intros Hm. unfold slippageGuard. cbv zeta.
  rewrite and_then_None, !throw_if_None, !Z.ltb_ge.
  unfold slippageBps, MIN_OUT_TOLERANCE_BPS.
  set (out := outAmount (quote i)). set (x := out - minOutAmount (quote i)).
  destruct (Z.leb_spec out 0); [intuition lia|].
  assert (Z.quot (x * 10000) out <= maxSlippageBps p + 50 <->
          x * 10000 < (maxSlippageBps p + 50 + 1) * out) as Hq; [|intuition lia].
  pose proof (Z.quot_rem' (x * 10000) out). destruct (Z.le_gt_cases 0 x).
  - pose proof (Z.rem_bound_pos (x * 10000) out). nia.
  - pose proof (Z.quot_opp_l (- (x * 10000)) out).
    pose proof (Z.quot_pos (- (x * 10000)) out). rewrite Z.opp_involutive in *. nia.
Qed.

Lemma staticGuards_amount p i o : staticGuards p i o = None -> 0 <= amount (input i).
Proof.
  unfold staticGuards. rewrite !and_then_None. intros (_ & _ & _ & Hin & _).
  apply inputGuard_None in Hin. lia.
Qed.

(** The guards let an intent through exactly when it is admissible: the
    kill switch is off, execution is armed (or it is a dry run), the kind is
    known, the input leg is a real outflow (zero only for a perp reduce or
    close), the perp leg matches the kind, no unpinned mint went unconfirmed,
    the priority fee is finite and under both ceilings, the requested and the
    implied slippage are under the clamp, and both mints are allowed. *)
Theorem staticGuards_admissible (p : PolicyConfig) (i : TradeIntent) (o : GuardOptions)
    (Hwf : policy_wf p) :
  staticGuards p i o = None <-> admissible p i o.
Proof.
  destruct Hwf as [Hs Hf]. unfold staticGuards.
  rewrite !and_then_None, !throw_if_None, inputGuard_None, perpGuard_None, provenanceGuard_None,
    feeGuard_None, slippageGuard_None, !mintGuard_None by done.
  rewrite negb_false_iff, andb_false_iff, !negb_false_iff, streq_false.
  unfold isIntentKind. rewrite includes_spec.
  split; [intros (?&?&?&?&?&?&?&?&[? ?]&?&?)|intros []]; [by constructor|by split_and!].
Qed.

Definition example_policy : PolicyConfig := {|
  executionEnabled := true; killSwitch := false; maxSlippageBps := 100;
  capsSol := {| perTrade := 1000000000; perHour := 5000000000; perDay := 10000000000 |};
  capsUsdc := {| perTrade := 200000000; perHour := 1000000000; perDay := 2000000000 |};
  mintAllowlist := None; mintDenylist := []; allowToken2022 := false;
  priorityFeeMaxLamports := 5000000; priorityFeeMaxBps := 50 |}.

Definition example_intent : TradeIntent := {|
  kind := "swap"; source := "swap_jupiter";
  input := {| mint := WSOL_MINT; amount := 500000000; decimals := 9 |};
  output := {| out_mint := USDC_MINT; out_decimals := 6 |};
  inputProvenance := user; outputProvenance := user;
  unsignedTxBase64 := "AQID"; recentBlockhash := "hash"; lastValidBlockHeight := 1000;
  landMode := self_rpc; landHandle := None; priorityFeeLamports := js_num 10000;
  quote := {| inAmount := 500000000; outAmount := 75000000; minOutAmount := 74250000;
              priceImpactPct := js_num 0; routeLabel := "Orca"; slippage_bps := 100;
              contextSlot := None |};
  perp := None; summary := "swap" |}.

Lemma staticGuards_admissible_witness :
  policy_wf example_policy /\
  admissible example_policy example_intent {| opt_dryRun := false; opt_confirmedByUser := false |}.
Proof.
  assert (policy_wf example_policy) as Hwf by (split; simpl; lia).
  split; [exact Hwf|]. apply (staticGuards_admissible _ _ _ Hwf). vm_compute. reflexivity.
Defined.

#[global] Arguments staticGuards : simpl never.
