(* ===== verification/Defaults.v ===== *)
(** `src/kernel/defaults.ts`: the default policy and its overrides.

    An override that is `undefined` is [None]; a cap override goes through
    `toBaseUnits`, which may throw, so the whole update is an [option]. *)
From Stdlib Require Import QArith.
From S2P Require Import Prelude Money Contracts PolicyEngine.
#[local] Open Scope Z_scope.

Record PolicyOverrides : Type := {
  o_executionEnabled : option bool;
  o_killSwitch : option bool;
  o_maxSlippageBps : option Z;
  capSolPerTrade : option number;
  capSolPerHour : option number;
  capSolPerDay : option number;
  capUsdcPerTrade : option number;
  capUsdcPerHour : option number;
  capUsdcPerDay : option number;
  o_mintAllowlist : option (option (list string));  (** undefined, null or a list *)
  o_mintDenylist : option (list string);
  o_allowToken2022 : option bool
}.

(** A literal amount; every literal below is accepted by `toBaseUnits`. *)
Definition units (q : Q) (decimals : nat) : Z :=
  default 0 (toBaseUnits_number (Finite q) decimals).

Definition defaultPolicy : PolicyConfig := {|
  executionEnabled := false;
  killSwitch := false;
  maxSlippageBps := 100;
  capsSol := {| perTrade := units 1 SOL_DECIMALS; perHour := units 5 SOL_DECIMALS;
                perDay := units 10 SOL_DECIMALS |};
  capsUsdc := {| perTrade := units 200 USDC_DECIMALS; perHour := units 1000 USDC_DECIMALS;
                 perDay := units 2000 USDC_DECIMALS |};
  mintAllowlist := None;
  mintDenylist := [];
  allowToken2022 := false;
  priorityFeeMaxLamports := units (5 # 1000) SOL_DECIMALS;
  priorityFeeMaxBps := 50
|}.

(** `o != null ? toBaseUnits(o, decimals) : base` *)
Definition cap_override (o : option number) (decimals : nat) (base : Z) : option Z :=
  match o with
  | Some x => toBaseUnits_number x decimals
  | None => Some base
  end.

Definition caps_override (t h d : option number) (decimals : nat) (base : SpendCaps) : option SpendCaps :=
  t' ← cap_override t decimals (perTrade base);
  h' ← cap_override h decimals (perHour base);
  d' ← cap_override d decimals (perDay base);
  Some {| perTrade := t'; perHour := h'; perDay := d' |}.

Definition applyPolicyOverrides (base : PolicyConfig) (o : PolicyOverrides) : option PolicyConfig :=
  cs ← caps_override (capSolPerTrade o) (capSolPerHour o) (capSolPerDay o) SOL_DECIMALS (capsSol base);
  cu ← caps_override (capUsdcPerTrade o) (capUsdcPerHour o) (capUsdcPerDay o) USDC_DECIMALS (capsUsdc base);
  Some {|
    executionEnabled := default (executionEnabled base) (o_executionEnabled o);
    killSwitch := default (killSwitch base) (o_killSwitch o);
    maxSlippageBps := default (maxSlippageBps base) (o_maxSlippageBps o);
    capsSol := cs;
    capsUsdc := cu;
    mintAllowlist := default (mintAllowlist base) (o_mintAllowlist o);
    mintDenylist := default (mintDenylist base) (o_mintDenylist o);
    allowToken2022 := default (allowToken2022 base) (o_allowToken2022 o);
    priorityFeeMaxLamports := priorityFeeMaxLamports base;
    priorityFeeMaxBps := priorityFeeMaxBps base
  |}.

Definition caps_nonneg (c : SpendCaps) : Prop := 0 <= perTrade c /\ 0 <= perHour c /\ 0 <= perDay c.

Lemma toBaseUnits_number_nonneg x n z : toBaseUnits_number x n = Some z -> 0 <= z.
Proof.
  unfold toBaseUnits_number. destruct x as [| |q]; [done..|].
  destruct (negb (Qle_bool 0 q)) eqn:E; [done|]. rewrite orb_false_l. case_match; [done|]. intros Hz.
  replace z with (Qround.Qfloor (q * inject_Z (10 ^ Z.of_nat n) + (1 # 2))) by congruence.
  apply negb_false_iff, Qle_bool_iff in E. change 0 with (Qround.Qfloor (inject_Z 0)) at 1.
  apply Qround.Qfloor_resp_le. apply Qle_trans with (inject_Z 0 + inject_Z 0)%Q; [done|].
  apply Qplus_le_compat; [|done].
  apply Qmult_le_0_compat; [done|]. unfold Qle, inject_Z. simpl. lia.
Qed.

Lemma cap_override_nonneg o n b z : 0 <= b -> cap_override o n b = Some z -> 0 <= z.
Proof. destruct o; simpl; [intros _; apply toBaseUnits_number_nonneg|intros; by simplify_eq]. Qed.

Lemma caps_override_nonneg t h d n b c :
  caps_nonneg b -> caps_override t h d n b = Some c -> caps_nonneg c.
Proof.
  intros (Ht & Hh & Hd) H. unfold caps_override in H. simplify_option_eq.
  split_and!; eauto using cap_override_nonneg.
Qed.

(** overriding the defaults, in any number of rounds, keeps every cap
    non-negative and never lifts the priority-fee limits, whatever numbers the
    configuration holds (NaN and infinities are refused); with a non-negative
    slippage limit the result is a policy the static guards are exact for. *)
Theorem overrides_keep_limits base o p
    (Hb : caps_nonneg (capsSol base) /\ caps_nonneg (capsUsdc base)) (Hwf : policy_wf base)
    (Hs : forall b, o_maxSlippageBps o = Some b -> 0 <= b)
    (Hp : applyPolicyOverrides base o = Some p) :
  caps_nonneg (capsSol p) /\ caps_nonneg (capsUsdc p) /\
  priorityFeeMaxLamports p = priorityFeeMaxLamports base /\
  priorityFeeMaxBps p = priorityFeeMaxBps base /\ policy_wf p.
Proof.
  destruct Hb as [H1 H2], Hwf as [W1 W2]. unfold applyPolicyOverrides in Hp. simplify_option_eq.
  split_and!; eauto using caps_override_nonneg. split; simpl; [|done].
  destruct (o_maxSlippageBps o); simpl; auto.
Qed.

Definition raised : PolicyOverrides :=
  {| o_executionEnabled := Some true; o_killSwitch := None; o_maxSlippageBps := Some 50;
     capSolPerTrade := Some (Finite (3 # 2)); capSolPerHour := None; capSolPerDay := None;
     capUsdcPerTrade := None; capUsdcPerHour := None; capUsdcPerDay := None;
     o_mintAllowlist := Some None; o_mintDenylist := None; o_allowToken2022 := None |}.

Lemma overrides_keep_limits_witness :
  exists p, applyPolicyOverrides defaultPolicy raised = Some p /\
    perTrade (capsSol p) = 1500000000 /\ priorityFeeMaxLamports p = 5000000 /\ policy_wf p.
Proof.
  eexists. split; [vm_compute; reflexivity|]. split_and!; [reflexivity|reflexivity|].
  refine (proj2 (proj2 (proj2 (proj2 (overrides_keep_limits defaultPolicy raised _ _ _ _ _))))).
  - vm_compute. repeat split; discriminate.
  - split; vm_compute; discriminate.
  - intros b [= <-]. lia.
  - vm_compute. reflexivity.
Defined.
