(* ===== verification/KernelStore.v ===== *)
(** `src/kernel/store.ts`: the kernel's single-writer store.

    The four tables are lists of rows ([Table]); the journal keeps the event
    itself where the code keeps its JSON text, and an amount column keeps the
    integer where the code keeps its decimal text.  Each method is the function
    its SQL computes.  A statement that violates a uniqueness constraint throws
    ([inl OtherError]) and leaves the store as it was. *)
From S2P Require Import Prelude Table Money Contracts.
#[local] Open Scope Z_scope.

Definition HOUR_MS : Z := 3600000.
Definition DAY_MS : Z := 86400000.

Inductive SpendState : Type := S_reserved | S_consumed | S_released.

#[export] Instance SpendState_eq_dec : EqDecision SpendState.
Proof. solve_decision. Defined.

Record SpendRow : Type := {
  sp_id : string; sp_trade_id : string; sp_bucket : QuoteBucket; sp_amount : Z;
  sp_state : SpendState; sp_created_at : Z
}.

Record TradeRow : Type := {
  tr_id : string;
  tr_idempotency_key : string;
  tr_state : TradeState;
  tr_intent : TradeIntent;
  tr_signature : option string;
  tr_input_mint : string;
  tr_output_mint : string;
  tr_input_amount : Z;
  tr_last_valid_block_height : Z;
  tr_signed_wire : option string;
  tr_error : option ResultCode;
  tr_reservation_id : option string;
  tr_created_at : Z;
  tr_updated_at : Z
}.

Record IdemRow : Type := { id_key : string; id_trade_id : string; id_created_at : Z }.

Record KernelStore : Type := {
  trades : list TradeRow;
  spends : list SpendRow;
  idempotency : list IdemRow;
  journal : list JournalEvent
}.

Definition empty_store : KernelStore :=
  {| trades := []; spends := []; idempotency := []; journal := [] |}.

Definition set_trades (f : list TradeRow -> list TradeRow) (s : KernelStore) : KernelStore :=
  {| trades := f (trades s); spends := spends s; idempotency := idempotency s; journal := journal s |}.
Definition set_spends (f : list SpendRow -> list SpendRow) (s : KernelStore) : KernelStore :=
  {| trades := trades s; spends := f (spends s); idempotency := idempotency s; journal := journal s |}.

(** `#transaction`: roll back when the body throws. *)
Definition transaction {A} (fn : KernelStore -> (exn + A) * KernelStore) (s : KernelStore) :
    (exn + A) * KernelStore :=
  match fn s with
  | (inr a, s') => (inr a, s')
  | (inl e, _) => (inl e, s)
  end.

(** state IN ('reserved','consumed') *)
Definition active (r : SpendRow) : bool :=
  bool_decide (sp_state r = S_reserved) || bool_decide (sp_state r = S_consumed).

(** `#sumActive(bucket, since)` *)
Definition sumActive (b : QuoteBucket) (since : Z) (s : KernelStore) : Z :=
  sum_by sp_amount
    (select (fun r => bool_decide (sp_bucket r = b) && active r && (since <=? sp_created_at r))
       (spends s)).

Record Usage : Type := { hour : Z; day : Z }.

Definition usage (b : QuoteBucket) (now : Z) (s : KernelStore) : Usage :=
  {| hour := sumActive b (now - HOUR_MS) s; day := sumActive b (now - DAY_MS) s |}.

(** INSERT OR IGNORE INTO idempotency; true when a row was inserted. *)
Definition claimIdempotency (key tradeId : string) (now : Z) (s : KernelStore) : bool * KernelStore :=
  match insert id_key {| id_key := key; id_trade_id := tradeId; id_created_at := now |} (idempotency s) with
  | Some t => (true, {| trades := trades s; spends := spends s; idempotency := t; journal := journal s |})
  | None => (false, s)
  end.

Definition getTradeByIdempotency (key : string) (s : KernelStore) : option TradeRow :=
  get tr_idempotency_key key (trades s).

Definition getTrade (id : string) (s : KernelStore) : option TradeRow := get tr_id id (trades s).

Inductive ReserveDenyReason : Type := D_perTrade | D_perHour | D_perDay.

Inductive ReserveOutcome : Type :=
  | Reserved (reservationId : string) (usedHour usedDay : Z)
  | Denied (reason : ReserveDenyReason) (cap would : Z).

Record ReserveArgs : Type := {
  ra_bucket : QuoteBucket; ra_amount : Z; ra_caps : SpendCaps; ra_tradeId : string; ra_now : Z
}.

(** The row `reserve` inserts. *)
Definition reservation_row (a : ReserveArgs) (reservationId : string) : SpendRow :=
  {| sp_id := reservationId; sp_trade_id := ra_tradeId a; sp_bucket := ra_bucket a;
     sp_amount := ra_amount a; sp_state := S_reserved; sp_created_at := ra_now a |}.

(** `reserve(args)`; [reservationId] is what `newReservationId()` draws. *)
Definition reserve (a : ReserveArgs) (reservationId : string) (s : KernelStore) :
    (exn + ReserveOutcome) * KernelStore :=
  transaction (fun s =>
    let usedHour := sumActive (ra_bucket a) (ra_now a - HOUR_MS) s in
    let usedDay := sumActive (ra_bucket a) (ra_now a - DAY_MS) s in
    if perTrade (ra_caps a) <? ra_amount a
    then (inr (Denied D_perTrade (perTrade (ra_caps a)) (ra_amount a)), s)
    else if perHour (ra_caps a) <? usedHour + ra_amount a
    then (inr (Denied D_perHour (perHour (ra_caps a)) (usedHour + ra_amount a)), s)
    else if perDay (ra_caps a) <? usedDay + ra_amount a
    then (inr (Denied D_perDay (perDay (ra_caps a)) (usedDay + ra_amount a)), s)
    else
      match insert sp_id (reservation_row a reservationId) (spends s) with
      | Some t => (inr (Reserved reservationId usedHour usedDay), set_spends (fun _ => t) s)
      | None => (inl OtherError, s)
      end) s.

Definition with_spend_state (st : SpendState) (r : SpendRow) : SpendRow :=
  {| sp_id := sp_id r; sp_trade_id := sp_trade_id r; sp_bucket := sp_bucket r;
     sp_amount := sp_amount r; sp_state := st; sp_created_at := sp_created_at r |}.

(** UPDATE spends SET state = 'released' WHERE id = ? AND state = 'reserved' *)
Definition releaseReservation (reservationId : string) (s : KernelStore) : KernelStore :=
  set_spends (update_where
    (fun r => streq (sp_id r) reservationId && bool_decide (sp_state r = S_reserved))
    (with_spend_state S_released)) s.

(** UPDATE spends SET state = 'consumed' WHERE id = ? *)
Definition consumeReservation (reservationId : string) (s : KernelStore) : KernelStore :=
  set_spends (update_where (fun r => streq (sp_id r) reservationId)
    (with_spend_state S_consumed)) s.

Record NewTradeRow : Type := {
  nt_id : string; nt_idempotencyKey : string; nt_intent : TradeIntent;
  nt_inputMint : string; nt_outputMint : string; nt_inputAmount : Z;
  nt_lastValidBlockHeight : Z; nt_now : Z
}.

(** INSERT INTO trades; both the id and the idempotency key are unique. *)
Definition insertTrade (row : NewTradeRow) (reservationId : option string) (s : KernelStore) :
    (exn + unit) * KernelStore :=
  let r := {| tr_id := nt_id row; tr_idempotency_key := nt_idempotencyKey row;
              tr_state := Contracts.reserved; tr_intent := nt_intent row; tr_signature := None;
              tr_input_mint := nt_inputMint row; tr_output_mint := nt_outputMint row;
              tr_input_amount := nt_inputAmount row;
              tr_last_valid_block_height := nt_lastValidBlockHeight row;
              tr_signed_wire := None; tr_error := None; tr_reservation_id := reservationId;
              tr_created_at := nt_now row; tr_updated_at := nt_now row |} in
  if has tr_idempotency_key (nt_idempotencyKey row) (trades s) then (inl OtherError, s)
  else match insert tr_id r (trades s) with
       | Some t => (inr tt, set_trades (fun _ => t) s)
       | None => (inl OtherError, s)
       end.

(** The columns a trade row is updated in; the others never change. *)
Definition with_trade (st : TradeState) (sig wire : option string) (err : option ResultCode) (now : Z)
    (r : TradeRow) : TradeRow :=
  {| tr_id := tr_id r; tr_idempotency_key := tr_idempotency_key r; tr_state := st;
     tr_intent := tr_intent r; tr_signature := sig; tr_input_mint := tr_input_mint r;
     tr_output_mint := tr_output_mint r; tr_input_amount := tr_input_amount r;
     tr_last_valid_block_height := tr_last_valid_block_height r; tr_signed_wire := wire;
     tr_error := err; tr_reservation_id := tr_reservation_id r;
     tr_created_at := tr_created_at r; tr_updated_at := now |}.

Definition update_trade (id : string) (f : TradeRow -> TradeRow) : KernelStore -> KernelStore :=
  set_trades (update_where (fun r => streq (tr_id r) id) f).

Definition persistSigned (id signedWire signature : string) (now : Z) : KernelStore -> KernelStore :=
  update_trade id (fun r => with_trade (tr_state r) (Some signature) (Some signedWire) (tr_error r) now r).

Definition setState (id : string) (state : TradeState) (now : Z) : KernelStore -> KernelStore :=
  update_trade id (fun r => with_trade state (tr_signature r) (tr_signed_wire r) (tr_error r) now r).

Definition setSignature (id signature : string) (now : Z) : KernelStore -> KernelStore :=
  update_trade id (fun r => with_trade (tr_state r) (Some signature) (tr_signed_wire r) (tr_error r) now r).

Definition fail (id : string) (state : TradeState) (error : ResultCode) (now : Z) :
    KernelStore -> KernelStore :=
  update_trade id (fun r => with_trade state (tr_signature r) (tr_signed_wire r) (Some error) now r).

(** SELECT * FROM trades WHERE state = 'sent' *)
Definition pendingSent (s : KernelStore) : list TradeRow :=
  select (fun r => bool_decide (tr_state r = sent)) (trades s).

Definition appendJournal (e : JournalEvent) (s : KernelStore) : KernelStore :=
  {| trades := trades s; spends := spends s; idempotency := idempotency s; journal := journal s ++ [e] |}.

(** The events of one trade, oldest first. *)
Definition readJournal (tradeId : string) (s : KernelStore) : list JournalEvent :=
  List.filter (fun e => streq (j_tradeId e) tradeId) (journal s).

(** The newest events of all trades with their sequence numbers, newest first. *)
Definition recentJournal (limit : Z) (s : KernelStore) : list (Z * JournalEvent) :=
  firstn (Z.to_nat (Z.max 1 (Z.min 1000 limit)))
    (rev (zip (map Z.of_nat (seq 1 (length (journal s)))) (journal s))).

#[global] Arguments reserve : simpl never.
#[global] Arguments releaseReservation : simpl never.
#[global] Arguments consumeReservation : simpl never.
#[global] Arguments insertTrade : simpl never.
#[global] Arguments claimIdempotency : simpl never.
#[global] Arguments persistSigned : simpl never.
#[global] Arguments setState : simpl never.
#[global] Arguments setSignature : simpl never.
#[global] Arguments fail : simpl never.
#[global] Arguments appendJournal : simpl never.
