(* ===== verification/TradeGateway.v ===== *)
(** `src/kernel/trade-gateway.ts`: the money path.

    [geff] lists what `TradeGatewayImpl` asks of its dependencies: the clock,
    the id generator, the policy getter, the chain ports (which may fail) and
    one constructor per store method it calls.  [execute] is the method of the
    same name; its parts keep the names of the private methods.  The local
    variables `reservationId` and `inserted`, which the `catch` block reads, are
    the [locals] an error is tagged with where it is thrown. *)
From S2P Require Import Prelude Table Prog Money Contracts PolicyEngine KernelStore.
#[local] Open Scope Z_scope.
#[local] Open Scope prog_scope.

Definition FEE_BUFFER_LAMPORTS : Z := 3000000.

(** *** Effects *)

Inductive geff : Type -> Type :=
  | ClockNow : geff Z
  | NewTradeId : geff string
  | ReadPolicy : geff PolicyConfig
  | Inspect (mint : string) : geff (exn + MintInfo)%type
  | ReadBalance (owner mint : string) : geff (exn + Z)%type
  | ReadPosition (ref : PerpPositionRef) : geff (exn + Z)%type
  | Simulate (wire : string) : geff (exn + bool)%type
  | Sign (wire : string) : geff (exn + SignedTx)%type
  | Broadcast (mode : LandMode) (signed : SignedTx) (handle : option string) : geff (exn + string)%type
  | Confirm (signature : string) (lastValidBlockHeight : Z) : geff (exn + ConfirmStatus)%type
  | ClaimIdempotency (key tradeId : string) (now : Z) : geff bool
  | GetTradeByIdempotency (key : string) : geff (option TradeRow)
  | GetUsage (bucket : QuoteBucket) (now : Z) : geff Usage
  | Reserve (args : ReserveArgs) : geff (exn + ReserveOutcome)%type
  | ReleaseReservation (id : string) : geff unit
  | ConsumeReservation (id : string) : geff unit
  | InsertTrade (row : NewTradeRow) (reservationId : option string) : geff (exn + unit)%type
  | PersistSigned (id wire signature : string) (now : Z) : geff unit
  | SetState (id : string) (state : TradeState) (now : Z) : geff unit
  | SetSignature (id signature : string) (now : Z) : geff unit
  | Fail (id : string) (state : TradeState) (error : ResultCode) (now : Z) : geff unit
  | AppendJournal (e : JournalEvent) : geff unit
  | PendingSent : geff (list TradeRow).

Definition ask {X R} (e : geff R) : prog geff X R := trigger e.

(** A port that may throw. *)
Definition call {R} (e : geff (exn + R)%type) : prog geff exn R :=
  let* r := trigger e in raise r.

(** `throw new GuardError(code)` under a condition. *)
Definition guard (b : bool) (c : GuardCode) : prog geff exn unit :=
  if b then Throw (GuardError c) else Ret tt.

Definition throw_guard (g : option GuardCode) : prog geff exn unit :=
  match g with Some c => Throw (GuardError c) | None => Ret tt end.

(** The dependencies that are fixed at composition time. *)
Record TradeGatewayDeps : Type := {
  wallet_pubkey : string;
  positions_mounted : bool;
  broadcaster_mounted : LandMode -> bool
}.

Section TradeGateway.
Context (d : TradeGatewayDeps).

Definition assertSettleable (i : TradeIntent) : option GuardCode :=
  match settleModeFor (kind i) with
  | venue_position => if positions_mounted d then None else Some SETTLE_UNVERIFIABLE
  | token_delta => None
  end.

(** `#positionRef` *)
Definition positionRef (i : TradeIntent) : option PerpPositionRef :=
  match perp i, settleModeFor (kind i) with
  | Some leg, venue_position =>
      Some {| ref_venue := venue leg; ref_market := market leg;
              ref_owner := wallet_pubkey d; ref_subAccountId := accountSubId leg |}
  | _, _ => None
  end.

Definition readPosition (i : TradeIntent) : prog geff exn (option Z) :=
  match positionRef i with
  | None => Ret None
  | Some ref => let* z := call (ReadPosition ref) in Ret (Some z)
  end.

Record Pair : Type := { pre_input : Z; pre_output : Z }.

(** Both reads of a `Promise.all` are issued before either answer is used. *)
Definition readPair (i : TradeIntent) : prog geff exn Pair :=
  let* a := ask (ReadBalance (wallet_pubkey d) (mint (input i))) in
  let* b := ask (ReadBalance (wallet_pubkey d) (out_mint (output i))) in
  let* x := raise a in
  let* y := raise b in
  Ret {| pre_input := x; pre_output := y |}.

Definition assertMintsSupported (p : PolicyConfig) (i : TradeIntent) : prog geff exn unit :=
  let* a := ask (Inspect (mint (input i))) in
  let* b := ask (Inspect (out_mint (output i))) in
  let* inInfo := raise a in
  let* outInfo := raise b in
  guard (negb (allowToken2022 p) && (isToken2022 inInfo || isToken2022 outInfo))
    TOKEN2022_UNSUPPORTED.

Definition assertWithinCaps (amount : Z) (caps : SpendCaps) (used : Usage) : option GuardCode :=
  throw_if (perTrade caps <? amount) CAP_EXCEEDED >>>
  throw_if (perHour caps <? hour used + amount) CAP_EXCEEDED >>>
  throw_if (perDay caps <? day used + amount) CAP_EXCEEDED.

Record Settlement : Type := {
  st_effectiveSlippageBps : Z; st_positionDelta : option Z; st_problem : option GuardCode
}.

(** `#settle`: verify the fill of a confirmed transaction. *)
Definition settle (i : TradeIntent) (outputDelta : Z) (prePosition : option Z) :
    prog geff exn Settlement :=
  match perp i, positionRef i, prePosition with
  | Some leg, Some ref, Some pre =>
      let* r := ask (ReadPosition ref) in
      match r with
      | inl _ => Ret {| st_effectiveSlippageBps := 0; st_positionDelta := None;
                        st_problem := Some SETTLE_UNVERIFIED |}
      | inr post =>
          let positionDelta := post - pre in
          let filled := match side leg with long => positionDelta | short => - positionDelta end in
          Ret {| st_effectiveSlippageBps :=
                   slippageBps (expectedBaseAmount leg) (if 0 <? filled then filled else 0);
                 st_positionDelta := Some positionDelta;
                 st_problem := if filled <? minBaseAmount leg then Some SETTLE_SHORTFALL else None |}
      end
  | _, _, _ =>
      Ret {| st_effectiveSlippageBps :=
               slippageBps (outAmount (quote i)) (if 0 <? outputDelta then outputDelta else 0);
             st_positionDelta := None;
             st_problem := if outputDelta <? minOutAmount (quote i)
                           then Some SETTLE_SHORTFALL else None |}
  end.

Definition result (tradeId : string) (state : TradeState) (sig : option string) (simulated : bool)
    (fill : option FillReport) (error : option ResultCode) : ExecuteResult :=
  {| res_tradeId := tradeId; res_state := state; res_signature := sig;
     res_simulated := simulated; res_fill := fill; res_error := error |}.

Definition errorResult (tradeId : string) (e : exn) (simulated : bool) : ExecuteResult :=
  result tradeId rejected None simulated None (Some (result_code e)).

(** `#preview`: validation for a quote card. *)
Definition preview {X} (i : TradeIntent) (o : ExecuteOptions) : prog geff X ExecuteResult :=
  let* tradeId := ask NewTradeId in
  catch (
    let* policy := ask ReadPolicy in
    throw_guard (staticGuards policy i
      {| opt_dryRun := true; opt_confirmedByUser := confirmedByUser o |}) ;;
    throw_guard (assertSettleable i) ;;
    assertMintsSupported policy i ;;
    match quoteBucketFor (mint (input i)) with
    | Some b =>
        let* now := ask ClockNow in
        let* used := ask (GetUsage b now) in
        throw_guard (assertWithinCaps (amount (input i)) (caps_for policy b) used)
    | None => Ret tt
    end ;;
    let* ok := call (Simulate (unsignedTxBase64 i)) in
    guard (negb ok) SIMULATION_FAILED ;;
    Ret (result tradeId reserved None true None None))
  (fun e => Ret (errorResult tradeId e true)).

(** The variables of `#live` its `catch` block reads. *)
Record locals : Type := { reservationId : option string; inserted : bool }.

Definition at_locals {A} (l : locals) (p : prog geff exn A) : prog geff (exn * locals)%type A :=
  tag_exn (fun e => (e, l)) p.

Definition journal_event (tradeId : string) (b : JournalBody) : prog geff exn unit :=
  let* at_ := ask ClockNow in
  ask (AppendJournal {| j_tradeId := tradeId; j_at := at_; j_body := b |}).

(** Steps 1 and 2 of the `try` block: the guards, then the reservation. *)
Definition guard_and_reserve (i : TradeIntent) (o : ExecuteOptions) (tradeId : string) (now : Z) :
    prog geff exn (option string) :=
  let* policy := ask ReadPolicy in
  throw_guard (staticGuards policy i
    {| opt_dryRun := false; opt_confirmedByUser := confirmedByUser o |}) ;;
  throw_guard (assertSettleable i) ;;
  assertMintsSupported policy i ;;
  match quoteBucketFor (mint (input i)) with
  | None => Ret None
  | Some b =>
      let* outcome := call (Reserve {| ra_bucket := b; ra_amount := amount (input i);
                                       ra_caps := caps_for policy b; ra_tradeId := tradeId;
                                       ra_now := now |}) in
      match outcome with
      | Denied _ _ _ => Throw (GuardError CAP_EXCEEDED)
      | Reserved rid _ _ => Ret (Some rid)
      end
  end.

(** Steps 3 and 4 up to the trade row: the balance check and the insert. *)
Definition check_and_insert (i : TradeIntent) (o : ExecuteOptions) (tradeId : string) (now : Z)
    (rid : option string) : prog geff exn (Pair * option Z) :=
  let bucket := quoteBucketFor (mint (input i)) in
  let* pre := readPair i in
  let* prePosition := readPosition i in
  let need := amount (input i) +
    (if bool_decide (bucket = Some sol) then FEE_BUFFER_LAMPORTS else 0) in
  guard (pre_input pre <? need) INSUFFICIENT_BALANCE ;;
  call (InsertTrade
    {| nt_id := tradeId; nt_idempotencyKey := idempotencyKey o; nt_intent := i;
       nt_inputMint := mint (input i); nt_outputMint := out_mint (output i);
       nt_inputAmount := amount (input i);
       nt_lastValidBlockHeight := lastValidBlockHeight i; nt_now := now |} rid) ;;
  Ret (pre, prePosition).

(** Steps 4 to 6: the journal, the simulation, the signature, persisted. *)
Definition journal_and_sign (i : TradeIntent) (o : ExecuteOptions) (tradeId : string) (now : Z)
    (rid : option string) : prog geff exn SignedTx :=
  ask (AppendJournal {| j_tradeId := tradeId; j_at := now;
    j_body := J_intent_received (idempotencyKey o) (source i) (summary i) |}) ;;
  match rid with
  | Some _ => ask (AppendJournal {| j_tradeId := tradeId; j_at := now;
      j_body := J_trade_reserved (quoteBucketFor (mint (input i))) (amount (input i)) |})
  | None => Ret tt
  end ;;
  let* ok := call (Simulate (unsignedTxBase64 i)) in
  journal_event tradeId (J_trade_simulated ok) ;;
  guard (negb ok) SIMULATION_FAILED ;;
  let* signed := call (Sign (unsignedTxBase64 i)) in
  let* at_ := ask ClockNow in
  ask (PersistSigned tradeId (wireBase64 signed) (signature signed) at_) ;;
  journal_event tradeId (J_trade_signed (signature signed)) ;;
  Ret signed.

(** Step 7: broadcast, any failure being BROADCAST_FAILED. *)
Definition broadcast_signed (i : TradeIntent) (tradeId : string) (signed : SignedTx) :
    prog geff exn string :=
  guard (negb (broadcaster_mounted d (landMode i))) BROADCAST_FAILED ;;
  let* sig := catch (call (Broadcast (landMode i) signed (landHandle i)))
                (fun _ => Throw (GuardError BROADCAST_FAILED)) in
  let* t1 := ask ClockNow in
  ask (SetSignature tradeId sig t1) ;;
  let* t2 := ask ClockNow in
  ask (SetState tradeId sent t2) ;;
  journal_event tradeId (J_trade_sent sig) ;;
  Ret sig.

(** `if (reservationId)`: an id is `rsv_` and a uuid, never the empty string. *)
Definition release_if (rid : option string) : prog geff exn unit :=
  match rid with Some r => ask (ReleaseReservation r) | None => Ret tt end.

Definition consume_if (rid : option string) : prog geff exn unit :=
  match rid with Some r => ask (ConsumeReservation r) | None => Ret tt end.

(** Step 8, not confirmed: release and fail; expiry is terminal. *)
Definition confirm_failed (tradeId : string) (rid : option string) (status : ConfirmStatus) :
    prog geff exn ExecuteResult :=
  let code := match status with C_expired => CONFIRM_TIMEOUT | _ => BROADCAST_FAILED end in
  release_if rid ;;
  let* at_ := ask ClockNow in
  ask (Fail tradeId (match status with C_expired => expired | _ => errored end) (Guard code) at_) ;;
  journal_event tradeId (J_trade_failed code) ;;
  Ret (errorResult tradeId (GuardError code) false).

(** Step 9, confirmed: the real fill, and the reservation consumed. *)
Definition settle_confirmed (i : TradeIntent) (tradeId sig : string) (rid : option string)
    (pre : Pair) (prePosition : option Z) : prog geff exn ExecuteResult :=
  let* post := readPair i in
  let inputDelta := pre_input post - pre_input pre in
  let outputDelta := pre_output post - pre_output pre in
  let* s := settle i outputDelta prePosition in
  consume_if rid ;;
  let* at_ := ask ClockNow in
  ask (SetState tradeId confirmed at_) ;;
  let fill := {| inputDelta := inputDelta; outputDelta := outputDelta;
                 effectiveSlippageBps := st_effectiveSlippageBps s;
                 positionDelta := st_positionDelta s |} in
  journal_event tradeId (J_trade_confirmed sig fill) ;;
  Ret (result tradeId confirmed (Some sig) false (Some fill) (Guard <$> st_problem s)).

Definition confirm_and_settle (i : TradeIntent) (tradeId sig : string) (rid : option string)
    (pre : Pair) (prePosition : option Z) : prog geff exn ExecuteResult :=
  let* status := call (Confirm sig (lastValidBlockHeight i)) in
  match status with
  | C_confirmed => settle_confirmed i tradeId sig rid pre prePosition
  | _ => confirm_failed tradeId rid status
  end.

(** The `catch` block. *)
Definition on_error {X} (tradeId : string) (el : exn * locals) : prog geff X ExecuteResult :=
  let '(e, l) := el in
  match reservationId l with Some r => ask (ReleaseReservation r) | None => Ret tt end ;;
  (if inserted l then
     let* at_ := ask ClockNow in
     ask (Fail tradeId errored (result_code e) at_) ;;
     let* at2 := ask ClockNow in
     ask (AppendJournal {| j_tradeId := tradeId; j_at := at2;
                           j_body := J_trade_failed (journal_code e) |})
   else
     let* at_ := ask ClockNow in
     ask (AppendJournal {| j_tradeId := tradeId; j_at := at_;
                           j_body := J_guard_rejected (journal_code e) |})) ;;
  Ret (errorResult tradeId e false).

(** The `try` block. *)
Definition live_body (i : TradeIntent) (o : ExecuteOptions) (tradeId : string) (now : Z) :
    prog geff (exn * locals)%type ExecuteResult :=
  let* rid := at_locals {| reservationId := None; inserted := false |}
                (guard_and_reserve i o tradeId now) in
  let* pp := at_locals {| reservationId := rid; inserted := false |}
               (check_and_insert i o tradeId now rid) in
  at_locals {| reservationId := rid; inserted := true |} (
    let* signed := journal_and_sign i o tradeId now rid in
    let* sig := broadcast_signed i tradeId signed in
    confirm_and_settle i tradeId sig rid (fst pp) (snd pp)).

Definition duplicate_result (tradeId : string) (prior : option TradeRow) : ExecuteResult :=
  match prior with
  | Some r => result (tr_id r) (tr_state r) (tr_signature r) false None (Some (Guard DUPLICATE_INTENT))
  | None => result tradeId rejected None false None (Some (Guard DUPLICATE_INTENT))
  end.

(** `#live` *)
Definition live {X} (i : TradeIntent) (o : ExecuteOptions) : prog geff X ExecuteResult :=
  let* now := ask ClockNow in
  let* tradeId := ask NewTradeId in
  let* claimed := ask (ClaimIdempotency (idempotencyKey o) tradeId now) in
  if claimed then catch (live_body i o tradeId now) (on_error tradeId)
  else
    let* prior := ask (GetTradeByIdempotency (idempotencyKey o)) in
    Ret (duplicate_result tradeId prior).

(** `execute` never throws: its error type is empty. *)
Definition execute (i : TradeIntent) (o : ExecuteOptions) : prog geff Empty_set ExecuteResult :=
  if dryRun o then preview i o else live i o.
End TradeGateway.

(** *** The environment

    One effect on the store: a store method is the function of [KernelStore], an
    id generator and a port may answer anything, and `newReservationId` inside
    `reserve` may draw any id.  [policy_ok] is what is known of every policy the
    getter returns. *)
Definition gexec (policy_ok : PolicyConfig -> Prop) {R} (e : geff R) :
    KernelStore -> R -> KernelStore -> Prop :=
  match e in geff R return KernelStore -> R -> KernelStore -> Prop with
  | ReadPolicy => fun s p s' => policy_ok p /\ s' = s
  | ClaimIdempotency k t now => fun s r s' => (r, s') = claimIdempotency k t now s
  | GetTradeByIdempotency k => fun s r s' => r = getTradeByIdempotency k s /\ s' = s
  | GetUsage b now => fun s r s' => r = usage b now s /\ s' = s
  | Reserve a => fun s r s' => exists rid, reserve a rid s = (r, s')
  | ReleaseReservation id => fun s _ s' => s' = releaseReservation id s
  | ConsumeReservation id => fun s _ s' => s' = consumeReservation id s
  | InsertTrade row rid => fun s r s' => insertTrade row rid s = (r, s')
  | PersistSigned id w sg now => fun s _ s' => s' = persistSigned id w sg now s
  | SetState id st now => fun s _ s' => s' = setState id st now s
  | SetSignature id sg now => fun s _ s' => s' = setSignature id sg now s
  | Fail id st err now => fun s _ s' => s' = fail id st err now s
  | AppendJournal ev => fun s _ s' => s' = appendJournal ev s
  | PendingSent => fun s r s' => r = pendingSent s /\ s' = s
  | _ => fun s _ s' => s' = s
  end.

(** What the answer to an effect may be, whatever the store. *)
Definition gans (policy_ok : PolicyConfig -> Prop) {R} (e : geff R) : R -> Prop :=
  match e in geff R return R -> Prop with
  | ReadPolicy => policy_ok
  | _ => fun _ => True
  end.

Lemma gexec_gans ok R (e : geff R) s r s' : gexec ok e s r s' -> gans ok e r.
Proof. destruct e; simpl; try done. by intros [? ?]. Qed.

(** Walk through a program: split the protocol obligations, introduce the
    answers and case on what the code cases on. *)
Ltac prog_step :=
  match goal with
  | |- True => exact I
  | |- _ /\ _ => split
  | |- forall _, _ => intros ?
  | |- context [match ?x with _ => _ end] => destruct x eqn:?
  end.
Ltac prog_simpl :=
  try unfold raise, throw_guard, guard, at_locals, tag_exn, readPosition, readPair, settle,
    release_if, consume_if, settle_confirmed, confirm_failed, broadcast_signed,
    confirm_and_settle, journal_event; simpl.
Ltac prog_walk := repeat (prog_simpl; prog_step); prog_simpl.

(** *** A concrete environment, for the examples

    One wallet, one policy, ports that answer; [DemoEnv] says what varies. *)
Record DemoEnv : Type := {
  env_policy : PolicyConfig;
  env_simulate : exn + bool;
  env_balances : list (string * Z);
  env_confirm : exn + ConfirmStatus;
  env_post_fails : bool;      (** balance reads fail once the trade is sent *)
  env_trade_id : string;
  env_reservation_id : string
}.

Definition lookup_balance (l : list (string * Z)) (m : string) : Z :=
  match List.find (fun '(k, _) => streq k m) l with Some (_, v) => v | None => 0 end.

Definition demo (v : DemoEnv) {R} (e : geff R) : KernelStore -> R * KernelStore :=
  match e in geff R return KernelStore -> R * KernelStore with
  | ClockNow => fun s => (1000000, s)
  | NewTradeId => fun s => (env_trade_id v, s)
  | ReadPolicy => fun s => (env_policy v, s)
  | Inspect m => fun s => (inr {| info_mint := m; info_decimals := 6; programId := "Token";
                                  isToken2022 := false; freezeAuthority := None;
                                  mintAuthority := None |}, s)
  | ReadBalance _ m => fun s =>
      (if env_post_fails v && match pendingSent s with [] => false | _ => true end
       then inl OtherError else inr (lookup_balance (env_balances v) m), s)
  | ReadPosition _ => fun s => (inr 0, s)
  | Simulate _ => fun s => (env_simulate v, s)
  | Sign w => fun s => (inr {| wireBase64 := w ++ "signed"; signature := "sig" |}, s)
  | Broadcast _ _ _ => fun s => (inr "sig", s)
  | Confirm _ _ => fun s => (env_confirm v, s)
  | ClaimIdempotency k t now => fun s => claimIdempotency k t now s
  | GetTradeByIdempotency k => fun s => (getTradeByIdempotency k s, s)
  | GetUsage b now => fun s => (usage b now s, s)
  | Reserve a => fun s => reserve a (env_reservation_id v) s
  | ReleaseReservation id => fun s => (tt, releaseReservation id s)
  | ConsumeReservation id => fun s => (tt, consumeReservation id s)
  | InsertTrade row rid => fun s => insertTrade row rid s
  | PersistSigned id w sg now => fun s => (tt, persistSigned id w sg now s)
  | SetState id st now => fun s => (tt, setState id st now s)
  | SetSignature id sg now => fun s => (tt, setSignature id sg now s)
  | Fail id st err now => fun s => (tt, fail id st err now s)
  | AppendJournal ev => fun s => (tt, appendJournal ev s)
  | PendingSent => fun s => (pendingSent s, s)
  end%string.

Lemma demo_gexec ok v R (e : geff R) s :
  ok (env_policy v) -> gexec ok e s (demo v e s).1 (demo v e s).2.
Proof.
  intros Hok. destruct e; simpl; try done; try (by split).
  - by destruct (claimIdempotency key tradeId now s).
  - exists (env_reservation_id v). by destruct (reserve args _ s).
  - by destruct (insertTrade row reservationId0 s).
Qed.

Definition demo_deps : TradeGatewayDeps :=
  {| wallet_pubkey := "wallet"; positions_mounted := true; broadcaster_mounted := fun _ => true |}.

Definition demo_env : DemoEnv :=
  {| env_policy := example_policy; env_simulate := inr true;
     env_balances := [(WSOL_MINT, 2000000000); (USDC_MINT, 0)];
     env_confirm := inr C_confirmed; env_post_fails := false;
     env_trade_id := "trd_1"; env_reservation_id := "rsv_1" |}.

Definition demo_options : ExecuteOptions :=
  {| idempotencyKey := "idem_1"; dryRun := false; confirmedByUser := false |}.
