(* ===== verification/KernelCaps.v ===== *)
(** Spend caps under concurrency.

    `reserve` sums the window and inserts the row in one transaction; the
    header of `src/kernel/store.ts` concludes that concurrent intents cannot
    jointly exceed a cap.  Here that is a theorem about the pool of tasks
    [TradeGateway.execute] starts: whatever the interleaving, the active spend
    in any window of an hour or a day stays under the cap. *)
From S2P Require Import Prelude Table Prog Money Contracts PolicyEngine KernelStore TradeGateway.
#[local] Open Scope Z_scope.

(** Active spend of a bucket created in [lo, lo + len]. *)
Definition windowSum (b : QuoteBucket) (lo len : Z) (s : KernelStore) : Z :=
  sum_by sp_amount
    (select (fun r => bool_decide (sp_bucket r = b) && active r
                      && ((lo <=? sp_created_at r) && (sp_created_at r <=? lo + len)))
       (spends s)).

(** The contribution of one row to a sum over the rows that satisfy [q]. *)
Definition counted (q : SpendRow -> bool) (b : QuoteBucket) (r : SpendRow) : Z :=
  if bool_decide (sp_bucket r = b) && active r && q r then sp_amount r else 0.

Definition in_window (lo len : Z) (r : SpendRow) : bool :=
  (lo <=? sp_created_at r) && (sp_created_at r <=? lo + len).

Lemma windowSum_counted b lo len s :
  windowSum b lo len s = sum_by (counted (in_window lo len) b) (spends s).
Proof. unfold windowSum, select. rewrite sum_by_filter. done. Qed.

Lemma sumActive_counted b since s :
  sumActive b since s = sum_by (counted (fun r => since <=? sp_created_at r) b) (spends s).
Proof. unfold sumActive, select. rewrite sum_by_filter. done. Qed.

Section Caps.
(** An upper bound on the caps of every policy in force. *)
Context (C : QuoteBucket -> SpendCaps).

Definition caps_within (p : PolicyConfig) : Prop :=
  forall b, perHour (caps_for p b) <= perHour (C b) /\ perDay (caps_for p b) <= perDay (C b).

Definition windows_ok (s : KernelStore) : Prop :=
  forall b t, windowSum b t HOUR_MS s <= perHour (C b) /\
              windowSum b t DAY_MS s <= perDay (C b).

Definition spends_ok (s : KernelStore) : Prop :=
  keyed sp_id (spends s) /\ (forall r, r ∈ spends s -> 0 <= sp_amount r) /\ windows_ok s.

(** A statement that leaves the contribution of every row as it was, or lowers it. *)
Lemma spends_ok_update s p f :
  (forall r, sp_id (f r) = sp_id r) -> (forall r, sp_amount (f r) = sp_amount r) ->
  (forall r b q, r ∈ spends s -> p r = true -> (forall x, q (f x) = q x) ->
     0 <= sp_amount r -> counted q b (f r) <= counted q b r) ->
  (forall r, sp_created_at (f r) = sp_created_at r) ->
  spends_ok s -> spends_ok (set_spends (update_where p f) s).
Proof.
  intros Hid Ham Hc Hat (Hk & Hpos & Hw). split_and!; simpl.
  - by apply update_keyed.
  - intros r (x & Hx & ->)%update_elem. destruct (p x); rewrite ?Ham; by apply Hpos.
  - intros b t. specialize (Hw b t) as [Hh Hd].
    assert (forall len, windowSum b t len (set_spends (update_where p f) s) <= windowSum b t len s)
      as Hle; [|pose proof (Hle HOUR_MS); pose proof (Hle DAY_MS); lia].
    intros len. rewrite !windowSum_counted. simpl. unfold update_where. rewrite sum_by_map.
    apply sum_by_le. intros r Hr. destruct (p r) eqn:E; [|done].
    apply Hc; [done|done| |by apply Hpos]. intros x. unfold in_window. by rewrite Hat.
Qed.

Lemma release_spends_ok rid s : spends_ok s -> spends_ok (releaseReservation rid s).
Proof.
  apply spends_ok_update; try done. intros r b q _ _ _ Hpos. unfold counted. simpl.
  rewrite andb_false_r. split_ifs; simpl; lia.
Qed.

Lemma consume_spends_ok rid s row :
  get sp_id rid (spends s) = Some row -> sp_state row = S_reserved ->
  spends_ok s -> spends_ok (consumeReservation rid s).
Proof.
  intros Hrow Hst Hok. pose proof Hok as [Hk _]. revert Hok.
  apply spends_ok_update; try done. intros r b q Hr Hid Hq _. bool_hyps. subst rid.
  rewrite (keyed_get _ _ _ Hk Hr) in Hrow. simplify_eq.
  unfold counted, active. rewrite Hq, Hst. simpl. by destruct (bool_decide (sp_bucket row = b)).
Qed.

Lemma reserve_Reserved a rid s r s' :
  reserve a rid s = (r, s') ->
  (s' = s /\ forall id uh ud, r <> inr (Reserved id uh ud)) \/
  (exists uh ud, r = inr (Reserved rid uh ud) /\
   get sp_id rid (spends s) = None /\
   spends s' = spends s ++ [reservation_row a rid] /\
   sumActive (ra_bucket a) (ra_now a - HOUR_MS) s + ra_amount a <= perHour (ra_caps a) /\
   sumActive (ra_bucket a) (ra_now a - DAY_MS) s + ra_amount a <= perDay (ra_caps a) /\
   ra_amount a <= perTrade (ra_caps a)).
Proof.
  unfold reserve, transaction. intros H.
  destruct (perTrade (ra_caps a) <? ra_amount a) eqn:E1; [left; by simplify_eq|].
  destruct (perHour (ra_caps a) <? _) eqn:E2; [left; by simplify_eq|].
  destruct (perDay (ra_caps a) <? _) eqn:E3; [left; by simplify_eq|].
  destruct (insert _ _ _) as [t|] eqn:Ei; [|left; by simplify_eq].
  apply insert_Some in Ei as [Hg ->]. simplify_eq/=. bool_hyps. right.
  eexists _, _. split_and!; try done; lia.
Qed.

Lemma counted_window_since b t len r now :
  t <= now <= t + len -> 0 <= sp_amount r ->
  counted (in_window t len) b r <= counted (fun r => now - len <=? sp_created_at r) b r.
Proof.
  intros Hnow Hpos. unfold counted, in_window.
  destruct (bool_decide _ && active r); simpl; [|lia].
  destruct (t <=? sp_created_at r) eqn:E1, (sp_created_at r <=? t + len) eqn:E2,
    (now - len <=? sp_created_at r) eqn:E3; bool_hyps; simpl; lia.
Qed.

Lemma reserve_window a rid s b t len cap :
  (forall r, r ∈ spends s -> 0 <= sp_amount r) -> 0 <= ra_amount a ->
  windowSum b t len s <= cap b ->
  (ra_bucket a = b -> sumActive b (ra_now a - len) s + ra_amount a <= cap b) ->
  sum_by (counted (in_window t len) b)
    (spends s ++ [reservation_row a rid]) <= cap b.
Proof.
  intros Hpos Ha Hw Hs. rewrite sum_by_app, <- windowSum_counted, sum_by_cons, sum_by_nil.
  unfold counted at 1. simpl. destruct (bool_decide (ra_bucket a = b)) eqn:Eb; simpl; [|lia].
  unfold in_window. simpl.
  destruct (t <=? ra_now a) eqn:E1, (ra_now a <=? t + len) eqn:E2; simpl; try lia. bool_hyps.
  specialize (Hs Eb). rewrite windowSum_counted. rewrite sumActive_counted in Hs.
  enough (sum_by (counted (in_window t len) b) (spends s) <=
          sum_by (counted (fun r => ra_now a - len <=? sp_created_at r) b) (spends s)) by lia.
  apply sum_by_le. intros r Hr. apply counted_window_since; [lia|by apply Hpos].
Qed.

Lemma reserve_spends_ok a rid s r s' :
  reserve a rid s = (r, s') -> 0 <= ra_amount a ->
  perHour (ra_caps a) <= perHour (C (ra_bucket a)) ->
  perDay (ra_caps a) <= perDay (C (ra_bucket a)) ->
  spends_ok s -> spends_ok s'.
Proof.
  intros Hr Ha HCh HCd Hok.
  apply reserve_Reserved in Hr as [[-> _]|(uh & ud & -> & Hg & Hsp & Hh & Hd & _)]; [done|].
  destruct Hok as (Hk & Hpos & Hw). split_and!.
  - rewrite Hsp. eapply (insert_keyed sp_id); [|exact Hk].
    by apply (insert_Some sp_id (reservation_row a rid)).
  - rewrite Hsp. intros x [Hx|Hx]%elem_of_app; [by apply Hpos|].
    apply list_elem_of_singleton in Hx as ->. done.
  - intros b t. destruct (Hw b t) as [Hwh Hwd]. rewrite !windowSum_counted, Hsp. split.
    + refine (reserve_window a rid s b t HOUR_MS (fun b => perHour (C b)) Hpos Ha Hwh _).
      intros <-. lia.
    + refine (reserve_window a rid s b t DAY_MS (fun b => perDay (C b)) Hpos Ha Hwd _).
      intros <-. lia.
Qed.
End Caps.

(** *** The protocol a task follows

    A task reserves at most once, with an amount the guards accepted and the
    caps of a policy in force, releases only its own reservation, and consumes
    it only while it still holds it. *)
Inductive Holding : Type := H_none | H_held (rid : string) | H_done (rid : string).

Definition owned (h : Holding) : option string :=
  match h with H_none => None | H_held r | H_done r => Some r end.

Section Protocol.
Context (C : QuoteBucket -> SpendCaps).

Definition caps_pre R (e : geff R) (h : Holding) : Prop :=
  match e with
  | Reserve a => h = H_none /\ 0 <= ra_amount a /\
                 perHour (ra_caps a) <= perHour (C (ra_bucket a)) /\
                 perDay (ra_caps a) <= perDay (C (ra_bucket a))
  | ReleaseReservation rid => owned h = Some rid
  | ConsumeReservation rid => h = H_held rid
  | _ => True
  end.

Definition caps_upd R (e : geff R) : R -> Holding -> Holding :=
  match e in geff R return R -> Holding -> Holding with
  | Reserve a => fun r h => match r with inr (Reserved rid _ _) => H_held rid | _ => h end
  | ReleaseReservation rid => fun _ _ => H_done rid
  | ConsumeReservation rid => fun _ _ => H_done rid
  | _ => fun _ h => h
  end.

Definition startable (d : TradeGatewayDeps) (n : nat) (p : prog geff Empty_set ExecuteResult) : Prop :=
  exists i o, p = execute d i o.

Lemma execute_follows d n p :
  startable d n p ->
  exists g, g = H_none /\ follows caps_pre (@gans (caps_within C)) caps_upd p g.
Proof.
  intros (i & o & ->). exists H_none. split; [done|]. unfold execute. destruct (dryRun o); prog_walk; try done.
  all: match goal with
       | H : staticGuards _ _ _ = None |- 0 <= _ => by eapply staticGuards_amount
       | H : caps_within C _ |- _ => apply H
       end.
Qed.

(** *** The invariant of all tasks *)

Record caps_inv (s : KernelStore) (gs : list Holding) : Prop := {
  ci_spends : spends_ok C s;
  ci_held : forall i rid, gs !! i = Some (H_held rid) ->
    exists row, get sp_id rid (spends s) = Some row /\ sp_state row = S_reserved;
  ci_owned : forall i h rid, gs !! i = Some h -> owned h = Some rid ->
    get sp_id rid (spends s) <> None;
  ci_unique : forall i j hi hj rid, gs !! i = Some hi -> gs !! j = Some hj ->
    owned hi = Some rid -> owned hj = Some rid -> i = j
}.

Lemma caps_inv_same s s' gs : spends s' = spends s -> caps_inv s gs -> caps_inv s' gs.
Proof.
  intros E [[Hk [Hp Hw]] Hh Ho Hu]. split; rewrite ?E; try done.
  split_and!; [by rewrite E|by rewrite E|].
  intros b t. destruct (Hw b t) as [H1 H2]. unfold windowSum in *. by rewrite E.
Qed.

Lemma caps_inv_start s gs g : caps_inv s gs -> g = H_none -> caps_inv s (gs ++ [g]).
Proof.
  intros HI ->. revert HI.
  assert (forall i h, (gs ++ [H_none]) !! i = Some h -> owned h <> None -> gs !! i = Some h) as Hold.
  { intros i h [Hi|[_ Hi]]%lookup_app_Some Hh; [done|].
    apply list_lookup_singleton_Some in Hi as [_ <-]. done. }
  intros [Hs Hh Ho Hu]. split; [done| | |].
  - intros i rid Hi. eapply Hh, Hold; [exact Hi|done].
  - intros i h rid Hi Hr. eapply Ho; [apply Hold; [exact Hi|by rewrite Hr]|done].
  - intros i j hi hj rid Hi Hj Hri Hrj.
    eapply Hu; [apply Hold; [exact Hi|by rewrite Hri]|apply Hold; [exact Hj|by rewrite Hrj]|done..].
Qed.

(** A statement on the reservation task [i] owns: the rows the other tasks
    hold are untouched, and [i] no longer holds its own. *)
Lemma caps_inv_done s s' gs i g rid p f :
  caps_inv s gs -> gs !! i = Some g -> owned g = Some rid ->
  spends s' = update_where p f (spends s) ->
  (forall r, sp_id (f r) = sp_id r) -> (forall r, p r = true -> sp_id r = rid) ->
  spends_ok C s' -> caps_inv s' (<[i := H_done rid]> gs).
Proof.
  intros [Hs Hh Ho Hu] Hi Hg Hs' Hid Hp Hok.
  pose proof (fun j h => insert_lookup_cases gs i j (H_done rid) h) as Hj.
  split; [done| | |].
  - intros j r Hjr. destruct (Hj _ _ Hjr) as [[_ ?]|[Hne Hgj]]; [done|].
    destruct (Hh _ _ Hgj) as (row & Hrow & Hst). exists row.
    rewrite Hs', update_get, Hrow by done. cbn.
    destruct (p row) eqn:E; [|done]. apply Hp in E.
    apply get_Some in Hrow as [_ Hrid]. destruct Hne.
    eapply Hu; [exact Hgj|exact Hi|done|]. by rewrite Hg, <- Hrid, E.
  - intros j h r Hjr Hr. rewrite Hs', update_get, fmap_None by done.
    destruct (Hj _ _ Hjr) as [[-> ->]|[_ Hgj]]; simplify_eq/=; by eapply Ho.
  - intros j1 j2 h1 h2 r H1 H2 Hr1 Hr2.
    destruct (Hj _ _ H1) as [[-> ->]|[Hne1 Hg1]], (Hj _ _ H2) as [[-> ->]|[Hne2 Hg2]];
      simplify_eq/=; [done|by eapply Hu..].
Qed.

Lemma caps_inv_reserve s s' gs i a rid uh ud :
  caps_inv s gs -> gs !! i = Some H_none -> caps_pre _ (Reserve a) H_none ->
  reserve a rid s = (inr (Reserved rid uh ud), s') ->
  caps_inv s' (<[i := H_held rid]> gs).
Proof.
  intros [Hs Hh Ho Hu] Hi (_ & Ha & HCh & HCd) Hr.
  pose proof (reserve_spends_ok C _ _ _ _ _ Hr Ha HCh HCd Hs) as Hs'.
  assert (get sp_id rid (spends s) = None /\ spends s' = spends s ++ [reservation_row a rid])
    as [Hfresh Hsp].
  { apply reserve_Reserved in Hr as [[_ Hr]|(? & ? & _ & ? & ? & _)]; [by destruct (Hr rid uh ud)|done]. }
  assert (forall r row, get sp_id r (spends s) = Some row -> get sp_id r (spends s') = Some row)
    as Hkeep by (intros r row Hr'; by rewrite Hsp, get_app, Hr').
  assert (get sp_id rid (spends s') = Some (reservation_row a rid)) as Hnew
    by (by rewrite Hsp, get_app, Hfresh, get_cons, decide_True).
  pose proof (fun j h => insert_lookup_cases gs i j (H_held rid) h) as Hj.
  assert (forall j h r, gs !! j = Some h -> owned h = Some r -> r <> rid) as Hne
    by (intros j h r H1 H2 ->; by apply (Ho _ _ _ H1 H2)).
  split; [done| | |].
  - intros j r Hjr. destruct (Hj _ _ Hjr) as [[_ [= ->]]|[_ Hgj]]; [eauto|].
    destruct (Hh _ _ Hgj) as (row & Hrow & Hst). eauto.
  - intros j h r Hjr Hr'. destruct (Hj _ _ Hjr) as [[_ ->]|[_ Hgj]].
    + simplify_eq/=. by rewrite Hnew.
    + specialize (Ho _ _ _ Hgj Hr'). destruct (get sp_id r (spends s)) eqn:E; [|done].
      by rewrite (Hkeep _ _ E).
  - intros j1 j2 h1 h2 r H1 H2 Hr1 Hr2.
    destruct (Hj _ _ H1) as [[-> ->]|[Hn1 Hg1]], (Hj _ _ H2) as [[-> ->]|[Hn2 Hg2]];
      simplify_eq/=; [done| | |by eapply Hu].
    + by destruct (Hne _ _ _ Hg2 Hr2).
    + by destruct (Hne _ _ _ Hg1 Hr1).
Qed.

Definition touches_spends {R} (e : geff R) : bool :=
  match e with Reserve _ | ReleaseReservation _ | ConsumeReservation _ => true | _ => false end.

Lemma gexec_spends ok R (e : geff R) s r s' :
  gexec ok e s r s' -> touches_spends e = false -> spends s' = spends s.
Proof.
  destruct e; simpl; intros He Ht; try done; destruct_and?; try (by subst s').
  - unfold claimIdempotency in He. by case_match; simplify_eq/=.
  - unfold insertTrade in He. by repeat case_match; simplify_eq/=.
Qed.

Lemma caps_inv_step i R (e : geff R) s r s' gs g :
  caps_inv s gs -> gs !! i = Some g -> caps_pre _ e g -> gexec (caps_within C) e s r s' ->
  caps_inv s' (<[i := caps_upd _ e r g]> gs).
Proof.
  intros HI Hi Hpre He. destruct (touches_spends e) eqn:Ht.
  - destruct e; try done; simpl in Hpre, He.
    + destruct He as [rid He]. pose proof Hpre as [-> _].
      pose proof (reserve_Reserved _ _ _ _ _ He) as [[-> Hr]|(uh & ud & -> & _)];
        [|by eapply caps_inv_reserve].
      simpl. destruct r as [|[id uh ud|]]; [|by destruct (Hr id uh ud)|];
        by rewrite list_insert_id.
    + subst s'. eapply caps_inv_done; [done|done|exact Hpre|reflexivity|done| |].
      * intros x Hx. simpl in Hx. by bool_hyps.
      * by apply release_spends_ok, HI.
    + subst s' g. destruct (ci_held _ _ HI _ _ Hi) as (row & Hrow & Hst).
      eapply caps_inv_done; [done|done|done|reflexivity|done| |].
      * intros x Hx. simpl in Hx. by bool_hyps.
      * by eapply consume_spends_ok, HI.
  - assert (caps_upd _ e r g = g) as -> by by destruct e.
    rewrite list_insert_id by done.
    eapply caps_inv_same; [by eapply gexec_spends|done].
Qed.
End Protocol.

(** *** The theorem *)

(** C1: whatever tasks `execute` starts and however they interleave, the active
    spend of a bucket in any window of one hour, and of one day, is at most the
    cap: no concurrency between reservations, settlements and failures lets the
    total past it, and no rolling window straddles it. *)
Theorem spend_caps_hold (C : QuoteBucket -> SpendCaps) (d : TradeGatewayDeps) s ts
    (Hcaps : forall b, 0 <= perHour (C b) /\ 0 <= perDay (C b))
    (Hreach : pool_reachable (fun _ => @gexec (caps_within C)) (startable d) empty_store (s, ts)) :
  forall b t, windowSum b t HOUR_MS s <= perHour (C b) /\ windowSum b t DAY_MS s <= perDay (C b).
Proof.
  assert (caps_inv C empty_store []) as H0.
  { split; try done. split_and!; [constructor|by intros r Hr%elem_of_nil|].
    intros b t. apply Hcaps. }
  destruct (pool_invariant _ _ _ _ _ _ _ (fun _ => @gexec_gans (caps_within C))
              (execute_follows C d) (fun s gs g => caps_inv_start C s gs g) (caps_inv_step C)
              _ _ H0 Hreach)
    as (gs & HI & _).
  apply HI.
Qed.

Definition demo_final : KernelStore :=
  (run (@demo demo_env) (execute demo_deps example_intent demo_options) empty_store).2.

Lemma spend_caps_hold_witness :
  windowSum sol 0 HOUR_MS demo_final = 500000000 /\
  windowSum sol 0 HOUR_MS demo_final <= perHour (caps_for example_policy sol).
Proof.
  split; [vm_compute; reflexivity|].
  refine (proj1 (spend_caps_hold (caps_for example_policy) demo_deps demo_final _ _
    (run_pool_one (fun _ => @gexec (caps_within (caps_for example_policy))) (startable demo_deps)
       (fun _ => @demo demo_env) _ (execute demo_deps example_intent demo_options) empty_store _) sol 0)).
  - intros []; simpl; lia.
  - intros i R e s. apply demo_gexec. intros b; split; reflexivity.
  - by exists example_intent, demo_options.
Defined.
