(* ===== verification/GatewaySafety.v ===== *)
(** What one run of the money path may do.

    The protocol of `TradeGatewayImpl.execute` (`src/kernel/trade-gateway.ts`)
    as conditions on the history of a run: what must have happened before a
    transaction is signed, broadcast and confirmed, what a dry run may touch,
    and what becomes of the reservation. *)
From S2P Require Import Prelude Table Prog Money Contracts PolicyEngine KernelStore TradeGateway.
#[local] Open Scope Z_scope.
#[local] Open Scope prog_scope.

(** The events of a run, latest first. *)
Definition history : Type := list (event geff).

Definition is_sign (ev : event geff) : bool :=
  match ev with Event e _ => match e with Sign _ => true | _ => false end end.

Definition is_broadcast (ev : event geff) : bool :=
  match ev with Event e _ => match e with Broadcast _ _ _ => true | _ => false end end.

(** The reservations a history made, released and consumed. *)
Definition reserved_id (ev : event geff) : option string :=
  match ev with
  | Event e r =>
      match e in geff R return R -> option string with
      | Reserve _ => fun r => match r with inr (Reserved rid _ _) => Some rid | _ => None end
      | _ => fun _ => None
      end r
  end.
Definition released_id (ev : event geff) : option string :=
  match ev with Event e _ => match e with ReleaseReservation rid => Some rid | _ => None end end.
Definition consumed_id (ev : event geff) : option string :=
  match ev with Event e _ => match e with ConsumeReservation rid => Some rid | _ => None end end.

(** The statuses a confirmer reported. *)
Definition confirm_status (ev : event geff) : option ConfirmStatus :=
  match ev with
  | Event e r =>
      match e in geff R return R -> option ConfirmStatus with
      | Confirm _ _ => fun r => match r with inr st => Some st | _ => None end
      | _ => fun _ => None
      end r
  end.

(** The need a balance has to cover. *)
Definition needed (i : TradeIntent) : Z :=
  amount (input i) +
  (if bool_decide (quoteBucketFor (mint (input i)) = Some sol) then FEE_BUFFER_LAMPORTS else 0).

(** *** What must precede a signature *)

Record cleared (d : TradeGatewayDeps) (i : TradeIntent) (o : ExecuteOptions) (tid : string)
    (h : history) : Prop := {
  cl_live : dryRun o = false;
  cl_claimed : exists now, Event (ClaimIdempotency (idempotencyKey o) tid now) true ∈ h;
  cl_policy : exists p, Event ReadPolicy p ∈ h /\
    staticGuards p i {| opt_dryRun := false; opt_confirmedByUser := confirmedByUser o |} = None /\
    (exists mi mo, Event (Inspect (mint (input i))) (inr mi) ∈ h /\
                   Event (Inspect (out_mint (output i))) (inr mo) ∈ h /\
                   (isToken2022 mi || isToken2022 mo = true -> allowToken2022 p = true)) /\
    (forall b, quoteBucketFor (mint (input i)) = Some b ->
      exists now rid uh ud,
        Event (Reserve {| ra_bucket := b; ra_amount := amount (input i); ra_caps := caps_for p b;
                          ra_tradeId := tid; ra_now := now |}) (inr (Reserved rid uh ud)) ∈ h);
  cl_settleable : assertSettleable d i = None;
  cl_balance : exists bal,
    Event (ReadBalance (wallet_pubkey d) (mint (input i))) (inr bal) ∈ h /\ needed i <= bal;
  cl_inserted : exists row rid, Event (InsertTrade row rid) (inr tt) ∈ h /\
    nt_id row = tid /\ nt_idempotencyKey row = idempotencyKey o /\ nt_intent row = i;
  cl_simulated : Event (Simulate (unsignedTxBase64 i)) (inr true) ∈ h;
  cl_once : List.filter is_sign h = []
}.

(** *** The protocol *)

Definition gateway_pre (d : TradeGatewayDeps) (i : TradeIntent) (o : ExecuteOptions)
    R (e : geff R) (h : history) : Prop :=
  match e with
  | Sign w => w = unsignedTxBase64 i /\ exists tid, cleared d i o tid h
  | Broadcast mode signed handle =>
      mode = landMode i /\ handle = landHandle i /\ broadcaster_mounted d mode = true /\
      List.filter is_broadcast h = [] /\
      exists tid at_,
        Event (Sign (unsignedTxBase64 i)) (inr signed) ∈ h /\
        Event (PersistSigned tid (wireBase64 signed) (signature signed) at_) tt ∈ h
  | Confirm sig lvbh =>
      lvbh = lastValidBlockHeight i /\ omap confirm_status h = [] /\
      exists signed tid at_,
        Event (Broadcast (landMode i) signed (landHandle i)) (inr sig) ∈ h /\
        Event (SetState tid sent at_) tt ∈ h
  | _ => True
  end.

(** *** The outcome *)

Definition outcome (res : ExecuteResult) (h : history) : Prop :=
  (length (List.filter is_sign h) <= 1)%nat /\
  match omap reserved_id h with
  | [] => omap released_id h = [] /\ omap consumed_id h = []
  | rids => if bool_decide (res_state res = confirmed)
            then omap consumed_id h = rids /\ omap released_id h = [] /\
                 omap confirm_status h = [C_confirmed]
            else omap released_id h = rids /\ omap consumed_id h = []
  end.

(** The obligations of [cleared], each found in the history or among the
    conditions of the branches taken. *)
Ltac clear_sign :=
  split;
  [ done
  | eexists; in_history
  | eexists; split_and!;
    [ in_history | done
    | eexists _, _; split_and!; [in_history|in_history|];
      intros Ht; match goal with
      | H : negb _ && _ = false |- _ => rewrite Ht, andb_true_r in H; by apply negb_false_iff in H
      end
    | intros b Hb; simplify_eq; eexists _, _, _, _; in_history ]
  | done
  | eexists; split; [in_history|unfold needed; simplify_option_eq; done]
  | eexists _, _; split_and!; [in_history|done..]
  | in_history
  | done ].

Lemma execute_protocol d i o :
  ensures (gateway_pre d i o) (fun _ _ _ => True) record_event (execute d i o)
    (fun r h => match r with inr res => outcome res h | inl e => match e with end end) [].
Proof.
  unfold execute. destruct (dryRun o) eqn:Hd; cbn.
  all: prog_walk.
  all: lazymatch goal with
       | |- outcome _ _ => subst; split; [simpl; lia|vm_compute; done]
       | _ => try done
       end.
  all: unit_answers; subst; bool_hyps; subst.
  all: lazymatch goal with
       | |- exists tid, cleared _ _ _ _ _ => eexists; clear_sign
       | _ => by repeat eexists; in_history
       end.
Qed.

(** *** The theorems *)

(** C2: a transaction is signed only in a live run that claimed the idempotency
    key, read a policy whose static guards accept the intent, looked at both
    mints, reserved the spend under that policy's caps (for a capped bucket),
    found the balance (and the fee buffer) in the wallet, recorded the trade and
    got a successful simulation of exactly the bytes it signs; and a run signs
    at most once. *)
Theorem signs_only_cleared d i o w r l1 l2 q
    (Hrun : traces (execute d i o) (l1 ++ Event (Sign w) r :: l2) q) :
  w = unsignedTxBase64 i /\ exists tid, cleared d i o tid (rev l1).
Proof.
  exact (history_allowed _ _ _ _ _ _ (ensures_follows _ _ _ _ _ _ (execute_protocol d i o)) Hrun).
Qed.

(** Only the bytes the run signed itself are broadcast, once, after their
    signature was persisted with the trade, through a broadcaster mounted for
    the intent's landing mode. *)
Theorem broadcasts_only_persisted d i o mode signed handle r l1 l2 q
    (Hrun : traces (execute d i o) (l1 ++ Event (Broadcast mode signed handle) r :: l2) q) :
  mode = landMode i /\ handle = landHandle i /\ broadcaster_mounted d mode = true /\
  List.filter is_broadcast (rev l1) = [] /\
  exists tid at_,
    Event (Sign (unsignedTxBase64 i)) (inr signed) ∈ rev l1 /\
    Event (PersistSigned tid (wireBase64 signed) (signature signed) at_) tt ∈ rev l1.
Proof.
  exact (history_allowed _ _ _ _ _ _ (ensures_follows _ _ _ _ _ _ (execute_protocol d i o)) Hrun).
Qed.

(** Confirmation is asked once, for the signature the broadcaster returned,
    after the trade row was moved to `sent`, with the intent's block height. *)
Theorem confirms_only_sent d i o sig lvbh r l1 l2 q
    (Hrun : traces (execute d i o) (l1 ++ Event (Confirm sig lvbh) r :: l2) q) :
  lvbh = lastValidBlockHeight i /\ omap confirm_status (rev l1) = [] /\
  exists signed tid at_,
    Event (Broadcast (landMode i) signed (landHandle i)) (inr sig) ∈ rev l1 /\
    Event (SetState tid sent at_) tt ∈ rev l1.
Proof.
  exact (history_allowed _ _ _ _ _ _ (ensures_follows _ _ _ _ _ _ (execute_protocol d i o)) Hrun).
Qed.

(** C4: the reservation of a run is never leaked: when the run ends it was
    consumed, exactly once and never released, if the result is `confirmed`,
    which only a confirmer's answer makes it; otherwise it was released, exactly
    once, and never consumed; and a run that reserved nothing does neither. *)
Theorem reservation_accounted d i o l res
    (Hrun : traces (execute d i o) l (Ret res)) : outcome res (rev l).
Proof. exact (history_result _ _ _ _ _ (execute_protocol d i o) Hrun). Qed.

(** What a clean settlement proves of the fill: two answers of the wallet, or of
    the venue, differ by at least what the quote promised. *)
Definition verified_fill (d : TradeGatewayDeps) (i : TradeIntent) (f : FillReport) (h : history) : Prop :=
  match perp i, positionRef d i with
  | Some leg, Some ref =>
      exists p0 p1,
        Event (ReadPosition ref) (inr p0) ∈ h /\ Event (ReadPosition ref) (inr p1) ∈ h /\
        positionDelta f = Some (p1 - p0) /\
        minBaseAmount leg <= match side leg with long => p1 - p0 | short => p0 - p1 end
  | _, _ =>
      exists b0 b1,
        Event (ReadBalance (wallet_pubkey d) (out_mint (output i))) (inr b0) ∈ h /\
        Event (ReadBalance (wallet_pubkey d) (out_mint (output i))) (inr b1) ∈ h /\
        outputDelta f = b1 - b0 /\ minOutAmount (quote i) <= outputDelta f
  end.

Definition fill_verified (d : TradeGatewayDeps) (i : TradeIntent) (res : ExecuteResult) (h : history) : Prop :=
  res_state res = confirmed -> res_error res = None ->
  exists f, res_fill res = Some f /\ verified_fill d i f h.

Lemma positionRef_perp d i ref : positionRef d i = Some ref -> exists leg, perp i = Some leg.
Proof. unfold positionRef. destruct (perp i); [eauto|done]. Qed.

Lemma execute_verified d i o :
  ensures (fun _ _ _ => True) (fun _ _ _ => True) record_event (execute d i o)
    (fun r h => match r with inr res => fill_verified d i res h | inl e => match e with end end) [].
Proof.
  unfold execute, fill_verified, verified_fill. destruct (dryRun o) eqn:Hd; cbn.
  all: prog_walk; subst; try done.
  all: try (unfold duplicate_result in *; by case_match).
  all: try match goal with
       | H1 : positionRef _ _ = Some _, H2 : perp _ = None |- _ =>
           by destruct (positionRef_perp _ _ _ H1); simplify_eq
       end.
  all: try match goal with
       | H : Guard <$> (if ?b then _ else _) = None |- _ => destruct b eqn:?; [done|]
       end.
  all: bool_hyps; eexists; split; [done|]; eexists _, _; split_and!; [| |done|simpl; lia]; in_history.
Qed.

(** A run that ends `confirmed` without an error code verified its fill: for
    a perp, two reads of the venue position differ by at least the minimum base
    amount in the direction of the order; otherwise two reads of the wallet's
    output balance differ by at least the quoted minimum. *)
Theorem clean_fill_verified d i o l res
    (Hrun : traces (execute d i o) l (Ret res))
    (Hconf : res_state res = confirmed) (Hclean : res_error res = None) :
  exists f, res_fill res = Some f /\ verified_fill d i f (rev l).
Proof. exact (history_result _ _ _ _ _ (execute_verified d i o) Hrun Hconf Hclean). Qed.

(** The effects that leave the store as it is: the reads, and a claim refused. *)
Definition keeps_store (ev : event geff) : bool :=
  match ev with
  | Event e r =>
      match e in geff R return R -> bool with
      | ClockNow | NewTradeId | ReadPolicy | Inspect _ | ReadBalance _ _ | ReadPosition _
      | Simulate _ | GetTradeByIdempotency _ | GetUsage _ _ | PendingSent => fun _ => true
      | ClaimIdempotency _ _ _ => fun r => negb r
      | _ => fun _ => false
      end r
  end.

Definition is_claim (ev : event geff) : bool :=
  match ev with
  | Event e r =>
      match e in geff R return R -> bool with
      | ClaimIdempotency _ _ _ => fun r => r
      | _ => fun _ => false
      end r
  end.

Lemma keeps_store_ok ok l s s' :
  execs (@gexec ok) l s s' -> forallb keeps_store l = true -> s' = s.
Proof.
  revert s. induction l as [|[R e r] l IH]; intros s; [done|].
  intros (s1 & He & Hl) [Hk Hr]%andb_true_iff. rewrite (IH _ Hl Hr).
  destruct e; simpl in He, Hk; try done; destruct_and?; try done.
  subst. unfold claimIdempotency in He. case_match; by simplify_eq.
Qed.

Definition unclaimed_result (o : ExecuteOptions) (res : ExecuteResult) (h : history) : Prop :=
  dryRun o = true \/ existsb is_claim h = false ->
  forallb keeps_store h = true /\
  if dryRun o
  then res_simulated res = true /\ (res_state res = reserved <-> res_error res = None)
  else res_error res = Some (Guard DUPLICATE_INTENT) /\ res_fill res = None.

Lemma execute_unclaimed d i o :
  ensures (fun _ _ _ => True) (fun _ _ _ => True) record_event (execute d i o)
    (fun r h => match r with inr res => unclaimed_result o res h | inl e => match e with end end) [].
Proof.
  unfold execute, unclaimed_result. destruct (dryRun o) eqn:Hd; cbn.
  all: prog_walk; subst; try done.
  all: try match goal with H : _ \/ _ |- _ => by destruct H end.
  all: unfold duplicate_result; by case_match.
Qed.

(** A dry run, and a run whose idempotency key is taken, change nothing:
    whatever the environment answers, the store ends as it began and nothing is
    signed or broadcast; the dry run reports its verdict (`reserved` exactly when
    no guard refused), the duplicate reports DUPLICATE_INTENT. *)
Theorem inert_runs ok d i o l res s s'
    (Hrun : traces (execute d i o) l (Ret res))
    (Hinert : dryRun o = true \/ existsb is_claim l = false)
    (Hstore : execs (@gexec ok) l s s') :
  s' = s /\ List.filter is_sign l = [] /\ List.filter is_broadcast l = [] /\
  if dryRun o
  then res_simulated res = true /\ (res_state res = reserved <-> res_error res = None)
  else res_error res = Some (Guard DUPLICATE_INTENT) /\ res_fill res = None.
Proof.
  pose proof (history_result _ _ _ _ _ (execute_unclaimed d i o) Hrun) as Hu. simpl in Hu.
  rewrite <- existsb_rev in Hinert. destruct (Hu Hinert) as [Hk Hres].
  rewrite forallb_rev in Hk.
  split_and!; [by eapply keeps_store_ok| | |done].
  all: apply filter_none; intros [R e r] Hx%list_elem_of_In;
    pose proof (proj1 (forallb_forall _ _) Hk _ Hx); by destruct e.
Qed.

(** *** The theorems at the demonstration run *)

Definition demo_trace : list (event geff) :=
  run_trace (@demo demo_env) (execute demo_deps example_intent demo_options) empty_store.

Lemma demo_trace_run :
  traces (execute demo_deps example_intent demo_options) demo_trace
    (finished (run (@demo demo_env) (execute demo_deps example_intent demo_options) empty_store).1).
Proof. apply run_traces. Qed.

Lemma demo_trace_split n ev :
  demo_trace !! n = Some ev ->
  traces (execute demo_deps example_intent demo_options)
    (take n demo_trace ++ ev :: drop (S n) demo_trace)
    (finished (run (@demo demo_env) (execute demo_deps example_intent demo_options) empty_store).1).
Proof. intros Hn. rewrite take_drop_middle by done. apply demo_trace_run. Qed.

Definition demo_signed : SignedTx :=
  {| wireBase64 := unsignedTxBase64 example_intent ++ "signed"; signature := "sig" |}.

Lemma signs_only_cleared_witness :
  exists tid, cleared demo_deps example_intent demo_options tid (rev (take 15 demo_trace)).
Proof.
  refine (proj2 (signs_only_cleared _ _ _ _ _ _ _ _
    (demo_trace_split 15 (Event (Sign (unsignedTxBase64 example_intent)) (inr demo_signed)) _))).
  vm_compute. reflexivity.
Defined.

Lemma broadcasts_only_persisted_witness :
  List.filter is_broadcast (rev (take 20 demo_trace)) = [].
Proof.
  refine (proj1 (proj2 (proj2 (proj2 (broadcasts_only_persisted _ _ _ _ _ _ _ _ _ _
    (demo_trace_split 20 (Event (Broadcast (landMode example_intent) demo_signed
                                   (landHandle example_intent)) (inr "sig"%string)) _)))))).
  vm_compute. reflexivity.
Defined.

Lemma confirms_only_sent_witness : omap confirm_status (rev (take 27 demo_trace)) = [].
Proof.
  refine (proj1 (proj2 (confirms_only_sent _ _ _ _ _ _ _ _ _
    (demo_trace_split 27 (Event (Confirm "sig" (lastValidBlockHeight example_intent))
                            (inr C_confirmed)) _)))).
  vm_compute. reflexivity.
Defined.

Definition demo_result : ExecuteResult :=
  match (run (@demo demo_env) (execute demo_deps example_intent demo_options) empty_store).1 with
  | inr res => res
  | inl e => match e with end
  end.

Lemma reservation_accounted_witness :
  outcome demo_result (rev demo_trace) /\ omap consumed_id demo_trace = ["rsv_1"%string].
Proof.
  split; [|vm_compute; reflexivity].
  refine (reservation_accounted demo_deps example_intent demo_options _ _ _).
  exact demo_trace_run.
Defined.

(** An environment whose wallet shows the output balance [after] once the trade
    is sent, and [before] until then. *)
Definition filling {R} (before after : Z) (e : geff R) (s : KernelStore) : R * KernelStore :=
  demo {| env_policy := example_policy; env_simulate := inr true;
          env_balances := [(WSOL_MINT, 2000000000);
            (USDC_MINT, match pendingSent s with [] => before | _ => after end)];
          env_confirm := inr C_confirmed; env_post_fails := false;
          env_trade_id := "trd_1"; env_reservation_id := "rsv_1" |} e s.

Definition filled_run : (Empty_set + ExecuteResult) * KernelStore :=
  run (fun R => @filling R 0 100000000) (execute demo_deps example_intent demo_options) empty_store.

Definition filled_result : ExecuteResult :=
  match filled_run.1 with inr res => res | inl e => match e with end end.

Lemma clean_fill_verified_witness :
  exists f, res_fill filled_result = Some f /\ outputDelta f = 100000000.
Proof.
  destruct (clean_fill_verified demo_deps example_intent demo_options
    (run_trace (fun R => @filling R 0 100000000) (execute demo_deps example_intent demo_options) empty_store)
    filled_result) as (f & Hf & _).
  - exact (run_traces _ _ _).
  - vm_compute. reflexivity.
  - vm_compute. reflexivity.
  - exists f. split; [exact Hf|]. vm_compute in Hf. injection Hf as <-. reflexivity.
Defined.

Definition dry_options : ExecuteOptions :=
  {| idempotencyKey := "idem_1"; dryRun := true; confirmedByUser := false |}.

Definition dry_trace : list (event geff) :=
  run_trace (@demo demo_env) (execute demo_deps example_intent dry_options) empty_store.

Lemma demo_execs ok v {X A} (p : prog geff X A) s :
  ok (env_policy v) -> execs (@gexec ok) (run_trace (@demo v) p s) s (run (@demo v) p s).2.
Proof.
  intros Hok. revert s. induction p as [a|x|R e k IH]; intros s; simpl; [done..|].
  pose proof (demo_gexec ok v R e s Hok) as He. destruct (demo v e s) as [r s'].
  eexists. split; [exact He|apply IH].
Qed.

Lemma inert_runs_witness :
  (run (@demo demo_env) (execute demo_deps example_intent dry_options) empty_store).2 = empty_store.
Proof.
  refine (proj1 (inert_runs (fun p => p = example_policy) demo_deps example_intent dry_options
    dry_trace _ empty_store _ (run_traces _ _ _) (or_introl eq_refl) _)).
  apply demo_execs. reflexivity.
Defined.

(** *** What happens when the wallet cannot be read after confirmation

    The `catch` block cannot tell an error before the broadcast from one after
    the confirmation: a failed balance read in step 9 releases the reservation
    of a transaction the chain confirmed and records the trade as `errored`. *)
Definition post_fails_env : DemoEnv :=
  {| env_policy := example_policy; env_simulate := inr true;
     env_balances := [(WSOL_MINT, 2000000000); (USDC_MINT, 0)];
     env_confirm := inr C_confirmed; env_post_fails := true;
     env_trade_id := "trd_1"; env_reservation_id := "rsv_1" |}.

Lemma confirmed_spend_released :
  let p := execute demo_deps example_intent demo_options in
  let s := (run (@demo post_fails_env) p empty_store).2 in
  omap confirm_status (run_trace (@demo post_fails_env) p empty_store) = [C_confirmed] /\
  map sp_state (spends s) = [S_released] /\ map tr_state (trades s) = [errored] /\
  usage sol 1000000 s = {| hour := 0; day := 0 |}.
Proof. vm_compute. done. Qed.
