(* ===== verification/GatewayPool.v ===== *)
(** Concurrent runs of the money path.

    Two guarantees of `src/kernel/trade-gateway.ts` and `src/kernel/store.ts`
    that hold for every interleaving of the runs `execute` starts: one signature
    per idempotency key, and the lifecycle of a trade row. *)
From S2P Require Import Prelude Table Prog Once Money Contracts PolicyEngine KernelStore TradeGateway KernelCaps GatewaySafety.
#[local] Open Scope Z_scope.
#[local] Open Scope prog_scope.

(** *** One signature per idempotency key *)

Definition request : Type := (TradeIntent * ExecuteOptions)%type.

Definition runs (d : TradeGatewayDeps) (requests : list request) (n : nat)
    (p : prog geff Empty_set ExecuteResult) : Prop :=
  exists q : request, requests !! n = Some q /\ p = execute d (fst q) (snd q).

Definition key_of (requests : list request) (n : nat) : option string :=
  (fun q : request => idempotencyKey (snd q)) <$> requests !! n.

(** The effects that claim a key, and the fenced action. *)
Definition claims_key R (e : geff R) : option string :=
  match e with ClaimIdempotency k _ _ => Some k | _ => None end.

Definition claim_granted R (e : geff R) : R -> bool :=
  match e in geff R return R -> bool with ClaimIdempotency _ _ _ => fun r => r | _ => fun _ => false end.

Definition signs R (e : geff R) : bool := match e with Sign _ => true | _ => false end.

Definition key_taken (s : KernelStore) (k : string) : Prop := has id_key k (idempotency s) = true.

(** The keys of the runs that signed, one entry per signature. *)
Definition signed_keys (requests : list request) (log : list (nat * event geff)) : list string :=
  acted (key_of requests) signs log.

Lemma runs_follow d requests n p :
  runs d requests n p ->
  exists g, fence_start (key_of requests) n g /\
            follows (fence_pre claims_key signs) (fun _ _ _ => True)
              (fence_upd claims_key claim_granted signs) p g.
Proof.
  intros ([i o] & Hn & ->). eexists. split.
  - exists (idempotencyKey o). unfold key_of. by rewrite Hn.
  - unfold fence_pre, fence_upd. unfold execute. destruct (dryRun o); prog_walk; done || by simplify_eq/=.
Qed.

Lemma gexec_idempotency ok R (e : geff R) s r s' :
  gexec ok e s r s' -> is_claim (Event e r) = false -> idempotency s' = idempotency s.
Proof.
  destruct e; simpl; intros He Hc; try done; destruct_and?; try (by subst s').
  - unfold claimIdempotency in He. case_match; by simplify_eq/=.
  - destruct He as [rid He]. unfold reserve, transaction in He.
    repeat case_match; by simplify_eq/=.
  - unfold insertTrade in He. by repeat case_match; simplify_eq/=.
Qed.

Lemma claim_true k t n s s' :
  (true, s') = claimIdempotency k t n s ->
  ~ key_taken s k /\ key_taken s' k /\ (forall x, key_taken s x -> key_taken s' x).
Proof.
  unfold claimIdempotency, key_taken. destruct (insert id_key _ _) as [tb|] eqn:E; intros; simplify_eq/=.
  pose proof E as [Hg _]%insert_Some. simpl in Hg. split_and!.
  - unfold has. by rewrite Hg.
  - apply has_spec. eexists. exact (insert_get_eq _ _ _ _ E).
  - intros x Hx. apply has_spec in Hx as [r Hr]. apply has_spec. exists r.
    erewrite insert_get_ne; [done|exact E|]. simpl. intros ->. congruence.
Qed.

Lemma claim_frees_key ok (i : nat) R (e : geff R) s r s' k :
  gexec ok e s r s' -> claims_key _ e = Some k -> claim_granted _ e r = true ->
  ~ key_taken s k /\ key_taken s' k.
Proof.
  destruct e; simpl; intros He Hc Hg; try done. simplify_eq.
  by destruct (claim_true _ _ _ _ _ He) as (? & ? & _).
Qed.

Lemma key_stays ok (i : nat) R (e : geff R) s r s' k :
  gexec ok e s r s' -> key_taken s k -> key_taken s' k.
Proof.
  intros He. destruct (is_claim (Event e r)) eqn:Ec.
  - destruct e; try done. simpl in He, Ec. subst r. by apply (claim_true _ _ _ _ _ He).
  - unfold key_taken. by rewrite (gexec_idempotency _ _ _ _ _ _ He Ec).
Qed.

(** C3: whatever the interleaving of any number of runs, over whatever store
    they find, no idempotency key is signed for twice, and a key the store had
    already recorded when the process started is not signed for at all. *)
Theorem signs_once_per_key ok d requests s0 s log ts
    (Hreach : pool_reachable (logged (fun _ => @gexec ok)) (runs d requests) (s0, []) ((s, log), ts)) :
  NoDup (signed_keys requests log) /\
  (forall k, k ∈ signed_keys requests log -> has id_key k (idempotency s0) = false).
Proof.
  destruct (acts_once _ _ _ claims_key claim_granted signs key_taken (runs_follow d requests)
    (claim_frees_key ok)
    (key_stays ok) (fun R e => ltac:(by destruct e)) s0 s log ts Hreach) as [Hn Hk].
  split; [done|]. intros k Hin. apply not_true_is_false. by apply Hk.
Qed.

(** The same request twice: the second run signs nothing. *)
Definition demo_requests : list request :=
  [(example_intent, demo_options); (example_intent, demo_options)].

Definition demo_programs : list (prog geff Empty_set ExecuteResult) :=
  map (fun q => execute demo_deps (fst q) (snd q)) demo_requests.

Definition demo_pool : KernelStore * list (nat * event geff) :=
  run_seq (logging (fun _ => @demo demo_env)) 0 demo_programs (empty_store, []).

Lemma demo_pool_reachable :
  exists ts, pool_reachable (logged (fun _ => @gexec (fun p => p = example_policy)))
    (runs demo_deps demo_requests) (empty_store, []) (demo_pool, ts).
Proof.
  apply (run_pool_seq _ _ (logging (fun _ => @demo demo_env))) with (ts := []).
  - apply logging_logged. intros _ R e s. by apply demo_gexec.
  - apply rtc_refl.
  - intros [|[|k]] p Hp; simpl in Hp; simplify_eq; by eexists.
Qed.

Lemma signs_once_per_key_witness :
  signed_keys demo_requests demo_pool.2 = ["idem_1"%string] /\
  NoDup (signed_keys demo_requests demo_pool.2).
Proof.
  split; [vm_compute; reflexivity|]. destruct demo_pool_reachable as [ts Hts].
  destruct demo_pool as [s log].
  exact (proj1 (signs_once_per_key _ _ _ _ _ _ _ Hts)).
Defined.

(** *** The lifecycle of a trade row *)

(** The moves `contracts.ts` documents, as the gateway makes them. *)
Inductive lifecycle : TradeState -> TradeState -> Prop :=
  | lc_stay st : lifecycle st st
  | lc_sent : lifecycle reserved sent
  | lc_guard : lifecycle reserved errored
  | lc_settle st : st = confirmed \/ st = expired \/ st = errored -> lifecycle sent st.

(** What a trade row never changes: every column an insert names. *)
Definition frozen (r r' : TradeRow) : Prop :=
  tr_id r' = tr_id r /\ tr_idempotency_key r' = tr_idempotency_key r /\ tr_intent r' = tr_intent r /\
  tr_input_mint r' = tr_input_mint r /\ tr_output_mint r' = tr_output_mint r /\
  tr_input_amount r' = tr_input_amount r /\ tr_last_valid_block_height r' = tr_last_valid_block_height r /\
  tr_reservation_id r' = tr_reservation_id r /\ tr_created_at r' = tr_created_at r.

(** A step of a row: what was signed stays as it was once the row was sent, and a row at
    its end is not written to. *)
Record row_move (r r' : TradeRow) : Prop := {
  rm_state : lifecycle (tr_state r) (tr_state r');
  rm_frozen : frozen r r';
  rm_signed : tr_state r <> reserved -> tr_signature r' = tr_signature r /\ tr_signed_wire r' = tr_signed_wire r;
  rm_end : tr_state r <> reserved -> tr_state r <> sent -> r' = r
}.

Definition evolves (s s' : KernelStore) : Prop :=
  (forall id r, getTrade id s = Some r -> exists r', getTrade id s' = Some r' /\ row_move r r') /\
  (forall id r', getTrade id s = None -> getTrade id s' = Some r' ->
     tr_state r' = reserved /\ tr_signature r' = None /\ tr_signed_wire r' = None /\ tr_error r' = None).

(** The row carries what was signed. *)
Definition has_signed (r : TradeRow) : Prop := tr_signature r <> None /\ tr_signed_wire r <> None.

(** A row past `reserved`, unless it failed, carries the signature and the signed bytes. *)
Definition signed_row (r : TradeRow) : Prop :=
  tr_state r = sent \/ tr_state r = confirmed \/ tr_state r = expired -> has_signed r.

Lemma row_move_refl r : row_move r r.
Proof. split; try done. constructor. Qed.

(** The row a run owns: its id, its state, and whether a signature is stored. *)
Inductive Row : Type := no_row | row (id : string) (st : TradeState) (sig : bool).

Definition row_pre R (e : geff R) (g : Row) : Prop :=
  match e with
  | InsertTrade _ _ => g = no_row
  | PersistSigned id _ _ _ => g = row id reserved false
  | SetSignature id _ _ => g = row id reserved true
  | SetState id st _ => (st = sent /\ g = row id reserved true) \/ (st = confirmed /\ g = row id sent true)
  | Fail id st _ _ => (st = errored /\ exists p, g = row id reserved p) \/
                      ((st = errored \/ st = expired) /\ g = row id sent true)
  | _ => True
  end.

Definition row_upd R (e : geff R) : R -> Row -> Row :=
  match e in geff R return R -> Row -> Row with
  | InsertTrade r _ => fun a g => match a with inr _ => row (nt_id r) reserved false | inl _ => g end
  | PersistSigned id _ _ _ => fun _ _ => row id reserved true
  | SetState id st _ => fun _ _ => row id st true
  | Fail id st _ _ => fun _ g => match g with row _ _ p => row id st p | no_row => g end
  | _ => fun _ g => g
  end.

Lemma execute_rows d n p :
  KernelCaps.startable d n p ->
  exists g, g = no_row /\ follows row_pre (fun _ _ _ => True) row_upd p g.
Proof.
  intros (i & o & ->). exists no_row. split; [done|].
  unfold execute. destruct (dryRun o); prog_walk; subst; try done; eauto 6.
Qed.

Record row_inv (s : KernelStore) (gs : list Row) : Prop := {
  ri_keyed : keyed tr_id (trades s);
  ri_signed : forall r, r ∈ trades s -> signed_row r;
  ri_row : forall i id st p, gs !! i = Some (row id st p) ->
    exists r, getTrade id s = Some r /\ tr_state r = st /\ (p = true -> has_signed r);
  ri_unique : forall i j id st st' p p', gs !! i = Some (row id st p) ->
    gs !! j = Some (row id st' p') -> i = j
}.

Lemma evolves_same s s' : trades s' = trades s -> evolves s s'.
Proof.
  intros E. unfold evolves, getTrade. rewrite E. split; [|congruence]. intros id r Hr. exists r. eauto using row_move_refl.
Qed.

Lemma row_inv_same s s' gs : trades s' = trades s -> row_inv s gs -> row_inv s' gs.
Proof. intros E [Hk Hs Hr Hu]. split; unfold getTrade in *; rewrite ?E; done. Qed.

Lemma row_inv_start s gs g : row_inv s gs -> g = no_row -> row_inv s (gs ++ [g]).
Proof.
  intros [Hk Hs Hr Hu] ->.
  assert (forall i id st p, (gs ++ [no_row]) !! i = Some (row id st p) -> gs !! i = Some (row id st p))
    as Hold.
  { intros i id st p [H|[_ H]]%lookup_app_Some; [done|].
    by apply list_lookup_singleton_Some in H as [_ ?]. }
  split; [done|done| |].
  - intros i id st p H%Hold. by eapply Hr.
  - intros i j id st st' p p' H1%Hold H2%Hold. by eapply Hu.
Qed.

(** An update by the run that owns the row. *)
Lemma row_update s gs i id st p st' p' f :
  row_inv s gs -> gs !! i = Some (row id st p) ->
  lifecycle st st' -> (st' = sent \/ st' = confirmed \/ st' = expired -> p' = true) ->
  (forall r, frozen r (f r)) -> st = reserved \/ st = sent ->
  (st = sent -> forall r, tr_signature (f r) = tr_signature r /\ tr_signed_wire (f r) = tr_signed_wire r) ->
  (forall r, tr_state r = st -> (p = true -> has_signed r) -> tr_state (f r) = st' /\ (p' = true -> has_signed (f r))) ->
  row_inv (update_trade id f s) (<[i := row id st' p']> gs) /\ evolves s (update_trade id f s).
Proof.
  intros [Hk Hs Hr Hu] Hi Hlc Hsig Hfr Hopen Hsame Hf.
  destruct (Hr _ _ _ _ Hi) as (r0 & Hr0 & Hst0 & Hp0).
  assert (forall r, tr_id (f r) = tr_id r) as Hid by (intros r; apply (Hfr r)).
  assert (forall x, getTrade x (update_trade id f s) =
            (fun r => if streq (tr_id r) id then f r else r) <$> getTrade x s) as Hget
    by (intros x; apply update_get, Hid).
  assert (forall x r, getTrade x s = Some r -> streq (tr_id r) id = true -> x = id /\ r = r0) as Hown.
  { intros x r Hx E. bool_hyps. pose proof Hx as [_ Hxid]%get_Some.
    assert (x = id) as -> by congruence. unfold getTrade in *. by simplify_eq. }
  split; [split|].
  - by apply update_keyed.
  - intros r (x & Hx & ->)%update_elem. destruct (streq (tr_id x) id) eqn:E; [|by apply Hs].
    pose proof (keyed_get tr_id _ _ Hk Hx) as Hgx. destruct (Hown _ _ Hgx E) as [_ ->].
    destruct (Hf r0 Hst0 Hp0) as [Hst Hps]. unfold signed_row. rewrite Hst. tauto.
  - intros j id' stj pj Hj. rewrite Hget.
    destruct (insert_lookup_cases _ _ _ _ _ Hj) as [[-> [= -> -> ->]]|[Hne Hgj]].
    + rewrite Hr0. cbn. pose proof Hr0 as [_ ->]%get_Some. rewrite streq_refl. eauto.
    + destruct (Hr _ _ _ _ Hgj) as (r & Hrj & ?). rewrite Hrj. cbn.
      destruct (streq (tr_id r) id) eqn:E; [|by eauto].
      destruct (Hown _ _ Hrj E) as [-> _]. by destruct Hne; eapply Hu.
  - intros j1 j2 x s1 s2 p1 p2 H1 H2.
    destruct (insert_lookup_cases _ _ _ _ _ H1) as [[-> E1]|[? H1']],
      (insert_lookup_cases _ _ _ _ _ H2) as [[-> E2]|[? H2']];
      [done|injection E1 as -> -> ->|injection E2 as -> -> ->|]; by eapply Hu.
  - split; [|intros x r Hx; rewrite Hget, Hx; done]. intros x r Hx. rewrite Hget, Hx. cbn. eexists. split; [done|].
    destruct (streq (tr_id r) id) eqn:E; [|apply row_move_refl].
    destruct (Hown _ _ Hx E) as [-> ->]. destruct (Hf r0 Hst0 Hp0) as [Hst _].
    split; rewrite ?Hst, ?Hst0; [done|apply Hfr| |]; intros Hne; [by apply Hsame; destruct Hopen|by destruct Hopen].
Qed.

Definition touches_trades {R} (e : geff R) : bool :=
  match e with
  | InsertTrade _ _ | PersistSigned _ _ _ _ | SetState _ _ _ | SetSignature _ _ _ | Fail _ _ _ _ => true
  | _ => false
  end.

Lemma gexec_trades ok R (e : geff R) s r s' :
  gexec ok e s r s' -> touches_trades e = false -> trades s' = trades s.
Proof.
  destruct e; simpl; intros He Ht; try done; destruct_and?; try (by subst s').
  - unfold claimIdempotency in He. by case_match; simplify_eq/=.
  - destruct He as [rid He]. unfold reserve, transaction in He.
    by repeat case_match; simplify_eq/=.
Qed.

Lemma insertTrade_ok n rid s s' :
  insertTrade n rid s = (inr tt, s') ->
  getTrade (nt_id n) s = None /\
  exists r, tr_id r = nt_id n /\ tr_state r = reserved /\ tr_signature r = None /\ tr_signed_wire r = None /\
    tr_error r = None /\ trades s' = trades s ++ [r].
Proof.
  unfold insertTrade. destruct (has _ _ _); [done|]. destruct (insert _ _ _) eqn:E; [|done].
  intros [= <-]. apply insert_Some in E as [Hg ->]. split; [done|]. eexists. by split_and!; [..|reflexivity].
Qed.

Lemma insertTrade_failed n rid s s' e : insertTrade n rid s = (inl e, s') -> s' = s.
Proof. unfold insertTrade. repeat case_match; intros; by simplify_eq. Qed.

(** The insert: the id was free, so no run owns it. *)
Lemma row_insert s s' gs i n rid :
  row_inv s gs -> gs !! i = Some no_row -> insertTrade n rid s = (inr tt, s') ->
  row_inv s' (<[i := row (nt_id n) reserved false]> gs) /\ evolves s s'.
Proof.
  intros [Hk Hs Hr Hu] Hi (Hfree & r0 & Hid & Hst & Hsg & Hw & He & Htr)%insertTrade_ok.
  assert (forall x r, getTrade x s = Some r -> getTrade x s' = Some r) as Hkeep
    by (intros x r Hx; unfold getTrade in *; by rewrite Htr, get_app, Hx).
  assert (getTrade (nt_id n) s' = Some r0) as Hnew
    by (unfold getTrade in *; by rewrite Htr, get_app, Hfree, get_cons, decide_True).
  assert (forall j id st p, gs !! j = Some (row id st p) -> id <> nt_id n) as Hne.
  { intros j id st p Hj ->. destruct (Hr _ _ _ _ Hj) as (r & Hrj & _). congruence. }
  split; [split|].
  - rewrite Htr. apply (insert_keyed tr_id r0 (trades s)); [|done].
    apply insert_Some. by rewrite Hid.
  - rewrite Htr. intros r [Hin|Hin]%elem_of_app; [by apply Hs|].
    apply list_elem_of_singleton in Hin as ->. unfold signed_row. rewrite Hst. by intros [|[|]].
  - intros j id st p Hj. destruct (insert_lookup_cases _ _ _ _ _ Hj) as [[-> [= -> -> ->]]|[? Hgj]].
    + exists r0. by rewrite Hnew.
    + destruct (Hr _ _ _ _ Hgj) as (r & ? & ?). eauto.
  - intros j1 j2 x s1 s2 p1 p2 H1 H2.
    destruct (insert_lookup_cases _ _ _ _ _ H1) as [[-> E1]|[? H1']],
      (insert_lookup_cases _ _ _ _ _ H2) as [[-> E2]|[? H2']]; [done| | |by eapply Hu].
    + injection E1 as -> -> ->. by destruct (Hne _ _ _ _ H2').
    + injection E2 as -> -> ->. by destruct (Hne _ _ _ _ H1').
  - split; [intros x r Hx; exists r; eauto using row_move_refl|]. intros x r' Hx Hx'. unfold getTrade in Hx, Hx'.
    rewrite Htr, get_app, Hx, get_cons in Hx'. case_decide; [by simplify_eq|done].
Qed.

Ltac row_done :=
  first [ done | by left | by right | by repeat split | by split; auto | constructor; by auto | by intros [|[|]]
        | intros ? ? Hp; split; [done|intros _; split; [done|by apply Hp]] ].

Lemma row_step ok R (e : geff R) s r s' gs i g :
  row_inv s gs -> gs !! i = Some g -> row_pre _ e g -> gexec ok e s r s' ->
  row_inv s' (<[i := row_upd _ e r g]> gs) /\ evolves s s'.
Proof.
  intros HI Hi Hpre He. destruct (touches_trades e) eqn:Ht.
  - destruct e; try done; simpl in Hpre, He |- *.
    + subst g. destruct r as [e|[]]; [|by eapply row_insert].
      apply insertTrade_failed in He as ->. rewrite list_insert_id by done.
      by split; [|apply evolves_same].
    + subst g s'. eapply row_update; row_done.
    + subst s'. destruct Hpre as [[-> ->]|[-> ->]]; eapply row_update; row_done.
    + subst g s'. eapply row_update; row_done.
    + subst s'. destruct Hpre as [[-> [p ->]]|[[-> | ->] ->]]; eapply row_update; row_done.
  - pose proof (gexec_trades _ _ _ _ _ _ He Ht) as E.
    assert (row_upd _ e r g = g) as -> by by destruct e.
    rewrite list_insert_id by done. by split; [eapply row_inv_same|apply evolves_same].
Qed.

(** C5: along every interleaving of runs of the gateway, each step moves every trade row only
    from reserved to sent or errored and from sent to confirmed, expired or errored, never
    changes a column the row was inserted with (the intent, mints, amount, last valid block
    height and reservation among them), keeps signature and signed bytes from sent on, and
    leaves a row at its end as it is; a row that appears is reserved and unsigned; a row
    that was sent carries its signature and its signed bytes.  The state `rejected`, which
    the comment names for a refused row, is never stored: that row becomes errored. *)
Theorem trade_lifecycle ok d s0 s ts s' ts'
    (Hkeyed : keyed tr_id (trades s0)) (Hsigned : forall r, r ∈ trades s0 -> signed_row r)
    (Hreach : pool_reachable (fun _ => @gexec ok) (KernelCaps.startable d) s0 (s, ts))
    (Hstep : pool_step (fun _ => @gexec ok) (KernelCaps.startable d) (s, ts) (s', ts')) :
  evolves s s' /\ (forall r, r ∈ trades s -> signed_row r).
Proof.
  assert (row_inv s0 []) as H0 by by split.
  destruct (pool_invariant _ _ _ _ _ _ _ (fun _ _ _ _ _ _ _ => I) (execute_rows d)
              row_inv_start (fun i R e s r s' gs g H1 H2 H3 H4 =>
                proj1 (row_step ok R e s r s' gs i g H1 H2 H3 H4)) _ _ H0 Hreach)
    as (gs & HI & Hfs). simpl in HI, Hfs.
  split; [|apply HI]. inversion Hstep; subst; [|by apply evolves_same].
  match goal with H : _ !! _ = Some (Vis _ _) |- _ =>
    destruct (Forall2_lookup_l _ _ _ _ _ Hfs H) as (g & Hg & Hpre & _) end.
  by eapply row_step.
Qed.

Lemma trade_lifecycle_witness :
  map tr_state (trades KernelCaps.demo_final) = [confirmed] /\
  forall r, r ∈ trades KernelCaps.demo_final -> signed_row r.
Proof.
  split; [vm_compute; reflexivity|].
  refine (proj2 (trade_lifecycle (fun p => p = example_policy) demo_deps empty_store _ _ _ _ _ _
    (run_pool_one (fun _ => @gexec _) (KernelCaps.startable demo_deps) (fun _ => @demo demo_env) _
       (execute demo_deps example_intent demo_options) empty_store _)
    (pool_start _ _ _ _ (execute demo_deps example_intent demo_options) _))).
  - constructor.
  - intros r Hr. by apply elem_of_nil in Hr.
  - intros i R e s. by apply demo_gexec.
  - by exists example_intent, demo_options.
  - by exists example_intent, demo_options.
Defined.
