(* ===== verification/Reconciler.v ===== *)
(** `src/kernel/reconciler.ts`: crash recovery at boot.

    [recover] re-checks the trades left in `sent` against the chain, once each.
    It runs alone, before the gateway accepts intents, so its theorem is about
    one run over the store it finds. *)
From S2P Require Import Prelude Table Prog Money Contracts PolicyEngine KernelStore TradeGateway KernelCaps GatewaySafety GatewayPool.
#[local] Open Scope Z_scope.
#[local] Open Scope prog_scope.

Record ReconcileSummary : Type := {
  sum_checked : nat; sum_confirmed : nat; sum_failed : nat
}.

Definition release_row (trade : TradeRow) : prog geff exn unit :=
  match truthy (tr_reservation_id trade) with Some r => ask (ReleaseReservation r) | None => Ret tt end.

Definition consume_row (trade : TradeRow) : prog geff exn unit :=
  match truthy (tr_reservation_id trade) with Some r => ask (ConsumeReservation r) | None => Ret tt end.

(** One turn of the loop; true when the trade was confirmed. *)
Definition recover_one (trade : TradeRow) : prog geff exn bool :=
  match truthy (tr_signature trade) with
  | None =>
      release_row trade ;;
      let* at_ := ask ClockNow in
      ask (Fail (tr_id trade) errored RECONCILE_NO_SIGNATURE at_) ;;
      Ret false
  | Some sig =>
      let* status := call (Confirm sig (tr_last_valid_block_height trade)) in
      match status with
      | C_confirmed =>
          consume_row trade ;;
          let* at_ := ask ClockNow in
          ask (SetState (tr_id trade) confirmed at_) ;;
          Ret true
      | _ =>
          release_row trade ;;
          let* at_ := ask ClockNow in
          ask (Fail (tr_id trade) (match status with C_expired => expired | _ => errored end)
                 (RECONCILE status) at_) ;;
          Ret false
      end
  end.

Fixpoint recover_all (pending : list TradeRow) (confirmed failed : nat) : prog geff exn (nat * nat) :=
  match pending with
  | [] => Ret (confirmed, failed)
  | trade :: rest =>
      let* ok := recover_one trade in
      if ok then recover_all rest (S confirmed) failed else recover_all rest confirmed (S failed)
  end.

Definition recover : prog geff exn ReconcileSummary :=
  let* pending := ask PendingSent in
  let* cf := recover_all pending 0 0 in
  Ret {| sum_checked := length pending; sum_confirmed := fst cf; sum_failed := snd cf |}.

(** *** What recovery does to the store *)

(** What the chain says of a signature, when asked. *)
Definition chain : Type := string -> Z -> exn + ConfirmStatus.

(** The state a pending trade ends in. *)
Definition verdict (c : chain) (trade : TradeRow) : option TradeState :=
  match truthy (tr_signature trade) with
  | None => Some errored
  | Some sig =>
      match c sig (tr_last_valid_block_height trade) with
      | inl _ => None
      | inr C_confirmed => Some confirmed
      | inr C_expired => Some expired
      | inr C_failed => Some errored
      end
  end.

(** The environment with the chain's answers fixed. *)
Definition cexec (c : chain) R (e : geff R) (s : KernelStore) (r : R) (s' : KernelStore) : Prop :=
  gexec (fun _ => True) e s r s' /\
  match e in geff R return R -> Prop with
  | Confirm sig h => fun r => r = c sig h
  | _ => fun _ => True
  end r.

(** What becomes of one row when the trades of [pending] are re-checked. *)
Definition rechecked (c : chain) (pending : list TradeRow) (r r' : TradeRow) : Prop :=
  frozen r r' /\
  (forall t, t ∈ pending -> tr_id t = tr_id r -> Some (tr_state r') = verdict c t) /\
  ((forall t, t ∈ pending -> tr_id t <> tr_id r) -> r' = r).

Lemma frozen_trans r1 r2 r3 : frozen r1 r2 -> frozen r2 r3 -> frozen r1 r3.
Proof. unfold frozen. intuition congruence. Qed.

Lemma Forall2_update p f (P : TradeRow -> TradeRow -> Prop) l :
  (forall r, p r = true -> P r (f r)) -> (forall r, p r = false -> P r r) ->
  Forall2 P l (update_where p f l).
Proof.
  intros H1 H2. induction l as [|r l IH]; [constructor|]. simpl. constructor; [|done].
  destruct (p r) eqn:E; [by apply H1|by apply H2].
Qed.

Definition with_reservation (f : string -> KernelStore -> KernelStore) (t : TradeRow) (s : KernelStore) :
    KernelStore :=
  match truthy (tr_reservation_id t) with Some r => f r s | None => s end.

(** The store after one turn: the reservation consumed and the row confirmed, or
    the reservation released and the row failed, as the chain's verdict says. *)
Definition turned (c : chain) (t : TradeRow) (r : exn + bool) (s s' : KernelStore) : Prop :=
  match r with
  | inr true =>
      verdict c t = Some confirmed /\
      exists now, s' = setState (tr_id t) confirmed now (with_reservation consumeReservation t s)
  | inr false =>
      exists st code now, verdict c t = Some st /\ (st = expired \/ st = errored) /\
        s' = fail (tr_id t) st code now (with_reservation releaseReservation t s)
  | inl _ => verdict c t = None /\ s' = s
  end.

Lemma recover_one_turned c t s : wp (cexec c) (recover_one t) (fun r s' => turned c t r s s') s.
Proof.
  unfold recover_one, turned, release_row, consume_row, with_reservation, verdict.
  destruct (truthy (tr_signature t)) as [sig|]; simpl.
  - intros r s' [-> ->]. destruct (c sig _) as [e|[| |]]; simpl; [done| | |];
      destruct (truthy (tr_reservation_id t)); simpl; intros; unfold cexec in *; simpl in *;
      destruct_and?; subst; simpl; eauto 10.
  - destruct (truthy (tr_reservation_id t)); simpl; intros; unfold cexec in *; simpl in *;
      destruct_and?; subst; simpl; eauto 10.
Qed.

Lemma turned_rows c t ok s s' :
  turned c t (inr ok) s s' -> Forall2 (rechecked c [t]) (trades s) (trades s').
Proof.
  intros Ht.
  assert (exists f, trades s' = update_where (fun r => streq (tr_id r) (tr_id t)) f (trades s) /\
            forall r, frozen r (f r) /\ Some (tr_state (f r)) = verdict c t) as (f & -> & Hf).
  { unfold turned, with_reservation in Ht.
    destruct ok; [destruct Ht as (Hv & now & ->)|destruct Ht as (st & code & now & Hv & _ & ->)];
      destruct (truthy (tr_reservation_id t)); eexists; (split; [reflexivity|]);
      rewrite Hv; by repeat split. }
  apply Forall2_update; intros r Hr; bool_hyps; destruct (Hf r) as [H1 H2]; split_and!; try done.
  - by intros x ->%list_elem_of_singleton.
  - intros Hne. by destruct (Hne t (list_elem_of_here _ _)).
  - intros x ->%list_elem_of_singleton E. by destruct Hr.
Qed.

Lemma rechecked_cons c t rest r1 r2 r3 :
  (forall x, x ∈ rest -> tr_id x <> tr_id t) ->
  rechecked c [t] r1 r2 -> rechecked c rest r2 r3 -> rechecked c (t :: rest) r1 r3.
Proof.
  intros Hne (F1 & V1 & U1) (F2 & V2 & U2).
  assert (tr_id r2 = tr_id r1) as Hid by apply F1. split_and!; [by eapply frozen_trans| |].
  - intros x [->|Hx]%elem_of_cons E.
    + rewrite <- (V1 t) by (done || apply list_elem_of_here). rewrite U2; [done|].
      intros y Hy. rewrite Hid, <- E. by apply Hne.
    + apply V2; [done|congruence].
  - intros Hall. rewrite U2, U1; [done| |].
    + intros y ->%list_elem_of_singleton. apply Hall, list_elem_of_here.
    + intros y Hy. rewrite Hid. apply Hall. by apply list_elem_of_further.
Qed.

Lemma recover_all_rows c pending n m s :
  NoDup (map tr_id pending) ->
  wp (cexec c) (recover_all pending n m)
    (fun r s' => match r with
                 | inr (n', m') => (n' + m' = n + m + length pending)%nat /\
                                   Forall2 (rechecked c pending) (trades s) (trades s')
                 | inl _ => exists t, t ∈ pending /\ verdict c t = None
                 end) s.
Proof.
  revert n m s. induction pending as [|t rest IH]; intros n m s Hnd; simpl.
  - split; [lia|]. apply Forall2_same_length_lookup_2; [done|]. intros i r1 r2 H1 H2. simplify_eq.
    split_and!; [by repeat split|by intros t Ht%elem_of_nil|done].
  - apply NoDup_cons in Hnd as [Hnin Hnd].
    apply wp_bind. eapply wp_mono; [apply recover_one_turned|].
    intros [e|ok] s1 Ht; simpl.
    { exists t. split; [apply list_elem_of_here|by apply Ht]. }
    assert (forall n m, wp (cexec c) (recover_all rest n m)
      (fun r s' => match r with
                 | inr (n', m') => (n' + m' = n + m + length rest)%nat /\
                                   Forall2 (rechecked c (t :: rest)) (trades s) (trades s')
                 | inl _ => exists x, x ∈ t :: rest /\ verdict c x = None
                 end) s1) as Hrest.
    { intros n' m'. eapply wp_mono; [by apply IH|]. intros [e|[a b]] s'.
      - intros (x & Hx & ?). exists x. split; [by apply list_elem_of_further|done].
      - intros [? H2]. split; [done|]. apply turned_rows in Ht.
        eapply Forall2_trans; [|exact Ht|exact H2]. intros r1 r2 r3.
        apply rechecked_cons. intros x Hx E. apply Hnin. rewrite <- E. by apply list_elem_of_fmap_2. }
    destruct ok; (eapply wp_mono; [apply Hrest|]); intros [e|[a b]] s'; try done;
      intros [? ?]; (split; [lia|done]).
Qed.

(** The row of a trade before and after recovery. *)
Definition recovered (c : chain) (r r' : TradeRow) : Prop :=
  frozen r r' /\
  if bool_decide (tr_state r = sent)
  then Some (tr_state r') = verdict c r /\ terminal (tr_state r') = true
  else r' = r.

Lemma verdict_terminal c t st : verdict c t = Some st -> terminal st = true.
Proof. unfold verdict. intros H. repeat case_match; by simplify_eq. Qed.

Lemma rechecked_recovered c s r r' :
  keyed tr_id (trades s) -> r ∈ trades s ->
  rechecked c (pendingSent s) r r' -> recovered c r r'.
Proof.
  intros Hk Hr (Hf & Hv & Hu). split; [done|]. case_bool_decide as Hst.
  - assert (r ∈ pendingSent s) as Hp by (apply select_elem; by rewrite Hst).
    pose proof (Hv r Hp eq_refl) as E. split; [done|]. by eapply verdict_terminal.
  - apply Hu. intros t [Ht Hts]%select_elem E. bool_hyps.
    by rewrite (keyed_same tr_id _ _ _ Hk Ht Hr E) in Hts.
Qed.

(** C6: recovery over any store with unique trade ids either stops at a trade
    whose confirmation could not be read, or re-checks every trade left in
    `sent`: each takes the state the chain's answer dictates, a terminal one,
    every other row is untouched, the counters add up, and no trade is left in
    `sent`, so a second recovery has nothing to do. *)
Theorem recover_settles c s (Hkeyed : keyed tr_id (trades s)) :
  wp (cexec c) recover
    (fun r s' => match r with
                 | inr sum =>
                     sum_checked sum = length (pendingSent s) /\
                     (sum_confirmed sum + sum_failed sum = sum_checked sum)%nat /\
                     Forall2 (recovered c) (trades s) (trades s') /\
                     pendingSent s' = []
                 | inl _ => exists t, t ∈ pendingSent s /\ verdict c t = None
                 end) s.
Proof.
  simpl. intros r s1 [[-> ->] _]. apply wp_bind.
  eapply wp_mono; [by apply recover_all_rows, select_keyed|].
  intros [e|[n m]] s2; [done|]. intros [Hn Hrows]. simpl.
  assert (Forall2 (recovered c) (trades s) (trades s2)) as Hrec.
  { apply Forall2_same_length_lookup. split; [by eapply Forall2_length|]. intros i r r' Hi Hi'.
    eapply rechecked_recovered; [done|by eapply list_elem_of_lookup_2|].
    by eapply Forall2_lookup_lr. }
  split_and!; [done|done|done|].
  apply filter_none. intros r' [i Hi']%list_elem_of_lookup.
  destruct (Forall2_lookup_r _ _ _ _ _ Hrec Hi') as (r & _ & _ & Hr).
  apply bool_decide_eq_false. case_bool_decide as Hst.
  - destruct Hr as [_ Ht]. by destruct (tr_state r').
  - by subst.
Qed.

Definition crashed_store : KernelStore :=
  setState "trd_1" sent 1000000 (KernelCaps.demo_final).

Definition demo_chain : chain := fun _ _ => inr C_expired.

Lemma recover_settles_witness :
  map tr_state (trades crashed_store) = [sent] /\
  wp (cexec demo_chain) recover
    (fun r s' => match r with
                 | inr sum => pendingSent s' = []
                 | inl _ => False
                 end) crashed_store.
Proof.
  split; [vm_compute; reflexivity|].
  eapply wp_mono.
  - apply (recover_settles demo_chain crashed_store). vm_compute. repeat constructor; set_solver.
  - intros [e|sum] s'; [|by intros (_ & _ & _ & ?)].
    intros (t & _ & Hv). unfold verdict, demo_chain in Hv. by destruct (truthy _).
Defined.
