(* ===== verification/Lock.v ===== *)
(** `src/kernel/lock.ts`: the lock that makes the kernel store's only writer.

    The system calls are effects on a directory with one name in it: a descriptor
    keeps its file when the name is removed.  What a file holds is the pid its text
    starts with, if any. *)
From S2P Require Import Prelude Prog.
From stdpp Require Import gmap.
#[local] Open Scope string_scope.
#[local] Open Scope list_scope.
#[local] Open Scope Z_scope.
#[local] Open Scope prog_scope.

Record FS : Type := {
  fs_entry : option nat;            (** the file the path names *)
  fs_files : gmap nat (option Z);   (** what each file holds *)
  fs_next : nat;                    (** a file not used yet *)
  fs_alive : gset Z                 (** the pids of live processes *)
}.

Inductive feff : Type -> Type :=
  | OpenWx : feff (result nat)
  | WritePid (fd : nat) : feff unit
  | ReadPid : feff (option Z)
  | PidAlive (pid : Z) : feff bool
  | Remove : feff unit
  | Close (fd : nat) : feff unit.

(** A system call of process [pid]. *)
Definition fs_call (pid : Z) {R} (e : feff R) : FS -> R * FS :=
  match e in feff R return FS -> R * FS with
  | OpenWx => fun s =>
      match fs_entry s with
      | Some _ => (inl "EEXIST", s)
      | None => (inr (fs_next s), {| fs_entry := Some (fs_next s); fs_files := <[fs_next s := None]> (fs_files s);
                                     fs_next := S (fs_next s); fs_alive := fs_alive s |})
      end
  | WritePid fd => fun s =>
      (tt, {| fs_entry := fs_entry s; fs_files := <[fd := Some pid]> (fs_files s); fs_next := fs_next s;
              fs_alive := fs_alive s |})
  | ReadPid => fun s =>
      (match fs_entry s with
       | Some i => match fs_files s !! i with Some (Some p) => if 0 <? p then Some p else None | _ => None end
       | None => None
       end, s)
  | PidAlive p => fun s => (bool_decide (p ∈ fs_alive s), s)
  | Remove => fun s =>
      (tt, {| fs_entry := None; fs_files := fs_files s; fs_next := fs_next s; fs_alive := fs_alive s |})
  | Close _ => fun s => (tt, s)
  end.

Definition fprog : Type -> Type := prog feff string.

(** `#create` *)
Definition create_lock : fprog nat :=
  let* r := trigger OpenWx in
  let* fd := raise r in
  trigger (WritePid fd) ;;
  Ret fd.

(** `acquire`: the descriptor the lock then keeps. *)
Definition acquire : fprog nat :=
  catch create_lock (fun err =>
    if negb (streq err "EEXIST") then Throw err
    else
      let* holder := trigger ReadPid in
      let* held := match holder with Some p => trigger (PidAlive p) | None => Ret false end in
      if held then Throw "LockHeldError"
      else trigger Remove ;; create_lock).

(** `release`, of a lock that keeps [fd] or none. *)
Definition release_lock (fd : option nat) : fprog unit :=
  match fd with Some i => trigger (Close i) | None => Ret tt end ;;
  trigger Remove.

(** *** Processes whose calls do not overlap *)

(** The locks of a process are numbered; [m_holders] maps a lock to the descriptor it keeps
    since its last successful `acquire`, and [m_strays] counts the releases so far that
    removed a file their own lock had not made. *)
Record Machine : Type := { m_fs : FS; m_holders : gmap (Z * nat) nat; m_strays : nat }.

Definition with_alive (a : gset Z) (s : FS) : FS :=
  {| fs_entry := fs_entry s; fs_files := fs_files s; fs_next := fs_next s; fs_alive := a |}.

(** A release by [l] removes a file that is not the one [l] made. *)
Definition stray (m : Machine) (l : Z * nat) : bool :=
  match fs_entry (m_fs m) with
  | Some i => negb (bool_decide (m_holders m !! l = Some i))
  | None => false
  end.

Definition survive (p : Z) (h : gmap (Z * nat) nat) : gmap (Z * nat) nat := filter (fun x => x.1.1 <> p) h.

(** Any live process may acquire and release any of its locks at any time, whether or not
    it holds it. *)
Inductive machine_step : Machine -> Machine -> Prop :=
  | ms_spawn m p : p ∉ fs_alive (m_fs m) -> 0 < p ->
      machine_step m {| m_fs := with_alive ({[p]} ∪ fs_alive (m_fs m)) (m_fs m); m_holders := m_holders m; m_strays := m_strays m |}
  | ms_crash m p :
      machine_step m {| m_fs := with_alive (fs_alive (m_fs m) ∖ {[p]}) (m_fs m); m_holders := survive p (m_holders m);
                        m_strays := m_strays m |}
  | ms_acquire m (l : Z * nat) fd s : l.1 ∈ fs_alive (m_fs m) -> run (@fs_call l.1) acquire (m_fs m) = (inr fd, s) ->
      machine_step m {| m_fs := s; m_holders := <[l := fd]> (m_holders m); m_strays := m_strays m |}
  | ms_refused m (l : Z * nat) err s : l.1 ∈ fs_alive (m_fs m) -> run (@fs_call l.1) acquire (m_fs m) = (inl err, s) ->
      machine_step m {| m_fs := s; m_holders := m_holders m; m_strays := m_strays m |}
  | ms_release m (l : Z * nat) s : l.1 ∈ fs_alive (m_fs m) -> run (@fs_call l.1) (release_lock (m_holders m !! l)) (m_fs m) = (inr tt, s) ->
      machine_step m {| m_fs := s; m_holders := delete l (m_holders m);
                        m_strays := (if stray m l then 1 else 0) + m_strays m |}.

(** The locks whose file is not the one in place any more. *)
Definition orphans (entry : option nat) (h : gmap (Z * nat) nat) : gmap (Z * nat) nat := filter (fun x => entry <> Some x.2) h.

Record lock_inv (m : Machine) : Prop := {
  lk_fresh : forall i, fs_entry (m_fs m) = Some i -> (i < fs_next (m_fs m))%nat;
  lk_holder : forall l fd, m_holders m !! l = Some fd ->
    0 < l.1 /\ l.1 ∈ fs_alive (m_fs m) /\ (fd < fs_next (m_fs m))%nat /\ fs_files (m_fs m) !! fd = Some (Some l.1);
  lk_own : forall l l' fd, m_holders m !! l = Some fd -> m_holders m !! l' = Some fd -> l = l';
  lk_alive : forall p, p ∈ fs_alive (m_fs m) -> 0 < p;
  lk_orphans : (size (orphans (fs_entry (m_fs m)) (m_holders m)) <= m_strays m)%nat
}.

(** The pid the lock file names, if that process lives. *)
Definition live_owner (s : FS) : option Z :=
  match fs_entry s with
  | Some i => match fs_files s !! i with
              | Some (Some p) => if (0 <? p) && bool_decide (p ∈ fs_alive s) then Some p else None
              | _ => None
              end
  | None => None
  end.

(** `acquire` succeeds exactly when the file names no live process. *)
Lemma run_acquire p s :
  match live_owner s with
  | Some _ => run (@fs_call p) acquire s = (inl "LockHeldError", s)
  | None => exists s', run (@fs_call p) acquire s = (inr (fs_next s), s') /\
      fs_entry s' = Some (fs_next s) /\ fs_files s' !! fs_next s = Some (Some p) /\
      fs_next s' = S (fs_next s) /\ fs_alive s' = fs_alive s
  end.
Proof.
  unfold live_owner, acquire, create_lock. cbn [bind catch trigger run raise fs_call].
  destruct (fs_entry s) as [i|] eqn:Ei; cbn [raise bind catch run].
  2: { eexists. split; [done|]. cbn. by rewrite lookup_insert_eq. }
  change (negb (streq "EEXIST" "EEXIST")) with false. cbn [bind catch trigger run raise fs_call]. rewrite Ei.
  destruct (fs_files s !! i) as [[q|]|] eqn:Ef; cbn [bind catch trigger run raise fs_call fs_entry].
  2, 3: eexists; split; [done|]; cbn; by rewrite lookup_insert_eq.
  destruct (0 <? q) eqn:Eq; cbn [bind catch trigger run raise fs_call fs_entry andb].
  2: { eexists. split; [done|]. cbn. by rewrite lookup_insert_eq. }
  destruct (bool_decide (q ∈ fs_alive s)) eqn:Ea; cbn [bind catch trigger run raise fs_call fs_entry]; [done|].
  eexists. split; [done|]. cbn. by rewrite lookup_insert_eq.
Qed.

(** `acquire` touches no file but the one it makes. *)
Lemma acquire_files p s fd s' i : run (@fs_call p) acquire s = (inr fd, s') -> (i < fs_next s)%nat ->
  fs_files s' !! i = fs_files s !! i.
Proof.
  intros Hr Hi. unfold acquire, create_lock in Hr. cbn [bind catch trigger run raise fs_call] in Hr.
  destruct (fs_entry s) as [j|] eqn:Ej; cbn [raise bind catch run fs_call] in Hr.
  2: { injection Hr as <- <-. cbn. by rewrite !lookup_insert_ne by lia. }
  change (negb (streq "EEXIST" "EEXIST")) with false in Hr. cbn [bind catch trigger run raise fs_call] in Hr. rewrite Ej in Hr.
  repeat first [case_match | progress cbn [bind catch trigger run raise fs_call fs_entry fs_files fs_next] in Hr];
    try done; injection Hr as <- <-; cbn; by rewrite !lookup_insert_ne by lia.
Qed.

Lemma holder_owns m l fd : lock_inv m -> m_holders m !! l = Some fd -> fs_entry (m_fs m) = Some fd ->
  live_owner (m_fs m) = Some l.1.
Proof.
  intros Hi Hl He. destruct (lk_holder m Hi l fd Hl) as (H0 & Ha & _ & Hf). unfold live_owner.
  by rewrite He, Hf, (proj2 (Z.ltb_lt _ _) H0), bool_decide_true by done.
Qed.

Lemma orphans_mono entry h h' : h ⊆ h' -> (size (orphans entry h) <= size (orphans entry h'))%nat.
Proof. intros Hs. apply map_subseteq_size, map_filter_subseteq_mono, Hs. Qed.

(** At most one lock holds the file in place. *)
Lemma one_owner m : lock_inv m -> (size (m_holders m) <= 1 + size (orphans (fs_entry (m_fs m)) (m_holders m)))%nat.
Proof.
  intros Hi. destruct (fs_entry (m_fs m)) as [i|] eqn:Ei.
  2: { transitivity (size (orphans None (m_holders m))); [|lia]. apply map_subseteq_size, map_subseteq_spec.
       intros l fd Hl. by apply map_lookup_filter_Some. }
  destruct (decide (filter (fun x : Z * nat * nat => x.2 = i) (m_holders m) = ∅)) as [Hno|Hex].
  2: { apply map_choose in Hex as (l & fd & [Hl Hfd]%map_lookup_filter_Some). cbn in Hfd. subst fd.
    assert (delete l (m_holders m) ⊆ orphans (Some i) (m_holders m)) as Hsub%map_subseteq_size.
    { apply map_subseteq_spec. intros l' fd [Hne Hl']%lookup_delete_Some.
      apply map_lookup_filter_Some. split; [done|]. cbn. intros [= <-]. by apply Hne, (lk_own m Hi l l' i). }
    rewrite map_size_delete_Some in Hsub by done. lia. }
  transitivity (size (orphans (Some i) (m_holders m))); [|lia]. apply map_subseteq_size, map_subseteq_spec.
  intros l fd Hl. apply map_lookup_filter_Some. split; [done|]. cbn. intros [= <-].
  by eapply (map_filter_empty_not_lookup _ _ l i Hno).
Qed.

Lemma refused_same p s err s' : run (@fs_call p) acquire s = (inl err, s') -> s' = s.
Proof.
  intros Hr. pose proof (run_acquire p s) as Hrun. destruct (live_owner s).
  - rewrite Hr in Hrun. by injection Hrun.
  - destruct Hrun as (s'' & Hr' & _). by rewrite Hr in Hr'.
Qed.

Lemma acquire_inv m l fd s : lock_inv m -> l.1 ∈ fs_alive (m_fs m) -> run (@fs_call l.1) acquire (m_fs m) = (inr fd, s) ->
  lock_inv {| m_fs := s; m_holders := <[l := fd]> (m_holders m); m_strays := m_strays m |}.
Proof.
  intros Hi Hl Hr. pose proof (run_acquire l.1 (m_fs m)) as Hrun.
  destruct (live_owner (m_fs m)) as [q|] eqn:Eo; [by rewrite Hr in Hrun|].
  destruct Hrun as (s' & Hr' & He & Hf & Hn & Ha). pose proof (fun i => acquire_files _ _ _ _ i Hr) as Hfiles.
  rewrite Hr in Hr'. injection Hr' as -> ->. pose proof Hi as [H1 H2 H3 H4 H5]. split; cbn.
  - intros i. rewrite He. intros [= <-]. lia.
  - intros l' fd' [[<- <-]|[Hne Hl']]%lookup_insert_Some.
    + rewrite Ha, Hn. split_and!; [by apply H4|done|lia|done].
    + destruct (H2 l' fd' Hl') as (? & ? & ? & ?). rewrite Ha, Hn, Hfiles by done. split_and!; done || lia.
  - intros l1 l2 fd' [[<- <-]|[Hne Hl1]]%lookup_insert_Some [[<- Hfd]|[Hne2 Hl2]]%lookup_insert_Some; try done.
    + apply H2 in Hl2. lia.
    + apply H2 in Hl1. lia.
    + by eapply H3.
  - by rewrite Ha.
  - rewrite He. etransitivity; [|exact H5]. apply map_subseteq_size, map_subseteq_spec.
    intros l' fd' [[[<- <-]|[Hne Hl']]%lookup_insert_Some Hx]%map_lookup_filter_Some; [done|].
    apply map_lookup_filter_Some. split; [done|]. cbn. intros Hx'. pose proof (holder_owns m l' fd' Hi Hl' Hx'). congruence.
Qed.

Lemma release_inv m l s : lock_inv m -> run (@fs_call l.1) (release_lock (m_holders m !! l)) (m_fs m) = (inr tt, s) ->
  lock_inv {| m_fs := s; m_holders := delete l (m_holders m); m_strays := (if stray m l then 1 else 0) + m_strays m |}.
Proof.
  intros Hi Hr. assert (s = {| fs_entry := None; fs_files := fs_files (m_fs m); fs_next := fs_next (m_fs m);
    fs_alive := fs_alive (m_fs m) |}) as -> by (unfold release_lock in Hr; destruct (m_holders m !! l); cbn in Hr; by injection Hr).
  pose proof Hi as [H1 H2 H3 H4 H5]. split; cbn; [done| | |done|].
  - intros l' fd [_ Hl]%lookup_delete_Some. by apply H2.
  - intros l1 l2 fd [_ Hl1]%lookup_delete_Some [_ Hl2]%lookup_delete_Some. by eapply H3.
  - assert (size (orphans None (delete l (m_holders m))) <= size (delete l (m_holders m)))%nat as Hle
      by apply map_subseteq_size, map_filter_subseteq.
    pose proof (one_owner m Hi) as Hone. unfold stray.
    destruct (fs_entry (m_fs m)) as [i|] eqn:Ei; try rewrite Ei in H5, Hone.
    + destruct (m_holders m !! l) as [fd|] eqn:El.
      * rewrite map_size_delete_Some in Hle by done. destruct (decide (fd = i)) as [->|]; [|rewrite bool_decide_false by congruence; cbn [negb]; lia].
        rewrite bool_decide_true by done. cbn [negb]. assert (delete l (m_holders m) ⊆ orphans (Some i) (m_holders m)) as Hsub%map_subseteq_size.
        { apply map_subseteq_spec. intros l' fd [Hne Hl']%lookup_delete_Some. apply map_lookup_filter_Some. split; [done|].
          cbn. intros [= <-]. by apply Hne, (H3 l l' i). }
        rewrite map_size_delete_Some in Hsub by done. etransitivity; [exact Hle|]. by etransitivity; [exact Hsub|].
      * rewrite delete_id in Hle |- * by done. etransitivity; [exact Hle|]. etransitivity; [exact Hone|]. by apply le_n_S.
    + assert (delete l (m_holders m) ⊆ orphans None (m_holders m)) as Hsub%map_subseteq_size.
      { apply map_subseteq_spec. intros l' fd [_ Hl']%lookup_delete_Some. by apply map_lookup_filter_Some. }
      lia.
Qed.

Lemma machine_step_inv m m' : machine_step m m' -> lock_inv m -> lock_inv m'.
Proof.
  intros Hs Hi. destruct Hs as [m p Hp Hpos|m p|m l fd s Hl Hr|m l err s Hl Hr|m l s Hl Hr].
  - pose proof Hi as [H1 H2 H3 H4 H5]. split; cbn; [done| |done| |done].
    + intros l fd Hl. destruct (H2 l fd Hl) as (? & ? & ? & ?). split_and!; try done. set_solver.
    + intros q [->%elem_of_singleton|Hq]%elem_of_union; [done|by apply H4].
  - pose proof Hi as [H1 H2 H3 H4 H5]. split; cbn; [done| | | |].
    + intros l fd [Hl Hne]%map_lookup_filter_Some. destruct (H2 l fd Hl) as (? & ? & ? & ?). cbn in Hne. split_and!; try done. set_solver.
    + intros l l' fd [Hl _]%map_lookup_filter_Some [Hl' _]%map_lookup_filter_Some. by eapply H3.
    + intros q [Hq _]%elem_of_difference. by apply H4.
    + etransitivity; [|exact H5]. apply orphans_mono, map_filter_subseteq.
  - by apply acquire_inv.
  - apply refused_same in Hr as ->. by destruct m.
  - by apply release_inv.
Qed.

(** C23: the lock against a second process, for calls that do not overlap, whatever files
    and processes were there before, and whichever processes start, die, acquire and
    release in whatever order - including locks that release without holding and several
    locks of one process.  The locks that hold are one at most and one more for every
    [stray] release, that is a release whose file is not the one its own lock made (a lock
    that was refused and is released all the same, or that is released twice): without
    one, at most one lock holds.  A lock whose file is in place cannot be passed over:
    every `acquire` of every process is refused and changes nothing.  And `acquire` is
    refused only for a file that names a live process; without one it succeeds and its
    file is the one in place.  That stray releases do break the lock is
    [foreign_release]. *)
Theorem one_writer m0 m
    (Hfresh : forall i, fs_entry (m_fs m0) = Some i -> (i < fs_next (m_fs m0))%nat)
    (Hpids : forall p, p ∈ fs_alive (m_fs m0) -> 0 < p) (Hnone : m_holders m0 = ∅) (Hreach : rtc machine_step m0 m) :
  (size (m_holders m) <= 1 + m_strays m)%nat /\
  (m_strays m = 0%nat -> forall l fd, m_holders m !! l = Some fd ->
     (forall l' fd', m_holders m !! l' = Some fd' -> l' = l) /\ l.1 ∈ fs_alive (m_fs m) /\
     forall q, run (@fs_call q) acquire (m_fs m) = (inl "LockHeldError", m_fs m)) /\
  (forall l fd q, m_holders m !! l = Some fd -> fs_entry (m_fs m) = Some fd ->
     run (@fs_call q) acquire (m_fs m) = (inl "LockHeldError", m_fs m)) /\
  (live_owner (m_fs m) = None -> forall q, exists fd s, run (@fs_call q) acquire (m_fs m) = (inr fd, s) /\
     fs_entry s = Some fd /\ fs_files s !! fd = Some (Some q)).
Proof.
  assert (lock_inv m) as Hi.
  { assert (lock_inv m0) as H0 by (split; try done; rewrite Hnone; intros *; try (by rewrite lookup_empty);
      unfold orphans; rewrite map_filter_empty, map_size_empty; lia).
    clear Hfresh Hpids Hnone. induction Hreach; [done|]. by apply IHHreach, (machine_step_inv x y). }
  assert (forall l fd q, m_holders m !! l = Some fd -> fs_entry (m_fs m) = Some fd ->
    run (@fs_call q) acquire (m_fs m) = (inl "LockHeldError", m_fs m)) as Hrefuse.
  { intros l fd q Hl He. pose proof (run_acquire q (m_fs m)) as Hrun. by rewrite (holder_owns m l fd Hi Hl He) in Hrun. }
  split_and!; [|intros Hs|done|].
  - pose proof (one_owner m Hi). pose proof (lk_orphans m Hi). lia.
  - assert (forall l fd, m_holders m !! l = Some fd -> fs_entry (m_fs m) = Some fd) as Hown.
    { intros l fd Hl. pose proof (lk_orphans m Hi) as Ho. rewrite Hs in Ho. apply Nat.le_0_r, map_size_empty_iff in Ho.
      apply dec_stable. intros Hne. pose proof (map_filter_empty_not_lookup _ _ l fd Ho) as Hx. by apply Hx. }
    intros l fd Hl. split_and!; [|apply (lk_holder m Hi l fd Hl)|by intros q; eapply Hrefuse, Hown].
    intros l' fd' Hl'. pose proof (Hown l fd Hl). pose proof (Hown l' fd' Hl'). apply (lk_own m Hi l' l fd'); congruence.
  - intros Ho q. pose proof (run_acquire q (m_fs m)) as Hrun. rewrite Ho in Hrun.
    destruct Hrun as (s & Hr & He & Hf & _). by exists (fs_next (m_fs m)), s.
Qed.

(** *** A crash and a takeover *)

(** Process 7 died with the lock; 8 and 9 live. *)
Definition stale_fs : FS :=
  {| fs_entry := Some 0%nat; fs_files := {[0%nat := Some 7]}; fs_next := 1; fs_alive := {[8; 9]} |}.

Definition stale_machine : Machine := {| m_fs := stale_fs; m_holders := ∅; m_strays := 0 |}.

Definition taken_machine : Machine :=
  {| m_fs := (run (@fs_call 8) acquire stale_fs).2; m_holders := {[(8, 0%nat) := 1%nat]}; m_strays := 0 |}.

Lemma one_writer_witness :
  m_holders taken_machine !! (8, 0%nat) = Some 1%nat /\
  run (@fs_call 9) acquire (m_fs taken_machine) = (inl "LockHeldError", m_fs taken_machine).
Proof.
  split; [reflexivity|].
  assert (rtc machine_step stale_machine taken_machine) as Hr.
  { eapply rtc_l; [|apply rtc_refl].
    apply (ms_acquire stale_machine (8, 0%nat) 1%nat); [cbn; set_solver|vm_compute; reflexivity]. }
  refine (proj2 (proj2 (proj1 (proj2 (one_writer stale_machine taken_machine _ _ eq_refl Hr)) eq_refl (8, 0%nat) 1%nat eq_refl)) 9).
  - intros i [= <-]. cbn. lia.
  - cbn. intros p Hp. set_solver by lia.
Defined.

(** *** Processes whose calls overlap *)

Definition pids (i : nat) : Z := match i with 0%nat => 8 | _ => 9 end.

Definition fs_exec (i : nat) {R} (e : feff R) (s : FS) (r : R) (s' : FS) : Prop := (r, s') = fs_call (pids i) e s.

Definition booting (n : nat) (p : fprog nat) : Prop := p = acquire.

(** Two processes boot over a stale lock: both find its owner dead, and the second
    removes the lock the first has just made. *)
Lemma both_reclaim :
  exists s, pool_reachable (fun i R => @fs_exec i R) booting stale_fs (s, [Ret 1%nat; Ret 2%nat]).
Proof.
  pose proof (run_schedule_reachable (fun i R => @fs_exec i R) booting (fun i R => @fs_call (pids i) R)
    (fun i R e s => ltac:(unfold fs_exec; by rewrite <- surjective_pairing))
    [0; 0; 0; 1; 1; 1; 0; 0; 0; 1; 1; 1]%nat [acquire; acquire] stale_fs) as H.
  eexists. refine (eq_rect _ (fun c => pool_reachable _ _ _ c) (H _) _ _).
  - intros k p Hk. destruct k as [|[|]]; try done; by injection Hk as <-.
  - vm_compute. reflexivity.
Qed.

(** With no lock at all: the second boots while the first has made its file but
    not yet written the pid, takes the empty file for stale, and removes it. *)
Lemma empty_file_taken_for_stale :
  exists s, pool_reachable (fun i R => @fs_exec i R) booting
    {| fs_entry := None; fs_files := ∅; fs_next := 0; fs_alive := {[8; 9]} |} (s, [Ret 0%nat; Ret 1%nat]).
Proof.
  pose proof (run_schedule_reachable (fun i R => @fs_exec i R) booting (fun i R => @fs_call (pids i) R)
    (fun i R e s => ltac:(unfold fs_exec; by rewrite <- surjective_pairing))
    [0; 1; 1; 1; 1; 1; 0]%nat [acquire; acquire]
    {| fs_entry := None; fs_files := ∅; fs_next := 0; fs_alive := {[8; 9]} |}) as H.
  eexists. refine (eq_rect _ (fun c => pool_reachable _ _ _ c) (H _) _ _).
  - intros k p Hk. destruct k as [|[|]]; try done; by injection Hk as <-.
  - vm_compute. reflexivity.
Qed.

(** `release` of a lock that is not held removes the file of the process that
    holds it. *)
Lemma foreign_release :
  fs_entry (run (@fs_call 9) (release_lock None) (m_fs taken_machine)).2 = None /\
  exists s, run (@fs_call 9) acquire (run (@fs_call 9) (release_lock None) (m_fs taken_machine)).2 = (inr 2%nat, s).
Proof. split; [reflexivity|]. eexists. vm_compute. reflexivity. Qed.
