(* ===== verification/RiskControl.v ===== *)
(** `src/execution/control/index.ts`: the risk evaluator, the reservation ledger
    and the trading control.

    Every value the source types as `bigint` is a [Z].  The driver refuses to
    bind a bigint that does not fit 64 bits, so every statement that binds one
    checks [int64]; a statement that throws leaves the tables as they were.  A
    method that may throw answers an [option], [None] being the exception. *)
From S2P Require Import Prelude Table Canonical.
#[local] Open Scope string_scope.
#[local] Open Scope Z_scope.

(** *** Production limits *)

Record LedgerEntry : Type := {
  le_id : string; le_at : Z; le_asset : string; le_strategy : string; le_amount : Z
}.

Record ProductionRiskLimits : Type := {
  l_chains : list Z;
  l_accounts : list string;
  l_routers : list string;
  l_tokens : list string;
  maxPerTrade : gmap string Z;
  maxReservedPerToken : gmap string Z;
  l_maxSlippageBps : Z;
  maxQuoteAge : Z;
  maxQuoteBlocks : Z;
  nativeGasReserve : Z;
  maxDailyNotional : option Z
}.

Record ProductionRiskInput : Type := {
  x_now : Z; x_chain : Z; x_account : string; x_router : string;
  x_tokenIn : string; x_tokenOut : string; amountIn : Z; x_slippageBps : Z;
  x_quoteAt : Z; quoteBlock : Z; currentBlock : Z;
  quoteBlockHash : string; canonicalBlockHash : string;
  tokenBalance : Z; nativeBalance : Z; estimatedGasCost : Z;
  notional : option Z; dailyNotional : option Z
}.

(** `bad(v, s)` *)
Definition bad (v : bool) (s : string) : list string := if v then [s] else [].

Definition is_none {A} (o : option A) : bool := match o with None => true | Some _ => false end.

(** A check on a value that may be missing; nothing is reported when it is. *)
Definition bad_if_some {A} (o : option A) (p : A -> bool) (s : string) : list string :=
  match o with Some a => bad (p a) s | None => [] end.

Definition asset_total (asset : string) (entries : list LedgerEntry) : Z :=
  sum_by le_amount (List.filter (fun e => streq (le_asset e) asset) entries).

(** `ProductionRiskEvaluator.evaluate`: the reasons against, empty when allowed. *)
Definition production_reasons (l : ProductionRiskLimits) (x : ProductionRiskInput)
    (entries : list LedgerEntry) : list string :=
  let per := maxPerTrade l !! x_tokenIn x in
  let cap := maxReservedPerToken l !! x_tokenIn x in
  bad (negb (includes (l_chains l) (x_chain x))) "chain_not_allowed" ++
  bad (negb (includes (l_accounts l) (x_account x))) "account_not_allowed" ++
  bad (negb (includes (l_routers l) (x_router x))) "router_not_allowed" ++
  bad (negb (includes (l_tokens l) (x_tokenIn x)) || negb (includes (l_tokens l) (x_tokenOut x)))
    "token_not_allowed" ++
  bad (is_none per) "per_trade_unit_unconfigured" ++
  bad (is_none cap) "token_exposure_unit_unconfigured" ++
  bad_if_some per (fun per => per <? amountIn x) "per_trade_limit_exceeded" ++
  bad (amountIn x <=? 0) "invalid_amount" ++
  bad (l_maxSlippageBps l <? x_slippageBps x) "slippage_exceeded" ++
  bad ((x_now x <? x_quoteAt x) || (maxQuoteAge l <? x_now x - x_quoteAt x)) "quote_stale" ++
  bad ((currentBlock x <? quoteBlock x) || (maxQuoteBlocks l <? currentBlock x - quoteBlock x))
    "quote_block_stale" ++
  bad (streq (quoteBlockHash x) "" || negb (streq (quoteBlockHash x) (canonicalBlockHash x)))
    "quote_noncanonical" ++
  bad (tokenBalance x <? amountIn x) "insufficient_token_balance" ++
  bad (nativeBalance x <? estimatedGasCost x + nativeGasReserve l) "insufficient_gas_reserve" ++
  bad_if_some cap (fun cap => cap <? asset_total (x_tokenIn x) entries + amountIn x)
    "token_reserved_exposure_exceeded" ++
  match maxDailyNotional l with
  | None => []
  | Some max =>
      bad (is_none (notional x) || is_none (dailyNotional x)) "notional_unavailable" ++
      match notional x, dailyNotional x with
      | Some n, Some d => bad (max <? n + d) "daily_notional_exceeded"
      | _, _ => []
      end
  end.

Definition production_allowed (l : ProductionRiskLimits) (x : ProductionRiskInput)
    (entries : list LedgerEntry) : bool :=
  match production_reasons l x entries with [] => true | _ => false end.

(** *** Policies *)

Record PolicyAllow : Type := {
  chains : list Z; accounts : list string; tokens : list string; routers : list string;
  targets : list string; selectors : list string; recipients : list string
}.

Record PolicyLimits : Type := {
  perTrade : Z; assetHourly : Z; assetDaily : Z; strategyHourly : Z; strategyDaily : Z;
  totalExposure : Z; assetExposure : Z; concentrationBps : Z; drawdown : Z; totalLoss : Z
}.

Record PolicyMarket : Type := {
  m_maxQuoteAge : Z; maxSlippageBps : Z; maxImpactBps : Z; maxGas : Z; maxFees : Z;
  minLiquidity : Z; maxTaxBps : Z; allowProxy : bool; maxOracleAge : Z; requireSequencerUp : bool
}.

Record PolicyDocument : Type := {
  version : string;
  effectiveAt : Z;
  expiresAt : Z;
  allow : PolicyAllow;
  limits : PolicyLimits;
  market : PolicyMarket;
  approvalClass : string;
  deadManAfter : Z;
  globalKill : bool;
  strategyKills : list string
}.

(** An allowlist the document may carry: not empty, no duplicate, no empty string. *)
Definition list_invalid {A} `{EqDecision A} (empty : A -> bool) (l : list A) : bool :=
  (length l =? 0)%nat || negb (length (remove_dups l) =? length l)%nat || existsb empty l.

Definition policy_numbers (p : PolicyDocument) : list Z :=
  let l := limits p in let m := market p in
  [perTrade l; assetHourly l; assetDaily l; strategyHourly l; strategyDaily l; totalExposure l;
   assetExposure l; concentrationBps l; drawdown l; totalLoss l;
   m_maxQuoteAge m; maxSlippageBps m; maxImpactBps m; maxGas m; maxFees m; minLiquidity m;
   maxTaxBps m; maxOracleAge m; deadManAfter p].

(** `validatePolicy`: the message of the error it throws, if any. *)
Definition validatePolicy (p : PolicyDocument) : option string :=
  let a := allow p in
  let empty s := streq s "" in
  if negb (streq (version p) "1") || (effectiveAt p <? 0) || (expiresAt p <=? effectiveAt p)
  then Some "invalid policy"
  else if list_invalid (fun _ => false) (chains a) ||
          existsb (list_invalid empty)
            [accounts a; tokens a; routers a; targets a; selectors a; recipients a]
  then Some "invalid allowlist"
  else if existsb (fun x => x <? 0) (policy_numbers p) ||
          (10000 <? concentrationBps (limits p)) || (10000 <? maxSlippageBps (market p)) ||
          (10000 <? maxImpactBps (market p)) || (10000 <? maxTaxBps (market p))
  then Some "invalid policy limits"
  else None.

(** *** The canonical text of a policy *)

(** `canonical` refuses numbers and prints bigints. *)
Fixpoint canonical_ok (v : value) : bool :=
  match v with
  | V_number _ | V_other => false
  | V_array l => forallb canonical_ok l
  | V_object fs => forallb (fun f => canonical_ok (snd f)) fs
  | _ => true
  end.

Definition canonical (v : value) : option string :=
  if canonical_ok v then Some (print (sorted v)) else None.

Definition V_strings (l : list string) : value := V_array (map V_string l).

(** The document as the object the code serializes. *)
Definition policy_value (p : PolicyDocument) : value :=
  let a := allow p in let l := limits p in let m := market p in
  V_object [
    ("version", V_string (version p));
    ("effectiveAt", V_bigint (effectiveAt p));
    ("expiresAt", V_bigint (expiresAt p));
    ("allow", V_object [
      ("chains", V_array (map V_bigint (chains a))); ("accounts", V_strings (accounts a));
      ("tokens", V_strings (tokens a)); ("routers", V_strings (routers a));
      ("targets", V_strings (targets a)); ("selectors", V_strings (selectors a));
      ("recipients", V_strings (recipients a))]);
    ("limits", V_object [
      ("perTrade", V_bigint (perTrade l)); ("assetHourly", V_bigint (assetHourly l));
      ("assetDaily", V_bigint (assetDaily l)); ("strategyHourly", V_bigint (strategyHourly l));
      ("strategyDaily", V_bigint (strategyDaily l)); ("totalExposure", V_bigint (totalExposure l));
      ("assetExposure", V_bigint (assetExposure l));
      ("concentrationBps", V_bigint (concentrationBps l)); ("drawdown", V_bigint (drawdown l));
      ("totalLoss", V_bigint (totalLoss l))]);
    ("market", V_object [
      ("maxQuoteAge", V_bigint (m_maxQuoteAge m)); ("maxSlippageBps", V_bigint (maxSlippageBps m));
      ("maxImpactBps", V_bigint (maxImpactBps m)); ("maxGas", V_bigint (maxGas m));
      ("maxFees", V_bigint (maxFees m)); ("minLiquidity", V_bigint (minLiquidity m));
      ("maxTaxBps", V_bigint (maxTaxBps m)); ("allowProxy", V_bool (allowProxy m));
      ("maxOracleAge", V_bigint (maxOracleAge m));
      ("requireSequencerUp", V_bool (requireSequencerUp m))]);
    ("approvalClass", V_string (approvalClass p));
    ("deadManAfter", V_bigint (deadManAfter p));
    ("globalKill", V_bool (globalKill p));
    ("strategyKills", V_strings (strategyKills p))].

Definition canonicalPolicy (p : PolicyDocument) : option string :=
  match validatePolicy p with
  | Some _ => None
  | None => t ← canonical (policy_value p); Some (String.append "TRADING_POLICY_V1:" t)
  end.

(** *** The text binds the document *)

Lemma V_strings_inj l m : sorted (V_strings l) = sorted (V_strings m) -> l = m.
Proof.
  unfold V_strings. rewrite !sorted_flat by done. intros [= H].
  apply (list_fmap_eq_inj V_string) in H; [done|]. by intros ? ? [=].
Qed.

Lemma V_bigints_inj l m : sorted (V_array (map V_bigint l)) = sorted (V_array (map V_bigint m)) -> l = m.
Proof.
  rewrite !sorted_flat by done. intros [= H].
  apply (list_fmap_eq_inj V_bigint) in H; [done|]. by intros ? ? [=].
Qed.

Lemma forallb_map_true {A B} (p : B -> bool) (f : A -> B) l :
  (forall a, p (f a) = true) -> forallb p (map f l) = true.
Proof. intros H. induction l as [|a l IH]; simpl; [done|by rewrite H]. Qed.

Lemma policy_value_printable p : printable true (policy_value p) = true.
Proof.
  unfold policy_value, V_strings. cbn [printable forallb snd fst].
  by rewrite !forallb_map_true.
Qed.

Lemma policy_value_inj p q : sorted (policy_value p) = sorted (policy_value q) -> p = q.
Proof.
  intros H. unfold policy_value in H. open_object H.
  repeat match goal with H : sorted (V_object _) = sorted (V_object _) |- _ => open_object H end.
  repeat match goal with
  | H : sorted (V_strings _) = sorted (V_strings _) |- _ => apply V_strings_inj in H
  | H : sorted (V_array _) = sorted (V_array _) |- _ => apply V_bigints_inj in H
  | H : sorted _ = sorted _ |- _ => injection H as H
  | H : Forall2 _ [] [] |- _ => clear H
  end.
  destruct p as [? ? ? [] [] [] ? ? ? ?], q as [? ? ? [] [] [] ? ? ? ?]; simpl in *. by subst.
Qed.

Lemma canonicalPolicy_text p s :
  canonicalPolicy p = Some s ->
  s = String.append "TRADING_POLICY_V1:" (print (sorted (policy_value p))).
Proof.
  unfold canonicalPolicy, canonical. destruct (validatePolicy p); [done|].
  destruct (canonical_ok (policy_value p)); [|done]. cbn [mbind option_bind]. congruence.
Qed.

(** The text that is hashed and signed determines the policy: two documents
    that validate and have the same canonical text are the same document, field
    by field, so a signature over the hash of one vouches for no other. *)
Theorem canonicalPolicy_binds p q s
    (Hp : canonicalPolicy p = Some s) (Hq : canonicalPolicy q = Some s) : p = q.
Proof.
  apply canonicalPolicy_text in Hp, Hq. rewrite Hp in Hq. apply append_inj in Hq.
  apply policy_value_inj.
  destruct (print_inj_follow true (sorted (policy_value p)) (sorted (policy_value q)) "" "") as [-> _];
    rewrite ?sorted_printable, ?policy_value_printable; auto.
  by rewrite !sapp_nil.
Qed.

(** *** The reservation ledger *)

Definition int64 (z : Z) : bool := (- 2 ^ 63 <=? z) && (z <? 2 ^ 63).

Inductive ResState : Type := R_reserved | R_committed.

#[export] Instance ResState_eq_dec : EqDecision ResState.
Proof. solve_decision. Defined.

Record ResRow : Type := {
  rs_id : string; rs_at : Z; rs_asset : string; rs_strategy : string; rs_amount : Z;
  rs_state : ResState; rs_expires_at : Z;
  rs_quote_denomination : option string; rs_quote_decimals : option Z;
  rs_quote_value : option Z; rs_valuation_evidence : option string
}.

Record Ledger : Type := { reservations : list ResRow; meta_status : option string }.

Definition empty_ledger : Ledger := {| reservations := []; meta_status := None |}.

Definition set_reservations (t : list ResRow) (s : Ledger) : Ledger :=
  {| reservations := t; meta_status := meta_status s |}.

(** What the constructor fixes. *)
Record AggregateQuote : Type := { denomination : string; decimals : Z }.

Record LedgerConfig : Type := { ttl : Z; aggregateQuote : option AggregateQuote }.

(** `expire(now)`: DELETE ... WHERE state='reserved' AND expires_at<=now *)
Definition expire (now : Z) (s : Ledger) : option Ledger :=
  if int64 now
  then Some (set_reservations
         (delete_where (fun r => bool_decide (rs_state r = R_reserved) && (rs_expires_at r <=? now))
            (reservations s)) s)
  else None.

Definition ledger_has (id : string) (s : Ledger) : bool := has rs_id id (reservations s).

Definition res_row (e : LedgerEntry) (st : ResState) (expires : Z) : ResRow :=
  {| rs_id := le_id e; rs_at := le_at e; rs_asset := le_asset e; rs_strategy := le_strategy e;
     rs_amount := le_amount e; rs_state := st; rs_expires_at := expires;
     rs_quote_denomination := None; rs_quote_decimals := None; rs_quote_value := None;
     rs_valuation_evidence := None |}.

(** An INSERT that binds the row's bigints; it throws when one does not fit or
    the id is taken. *)
Definition insert_row (r : ResRow) (s : Ledger) : option Ledger :=
  if int64 (rs_at r) && int64 (rs_amount r) && int64 (rs_expires_at r) &&
     match rs_quote_value r with Some v => int64 v | None => true end
  then t ← insert rs_id r (reservations s); Some (set_reservations t s)
  else None.

Definition entry_invalid (e : LedgerEntry) : bool :=
  streq (le_id e) "" || (le_at e <? 0) || (le_amount e <=? 0).

(** `reserve(e)` *)
Definition ledger_reserve (c : LedgerConfig) (e : LedgerEntry) (s : Ledger) : bool * Ledger :=
  if entry_invalid e then (false, s)
  else match insert_row (res_row e R_reserved (le_at e + ttl c)) s with
       | Some s' => (true, s')
       | None => (false, s)
       end.

(** The third form of `aggregate`: a normalized valuation. *)
Record AggregateValue : Type := {
  av_denomination : string; av_decimals : Z; av_max : Z; av_value : Z; av_evidence : string
}.

Inductive Aggregate : Type := A_none | A_units (max : Z) | A_value (v : AggregateValue).

Definition aggregate_invalid (c : LedgerConfig) (q : AggregateValue) : bool :=
  streq (av_denomination q) "" || (av_decimals q <? 0) || (30 <? av_decimals q) ||
  (av_max q <? 0) || (av_value q <=? 0) || streq (av_evidence q) "" ||
  match aggregateQuote c with
  | Some a => negb (streq (av_denomination q) (denomination a)) || negb (av_decimals q =? decimals a)
  | None => false
  end.

(** A row without a valuation comparable with [q]. *)
Definition incomparable (q : AggregateValue) (r : ResRow) : bool :=
  match rs_quote_denomination r, rs_quote_decimals r, rs_quote_value r, rs_valuation_evidence r with
  | Some d, Some n, Some _, Some ev =>
      streq ev "" || negb (streq d (av_denomination q)) || negb (n =? av_decimals q)
  | _, _, _, _ => true
  end.

Definition quote_of (r : ResRow) : Z := default 0 (rs_quote_value r).

Definition valued_row (e : LedgerEntry) (expires : Z) (q : option AggregateValue) : ResRow :=
  {| rs_id := le_id e; rs_at := le_at e; rs_asset := le_asset e; rs_strategy := le_strategy e;
     rs_amount := le_amount e; rs_state := R_reserved; rs_expires_at := expires;
     rs_quote_denomination := av_denomination <$> q; rs_quote_decimals := av_decimals <$> q;
     rs_quote_value := av_value <$> q; rs_valuation_evidence := av_evidence <$> q |}.

Definition reserved_of_asset (asset : string) (s : Ledger) : Z :=
  sum_by rs_amount (select (fun r => streq (rs_asset r) asset) (reservations s)).

Definition quoted_value_of (l : Aggregate) : option AggregateValue :=
  match l with A_value q => Some q | _ => None end.

(** The limits of `reserveWithin` on the live reservations. *)
Definition within_limits (e : LedgerEntry) (perAsset : Z) (agg : Aggregate) (s : Ledger) : bool :=
  let asset := reserved_of_asset (le_asset e) s in
  negb (perAsset <? asset + le_amount e) &&
  match agg with
  | A_none => true
  | A_units max => negb (max <? asset + le_amount e)
  | A_value q =>
      negb (existsb (incomparable q) (reservations s)) &&
      negb (av_max q <? sum_by quote_of (reservations s) + av_value q)
  end.

(** `reserveWithin(e, l)`: the transaction returns false without throwing, so
    the expiry it began with is kept; an exception rolls everything back. *)
Definition reserveWithin (c : LedgerConfig) (e : LedgerEntry) (perAsset : Z) (agg : Aggregate) (s : Ledger) :
    bool * Ledger :=
  if entry_invalid e || (perAsset <? 0) then (false, s)
  else if match agg with A_value q => aggregate_invalid c q | _ => false end then (false, s)
  else match expire (le_at e) s with
       | None => (false, s)
       | Some s1 =>
           if within_limits e perAsset agg s1
           then match insert_row (valued_row e (le_at e + ttl c) (quoted_value_of agg)) s1 with
                | Some s2 => (true, s2)
                | None => (false, s)
                end
           else (false, s1)
       end.

(** `x.changes === 1n`: the driver reports `changes` as a number, which is
    never strictly equal to a bigint. *)
Definition strictly_one_bigint (changes : nat) : bool := false.

Definition is_reserved (id : string) (r : ResRow) : bool :=
  bool_decide (rs_id r = id) && bool_decide (rs_state r = R_reserved).

(** `release(id)` *)
Definition ledger_release (id : string) (s : Ledger) : bool * Ledger :=
  (strictly_one_bigint (changes (is_reserved id) (reservations s)),
   set_reservations (delete_where (is_reserved id) (reservations s)) s).

Definition committed_at (at_ : Z) (r : ResRow) : ResRow :=
  {| rs_id := rs_id r; rs_at := at_; rs_asset := rs_asset r; rs_strategy := rs_strategy r;
     rs_amount := rs_amount r; rs_state := R_committed; rs_expires_at := at_;
     rs_quote_denomination := rs_quote_denomination r; rs_quote_decimals := rs_quote_decimals r;
     rs_quote_value := rs_quote_value r; rs_valuation_evidence := rs_valuation_evidence r |}.

Definition is_committed (id : string) (s : Ledger) : bool :=
  match get rs_id id (reservations s) with
  | Some r => bool_decide (rs_state r = R_committed)
  | None => false
  end.

(** `commit(id)`; [now] is the ledger's clock. *)
Definition ledger_commit (now : Z) (id : string) (s : Ledger) : option (bool * Ledger) :=
  if int64 now then
    let n := changes (is_reserved id) (reservations s) in
    let s' := set_reservations (update_where (is_reserved id) (committed_at now) (reservations s)) s in
    Some (strictly_one_bigint n || is_committed id s', s')
  else None.

Definition entry_of (r : ResRow) : LedgerEntry :=
  {| le_id := rs_id r; le_at := rs_at r; le_asset := rs_asset r; le_strategy := rs_strategy r;
     le_amount := rs_amount r |}.

(** `entries(now)` *)
Definition entries (now : Z) (s : Ledger) : option (list LedgerEntry * Ledger) :=
  s' ← expire now s; Some (map entry_of (reservations s'), s').

(** `usage(now, w, p)` over the entries of [now]. *)
Definition usage (now w : Z) (p : LedgerEntry -> bool) (es : list LedgerEntry) : Z :=
  sum_by le_amount (List.filter (fun e => (now - w <? le_at e) && (le_at e <=? now) && p e) es).

(** *** Reconciliation with a snapshot *)

Definition snapshot_invalid (now : Z) (es : list LedgerEntry) : bool :=
  existsb (fun e => streq (le_id e) "" || (le_at e <? 0) || (now <? le_at e) || (le_amount e <=? 0)) es ||
  negb (length (remove_dups (map le_id es)) =? length es)%nat.

Definition discrepancy (es : list LedgerEntry) (local : list ResRow) : bool :=
  existsb (fun r => negb (existsb (fun e => streq (le_id e) (rs_id r)) es)) local ||
  existsb (fun e => negb (existsb (fun r => streq (rs_id r) (le_id e) && (rs_amount r =? le_amount e)) local)) es.

(** INSERT ... ON CONFLICT(id) DO NOTHING *)
Definition import_entry (e : LedgerEntry) (s : Ledger) : option Ledger :=
  if int64 (le_at e) && int64 (le_amount e)
  then Some (if ledger_has (le_id e) s then s
             else set_reservations (reservations s ++ [res_row e R_committed (le_at e)]) s)
  else None.

Fixpoint import_all (es : list LedgerEntry) (s : Ledger) : option Ledger :=
  match es with
  | [] => Some s
  | e :: es' => s' ← import_entry e s; import_all es' s'
  end.

(** `reconcile(es, now)`: the status and the ledger; [None] is an exception, and
    the ledger is then what the expiry left. *)
Definition reconcile (es : list LedgerEntry) (now : Z) (s : Ledger) : option string * Ledger :=
  if snapshot_invalid now es then (None, s)
  else match expire now s with
       | None => (None, s)
       | Some s1 =>
           let local := select (fun r => bool_decide (rs_state r = R_committed)) (reservations s1) in
           let status := if discrepancy es local then "discrepancy" else "ok" in
           match import_all es s1 with
           | None => (None, s1)
           | Some s2 => (Some status, {| reservations := reservations s2; meta_status := Some status |})
           end
       end.

Definition status (s : Ledger) : string := default "ok" (meta_status s).

(** *** The trading control *)

Record TradeRequest : Type := {
  t_id : string; now : Z; chain : Z; account : string; tokenIn : string; tokenOut : string;
  router : string; target : string; selector : string; recipient : string; strategy : string;
  amount : Z; approvalAmount : Z; quoteAt : Z; slippageBps : Z; impactBps : Z; gas : Z; fees : Z;
  liquidity : Z; taxBps : Z; isProxy : bool; oracleAt : Z; sequencerUp : bool;
  portfolioExposure : Z; t_assetExposure : Z; portfolioValue : Z; peakValue : Z;
  realizedLoss : Z; unrealizedLoss : Z; lastHeartbeat : Z
}.

Record SignedPolicyReference : Type := {
  ref_policyHash : string; ref_signature : string; ref_keyId : option string
}.

Record Decision : Type := { allowed : bool; reasons : list string; reservationId : option string }.

Definition denied (r : list string) : Decision :=
  {| allowed := false; reasons := r; reservationId := None |}.

Section TradingControl.
(** The digest, and the host's check of the signature on it. *)
Context (sha256 : string -> string) (verify : SignedPolicyReference -> string -> bool).
Context (c : LedgerConfig) (p : PolicyDocument) (ref : SignedPolicyReference).

Definition policyHash (p : PolicyDocument) : option string := sha256 <$> canonicalPolicy p.

Definition policy_signature_valid : bool :=
  match policyHash p with
  | Some h => streq h (ref_policyHash ref) && verify ref h
  | None => false
  end.

Definition numeric_inputs (t : TradeRequest) : list Z :=
  [now t; chain t; amount t; approvalAmount t; quoteAt t; slippageBps t; impactBps t; gas t; fees t;
   liquidity t; taxBps t; oracleAt t; portfolioExposure t; t_assetExposure t; portfolioValue t;
   peakValue t; realizedLoss t; unrealizedLoss t; lastHeartbeat t].

(** The checks that only read the request and the policy. *)
Definition request_reasons (t : TradeRequest) : list string :=
  let a := allow p in let l := limits p in let m := market p in
  bad (negb policy_signature_valid) "policy_signature_invalid" ++
  bad (existsb (fun x => x <? 0) (numeric_inputs t) || (amount t =? 0)) "invalid_numeric_input" ++
  bad (amount t <=? 0) "invalid_amount" ++
  bad (now t <? quoteAt t) "quote_future" ++
  bad (now t <? oracleAt t) "oracle_future" ++
  bad (now t <? lastHeartbeat t) "heartbeat_future" ++
  bad ((now t <? effectiveAt p) || (expiresAt p <=? now t)) "policy_inactive" ++
  bad (globalKill p) "global_kill_switch" ++
  bad (includes (strategyKills p) (strategy t)) "strategy_kill_switch" ++
  bad (negb (includes (chains a) (chain t))) "chain_not_allowed" ++
  bad (negb (includes (accounts a) (account t))) "account_not_allowed" ++
  bad (negb (includes (tokens a) (tokenIn t) && includes (tokens a) (tokenOut t))) "token_not_allowed" ++
  bad (negb (includes (routers a) (router t))) "router_not_allowed" ++
  bad (negb (includes (targets a) (target t))) "target_not_allowed" ++
  bad (negb (includes (selectors a) (selector t))) "selector_not_allowed" ++
  bad (negb (includes (recipients a) (recipient t))) "recipient_not_allowed" ++
  bad (negb (approvalAmount t =? amount t)) "approval_not_exact" ++
  bad (perTrade l <? amount t) "per_trade_limit_exceeded" ++
  bad (m_maxQuoteAge m <? now t - quoteAt t) "quote_stale" ++
  bad (maxSlippageBps m <? slippageBps t) "slippage_exceeded" ++
  bad (maxImpactBps m <? impactBps t) "impact_exceeded" ++
  bad (maxGas m <? gas t) "gas_exceeded" ++
  bad (maxFees m <? fees t) "fees_exceeded" ++
  bad (liquidity t <? minLiquidity m) "liquidity_too_low" ++
  bad (maxTaxBps m <? taxBps t) "tax_exceeded" ++
  bad (isProxy t && negb (allowProxy m)) "proxy_forbidden" ++
  bad (maxOracleAge m <? now t - oracleAt t) "oracle_stale" ++
  bad (requireSequencerUp m && negb (sequencerUp t)) "sequencer_down".

(** The checks against the ledger's live entries. *)
Definition exposure_reasons (t : TradeRequest) (es : list LedgerEntry) : list string :=
  let l := limits p in
  let asset := asset_total (tokenIn t) es in
  let total := sum_by le_amount es in
  bad (totalExposure l <? portfolioExposure t + total + amount t) "total_exposure_exceeded" ++
  bad (assetExposure l <? t_assetExposure t + asset + amount t) "asset_exposure_exceeded" ++
  bad ((portfolioValue t <=? 0) ||
       (concentrationBps l * portfolioValue t <? (t_assetExposure t + asset + amount t) * 10000))
    "concentration_exceeded" ++
  bad ((portfolioValue t <? peakValue t) && (drawdown l <? peakValue t - portfolioValue t))
    "drawdown_exceeded" ++
  bad (totalLoss l <? realizedLoss t + unrealizedLoss t) "loss_exceeded" ++
  bad (deadManAfter p <? now t - lastHeartbeat t) "dead_man_switch".

Definition same_asset (t : TradeRequest) (e : LedgerEntry) : bool := streq (le_asset e) (tokenIn t).
Definition same_strategy (t : TradeRequest) (e : LedgerEntry) : bool := streq (le_strategy e) (strategy t).

(** `u(w, f)` *)
Definition would_use (t : TradeRequest) (w : Z) (f : LedgerEntry -> bool) (es : list LedgerEntry) : Z :=
  usage (now t) w f es + amount t.

Definition window_reasons (t : TradeRequest) (es : list LedgerEntry) : list string :=
  let l := limits p in
  bad (assetHourly l <? would_use t 3600 (same_asset t) es) "asset_hourly_limit_exceeded" ++
  bad (assetDaily l <? would_use t 86400 (same_asset t) es) "asset_daily_limit_exceeded" ++
  bad (strategyHourly l <? would_use t 3600 (same_strategy t) es) "strategy_hourly_limit_exceeded" ++
  bad (strategyDaily l <? would_use t 86400 (same_strategy t) es) "strategy_daily_limit_exceeded".

Definition entry_of_request (t : TradeRequest) : LedgerEntry :=
  {| le_id := t_id t; le_at := now t; le_asset := tokenIn t; le_strategy := strategy t;
     le_amount := amount t |}.

(** `evaluate(t)`; each `usage` call re-reads the entries of the same instant,
    which the first read has already expired. *)
Definition evaluate (t : TradeRequest) (s : Ledger) : option (Decision * Ledger) :=
  '(es, s1) ← entries (now t) s;
  let r := (request_reasons t ++ exposure_reasons t es ++ window_reasons t es ++
            bad (ledger_has (t_id t) s1) "duplicate_trade_id")%list in
  match r with
  | _ :: _ => Some (denied r, s1)
  | [] =>
      let '(ok, s2) := ledger_reserve c (entry_of_request t) s1 in
      if ok then Some ({| allowed := true; reasons := []; reservationId := Some (t_id t) |}, s2)
      else Some (denied ["duplicate_trade_id"], s2)
  end.

(** `reserve(t)`: [None] is an exception, after which nothing has changed. *)
Definition control_reserve (t : TradeRequest) (s : Ledger) : option (Decision * Ledger) := evaluate t s.

Definition control_release (id : string) (s : Ledger) : bool * Ledger := ledger_release id s.

Definition control_commit (clock : Z) (id : string) (s : Ledger) : option (bool * Ledger) :=
  ledger_commit clock id s.
End TradingControl.

Definition sample_policy : PolicyDocument := {|
  version := "1"; effectiveAt := 0; expiresAt := 10;
  allow := {| chains := [1]; accounts := ["a"]; tokens := ["t"]; routers := ["r"];
              targets := ["x"]; selectors := ["s"]; recipients := ["a"] |};
  limits := {| perTrade := 1; assetHourly := 1; assetDaily := 1; strategyHourly := 1;
               strategyDaily := 1; totalExposure := 1; assetExposure := 1;
               concentrationBps := 1; drawdown := 1; totalLoss := 1 |};
  market := {| m_maxQuoteAge := 1; maxSlippageBps := 1; maxImpactBps := 1; maxGas := 1;
               maxFees := 1; minLiquidity := 1; maxTaxBps := 1; allowProxy := false;
               maxOracleAge := 1; requireSequencerUp := true |};
  approvalClass := "exact"; deadManAfter := 1; globalKill := false; strategyKills := [] |}.

Lemma canonicalPolicy_binds_witness :
  canonicalPolicy sample_policy =
    Some (String.append "TRADING_POLICY_V1:" (print (sorted (policy_value sample_policy)))) /\
  forall q, canonicalPolicy q = canonicalPolicy sample_policy -> q = sample_policy.
Proof.
  assert (canonicalPolicy sample_policy =
    Some (String.append "TRADING_POLICY_V1:" (print (sorted (policy_value sample_policy))))) as E
    by (vm_compute; reflexivity).
  split; [exact E|]. intros q Hq. rewrite E in Hq. exact (canonicalPolicy_binds _ _ _ Hq E).
Defined.
