(* ===== verification/RiskLimits.v ===== *)
(** What the risk checks of `src/execution/control/index.ts` guarantee: the
    conditions an allowed trade satisfies, and the exposure the reservation
    ledger can never exceed. *)
From S2P Require Import Prelude Table Canonical RiskControl.
#[local] Open Scope string_scope.
#[local] Open Scope Z_scope.

Lemma bad_nil b s : bad b s = [] <-> b = false.
Proof. by destruct b. Qed.

Lemma bad_if_some_nil {A} (o : option A) p s :
  bad_if_some o p s = [] <-> forall a, o = Some a -> p a = false.
Proof.
  destruct o as [a|]; simpl.
  - rewrite bad_nil. split; [by intros ? ? [= <-]|]. intros H. by apply H.
  - done.
Qed.

(** *** The production evaluator *)

Record production_ok (l : ProductionRiskLimits) (x : ProductionRiskInput) (es : list LedgerEntry) : Prop := {
  po_chain : x_chain x ∈ l_chains l;
  po_account : x_account x ∈ l_accounts l;
  po_router : x_router x ∈ l_routers l;
  po_tokens : x_tokenIn x ∈ l_tokens l /\ x_tokenOut x ∈ l_tokens l;
  po_per_trade : exists per, maxPerTrade l !! x_tokenIn x = Some per /\ 0 < amountIn x <= per;
  po_reserved : exists cap, maxReservedPerToken l !! x_tokenIn x = Some cap /\
                            asset_total (x_tokenIn x) es + amountIn x <= cap;
  po_slippage : x_slippageBps x <= l_maxSlippageBps l;
  po_quote_age : 0 <= x_now x - x_quoteAt x <= maxQuoteAge l;
  po_quote_blocks : 0 <= currentBlock x - quoteBlock x <= maxQuoteBlocks l;
  po_canonical : quoteBlockHash x <> "" /\ quoteBlockHash x = canonicalBlockHash x;
  po_balance : amountIn x <= tokenBalance x;
  po_gas : estimatedGasCost x + nativeGasReserve l <= nativeBalance x;
  po_daily : forall max, maxDailyNotional l = Some max ->
    exists n d, notional x = Some n /\ dailyNotional x = Some d /\ n + d <= max
}.

Lemma is_none_false {A} (o : option A) : is_none o = false <-> exists a, o = Some a.
Proof. destruct o; simpl; split; try done; [eauto|by intros [? ?]]. Qed.

Lemma daily_nil l x :
  match maxDailyNotional l with
  | None => []
  | Some max =>
      bad (is_none (notional x) || is_none (dailyNotional x)) "notional_unavailable" ++
      match notional x, dailyNotional x with
      | Some n, Some d => bad (max <? n + d) "daily_notional_exceeded"
      | _, _ => []
      end
  end%list = [] <->
  (forall max, maxDailyNotional l = Some max ->
    exists n d, notional x = Some n /\ dailyNotional x = Some d /\ n + d <= max).
Proof.
  destruct (maxDailyNotional l) as [max|]; [|done].
  rewrite app_nil, bad_nil, orb_false_iff, !is_none_false. split.
  - intros [[[n Hn] [d Hd]] H] m [= <-]. rewrite Hn, Hd, bad_nil in H. bool_hyps. eauto.
  - intros H. destruct (H max eq_refl) as (n & d & -> & -> & Hle). split; [by eauto|].
    rewrite bad_nil. by apply Z.ltb_ge.
Qed.

(** the production evaluator allows a trade exactly when every limit holds:
    allowlists, a configured per-trade and exposure cap for the input token, a
    fresh quote on the canonical chain, both balances, and the daily notional
    when one is configured; every refusal names a reason. *)
Theorem production_allowed_iff l x es :
  production_allowed l x es = true <-> production_ok l x es.
Proof.
  unfold production_allowed.
  assert (production_reasons l x es = [] <-> production_ok l x es) as <-;
    [|by destruct (production_reasons l x es)].
  unfold production_reasons. rewrite !app_nil, !bad_nil, !bad_if_some_nil, daily_nil.
  rewrite !orb_false_iff, !negb_false_iff, !is_none_false, !Z.ltb_ge, !Z.leb_gt, !includes_spec,
    !streq_spec, !streq_false. split.
  - intros (Hc & Ha & Hr & Ht & [per Hper] & [cap Hcap] & Hp & Ham & Hs & Hq & Hb & Hh & Hbal & Hgas & Hres & Hd).
    pose proof (Hp _ Hper). pose proof (Hres _ Hcap). bool_hyps.
    constructor; try done; try lia; eauto with lia.
  - intros []. destruct po_per_trade0 as (per & Hper & ?), po_reserved0 as (cap & Hcap & ?).
    rewrite Hper, Hcap. split_and!; try done; try tauto; try lia; eauto;
      intros a [= <-]; apply Z.ltb_ge; lia.
Qed.

(** *** The trading control *)

Lemma insert_row_iff r s s' :
  insert_row r s = Some s' <->
  int64 (rs_at r) && int64 (rs_amount r) && int64 (rs_expires_at r) &&
    match rs_quote_value r with Some v => int64 v | None => true end = true /\
  ledger_has (rs_id r) s = false /\ s' = set_reservations (reservations s ++ [r]) s.
Proof.
  unfold insert_row, insert, ledger_has. destruct (_ && _) eqn:E; [|by intuition].
  destruct (has rs_id (rs_id r) (reservations s)); cbn; intuition congruence.
Qed.

Section Control.
Context (sha256 : string -> string) (verify : SignedPolicyReference -> string -> bool).
Context (c : LedgerConfig) (p : PolicyDocument) (ref : SignedPolicyReference).

(** The conditions on the request alone. *)
Record request_ok (t : TradeRequest) : Prop := {
  rq_signature : exists s, canonicalPolicy p = Some s /\ sha256 s = ref_policyHash ref /\
                           verify ref (sha256 s) = true;
  rq_numeric : forall x, x ∈ numeric_inputs t -> 0 <= x;
  rq_amount : 0 < amount t <= perTrade (limits p) /\ approvalAmount t = amount t;
  rq_active : effectiveAt p <= now t < expiresAt p;
  rq_kills : globalKill p = false /\ strategy t ∉ strategyKills p;
  rq_lists : chain t ∈ chains (allow p) /\ account t ∈ accounts (allow p) /\
             (tokenIn t ∈ tokens (allow p) /\ tokenOut t ∈ tokens (allow p)) /\
             router t ∈ routers (allow p) /\ target t ∈ targets (allow p) /\
             selector t ∈ selectors (allow p) /\ recipient t ∈ recipients (allow p);
  rq_quote : 0 <= now t - quoteAt t <= m_maxQuoteAge (market p);
  rq_oracle : 0 <= now t - oracleAt t <= maxOracleAge (market p);
  rq_costs : slippageBps t <= maxSlippageBps (market p) /\ impactBps t <= maxImpactBps (market p) /\
             gas t <= maxGas (market p) /\ fees t <= maxFees (market p) /\
             minLiquidity (market p) <= liquidity t /\ taxBps t <= maxTaxBps (market p);
  rq_proxy : isProxy t = true -> allowProxy (market p) = true;
  rq_sequencer : requireSequencerUp (market p) = true -> sequencerUp t = true;
  rq_heartbeat_past : lastHeartbeat t <= now t
}.

(** The conditions on the request and the live reservations. *)
Record ledger_ok (t : TradeRequest) (es : list LedgerEntry) : Prop := {
  lo_total : portfolioExposure t + sum_by le_amount es + amount t <= totalExposure (limits p);
  lo_asset : t_assetExposure t + asset_total (tokenIn t) es + amount t <= assetExposure (limits p);
  lo_concentration : 0 < portfolioValue t /\
    (t_assetExposure t + asset_total (tokenIn t) es + amount t) * 10000
      <= concentrationBps (limits p) * portfolioValue t;
  lo_drawdown : portfolioValue t < peakValue t -> peakValue t - portfolioValue t <= drawdown (limits p);
  lo_loss : realizedLoss t + unrealizedLoss t <= totalLoss (limits p);
  lo_deadman : now t - lastHeartbeat t <= deadManAfter p;
  lo_asset_hour : usage (now t) 3600 (same_asset t) es + amount t <= assetHourly (limits p);
  lo_asset_day : usage (now t) 86400 (same_asset t) es + amount t <= assetDaily (limits p);
  lo_strategy_hour : usage (now t) 3600 (same_strategy t) es + amount t <= strategyHourly (limits p);
  lo_strategy_day : usage (now t) 86400 (same_strategy t) es + amount t <= strategyDaily (limits p)
}.

Lemma policy_signature_iff :
  policy_signature_valid sha256 verify p ref = true <->
  exists s, canonicalPolicy p = Some s /\ sha256 s = ref_policyHash ref /\ verify ref (sha256 s) = true.
Proof.
  unfold policy_signature_valid, policyHash. destruct (canonicalPolicy p) as [s|]; cbn.
  - rewrite andb_true_iff, streq_spec. split; [by eauto|]. by intros (? & [= <-] & ?).
  - split; [done|]. by intros (? & ? & _).
Qed.

Lemma numeric_nil t :
  existsb (fun x => x <? 0) (numeric_inputs t) = false <-> forall x, x ∈ numeric_inputs t -> 0 <= x.
Proof.
  rewrite <- not_true_iff_false, existsb_exists. split.
  - intros H x Hx. apply Z.le_ngt. intros Hlt. apply H. exists x.
    rewrite <- list_elem_of_In. split; [done|by apply Z.ltb_lt].
  - intros H (x & Hx & Hlt). rewrite <- list_elem_of_In in Hx. specialize (H x Hx). bool_hyps. lia.
Qed.

Lemma false_or_imp (a : bool) (P : Prop) : (a = false \/ P) <-> (a = true -> P).
Proof. destruct a; intuition congruence. Qed.

Lemma request_reasons_nil t : request_reasons sha256 verify p ref t = [] <-> request_ok t.
Proof.
  unfold request_reasons. rewrite !app_nil, !bad_nil.
  rewrite !orb_false_iff, numeric_nil, !andb_false_iff, !negb_false_iff, !andb_true_iff,
    policy_signature_iff, !Z.eqb_eq, !Z.eqb_neq, !Z.ltb_ge, !Z.leb_gt, !includes_spec, includes_false,
    (false_or_imp (isProxy t)), (false_or_imp (requireSequencerUp (market p))).
  split.
  - intros H. destruct_and! H. constructor; done || lia || tauto.
  - intros []. destruct_and!. split_and!; done || lia.
Qed.

Lemma ledger_reasons_nil t es :
  (exposure_reasons p t es ++ window_reasons p t es)%list = [] <-> ledger_ok t es.
Proof.
  unfold exposure_reasons, window_reasons, would_use. rewrite !app_nil, !bad_nil.
  rewrite !orb_false_iff, !andb_false_iff, !Z.ltb_ge, !Z.leb_gt. split.
  - intros H. destruct_and! H. constructor; try done; try lia. 
  - intros []. destruct_and!. split_and!; try done; try lia.
Qed.

(** The live reservations at an instant. *)
Definition live (t : Z) (s : Ledger) : list ResRow :=
  delete_where (fun r => bool_decide (rs_state r = R_reserved) && (rs_expires_at r <=? t)) (reservations s).

Definition row_fits (t : TradeRequest) : Prop :=
  t_id t <> "" /\ int64 (now t) && int64 (amount t) && int64 (now t + ttl c) = true.

Lemma ledger_reserve_iff t s s' :
  0 <= now t -> 0 < amount t ->
  ledger_reserve c (entry_of_request t) s = (true, s') <->
  row_fits t /\ ledger_has (t_id t) s = false /\
  s' = set_reservations (reservations s ++ [res_row (entry_of_request t) R_reserved (now t + ttl c)]) s.
Proof.
  intros Hn Ha. unfold ledger_reserve, entry_invalid, row_fits. simpl.
  assert ((now t <? 0) = false) as -> by (by apply Z.ltb_ge).
  assert ((amount t <=? 0) = false) as -> by (by apply Z.leb_gt). rewrite !orb_false_r.
  destruct (streq (t_id t) "") eqn:Eid; bool_hyps; [by intuition|].
  pose proof (insert_row_iff (res_row (entry_of_request t) R_reserved (now t + ttl c)) s) as Hi.
  simpl in Hi. rewrite andb_true_r in Hi.
  destruct (insert_row _ s) as [s1|].
  - destruct (proj1 (Hi s1) eq_refl) as (H1 & H2 & ->). intuition congruence.
  - split; [done|]. intros ((_ & H1) & H2 & ->). by pose proof (proj2 (Hi _) (conj H1 (conj H2 eq_refl))).
Qed.

(** C7: the trading control allows a request exactly when the signed policy in
    force verifies and every condition of the policy holds of the request and of
    the reservations alive at that instant, its own amount included in every
    exposure and every window; it then records exactly that reservation.  A
    refusal names a reason and leaves the live reservations as they were. *)
Theorem control_reserve_exact t s d s'
    (Hrun : control_reserve sha256 verify c p ref t s = Some (d, s')) :
  (allowed d = true <->
     request_ok t /\ ledger_ok t (map entry_of (live (now t) s)) /\ row_fits t /\
     forall r, r ∈ live (now t) s -> rs_id r <> t_id t) /\
  (if allowed d
   then reasons d = [] /\
        reservations s' = (live (now t) s ++ [res_row (entry_of_request t) R_reserved (now t + ttl c)])%list
   else reasons d <> [] /\ reservations s' = live (now t) s).
Proof.
  unfold control_reserve, evaluate, entries, expire in Hrun.
  destruct (int64 (now t)); [|done]. cbn [mbind option_bind] in Hrun.
  match type of Hrun with context [ledger_has _ ?x] => set (s1 := x) in * end.
  change (reservations s1) with (live (now t) s) in *.
  assert (ledger_has (t_id t) s1 = false <-> forall r, r ∈ live (now t) s -> rs_id r <> t_id t) as Hhas.
  { unfold ledger_has, has. change (reservations s1) with (live (now t) s).
    rewrite <- get_None. by destruct (get rs_id _ _). }
  match type of Hrun with match ?l with [] => _ | _ => _ end = _ => remember l as r eqn:Er end.
  assert (r = [] <-> request_ok t /\ ledger_ok t (map entry_of (live (now t) s)) /\
            forall r, r ∈ live (now t) s -> rs_id r <> t_id t) as Hr.
  { by rewrite Er, app_nil, app_assoc, app_nil, request_reasons_nil, ledger_reasons_nil, bad_nil, Hhas. }
  destruct r as [|r0 r].
  - destruct (proj1 Hr eq_refl) as (Hreq & Hled & Hfresh).
    assert (0 <= now t) as Hn by (apply (rq_numeric _ Hreq); apply list_elem_of_here).
    assert (0 < amount t) as Ha by apply (rq_amount _ Hreq).
    pose proof (ledger_reserve_iff t s1) as Hres.
    destruct (ledger_reserve c (entry_of_request t) s1) as [ok s2] eqn:El.
    destruct ok; injection Hrun as <- <-; simpl.
    + destruct (proj1 (Hres s2 Hn Ha) eq_refl) as (Hfit & _ & ->). by intuition.
    + split; [split; [done|]|split; [done|]].
      * intros (_ & _ & Hfit & _).
        by pose proof (proj2 (Hres _ Hn Ha) (conj Hfit (conj (proj2 Hhas Hfresh) eq_refl))).
      * unfold ledger_reserve in El. repeat case_match; by simplify_eq.
  - injection Hrun as <- <-. simpl. split; [|done].
    split; [done|]. intros (H1 & H2 & _ & H3). by discriminate (proj2 Hr (conj H1 (conj H2 H3))).
Qed.
End Control.

(** *** The exposure of a ledger used through `reserveWithin` *)

Inductive ledger_op : Type :=
  | Op_reserve (e : LedgerEntry) (perAsset : Z) (agg : Aggregate)
  | Op_release (id : string)
  | Op_commit (clock : Z) (id : string)
  | Op_entries (t : Z).

(** The ledger after a call; a call that throws changes nothing. *)
Definition apply_op (c : LedgerConfig) (op : ledger_op) (s : Ledger) : Ledger :=
  match op with
  | Op_reserve e perAsset agg => (reserveWithin c e perAsset agg s).2
  | Op_release id => (ledger_release id s).2
  | Op_commit clock id => match ledger_commit clock id s with Some (_, s') => s' | None => s end
  | Op_entries t => match entries t s with Some (_, s') => s' | None => s end
  end.

Section Exposure.
Context (c : LedgerConfig) (L : string -> Z) (V : AggregateValue).

(** Every reservation asks for at most the limit of its asset, and carries a
    valuation in the common denomination under the common maximum. *)
Definition op_limited (op : ledger_op) : Prop :=
  match op with
  | Op_reserve e perAsset agg =>
      perAsset <= L (le_asset e) /\
      exists q, agg = A_value q /\ av_denomination q = av_denomination V /\
                av_decimals q = av_decimals V /\ av_max q <= av_max V
  | _ => True
  end.

Record bounded (s : Ledger) : Prop := {
  bd_keyed : keyed rs_id (reservations s);
  bd_positive : forall r, r ∈ reservations s -> 0 < rs_amount r /\ 0 < quote_of r;
  bd_comparable : forall r, r ∈ reservations s -> incomparable V r = false;
  bd_asset : forall a, reserved_of_asset a s <= L a;
  bd_total : sum_by quote_of (reservations s) <= av_max V
}.

Definition of_asset (a : string) (r : ResRow) : Z := if streq (rs_asset r) a then rs_amount r else 0.

Lemma reserved_of_asset_sum a s : reserved_of_asset a s = sum_by (of_asset a) (reservations s).
Proof. unfold reserved_of_asset, select. by rewrite sum_by_filter. Qed.

Lemma bounded_delete p s : bounded s -> bounded (set_reservations (delete_where p (reservations s)) s).
Proof.
  intros [Hk Hp Hc Ha Ht].
  assert (forall f, (forall r, r ∈ reservations s -> 0 <= f r) ->
            sum_by f (delete_where p (reservations s)) <= sum_by f (reservations s)) as Hle.
  { intros f Hf. unfold delete_where. rewrite sum_by_filter. apply sum_by_le. intros r Hr.
    pose proof (Hf r Hr). destruct (negb (p r)); lia. }
  split; simpl.
  - by apply delete_keyed.
  - intros r [Hr _]%delete_elem. by apply Hp.
  - intros r [Hr _]%delete_elem. by apply Hc.
  - intros a. specialize (Ha a). rewrite reserved_of_asset_sum in *. simpl. etrans; [apply Hle|done].
    intros r Hr. unfold of_asset. destruct (streq _ _); [|done]. specialize (Hp r Hr). lia.
  - etrans; [apply Hle|done]. intros r Hr. specialize (Hp r Hr). lia.
Qed.

Lemma bounded_commit clock id s :
  bounded s ->
  bounded (set_reservations (update_where (is_reserved id) (committed_at clock) (reservations s)) s).
Proof.
  intros [Hk Hp Hc Ha Ht].
  assert (forall f, (forall r, f (committed_at clock r) = f r) ->
            sum_by f (update_where (is_reserved id) (committed_at clock) (reservations s))
            = sum_by f (reservations s)) as Heq.
  { intros f Hf. unfold update_where. rewrite sum_by_map. apply sum_by_ext. intros r _.
    destruct (is_reserved id r); [apply Hf|done]. }
  split; simpl.
  - by apply update_keyed.
  - intros r (x & Hx & ->)%update_elem. destruct (is_reserved id x); exact (Hp x Hx).
  - intros r (x & Hx & ->)%update_elem. destruct (is_reserved id x); exact (Hc x Hx).
  - intros a. specialize (Ha a). rewrite reserved_of_asset_sum in *. simpl. by rewrite Heq.
  - by rewrite Heq.
Qed.

Lemma bounded_reserve e perAsset q s :
  op_limited (Op_reserve e perAsset (A_value q)) -> bounded s -> 
  bounded (reserveWithin c e perAsset (A_value q) s).2.
Proof.
  intros (Hlim & q' & [= <-] & Hden & Hdec & Hmax) Hb. unfold reserveWithin.
  destruct (entry_invalid e || (perAsset <? 0)) eqn:Einv; [done|].
  destruct (aggregate_invalid c q) eqn:Eagg; [done|].
  destruct (expire (le_at e) s) as [s1|] eqn:Ee; [|done].
  assert (bounded s1) as [Hk Hp Hc Ha Ht].
  { unfold expire in Ee. destruct (int64 _); [|done]. injection Ee as <-. by apply bounded_delete. }
  destruct (within_limits e perAsset (A_value q) s1) eqn:Ew; [|by split].
  destruct (insert_row _ s1) as [s2|] eqn:Ei; [|done].
  apply insert_row_iff in Ei as (_ & Hfresh & ->). simpl in Hfresh.
  unfold within_limits in Ew. cbv zeta in Ew. unfold entry_invalid in Einv. unfold aggregate_invalid in Eagg.
  bool_hyps. split; simpl.
  - eapply (insert_keyed rs_id (valued_row e (le_at e + ttl c) (Some q))); [|exact Hk].
    unfold insert. simpl. unfold ledger_has in Hfresh. by rewrite Hfresh.
  - intros r [Hr|Hr]%elem_of_app; [by apply Hp|]. apply list_elem_of_singleton in Hr as ->. simpl.
    unfold quote_of. simpl. lia.
  - intros r [Hr|Hr]%elem_of_app; [by apply Hc|]. apply list_elem_of_singleton in Hr as ->.
    unfold incomparable. simpl. rewrite Hden, Hdec, streq_refl, Z.eqb_refl.
    apply orb_false_iff. split; [|done]. apply orb_false_iff. split; [by apply streq_false|done].
  - intros a. specialize (Ha a). rewrite reserved_of_asset_sum in *. simpl. rewrite sum_by_app.
    unfold of_asset at 2. rewrite sum_by_cons, sum_by_nil. simpl.
    destruct (streq (le_asset e) a) eqn:Ea; [|lia]. bool_hyps. subst a.
    lia.
  - rewrite sum_by_app, sum_by_cons, sum_by_nil. unfold quote_of at 2. simpl. lia.
Qed.

Lemma bounded_op op s : op_limited op -> bounded s -> bounded (apply_op c op s).
Proof.
  intros Hop Hb. destruct op as [e n agg|id|clock id|t]; simpl.
  - pose proof Hop as (_ & q & -> & _). by apply bounded_reserve.
  - by apply bounded_delete.
  - unfold ledger_commit. destruct (int64 clock); [|done]. by apply bounded_commit.
  - unfold entries, expire. destruct (int64 t); [|done]. by apply bounded_delete.
Qed.

(** C8: reservations taken through `reserveWithin`, released, committed and
    expired in any order never hold more of an asset than its limit, nor more
    value than the aggregate limit, and every live reservation stays valued in
    the common denomination. *)
Theorem exposure_bounded ops
    (HL : forall a, 0 <= L a) (HV : 0 <= av_max V) (Hops : Forall op_limited ops) :
  let s := foldl (fun s op => apply_op c op s) empty_ledger ops in
  (forall a, reserved_of_asset a s <= L a) /\ sum_by quote_of (reservations s) <= av_max V /\
  (forall r, r ∈ reservations s -> incomparable V r = false).
Proof.
  intros s. assert (bounded s) as []; [|done]. unfold s.
  assert (bounded empty_ledger) as H0.
  { split; simpl; try done; [constructor|by intros r Hr%elem_of_nil..]. }
  revert H0. generalize empty_ledger. induction Hops as [|op ops Hop Hops IH]; intros s0 H0; [done|].
  simpl. by apply IH, bounded_op.
Qed.
End Exposure.

(** *** Examples *)

Definition example_risk_policy : PolicyDocument := {|
  version := "1"; effectiveAt := 0; expiresAt := 1000000;
  allow := {| chains := [1]; accounts := ["acct"]; tokens := ["USDC"; "WETH"]; routers := ["router"];
              targets := ["target"]; selectors := ["sel"]; recipients := ["acct"] |};
  limits := {| perTrade := 100; assetHourly := 150; assetDaily := 300; strategyHourly := 150;
               strategyDaily := 300; totalExposure := 1000; assetExposure := 500;
               concentrationBps := 10000; drawdown := 50; totalLoss := 50 |};
  market := {| m_maxQuoteAge := 30; maxSlippageBps := 100; maxImpactBps := 100; maxGas := 10;
               maxFees := 10; minLiquidity := 1; maxTaxBps := 0; allowProxy := false;
               maxOracleAge := 60; requireSequencerUp := true |};
  approvalClass := "exact"; deadManAfter := 600; globalKill := false; strategyKills := ["paused"] |}.

Definition example_request : TradeRequest := {|
  t_id := "t1"; now := 1000; chain := 1; account := "acct"; tokenIn := "USDC"; tokenOut := "WETH";
  router := "router"; target := "target"; selector := "sel"; recipient := "acct"; strategy := "s";
  amount := 90; approvalAmount := 90; quoteAt := 990; slippageBps := 10; impactBps := 10; gas := 1;
  fees := 1; liquidity := 5; taxBps := 0; isProxy := false; oracleAt := 990; sequencerUp := true;
  portfolioExposure := 0; t_assetExposure := 0; portfolioValue := 1000; peakValue := 1000;
  realizedLoss := 0; unrealizedLoss := 0; lastHeartbeat := 900 |}.

Definition example_config : LedgerConfig :=
  {| ttl := 3600; aggregateQuote := Some {| denomination := "USD"; decimals := 6 |} |}.

Definition example_reference : SignedPolicyReference :=
  {| ref_policyHash := default "" (canonicalPolicy example_risk_policy); ref_signature := "sig";
     ref_keyId := None |}.

Lemma control_reserve_exact_witness :
  exists d s',
    control_reserve (fun s => s) (fun _ _ => true) example_config example_risk_policy
      example_reference example_request empty_ledger = Some (d, s') /\ allowed d = true /\
    request_ok (fun s => s) (fun _ _ => true) example_risk_policy example_reference example_request.
Proof.
  assert (exists d s', control_reserve (fun s => s) (fun _ _ => true) example_config
            example_risk_policy example_reference example_request empty_ledger = Some (d, s') /\
            allowed d = true) as (d & s' & E & Ha)
    by (eexists _, _; split; vm_compute; reflexivity).
  exists d, s'. split; [exact E|]. split; [exact Ha|].
  exact (proj1 (proj1 (proj1 (control_reserve_exact (fun s => s) (fun _ _ => true) example_config
    example_risk_policy example_reference example_request empty_ledger d s' E)) Ha)).
Defined.

Definition example_ops : list ledger_op :=
  let v n := A_value {| av_denomination := "USD"; av_decimals := 6; av_max := 100; av_value := n;
                        av_evidence := "price" |} in
  let e id t n := {| le_id := id; le_at := t; le_asset := "USDC"; le_strategy := "s"; le_amount := n |} in
  [Op_reserve (e "a" 10 60) 100 (v 60); Op_reserve (e "b" 20 60) 100 (v 60); Op_commit 30 "a";
   Op_reserve (e "c" 40 40) 100 (v 40); Op_release "c"].

Lemma exposure_bounded_witness :
  let s := foldl (fun s op => apply_op example_config op s) empty_ledger example_ops in
  map rs_id (reservations s) = ["a"] /\ reserved_of_asset "USDC" s <= 100.
Proof.
  split; [vm_compute; reflexivity|].
  refine (proj1 (exposure_bounded example_config (fun _ => 100)
    {| av_denomination := "USD"; av_decimals := 6; av_max := 100; av_value := 1; av_evidence := "" |}
    example_ops _ _ _) "USDC").
  - intros _. lia.
  - simpl. lia.
  - repeat (constructor; [first [exact I | split; [simpl; lia|eexists; split_and!; simpl; done]]|]).
    constructor.
Defined.

(** The answer of `release` does not say whether it released: it is false even
    when the row was there and is gone. *)
Lemma release_reports_false :
  let s := (ledger_reserve example_config (entry_of_request example_request) empty_ledger).2 in
  ledger_has "t1" s = true /\ ledger_release "t1" s = (false, empty_ledger).
Proof. vm_compute. done. Qed.
