(* ===== verification/Approvals.v ===== *)
(** `src/execution/approvals/index.ts`: the approval engine.

    The engine keeps three tables: requests, decisions (append-only, one per
    operator and request, nonces unique) and audit events (append-only).  A JSON
    column holds the value its text parses to.  A method is a function of the
    store and of the clock reading it works with, and answers an error message or
    a result; a method that runs in a transaction leaves the store as it was when
    it throws.  The `get` a method ends with reads the clock again, so it takes a
    second reading. *)
From S2P Require Import Prelude Table Canonical.
#[local] Open Scope string_scope.
#[local] Open Scope Z_scope.

(** *** Data *)

Definition TYPES : list string :=
  ["sign"; "broadcast"; "allowance"; "bridge"; "withdraw"; "policy-change"].

Inductive ApprovalStatus : Type := pending | approved | denied | expired | revoked | consumed.

#[export] Instance ApprovalStatus_eq_dec : EqDecision ApprovalStatus.
Proof. solve_decision. Defined.

Record BoundTransaction : Type := {
  chain : string; serializedTransaction : value; intentHash : string; policyHash : string;
  policyVersion : string; simulationHash : string; simulationBlock : string;
  simulationState : string; account : string; nonce : string; value_ : string;
  calldata : string; router : string
}.

Record ApprovalRequestInput : Type := {
  in_id : string; in_type : string; proposerId : string; in_tx : BoundTransaction;
  in_expiresAt : Z; displayImpact : option string
}.

Record Operator : Type := { op_id : string; roles : list string; scopes : list string }.

Record DecisionInput : Type := {
  operatorId : string; approve : bool; in_challenge : string; in_nonce : string;
  expectedRevision : Z; timestamp : option Z; proof : option string; reason : option string
}.

Record DecisionProof : Type := {
  pf_input : DecisionInput; pf_requestId : string; pf_revision : Z; pf_timestamp : Z;
  pf_configVersion : string; pf_configHash : string
}.

(** *** Tables *)

Record ReqRow : Type := {
  rq_id : string; rq_type : string; rq_proposer_id : string; rq_binding : value; rq_tx : value;
  rq_display_impact : option string; rq_expires_at : Z; rq_quorum : Z; rq_challenge : string;
  rq_status : ApprovalStatus; rq_revision : Z; rq_created_at : Z; rq_config_version : string;
  rq_config_hash : string
}.

Record DecRow : Type := {
  dc_request_id : string; dc_operator_id : string; dc_approve : bool; dc_challenge : string;
  dc_nonce : string; dc_reason : option string; dc_created_at : Z; dc_proof : option string
}.

Record EvRow : Type := {
  ev_request_id : string; ev_event : string; ev_operator_id : option string;
  ev_reason : option string; ev_binding_hash : string; ev_revision : Z; ev_created_at : Z
}.

Record ApprovalStore : Type := {
  requests : list ReqRow; decisions : list DecRow; events : list EvRow
}.

Definition empty_approvals : ApprovalStore := {| requests := []; decisions := []; events := [] |}.

Definition set_requests (t : list ReqRow) (s : ApprovalStore) : ApprovalStore :=
  {| requests := t; decisions := decisions s; events := events s |}.

(** A method: the error it throws or its result, and the store. *)
Definition answer (A : Type) : Type := ((string + A) * ApprovalStore)%type.

Definition bind_answer {A B} (m : answer A) (f : A -> ApprovalStore -> answer B) : answer B :=
  match m with
  | (inr a, s) => f a s
  | (inl e, s) => (inl e, s)
  end.

(** BEGIN IMMEDIATE ... COMMIT, or ROLLBACK when the body throws. *)
Definition in_transaction {A} (body : ApprovalStore -> answer A) (s : ApprovalStore) : answer A :=
  match body s with
  | (inr a, s') => (inr a, s')
  | (inl e, _) => (inl e, s)
  end.

(** `if (b) throw Error(msg)` followed by the rest. *)
Definition throw_when {A} (b : bool) (msg : string) (s : ApprovalStore) (k : answer A) : answer A :=
  if b then (inl msg, s) else k.

(** *** Validation *)

Definition white_space (c : Ascii.ascii) : bool :=
  let n := Ascii.nat_of_ascii c in ((9 <=? n) && (n <=? 13) || (n =? 32))%nat.

(** `text(v, n, max)`: true when it throws. *)
Definition text_invalid (v : string) (max : Z) : bool :=
  all_chars white_space v || (max <? Z.of_nat (String.length v)).

(** The first of the named texts that is invalid, as its error message. *)
Fixpoint first_invalid (max : Z) (l : list (string * string)) : option string :=
  match l with
  | [] => None
  | (name, v) :: l' => if text_invalid v max then Some ("Invalid " ++ name) else first_invalid max l'
  end.

Definition first_error (l : list (option string)) : option string :=
  fold_right (fun e k => match e with Some m => Some m | None => k end) None l.

Definition canonical_transaction (v : value) : bool :=
  match v with
  | V_object fs => forallb (fun k => existsb (fun f => streq (fst f) k) fs) ["to"; "data"; "value"; "nonce"]
  | _ => false
  end.

(** `validate(i)`: the message of the error it throws, if any. *)
Definition validate (i : ApprovalRequestInput) : option string :=
  let t := in_tx i in
  first_error [
    first_invalid 128 [("request id", in_id i); ("proposer id", proposerId i); ("chain", chain t)];
    first_invalid 256 [("intentHash hash", intentHash t); ("policyHash hash", policyHash t);
                       ("simulationHash hash", simulationHash t)];
    first_invalid 8192 [("policyVersion", policyVersion t); ("simulationBlock", simulationBlock t);
                        ("simulationState", simulationState t); ("account", account t);
                        ("nonce", nonce t); ("value", value_ t); ("calldata", calldata t);
                        ("router", router t)];
    if isSafeInteger (in_expiresAt i) then None else Some "Invalid expiry";
    if canonical_transaction (serializedTransaction t) then None
    else Some "Invalid canonical transaction"].

(** *** The engine *)

Section Engine.
Context (sha256 : string -> string) (verify : DecisionProof -> bool).
Context (operators : list Operator) (configVersion configHash : string).

Definition canonicalHash (v : value) : option string :=
  t ← canonicalSerialize v; Some (sha256 ("approval-v1" ++ String Ascii.zero t)).

Definition boundKeys (i : BoundTransaction) : option value :=
  h ← canonicalHash (serializedTransaction i);
  Some (V_object [
    ("chain", V_string (chain i)); ("transactionHash", V_string h);
    ("intentHash", V_string (intentHash i)); ("policyHash", V_string (policyHash i));
    ("policyVersion", V_string (policyVersion i)); ("simulationHash", V_string (simulationHash i));
    ("simulationBlock", V_string (simulationBlock i));
    ("simulationState", V_string (simulationState i)); ("account", V_string (account i));
    ("nonce", V_string (nonce i)); ("value", V_string (value_ i));
    ("calldata", V_string (calldata i)); ("router", V_string (router i))]).

Definition raw (id : string) (s : ApprovalStore) : option ReqRow := get rq_id id (requests s).

(** `event(...)` *)
Definition event (id ev : string) (operator reason : option string) (binding : value) (revision at_ : Z)
    (s : ApprovalStore) : answer unit :=
  match canonicalHash binding with
  | None => (inl "Transaction is not serializable", s)
  | Some h =>
      (inr tt, {| requests := requests s; decisions := decisions s;
                  events := (events s ++ [{| ev_request_id := id; ev_event := ev;
                    ev_operator_id := operator; ev_reason := reason; ev_binding_hash := h;
                    ev_revision := revision; ev_created_at := at_ |}])%list |})
  end.

Definition with_status (st : ApprovalStatus) (r : ReqRow) : ReqRow :=
  {| rq_id := rq_id r; rq_type := rq_type r; rq_proposer_id := rq_proposer_id r;
     rq_binding := rq_binding r; rq_tx := rq_tx r; rq_display_impact := rq_display_impact r;
     rq_expires_at := rq_expires_at r; rq_quorum := rq_quorum r; rq_challenge := rq_challenge r;
     rq_status := st; rq_revision := rq_revision r + 1; rq_created_at := rq_created_at r;
     rq_config_version := rq_config_version r; rq_config_hash := rq_config_hash r |}.

(** WHERE id=? AND revision=? AND status IN (...) *)
Definition at_revision (id : string) (revision : Z) (sts : list ApprovalStatus) (r : ReqRow) : bool :=
  bool_decide (rq_id r = id) && ((rq_revision r =? revision) && includes sts (rq_status r)).

Definition all_statuses : list ApprovalStatus := [pending; approved; denied; expired; revoked; consumed].

(** UPDATE ... SET status=st, revision=revision+1; the number of rows changed. *)
Definition update_status (id : string) (revision : Z) (sts : list ApprovalStatus) (st : ApprovalStatus)
    (s : ApprovalStore) : nat * ApprovalStore :=
  (changes (at_revision id revision sts) (requests s),
   set_requests (update_where (at_revision id revision sts) (with_status st) (requests s)) s).

(** `expire(r)` *)
Definition expire (r : ReqRow) (now : Z) (s : ApprovalStore) : answer unit :=
  let '(n, s1) := update_status (rq_id r) (rq_revision r) [pending; approved] expired s in
  if (n =? 0)%nat then (inr tt, s1)
  else event (rq_id r) "expired" None (Some "deadline reached") (rq_binding r) (rq_revision r + 1) now s1.

(** The `transactionHash` field of a binding. *)
Definition transactionHash (b : value) : option string :=
  match b with
  | V_object fs =>
      match List.find (fun f => streq (fst f) "transactionHash") fs with
      | Some (_, V_string h) => Some h
      | _ => None
      end
  | _ => None
  end.

(** `map(r)`: the row itself is the record. *)
Definition map_row (r : ReqRow) : string + ReqRow :=
  if bool_decide (canonicalHash (rq_tx r) = transactionHash (rq_binding r))
  then inr r else inl "Corrupt transaction binding".

Definition open_status (st : ApprovalStatus) : bool :=
  bool_decide (st = pending) || bool_decide (st = approved).

(** `get(id)` *)
Definition get_request (id : string) (now : Z) (s : ApprovalStore) : answer (option ReqRow) :=
  match raw id s with
  | None => (inr None, s)
  | Some r =>
      bind_answer
        (if open_status (rq_status r) && (rq_expires_at r <=? now)
         then in_transaction (expire r now) s else (inr tt, s))
        (fun _ s' =>
           match raw id s' with
           | Some r' => (match map_row r' with inr x => inr (Some x) | inl e => inl e end, s')
           | None => (inl "Unknown approval", s')
           end)
  end.

(** `operator(id, type)`: true when the operator may decide on the type. *)
Definition may_approve (type : string) (o : Operator) : bool :=
  includes (roles o) "approver" && (includes (scopes o) "*" || includes (scopes o) type).

Definition operator_ok (id type : string) : bool :=
  match List.find (fun o => streq (op_id o) id) operators with
  | Some o => may_approve type o
  | None => false
  end.

(** The operators that may decide on the request. *)
Definition eligible (proposer type : string) : nat :=
  length (List.filter (fun o => negb (streq (op_id o) proposer) && may_approve type o) operators).

Record RequestOptions : Type := { quorum : Z; has_challenge : bool }.

(** `request(input, options)`; [challenge] is what `randomBytes` drew. *)
Definition request (input : ApprovalRequestInput) (o : RequestOptions) (challenge : string)
    (now now' : Z) (s : ApprovalStore) : answer (option ReqRow) :=
  match validate input with
  | Some e => (inl e, s)
  | None =>
      throw_when (has_challenge o) "Caller-supplied challenge is forbidden" s (
      throw_when (negb (includes TYPES (in_type input))) "Invalid request type" s (
      throw_when ((quorum o <? 1) || (Z.of_nat (eligible (proposerId input) (in_type input)) <? quorum o))
        "Invalid or infeasible quorum" s (
      throw_when (in_expiresAt input <=? now) "Request already expired" s (
      match canonicalSerialize (serializedTransaction (in_tx input)), boundKeys (in_tx input) with
      | Some _, Some binding =>
          let r := {| rq_id := in_id input; rq_type := in_type input;
                      rq_proposer_id := proposerId input; rq_binding := sorted binding;
                      rq_tx := sorted (serializedTransaction (in_tx input));
                      rq_display_impact := displayImpact input; rq_expires_at := in_expiresAt input;
                      rq_quorum := quorum o; rq_challenge := challenge; rq_status := pending;
                      rq_revision := 0; rq_created_at := now; rq_config_version := configVersion;
                      rq_config_hash := configHash |} in
          throw_when (has rq_challenge challenge (requests s)) "UNIQUE constraint failed" s (
          match insert rq_id r (requests s) with
          | None => (inl "UNIQUE constraint failed", s)
          | Some t =>
              bind_answer (event (in_id input) "created" None None (sorted binding) 0 now (set_requests t s))
                (fun _ s' => get_request (in_id input) now' s')
          end)
      | _, _ => (inl "Transaction is not serializable", s)
      end))))
  end.

Definition status_name (st : ApprovalStatus) : string :=
  match st with
  | pending => "pending" | approved => "approved" | denied => "denied" | expired => "expired"
  | revoked => "revoked" | consumed => "consumed"
  end.

(** The proof the verifier sees. *)
Definition decision_proof (r : ReqRow) (input : DecisionInput) (at_ : Z) : DecisionProof :=
  {| pf_input := input; pf_requestId := rq_id r; pf_revision := expectedRevision input;
     pf_timestamp := at_; pf_configVersion := rq_config_version r; pf_configHash := rq_config_hash r |}.

(** The guards of `decide`, in order: the error it throws, if any. *)
Definition decide_error (r : ReqRow) (input : DecisionInput) (now : Z) (s : ApprovalStore) : option string :=
  let at_ := default now (timestamp input) in
  if rq_expires_at r <=? now then Some "Approval expired"
  else if negb (bool_decide (rq_status r = pending))
  then Some ("Approval is " ++ status_name (rq_status r))
  else if negb (rq_revision r =? expectedRevision input) then Some "Revision conflict"
  else if streq (operatorId input) (rq_proposer_id r) then Some "Self-approval is forbidden"
  else if negb (operator_ok (operatorId input) (rq_type r))
  then Some "Operator lacks approver role or scope"
  else if negb (streq (in_challenge input) (rq_challenge r)) then Some "Challenge mismatch"
  else if negb (isSafeInteger at_) || (300000 <? Z.abs (now - at_)) then Some "Invalid proof timestamp"
  else match truthy (proof input) with
  | None => Some "Invalid decision proof"
  | Some _ =>
      if negb (verify (decision_proof r input at_)) then Some "Invalid decision proof"
      else if existsb (fun d => streq (dc_request_id d) (rq_id r) &&
                                streq (dc_operator_id d) (operatorId input)) (decisions s)
      then Some "Distinct operator required"
      else if existsb (fun d => streq (dc_nonce d) (in_nonce input)) (decisions s)
      then Some "Decision nonce replay"
      else None
  end.

Definition decision_row (r : ReqRow) (input : DecisionInput) (now : Z) : DecRow :=
  {| dc_request_id := rq_id r; dc_operator_id := operatorId input; dc_approve := approve input;
     dc_challenge := in_challenge input; dc_nonce := in_nonce input; dc_reason := reason input;
     dc_created_at := now; dc_proof := proof input |}.

Definition approvals_of (id : string) (ds : list DecRow) : list DecRow :=
  List.filter (fun d => streq (dc_request_id d) id && dc_approve d) ds.

(** The transaction of `decide`. *)
Definition decide_body (id : string) (input : DecisionInput) (now : Z) (s : ApprovalStore) : answer unit :=
  match raw id s with
  | None => (inl "Unknown approval", s)
  | Some r =>
      match decide_error r input now s with
      | Some e => (inl e, s)
      | None =>
          let ds := (decisions s ++ [decision_row r input now])%list in
          let s1 := {| requests := requests s; decisions := ds; events := events s |} in
          let count := Z.of_nat (length (approvals_of id ds)) in
          let st := if negb (approve input) then denied
                    else if rq_quorum r <=? count then approved else pending in
          let '(_, s2) := update_status id (expectedRevision input) all_statuses st s1 in
          if bool_decide (st = pending) then (inr tt, s2)
          else event id (status_name st) (Some (operatorId input)) (reason input) (rq_binding r)
                 (expectedRevision input + 1) now s2
      end
  end.

(** `decide(id, input)` *)
Definition decide (id : string) (input : DecisionInput) (now now' : Z) (s : ApprovalStore) :
    answer (option ReqRow) :=
  throw_when (text_invalid (in_nonce input) 256) "Invalid decision nonce" s (
  bind_answer (in_transaction (decide_body id input now) s) (fun _ s' => get_request id now' s')).

(** The transaction of `revoke`. *)
Definition revoke_body (id operator why : string) (revision now : Z) (s : ApprovalStore) : answer unit :=
  match raw id s with
  | None => (inl "Unknown approval", s)
  | Some r =>
      throw_when (negb (operator_ok operator (rq_type r))) "Operator lacks approver role or scope" s (
      throw_when (negb (rq_revision r =? revision)) "Revision conflict" s (
      throw_when (negb (open_status (rq_status r))) ("Approval is " ++ status_name (rq_status r)) s (
      let '(n, s1) := update_status id revision [pending; approved] revoked s in
      throw_when (negb (n =? 1)%nat) "Revision conflict" s1 (
      event id "revoked" (Some operator) (Some why) (rq_binding r) (revision + 1) now s1))))
  end.

(** `revoke(id, input)` *)
Definition revoke (id operator why : string) (revision now now' : Z) (s : ApprovalStore) :
    answer (option ReqRow) :=
  throw_when (text_invalid why 2048) "Invalid reason" s (
  bind_answer (in_transaction (revoke_body id operator why revision now) s)
    (fun _ s' => get_request id now' s')).

(** The transaction of `consume`, past the deadline check. *)
Definition consume_body (r : ReqRow) (input : BoundTransaction) (now : Z) (s : ApprovalStore) : answer unit :=
  throw_when (negb (bool_decide (rq_status r = approved))) ("Approval is " ++ status_name (rq_status r)) s (
  match boundKeys input ≫= canonicalSerialize with
  | None => (inl "Transaction is not serializable", s)
  | Some text =>
      throw_when (negb (bool_decide (canonicalSerialize (rq_binding r) = Some text)))
        "Exact transaction mismatch" s (
      let '(n, s1) := update_status (rq_id r) (rq_revision r) [approved] consumed s in
      throw_when (negb (n =? 1)%nat) "Approval consumption conflict" s1 (
      event (rq_id r) "consumed" None None (rq_binding r) (rq_revision r + 1) now s1))
  end).

(** `consume(id, input)`: past the deadline the expiry is committed before the
    throw, and the handler does not roll it back. *)
Definition consume (id : string) (input : BoundTransaction) (now now' : Z) (s : ApprovalStore) :
    answer (option ReqRow) :=
  match raw id s with
  | None => (inl "Unknown approval", s)
  | Some r =>
      if rq_expires_at r <=? now then
        bind_answer (in_transaction (expire r now) s) (fun _ s' => (inl "Approval expired", s'))
      else
        bind_answer (in_transaction (consume_body r input now) s) (fun _ s' => get_request id now' s')
  end.

(** `decisions(id)` and `audit(id)` *)
Definition decisions_of (id : string) (s : ApprovalStore) : list DecRow :=
  List.filter (fun d => streq (dc_request_id d) id) (decisions s).

Definition audit (id : string) (s : ApprovalStore) : list EvRow :=
  List.filter (fun e => streq (ev_request_id e) id) (events s).
End Engine.
