(* ===== verification/ApprovalSafety.v ===== *)
(** What the approval engine of `src/execution/approvals/index.ts` guarantees of
    any sequence of calls: a request is approved only by a quorum of distinct
    eligible operators other than its proposer, each with a verified proof; a
    request moves only along its state machine and is consumed at most once, for
    exactly the transaction it was made for. *)
From S2P Require Import Prelude Table Canonical Approvals.
#[local] Open Scope string_scope.
#[local] Open Scope Z_scope.

(** *** The state machine *)

Inductive transition : ApprovalStatus -> ApprovalStatus -> Prop :=
  | tr_pending st : st = pending \/ st = approved \/ st = denied \/ st = expired \/ st = revoked ->
      transition pending st
  | tr_approved st : st = expired \/ st = revoked \/ st = consumed -> transition approved st.

(** One recorded change: a new status, the next revision, nothing else. *)
Definition move (r r' : ReqRow) : Prop :=
  exists st, transition (rq_status r) st /\ r' = with_status st r.

Definition evolves (s s' : ApprovalStore) : Prop :=
  forall id r, raw id s = Some r -> exists r', raw id s' = Some r' /\ rtc move r r'.

#[export] Instance evolves_refl : Reflexive evolves.
Proof. intros s id r Hr. exists r. by split; [|apply rtc_refl]. Qed.

#[export] Instance evolves_trans : Transitive evolves.
Proof.
  intros s1 s2 s3 H12 H23 id r Hr. destruct (H12 _ _ Hr) as (r2 & Hr2 & M1).
  destruct (H23 _ _ Hr2) as (r3 & Hr3 & M2). exists r3. split; [done|by etrans].
Qed.

Lemma raw_same s s' id : requests s' = requests s -> raw id s' = raw id s.
Proof. unfold raw. by intros ->. Qed.

Lemma approval_evolves_same s s' : requests s' = requests s -> evolves s s'.
Proof. intros E id r Hr. exists r. rewrite (raw_same _ _ _ E). by split; [|apply rtc_refl]. Qed.

Lemma raw_id id s r : raw id s = Some r -> r ∈ requests s /\ rq_id r = id.
Proof. apply get_Some. Qed.

Lemma raw_update id rev sts st s x :
  raw x (update_status id rev sts st s).2 =
  (fun r => if at_revision id rev sts r then with_status st r else r) <$> raw x s.
Proof. unfold raw, update_status. simpl. by rewrite update_get. Qed.

Lemma evolves_update id rev sts st s :
  (forall r, raw id s = Some r -> at_revision id rev sts r = true -> transition (rq_status r) st) ->
  evolves s (update_status id rev sts st s).2.
Proof.
  intros Ht x r Hr. rewrite raw_update, Hr. cbn. eexists. split; [done|].
  destruct (at_revision id rev sts r) eqn:E; [|by apply rtc_refl].
  apply rtc_once. exists st. split; [|done]. apply Ht; [|done].
  pose proof (raw_id _ _ _ Hr) as [_ <-]. unfold at_revision in E. bool_hyps. congruence.
Qed.

Section Engine.
Context (sha256 : string -> string) (verify : DecisionProof -> bool).
Context (operators : list Operator) (configVersion configHash : string).

(** *** The calls *)

Inductive call : Type :=
  | C_request (input : ApprovalRequestInput) (o : RequestOptions) (challenge : string) (now now' : Z)
  | C_decide (id : string) (input : DecisionInput) (now now' : Z)
  | C_revoke (id operator why : string) (revision now now' : Z)
  | C_consume (id : string) (input : BoundTransaction) (now now' : Z)
  | C_get (id : string) (now : Z).

Definition perform (c : call) (s : ApprovalStore) : answer (option ReqRow) :=
  match c with
  | C_request input o ch now now' => request sha256 operators configVersion configHash input o ch now now' s
  | C_decide id input now now' => decide sha256 verify operators id input now now' s
  | C_revoke id op why rev now now' => revoke sha256 operators id op why rev now now' s
  | C_consume id input now now' => consume sha256 id input now now' s
  | C_get id now => get_request sha256 id now s
  end.

(** *** The invariant *)

(** What is known of a recorded decision. *)
Definition decision_ok (s : ApprovalStore) (d : DecRow) : Prop :=
  exists r input at_,
    raw (dc_request_id d) s = Some r /\ dc_operator_id d <> rq_proposer_id r /\
    operator_ok operators (dc_operator_id d) (rq_type r) = true /\
    operatorId input = dc_operator_id d /\ approve input = dc_approve d /\
    in_challenge input = rq_challenge r /\
    verify (decision_proof r input at_) = true.

Record inv (s : ApprovalStore) : Prop := {
  iv_keyed : keyed rq_id (requests s);
  iv_quorum : forall r, r ∈ requests s -> rq_status r = approved \/ rq_status r = consumed ->
    rq_quorum r <= Z.of_nat (length (approvals_of (rq_id r) (decisions s)));
  iv_distinct : NoDup (map (fun d => (dc_request_id d, dc_operator_id d)) (decisions s));
  iv_nonces : NoDup (map dc_nonce (decisions s));
  iv_decisions : forall d, d ∈ decisions s -> decision_ok s d
}.

(** The fields a decision was checked against never change. *)
Lemma decision_ok_mono s s' d : evolves s s' -> decision_ok s d -> decision_ok s' d.
Proof.
  intros Hev (r & input & at_ & Hr & H). destruct (Hev _ _ Hr) as (r' & Hr' & Hm).
  exists r', input, at_. split; [done|].
  assert (rq_proposer_id r' = rq_proposer_id r /\ rq_type r' = rq_type r /\ rq_challenge r' = rq_challenge r /\
          rq_id r' = rq_id r /\ rq_config_version r' = rq_config_version r /\
          rq_config_hash r' = rq_config_hash r) as (E1 & E2 & E3 & E4 & E5 & E6).
  { clear Hr Hr' H. induction Hm as [r|r1 r2 r3 (st & _ & ->) _ IH]; [done|]. exact IH. }
  unfold decision_proof in *. by rewrite E1, E2, E3, E4, E5, E6.
Qed.

Lemma inv_same s s' : requests s' = requests s -> decisions s' = decisions s -> inv s -> inv s'.
Proof.
  intros Er Ed [H1 H2 H3 H4 H5]. split; rewrite ?Er, ?Ed; try done.
  intros d Hd. eapply decision_ok_mono; [by apply approval_evolves_same|by apply H5].
Qed.

Lemma inv_update id rev sts st s :
  (forall r, raw id s = Some r -> at_revision id rev sts r = true -> transition (rq_status r) st) ->
  (forall r, raw id s = Some r -> at_revision id rev sts r = true -> st = approved \/ st = consumed ->
     rq_quorum r <= Z.of_nat (length (approvals_of id (decisions s)))) ->
  inv s -> inv (update_status id rev sts st s).2.
Proof.
  intros Ht Hq [H1 H2 H3 H4 H5]. split; simpl; try done.
  - by apply update_keyed.
  - intros r (x & Hx & ->)%update_elem. pose proof (keyed_get rq_id _ _ H1 Hx) as Hg.
    destruct (at_revision id rev sts x) eqn:E; [|by apply H2]. simpl. intros Hst.
    assert (rq_id x = id) as <- by (unfold at_revision in E; by bool_hyps). by apply Hq.
  - intros d Hd. eapply decision_ok_mono; [by apply evolves_update|by apply H5].
Qed.

(** A step of the store: the invariant survives and rows only move. *)
Definition good (s s' : ApprovalStore) : Prop := inv s' /\ evolves s s'.

Lemma event_same id ev op why b rev now s :
  requests (event sha256 id ev op why b rev now s).2 = requests s /\
  decisions (event sha256 id ev op why b rev now s).2 = decisions s.
Proof. unfold event. by destruct (canonicalHash sha256 b). Qed.

Lemma good_event id ev op why b rev now s s1 :
  good s s1 -> good s (event sha256 id ev op why b rev now s1).2.
Proof.
  intros [Hi He]. destruct (event_same id ev op why b rev now s1) as [Er Ed].
  split; [by eapply inv_same|]. etrans; [done|by apply approval_evolves_same].
Qed.

Lemma good_refl s : inv s -> good s s.
Proof. by split. Qed.

Lemma good_trans s1 s2 s3 : good s1 s2 -> good s2 s3 -> good s1 s3.
Proof. intros [_ H1] [H2 H3]. split; [done|by etrans]. Qed.

Lemma good_transaction {A} (body : ApprovalStore -> answer A) s :
  inv s -> (forall a s', body s = (inr a, s') -> good s s') -> good s (in_transaction body s).2.
Proof.
  intros Hi Hb. unfold in_transaction. destruct (body s) as [[e|a] s'] eqn:E; simpl; [by apply good_refl|by eapply Hb].
Qed.

Lemma good_bind {A B} (m : answer A) (f : A -> ApprovalStore -> answer B) s :
  good s m.2 -> (forall a s', inv s' -> good s' (f a s').2) -> good s (bind_answer m f).2.
Proof.
  destruct m as [[e|a] s1]; simpl; [done|]. intros Hg Hf. eapply good_trans; [done|]. apply Hf, Hg.
Qed.

Lemma good_when {A} b msg s s0 (k : answer A) :
  good s s0 -> (b = false -> good s k.2) -> good s (throw_when b msg s0 k).2.
Proof. destruct b; simpl; auto. Qed.

(** *** Each call is a good step *)

Lemma transition_closed sts st r id rev :
  (forall st0, st0 ∈ sts -> transition st0 st) -> at_revision id rev sts r = true ->
  transition (rq_status r) st.
Proof. intros H E. unfold at_revision in E. bool_hyps. by apply H. Qed.

Lemma open_transition st0 st : st = expired \/ st = revoked -> st0 ∈ [pending; approved] -> transition st0 st.
Proof.
  intros Hst [->|[->|[]%elem_of_nil]%elem_of_cons]%elem_of_cons; constructor; tauto.
Qed.

Lemma good_close id rev st s :
  st = expired \/ st = revoked -> inv s -> good s (update_status id rev [pending; approved] st s).2.
Proof.
  intros Hst Hi. split.
  - apply inv_update; [|by intros r _ _ [-> | ->]; destruct Hst|done].
    intros r _. apply transition_closed. intros st0. by apply open_transition.
  - apply evolves_update. intros r _. apply transition_closed. intros st0. by apply open_transition.
Qed.

Lemma good_expire r now s : inv s -> good s (expire sha256 r now s).2.
Proof.
  intros Hi. unfold expire. pose proof (good_close (rq_id r) (rq_revision r) expired s (or_introl eq_refl) Hi) as Hg.
  destruct (update_status _ _ _ _ s) as [n s1]. simpl in Hg.
  destruct (n =? 0)%nat; [done|by apply good_event].
Qed.

Lemma good_get id now s : inv s -> good s (get_request sha256 id now s).2.
Proof.
  intros Hi. unfold get_request. destruct (raw id s) as [r|]; [|by apply good_refl].
  apply good_bind.
  - destruct (_ && _); [|by apply good_refl]. apply good_transaction; [done|].
    intros a s' E. pose proof (good_expire r now s Hi) as Hg. by rewrite E in Hg.
  - intros _ s' Hi'. destruct (raw id s'); by apply good_refl.
Qed.

Lemma good_revoke id op why rev now now' s :
  inv s -> good s (revoke sha256 operators id op why rev now now' s).2.
Proof.
  intros Hi. unfold revoke. apply good_when; [by apply good_refl|intros _].
  apply good_bind; [|intros _ s'; apply good_get]. apply good_transaction; [done|].
  intros [] s' E. replace s' with (revoke_body sha256 operators id op why rev now s).2 by (by rewrite E).
  clear E. unfold revoke_body. destruct (raw id s) as [r|]; [|by apply good_refl].
  do 3 (apply good_when; [by apply good_refl|intros _]).
  pose proof (good_close id rev revoked s (or_intror eq_refl) Hi) as Hg.
  destruct (update_status _ _ _ _ s) as [n s1]. simpl in Hg.
  apply good_when; [done|intros _]. by apply good_event.
Qed.

Lemma at_revision_keyed id rev sts s r :
  raw id s = Some r -> forall x, raw id s = Some x -> at_revision id rev sts x = true -> x = r.
Proof. congruence. Qed.

Lemma good_consume id input now now' s : inv s -> good s (consume sha256 id input now now' s).2.
Proof.
  intros Hi. unfold consume. destruct (raw id s) as [r|] eqn:Hr; [|by apply good_refl].
  destruct (rq_expires_at r <=? now).
  - apply good_bind; [|by intros _ s' Hi'; apply good_refl]. apply good_transaction; [done|].
    intros a s' E. pose proof (good_expire r now s Hi) as Hg. by rewrite E in Hg.
  - apply good_bind; [|intros _ s'; apply good_get]. apply good_transaction; [done|].
    intros [] s' E. replace s' with (consume_body sha256 r input now s).2 by (by rewrite E). clear E.
    unfold consume_body. apply good_when; [by apply good_refl|intros Hst]. bool_hyps.
    destruct (_ ≫= _) as [text|]; [|by apply good_refl].
    apply good_when; [by apply good_refl|intros _].
    assert (good s (update_status (rq_id r) (rq_revision r) [approved] consumed s).2) as Hg.
    { pose proof (raw_id _ _ _ Hr) as [Hin Hid]. rewrite Hid.
      split; [apply inv_update|apply evolves_update]; try done.
      - intros x _. apply transition_closed. intros st0 ->%list_elem_of_singleton. constructor. tauto.
      - intros x Hx Ex _. assert (x = r) as -> by congruence. rewrite <- Hid. apply (iv_quorum _ Hi); auto.
      - intros x _. apply transition_closed. intros st0 ->%list_elem_of_singleton. constructor. tauto. }
    destruct (update_status _ _ _ _ s) as [n s1]. simpl in Hg.
    apply good_when; [done|intros _]. by apply good_event.
Qed.

Lemma approvals_of_app id ds d :
  (length (approvals_of id ds) <= length (approvals_of id (ds ++ [d])))%nat.
Proof. unfold approvals_of. rewrite List.filter_app, length_app. lia. Qed.

Lemma no_pair (ds : list DecRow) (p : DecRow -> bool) d :
  existsb p ds = false -> d ∈ ds -> p d = false.
Proof.
  intros H Hd. apply not_true_is_false. intros Hp. apply (not_true_iff_false (existsb p ds)); [done|].
  apply existsb_exists. exists d. by rewrite <- list_elem_of_In.
Qed.

(** Recording a decision the guards let through. *)
Lemma good_record r input now s :
  inv s -> raw (rq_id r) s = Some r -> decide_error verify operators r input now s = None ->
  good s {| requests := requests s; decisions := (decisions s ++ [decision_row r input now])%list;
            events := events s |}.
Proof.
  intros [H1 H2 H3 H4 H5] Hr He. unfold decide_error in He. cbv zeta in He.
  destruct (rq_expires_at r <=? now); [done|].
  destruct (negb (bool_decide (rq_status r = pending))) eqn:Est; [done|].
  destruct (negb (rq_revision r =? expectedRevision input)) eqn:Erev; [done|].
  destruct (streq (operatorId input) (rq_proposer_id r)) eqn:Eself; [done|].
  destruct (negb (operator_ok operators (operatorId input) (rq_type r))) eqn:Eop; [done|].
  destruct (negb (streq (in_challenge input) (rq_challenge r))) eqn:Ech; [done|].
  destruct (_ || _); [done|]. destruct (truthy (proof input)); [|done].
  destruct (negb (verify _)) eqn:Ever; [done|].
  destruct (existsb _ (decisions s)) eqn:Epair in He; [done|].
  destruct (existsb _ (decisions s)) eqn:Enonce in He; [done|]. bool_hyps.
  assert (evolves s {| requests := requests s; decisions := (decisions s ++ [decision_row r input now])%list;
                       events := events s |}) as Hev by by apply approval_evolves_same.
  split; [|done]. split; simpl; try done.
  - intros x Hx Hst. specialize (H2 x Hx Hst).
    pose proof (approvals_of_app (rq_id x) (decisions s) (decision_row r input now)). lia.
  - rewrite map_app. apply NoDup_app. split_and!; [done| |apply NoDup_singleton].
    intros x (d & -> & Hd)%list_elem_of_fmap Hx%list_elem_of_singleton. simpl in Hx.
    pose proof (no_pair _ _ _ Epair Hd) as Hp. simpl in Hp. injection Hx as Hx1 Hx2.
    by rewrite Hx1, Hx2, !streq_refl in Hp.
  - rewrite map_app. apply NoDup_app. split_and!; [done| |apply NoDup_singleton].
    intros x (d & -> & Hd)%list_elem_of_fmap Hx%list_elem_of_singleton. simpl in Hx.
    pose proof (no_pair _ _ _ Enonce Hd) as Hp. simpl in Hp. by rewrite Hx, streq_refl in Hp.
  - intros d [Hd|Hd]%elem_of_app; [by eapply decision_ok_mono, H5|].
    apply list_elem_of_singleton in Hd as ->. eexists r, input, _. by split_and!.
Qed.

Lemma good_decide id input now now' s :
  inv s -> good s (decide sha256 verify operators id input now now' s).2.
Proof.
  intros Hi. unfold decide. apply good_when; [by apply good_refl|intros _].
  apply good_bind; [|intros _ s'; apply good_get]. apply good_transaction; [done|].
  intros [] s' E. unfold decide_body in E.
  destruct (raw id s) as [r|] eqn:Hr; [|done].
  destruct (decide_error _ _ _ _ _ _) as [e|] eqn:He; [done|]. cbv zeta in E.
  pose proof (raw_id _ _ _ Hr) as [Hin Hid]. subst id.
  pose proof (good_record r input now s Hi Hr He) as Hrec.
  match type of E with context [update_status _ _ _ _ ?x] => set (s1 := x) in * end.
  match type of E with context [update_status _ _ _ ?x _] => set (st := x) in * end.
  assert (rq_status r = pending /\ rq_revision r = expectedRevision input) as [Hpend Hrev].
  { unfold decide_error in He. repeat case_match; by bool_hyps. }
  assert (good s1 (update_status (rq_id r) (expectedRevision input) all_statuses st s1).2) as Hg.
  { destruct Hrec as [Hi1 _].
    assert (forall x, raw (rq_id r) s1 = Some x -> x = r) as Hx by (intros x Hx; unfold raw in *; simpl in Hx; congruence).
    split; [apply inv_update|apply evolves_update]; try done.
    - intros x Hr1%Hx _. subst x. rewrite Hpend. constructor. unfold st. split_ifs; tauto.
    - intros x Hr1%Hx _ Hst. subst x. unfold st in Hst. simpl.
      destruct (negb (approve input)); [by destruct Hst|].
      destruct (rq_quorum r <=? _) eqn:Eq; [by bool_hyps|by destruct Hst].
    - intros x Hr1%Hx _. subst x. rewrite Hpend. constructor. unfold st. split_ifs; tauto. }
  pose proof (good_trans _ _ _ Hrec Hg) as Hfin.
  destruct (update_status _ _ _ _ s1) as [n s2]. simpl in Hfin.
  destruct (bool_decide (st = pending)); [by injection E as <-|].
  match type of E with ?ev = _ => replace s' with ev.2 by (by rewrite E) end. by apply good_event.
Qed.

Lemma good_insert r t s :
  inv s -> insert rq_id r (requests s) = Some t -> rq_status r = pending -> good s (set_requests t s).
Proof.
  intros [H1 H2 H3 H4 H5] Hins Hst.
  assert (evolves s (set_requests t s)) as Hev.
  { intros x y Hy. exists y. split; [|by apply rtc_refl]. unfold raw in *. simpl.
    apply insert_Some in Hins as [_ ->]. by rewrite get_app, Hy. }
  split; [|done]. split; simpl; try done.
  - by eapply insert_keyed.
  - apply insert_Some in Hins as [_ ->]. intros x [Hx|Hx]%elem_of_app; [by apply H2|].
    apply list_elem_of_singleton in Hx as ->. rewrite Hst. by intros [|].
  - intros d Hd. by eapply decision_ok_mono, H5.
Qed.

Lemma good_request input o ch now now' s :
  inv s -> good s (request sha256 operators configVersion configHash input o ch now now' s).2.
Proof.
  intros Hi. unfold request. destruct (validate input); [by apply good_refl|].
  do 4 (apply good_when; [by apply good_refl|intros _]).
  destruct (canonicalSerialize _); [|by apply good_refl].
  destruct (boundKeys _ _) as [b|]; [|by apply good_refl]. cbv zeta.
  apply good_when; [by apply good_refl|intros _].
  destruct (insert _ _ _) as [t|] eqn:Eins; [|by apply good_refl].
  apply good_bind; [|intros _ s'; apply good_get]. apply good_event. by eapply good_insert.
Qed.

Lemma good_perform c s : inv s -> good s (perform c s).2.
Proof.
  intros Hi. destruct c; simpl;
    [by apply good_request|by apply good_decide|by apply good_revoke|by apply good_consume|by apply good_get].
Qed.

(** *** Sequences of calls *)

Definition perform_all (cs : list call) (s : ApprovalStore) : ApprovalStore :=
  foldl (fun s c => (perform c s).2) s cs.

Lemma good_perform_all cs s : inv s -> good s (perform_all cs s).
Proof.
  revert s. induction cs as [|c cs IH]; intros s Hi; [by apply good_refl|].
  pose proof (good_perform c s Hi) as Hg. eapply good_trans; [exact Hg|]. apply IH, Hg.
Qed.

Lemma inv_empty : inv empty_approvals.
Proof. split; try constructor; by intros ? ?%elem_of_nil. Qed.

(** C10: after any sequence of calls, a request that is approved or consumed has
    a quorum of distinct approving operators, none of them its proposer, each
    holding the approver role and a scope for its type, and each with a proof the
    verifier accepted for this request, its challenge and that decision. *)
Theorem approved_by_quorum cs r (Hin : r ∈ requests (perform_all cs empty_approvals))
    (Hst : rq_status r = approved \/ rq_status r = consumed) :
  exists ops : list string,
    NoDup ops /\ rq_quorum r <= Z.of_nat (length ops) /\
    forall o, o ∈ ops ->
      o <> rq_proposer_id r /\ operator_ok operators o (rq_type r) = true /\
      exists input at_, operatorId input = o /\ approve input = true /\
        in_challenge input = rq_challenge r /\ verify (decision_proof r input at_) = true.
Proof.
  destruct (good_perform_all cs _ inv_empty) as [[H1 H2 H3 H4 H5] _].
  set (s := perform_all cs empty_approvals) in *.
  exists (map dc_operator_id (approvals_of (rq_id r) (decisions s))). split_and!.
  - clear -H3. unfold approvals_of. induction (decisions s) as [|d ds IH]; [constructor|].
    apply NoDup_cons in H3 as [Hd H3]. simpl. destruct (_ && _) eqn:E; [|by apply IH].
    bool_hyps. simpl. apply NoDup_cons. split; [|by apply IH].
    intros (x & Hx & Hxin)%list_elem_of_fmap. apply list_elem_of_In, filter_In in Hxin as [Hxin Ex].
    bool_hyps. apply Hd. apply list_elem_of_fmap. exists x. split; [congruence|by apply list_elem_of_In].
  - rewrite length_map. by apply H2.
  - intros o (d & -> & Hd)%list_elem_of_fmap. apply list_elem_of_In, filter_In in Hd as [Hd Ed].
    bool_hyps. apply list_elem_of_In in Hd.
    destruct (H5 d Hd) as (r' & input & at_ & Hr' & Hself & Hop & Ho & Hap & Hch & Hver).
    assert (r' = r) as ->.
    { pose proof (raw_id _ _ _ Hr') as [Hin' Hid']. eapply (keyed_same rq_id); eauto. congruence. }
    split_and!; [done|done|]. exists input, at_. split_and!; [done|congruence|done|done].
Qed.

(** Whatever is called in whatever order, a request moves only along the
    state machine (pending to approved, denied, expired or revoked; approved to
    expired, revoked or consumed; the others are final), every change raises its
    revision by one, and nothing else of it ever changes. *)
Theorem approval_lifecycle cs cs' id r (Hr : raw id (perform_all cs empty_approvals) = Some r) :
  exists r', raw id (perform_all (cs ++ cs') empty_approvals) = Some r' /\ rtc move r r'.
Proof.
  unfold perform_all in *. rewrite foldl_app.
  destruct (good_perform_all cs _ inv_empty) as [Hi _].
  destruct (good_perform_all cs' _ Hi) as [_ He]. by apply He.
Qed.

(** *** Consumption *)

Lemma move_frozen r r' : rtc move r r' ->
  rq_binding r' = rq_binding r /\ (rq_status r = consumed -> r' = r).
Proof.
  induction 1 as [r|r1 r2 r3 (st & Ht & ->) _ [IH1 IH2]]; [done|]. split; [exact IH1|].
  intros Hc. rewrite Hc in Ht. inversion Ht.
Qed.

Lemma update_one id rev sts st s r :
  raw id s = Some r -> at_revision id rev sts r = true ->
  raw id (update_status id rev sts st s).2 = Some (with_status st r).
Proof. intros Hr E. rewrite raw_update, Hr. cbn. by rewrite E. Qed.

Lemma event_ok id ev op why b rev now s s' :
  event sha256 id ev op why b rev now s = (inr tt, s') -> requests s' = requests s.
Proof. unfold event. destruct (canonicalHash _ _); [|done]. by intros [= <-]. Qed.

(** What a consumption that succeeds found, and left. *)
Lemma consume_ok id input now now' s res s' :
  consume sha256 id input now now' s = (inr res, s') ->
  exists r b text, raw id s = Some r /\ rq_status r = approved /\ now < rq_expires_at r /\
    boundKeys sha256 input = Some b /\ canonicalSerialize b = Some text /\
    canonicalSerialize (rq_binding r) = Some text /\ raw id s' = Some (with_status consumed r).
Proof.
  unfold consume. destruct (raw id s) as [r|] eqn:Hr; [|done].
  destruct (rq_expires_at r <=? now) eqn:Eexp.
  { unfold in_transaction. destruct (expire _ _ _ _) as [[|[]] ?]; done. }
  unfold in_transaction. destruct (consume_body sha256 r input now s) as [[e|[]] s1] eqn:Eb; [done|].
  simpl. unfold consume_body, throw_when in Eb.
  destruct (negb (bool_decide (rq_status r = approved))) eqn:Est; [done|].
  destruct (boundKeys sha256 input) as [b|] eqn:Ebound; cbn [mbind option_bind] in Eb; [|done].
  destruct (canonicalSerialize b) as [text|] eqn:Etext; [|done].
  destruct (negb (bool_decide (canonicalSerialize (rq_binding r) = Some text))) eqn:Ebind; [done|].
  bool_hyps. pose proof (raw_id _ _ _ Hr) as [_ Hid].
  assert (raw id (update_status (rq_id r) (rq_revision r) [approved] consumed s).2 =
          Some (with_status consumed r)) as Hraw.
  { rewrite Hid. apply update_one; [done|]. unfold at_revision.
    rewrite bool_decide_true, Z.eqb_refl by done. simpl. apply includes_spec.
    rewrite Est. apply list_elem_of_here. }
  destruct (update_status _ _ _ _ s) as [n s2]. simpl in Hraw.
  destruct (negb (n =? 1)%nat); [done|]. apply event_ok in Eb.
  assert (raw id s1 = Some (with_status consumed r)) as Hraw1 by by rewrite (raw_same _ _ _ Eb).
  unfold get_request. rewrite Hraw1. simpl. rewrite Hraw1. intros Hres.
  assert (s' = s1) as -> by by injection Hres.
  exists r, b, text. split_and!; done || lia.
Qed.

Definition same_binding (t1 t2 : BoundTransaction) : Prop :=
  chain t1 = chain t2 /\
  canonicalHash sha256 (serializedTransaction t1) = canonicalHash sha256 (serializedTransaction t2) /\
  intentHash t1 = intentHash t2 /\ policyHash t1 = policyHash t2 /\
  policyVersion t1 = policyVersion t2 /\ simulationHash t1 = simulationHash t2 /\
  simulationBlock t1 = simulationBlock t2 /\ simulationState t1 = simulationState t2 /\
  account t1 = account t2 /\ nonce t1 = nonce t2 /\ value_ t1 = value_ t2 /\
  calldata t1 = calldata t2 /\ router t1 = router t2.

Lemma boundKeys_sorted t b : boundKeys sha256 t = Some b -> sorted (sorted b) = sorted b.
Proof.
  unfold boundKeys. destruct (canonicalHash _ _); [|done]. cbn [mbind option_bind].
  intros [= <-]. vm_compute. reflexivity.
Qed.

Lemma boundKeys_inj t1 t2 b1 b2 :
  boundKeys sha256 t1 = Some b1 -> boundKeys sha256 t2 = Some b2 -> sorted b1 = sorted b2 ->
  same_binding t1 t2.
Proof.
  unfold boundKeys. destruct (canonicalHash _ (serializedTransaction t1)) as [h1|] eqn:E1; [|done].
  destruct (canonicalHash _ (serializedTransaction t2)) as [h2|] eqn:E2; [|done].
  cbn [mbind option_bind]. intros [= <-] [= <-] H. open_object H. unfold same_binding.
  repeat match goal with H : sorted _ = sorted _ |- _ => injection H as H end.
  rewrite E1, E2. by subst.
Qed.

Lemma request_row input o ch now now' s res s' :
  inv s ->
  request sha256 operators configVersion configHash input o ch now now' s = (inr res, s') ->
  exists r b, raw (in_id input) s' = Some r /\ boundKeys sha256 (in_tx input) = Some b /\
              rq_binding r = sorted b.
Proof.
  intros Hi. unfold request, throw_when. destruct (validate input); [done|].
  do 4 (destruct (_ : bool); [done|]).
  destruct (canonicalSerialize _); [|done].
  destruct (boundKeys _ _) as [b|]; [|done]. cbv zeta.
  destruct (has rq_challenge _ _); [done|].
  match goal with |- context [insert _ ?x _] => set (r0 := x) in * end.
  destruct (insert rq_id r0 _) as [t|] eqn:Eins; [|done].
  assert (inv (set_requests t s)) as Hi1 by by eapply (good_insert r0).
  pose proof (good_event (in_id input) "created" None None (sorted b) 0 now _ _ (good_refl _ Hi1)) as [Hi2 He2].
  destruct (event _ _ _ _ _ _ _ _ _) as [[e|[]] s2]; [done|]. simpl in Hi2, He2 |- *. intros Hg.
  destruct (good_get (in_id input) now' s2 Hi2) as [_ He3]. rewrite Hg in He3. simpl in He3.
  assert (raw (in_id input) (set_requests t s) = Some r0) as Hr0
    by (apply (insert_get_eq rq_id r0 (requests s)); done).
  destruct (He2 _ _ Hr0) as (r2 & Hr2 & M2). destruct (He3 _ _ Hr2) as (r3 & Hr3 & M3).
  exists r3, b. split_and!; [done|done|].
  by rewrite (proj1 (move_frozen _ _ M3)), (proj1 (move_frozen _ _ M2)).
Qed.

(** C9: a request is consumed at most once, and only for the transaction it was
    made for: whatever was called before and in between, a `consume` that
    succeeds was handed the same chain, account, nonce, value, calldata, router,
    hashes, policy and simulation as the request, and the same transaction up to
    its canonical hash; every later `consume` of the request throws. *)
Theorem consumed_once_exactly cs0 cs1 input o ch now1 now1' res1 s1 tx now2 now2' res2 s2
    (Hreq : request sha256 operators configVersion configHash input o ch now1 now1'
              (perform_all cs0 empty_approvals) = (inr res1, s1))
    (Hcon : consume sha256 (in_id input) tx now2 now2' (perform_all cs1 s1) = (inr res2, s2)) :
  same_binding (in_tx input) tx /\
  forall cs2 tx' now3 now3',
    exists e, (consume sha256 (in_id input) tx' now3 now3' (perform_all cs2 s2)).1 = inl e.
Proof.
  destruct (good_perform_all cs0 _ inv_empty) as [Hi0 _].
  destruct (request_row _ _ _ _ _ _ _ _ Hi0 Hreq) as (r1 & b1 & Hr1 & Hb1 & Hbind).
  assert (inv s1) as Hi1.
  { pose proof (good_request input o ch now1 now1' _ Hi0) as [H _]. by rewrite Hreq in H. }
  destruct (good_perform_all cs1 _ Hi1) as [Hi2 He2].
  destruct (He2 _ _ Hr1) as (r2 & Hr2 & M2). apply move_frozen in M2 as [M2 _].
  destruct (consume_ok _ _ _ _ _ _ _ Hcon) as (r & b & text & Hr & _ & _ & Hb & Ht & Htr & Hdone).
  assert (r = r2) as -> by congruence. split.
  - eapply boundKeys_inj; [done|done|]. rewrite M2, Hbind in Htr.
    rewrite <- (boundKeys_sorted _ _ Hb1). symmetry. by eapply canonicalSerialize_binds_values.
  - intros cs2 tx' now3 now3'.
    assert (inv s2) as Hi3.
    { pose proof (good_consume (in_id input) tx now2 now2' _ Hi2) as [H _]. by rewrite Hcon in H. }
    destruct (good_perform_all cs2 _ Hi3) as [_ He4].
    destruct (He4 _ _ Hdone) as (r4 & Hr4 & M4). apply move_frozen in M4 as [_ M4].
    specialize (M4 eq_refl). subst r4.
    destruct (consume _ _ tx' _ _ _) as [[e|x] s'] eqn:E; [by eauto|].
    destruct (consume_ok _ _ _ _ _ _ _ E) as (r' & ? & ? & Hr' & Hst & _).
    rewrite Hr4 in Hr'. by simplify_eq/=.
Qed.
End Engine.

(** *** An example: two of three operators approve, the request is consumed *)

Definition demo_operators : list Operator :=
  [ {| op_id := "alice"; roles := ["approver"]; scopes := ["*"] |};
    {| op_id := "bob"; roles := ["approver"]; scopes := ["sign"] |};
    {| op_id := "carol"; roles := ["viewer"]; scopes := ["*"] |} ].

Definition demo_tx : BoundTransaction := {|
  chain := "4663";
  serializedTransaction := V_object [("to", V_string "0x1"); ("data", V_string "0x"); ("value", V_string "0");
                                     ("nonce", V_number 7)];
  intentHash := "ih"; policyHash := "ph"; policyVersion := "1"; simulationHash := "sh";
  simulationBlock := "10"; simulationState := "ss"; account := "acct"; nonce := "7"; value_ := "0";
  calldata := "0x"; router := "r" |}.

Definition demo_input : ApprovalRequestInput := {|
  in_id := "req"; in_type := "sign"; proposerId := "dave"; in_tx := demo_tx; in_expiresAt := 5000;
  displayImpact := None |}.

Definition demo_quorum : RequestOptions := {| quorum := 2; has_challenge := false |}.

Definition demo_decision (who nonce : string) (rev : Z) : DecisionInput := {|
  operatorId := who; approve := true; in_challenge := "ch"; in_nonce := nonce; expectedRevision := rev;
  timestamp := None; proof := Some "proof"; reason := None |}.

Definition demo_calls : list call :=
  [ C_request demo_input demo_quorum "ch" 1000 1000;
    C_decide "req" (demo_decision "alice" "n1" 0) 1001 1001;
    C_decide "req" (demo_decision "alice" "n2" 1) 1002 1002;
    C_decide "req" (demo_decision "bob" "n3" 1) 1003 1003 ].

Definition demo_all (cs : list call) (s : ApprovalStore) : ApprovalStore :=
  perform_all (fun s => s) (fun _ => true) demo_operators "v1" "cfg" cs s.

Lemma approved_by_quorum_witness :
  exists r, r ∈ requests (demo_all demo_calls empty_approvals) /\ rq_status r = approved /\
    exists ops : list string, NoDup ops /\ 2 <= Z.of_nat (length ops).
Proof.
  assert (exists r, r ∈ requests (demo_all demo_calls empty_approvals) /\ rq_status r = approved /\
            rq_quorum r = 2) as (r & Hin & Hst & Hq).
  { eexists. split; [vm_compute; apply list_elem_of_here|]. split; reflexivity. }
  exists r. split; [exact Hin|]. split; [exact Hst|].
  destruct (approved_by_quorum (fun s => s) (fun _ => true) demo_operators "v1" "cfg" demo_calls r Hin
              (or_introl Hst)) as (ops & Hnd & Hlen & _).
  exists ops. split; [exact Hnd|]. rewrite <- Hq. exact Hlen.
Defined.

Lemma approval_lifecycle_witness :
  exists r, raw "req" (demo_all demo_calls empty_approvals) = Some r /\ rq_status r = approved /\
    exists r', raw "req" (demo_all (demo_calls ++ [C_consume "req" demo_tx 1004 1004]) empty_approvals)
               = Some r' /\ rtc move r r'.
Proof.
  assert (exists r, raw "req" (demo_all demo_calls empty_approvals) = Some r /\ rq_status r = approved)
    as (r & Hr & Hst) by (eexists; split; vm_compute; reflexivity).
  exists r. split; [exact Hr|]. split; [exact Hst|].
  exact (approval_lifecycle (fun s => s) (fun _ => true) demo_operators "v1" "cfg" demo_calls
           [C_consume "req" demo_tx 1004 1004] "req" r Hr).
Defined.

Lemma consumed_once_exactly_witness :
  exists res1 s1 res2 s2 e,
    request (fun s => s) demo_operators "v1" "cfg" demo_input demo_quorum "ch" 1000 1000
      (demo_all [] empty_approvals) = (inr res1, s1) /\
    consume (fun s => s) "req" demo_tx 1004 1004 (demo_all (tail demo_calls) s1) = (inr res2, s2) /\
    (consume (fun s => s) "req" demo_tx 1005 1005 (demo_all [] s2)).1 = inl e.
Proof.
  assert (exists res1 s1 res2 s2,
    request (fun s => s) demo_operators "v1" "cfg" demo_input demo_quorum "ch" 1000 1000
      (demo_all [] empty_approvals) = (inr res1, s1) /\
    consume (fun s => s) "req" demo_tx 1004 1004 (demo_all (tail demo_calls) s1) = (inr res2, s2))
    as (res1 & s1 & res2 & s2 & E1 & E2)
    by (eexists _, _, _, _; split; [vm_compute; reflexivity|vm_compute; reflexivity]).
  destruct (consumed_once_exactly (fun s => s) (fun _ => true) demo_operators "v1" "cfg" [] (tail demo_calls)
    demo_input demo_quorum "ch" 1000 1000 res1 s1 demo_tx 1004 1004 res2 s2 E1 E2) as [_ H].
  destruct (H [] demo_tx 1005 1005) as [e He].
  exists res1, s1, res2, s2, e. split; [exact E1|]. split; [exact E2|exact He].
Defined.
