(* ===== verification/Frames.v ===== *)
(** `JsonFrameDecoder` (`src/signer/index.ts`): newline-delimited JSON frames.

    Bytes are integers; `JSON.parse` of a line is the parameter [parse], which
    may fail.  The result does not depend on how the bytes arrive in chunks. *)
From S2P Require Import Prelude Canonical.
#[local] Open Scope list_scope.
#[local] Open Scope Z_scope.
#[local] Open Scope result_scope.

Section Frames.
Context (parse : list Z -> option value) (max : Z).

(** `subarray(0, i)` and `subarray(i + 1)` at the first newline. *)
Fixpoint split_line (bytes : list Z) : option (list Z * list Z) :=
  match bytes with
  | [] => None
  | b :: bs =>
      if b =? 10 then Some ([], bs)
      else match split_line bs with Some (l, r) => Some (b :: l, r) | None => None end
  end.

(** The frame of a line, none for an empty one. *)
Definition frame (line : list Z) : result (list value) :=
  check max <? Z.of_nat (length line) else "frame_too_large"%string;
  if (length line =? 0)%nat then inr []
  else match parse line with Some v => inr [v] | None => inl "frame_json_invalid"%string end.

(** The loop of `push`; the second component is `pending` when it stops.  A turn
    consumes a line, so [fuel] the number of bytes is enough. *)
Fixpoint push_loop (fuel : nat) (pending : list Z) (out : list value) : result (list value) * list Z :=
  match fuel, split_line pending with
  | S fuel', Some (line, rest) =>
      match frame line with
      | inl e => (inl e, if (max <? Z.of_nat (length line)) then pending else rest)
      | inr vs => push_loop fuel' rest (out ++ vs)
      end
  | _, _ => (inr out, pending)
  end.

(** `push` *)
Definition push (pending chunk : list Z) : result (list value) * list Z :=
  let bytes := pending ++ chunk in
  if (max <? Z.of_nat (length bytes)) && negb (existsb (Z.eqb 10) bytes)
  then (inl "frame_too_large"%string, bytes)
  else push_loop (length bytes) bytes [].

(** The frames of a sequence of chunks, until one is refused. *)
Fixpoint push_all (pending : list Z) (chunks : list (list Z)) : result (list value * list Z) :=
  match chunks with
  | [] => inr ([], pending)
  | c :: cs =>
      let '(r, pending1) := push pending c in
      let? out := r in
      let? more := push_all pending1 cs in
      inr (out ++ fst more, snd more)
  end.

(** *** Lines *)

(** The complete lines of a text, and what follows the last newline. *)
Fixpoint lines (bytes : list Z) : list (list Z) * list Z :=
  match bytes with
  | [] => ([], [])
  | b :: bs =>
      let '(ls, r) := lines bs in
      if b =? 10 then ([] :: ls, r)
      else match ls with [] => ([], b :: r) | l :: ls' => ((b :: l) :: ls', r) end
  end.

(** The frames of complete lines. *)
Fixpoint frames (ls : list (list Z)) : result (list value) :=
  match ls with
  | [] => inr []
  | l :: ls' => let? v := frame l in let? vs := frames ls' in inr (v ++ vs)
  end.

Lemma split_line_lines bytes :
  match split_line bytes with
  | Some (l, r) => lines bytes = (l :: (lines r).1, (lines r).2) /\ (length r < length bytes)%nat
  | None => lines bytes = ([], bytes)
  end.
Proof.
  induction bytes as [|b bs IH]; simpl; [done|]. destruct (b =? 10) eqn:E.
  - destruct (lines bs). simpl. split; [done|lia].
  - destruct (split_line bs) as [[l r]|].
    + destruct IH as [-> Hl]. simpl. split; [done|lia].
    + by rewrite IH.
Qed.

Lemma frames_app l1 l2 :
  frames (l1 ++ l2) = let? a := frames l1 in let? b := frames l2 in inr (a ++ b).
Proof.
  induction l1 as [|l l1 IH]; simpl; [by destruct (frames l2)|].
  destruct (frame l); simpl; [done|]. rewrite IH. destruct (frames l1); simpl; [done|].
  destruct (frames l2); simpl; [done|]. by rewrite app_assoc.
Qed.

Lemma push_loop_lines fuel pending out :
  (length pending <= fuel)%nat ->
  forall vs rest, push_loop fuel pending out = (inr vs, rest) <->
    exists ws, frames (lines pending).1 = inr ws /\ vs = out ++ ws /\ rest = (lines pending).2.
Proof.
  revert pending out. induction fuel as [|fuel IH]; intros pending out Hf vs rest.
  - destruct pending; [|simpl in Hf; lia]. simpl. split.
    + intros [= <- <-]. exists []. by rewrite app_nil_r.
    + intros (ws & [= <-] & -> & ->). by rewrite app_nil_r.
  - cbn [push_loop]. pose proof (split_line_lines pending) as Hl.
    destruct (split_line pending) as [[l r]|].
    + destruct Hl as [-> Hlen]. cbn [fst snd frames]. destruct (frame l) as [e|v]; cbn [rbind].
      * split; [done|]. by intros (? & ? & _).
      * rewrite IH by lia. destruct (frames (lines r).1) as [e|ws]; cbn [rbind].
        -- split; by intros (? & ? & _).
        -- split; intros (ws' & [= <-] & -> & ->); eexists; (split; [done|]); by rewrite app_assoc.
    + rewrite Hl. cbn. split.
      * intros [= <- <-]. exists []. by rewrite app_nil_r.
      * intros (ws & [= <-] & -> & ->). by rewrite app_nil_r.
Qed.

(** Lines and chunks. *)
Lemma lines_app a b :
  lines (a ++ b) = ((lines a).1 ++ (lines ((lines a).2 ++ b)).1, (lines ((lines a).2 ++ b)).2).
Proof.
  induction a as [|x a IH]; simpl; [by destruct (lines b)|]. rewrite IH.
  destruct (lines a) as [ls r]. simpl. destruct (x =? 10) eqn:E; simpl; [done|].
  destruct ls as [|l ls]; simpl; [|done]. rewrite E. by destruct (lines (r ++ b)) as [[|l2 ls2] r2].
Qed.

Lemma lines_none bytes : existsb (Z.eqb 10) bytes = false -> lines bytes = ([], bytes).
Proof.
  induction bytes as [|b bs IH]; [done|]. cbn [existsb lines]. rewrite Z.eqb_sym. intros [E H]%orb_false_iff.
  by rewrite IH, E.
Qed.

Lemma lines_rest bytes : existsb (Z.eqb 10) (lines bytes).2 = false.
Proof.
  induction bytes as [|b bs IH]; [done|]. cbn [lines]. destruct (lines bs) as [ls r]. cbn [snd] in IH.
  destruct (b =? 10) eqn:E; [done|]. destruct ls; [|done]. cbn [snd existsb]. by rewrite Z.eqb_sym, E.
Qed.

(** *** Chunks *)

(** One push, when it succeeds: the bytes so far are not one oversized line, and
    every complete line decodes. *)
Lemma push_spec pending chunk vs rest :
  push pending chunk = (inr vs, rest) <->
  ((max <? Z.of_nat (length (pending ++ chunk))) && negb (existsb (Z.eqb 10) (pending ++ chunk)) = false /\
   frames (lines (pending ++ chunk)).1 = inr vs /\ rest = (lines (pending ++ chunk)).2).
Proof.
  unfold push. destruct (_ && _).
  - split; [done|]. by intros [? _].
  - rewrite push_loop_lines by lia. split.
    + by intros (ws & -> & -> & ->).
    + intros (_ & -> & ->). eauto.
Qed.

Lemma frames_long ls vs l : frames ls = inr vs -> l ∈ ls -> Z.of_nat (length l) <= max.
Proof.
  revert vs. induction ls as [|x ls IH]; intros vs H Hl; [by apply elem_of_nil in Hl|]. simpl in H. open_result H.
  apply elem_of_cons in Hl as [->|Hl]; [|by eapply IH].
  unfold frame in Ha. open_result Ha. by bool_hyps.
Qed.

(** Text without a newline is part of the first line that follows, or of the rest. *)
Lemma lines_prefix a b :
  existsb (Z.eqb 10) a = false ->
  (exists l, (lines (a ++ b)).1 !! 0%nat = Some l /\ (length a <= length l)%nat) \/
  ((lines (a ++ b)).1 = [] /\ (length a <= length (lines (a ++ b)).2)%nat).
Proof.
  induction a as [|x a IH]; intros H.
  - cbn [app length]. destruct (lines b) as [[|l ls] r]; cbn; [right; split; [done|lia]|left; exists l; split; [done|lia]].
  - cbn [existsb] in H. apply orb_false_iff in H as [Hx Ha]. rewrite Z.eqb_sym in Hx.
    cbn [app lines]. specialize (IH Ha). destruct (lines (a ++ b)) as [ls r]. cbn in IH. rewrite Hx.
    destruct IH as [(l & Hl & Hlen)|[-> Hlen]].
    + destruct ls as [|l0 ls]; [done|]. injection Hl as ->. left. cbn. eexists. split; [done|]. simpl. lia.
    + right. cbn. split; [done|]. lia.
Qed.

Lemma push_all_spec chunks pending vs rest :
  existsb (Z.eqb 10) pending = false -> Z.of_nat (length rest) <= max ->
  push_all pending chunks = inr (vs, rest) <->
  frames (lines (pending ++ concat chunks)).1 = inr vs /\ rest = (lines (pending ++ concat chunks)).2.
Proof.
  revert pending vs. induction chunks as [|c cs IH]; intros pending vs Hp Hr; cbn [push_all concat].
  { rewrite app_nil_r, lines_none by done. cbn. split; [by intros [= <- <-]|by intros [[= <-] ->]]. }
  rewrite app_assoc, lines_app. cbn [fst snd]. rewrite frames_app.
  pose proof (lines_rest (pending ++ c)) as Hrest.
  destruct (push pending c) as [r pending1] eqn:E. split.
  - intros H. open_result H. destruct r as [e|out]; [done|]. simplify_eq/=.
    apply push_spec in E as (_ & Hf & ->). destruct a0 as [more rest']. simplify_eq/=.
    apply IH in Ha0 as [H1 H2]; [|done..]. rewrite Hf. cbn [rbind]. rewrite H1. by split.
  - intros [H Hr']. apply rbind_inr in H as (out & Hf & H). apply rbind_inr in H as (more & Hm & H). injection H as <-.
    assert (push pending c = (inr out, (lines (pending ++ c)).2)) as E'.
    { apply push_spec. split_and!; [|done|done]. apply andb_false_iff.
      destruct (existsb (Z.eqb 10) (pending ++ c)) eqn:En; [by right|left]. apply Z.ltb_ge.
      destruct (lines_prefix (pending ++ c) (concat cs) En) as [(l & Hl & Hlen)|[_ Hlen]].
      - rewrite lines_app in Hl. cbn [fst] in Hl. apply list_elem_of_lookup_2 in Hl.
        assert (frames ((lines (pending ++ c)).1 ++ (lines ((lines (pending ++ c)).2 ++ concat cs)).1) = inr (out ++ more))
          as Hall by (rewrite frames_app, Hf; cbn [rbind]; by rewrite Hm).
        pose proof (frames_long _ _ _ Hall Hl). lia.
      - rewrite lines_app in Hlen. cbn [snd] in Hlen. rewrite <- Hr' in Hlen. lia. }
    rewrite E in E'. injection E' as -> ->. cbn [rbind].
    rewrite (proj2 (IH _ more Hrest Hr)) by by split. done.
Qed.

(** C27: the frames a byte stream decodes to do not depend on how it arrives: any
    two ways of cutting the same bytes into chunks decode to the same frames and
    leave the same unfinished line; where one cut decodes, with an unfinished line
    within the frame limit, so does the other. *)
Theorem frames_chunking cs ds vs rest
    (Hsame : concat cs = concat ds) (Hrest : Z.of_nat (length rest) <= max) :
  push_all [] cs = inr (vs, rest) <-> push_all [] ds = inr (vs, rest).
Proof. rewrite !push_all_spec by done. by rewrite Hsame. Qed.
End Frames.

(** A parser of one-digit numbers. *)
Definition demo_parse (l : list Z) : option value :=
  match l with [d] => if (48 <=? d) && (d <=? 57) then Some (V_number (d - 48)) else None | _ => None end.

Lemma frames_chunking_witness :
  push_all demo_parse 4 [] [[49; 10; 50; 10; 51]] = inr ([V_number 1; V_number 2], [51]) /\
  push_all demo_parse 4 [] [[49]; [10; 50]; []; [10]; [51]] = inr ([V_number 1; V_number 2], [51]).
Proof.
  split; [vm_compute; reflexivity|].
  apply (frames_chunking demo_parse 4 [[49; 10; 50; 10; 51]] [[49]; [10; 50]; []; [10]; [51]]
    [V_number 1; V_number 2] [51]); [reflexivity|vm_compute; discriminate|vm_compute; reflexivity].
Defined.
