(* ===== verification/Bytes.v ===== *)
(** Byte buffers: the base64 texts of byte strings, that they read back, and `Buffer`'s
    little-endian readers and writers. *)
From S2P Require Import Prelude.
From Stdlib Require Import Ascii.
#[local] Open Scope string_scope.
#[local] Open Scope list_scope.
#[local] Open Scope Z_scope.
#[local] Open Scope result_scope.

Definition is_byte (b : Z) : Prop := 0 <= b < 256.

Definition base64_char (n : Z) : ascii :=
  match String.get (Z.to_nat n) "ABCDEFGHIJKLMNOPQRSTUVWXYZabcdefghijklmnopqrstuvwxyz0123456789+/" with
  | Some c => c | None => "="%char
  end.

(** `Buffer.toString("base64")` *)
Fixpoint base64 (l : list Z) : string :=
  match l with
  | [] => ""
  | [a] => String (base64_char (a / 4)) (String (base64_char (a mod 4 * 16)) "==")
  | [a; b] =>
      String (base64_char (a / 4)) (String (base64_char (a mod 4 * 16 + b / 16))
        (String (base64_char (b mod 16 * 4)) "="))
  | a :: b :: c :: l' =>
      String (base64_char (a / 4)) (String (base64_char (a mod 4 * 16 + b / 16))
        (String (base64_char (b mod 16 * 4 + c / 64)) (String (base64_char (c mod 64)) (base64 l'))))
  end.

Definition code (c : ascii) : Z := Z.of_nat (nat_of_ascii c).

(** The value of a digit, in either alphabet. *)
Definition sextet (c : ascii) : option Z :=
  let n := code c in
  if (65 <=? n) && (n <=? 90) then Some (n - 65)
  else if (97 <=? n) && (n <=? 122) then Some (n - 71)
  else if (48 <=? n) && (n <=? 57) then Some (n + 4)
  else if (n =? 43) || (n =? 45) then Some 62
  else if (n =? 47) || (n =? 95) then Some 63
  else None.

(** The digits up to the padding; what is no digit is skipped. *)
Fixpoint sextets (s : string) : list Z :=
  match s with
  | "" => []
  | String c s' =>
      if Ascii.eqb c "="%char then []
      else match sextet c with Some n => n :: sextets s' | None => sextets s' end
  end.

Fixpoint bytes_of (l : list Z) : list Z :=
  match l with
  | a :: b :: c :: d :: l' =>
      a * 4 + b / 16 :: b mod 16 * 16 + c / 4 :: c mod 4 * 64 + d :: bytes_of l'
  | [a; b; c] => [a * 4 + b / 16; b mod 16 * 16 + c / 4]
  | [a; b] => [a * 4 + b / 16]
  | _ => []
  end.

(** `Buffer.from(s, "base64")` *)
Definition from_base64 (s : string) : list Z := bytes_of (sextets s).

(** *** Reading back *)

Lemma sextet_char n : 0 <= n < 64 -> sextet (base64_char n) = Some n /\ base64_char n <> "="%char.
Proof.
  intros Hn. assert (forallb (fun k => bool_decide (sextet (base64_char k) = Some k) && negb (Ascii.eqb (base64_char k) "="%char))
    (map Z.of_nat (seq 0 64)) = true) as H by (vm_compute; reflexivity).
  rewrite forallb_forall in H. specialize (H n). rewrite andb_true_iff, negb_true_iff, bool_decide_eq_true in H.
  destruct H as [H1 H2].
  - apply in_map_iff. exists (Z.to_nat n). rewrite in_seq. lia.
  - split; [done|]. intros E. rewrite E in H2. by rewrite Ascii.eqb_refl in H2.
Qed.

Lemma sextets_char n s : 0 <= n < 64 -> sextets (String (base64_char n) s) = n :: sextets s.
Proof.
  intros Hn. destruct (sextet_char n Hn) as [H1 H2]. cbn [sextets]. rewrite H1.
  by destruct (Ascii.eqb_spec (base64_char n) "="%char).
Qed.

Lemma from_base64_base64 l : Forall is_byte l -> from_base64 (base64 l) = l.
Proof.
  unfold from_base64, is_byte. assert (forall n l, (length l <= n)%nat -> Forall is_byte l -> bytes_of (sextets (base64 l)) = l) as H.
  { clear l. unfold is_byte. induction n as [|n IH]; intros l Hn Hl; destruct l as [|a [|b [|c l]]]; try done;
      cbn [length] in Hn; try lia; repeat match goal with H : Forall _ (_ :: _) |- _ => inversion H; clear H; subst end.
    all: cbn [base64]; rewrite !sextets_char by (Z.div_mod_to_equations; lia).
    - cbn. f_equal. Z.div_mod_to_equations; lia.
    - cbn. f_equal; [|f_equal]; Z.div_mod_to_equations; lia.
    - cbn [bytes_of]. f_equal; [|f_equal; [|f_equal]].
      1-3: Z.div_mod_to_equations; lia. apply IH; [lia|done]. }
  intros Hl. by eapply H.
Qed.

Lemma base64_inj l1 l2 : Forall is_byte l1 -> Forall is_byte l2 -> base64 l1 = base64 l2 -> l1 = l2.
Proof. intros H1 H2 E. rewrite <- (from_base64_base64 l1), <- (from_base64_base64 l2) by done. by rewrite E. Qed.

Lemma base64_nonempty l : l <> [] -> base64 l <> "".
Proof. destruct l as [|a [|b [|c l]]]; done. Qed.

Lemma sextet_range c n : sextet c = Some n -> 0 <= n < 64.
Proof. unfold sextet. intros H. repeat case_match; simplify_eq; bool_hyps; lia. Qed.

Lemma sextets_range s : Forall (fun n => 0 <= n < 64) (sextets s).
Proof.
  induction s as [|c s IH]; cbn [sextets]; [constructor|]. destruct (Ascii.eqb c _); [constructor|].
  destruct (sextet c) as [n|] eqn:E; [|done]. constructor; [by eapply sextet_range|done].
Qed.

Lemma from_base64_bytes s : Forall is_byte (from_base64 s).
Proof.
  unfold from_base64. pose proof (sextets_range s) as H. revert H. generalize (sextets s) as l.
  assert (forall n l, (length l <= n)%nat -> Forall (fun n => 0 <= n < 64) l -> Forall is_byte (bytes_of l)) as H.
  { unfold is_byte. induction n as [|n IH]; intros l Hn Hl; destruct l as [|a [|b [|c [|d l]]]]; cbn [length] in Hn;
      try lia; cbn [bytes_of]; try (by constructor);
      repeat match goal with H : Forall _ (_ :: _) |- _ => inversion H; clear H; subst end.
    all: repeat constructor; try (Z.div_mod_to_equations; lia). all: apply IH; [lia|done]. }
  intros l Hl. by eapply H.
Qed.

(** ** Little-endian fields

    A read past the end throws a `RangeError`, and so does writing a number that does not
    fit. *)

Fixpoint le_value (l : list Z) : Z :=
  match l with [] => 0 | b :: l' => b + 256 * le_value l' end.

Fixpoint le_bytes (n : nat) (z : Z) : list Z :=
  match n with O => [] | S n' => z mod 256 :: le_bytes n' (z / 256) end.

(** `buf.subarray(a, b)` of bounds that are not negative. *)
Definition subarray (a b : nat) (buf : list Z) : list Z := take (b - a) (drop a buf).

(** `buf.readUInt8(i)`, `buf.readUInt32LE(i)`, `buf.readBigUInt64LE(i)` for 1, 4 and 8 bytes. *)
Definition read_le (n i : nat) (buf : list Z) : result Z :=
  check (length buf <? i + n)%nat else "RangeError";
  inr (le_value (subarray i (i + n) buf)).

(** `buf.writeBigUInt64LE(v)` into a buffer of its own. *)
Definition write_u64 (v : Z) : result (list Z) :=
  check (v <? 0) || (18446744073709551615 <? v) else "RangeError";
  inr (le_bytes 8 v).

(** *** Round trips and bounds *)

Lemma length_le_bytes n z : length (le_bytes n z) = n.
Proof. revert z. induction n as [|n IH]; intros z; cbn; [done|by rewrite IH]. Qed.

Lemma le_bytes_are_bytes n z : Forall is_byte (le_bytes n z).
Proof.
  revert z. induction n as [|n IH]; intros z; cbn; [done|]. constructor; [|apply IH].
  unfold is_byte. apply Z.mod_pos_bound. lia.
Qed.

Lemma pow_256_S n : 256 ^ Z.of_nat (S n) = 256 * 256 ^ Z.of_nat n.
Proof. rewrite Nat2Z.inj_succ, Z.pow_succ_r by lia. done. Qed.

Lemma le_value_bytes n z : 0 <= z < 256 ^ Z.of_nat n -> le_value (le_bytes n z) = z.
Proof.
  revert z. induction n as [|n IH]; intros z Hz; [cbn in *; lia|]. rewrite pow_256_S in Hz. cbn [le_bytes le_value].
  rewrite IH.
  - pose proof (Z.div_mod z 256). lia.
  - split; [apply Z.div_pos; lia|apply Z.div_lt_upper_bound; lia].
Qed.

Lemma le_value_bounds l : Forall is_byte l -> 0 <= le_value l < 256 ^ Z.of_nat (length l).
Proof.
  induction 1 as [|b l Hb _ IH]; [cbn; lia|]. cbn [length le_value]. rewrite pow_256_S. unfold is_byte in Hb. lia.
Qed.

Lemma le_bytes_value l : Forall is_byte l -> le_bytes (length l) (le_value l) = l.
Proof.
  induction 1 as [|b l Hb Hl IH]; [done|]. cbn [length le_value le_bytes]. unfold is_byte in Hb.
  pose proof (le_value_bounds l Hl).
  rewrite (Z.mul_comm 256), Z.mod_add, Z.div_add, Z.mod_small, Z.div_small, Z.add_0_l by lia. f_equal. exact IH.
Qed.

Lemma length_subarray a b buf : (b <= length buf)%nat -> length (subarray a b buf) = (b - a)%nat.
Proof. intros H. unfold subarray. rewrite length_take, length_drop. lia. Qed.

Lemma subarray_bytes a b buf : Forall is_byte buf -> Forall is_byte (subarray a b buf).
Proof. intros H. by apply Forall_take, Forall_drop. Qed.

(** A read inside the buffer succeeds, and gives a number of its width. *)
Lemma read_le_within n i buf : (i + n <= length buf)%nat -> read_le n i buf = inr (le_value (subarray i (i + n) buf)).
Proof. intros H. unfold read_le. rewrite (proj2 (Nat.ltb_ge _ _) H). done. Qed.

Lemma read_le_bounds n i buf v : Forall is_byte buf -> read_le n i buf = inr v -> 0 <= v < 256 ^ Z.of_nat n.
Proof.
  unfold read_le. intros Hb H. open_result H. injection H as <-. apply Nat.ltb_ge in Hb0.
  pose proof (le_value_bounds _ (subarray_bytes i (i + n) buf Hb)) as Hv.
  rewrite length_subarray in Hv by lia. by replace (i + n - i)%nat with n in Hv by lia.
Qed.

(** Reading a part of a concatenation. *)
Lemma subarray_app l a b buf : length l = a -> subarray a b (l ++ buf) = take (b - a) buf.
Proof. intros <-. unfold subarray. by rewrite drop_app_length. Qed.

Lemma subarray_middle l x buf : subarray (length l) (length l + length x) (l ++ x ++ buf) = x.
Proof. rewrite subarray_app by done. rewrite Nat.add_comm, Nat.add_sub. by rewrite take_app_length. Qed.

Lemma read_le_middle l n z buf :
  0 <= z < 256 ^ Z.of_nat n -> read_le n (length l) (l ++ le_bytes n z ++ buf) = inr z.
Proof.
  intros Hz. rewrite read_le_within.
  - pose proof (subarray_middle l (le_bytes n z) buf) as H. rewrite length_le_bytes in H. rewrite H. f_equal. by apply le_value_bytes.
  - rewrite !length_app, length_le_bytes. lia.
Qed.

Lemma write_u64_spec v l : write_u64 v = inr l <-> 0 <= v < 2 ^ 64 /\ l = le_bytes 8 v.
Proof.
  unfold write_u64. destruct (Z.ltb_spec v 0), (Z.ltb_spec 18446744073709551615 v); cbn [orb throw_on rbind];
    split; try (intros [=]; lia); try (intros [? _]; lia).
  - intros [= <-]. split; [lia|done].
  - by intros [_ ->].
Qed.
