(* ===== verification/SignerPolicy.v ===== *)
(** `src/signer/policy.ts`: what the signer re-checks of every transaction.

    A transaction is what `decodeTransaction` (`src/signer/transaction.ts`)
    returns; the decoder itself, built on the wire format of a third-party
    package, is a parameter of the signer ([SignerService]).  Instruction data is
    a list of bytes. *)
From S2P Require Import Prelude Table Canonical Money.
From Stdlib Require Import Ascii.
#[local] Open Scope string_scope.
#[local] Open Scope list_scope.
#[local] Open Scope Z_scope.
#[local] Open Scope result_scope.

Definition COMPUTE_BUDGET_PROGRAM_ID : string := "ComputeBudget111111111111111111111111111111".
Definition DEFAULT_UNITS_PER_INSTRUCTION : Z := 200000.
Definition MAX_UNITS_PER_TRANSACTION : Z := 1400000.
Definition SET_UNIT_LIMIT : string := "02".
Definition SET_UNIT_PRICE : string := "03".
Definition NATIVE_ASSET : string := "native".

(** *** Decoded transactions *)

Record DecodedInstruction : Type := {
  programId : string;
  accounts : list (option string);
  data : list Z
}.

(** `Buffer.from(data).toString("hex")` *)
Fixpoint hex (bytes : list Z) : string :=
  match bytes with
  | [] => ""
  | b :: bs => String (hex_digit (Z.to_nat (b / 16))) (String (hex_digit (Z.to_nat (b mod 16))) (hex bs))
  end.

Definition dataHex (ix : DecodedInstruction) : string := hex (data ix).

Record DecodedTransaction : Type := {
  feePayer : string;
  recentBlockhash : string;
  numRequiredSignatures : Z;
  staticAccountKeys : list string;
  signatures : list (option string);
  addressTableLookups : list string;
  instructions : list DecodedInstruction;
  messageBytes : list Z;
  messageBase64 : string;
  messageHash : string;
  wireBase64 : string
}.

(** *** Policies *)

Inductive AmountEncoding : Type := u64le | u32le.

Record SignerSpendRule : Type := {
  asset : string; amountOffset : Z; amountEncoding : AmountEncoding; mintAccountIndex : option Z
}.

Inductive Effect : Type := E_none | E_fee | E_spend (spend : SignerSpendRule).

Record SignerProgramRule : Type := {
  r_programId : string; discriminator : string; effect : Effect
}.

Record SignPolicy : Type := {
  cluster : string;
  feePayers : list string;
  programs : list SignerProgramRule;
  caps : list (string * Z);
  maxInstructions : Z;
  maxAccountKeys : Z;
  maxRequiredSignatures : Z;
  maxComputeUnitLimit : Z;
  maxComputeUnitPriceMicroLamports : Z;
  maxPriorityFeeLamports : Z;
  maxPriorityFeeBps : option Z;
  addressLookupTables : list string
}.

(** `spend`, a Map in insertion order. *)
Definition Spend : Type := list (string * Z).

Record PolicyEvaluation : Type := {
  spend : Spend; computeUnitLimit : Z; computeUnitPriceMicroLamports : Z; priorityFeeLamports : Z
}.

(** *** Reading amounts *)

(** A little-endian unsigned integer. *)
Fixpoint le_value (bytes : list Z) : Z :=
  match bytes with [] => 0 | b :: bs => b + 256 * le_value bs end.

Definition width (e : AmountEncoding) : Z := match e with u64le => 8 | u32le => 4 end.

Definition readAmount (d : list Z) (offset : Z) (e : AmountEncoding) : result Z :=
  check (offset <? 0) || (Z.of_nat (length d) <? offset + width e) else "policy_spend_unreadable";
  inr (le_value (take (Z.to_nat (width e)) (drop (Z.to_nat offset) d))).

(** *** Matching rules *)

(** One turn of the loop of `matchRule`. *)
Definition better (prog hexdata : string) (best : option SignerProgramRule) (rule : SignerProgramRule) :
    option SignerProgramRule :=
  if negb (streq (r_programId rule) prog) then best
  else if negb (String.prefix (discriminator rule) hexdata) then best
  else match best with
       | Some b => if (String.length (discriminator b) <? String.length (discriminator rule))%nat
                   then Some rule else best
       | None => Some rule
       end.

Definition matchRule (p : SignPolicy) (prog hexdata : string) : option SignerProgramRule * bool :=
  (fold_left (better prog hexdata) (programs p) None,
   existsb (fun rule => streq (r_programId rule) prog) (programs p)).

(** *** The map of spends *)

Definition spend_get (a : string) (m : Spend) : option Z :=
  snd <$> List.find (fun e => streq (fst e) a) m.

(** `spend.set(asset, (spend.get(asset) ?? 0n) + amount)` *)
Fixpoint spend_add (a : string) (n : Z) (m : Spend) : Spend :=
  match m with
  | [] => [(a, n)]
  | (b, x) :: m' => if streq b a then (b, x + n) :: m' else (b, x) :: spend_add a n m'
  end.

(** *** Evaluation *)

(** The variables of the loop over the instructions. *)
Record Running : Type := { spent : Spend; explicitLimit : option Z; unitPrice : option Z }.

(** The mint account of a spend, when the rule names one. *)
Definition check_mint (s : SignerSpendRule) (ix : DecodedInstruction) : result unit :=
  match mintAccountIndex s with
  | None => inr tt
  | Some i =>
      match accounts ix !! Z.to_nat i with
      | None => inl "policy_spend_mint_missing"
      | Some (Some account) => throw_on (negb (streq account (asset s))) "policy_spend_mint_mismatch"
      | Some None => inl "policy_spend_mint_mismatch"
      end
  end.

Definition fee_instruction (rule : SignerProgramRule) (ix : DecodedInstruction) (st : Running) : result Running :=
  if streq (discriminator rule) SET_UNIT_LIMIT then
    match explicitLimit st with
    | Some _ => inl "policy_compute_units"
    | None =>
        let? n := readAmount (data ix) 1 u32le in
        inr {| spent := spent st; explicitLimit := Some n; unitPrice := unitPrice st |}
    end
  else if streq (discriminator rule) SET_UNIT_PRICE then
    match unitPrice st with
    | Some _ => inl "policy_compute_unit_price"
    | None =>
        let? n := readAmount (data ix) 1 u64le in
        inr {| spent := spent st; explicitLimit := explicitLimit st; unitPrice := Some n |}
    end
  else inr st.

Definition spend_instruction (s : SignerSpendRule) (ix : DecodedInstruction) (st : Running) : result Running :=
  let? _u := check_mint s ix in
  let? n := readAmount (data ix) (amountOffset s) (amountEncoding s) in
  inr {| spent := spend_add (asset s) n (spent st); explicitLimit := explicitLimit st;
         unitPrice := unitPrice st |}.

(** One instruction. *)
Definition evaluate_instruction (p : SignPolicy) (st : Running) (ix : DecodedInstruction) : result Running :=
  let '(rule, programAllowed) := matchRule p (programId ix) (dataHex ix) in
  check negb programAllowed else "policy_program";
  match rule with
  | None => inl "policy_instruction"
  | Some rule =>
      match effect rule with
      | E_none => inr st
      | E_fee => fee_instruction rule ix st
      | E_spend s => spend_instruction s ix st
      end
  end.

Fixpoint evaluate_all (p : SignPolicy) (st : Running) (ixs : list DecodedInstruction) : result Running :=
  match ixs with
  | [] => inr st
  | ix :: ixs' => let? st' := evaluate_instruction p st ix in evaluate_all p st' ixs'
  end.

Definition cap_of (p : SignPolicy) (a : string) : option Z :=
  snd <$> List.find (fun e => streq (fst e) a) (caps p).

(** The loop over the spends. *)
Fixpoint check_caps (p : SignPolicy) (m : Spend) : result unit :=
  match m with
  | [] => inr tt
  | (a, total) :: m' =>
      match cap_of p a with
      | None => inl "policy_cap_missing"
      | Some cap => check cap <? total else "policy_spend_cap"; check_caps p m'
      end
  end.

Definition unit_limit (st : Running) (n : nat) : Z :=
  match explicitLimit st with
  | Some l => l
  | None => Z.min (DEFAULT_UNITS_PER_INSTRUCTION * Z.of_nat n) MAX_UNITS_PER_TRANSACTION
  end.

(** The fee ceiling in bps of the native leg, when both exist. *)
Definition over_fee_bps (p : SignPolicy) (m : Spend) (fee : Z) : bool :=
  match maxPriorityFeeBps p, spend_get NATIVE_ASSET m with
  | Some bps, Some leg => (0 <? leg) && (Z.quot (leg * bps) 10000 <? fee)
  | _, _ => false
  end.

(** `evaluatePolicy` *)
Definition evaluatePolicy (d : DecodedTransaction) (p : SignPolicy) (expectedFeePayer : string) :
    result PolicyEvaluation :=
  check negb (streq (feePayer d) expectedFeePayer) || negb (includes (feePayers p) (feePayer d))
  else "policy_fee_payer";
  check maxRequiredSignatures p <? numRequiredSignatures d else "policy_signers";
  check maxAccountKeys p <? Z.of_nat (length (staticAccountKeys d)) else "policy_account_keys";
  check maxInstructions p <? Z.of_nat (length (instructions d)) else "policy_instruction_count";
  check existsb (fun l => negb (includes (addressLookupTables p) l)) (addressTableLookups d)
  else "policy_address_table_lookup";
  let? st := evaluate_all p {| spent := []; explicitLimit := None; unitPrice := None |} (instructions d) in
  let limit := unit_limit st (length (instructions d)) in
  check negb (isSafeInteger limit) || (limit <? 0) || (maxComputeUnitLimit p <? limit)
  else "policy_compute_units";
  let price := default 0 (unitPrice st) in
  check maxComputeUnitPriceMicroLamports p <? price else "policy_compute_unit_price";
  let fee := Z.quot (limit * price + 999999) 1000000 in
  check maxPriorityFeeLamports p <? fee else "policy_priority_fee";
  check over_fee_bps p (spent st) fee else "policy_priority_fee";
  let? _u := check_caps p (spent st) in
  inr {| spend := spent st; computeUnitLimit := limit; computeUnitPriceMicroLamports := price;
         priorityFeeLamports := fee |}.

(** *** The rule that applies *)

Definition matches (prog hexdata : string) (rule : SignerProgramRule) : Prop :=
  r_programId rule = prog /\ String.prefix (discriminator rule) hexdata = true.

(** [rule] is the most specific of [rules]. *)
Definition best_match (prog hexdata : string) (rules : list SignerProgramRule) (rule : SignerProgramRule) : Prop :=
  rule ∈ rules /\ matches prog hexdata rule /\
  forall r, r ∈ rules -> matches prog hexdata r ->
    (String.length (discriminator r) <= String.length (discriminator rule))%nat.

Lemma better_spec prog h best rule rules :
  (forall b, best = Some b -> best_match prog h rules b) ->
  (best = None -> forall r, r ∈ rules -> ~ matches prog h r) ->
  (forall b, better prog h best rule = Some b -> best_match prog h (rules ++ [rule]) b) /\
  (better prog h best rule = None -> forall r, r ∈ rules ++ [rule] -> ~ matches prog h r).
Proof.
  intros Hb Hn.
  assert (forall b, best = Some b -> ~ matches prog h rule -> best_match prog h (rules ++ [rule]) b) as Hkeep.
  { intros b (Hin & Hm & Hmax)%Hb Hrule. split_and!; [apply elem_of_app; by left|done|].
    intros r [Hr|Hr]%elem_of_app Hmr; [by apply Hmax|]. by apply list_elem_of_singleton in Hr as ->. }
  assert (best = None -> ~ matches prog h rule -> forall r, r ∈ rules ++ [rule] -> ~ matches prog h r) as Hnone.
  { intros Hbn Hrule r [Hr|Hr]%elem_of_app; [by apply Hn|]. by apply list_elem_of_singleton in Hr as ->. }
  unfold better. destruct (streq (r_programId rule) prog) eqn:Ep; simpl; bool_hyps;
    [|assert (~ matches prog h rule) by (by intros [? _]); auto].
  destruct (String.prefix _ h) eqn:Eh; simpl; [|assert (~ matches prog h rule) by (intros [_ ?]; congruence); auto].
  destruct best as [b|].
  - destruct (Hb b eq_refl) as (Hin & Hm & Hmax). split; [|by case_match]. intros b' E.
    destruct (_ <? _)%nat eqn:El; injection E as <-.
    + apply Nat.ltb_lt in El. split_and!; [apply elem_of_app; right; apply list_elem_of_here|done|].
      intros r [Hr|Hr]%elem_of_app Hmr; [specialize (Hmax r Hr Hmr); lia|].
      by apply list_elem_of_singleton in Hr as ->.
    + apply Nat.ltb_ge in El. split_and!; [apply elem_of_app; by left|done|].
      intros r [Hr|Hr]%elem_of_app Hmr; [by apply Hmax|]. by apply list_elem_of_singleton in Hr as ->.
  - split; [|done]. intros b' [= <-]. split_and!; [apply elem_of_app; right; apply list_elem_of_here|done|].
    intros r [Hr|Hr]%elem_of_app Hmr; [by destruct (Hn eq_refl r Hr)|].
    by apply list_elem_of_singleton in Hr as ->.
Qed.

Lemma matchRule_spec p prog h :
  match fst (matchRule p prog h) with
  | Some rule => best_match prog h (programs p) rule
  | None => forall r, r ∈ programs p -> ~ matches prog h r
  end.
Proof.
  assert (forall rules best pre,
    (forall b, best = Some b -> best_match prog h pre b) ->
    (best = None -> forall r, r ∈ pre -> ~ matches prog h r) ->
    match fold_left (better prog h) rules best with
    | Some rule => best_match prog h (pre ++ rules) rule
    | None => forall r, r ∈ pre ++ rules -> ~ matches prog h r
    end) as H.
  { induction rules as [|rule rules IH]; intros best pre Hb Hn; simpl.
    - rewrite app_nil_r. destruct best; auto.
    - rewrite cons_middle, app_assoc. destruct (better_spec prog h best rule pre Hb Hn) as [H1 H2].
      by apply IH. }
  simpl. apply (H (programs p) None []); [done|]. by intros _ r Hr%elem_of_nil.
Qed.

(** *** What an accepted transaction moves *)

(** [n] bytes from [off] as a little-endian number, byte by byte; [None] past the end. *)
Definition field (off n : nat) (d : list Z) : option Z :=
  if (off + n <=? length d)%nat then Some (sum_by (fun i => default 0 (d !! (off + i)%nat) * 256 ^ Z.of_nat i) (seq 0 n)) else None.

(** The amount of an asset one instruction moves, by the bytes its rule names. *)
Definition moves (p : SignPolicy) (a : string) (ix : DecodedInstruction) : option Z :=
  match fst (matchRule p (programId ix) (dataHex ix)) with
  | Some rule =>
      match effect rule with
      | E_spend s =>
          if streq (asset s) a
          then if amountOffset s <? 0 then None
               else field (Z.to_nat (amountOffset s)) (match amountEncoding s with u64le => 8 | u32le => 4 end) (data ix)
          else None
      | _ => None
      end
  | None => None
  end.

Definition moved (p : SignPolicy) (a : string) (ixs : list DecodedInstruction) : Z :=
  sum_by (fun ix => default 0 (moves p a ix)) ixs.

Lemma spend_get_add a b n m :
  spend_get a (spend_add b n m) =
  if streq b a then Some (default 0 (spend_get a m) + n) else spend_get a m.
Proof.
  unfold spend_get. induction m as [|[c x] m IH]; simpl.
  - by destruct (streq b a).
  - destruct (streq c b) eqn:Ecb; simpl.
    + apply streq_spec in Ecb as ->. by destruct (streq b a).
    + destruct (streq c a) eqn:Eca; simpl; [|exact IH].
      apply streq_spec in Eca as ->. destruct (streq b a) eqn:Eba; [|done].
      apply streq_spec in Eba as ->. by rewrite streq_refl in Ecb.
Qed.

(** What the compute-budget instructions a rule knows by [disc] set. *)
Definition fee_field (p : SignPolicy) (disc : string) (n : nat) (ix : DecodedInstruction) : option Z :=
  match fst (matchRule p (programId ix) (dataHex ix)) with
  | Some rule =>
      match effect rule with
      | E_fee => if streq (discriminator rule) disc then field 1 n (data ix) else None
      | _ => None
      end
  | None => None
  end.

Definition fee_fields (p : SignPolicy) (disc : string) (n : nat) (ixs : list DecodedInstruction) : list Z :=
  omap (fee_field p disc n) ixs.

(** Spends whose rule names a mint account are of that mint. *)
Definition mint_named (p : SignPolicy) (ix : DecodedInstruction) : Prop :=
  forall rule s i, fst (matchRule p (programId ix) (dataHex ix)) = Some rule -> effect rule = E_spend s ->
  mintAccountIndex s = Some i -> accounts ix !! Z.to_nat i = Some (Some (asset s)).

Lemma le_value_field n d : (n <= length d)%nat ->
  le_value (take n d) = sum_by (fun i => default 0 (d !! i) * 256 ^ Z.of_nat i) (seq 0 n).
Proof.
  revert d. induction n as [|n IH]; intros [|b d] Hn; cbn in Hn; try done; try lia.
  cbn [take le_value seq]. rewrite IH by lia. rewrite sum_by_cons, <- fmap_S_seq. cbn [lookup list_lookup default].
  change (Z.of_nat 0) with 0. rewrite Z.pow_0_r, Z.mul_1_r. f_equal.
  change (S <$> seq 0 n) with (map S (seq 0 n)). rewrite sum_by_map. generalize (seq 0 n). intros l.
  induction l as [|i l IHl]; [done|]. rewrite !sum_by_cons, <- IHl, Nat2Z.inj_succ, Z.pow_succ_r by lia. cbn [lookup list_lookup].
  match goal with |- 256 * (?x * ?y + ?z) = ?w * _ + _ => change w with x; generalize x y z; intros; ring end.
Qed.

Lemma readAmount_field d off e n : readAmount d off e = inr n ->
  0 <= off /\ field (Z.to_nat off) (match e with u64le => 8 | u32le => 4 end) d = Some n.
Proof.
  unfold readAmount. intros Hr. open_result Hr. bool_hyps. injection Hr as <-. split; [done|]. unfold field.
  destruct (Nat.leb_spec (Z.to_nat off + (match e with u64le => 8 | u32le => 4 end)) (length d)) as [Hl|Hl];
    [|destruct e; cbn [width] in *; lia].
  f_equal. rewrite le_value_field by (rewrite length_drop; destruct e; cbn [width]; lia).
  replace (Z.to_nat (width e)) with (match e with u64le => 8 | u32le => 4 end)%nat by by destruct e.
  apply sum_by_ext. intros i _. by rewrite lookup_drop.
Qed.

(** One instruction adds exactly what it moves to the running total. *)
Lemma evaluate_instruction_spend p st ix st' a :
  evaluate_instruction p st ix = inr st' ->
  spend_get a (spent st') =
  match moves p a ix with
  | Some n => Some (default 0 (spend_get a (spent st)) + n)
  | None => spend_get a (spent st)
  end.
Proof.
  unfold evaluate_instruction, moves. destruct (matchRule p _ _) as [[rule|] ok] eqn:E; simpl; intros H;
    open_result H; [|done].
  destruct (effect rule) as [| |s].
  - by simplify_eq.
  - unfold fee_instruction in H. repeat case_match; simplify_eq/=; try done; open_result H; by simplify_eq/=.
  - unfold spend_instruction in H. open_result H. simplify_eq/=. rewrite spend_get_add.
    destruct (streq (asset s) a); [|done]. apply readAmount_field in Ha0 as [Ho ->].
    by rewrite (proj2 (Z.ltb_ge _ _) Ho).
Qed.

Lemma evaluate_all_spend p ixs st st' a :
  evaluate_all p st ixs = inr st' ->
  default 0 (spend_get a (spent st')) = default 0 (spend_get a (spent st)) + moved p a ixs /\
  (spend_get a (spent st) <> None \/ (exists ix, ix ∈ ixs /\ moves p a ix <> None) ->
   spend_get a (spent st') <> None).
Proof.
  unfold moved. revert st. induction ixs as [|ix ixs IH]; intros st H; simpl in H.
  - simplify_eq. rewrite sum_by_nil, Z.add_0_r. split; [done|]. intros [?|(ix & Hix & _)]; [done|].
    by apply elem_of_nil in Hix.
  - open_result H. destruct (IH _ H) as [IH1 IH2].
    pose proof (evaluate_instruction_spend _ _ _ _ a Ha) as Hs. rewrite sum_by_cons, IH1, Hs. split.
    + destruct (moves p a ix); simpl; lia.
    + intros Hsome. apply IH2. rewrite Hs. destruct Hsome as [Hg|(x & [->|Hx]%elem_of_cons & Hm)].
      * left. by destruct (moves p a ix).
      * left. by destruct (moves p a ix).
      * right. eauto.
Qed.

(** One instruction sets the limit and the price its compute-budget rule reads, each once. *)
Lemma evaluate_instruction_fee p st ix st' : evaluate_instruction p st ix = inr st' ->
  option_list (explicitLimit st') = option_list (explicitLimit st) ++ option_list (fee_field p SET_UNIT_LIMIT 4 ix) /\
  option_list (unitPrice st') = option_list (unitPrice st) ++ option_list (fee_field p SET_UNIT_PRICE 8 ix) /\ mint_named p ix.
Proof.
  unfold evaluate_instruction, fee_field, mint_named. destruct (matchRule p _ _) as [[rule|] ok] eqn:E; cbn [fst]; intros H;
    open_result H; [|done].
  destruct (effect rule) as [| |s] eqn:Ee.
  - simplify_eq. rewrite !app_nil_r. split_and!; [done..|]. intros; congruence.
  - unfold fee_instruction in H. destruct (streq (discriminator rule) SET_UNIT_LIMIT) eqn:E1.
    + apply streq_spec in E1 as E1'. rewrite E1'. change (streq SET_UNIT_LIMIT SET_UNIT_PRICE) with false. cbn [option_list].
      destruct (explicitLimit st); [done|]. open_result H. apply readAmount_field in Ha as [_ Hf].
      simplify_eq/=. change (Z.to_nat 1) with 1%nat in Hf. rewrite Hf, app_nil_r. split_and!; [done..|]. intros; congruence.
    + destruct (streq (discriminator rule) SET_UNIT_PRICE) eqn:E2.
      * destruct (unitPrice st); [done|]. open_result H. apply readAmount_field in Ha as [_ Hf].
        simplify_eq/=. change (Z.to_nat 1) with 1%nat in Hf. rewrite Hf, app_nil_r. split_and!; [done..|]. intros; congruence.
      * simplify_eq. rewrite !app_nil_r. split_and!; [done..|]. intros; congruence.
  - unfold spend_instruction in H. open_result H. simplify_eq/=. rewrite !app_nil_r. split_and!; [done..|].
    intros r s' i [= <-] Hs Hi. rewrite Ee in Hs. injection Hs as <-. unfold check_mint in Ha. rewrite Hi in Ha.
    destruct (accounts ix !! Z.to_nat i) as [[acc|]|]; try done. apply throw_on_inr in Ha. bool_hyps. by subst.
Qed.

Lemma evaluate_all_fee p ixs st st' : evaluate_all p st ixs = inr st' ->
  option_list (explicitLimit st') = option_list (explicitLimit st) ++ fee_fields p SET_UNIT_LIMIT 4 ixs /\
  option_list (unitPrice st') = option_list (unitPrice st) ++ fee_fields p SET_UNIT_PRICE 8 ixs /\
  (forall ix, ix ∈ ixs -> mint_named p ix).
Proof.
  revert st. induction ixs as [|ix ixs IH]; intros st H; cbn [evaluate_all] in H.
  - simplify_eq. rewrite !app_nil_r. split_and!; [done..|]. by intros ? ?%elem_of_nil.
  - open_result H. destruct (evaluate_instruction_fee _ _ _ _ Ha) as (E1 & E2 & E3). destruct (IH _ H) as (I1 & I2 & I3).
    rewrite I1, I2, E1, E2. unfold fee_fields. cbn [omap list_omap].
    assert (forall (o : option Z) l, option_list o ++ l = match o with Some y => y :: l | None => l end) as Ho by (by intros []).
    rewrite <- !app_assoc, !Ho. split_and!; [done..|]. intros x [->|Hx]%elem_of_cons; [done|by apply I3].
Qed.

(** Every instruction of an accepted transaction is one the policy lists. *)
Lemma evaluate_all_rules p ixs st st' :
  evaluate_all p st ixs = inr st' ->
  forall ix, ix ∈ ixs -> exists rule, best_match (programId ix) (dataHex ix) (programs p) rule.
Proof.
  revert st. induction ixs as [|ix ixs IH]; intros st H x Hx; [by apply elem_of_nil in Hx|].
  simpl in H. open_result H. apply elem_of_cons in Hx as [->|Hx]; [|by eapply IH].
  unfold evaluate_instruction in Ha.
  pose proof (matchRule_spec p (programId ix) (dataHex ix)) as Hm.
  destruct (matchRule p _ _) as [[rule|] ok]; simpl in Hm; [by eauto|]. by open_result Ha.
Qed.

Lemma check_caps_sound p m a total :
  check_caps p m = inr tt -> spend_get a m = Some total ->
  exists cap, cap_of p a = Some cap /\ total <= cap.
Proof.
  unfold spend_get. induction m as [|[b n] m IH]; simpl; [done|].
  destruct (cap_of p b) as [cap|] eqn:Ecap; [|done]. intros H Hf. open_result H.
  destruct (streq b a) eqn:Eb; simpl in Hf.
  - bool_hyps. simplify_eq. eauto.
  - by apply IH.
Qed.

(** The fee is the product in lamports, rounded up. *)
Lemma fee_rounded_up units : 0 <= units ->
  units <= Z.quot (units + 999999) 1000000 * 1000000 < units + 1000000.
Proof.
  intros Hu. rewrite Z.quot_div_nonneg by lia.
  pose proof (Z.div_mod (units + 999999) 1000000). pose proof (Z.mod_pos_bound (units + 999999) 1000000). lia.
Qed.

(** C13: a transaction the signer's policy accepts has the expected fee payer,
    stays within every count, refers only to permitted lookup tables, and every
    instruction falls under a listed rule of its program, the most specific one; a spend
    whose rule names a mint account is of that mint; of every asset any instruction moves,
    the sum over all instructions of the bytes their rules name is within a cap the policy
    states.  The compute limit is the one number the transaction sets, or the default for
    its instructions, and the price the one it sets, or zero; both are within the policy,
    and their product rounded up to lamports is the priority fee, within the ceiling and
    within the policy's share of the native spend. *)
Theorem evaluatePolicy_sound d p payer ev (Hev : evaluatePolicy d p payer = inr ev) :
  (feePayer d = payer /\ payer ∈ feePayers p /\
   numRequiredSignatures d <= maxRequiredSignatures p /\
   Z.of_nat (length (staticAccountKeys d)) <= maxAccountKeys p /\
   Z.of_nat (length (instructions d)) <= maxInstructions p /\
   (forall l, l ∈ addressTableLookups d -> l ∈ addressLookupTables p)) /\
  (forall ix, ix ∈ instructions d ->
     mint_named p ix /\ exists rule, best_match (programId ix) (dataHex ix) (programs p) rule) /\
  (forall a, (exists ix, ix ∈ instructions d /\ moves p a ix <> None) ->
     exists cap, cap_of p a = Some cap /\ moved p a (instructions d) <= cap) /\
  (fee_fields p "02" 4 (instructions d) = [computeUnitLimit ev] \/
   fee_fields p "02" 4 (instructions d) = [] /\
   computeUnitLimit ev = Z.min (200000 * Z.of_nat (length (instructions d))) 1400000) /\
  (fee_fields p "03" 8 (instructions d) = [computeUnitPriceMicroLamports ev] \/
   fee_fields p "03" 8 (instructions d) = [] /\ computeUnitPriceMicroLamports ev = 0) /\
  (0 <= computeUnitLimit ev <= maxComputeUnitLimit p /\
   computeUnitPriceMicroLamports ev <= maxComputeUnitPriceMicroLamports p) /\
  (priorityFeeLamports ev <= maxPriorityFeeLamports p /\
   (forall bps, maxPriorityFeeBps p = Some bps -> 0 < moved p NATIVE_ASSET (instructions d) ->
      priorityFeeLamports ev <= Z.quot (moved p NATIVE_ASSET (instructions d) * bps) 10000) /\
   (0 <= computeUnitPriceMicroLamports ev ->
    computeUnitLimit ev * computeUnitPriceMicroLamports ev <= priorityFeeLamports ev * 1000000 <
    computeUnitLimit ev * computeUnitPriceMicroLamports ev + 1000000)).
Proof.
  unfold evaluatePolicy in Hev. open_result Hev. bool_hyps.
  match goal with H : evaluate_all _ _ _ = inr ?s |- _ => rename H into Hall; rename s into st end.
  match goal with H : check_caps _ _ = inr ?u |- _ => destruct u; rename H into Hcaps end.
  match goal with H : over_fee_bps _ _ _ = false |- _ => rename H into Hbps end.
  injection Hev as <-. cbn [computeUnitLimit computeUnitPriceMicroLamports priorityFeeLamports].
  destruct (evaluate_all_fee _ _ _ _ Hall) as (Hlim & Hpr & Hmint). simpl in Hlim, Hpr.
  change SET_UNIT_LIMIT with "02" in Hlim. change SET_UNIT_PRICE with "03" in Hpr. rewrite <- Hlim, <- Hpr.
  assert (forall a t, spend_get a (spent st) = Some t -> moved p a (instructions d) = t) as Hmoved.
  { intros a t Et. destruct (evaluate_all_spend _ _ _ _ a Hall) as [Htot _]. rewrite Et in Htot. cbn in Htot. lia. }
  split_and!; try done; try lia; try congruence.
  - intros l Hl. match goal with H : existsb _ (addressTableLookups d) = false |- _ => rename H into Hex end.
    destruct (includes (addressLookupTables p) l) eqn:E; [by apply includes_spec|].
    exfalso. apply (not_true_iff_false _) in Hex. apply Hex, existsb_exists. exists l.
    rewrite <- list_elem_of_In, E. done.
  - intros ix Hix. split; [by apply Hmint|]. by eapply evaluate_all_rules.
  - intros a Ha'. destruct (evaluate_all_spend _ _ _ _ a Hall) as [_ Hsome]. cbn in Hsome.
    destruct (spend_get a (spent st)) as [t|] eqn:Et; [|by destruct Hsome; [right|]].
    rewrite (Hmoved _ _ Et). by eapply check_caps_sound.
  - unfold unit_limit. destruct (explicitLimit st); [by left|by right].
  - destruct (unitPrice st); [by left|by right].
  - intros bps Hb Hpos. unfold over_fee_bps in Hbps. rewrite Hb in Hbps.
    destruct (spend_get NATIVE_ASSET (spent st)) as [t|] eqn:Et.
    + rewrite (Hmoved _ _ Et) in Hpos |- *. rewrite (proj2 (Z.ltb_lt 0 t) Hpos) in Hbps. by apply Z.ltb_ge in Hbps.
    + exfalso. destruct (evaluate_all_spend _ _ _ _ NATIVE_ASSET Hall) as [Htot _]. rewrite Et in Htot. cbn in Htot. lia.
  - intros Hp. apply fee_rounded_up. by apply Z.mul_nonneg_nonneg.
Qed.

(** *** Loading a policy *)

Section Loading.
(** `isPublicKey`: base58 of 32 bytes. *)
Context (isPublicKey : string -> bool).

(** `x.key`, undefined when absent. *)
Definition member (x : value) (key : string) : option value :=
  match x with
  | V_object fs => snd <$> List.find (fun f => streq (fst f) key) fs
  | _ => None
  end.

Definition is_public_key (x : option value) : bool :=
  match x with Some (V_string s) => isPublicKey s | _ => false end.

(** The regular expression of `parseUnsigned`: a decimal numeral with no leading zero. *)
Definition unsigned_text (l : list ascii) : bool :=
  match l with
  | [] => false
  | ["0"%char] => true
  | c :: _ => negb (Ascii.eqb c "0"%char) && forallb is_digit l
  end.

Definition parseUnsigned (x : option value) (label : string) : result Z :=
  match x with
  | Some (V_string s) =>
      if unsigned_text (String.list_ascii_of_string s) then inr (digits_value (String.list_ascii_of_string s))
      else inl (String.append "policy_" (String.append label "_invalid"))
  | _ => inl (String.append "policy_" (String.append label "_invalid"))
  end.

Definition parseCount (x : option value) (label : string) (max : Z) : result Z :=
  match x with
  | Some (V_number n) =>
      if negb (isSafeInteger n) || (n <? 0) || (max <? n)
      then inl (String.append "policy_" (String.append label "_invalid")) else inr n
  | _ => inl (String.append "policy_" (String.append label "_invalid"))
  end.

Definition parseOptionalCount (x : option value) (label : string) (max : Z) : result (option Z) :=
  match x with
  | None => inr None
  | _ => let? n := parseCount x label max in inr (Some n)
  end.

(** A character of `HEX_PREFIX`. *)
Definition is_hex_char (c : ascii) : bool :=
  is_digit c || ((97 <=? nat_of_ascii c)%nat && (nat_of_ascii c <=? 102)%nat).

Definition hex_prefix (s : string) : bool :=
  negb (streq s "") && Nat.even (String.length s) && all_chars is_hex_char s.

Definition parse_encoding (x : option value) : option AmountEncoding :=
  match x with
  | Some (V_string s) => if streq s "u64le" then Some u64le else if streq s "u32le" then Some u32le else None
  | _ => None
  end.

Definition parse_asset (x : option value) : option string :=
  match x with
  | Some (V_string s) => if streq s NATIVE_ASSET || isPublicKey s then Some s else None
  | _ => None
  end.

Definition parse_spend (x : option value) : result SignerSpendRule :=
  match x with
  | Some (V_object fs) =>
      let s := V_object fs in
      match parse_asset (member s "asset"), parse_encoding (member s "amountEncoding") with
      | Some a, Some enc =>
          let? offset := parseCount (member s "amountOffset") "spend" 1024 in
          let? idx := parseOptionalCount (member s "mintAccountIndex") "spend" 255 in
          check negb (bool_decide (idx = None)) && streq a NATIVE_ASSET else "policy_spend_invalid";
          inr {| asset := a; amountOffset := offset; amountEncoding := enc; mintAccountIndex := idx |}
      | _, _ => inl "policy_spend_invalid"
      end
  | _ => inl "policy_spend_invalid"
  end.

Definition parse_effect (r : value) (prog disc : string) : result Effect :=
  match member r "effect" with
  | Some (V_string e) =>
      if streq e "none" then inr E_none
      else if streq e "fee" then
        check negb (streq prog COMPUTE_BUDGET_PROGRAM_ID) else "policy_fee_effect_invalid";
        check negb (streq disc SET_UNIT_LIMIT) && negb (streq disc SET_UNIT_PRICE)
        else "policy_fee_effect_invalid";
        inr E_fee
      else if streq e "spend" then let? s := parse_spend (member r "spend") in inr (E_spend s)
      else inl "policy_effect_invalid"
  | _ => inl "policy_effect_invalid"
  end.

Definition parseProgramRule (x : value) : result SignerProgramRule :=
  match x with
  | V_object _ | V_array _ =>
      match member x "programId" with
      | Some (V_string prog) =>
          check negb (isPublicKey prog) else "policy_program_invalid";
          match member x "discriminator" with
          | Some (V_string disc) =>
              check negb (hex_prefix disc) || (32 <? Z.of_nat (String.length disc))
              else "policy_discriminator_invalid";
              let? e := parse_effect x prog disc in
              inr {| r_programId := prog; discriminator := disc; effect := e |}
          | _ => inl "policy_discriminator_invalid"
          end
      | _ => inl "policy_program_invalid"
      end
  | _ => inl "policy_program_invalid"
  end.

(** `xs.map(f)` where [f] may throw. *)
Fixpoint map_result {A B} (f : A -> result B) (l : list A) : result (list B) :=
  match l with
  | [] => inr []
  | x :: l' => let? y := f x in let? ys := map_result f l' in inr (y :: ys)
  end.

Definition rule_key (r : SignerProgramRule) : string :=
  String.append (r_programId r) (String.append ":" (discriminator r)).

Definition parse_cap (f : string * value) : result (string * Z) :=
  check negb (streq (fst f) NATIVE_ASSET) && negb (isPublicKey (fst f)) else "policy_cap_invalid";
  let? n := parseUnsigned (Some (snd f)) "cap" in
  inr (fst f, n).

Definition strings_of (l : list value) : list string :=
  omap (fun v => match v with V_string s => Some s | _ => None end) l.

Record LoadedSignPolicy : Type := { policy : SignPolicy; version : Z; hash : string }.

(** `loadSignPolicy` past the file checks; [hash] is the digest of the file. *)
Definition parse_policy (x : value) (hash : string) : result LoadedSignPolicy :=
  match member x "version", member x "cluster", member x "feePayers", member x "programs",
        member x "caps", member x "addressLookupTables" with
  | Some (V_number 1), Some (V_string cl), Some (V_array payers), Some (V_array progs),
    Some (V_object cs), Some (V_array tables) =>
      check streq cl "" || (length payers =? 0)%nat ||
            negb (forallb (fun v => is_public_key (Some v)) payers) || (length progs =? 0)%nat ||
            negb (forallb (fun v => is_public_key (Some v)) tables)
      else "policy_format_invalid";
      let? rules := map_result parseProgramRule progs in
      check negb (bool_decide (NoDup (map rule_key rules))) else "policy_program_duplicate";
      let? caps := map_result parse_cap cs in
      let? a := parseCount (member x "maxInstructions") "max_instructions" 64 in
      let? b := parseCount (member x "maxAccountKeys") "max_account_keys" 256 in
      let? c := parseCount (member x "maxRequiredSignatures") "max_required_signatures" 8 in
      let? u := parseCount (member x "maxComputeUnitLimit") "max_compute_unit_limit" MAX_UNITS_PER_TRANSACTION in
      let? price := parseUnsigned (member x "maxComputeUnitPriceMicroLamports") "max_compute_unit_price" in
      let? fee := parseUnsigned (member x "maxPriorityFeeLamports") "max_priority_fee" in
      let? bps := parseOptionalCount (member x "maxPriorityFeeBps") "max_priority_fee_bps" 10000 in
      inr {| policy := {| cluster := cl; feePayers := strings_of payers; programs := rules; caps := caps;
                          maxInstructions := a; maxAccountKeys := b; maxRequiredSignatures := c;
                          maxComputeUnitLimit := u; maxComputeUnitPriceMicroLamports := price;
                          maxPriorityFeeLamports := fee; maxPriorityFeeBps := bps;
                          addressLookupTables := strings_of tables |};
             version := 1; hash := hash |}
  | _, _, _, _, _, _ => inl "policy_format_invalid"
  end.

(** *** What loading guarantees *)

(** What an effect may be under a rule of program [prog] and discriminator [disc]. *)
Definition effect_ok (prog disc : string) (e : Effect) : Prop :=
  match e with
  | E_none => True
  | E_fee => prog = COMPUTE_BUDGET_PROGRAM_ID /\ (disc = SET_UNIT_LIMIT \/ disc = SET_UNIT_PRICE)
  | E_spend s => 0 <= amountOffset s <= 1024 /\ (asset s = NATIVE_ASSET \/ isPublicKey (asset s) = true) /\
      (forall i, mintAccountIndex s = Some i -> 0 <= i <= 255 /\ asset s <> NATIVE_ASSET)
  end.

Definition rule_ok (r : SignerProgramRule) : Prop :=
  isPublicKey (r_programId r) = true /\ hex_prefix (discriminator r) = true /\
  (String.length (discriminator r) <= 32)%nat /\ effect_ok (r_programId r) (discriminator r) (effect r).

Lemma parseCount_bounds x label max n : parseCount x label max = inr n -> 0 <= n <= max.
Proof. unfold parseCount. repeat case_match; try done. intros [= <-]. bool_hyps. lia. Qed.

Lemma parseUnsigned_nonneg x label n : parseUnsigned x label = inr n -> 0 <= n.
Proof.
  unfold parseUnsigned. destruct x as [[]|]; try done. destruct (unsigned_text _) eqn:E; [|done].
  intros [= <-]. apply digits_value_bound.
  unfold unsigned_text in E. repeat case_match; bool_hyps; done.
Qed.

Lemma parseOptionalCount_bounds x label max n :
  parseOptionalCount x label max = inr (Some n) -> 0 <= n <= max.
Proof.
  unfold parseOptionalCount. destruct x; [|done]. intros H. open_result H. simplify_eq.
  by eapply parseCount_bounds.
Qed.

Lemma parse_spend_ok x s prog disc : parse_spend x = inr s -> effect_ok prog disc (E_spend s).
Proof.
  unfold parse_spend. destruct x as [[]|]; try done. destruct (parse_asset _) as [a|] eqn:Ea; [|done].
  destruct (parse_encoding _); [|done]. intros H. open_result H. injection H as <-. simpl.
  assert (a = NATIVE_ASSET \/ isPublicKey a = true) as Hasset.
  { unfold parse_asset in Ea. repeat case_match; simplify_eq.
    match goal with E : _ || _ = true |- _ => apply orb_true_iff in E as [E|E] end; bool_hyps; auto. }
  split; [by eapply parseCount_bounds|]. split; [done|]. intros i ->. split; [by eapply parseOptionalCount_bounds|].
  apply andb_false_iff in Hb as [Hb|Hb]; by bool_hyps.
Qed.

Lemma parse_effect_ok r prog disc e : parse_effect r prog disc = inr e -> effect_ok prog disc e.
Proof.
  unfold parse_effect. destruct (member r "effect") as [[]|]; try done.
  repeat case_match; intros H'; open_result H'; try done; injection H' as <-; try done.
  - simpl. bool_hyps. split; [done|].
    match goal with E : _ && _ = false |- _ => apply andb_false_iff in E as [E|E] end; bool_hyps; auto.
  - by eapply parse_spend_ok.
Qed.

Lemma parseProgramRule_ok x r : parseProgramRule x = inr r -> rule_ok r.
Proof.
  unfold parseProgramRule. intros H.
  assert (match member x "programId" with
    | Some (V_string prog) =>
        check negb (isPublicKey prog) else "policy_program_invalid";
        match member x "discriminator" with
        | Some (V_string disc) =>
            check negb (hex_prefix disc) || (32 <? Z.of_nat (String.length disc)) else "policy_discriminator_invalid";
            let? e := parse_effect x prog disc in
            inr {| r_programId := prog; discriminator := disc; effect := e |}
        | _ => inl "policy_discriminator_invalid"
        end
    | _ => inl "policy_program_invalid"
    end = inr r) as H' by by destruct x.
  clear H. destruct (member x "programId") as [[]|]; try done. open_result H'.
  destruct (member x "discriminator") as [[]|]; try done. open_result H'. injection H' as <-. bool_hyps.
  split_and!; simpl; [done|done|lia|by eapply parse_effect_ok].
Qed.

Lemma map_result_elem {A B} (f : A -> result B) l ys y :
  map_result f l = inr ys -> y ∈ ys -> exists x, x ∈ l /\ f x = inr y.
Proof.
  revert ys. induction l as [|x l IH]; intros ys H Hy; simpl in H; open_result H; injection H as <-.
  - by apply elem_of_nil in Hy.
  - apply elem_of_cons in Hy as [->|Hy]; [exists x; split; [left|done]|].
    destruct (IH _ Ha0 Hy) as (x' & ? & ?). exists x'. split; [by right|done].
Qed.

(** Two prefixes of the same length of one string are equal. *)
Lemma prefix_same_length d e h :
  String.prefix d h = true -> String.prefix e h = true -> String.length d = String.length e -> d = e.
Proof.
  revert e h. induction d as [|c d IH]; intros [|c' e] [|b h] Hd He Hl; simpl in *; try done.
  destruct (Ascii.ascii_dec c b) as [<-|]; [|done]. destruct (Ascii.ascii_dec c' c) as [->|]; [|done].
  f_equal. eapply IH; eauto.
Qed.

(** Under distinct (program, discriminator) pairs the most specific rule is unique. *)
Lemma best_match_unique prog h rules r1 r2 :
  NoDup (map rule_key rules) -> best_match prog h rules r1 -> best_match prog h rules r2 -> r1 = r2.
Proof.
  intros Hnd (Hin1 & Hm1 & Hmax1) (Hin2 & Hm2 & Hmax2).
  pose proof (Hmax1 _ Hin2 Hm2). pose proof (Hmax2 _ Hin1 Hm1).
  destruct Hm1 as [Hp1 Hd1], Hm2 as [Hp2 Hd2].
  apply (keyed_same rule_key rules); [done..|]. unfold rule_key. rewrite Hp1, Hp2.
  by rewrite (prefix_same_length _ _ _ Hd1 Hd2) by lia.
Qed.

(** A policy whose rules are those of [p] in another order. *)
Definition with_programs (p : SignPolicy) (rules : list SignerProgramRule) : SignPolicy :=
  {| cluster := cluster p; feePayers := feePayers p; programs := rules; caps := caps p;
     maxInstructions := maxInstructions p; maxAccountKeys := maxAccountKeys p;
     maxRequiredSignatures := maxRequiredSignatures p; maxComputeUnitLimit := maxComputeUnitLimit p;
     maxComputeUnitPriceMicroLamports := maxComputeUnitPriceMicroLamports p;
     maxPriorityFeeLamports := maxPriorityFeeLamports p; maxPriorityFeeBps := maxPriorityFeeBps p;
     addressLookupTables := addressLookupTables p |}.

Lemma matchRule_permuted p rules prog h :
  NoDup (map rule_key (programs p)) -> programs p ≡ₚ rules ->
  matchRule (with_programs p rules) prog h = matchRule p prog h.
Proof.
  intros Hnd Hperm.
  pose proof (matchRule_spec p prog h) as H1. pose proof (matchRule_spec (with_programs p rules) prog h) as H2.
  assert (snd (matchRule (with_programs p rules) prog h) = snd (matchRule p prog h)) as Hs.
  { simpl. apply eq_true_iff_eq. rewrite !existsb_exists.
    split; intros (r & Hr & ?); exists r; split; try done; apply list_elem_of_In; rewrite Hperm || rewrite <- Hperm;
      by apply list_elem_of_In. }
  destruct (matchRule p prog h) as [o1 b1], (matchRule _ prog h) as [o2 b2]. simpl in *. subst b2. f_equal.
  assert (forall r, best_match prog h rules r -> best_match prog h (programs p) r) as Hback.
  { intros r (Hin & Hm & Hmax). split_and!; [by rewrite Hperm|done|]. intros r' Hr'. apply Hmax. by rewrite <- Hperm. }
  destruct o1 as [r1|], o2 as [r2|]; [|exfalso|exfalso|done].
  - f_equal. by eapply best_match_unique; [|apply Hback|].
  - destruct H1 as (Hin & Hm & _). apply (H2 r1); [by rewrite <- Hperm|done].
  - destruct (Hback _ H2) as (Hin & Hm & _). by apply (H1 r2).
Qed.

Lemma evaluate_all_permuted p rules ixs st :
  NoDup (map rule_key (programs p)) -> programs p ≡ₚ rules ->
  evaluate_all (with_programs p rules) st ixs = evaluate_all p st ixs.
Proof.
  intros Hnd Hperm. revert st. induction ixs as [|ix ixs IH]; intros st; [done|]. simpl.
  unfold evaluate_instruction. rewrite matchRule_permuted by done.
  unfold rbind. by repeat case_match.
Qed.


Lemma check_caps_programs p rules m : check_caps (with_programs p rules) m = check_caps p m.
Proof. induction m as [|[a n] m IH]; [done|]. simpl. by rewrite IH. Qed.

Definition loaded_ok (p : SignPolicy) : Prop :=
  (feePayers p <> [] /\ forall a, a ∈ feePayers p -> isPublicKey a = true) /\
  (programs p <> [] /\ forall r, r ∈ programs p -> rule_ok r) /\
  NoDup (map rule_key (programs p)) /\
  (forall a cap, (a, cap) ∈ caps p -> (a = NATIVE_ASSET \/ isPublicKey a = true) /\ 0 <= cap) /\
  (forall a, a ∈ addressLookupTables p -> isPublicKey a = true) /\
  0 <= maxInstructions p <= 64 /\ 0 <= maxAccountKeys p <= 256 /\ 0 <= maxRequiredSignatures p <= 8 /\
  0 <= maxComputeUnitLimit p <= MAX_UNITS_PER_TRANSACTION /\
  0 <= maxComputeUnitPriceMicroLamports p /\ 0 <= maxPriorityFeeLamports p /\
  (forall bps, maxPriorityFeeBps p = Some bps -> 0 <= bps <= 10000).

Lemma strings_of_keys l a :
  forallb (fun v => is_public_key (Some v)) l = true -> a ∈ strings_of l -> isPublicKey a = true.
Proof.
  intros Hall (v & Hv & E)%list_elem_of_omap. rewrite forallb_forall in Hall.
  specialize (Hall v (proj1 (list_elem_of_In _ _) Hv)). destruct v; simplify_eq/=. done.
Qed.

Lemma strings_of_nonempty l :
  forallb (fun v => is_public_key (Some v)) l = true -> l <> [] -> strings_of l <> [].
Proof. destruct l as [|[] l]; try done. Qed.

Lemma map_result_length {A B} (f : A -> result B) l ys : map_result f l = inr ys -> length ys = length l.
Proof.
  revert ys. induction l as [|x l IH]; intros ys H; simpl in H; open_result H; injection H as <-; [done|].
  simpl. f_equal. by apply IH.
Qed.

Lemma parse_policy_loaded x h L : parse_policy x h = inr L -> loaded_ok (policy L).
Proof.
  unfold parse_policy. intros H. repeat (case_match; try done). open_result H. injection H as <-.
  bool_hyps. unfold loaded_ok; simpl.
  split; [|split; [|split; [|split; [|split]]]].
  - split; [|intros a'; by eapply strings_of_keys]. apply strings_of_nonempty; [done|]. by destruct l.
  - split.
    + intros ->. apply map_result_length in Ha. by destruct l0.
    + intros r Hr. destruct (map_result_elem _ _ _ _ Ha Hr) as (w & _ & E). by eapply parseProgramRule_ok.
  - done.
  - intros a' cap Hc. destruct (map_result_elem _ _ _ _ Ha0 Hc) as (f & _ & E). unfold parse_cap in E.
    open_result E. injection E as <- <-. split; [|by eapply parseUnsigned_nonneg].
    match goal with E : _ && _ = false |- _ => apply andb_false_iff in E as [E|E] end; bool_hyps; auto.
  - intros a'. by eapply strings_of_keys.
  - repeat (split; [first [by eapply parseCount_bounds | by eapply parseUnsigned_nonneg]|]).
    intros bps ->. by eapply parseOptionalCount_bounds.
Qed.


(** C28: a policy file the signer loads has at least one fee payer and one rule;
    every listed key is a public key; every instruction it declares fee-moving is
    one of the two ComputeBudget instructions that set the fee; no two rules share
    program and discriminator; every cap is of the native asset or a mint and not
    negative; and every count is within its fixed bound. *)
Theorem loadSignPolicy_wellformed x h L (Hload : parse_policy x h = inr L) :
  loaded_ok (policy L) /\ hash L = h.
Proof.
  split; [by eapply parse_policy_loaded|].
  unfold parse_policy in Hload. repeat (case_match; try done). open_result Hload. by injection Hload as <-.
Qed.

(** what a loaded policy accepts does not depend on the order of its rules:
    any reordering gives the same evaluation of every transaction, the error
    included. *)
Theorem evaluatePolicy_order x h L rules d payer
    (Hload : parse_policy x h = inr L) (Hperm : programs (policy L) ≡ₚ rules) :
  evaluatePolicy d (with_programs (policy L) rules) payer = evaluatePolicy d (policy L) payer.
Proof.
  apply parse_policy_loaded in Hload as (_ & _ & Hnd & _).
  unfold evaluatePolicy. rewrite (evaluate_all_permuted _ _ _ _ Hnd Hperm).
  destruct (evaluate_all (policy L) _ _) as [e|st]; [reflexivity|].
  change (@rbind Running PolicyEvaluation (inr st)) with (fun f : Running -> result PolicyEvaluation => f st). cbv beta.
  rewrite check_caps_programs. reflexivity.
Qed.
End Loading.

(** *** A policy, a file and a transaction *)

Definition demo_key (s : string) : bool := (16 <=? String.length s)%nat.

Definition demo_rule (prog disc eff : string) (extra : list (string * value)) : value :=
  V_object ([("programId", V_string prog); ("discriminator", V_string disc); ("effect", V_string eff)] ++ extra).

Definition demo_spend : value :=
  V_object [("asset", V_string NATIVE_ASSET); ("amountOffset", V_number 4); ("amountEncoding", V_string "u64le")].

Definition demo_file : value := V_object
  [("version", V_number 1); ("cluster", V_string "devnet");
   ("feePayers", V_array [V_string "FeePayer11111111"]);
   ("programs", V_array
     [demo_rule "11111111111111111111111111111111" "02000000" "spend" [("spend", demo_spend)];
      demo_rule COMPUTE_BUDGET_PROGRAM_ID "03" "fee" [];
      demo_rule "11111111111111111111111111111111" "02" "none" []]);
   ("caps", V_object [(NATIVE_ASSET, V_string "1000")]);
   ("maxInstructions", V_number 8); ("maxAccountKeys", V_number 32); ("maxRequiredSignatures", V_number 1);
   ("maxComputeUnitLimit", V_number 1400000); ("maxComputeUnitPriceMicroLamports", V_string "50000");
   ("maxPriorityFeeLamports", V_string "100000"); ("maxPriorityFeeBps", V_number 1000);
   ("addressLookupTables", V_array [])].

Definition demo_rules : list SignerProgramRule :=
  [ {| r_programId := "11111111111111111111111111111111"; discriminator := "02000000";
       effect := E_spend {| asset := NATIVE_ASSET; amountOffset := 4; amountEncoding := u64le;
                            mintAccountIndex := None |} |};
    {| r_programId := COMPUTE_BUDGET_PROGRAM_ID; discriminator := "03"; effect := E_fee |};
    {| r_programId := "11111111111111111111111111111111"; discriminator := "02"; effect := E_none |} ].

Definition demo_policy (rules : list SignerProgramRule) : SignPolicy :=
  {| cluster := "devnet"; feePayers := ["FeePayer11111111"]; programs := rules; caps := [(NATIVE_ASSET, 1000)];
     maxInstructions := 8; maxAccountKeys := 32; maxRequiredSignatures := 1; maxComputeUnitLimit := 1400000;
     maxComputeUnitPriceMicroLamports := 50000; maxPriorityFeeLamports := 100000;
     maxPriorityFeeBps := Some 1000; addressLookupTables := [] |}.

(** A transfer of 700 lamports and a unit price of 5 micro-lamports. *)
Definition demo_tx (transfer : list Z) : DecodedTransaction :=
  {| feePayer := "FeePayer11111111"; recentBlockhash := "Blockhash"; numRequiredSignatures := 1;
     staticAccountKeys := ["FeePayer11111111"; "Receiver"; "11111111111111111111111111111111";
                           COMPUTE_BUDGET_PROGRAM_ID];
     signatures := [None]; addressTableLookups := [];
     instructions :=
       [ {| programId := COMPUTE_BUDGET_PROGRAM_ID; accounts := []; data := [3; 5; 0; 0; 0; 0; 0; 0; 0] |};
         {| programId := "11111111111111111111111111111111"; accounts := [Some "FeePayer11111111"; Some "Receiver"];
            data := [2; 0; 0; 0] ++ transfer |} ];
     messageBytes := [1]; messageBase64 := "AQ=="; messageHash := "0x01"; wireBase64 := "AAE=" |}.

Definition demo_evaluation : PolicyEvaluation :=
  {| spend := [(NATIVE_ASSET, 700)]; computeUnitLimit := 400000; computeUnitPriceMicroLamports := 5;
     priorityFeeLamports := 2 |}.

Example demo_over_cap :
  evaluatePolicy (demo_tx [233; 3; 0; 0; 0; 0; 0; 0]) (demo_policy demo_rules) "FeePayer11111111" =
  inl "policy_spend_cap".
Proof. vm_compute. reflexivity. Qed.

Lemma evaluatePolicy_sound_witness :
  moved (demo_policy demo_rules) NATIVE_ASSET (instructions (demo_tx [188; 2; 0; 0; 0; 0; 0; 0])) = 700 /\
  exists cap, cap_of (demo_policy demo_rules) NATIVE_ASSET = Some cap /\
    moved (demo_policy demo_rules) NATIVE_ASSET (instructions (demo_tx [188; 2; 0; 0; 0; 0; 0; 0])) <= cap.
Proof.
  split; [vm_compute; reflexivity|].
  pose proof (evaluatePolicy_sound (demo_tx [188; 2; 0; 0; 0; 0; 0; 0]) (demo_policy demo_rules)
    "FeePayer11111111" demo_evaluation ltac:(vm_compute; reflexivity)) as H.
  apply H. eexists. split; [apply list_elem_of_In; right; left; reflexivity|]. vm_compute. discriminate.
Defined.

Lemma loadSignPolicy_wellformed_witness :
  exists L, parse_policy demo_key demo_file "0xab" = inr L /\ policy L = demo_policy demo_rules /\
    loaded_ok demo_key (policy L).
Proof.
  exists {| policy := demo_policy demo_rules; version := 1; hash := "0xab" |}.
  assert (parse_policy demo_key demo_file "0xab" =
    inr {| policy := demo_policy demo_rules; version := 1; hash := "0xab" |}) as H by (vm_compute; reflexivity).
  split; [exact H|]. split; [reflexivity|].
  exact (proj1 (loadSignPolicy_wellformed demo_key demo_file "0xab" _ H)).
Defined.

Lemma evaluatePolicy_order_witness :
  evaluatePolicy (demo_tx [188; 2; 0; 0; 0; 0; 0; 0]) (demo_policy (rev demo_rules)) "FeePayer11111111" =
  inr demo_evaluation.
Proof.
  assert (parse_policy demo_key demo_file "0xab" =
    inr {| policy := demo_policy demo_rules; version := 1; hash := "0xab" |}) as H by (vm_compute; reflexivity).
  pose proof (evaluatePolicy_order demo_key demo_file "0xab" _ (rev demo_rules)
    (demo_tx [188; 2; 0; 0; 0; 0; 0; 0]) "FeePayer11111111" H (Permutation_rev _)) as E.
  transitivity (evaluatePolicy (demo_tx [188; 2; 0; 0; 0; 0; 0; 0]) (demo_policy demo_rules) "FeePayer11111111");
    [exact E|vm_compute; reflexivity].
Defined.
