(* ===== verification/SignerEnvelope.v ===== *)
(** `src/signer/authorization.ts`: authorization envelopes.

    The claims an operator's key signs, the canonical text the signature covers,
    and the comparison of the claims with the transaction the signer decoded
    itself.  The verification of the signature is an effect of the signer
    ([SignerService]).  Claims are the declared fields; numbers are integers. *)
From S2P Require Import Prelude Canonical SignerPolicy.
From Stdlib Require Import Ascii.
From stdpp Require Import sorting.
#[local] Open Scope string_scope.
#[local] Open Scope list_scope.
#[local] Open Scope Z_scope.
#[local] Open Scope result_scope.

Definition AUTHORIZATION_PROTOCOL : string := "ari-solana-execution-authorization".

Record AuthorizationInstructionClaim : Type := {
  ci_programId : string; ci_accounts : list (option string); ci_data : string
}.

Record AuthorizationClaims : Type := {
  c_quoteHash : string; c_policyHash : string; c_policyVersion : Z; c_riskHash : string;
  c_reservationId : string; c_approvalId : string; c_audience : string; c_signerKeyId : option string;
  c_protocol : string; c_version : Z; c_id : string; c_cluster : string; c_feePayer : string;
  c_transaction : string; c_message : string; c_messageHash : string; c_recentBlockhash : string;
  c_lastValidBlockHeight : Z; c_programIds : list string; c_accountKeys : list string;
  c_instructions : list AuthorizationInstructionClaim; c_addressTableLookups : list string;
  c_simulationHash : string; c_issuedAt : Z; c_expiresAt : Z
}.

(** The claims may be missing from what the host sent. *)
Record AuthorizationEnvelope : Type := { claims : option AuthorizationClaims; env_signature : string }.

(** *** Canonical text *)

Definition strings_value (l : list string) : value := V_array (map V_string l).

Definition account_value (a : option string) : value := match a with Some s => V_string s | None => V_null end.

Definition instruction_value (i : AuthorizationInstructionClaim) : value :=
  V_object [("accounts", V_array (map account_value (ci_accounts i)));
            ("data", V_string (ci_data i)); ("programId", V_string (ci_programId i))].

(** `normalize` of the claims: the keys in the order `localeCompare` gives them,
    an absent key left out. *)
Definition claims_value (c : AuthorizationClaims) : value := V_object (
  [("accountKeys", strings_value (c_accountKeys c));
   ("addressTableLookups", strings_value (c_addressTableLookups c));
   ("approvalId", V_string (c_approvalId c));
   ("audience", V_string (c_audience c));
   ("cluster", V_string (c_cluster c));
   ("expiresAt", V_number (c_expiresAt c));
   ("feePayer", V_string (c_feePayer c));
   ("id", V_string (c_id c));
   ("instructions", V_array (map instruction_value (c_instructions c)));
   ("issuedAt", V_number (c_issuedAt c));
   ("lastValidBlockHeight", V_number (c_lastValidBlockHeight c));
   ("message", V_string (c_message c));
   ("messageHash", V_string (c_messageHash c));
   ("policyHash", V_string (c_policyHash c));
   ("policyVersion", V_number (c_policyVersion c));
   ("programIds", strings_value (c_programIds c));
   ("protocol", V_string (c_protocol c));
   ("quoteHash", V_string (c_quoteHash c));
   ("recentBlockhash", V_string (c_recentBlockhash c));
   ("reservationId", V_string (c_reservationId c));
   ("riskHash", V_string (c_riskHash c))] ++
  match c_signerKeyId c with Some k => [("signerKeyId", V_string k)] | None => [] end ++
  [("simulationHash", V_string (c_simulationHash c));
   ("transaction", V_string (c_transaction c));
   ("version", V_number (c_version c))]).

Definition canonicalClaims (c : AuthorizationClaims) : string := print (claims_value c).

(** `eq` of two normalized values. *)
Definition eq (a b : value) : bool := streq (print a) (print b).

(** *** Verification *)

(** The dependencies of the verifier that are data; `blockHeight` is an effect,
    [has_blockHeight] whether it is wired. *)
Record Wire : Type := {
  audience : string; w_cluster : option string; signerKeyId : option string;
  authorizationKeyIds : option (list string); policyHash : option string; policyVersion : option Z;
  maxTtlMs : option Z; has_blockHeight : bool
}.

Definition lower_char (c : ascii) : ascii :=
  let n := nat_of_ascii c in if ((65 <=? n) && (n <=? 90))%nat then ascii_of_nat (n + 32) else c.

Fixpoint lower (s : string) : string :=
  match s with "" => "" | String c s' => String (lower_char c) (lower s') end.

Definition some_truthy (o : option string) : bool := match o with Some s => negb (streq s "") | None => false end.

(** The checks before the signature of the envelope is verified. *)
Definition check_claims (w : Wire) (c : AuthorizationClaims) (now : Z) : result unit :=
  let maxTtl := default 60000 (maxTtlMs w) in
  check negb (streq (c_protocol c) AUTHORIZATION_PROTOCOL) || negb (c_version c =? 1) else "envelope_version_invalid";
  check negb (isSafeInteger (c_issuedAt c)) || negb (isSafeInteger (c_expiresAt c)) else "envelope_version_invalid";
  check now <? c_issuedAt c else "envelope_issued_in_future";
  check (c_expiresAt c <=? now) || (maxTtl <? c_expiresAt c - c_issuedAt c) else "envelope_expired";
  check negb (streq (c_audience c) (audience w)) else "envelope_audience_mismatch";
  check some_truthy (signerKeyId w) && negb (bool_decide (c_signerKeyId c = signerKeyId w))
  else "envelope_signer_mismatch";
  check (some_truthy (policyHash w) && negb (streq (lower (c_policyHash c)) (lower (default "" (policyHash w)))))
        || match policyVersion w with Some v => negb (c_policyVersion c =? v) | None => false end
  else "envelope_policy_mismatch";
  check match authorizationKeyIds w with
        | Some ids => negb (some_truthy (c_signerKeyId c)) || negb (includes ids (default "" (c_signerKeyId c)))
        | None => false
        end
  else "envelope_authorization_key_unknown";
  inr tt.

(** `[...new Set(l)].sort()` *)
Definition sorted_set (l : list string) : list string := merge_sort String.le (remove_dups l).

(** The instruction the signer decoded, as a claim would state it. *)
Definition claim_of (ix : DecodedInstruction) : AuthorizationInstructionClaim :=
  {| ci_programId := programId ix; ci_accounts := accounts ix; ci_data := dataHex ix |}.

(** Whether the claims differ from the decoded transaction. *)
Definition differs (c : AuthorizationClaims) (d : DecodedTransaction) : bool :=
  negb (streq (c_transaction c) (wireBase64 d)) ||
  negb (streq (c_message c) (messageBase64 d)) ||
  negb (streq (lower (c_messageHash c)) (lower (messageHash d))) ||
  negb (streq (c_feePayer c) (feePayer d)) ||
  negb (streq (c_recentBlockhash c) (recentBlockhash d)) ||
  negb (eq (strings_value (c_accountKeys c)) (strings_value (staticAccountKeys d))) ||
  negb (eq (strings_value (c_programIds c)) (strings_value (sorted_set (map programId (instructions d))))) ||
  negb (eq (strings_value (c_addressTableLookups c)) (strings_value (addressTableLookups d))) ||
  negb (eq (V_array (map instruction_value (c_instructions c)))
           (V_array (map instruction_value (map claim_of (instructions d))))).

(** The checks after it. *)
Definition check_transaction (w : Wire) (c : AuthorizationClaims) (d : DecodedTransaction) : result unit :=
  check match w_cluster w with Some cl => negb (streq (c_cluster c) cl) | None => false end
  else "envelope_cluster_mismatch";
  check negb (isSafeInteger (c_lastValidBlockHeight c)) || (c_lastValidBlockHeight c <? 0)
  else "envelope_blockhash_invalid";
  check differs c d else "envelope_transaction_mismatch";
  inr tt.

(** *** What the text and the checks establish *)

(** Lists of values that come from equal texts, item by item. *)
Lemma map_value_inj {A} (f : A -> value) l l' :
  (forall a b, f a = f b -> a = b) -> V_array (map f l) = V_array (map f l') -> l = l'.
Proof.
  intros Hf [= H]. revert l' H. induction l as [|a l IH]; intros [|b l'] H; simpl in H; try done.
  injection H as Ha H. f_equal; [by apply Hf|by apply IH].
Qed.

Lemma strings_value_inj l l' : strings_value l = strings_value l' -> l = l'.
Proof. apply map_value_inj. by intros a b [=]. Qed.

Lemma account_value_inj a b : account_value a = account_value b -> a = b.
Proof. destruct a, b; simpl; congruence. Qed.

Lemma instruction_value_inj a b : instruction_value a = instruction_value b -> a = b.
Proof.
  destruct a, b; unfold instruction_value; simpl. intros H. injection H as Ha Hd Hp.
  apply (f_equal V_array) in Ha. apply (map_value_inj account_value _ _ account_value_inj) in Ha. by subst.
Qed.

Lemma array_printable l : Forall (fun v => printable false v = true) l -> printable false (V_array l) = true.
Proof. intros H. simpl. rewrite forallb_forall. intros v Hv. rewrite Forall_forall in H. apply H, list_elem_of_In, Hv. Qed.

Lemma object_printable fs :
  Forall (fun f => printable false (snd f) = true) fs -> printable false (V_object fs) = true.
Proof.
  intros H. simpl. rewrite forallb_forall. intros f Hf. rewrite Forall_forall in H.
  rewrite H by (by apply list_elem_of_In). done.
Qed.

Lemma flat_printable {A} (f : A -> value) l :
  (forall a, printable false (f a) = true) -> printable false (V_array (map f l)) = true.
Proof. intros Hf. apply array_printable. induction l; simpl; constructor; auto. Qed.

Lemma strings_printable l : printable false (strings_value l) = true.
Proof. by apply flat_printable. Qed.

Lemma instruction_printable i : printable false (instruction_value i) = true.
Proof. apply object_printable. repeat constructor. apply (flat_printable account_value). by intros []. Qed.

Lemma eq_spec v w : printable false v = true -> printable false w = true -> eq v w = true -> v = w.
Proof.
  intros Hv Hw H. apply streq_spec in H.
  destruct (print_inj_follow false v w "" "") as [E _]; auto. by rewrite !sapp_nil.
Qed.

Lemma claims_printable c : printable false (claims_value c) = true.
Proof.
  apply object_printable. destruct (c_signerKeyId c); simpl;
    repeat (constructor; [first [done | apply strings_printable | apply flat_printable, instruction_printable]|]);
    constructor.
Qed.

(** The text an operator signs determines every field of the claims: two sets
    of claims with the same canonical text are equal, so a signature over one
    cannot be shown with another. *)
Theorem canonicalClaims_binds a b (H : canonicalClaims a = canonicalClaims b) : a = b.
Proof.
  destruct (print_inj_follow false (claims_value a) (claims_value b) "" "") as [E _];
    auto using claims_printable; [by rewrite !sapp_nil|]. clear H.
  destruct a as [? ? ? ? ? ? ? ka ? ? ? ? ? ? ? ? ? ? ? ? ? ? ? ? ?],
           b as [? ? ? ? ? ? ? kb ? ? ? ? ? ? ? ? ? ? ? ? ? ? ? ? ?].
  unfold claims_value in E. destruct ka, kb; cbn in E; injection E; intros; subst; try discriminate; f_equal.
  all: first [apply strings_value_inj; unfold strings_value; by f_equal
             |apply (map_value_inj instruction_value _ _ instruction_value_inj); by f_equal].
Qed.

Definition demo_claims : AuthorizationClaims :=
  {| c_quoteHash := "q"; c_policyHash := "0xAB"; c_policyVersion := 1; c_riskHash := "r";
     c_reservationId := "res_1"; c_approvalId := "apr_1"; c_audience := "signer"; c_signerKeyId := Some "op";
     c_protocol := AUTHORIZATION_PROTOCOL; c_version := 1; c_id := "auth_1"; c_cluster := "devnet";
     c_feePayer := "FeePayer11111111"; c_transaction := "AAE="; c_message := "AQ=="; c_messageHash := "0x01";
     c_recentBlockhash := "Blockhash"; c_lastValidBlockHeight := 500;
     c_programIds := ["11111111111111111111111111111111"; COMPUTE_BUDGET_PROGRAM_ID];
     c_accountKeys := ["FeePayer11111111"; "Receiver"; "11111111111111111111111111111111";
                       COMPUTE_BUDGET_PROGRAM_ID];
     c_instructions := map claim_of (instructions (demo_tx [188; 2; 0; 0; 0; 0; 0; 0]));
     c_addressTableLookups := []; c_simulationHash := "s"; c_issuedAt := 1000; c_expiresAt := 31000 |}.

Definition demo_wire : Wire :=
  {| audience := "signer"; w_cluster := Some "devnet"; signerKeyId := None; authorizationKeyIds := Some ["op"];
     policyHash := Some "0xab"; policyVersion := Some 1; maxTtlMs := None; has_blockHeight := true |}.

Example demo_claims_pass :
  check_claims demo_wire demo_claims 2000 = inr tt /\
  check_transaction demo_wire demo_claims (demo_tx [188; 2; 0; 0; 0; 0; 0; 0]) = inr tt /\
  check_transaction demo_wire demo_claims (demo_tx [189; 2; 0; 0; 0; 0; 0; 0]) = inl "envelope_transaction_mismatch".
Proof. split_and!; vm_compute; reflexivity. Qed.

Lemma canonicalClaims_binds_witness :
  canonicalClaims demo_claims = print (claims_value demo_claims) /\ demo_claims = demo_claims.
Proof. split; [reflexivity|]. apply (canonicalClaims_binds demo_claims demo_claims). reflexivity. Defined.

(** The claims describe the transaction. *)
Record describes (c : AuthorizationClaims) (d : DecodedTransaction) : Prop := {
  de_wire : c_transaction c = wireBase64 d;
  de_message : c_message c = messageBase64 d;
  de_hash : lower (c_messageHash c) = lower (messageHash d);
  de_payer : c_feePayer c = feePayer d;
  de_blockhash : c_recentBlockhash c = recentBlockhash d;
  de_keys : c_accountKeys c = staticAccountKeys d;
  de_programs : c_programIds c = sorted_set (map programId (instructions d));
  de_tables : c_addressTableLookups c = addressTableLookups d;
  de_instructions : c_instructions c = map claim_of (instructions d)
}.

(** The claims are current and for this signer. *)
Record current (w : Wire) (c : AuthorizationClaims) (now : Z) : Prop := {
  cu_version : c_protocol c = AUTHORIZATION_PROTOCOL /\ c_version c = 1;
  cu_time : c_issuedAt c <= now < c_expiresAt c /\ c_expiresAt c - c_issuedAt c <= default 60000 (maxTtlMs w);
  cu_audience : c_audience c = audience w;
  cu_signer : some_truthy (signerKeyId w) = true -> c_signerKeyId c = signerKeyId w;
  cu_policy : (some_truthy (policyHash w) = true -> lower (c_policyHash c) = lower (default "" (policyHash w))) /\
              (forall v, policyVersion w = Some v -> c_policyVersion c = v);
  cu_key : forall ids, authorizationKeyIds w = Some ids -> exists k, c_signerKeyId c = Some k /\ k ∈ ids
}.

Lemma check_claims_current w c now : check_claims w c now = inr tt -> current w c now.
Proof.
  unfold check_claims. intros H. open_result H. bool_hyps.
  split; try done; try lia; try (split; done || lia).
  - intros Hs. rewrite Hs in Hb4. simpl in Hb4. by bool_hyps.
  - split.
    + intros Hs. rewrite Hs in *. simpl in *. by bool_hyps.
    + intros v Hv. rewrite Hv in *. by bool_hyps.
  - intros ids Hi. rewrite Hi in *. bool_hyps. destruct (c_signerKeyId c); [|done]. eauto.
Qed.

Lemma eq_strings l l' : eq (strings_value l) (strings_value l') = true -> l = l'.
Proof. intros H. apply strings_value_inj, eq_spec; auto using strings_printable. Qed.

Lemma eq_instructions l l' :
  eq (V_array (map instruction_value l)) (V_array (map instruction_value l')) = true -> l = l'.
Proof.
  intros H. apply (map_value_inj instruction_value); [exact instruction_value_inj|].
  apply eq_spec; auto using flat_printable, instruction_printable.
Qed.

Lemma differs_describes c d : differs c d = false -> describes c d.
Proof.
  unfold differs. rewrite !orb_false_iff, !negb_false_iff, !streq_spec. intros H. destruct_and!.
  split; auto using eq_strings, eq_instructions.
Qed.

Lemma check_transaction_describes w c d :
  check_transaction w c d = inr tt ->
  describes c d /\ 0 <= c_lastValidBlockHeight c /\ (forall cl, w_cluster w = Some cl -> c_cluster c = cl).
Proof.
  unfold check_transaction. intros H. open_result H. bool_hyps. split; [by apply differs_describes|].
  split; [done|]. intros cl E. rewrite E in *. by bool_hyps.
Qed.
