(* ===== verification/Simulation.v ===== *)
(** `src/execution/simulation.ts`: what a simulation reports, and when it counts
    as evidence.

    A request is the projection of the decoded wire bytes; evidence is the result
    of simulating it under the hash of its canonical text; [assertSimulationSafe]
    decides whether a result may be acted on. *)
From S2P Require Import Prelude Canonical SignerPolicy SignerEnvelope.
From stdpp Require Import pretty.
#[local] Open Scope string_scope.
#[local] Open Scope list_scope.
#[local] Open Scope Z_scope.
#[local] Open Scope result_scope.

Definition SIMULATION_EVIDENCE_DOMAIN : string := "ari-solana-simulation-evidence/v1".

(** *** Data *)

Record PreparedTransaction : Type := {
  pt_cluster : string; pt_transaction : string; pt_lastValidBlockHeight : number
}.

(** `InstructionSummary` has the fields of an instruction claim. *)
Definition InstructionSummary : Type := AuthorizationInstructionClaim.

Record SimulationRequest : Type := {
  q_cluster : string; q_transaction : string; q_message : string; q_messageHash : string;
  q_feePayer : string; q_recentBlockhash : string; q_lastValidBlockHeight : Z;
  q_programIds : list string; q_accountKeys : list string; q_instructions : list InstructionSummary;
  q_addressTableLookups : list string; q_policyHash : string
}.

Record AssetDelta : Type := { ad_asset : string; ad_owner : string; ad_amount : Z }.

Record AccountState : Type := {
  as_address : string; as_lamports : Z; as_owner : string; as_data : option string
}.

Record SimulationCapabilities : Type := {
  cap_balances : bool; cap_logs : bool; cap_fee : bool; cap_tables : bool
}.

(** The capabilities may be missing from what the caller was given. *)
Record SimulationResult : Type := {
  sr_success : bool; sr_slot : Z; sr_blockhash : string; sr_messageHash : string;
  sr_unitsConsumed : Z; sr_feeLamports : Z; sr_logs : list string;
  sr_accountStates : list AccountState; sr_assetDeltas : list AssetDelta;
  sr_capabilities : option SimulationCapabilities; sr_err : option string
}.

(** Evidence without its hash.  Evidence made here also carries the domain; one
    read from elsewhere may not. *)
Record EvidenceBody : Type := {
  eb_domain : option string; eb_messageHash : string; eb_slot : Z; eb_blockhash : string;
  eb_unitsConsumed : Z; eb_feeLamports : Z; eb_logs : list string;
  eb_accountStates : list AccountState; eb_assetDeltas : list AssetDelta;
  eb_capabilities : option SimulationCapabilities
}.

Record SimulationEvidence : Type := { se_hash : string; se_body : EvidenceBody }.

Record SafetyContext : Type := {
  expectedMessageHash : string; maxSlotLag : Z; currentSlot : Z; allowedAssets : list string;
  currentBlockHeight : option Z; lastValidBlockHeight : option Z
}.

(** *** Requests *)

(** `simulationRequestOf` *)
Definition simulationRequestOf (d : DecodedTransaction) (cluster : string) (last : Z) (policyHash : string) :
    SimulationRequest :=
  {| q_cluster := cluster; q_transaction := wireBase64 d; q_message := messageBase64 d;
     q_messageHash := messageHash d; q_feePayer := feePayer d; q_recentBlockhash := recentBlockhash d;
     q_lastValidBlockHeight := last; q_programIds := sorted_set (map programId (instructions d));
     q_accountKeys := staticAccountKeys d; q_instructions := map claim_of (instructions d);
     q_addressTableLookups := addressTableLookups d; q_policyHash := policyHash |}.

(** `Number.isSafeInteger(x)`, the integer then. *)
Definition safe_int (x : number) : option Z :=
  match x with
  | Finite q =>
      let z := floor_number x in
      if QArith_base.Qeq_bool q (QArith_base.inject_Z z) && isSafeInteger z then Some z else None
  | _ => None
  end.

Section Simulation.
Context (decodeTransaction : string -> result DecodedTransaction) (isPublicKey : string -> bool)
        (sha256 : string -> string).

(** `buildSimulationRequest` *)
Definition buildSimulationRequest (t : PreparedTransaction) (policyHash : string) : result SimulationRequest :=
  match safe_int (pt_lastValidBlockHeight t) with
  | None => inl "prepared_last_valid_block_height_invalid"
  | Some last =>
      check last <? 0 else "prepared_last_valid_block_height_invalid";
      check streq (pt_cluster t) "" else "prepared_cluster_invalid";
      let? d := decodeTransaction (pt_transaction t) in
      inr (simulationRequestOf d (pt_cluster t) last policyHash)
  end.

(** *** Evidence *)

Definition delta_value (d : AssetDelta) : value :=
  V_object [("amount", V_string (pretty (ad_amount d))); ("asset", V_string (ad_asset d));
            ("owner", V_string (ad_owner d))].

Definition state_value (a : AccountState) : value :=
  V_object [("address", V_string (as_address a)); ("data", account_value (as_data a));
            ("lamports", V_string (pretty (as_lamports a))); ("owner", V_string (as_owner a))].

Definition capabilities_value (c : SimulationCapabilities) : value :=
  V_object [("addressTableLookups", V_bool (cap_tables c)); ("balances", V_bool (cap_balances c));
            ("fee", V_bool (cap_fee c)); ("logs", V_bool (cap_logs c))].

(** `canonical({ domain, ...body })`: the keys in the order `localeCompare` gives
    them, a `bigint` as its digits, an absent key left out. *)
Definition body_value (b : EvidenceBody) : value := V_object (
  [("accountStates", V_array (map state_value (eb_accountStates b)));
   ("assetDeltas", V_array (map delta_value (eb_assetDeltas b)));
   ("blockhash", V_string (eb_blockhash b))] ++
  match eb_capabilities b with Some c => [("capabilities", capabilities_value c)] | None => [] end ++
  [("domain", V_string (default SIMULATION_EVIDENCE_DOMAIN (eb_domain b)));
   ("feeLamports", V_string (pretty (eb_feeLamports b)));
   ("logs", strings_value (eb_logs b));
   ("messageHash", V_string (eb_messageHash b));
   ("slot", V_string (pretty (eb_slot b)));
   ("unitsConsumed", V_string (pretty (eb_unitsConsumed b)))]).

(** `simulationEvidenceHash` *)
Definition simulationEvidenceHash (b : EvidenceBody) : string := sha256 (print (body_value b)).

(** `evidenceBody` *)
Definition evidenceBody (r : SimulationResult) : EvidenceBody :=
  {| eb_domain := Some SIMULATION_EVIDENCE_DOMAIN; eb_messageHash := sr_messageHash r; eb_slot := sr_slot r;
     eb_blockhash := sr_blockhash r; eb_unitsConsumed := sr_unitsConsumed r;
     eb_feeLamports := sr_feeLamports r; eb_logs := sr_logs r; eb_accountStates := sr_accountStates r;
     eb_assetDeltas := sr_assetDeltas r; eb_capabilities := sr_capabilities r |}.

(** `createSimulationEvidence` *)
Definition createSimulationEvidence (q : SimulationRequest) (r : SimulationResult) : result SimulationEvidence :=
  check negb (streq (lower (sr_messageHash r)) (lower (q_messageHash q))) else "simulation_transaction_mismatch";
  let body := evidenceBody r in
  inr {| se_hash := sha256 (print (body_value body)); se_body := body |}.

(** *** Safety *)

Definition delta_key (d : AssetDelta) : string := (ad_asset d ++ ":" ++ ad_owner d)%string.

(** The loop over the deltas. *)
Fixpoint assert_deltas (allowed seen : list string) (l : list AssetDelta) : result unit :=
  match l with
  | [] => inr tt
  | d :: l' =>
      check includes seen (delta_key d) else "simulation_duplicate_asset_delta";
      check negb (includes allowed (ad_asset d)) else ("unexpected_asset_delta:" ++ ad_asset d)%string;
      assert_deltas allowed (delta_key d :: seen) l'
  end.

Definition past (height last : option Z) : bool :=
  match height, last with Some h, Some v => v <? h | _, _ => false end.

(** `assertSimulationSafe` *)
Definition assertSimulationSafe (r : SimulationResult) (x : SafetyContext) : result unit :=
  check negb (sr_success r)
  else (match truthy (sr_err r) with Some e => ("simulation_failed:" ++ e)%string | None => "simulation_failed" end);
  match sr_capabilities r with
  | None => inl "simulation_capabilities_absent"
  | Some c =>
      check negb (cap_balances c) else "simulation_balances_unavailable";
      check negb (cap_fee c) else "simulation_fee_unavailable";
      check negb (cap_logs c) else "simulation_logs_unavailable";
      check negb (cap_tables c) else "simulation_address_table_lookup_unresolved";
      check negb (isPublicKey (sr_blockhash r)) else "simulation_blockhash_invalid";
      check negb (streq (lower (sr_messageHash r)) (lower (expectedMessageHash x)))
      else "simulation_transaction_mismatch";
      check (currentSlot x <? sr_slot r) || (maxSlotLag x <? currentSlot x - sr_slot r)
      else "simulation_stale_slot";
      check past (currentBlockHeight x) (lastValidBlockHeight x) else "simulation_blockhash_expired";
      assert_deltas (allowedAssets x) [] (sr_assetDeltas r)
  end.

(** *** What is established *)

Definition full_capabilities : SimulationCapabilities :=
  {| cap_balances := true; cap_logs := true; cap_fee := true; cap_tables := true |}.

(** Positive, current and complete evidence that only allowed assets moved. *)
Record safe (r : SimulationResult) (x : SafetyContext) : Prop := {
  sf_success : sr_success r = true;
  sf_observed : sr_capabilities r = Some full_capabilities;
  sf_blockhash : isPublicKey (sr_blockhash r) = true;
  sf_message : lower (sr_messageHash r) = lower (expectedMessageHash x);
  sf_slot : currentSlot x - maxSlotLag x <= sr_slot r <= currentSlot x;
  sf_alive : forall h v, currentBlockHeight x = Some h -> lastValidBlockHeight x = Some v -> h <= v;
  sf_once : NoDup (map delta_key (sr_assetDeltas r));
  sf_allowed : forall d, d ∈ sr_assetDeltas r -> ad_asset d ∈ allowedAssets x
}.

Lemma assert_deltas_pass allowed seen l :
  assert_deltas allowed seen l = inr tt <->
  NoDup (map delta_key l) /\ (forall d, d ∈ l -> (delta_key d ∉ seen) /\ ad_asset d ∈ allowed).
Proof.
  revert seen. induction l as [|d l IH]; intros seen; cbn [assert_deltas map].
  { split; [|done]. intros _. split; [constructor|]. by intros d Hd%elem_of_nil. }
  split.
  - intros H. open_result H. bool_hyps. apply IH in H as [Hnd H]. split.
    + constructor; [|done]. intros (d' & E & Hd')%list_elem_of_fmap. destruct (H d' Hd') as [Hn _].
      apply Hn. rewrite E. left.
    + intros d' [->|Hd']%elem_of_cons; [done|]. destruct (H d' Hd') as [Hn Ha]. split; [|done].
      intros Hs. apply Hn. by right.
  - intros [Hnd H]. apply NoDup_cons in Hnd as [Hd Hnd].
    destruct (H d (list_elem_of_here _ _)) as [Hs%includes_false Ha%includes_spec].
    rewrite Hs, Ha. cbn. apply IH. split; [done|]. intros d' Hd'. destruct (H d') as [Hn Ha']; [by right|].
    split; [|done]. intros [E|Hin]%elem_of_cons; [|done]. apply Hd. rewrite <- E. by apply list_elem_of_fmap_2.
Qed.

Lemma past_false height last : past height last = false <-> forall h v, height = Some h -> last = Some v -> h <= v.
Proof.
  destruct height as [h|], last as [v|]; cbn; split; try done.
  - intros H%Z.ltb_ge h' v' [= <-] [= <-]. done.
  - intros H. apply Z.ltb_ge. by apply H.
Qed.

(** A simulation result is accepted exactly when it is positive, current and
    complete evidence: it succeeded, every capability was observed, it is of the
    expected message, its slot is recent, its blockhash alive, and each asset it
    moved, once per owner, is an allowed one. *)
Theorem simulation_safe_iff r x : assertSimulationSafe r x = inr tt <-> safe r x.
Proof.
  split.
  - unfold assertSimulationSafe. intros H. open_result H. destruct (sr_capabilities r) as [[]|] eqn:Ec; [|done].
    open_result H. cbn in *. bool_hyps. apply assert_deltas_pass in H as [Hnd H]. subst.
    split; try done; [lia|by apply past_false|]. intros d Hd. by apply H.
  - intros [Hs Hc Hb Hm Ht Ha Ho Hal]. unfold assertSimulationSafe. rewrite Hs, Hc, Hb, Hm. cbn.
    rewrite streq_refl. cbn. rewrite (proj2 (Z.ltb_ge _ _)), (proj2 (Z.ltb_ge _ _)) by lia. cbn.
    rewrite (proj2 (past_false _ _) Ha). cbn. apply assert_deltas_pass. split; [done|].
    intros d Hd. split; [by apply not_elem_of_nil|by apply Hal].
Qed.

(** *** The hash binds the evidence *)

Lemma pretty_inj (x y : Z) : pretty x = pretty y -> x = y.
Proof. intros H. by apply (inj pretty). Qed.

Lemma delta_value_inj a b : delta_value a = delta_value b -> a = b.
Proof. destruct a, b. unfold delta_value. cbn. intros H. injection H as H -> ->. apply pretty_inj in H. by subst. Qed.

Lemma state_value_inj a b : state_value a = state_value b -> a = b.
Proof.
  destruct a, b. unfold state_value. cbn. intros H. injection H as -> Hd Hl ->.
  apply pretty_inj in Hl. apply account_value_inj in Hd. by subst.
Qed.

Lemma delta_printable d : printable false (delta_value d) = true.
Proof. by apply object_printable; repeat constructor. Qed.

Lemma state_printable a : printable false (state_value a) = true.
Proof. apply object_printable. repeat constructor. by destruct a as [? ? ? []]. Qed.

Lemma body_printable b : printable false (body_value b) = true.
Proof.
  apply object_printable. destruct (eb_capabilities b); simpl;
    repeat (constructor; [first [done | apply strings_printable | apply flat_printable, state_printable
                                 | apply flat_printable, delta_printable]|]); constructor.
Qed.

(** Evidence with its domain written out. *)
Definition with_domain (b : EvidenceBody) : EvidenceBody :=
  {| eb_domain := Some (default SIMULATION_EVIDENCE_DOMAIN (eb_domain b)); eb_messageHash := eb_messageHash b;
     eb_slot := eb_slot b; eb_blockhash := eb_blockhash b; eb_unitsConsumed := eb_unitsConsumed b;
     eb_feeLamports := eb_feeLamports b; eb_logs := eb_logs b; eb_accountStates := eb_accountStates b;
     eb_assetDeltas := eb_assetDeltas b; eb_capabilities := eb_capabilities b |}.

(** Equal evidence hashes mean equal evidence, capabilities included, as far as
    SHA-256 does not collide on the two texts: a run against a node that saw less
    never hashes like one that saw everything. *)
Theorem evidence_hash_binds a b
    (Hsha : forall x y, x ∈ [print (body_value a); print (body_value b)] ->
       y ∈ [print (body_value a); print (body_value b)] -> sha256 x = sha256 y -> x = y)
    (H : simulationEvidenceHash a = simulationEvidenceHash b) : with_domain a = with_domain b.
Proof.
  apply Hsha in H; [|left|right; left].
  destruct (print_inj_follow false (body_value a) (body_value b) "" "") as [E _];
    auto using body_printable; [by rewrite !sapp_nil|]. clear Hsha H.
  destruct a as [? ? ? ? ? ? ? ? ? ca], b as [? ? ? ? ? ? ? ? ? cb]. unfold body_value in E.
  destruct ca as [[]|], cb as [[]|]; cbn in E; try discriminate E; injection E; intros;
    unfold with_domain; cbn; subst; f_equal; eauto using pretty_inj; try congruence.
  all: first [apply strings_value_inj; unfold strings_value; by f_equal
             |apply (map_value_inj state_value _ _ state_value_inj); by f_equal
             |apply (map_value_inj delta_value _ _ delta_value_inj); by f_equal].
Qed.
End Simulation.
