(* ===== verification/SignerReplay.v ===== *)
(** `src/signer/replay.ts` and the in-memory store of `src/signer/authorization.ts`:
    the one-time fence of the signer.

    What the signer relies on is the class [ReplayStore]; both stores implement
    it.  The `data` column holds the parsed value. *)
From S2P Require Import Prelude Table Canonical.
#[local] Open Scope string_scope.
#[local] Open Scope list_scope.
#[local] Open Scope Z_scope.

Inductive ExecutionState : Type :=
  | X_issued | X_claimed | X_signing | X_signed | X_broadcast | X_reconciliation
  | X_confirmed | X_reverted | X_expired | X_dropped | X_failed.

#[export] Instance ExecutionState_eq_dec : EqDecision ExecutionState.
Proof. solve_decision. Defined.

(** The data of a row: the fields the signer writes, each possibly absent. *)
Record Data : Type := {
  d_requestHash : option string; d_transaction : option string; d_signature : option string;
  d_expected : option string; d_returned : option value; d_status : option value;
  d_lastValidBlockHeight : option Z; d_blockHeight : option Z
}.

Definition no_data : Data :=
  {| d_requestHash := None; d_transaction := None; d_signature := None; d_expected := None;
     d_returned := None; d_status := None; d_lastValidBlockHeight := None; d_blockHeight := None |}.

(** *** What the signer relies on *)

(** The last argument of an operation that writes is the time it reads; [rp_ok]
    is what the store's schema enforces.  [rp_get] answers with the state and the
    data of an id. *)
Class ReplayStore (S : Type) : Type := {
  rp_ok : S -> Prop;
  rp_get : string -> S -> option (ExecutionState * option Data);
  rp_consume : string -> Z -> Z -> S -> bool * S;
  rp_transition : string -> ExecutionState -> ExecutionState -> option Data -> Z -> S -> bool * S;
  rp_recover : string -> Z -> S -> option (option Data) * S;
  rp_list : list ExecutionState -> S -> list (string * ExecutionState * option Data);
  rp_consume_ok : forall id e t s, rp_ok s -> rp_ok (rp_consume id e t s).2;
  rp_transition_ok : forall id a b x t s, rp_ok s -> rp_ok (rp_transition id a b x t s).2;
  rp_recover_ok : forall id t s, rp_ok s -> rp_ok (rp_recover id t s).2;
  rp_consume_won : forall id e t s s', rp_ok s -> rp_consume id e t s = (true, s') ->
    rp_get id s = None /\ exists x, rp_get id s' = Some (X_claimed, x);
  rp_consume_other : forall id e t s b s' k, rp_ok s -> rp_consume id e t s = (b, s') ->
    b = false \/ k <> id -> rp_get k s' = rp_get k s;
  rp_transition_won : forall id a b x t s s', rp_ok s -> rp_transition id a b x t s = (true, s') ->
    (exists y, rp_get id s = Some (a, y)) /\
    exists y, rp_get id s' = Some (b, y) /\ (forall v, x = Some v -> y = Some v);
  rp_transition_other : forall id a b x t s r s' k, rp_ok s -> rp_transition id a b x t s = (r, s') ->
    r = false \/ k <> id -> rp_get k s' = rp_get k s;
  rp_transition_lost : forall id a b x t s s', rp_ok s -> rp_transition id a b x t s = (false, s') ->
    forall y, rp_get id s <> Some (a, y);
  rp_recover_signed : forall id t s x s', rp_ok s -> rp_recover id t s = (Some x, s') ->
    rp_get id s = Some (X_signed, x);
  rp_recover_keeps : forall id t s r s' k, rp_ok s -> rp_recover id t s = (r, s') -> rp_get k s' = rp_get k s;
  rp_list_get : forall l s id st d, rp_ok s -> (id, st, d) ∈ rp_list l s -> st ∈ l /\ rp_get id s = Some (st, d)
}.

(** *** `SqliteReplayStore` *)

Record ReplayRow : Type := {
  rr_id : string; rr_expiresAt : Z; rr_state : ExecutionState; rr_version : Z;
  rr_data : option Data; rr_updatedAt : Z; rr_recovered : bool
}.

(** The table `signer_replay`. *)
Record SqliteReplay : Type := { signer_replay : list ReplayRow }.

Definition consume (id : string) (expiresAt now : Z) (s : SqliteReplay) : bool * SqliteReplay :=
  if streq id "" || negb (isSafeInteger expiresAt) then (false, s)
  else match insert rr_id {| rr_id := id; rr_expiresAt := expiresAt; rr_state := X_claimed; rr_version := 1;
                             rr_data := None; rr_updatedAt := now; rr_recovered := false |} (signer_replay s) with
       | Some t => (true, {| signer_replay := t |})
       | None => (false, s)
       end.

Definition transition (id : string) (from to : ExecutionState) (d : option Data) (now : Z) (s : SqliteReplay) :
    bool * SqliteReplay :=
  let p r := streq (rr_id r) id && bool_decide (rr_state r = from) in
  ((changes p (signer_replay s) =? 1)%nat,
   {| signer_replay := update_where p (fun r =>
        {| rr_id := rr_id r; rr_expiresAt := rr_expiresAt r; rr_state := to; rr_version := rr_version r + 1;
           rr_data := d; rr_updatedAt := now; rr_recovered := rr_recovered r |}) (signer_replay s) |}).

Definition replay_get (id : string) (s : SqliteReplay) : option ReplayRow := get rr_id id (signer_replay s).

Definition recoverable (id : string) (r : ReplayRow) : bool :=
  streq (rr_id r) id && bool_decide (rr_state r = X_signed) && negb (rr_recovered r).

Definition recoverSigned (id : string) (now : Z) (s : SqliteReplay) : option (option Data) * SqliteReplay :=
  (rr_data <$> List.find (recoverable id) (signer_replay s),
   {| signer_replay := update_where (recoverable id) (fun r =>
        {| rr_id := rr_id r; rr_expiresAt := rr_expiresAt r; rr_state := rr_state r;
           rr_version := rr_version r + 1; rr_data := rr_data r; rr_updatedAt := now;
           rr_recovered := true |}) (signer_replay s) |}).

Definition list_rows (states : list ExecutionState) (s : SqliteReplay) : list ReplayRow :=
  select (fun r => existsb (fun x => bool_decide (rr_state r = x)) states) (signer_replay s).

(** *** `InMemoryReplayStore`: two maps *)

Record MemoryReplay : Type := { states : gmap string ExecutionState; datas : gmap string Data }.

Definition mem_consume (id : string) (s : MemoryReplay) : bool * MemoryReplay :=
  match states s !! id with
  | Some _ => (false, s)
  | None => (true, {| states := <[id := X_claimed]> (states s); datas := datas s |})
  end.

Definition mem_transition (id : string) (from to : ExecutionState) (d : option Data) (s : MemoryReplay) :
    bool * MemoryReplay :=
  if bool_decide (states s !! id = Some from)
  then (true, {| states := <[id := to]> (states s);
                 datas := match d with Some x => <[id := x]> (datas s) | None => datas s end |})
  else (false, s).

Definition mem_get (id : string) (s : MemoryReplay) : option (ExecutionState * option Data) :=
  match states s !! id with Some st => Some (st, datas s !! id) | None => None end.

(** *** The SQLite store implements the fence *)

Definition sql_view (id : string) (s : SqliteReplay) : option (ExecutionState * option Data) :=
  (fun r => (rr_state r, rr_data r)) <$> replay_get id s.

Definition replay_keyed (s : SqliteReplay) : Prop := keyed rr_id (signer_replay s).

Lemma consume_won id e t s s' :
  consume id e t s = (true, s') -> replay_get id s = None /\ sql_view id s' = Some (X_claimed, None).
Proof.
  unfold consume. destruct (_ || _); [done|]. destruct (insert _ _ _) as [tb|] eqn:E; [|done]. intros [= <-].
  pose proof (insert_get_eq _ _ _ _ E) as Hg. apply insert_Some in E as [Hn _]. split; [done|].
  unfold sql_view, replay_get. simpl in *. by rewrite Hg.
Qed.

Lemma consume_other id e t s b s' k :
  consume id e t s = (b, s') -> b = false \/ k <> id -> replay_get k s' = replay_get k s.
Proof.
  unfold consume. destruct (_ || _); [by intros [= <- <-]|].
  destruct (insert _ _ _) as [tb|] eqn:E; intros [= <- <-]; [|done]. intros [?|Hk]; [done|].
  eapply insert_get_ne; [exact E|]. simpl. congruence.
Qed.

Lemma consume_keyed id e t s : replay_keyed s -> replay_keyed (consume id e t s).2.
Proof.
  unfold consume. destruct (_ || _); [done|]. destruct (insert _ _ _) as [tb|] eqn:E; [|done].
  apply (insert_keyed _ _ _ _ E).
Qed.

Lemma transition_keyed id a b x t s : replay_keyed s -> replay_keyed (transition id a b x t s).2.
Proof. unfold replay_keyed. simpl. by apply update_keyed. Qed.

Lemma recover_keyed id t s : replay_keyed s -> replay_keyed (recoverSigned id t s).2.
Proof. unfold replay_keyed. simpl. by apply update_keyed. Qed.

(** The rows after a transition. *)
Lemma transition_get id a b x t s k :
  replay_get k (transition id a b x t s).2 =
  (fun r => if streq (rr_id r) id && bool_decide (rr_state r = a)
            then {| rr_id := rr_id r; rr_expiresAt := rr_expiresAt r; rr_state := b;
                    rr_version := rr_version r + 1; rr_data := x; rr_updatedAt := t;
                    rr_recovered := rr_recovered r |} else r) <$> replay_get k s.
Proof. unfold replay_get. simpl. by apply update_get. Qed.

Lemma transition_changes id a s :
  replay_keyed s ->
  changes (fun r => streq (rr_id r) id && bool_decide (rr_state r = a)) (signer_replay s) =
  match replay_get id s with Some r => if bool_decide (rr_state r = a) then 1%nat else 0%nat | None => 0%nat end.
Proof.
  intros Hk. unfold replay_get. rewrite <- (changes_get rr_id id (fun r => bool_decide (rr_state r = a))) by done.
  reflexivity.
Qed.

(** A transition succeeds exactly from the state it names. *)
Lemma transition_won id a b x t s :
  replay_keyed s ->
  (transition id a b x t s).1 = true <-> exists r, replay_get id s = Some r /\ rr_state r = a.
Proof.
  intros Hk. simpl. rewrite transition_changes by done. destruct (replay_get id s) as [r|].
  - case_bool_decide as Hst; split; simpl; [by eauto|done|done|]. by intros (r' & [= <-] & ?).
  - split; [done|]. by intros (r & ? & _).
Qed.

Lemma replay_get_id id s r : replay_get id s = Some r -> rr_id r = id.
Proof. by intros [_ ?]%get_Some. Qed.

Lemma transition_other id a b x t s r s' k :
  replay_keyed s -> transition id a b x t s = (r, s') -> r = false \/ k <> id -> replay_get k s' = replay_get k s.
Proof.
  intros Hk E Hor. assert (s' = (transition id a b x t s).2) as -> by by rewrite E.
  rewrite transition_get. destruct (replay_get k s) as [row|] eqn:Eg; [|done]. cbn.
  destruct (streq (rr_id row) id && bool_decide (rr_state row = a)) eqn:Ep; [|done]. exfalso. bool_hyps.
  pose proof (replay_get_id _ _ _ Eg). destruct Hor as [->|?]; [|congruence].
  assert ((transition id a b x t s).1 = true) as Hw.
  { apply transition_won; [done|]. exists row. by replace id with k by congruence. }
  by rewrite E in Hw.
Qed.

Lemma recover_get id t s k :
  replay_get k (recoverSigned id t s).2 =
  (fun r => if recoverable id r
            then {| rr_id := rr_id r; rr_expiresAt := rr_expiresAt r; rr_state := rr_state r;
                    rr_version := rr_version r + 1; rr_data := rr_data r; rr_updatedAt := t;
                    rr_recovered := true |} else r) <$> replay_get k s.
Proof. unfold replay_get. simpl. by apply update_get. Qed.

Lemma recover_found id t s x :
  replay_keyed s -> (recoverSigned id t s).1 = Some x ->
  exists r, replay_get id s = Some r /\ rr_state r = X_signed /\ rr_recovered r = false /\ rr_data r = x.
Proof.
  intros Hk. simpl. destruct (List.find _ _) as [r|] eqn:E; [|done]. intros [= <-].
  apply find_some in E as [Hin Hp]. unfold recoverable in Hp. bool_hyps.
  exists r. split; [|done]. unfold replay_get. subst id. apply keyed_get; [done|]. by apply list_elem_of_In.
Qed.

#[export] Instance sqlite_replay : ReplayStore SqliteReplay.
Proof.
  refine {| rp_ok := replay_keyed; rp_get := sql_view; rp_consume := consume; rp_transition := transition;
            rp_recover := recoverSigned;
            rp_list := fun l s => map (fun r => (rr_id r, rr_state r, rr_data r)) (list_rows l s) |}.
  - intros. by apply consume_keyed.
  - intros. by apply transition_keyed.
  - intros. by apply recover_keyed.
  - intros id e t s s' _ [H1 H2]%consume_won. unfold sql_view at 1. rewrite H1. split; [done|]. eauto.
  - intros id e t s b s' k _ H1 H2. unfold sql_view. by rewrite (consume_other _ _ _ _ _ _ _ H1 H2).
  - intros id a b x t s s' Hk E. assert (s' = (transition id a b x t s).2) as -> by by rewrite E.
    destruct (proj1 (transition_won id a b x t s Hk)) as (r & Hr & Hst); [by rewrite E|].
    unfold sql_view. rewrite transition_get, Hr. cbn. pose proof (replay_get_id _ _ _ Hr) as Hid.
    rewrite Hid, streq_refl, bool_decide_true by done. cbn. rewrite Hst. split; [by eexists|]. by eexists.
  - intros id a b x t s r s' k Hk E Hor. unfold sql_view. by rewrite (transition_other _ _ _ _ _ _ _ _ _ Hk E Hor).
  - intros id a b x t s s' Hk E y Hg. unfold sql_view in Hg. destruct (replay_get id s) as [r|] eqn:Hr; [|done].
    simplify_eq/=. assert ((transition id (rr_state r) b x t s).1 = true) as Hw by (apply transition_won; eauto).
    by rewrite E in Hw.
  - intros id t s x s' Hk E. destruct (recover_found id t s x Hk) as (r & Hr & Hst & _ & Hd); [by rewrite E|].
    unfold sql_view. rewrite Hr. cbn. by rewrite Hst, Hd.
  - intros id t s r s' k _ E. assert (s' = (recoverSigned id t s).2) as -> by by rewrite E.
    unfold sql_view. rewrite recover_get. destruct (replay_get k s); [|done]. cbn. by destruct (recoverable _ _).
  - intros l s id st d Hk (r & [= -> -> ->] & [Hin Hp]%select_elem)%list_elem_of_fmap.
    apply existsb_exists in Hp as (x & Hx & Hst%bool_decide_eq_true).
    split; [rewrite Hst; by apply list_elem_of_In|].
    unfold sql_view, replay_get. by rewrite (keyed_get _ _ _ Hk Hin).
Defined.

(** The in-memory store implements it too; it has no `recoverSigned` and
    no `list`, and is used without them. *)
#[export] Instance memory_replay : ReplayStore MemoryReplay.
Proof.
  refine {| rp_ok := fun _ => True; rp_get := mem_get; rp_consume := fun id _ _ s => mem_consume id s;
            rp_transition := fun id a b x _ s => mem_transition id a b x s;
            rp_recover := fun _ _ s => (None, s); rp_list := fun _ _ => [] |}; unfold mem_consume, mem_transition, mem_get; try done.
  - intros id e t s s' _ E. destruct (states s !! id) eqn:Es; simplify_eq/=. split; [done|].
    rewrite lookup_insert_eq. by eexists.
  - intros id e t s b s' k _ E Hor. destruct (states s !! id) eqn:Es; simplify_eq/=; [done|].
    destruct Hor; [done|]. by rewrite lookup_insert_ne.
  - intros id a b x t s s' _ E. case_bool_decide as Es; simplify_eq/=. rewrite Es, lookup_insert_eq.
    split; [by eexists|]. eexists. split; [done|]. intros v ->. by rewrite lookup_insert_eq.
  - intros id a b x t s r s' k _ E Hor. case_bool_decide as Es; simplify_eq/=; [|done].
    destruct Hor; [done|]. rewrite lookup_insert_ne by done. destruct x; [by rewrite lookup_insert_ne|done].
  - intros id a b x t s s' _ E y Hg. case_bool_decide as Es; simplify_eq/=. repeat case_match; simplify_eq/=.
  - by intros id t s r s' k _ [= _ <-].
  - by intros l s id st d _ Hin%elem_of_nil.
Defined.

(** *** Release to one caller *)

(** The statements of any number of callers, in any order. *)
Inductive ReplayOp : Type :=
  | O_consume (id : string) (expiresAt : Z)
  | O_transition (id : string) (from to : ExecutionState) (d : option Data)
  | O_recover (id : string).

(** Run them; the result lists the data each `recoverSigned` released, with its id. *)
Fixpoint run_ops (ops : list (ReplayOp * Z)) (s : SqliteReplay) : list (string * option Data) * SqliteReplay :=
  match ops with
  | [] => ([], s)
  | (O_consume id e, t) :: l => run_ops l (consume id e t s).2
  | (O_transition id a b d, t) :: l => run_ops l (transition id a b d t s).2
  | (O_recover id, t) :: l =>
      let '(x, s1) := recoverSigned id t s in
      let '(out, s2) := run_ops l s1 in
      (match x with Some d => (id, d) :: out | None => out end, s2)
  end.

(** Once released, a row stays marked. *)
Definition released (s : SqliteReplay) (k : string) : Prop :=
  exists r, replay_get k s = Some r /\ rr_recovered r = true.

Lemma consume_released id e t s k : released s k -> released (consume id e t s).2 k.
Proof.
  intros (r & Hr & Hrec). destruct (consume id e t s) as [b s'] eqn:E. exists r. split; [|done]. cbn.
  rewrite (consume_other _ _ _ _ _ _ k E); [done|].
  destruct b; [|by left]. right. intros ->. apply consume_won in E as [E _]. congruence.
Qed.

Lemma transition_released id a b x t s k : released s k -> released (transition id a b x t s).2 k.
Proof.
  intros (r & Hr & Hrec). unfold released. rewrite transition_get, Hr. cbn.
  eexists. split; [done|]. by destruct (_ && _).
Qed.

Lemma recover_released id t s k : released s k -> released (recoverSigned id t s).2 k.
Proof.
  intros (r & Hr & Hrec). unfold released. rewrite recover_get, Hr. cbn.
  eexists. split; [done|]. by destruct (recoverable _ _).
Qed.

Lemma recover_marks id t s x : replay_keyed s -> (recoverSigned id t s).1 = Some x -> released (recoverSigned id t s).2 id.
Proof.
  intros Hk H. destruct (recover_found _ _ _ _ Hk H) as (r & Hr & Hst & Hrec & _).
  unfold released. rewrite recover_get, Hr. cbn. eexists. split; [done|].
  assert (recoverable id r = true) as -> by
    (unfold recoverable; by rewrite (replay_get_id _ _ _ Hr), streq_refl, bool_decide_true, Hrec by done).
  done.
Qed.

Lemma run_ops_once ops s :
  replay_keyed s ->
  NoDup (map fst (run_ops ops s).1) /\ (forall k, k ∈ map fst (run_ops ops s).1 -> ~ released s k).
Proof.
  revert s. induction ops as [|[o t] ops IH]; intros s Hk; cbn [run_ops].
  { split; [constructor|]. by intros k Hin%elem_of_nil. }
  destruct o as [id e|id a b d|id].
  - destruct (IH (consume id e t s).2) as [H1 H2]; [by apply consume_keyed|]. split; [done|].
    intros k Hin Hr. by apply (H2 k Hin), consume_released.
  - destruct (IH (transition id a b d t s).2) as [H1 H2]; [by apply transition_keyed|]. split; [done|].
    intros k Hin Hr. by apply (H2 k Hin), transition_released.
  - destruct (IH (recoverSigned id t s).2) as [H1 H2]; [by apply recover_keyed|].
    pose proof (recover_marks id t s) as Hm. pose proof (recover_found id t s) as Hf.
    assert (forall k, k ∈ map fst (run_ops ops (recoverSigned id t s).2).1 -> ~ released s k) as Hold.
    { intros k Hin Hr. by apply (H2 k Hin), recover_released. }
    destruct (recoverSigned id t s) as [x s1]. simpl in *. destruct (run_ops ops s1) as [out s2]. simpl in *.
    destruct x as [d|]; [|by split]. simpl. specialize (Hm d Hk eq_refl).
    destruct (Hf d Hk eq_refl) as (r & Hr & _ & Hrec & _). split.
    + apply NoDup_cons. split; [|done]. intros Hin. by apply (H2 id Hin).
    + intros k [->|Hin]%elem_of_cons; [|by apply Hold]. intros (r' & Hr' & ?). congruence.
Qed.

Lemma run_ops_signed ops s k d :
  replay_keyed s -> (k, d) ∈ (run_ops ops s).1 ->
  exists ops1 t ops2, ops = ops1 ++ (O_recover k, t) :: ops2 /\
    sql_view k (run_ops ops1 s).2 = Some (X_signed, d).
Proof.
  revert s. induction ops as [|[o t] ops IH]; intros s Hk Hin; cbn [run_ops] in Hin; [by apply elem_of_nil in Hin|].
  assert (forall s1, replay_keyed s1 -> (k, d) ∈ (run_ops ops s1).1 ->
    (forall l, (run_ops ((o, t) :: l) s).2 = (run_ops l s1).2) -> exists ops1 t0 ops2,
      (o, t) :: ops = ops1 ++ (O_recover k, t0) :: ops2 /\ sql_view k (run_ops ops1 s).2 = Some (X_signed, d)) as Hlater.
  { intros s1 Hk1 Hin1 Hrun. destruct (IH s1 Hk1 Hin1) as (ops1 & t0 & ops2 & -> & Hv).
    exists ((o, t) :: ops1), t0, ops2. by rewrite Hrun. }
  destruct o as [id e|id a b x|id].
  - eapply Hlater; [|exact Hin|done]. by apply consume_keyed.
  - eapply Hlater; [|exact Hin|done]. by apply transition_keyed.
  - pose proof (recover_keyed id t s Hk) as Hk1. pose proof (recover_found id t s) as Hf.
    destruct (recoverSigned id t s) as [x s1] eqn:E. simpl in Hk1, Hf.
    assert (forall l, (run_ops ((O_recover id, t) :: l) s).2 = (run_ops l s1).2) as Hrun.
    { intros l. cbn [run_ops]. rewrite E. by destruct (run_ops l s1). }
    destruct (run_ops ops s1) as [out s2] eqn:Eo.
    assert ((k, d) ∈ out \/ (k = id /\ x = Some d)) as [Ho|[-> ->]].
    { destruct x; [|by left]. apply elem_of_cons in Hin as [[= -> ->]|?]; [by right|by left]. }
    + apply (Hlater s1); [done|by rewrite Eo|done].
    + exists [], t, ops. split; [done|]. destruct (Hf d Hk eq_refl) as (r & Hr & Hst & _ & Hd).
      unfold sql_view. simpl. rewrite Hr. simpl. by rewrite Hst, Hd.
Qed.

(** C15: whatever claims, transitions and recoveries run in whatever order, the
    signed bytes of an authorization are released to at most one caller, never
    again when the store had already released them, and only the data the row
    holds while it is in state `signed`. *)
Theorem recovered_once ops s (Hk : keyed rr_id (signer_replay s)) :
  NoDup (map fst (run_ops ops s).1) /\
  (forall k, k ∈ map fst (run_ops ops s).1 -> ~ released s k) /\
  (forall k d, (k, d) ∈ (run_ops ops s).1 -> exists ops1 t ops2,
     ops = ops1 ++ (O_recover k, t) :: ops2 /\ sql_view k (run_ops ops1 s).2 = Some (X_signed, d)).
Proof.
  destruct (run_ops_once ops s Hk) as [H1 H2]. split; [done|]. split; [done|].
  intros k d. by apply run_ops_signed.
Qed.

Definition demo_signed : Data :=
  {| d_requestHash := Some "0x01"; d_transaction := Some "AAI="; d_signature := Some "sig";
     d_expected := None; d_returned := None; d_status := None; d_lastValidBlockHeight := Some 500;
     d_blockHeight := None |}.

Definition demo_ops : list (ReplayOp * Z) :=
  [ (O_consume "auth_1" 31000, 1); (O_recover "auth_1", 2);
    (O_transition "auth_1" X_claimed X_signed (Some demo_signed), 3);
    (O_recover "auth_1", 4); (O_consume "auth_1" 31000, 5); (O_recover "auth_1", 6) ].

Lemma recovered_once_witness :
  (run_ops demo_ops {| signer_replay := [] |}).1 = [("auth_1", Some demo_signed)] /\
  NoDup (map fst (run_ops demo_ops {| signer_replay := [] |}).1).
Proof.
  split; [vm_compute; reflexivity|].
  exact (proj1 (recovered_once demo_ops {| signer_replay := [] |} (NoDup_nil_2))).
Defined.
