(* ===== verification/SignerService.v ===== *)
(** `src/signer/index.ts`: the custody boundary.

    [SignerService]'s methods, `broadcastSigned` and `reconcileTransactions` as
    effect trees over a replay store, a signing key, the verifier of operator
    signatures and an RPC node.  `decodeTransaction` and `attachSignature` are
    built on a third-party package and are parameters. *)
From S2P Require Import Prelude Table Prog Canonical SignerPolicy SignerEnvelope SignerReplay.
#[local] Open Scope string_scope.
#[local] Open Scope list_scope.
#[local] Open Scope Z_scope.
#[local] Open Scope prog_scope.

(** *** Effects *)

Inductive seff : Type -> Type :=
  | ReplayGet (id : string) : seff (option (ExecutionState * option Data))
  | Consume (id : string) (expiresAt : Z) : seff bool
  | Transition (id : string) (from to : ExecutionState) (d : option Data) : seff bool
  | RecoverSigned (id : string) : seff (option (option Data))
  | ListRows (l : list ExecutionState) : seff (list (string * ExecutionState * option Data))
  | Now : seff Z
  | VerifyClaims (text signature : string) (keyId : option string) : seff (result bool)
  | BlockHeight : seff (result value)
  | SignMessage (bytes : list Z) : seff (result (list Z))
  | SendTransaction (transaction : string) : seff (result value)
  (** the first entry of `value` of the answer, null when there is none *)
  | GetSignatureStatus (signature : string) : seff (result (option value))
  | GetBlockHeight : seff (result value).

Definition sprog : Type -> Type := prog seff string.

Definition do {R} (e : seff R) : sprog R := trigger e.
Definition call {R} (e : seff (result R)) : sprog R := bind (trigger e) raise.
Definition fail_if (b : bool) (code : string) : sprog unit := if b then Throw code else Ret tt.

Record SignResult : Type := { sr_transaction : string; sr_signature : option string }.

(** `Number.isSafeInteger(x)`, the integer then. *)
Definition safe_integer (x : value) : option Z :=
  match x with V_number z => if isSafeInteger z then Some z else None | _ => None end.

Section SignerService.
Context (decodeTransaction : string -> result DecodedTransaction)
        (attachSignature : DecodedTransaction -> list Z -> result (string * string)).
(** The key, the policy and the wire dependencies the service is built with. *)
Context (publicKey : string) (policy : SignPolicy) (wire : option Wire).

(** `stored` *)
Definition stored (id requestHash : string) : sprog (option Data) :=
  fail_if (streq requestHash "") "request_hash_invalid" ;;
  let* row := do (ReplayGet id) in
  match row with
  | None => Ret None
  | Some (st, data) =>
      fail_if (bool_decide (st = X_expired)) "authorization_expired" ;;
      match data with
      | None => Ret None
      | Some d =>
          fail_if (negb match d_requestHash d with Some h => streq (lower h) (lower requestHash) | None => false end)
            "authorization_request_mismatch" ;;
          fail_if (negb (bool_decide (st = X_signed)) || negb (some_truthy (d_transaction d)))
            "authorization_in_progress" ;;
          Ret (Some d)
      end
  end.

Definition expired_data (last height : Z) : Data :=
  {| d_requestHash := None; d_transaction := None; d_signature := None; d_expected := None; d_returned := None;
     d_status := None; d_lastValidBlockHeight := Some last; d_blockHeight := Some height |}.

Definition wired_height : bool := match wire with Some w => has_blockHeight w | None => false end.

(** `fenceBlockhash` *)
Definition fenceBlockhash (id : string) (lastValidBlockHeight : option Z) : sprog unit :=
  match lastValidBlockHeight with
  | None => Ret tt
  | Some last =>
      if negb wired_height then Ret tt
      else
        let* height := call BlockHeight in
        match safe_integer height with
        | None => Throw "block_height_invalid"
        | Some h =>
            fail_if (h <? 0) "block_height_invalid" ;;
            if h <=? last then Ret tt
            else
              do (Transition id X_claimed X_expired (Some (expired_data last h))) ;;
              Throw "blockhash_expired"
        end
  end.

Definition signed_data (requestHash : string) (res : SignResult) (lastValidBlockHeight : option Z) : Data :=
  {| d_requestHash := Some requestHash; d_transaction := Some (sr_transaction res);
     d_signature := sr_signature res; d_expected := None; d_returned := None; d_status := None;
     d_lastValidBlockHeight := lastValidBlockHeight; d_blockHeight := None |}.

(** `signClaimed` *)
Definition signClaimed (id : string) (d : DecodedTransaction) (lastValidBlockHeight : option Z) :
    sprog SignResult :=
  catch
    (let* raw := call (SignMessage (messageBytes d)) in
     let* out := raise (attachSignature d raw) in
     let res := {| sr_transaction := fst out; sr_signature := Some (snd out) |} in
     let* won := do (Transition id X_claimed X_signed
                       (Some (signed_data (messageHash d) res lastValidBlockHeight))) in
     fail_if (negb won) "replay_fencing_lost" ;;
     Ret res)
    (fun e => do (Transition id X_claimed X_failed None) ;; Throw e).

(** What is returned of a signature that exists already. *)
Definition prior_result (d : Data) : SignResult :=
  {| sr_transaction := default "" (d_transaction d); sr_signature := d_signature d |}.

(** The end both signing paths share. *)
Definition claim_and_sign (id : string) (expiresAt : Z) (d : DecodedTransaction) (last : option Z) :
    sprog SignResult :=
  let* won := do (Consume id expiresAt) in
  fail_if (negb won) "envelope_replayed" ;;
  fenceBlockhash id last ;;
  signClaimed id d last.

(** `sign` *)
Definition sign (authorizationId transaction claimedFeePayer : string) (last : option Z) : sprog SignResult :=
  let* d := raise (decodeTransaction transaction) in
  let* _ev := raise (evaluatePolicy d policy publicKey) in
  fail_if (negb (streq (feePayer d) claimedFeePayer)) "policy_fee_payer" ;;
  let* prior := stored authorizationId (messageHash d) in
  match prior with
  | Some p => Ret (prior_result p)
  | None =>
      let* now := do Now in
      claim_and_sign authorizationId (now + 60000) d last
  end.

(** `SignerWireVerifier.verify` of an already decoded transaction *)
Definition verify (w : Wire) (d : DecodedTransaction) (env : AuthorizationEnvelope) : sprog unit :=
  let* now := do Now in
  match claims env with
  | None => Throw "envelope_invalid"
  | Some c =>
      let* _u := raise (check_claims w c now) in
      let* ok := call (VerifyClaims (canonicalClaims c) (env_signature env) (c_signerKeyId c)) in
      fail_if (negb ok) "envelope_signature_invalid" ;;
      raise (check_transaction w c d)
  end.

(** `signEnvelope` *)
Definition signEnvelope (transaction : string) (env : AuthorizationEnvelope) : sprog SignResult :=
  match wire with
  | None => Throw "wire_verifier_required"
  | Some w =>
      let* d := raise (decodeTransaction transaction) in
      match claims env with
      | None => Throw "envelope_invalid"
      | Some c =>
          fail_if (streq (c_id c) "") "envelope_invalid" ;;
          let* prior := stored (c_id c) (messageHash d) in
          verify w d env ;;
          let* _ev := raise (evaluatePolicy d policy publicKey) in
          match prior with
          | Some p => Ret (prior_result p)
          | None => claim_and_sign (c_id c) (c_expiresAt c) d (Some (c_lastValidBlockHeight c))
          end
      end
  end.

(** *** `result` *)

Inductive ResultView : Type :=
  | V_expired
  | V_not_found
  | V_signed (signature : option string) (transaction : option string).

Definition expired_row (row : option (ExecutionState * option Data)) : bool :=
  match row with Some (st, _) => bool_decide (st = X_expired) | None => false end.

Definition result_of (id requestHash : string) (recoverRaw : bool) : sprog ResultView :=
  let* row := do (ReplayGet id) in
  if expired_row row then Ret V_expired
  else
    let* data := stored id requestHash in
    match data with
    | None => Ret V_not_found
    | Some d =>
        if negb recoverRaw then Ret (V_signed (d_signature d) None)
        else
          let* claimed := do (RecoverSigned id) in
          match claimed with
          | None => Ret (V_signed (d_signature d) None)
          | Some None => Throw "signed_result_invalid"
          | Some (Some r) =>
              fail_if (negb (some_truthy (d_transaction r))) "signed_result_invalid" ;;
              Ret (V_signed (d_signature d) (d_transaction r))
          end
    end.

(** *** Broadcast *)

(** `signatureOf` *)
Definition signatureOf (transaction : string) : result string :=
  match decodeTransaction transaction with
  | inl e => inl e
  | inr d => match signatures d with Some s :: _ => inr s | _ => inl "signature_missing" end
  end.

Definition mismatch_data (expected : string) (returned : value) (last : option Z) : Data :=
  {| d_requestHash := None; d_transaction := None; d_signature := None; d_expected := Some expected;
     d_returned := Some returned; d_status := None; d_lastValidBlockHeight := last; d_blockHeight := None |}.

Definition broadcast_data (signature transaction : string) (last : option Z) : Data :=
  {| d_requestHash := None; d_transaction := Some transaction; d_signature := Some signature; d_expected := None;
     d_returned := None; d_status := None; d_lastValidBlockHeight := last; d_blockHeight := None |}.

Definition is_text (v : value) (s : string) : bool :=
  match v with V_string t => streq t s | _ => false end.

(** `broadcastSigned` *)
Definition broadcastSigned (id transaction : string) : sprog string :=
  let* expected := raise (signatureOf transaction) in
  let* row := do (ReplayGet id) in
  let last := match row with Some (_, Some d) => d_lastValidBlockHeight d | _ => None end in
  let* returned := call (SendTransaction transaction) in
  if negb (is_text returned expected) then
    do (Transition id X_signed X_reconciliation (Some (mismatch_data expected returned last))) ;;
    Throw "broadcast_signature_mismatch"
  else
    let* won := do (Transition id X_signed X_broadcast (Some (broadcast_data expected transaction last))) in
    fail_if (negb won) "broadcast_state_invalid" ;;
    Ret expected.

(** *** Reconciliation *)

(** A JSON value as a condition. *)
Definition truthy_value (v : option value) : bool :=
  match v with
  | None | Some V_null | Some (V_bool false) => false
  | Some (V_string s) => negb (streq s "")
  | Some (V_number z) | Some (V_bigint z) => negb (z =? 0)
  | Some _ => true
  end.

Definition is_member (v : value) (key s : string) : bool :=
  match member v key with Some x => is_text x s | None => false end.

(** The state a status settles the row in. *)
Definition settled_state (st : ExecutionState) (status : value) : option ExecutionState :=
  if truthy_value (member status "err") then Some X_reverted
  else if is_member status "confirmationStatus" "finalized" || is_member status "confirmationStatus" "confirmed"
  then Some X_confirmed
  else if bool_decide (st = X_reconciliation) then Some X_broadcast else None.

Definition settled_data (signature : string) (status : value) (d : Data) : Data :=
  {| d_requestHash := None;
     d_transaction := if some_truthy (d_transaction d) then d_transaction d else None;
     d_signature := Some signature; d_expected := None; d_returned := None; d_status := Some status;
     d_lastValidBlockHeight := d_lastValidBlockHeight d; d_blockHeight := None |}.

Definition dropped_data (signature : string) (last height : Z) : Data :=
  {| d_requestHash := None; d_transaction := None; d_signature := Some signature; d_expected := None;
     d_returned := None; d_status := None; d_lastValidBlockHeight := Some last; d_blockHeight := Some height |}.

(** `data.signature ?? data.expected` *)
Definition tracked_signature (d : Data) : option string :=
  match d_signature d with Some s => Some s | None => d_expected d end.

(** One turn of the loop of `reconcileTransactions`. *)
Definition reconcile_row (row : string * ExecutionState * option Data) : sprog unit :=
  let '(id, st, data) := row in
  let d := default no_data data in
  match tracked_signature d with
  | None => Ret tt
  | Some sig =>
      if streq sig "" then Ret tt
      else
        let* status := call (GetSignatureStatus sig) in
        if truthy_value status then
          match settled_state st (default V_null status) with
          | Some to => do (Transition id st to (Some (settled_data sig (default V_null status) d))) ;; Ret tt
          | None => Ret tt
          end
        else
          match d_lastValidBlockHeight d with
          | None => Ret tt
          | Some last =>
              if negb (isSafeInteger last) then Ret tt
              else
                let* height := call GetBlockHeight in
                match safe_integer height with
                | Some h =>
                    if last <? h then do (Transition id st X_dropped (Some (dropped_data sig last h))) ;; Ret tt
                    else Ret tt
                | None => Ret tt
                end
          end
  end.

Fixpoint reconcile_rows (rows : list (string * ExecutionState * option Data)) : sprog unit :=
  match rows with
  | [] => Ret tt
  | row :: rows' => reconcile_row row ;; reconcile_rows rows'
  end.

(** `reconcileTransactions` *)
Definition reconcileTransactions : sprog unit :=
  let* rows := do (ListRows [X_broadcast; X_reconciliation]) in
  reconcile_rows rows.

(** *** Tasks of the process *)

Inductive Task : Type :=
  | T_sign (authorizationId transaction claimedFeePayer : string) (last : option Z)
  | T_envelope (transaction : string) (env : AuthorizationEnvelope)
  | T_result (id requestHash : string) (recoverRaw : bool)
  | T_broadcast (id transaction : string)
  | T_reconcile.

Definition run_task (t : Task) : sprog unit :=
  match t with
  | T_sign id tx payer last => bind (sign id tx payer last) (fun _ => Ret tt)
  | T_envelope tx env => bind (signEnvelope tx env) (fun _ => Ret tt)
  | T_result id h r => bind (result_of id h r) (fun _ => Ret tt)
  | T_broadcast id tx => bind (broadcastSigned id tx) (fun _ => Ret tt)
  | T_reconcile => reconcileTransactions
  end.

(** The authorization a task works under. *)
Definition task_id (t : Task) : string :=
  match t with
  | T_sign id _ _ _ | T_result id _ _ | T_broadcast id _ => id
  | T_envelope _ env => match claims env with Some c => c_id c | None => "" end
  | T_reconcile => ""
  end.
End SignerService.

(** *** Effects on a replay store

    Any store that implements [ReplayStore]; the clock, the key, the verifier and
    the node answer anything. *)
Definition sexec `{ReplayStore St} {R} (e : seff R) (s : St) : R -> St -> Prop :=
  match e in seff R return R -> St -> Prop with
  | ReplayGet id => fun r s' => r = rp_get id s /\ s' = s
  | Consume id x => fun r s' => exists now, rp_consume id x now s = (r, s')
  | Transition id a b d => fun r s' => exists now, rp_transition id a b d now s = (r, s')
  | RecoverSigned id => fun r s' => exists now, rp_recover id now s = (r, s')
  | ListRows l => fun r s' => r = rp_list l s /\ s' = s
  | _ => fun _ s' => s' = s
  end.

(** The schema of the store holds along the way. *)
Definition sexec_ok `{ReplayStore St} (i : nat) {R} (e : seff R) (s : St) (r : R) (s' : St) : Prop :=
  rp_ok s /\ sexec e s r s'.

Lemma sexec_keeps_ok `{ReplayStore St} {R} (e : seff R) s r s' : rp_ok s -> sexec e s r s' -> rp_ok s'.
Proof.
  intros Hok. destruct e; simpl; intros He; destruct_and?; subst; try done;
    destruct He as [now E]; apply (f_equal snd) in E; simpl in E; subst s'.
  - by apply rp_consume_ok.
  - by apply rp_transition_ok.
  - by apply rp_recover_ok.
Qed.

(** What an effect other than a claim or a transition leaves alone. *)
Lemma sexec_get `{ReplayStore St} {R} (e : seff R) s r s' k :
  rp_ok s -> sexec e s r s' ->
  match e with Consume _ _ | Transition _ _ _ _ => True | _ => rp_get k s' = rp_get k s end.
Proof.
  intros Hok. destruct e; simpl; intros He; destruct_and?; subst; try done.
  destruct He as [now E]. by eapply rp_recover_keeps.
Qed.

(** Walk through a program of the signer. *)
Ltac signer_step :=
  match goal with
  | |- True => exact I
  | |- _ /\ _ => split
  | |- forall _, _ => intros ?
  | |- context [match ?x with _ => _ end] => destruct x eqn:?
  end.
Ltac signer_simpl :=
  try unfold run_task, sign, signEnvelope, verify, claim_and_sign, signClaimed, fenceBlockhash, stored,
    result_of, broadcastSigned, reconcileTransactions, reconcile_row, call, do, fail_if, raise; simpl.
Ltac signer_walk := repeat (signer_simpl; signer_step); signer_simpl.

Arguments check_claims : simpl never.
Arguments check_transaction : simpl never.
Arguments evaluatePolicy : simpl never.
Arguments canonicalClaims : simpl never.
Arguments isSafeInteger : simpl never.
