(* ===== verification/TransactionCodec.v ===== *)
(** `src/signer/transaction.ts`: decoding a transaction, and attaching a signature.

    The wire format belongs to a third-party package: reading a message, and
    (de)serializing it, are parameters.  A `VersionedTransaction` is the two fields
    the code reads and sets.  The theorem of the file is that a signature attached
    here is read back by the same decoder, over the same message. *)
From S2P Require Import Prelude Bytes SignerPolicy SignerService.
#[local] Open Scope string_scope.
#[local] Open Scope list_scope.
#[local] Open Scope Z_scope.
#[local] Open Scope result_scope.

Record CompiledInstruction : Type := { programIdIndex : Z; accountKeyIndexes : list Z; ci_bytes : list Z }.

(** `EMPTY_SIGNATURE` *)
Definition EMPTY_SIGNATURE (sg : list Z) : bool := forallb (fun b => b =? 0) sg.

(** The elements of a list, or the first error. *)
Fixpoint map_result {A B} (f : A -> result B) (l : list A) : result (list B) :=
  match l with
  | [] => inr []
  | x :: l' => let? y := f x in let? ys := map_result f l' in inr (y :: ys)
  end.

Section Codec.
(** `VersionedMessage` and what is read off it. *)
Context {Message PublicKey : Type} (toBase58 : PublicKey -> string)
        (staticKeys : Message -> list PublicKey) (headerSignatures : Message -> Z)
        (compiledInstructions : Message -> list CompiledInstruction)
        (lookups : Message -> list (PublicKey * list Z * list Z))
        (blockhashOf : Message -> string) (serializeMessage : Message -> list Z).

Record VersionedTransaction : Type := { tx_message : Message; tx_signatures : list (list Z) }.

Context (deserialize : list Z -> option VersionedTransaction) (serialize : VersionedTransaction -> option (list Z))
        (bs58_encode : list Z -> string) (sha256Hex : list Z -> string).

(** A decoded transaction: what the policy and the envelope read, and the object. *)
Record Decoded : Type := { view : DecodedTransaction; transaction : VersionedTransaction }.

(** The account keys of an instruction. *)
Definition account_at (keys : list string) (totalKeys i : Z) : result (option string) :=
  check (i <? 0) || (totalKeys <=? i) else "transaction_accounts_invalid";
  inr (if i <? Z.of_nat (length keys) then keys !! Z.to_nat i else None).

Definition instruction_of (keys : list string) (totalKeys : Z) (ix : CompiledInstruction) : result DecodedInstruction :=
  check (programIdIndex ix <? 0) || (Z.of_nat (length keys) <=? programIdIndex ix) else "transaction_program_unresolvable";
  let? accounts := map_result (account_at keys totalKeys) (accountKeyIndexes ix) in
  inr {| programId := default "" (keys !! Z.to_nat (programIdIndex ix)); accounts := accounts; data := ci_bytes ix |}.

Definition looked_up (m : Message) : Z :=
  sum_by (fun l => Z.of_nat (length l.1.2) + Z.of_nat (length l.2)) (lookups m).

(** What is checked and read of a transaction that deserialized. *)
Definition read (tx : VersionedTransaction) (canonical : list Z) : result Decoded :=
  let m := tx_message tx in
  let keys := map toBase58 (staticKeys m) in
  match keys with
  | [] => inl "transaction_accounts_invalid"
  | payer :: _ =>
      check (headerSignatures m <? 1) || (Z.of_nat (length keys) <? headerSignatures m) else "transaction_signers_invalid";
      check negb (Z.of_nat (length (tx_signatures tx)) =? headerSignatures m) else "transaction_signers_invalid";
      check (length (compiledInstructions m) =? 0)%nat else "transaction_instructions_empty";
      let? instructions := map_result (instruction_of keys (Z.of_nat (length keys) + looked_up m)) (compiledInstructions m) in
      inr {| view := {|
               feePayer := payer; recentBlockhash := blockhashOf m; numRequiredSignatures := headerSignatures m;
               staticAccountKeys := keys;
               signatures := map (fun sg => if EMPTY_SIGNATURE sg then None else Some (bs58_encode sg)) (tx_signatures tx);
               addressTableLookups := map (fun l => toBase58 l.1.1) (lookups m); instructions := instructions;
               messageBytes := serializeMessage m; messageBase64 := base64 (serializeMessage m);
               messageHash := sha256Hex (serializeMessage m); wireBase64 := base64 canonical |};
             transaction := tx |}
  end.

(** `decodeTransaction` *)
Definition decodeTransaction (wire : string) : result Decoded :=
  check streq wire "" else "transaction_invalid";
  let raw := from_base64 wire in
  check (length raw =? 0)%nat || negb (streq (base64 raw) wire) else "transaction_encoding_invalid";
  match deserialize raw with
  | None => inl "transaction_invalid"
  | Some tx =>
      match serialize tx with
      | None => inl "transaction_invalid"
      | Some canonical =>
          check negb (bool_decide (canonical = raw)) else "transaction_encoding_invalid";
          read tx canonical
      end
  end.

(** `tx.signatures[0] = x`, which appends to an empty array. *)
Definition set_first {A} (x : A) (l : list A) : list A := x :: tail l.

(** `attachSignature`: the constructor wants one signature per required signer. *)
Definition attachSignature (d : Decoded) (signature : list Z) : result (string * string) :=
  check negb (length signature =? 64)%nat else "signature_invalid";
  let tx := transaction d in
  check negb (Z.of_nat (length (tx_signatures tx)) =? headerSignatures (tx_message tx)) else "signatures length";
  match serialize {| tx_message := tx_message tx; tx_signatures := set_first signature (tx_signatures tx) |} with
  | None => inl "serialize"
  | Some wire => inr (base64 wire, bs58_encode signature)
  end.

(** What the signer's other parts see of the decoder, and of attaching. *)
Definition decode_view (wire : string) : result DecodedTransaction :=
  let? d := decodeTransaction wire in inr (view d).

Definition attach_view (d : DecodedTransaction) (signature : list Z) : result (string * string) :=
  let? full := decodeTransaction (wireBase64 d) in attachSignature full signature.

(** *** Decoding *)

Lemma read_object tx raw d : read tx raw = inr d -> transaction d = tx /\ wireBase64 (view d) = base64 raw.
Proof. unfold read. destruct (map _ _); [done|]. intros H. open_result H. by injection H as <-. Qed.

Lemma decode_spec wire d :
  decodeTransaction wire = inr d ->
  exists raw, wire = base64 raw /\ Forall is_byte raw /\ raw <> [] /\ deserialize raw = Some (transaction d) /\
    serialize (transaction d) = Some raw /\ read (transaction d) raw = inr d.
Proof.
  unfold decodeTransaction. intros H. open_result H. bool_hyps. exists (from_base64 wire).
  destruct (deserialize _) as [tx|] eqn:Ed; [|done]. destruct (serialize tx) as [c|] eqn:Es; [|done]. open_result H.
  bool_hyps. subst c. pose proof (read_object _ _ _ H) as [-> _].
  split_and!; try done; [apply from_base64_bytes|]. intros E. by rewrite E in *.
Qed.

Lemma decode_base64 raw tx :
  Forall is_byte raw -> raw <> [] -> deserialize raw = Some tx -> serialize tx = Some raw ->
  decodeTransaction (base64 raw) = read tx raw.
Proof.
  intros Hb Hne Hd Hs. unfold decodeTransaction.
  rewrite (proj2 (streq_false _ _) (base64_nonempty _ Hne)), from_base64_base64, streq_refl by done. cbn.
  rewrite (proj2 (Nat.eqb_neq _ _)) by (destruct raw; [done|discriminate]). cbn.
  by rewrite Hd, Hs, bool_decide_true.
Qed.

(** The text of a transaction is canonical: no other text decodes to it. *)
Lemma decode_canonical wire v : decode_view wire = inr v -> wireBase64 v = wire.
Proof.
  unfold decode_view. intros H. open_result H. injection H as <-.
  match goal with H : decodeTransaction _ = inr _ |- _ => apply decode_spec in H as (raw & -> & _ & _ & _ & _ & Hr) end.
  by apply read_object in Hr as [_ ->].
Qed.

(** The same view with other signatures. *)
Definition resigned (v : DecodedTransaction) (ss : list (option string)) (wire : string) : DecodedTransaction :=
  {| feePayer := feePayer v; recentBlockhash := recentBlockhash v; numRequiredSignatures := numRequiredSignatures v;
     staticAccountKeys := staticAccountKeys v; signatures := ss; addressTableLookups := addressTableLookups v;
     instructions := instructions v; messageBytes := messageBytes v; messageBase64 := messageBase64 v;
     messageHash := messageHash v; wireBase64 := wire |}.

(** The texts of the signature slots. *)
Definition slots (ss : list (list Z)) : list (option string) :=
  map (fun sg => if EMPTY_SIGNATURE sg then None else Some (bs58_encode sg)) ss.

Lemma read_resigned tx raw d ss raw' :
  read tx raw = inr d -> length ss = length (tx_signatures tx) ->
  read {| tx_message := tx_message tx; tx_signatures := ss |} raw' =
    inr {| view := resigned (view d) (slots ss) (base64 raw');
           transaction := {| tx_message := tx_message tx; tx_signatures := ss |} |} /\
  signatures (view d) = slots (tx_signatures tx).
Proof.
  unfold read. cbn [tx_message tx_signatures]. intros H Hl. rewrite Hl. destruct (map toBase58 _) as [|payer keys]; [done|].
  open_result H. injection H as <-. cbn [view]. split; [|done].
  repeat match goal with H : ?b = false |- context [throw_on ?b _] => rewrite H; cbn [throw_on rbind] end.
  match goal with H : map_result _ _ = inr _ |- _ => rewrite H end. done.
Qed.

(** A slot is filled with 64 bytes, not all zero: what decoding reads as signed. *)
Definition signature_bytes (sg : list Z) : Prop := length sg = 64%nat /\ Forall is_byte sg.

(** What is relied on of the package: serializing gives bytes; signatures that
    deserialized are 64 bytes each; and a transaction whose signatures are replaced
    by as many serializes and reads back. *)
Record wire_laws : Prop := {
  law_bytes : forall tx l, serialize tx = Some l -> Forall is_byte l /\ l <> [];
  law_signatures : forall raw tx, deserialize raw = Some tx -> Forall signature_bytes (tx_signatures tx);
  law_resign : forall raw tx ss, deserialize raw = Some tx -> length ss = length (tx_signatures tx) ->
    Forall signature_bytes ss ->
    exists l, serialize {| tx_message := tx_message tx; tx_signatures := ss |} = Some l /\
              deserialize l = Some {| tx_message := tx_message tx; tx_signatures := ss |}
}.

Lemma read_slots tx raw d :
  read tx raw = inr d ->
  Z.of_nat (length (tx_signatures tx)) = headerSignatures (tx_message tx) /\ tx_signatures tx <> [].
Proof.
  unfold read. destruct (map toBase58 _) as [|payer keys]; [done|]. intros H. open_result H. bool_hyps.
  split; [done|]. intros E. rewrite E in *. cbn in *. lia.
Qed.

(** C22: a signature that is attached is read back: attaching 64 bytes, not all
    zero, to a decoded transaction succeeds, and the text it gives decodes to the
    same transaction (the same message bytes, hash, accounts and instructions) with
    that signature, as reported, in the fee payer's slot and every other slot as it
    was. *)
Theorem attach_reads_back wire d sg
    (Hlaws : wire_laws) (Hd : decodeTransaction wire = inr d) (Hsg : signature_bytes sg)
    (Hne : EMPTY_SIGNATURE sg = false) :
  exists t, attachSignature d sg = inr (t, bs58_encode sg) /\ signatureOf decode_view t = inr (bs58_encode sg) /\
    decode_view t = inr (resigned (view d) (Some (bs58_encode sg) :: tail (signatures (view d))) t).
Proof.
  destruct (decode_spec _ _ Hd) as (raw & -> & Hb & _ & Hde & Hse & Hread).
  destruct (read_slots _ _ _ Hread) as [Hlen Hslots].
  set (ss := set_first sg (tx_signatures (transaction d))).
  assert (length ss = length (tx_signatures (transaction d))) as Hss.
  { unfold ss, set_first. destruct (tx_signatures (transaction d)); [done|]. done. }
  destruct (law_resign Hlaws _ _ ss Hde Hss) as (l & Hl & Hl').
  { unfold ss, set_first. constructor; [done|]. pose proof (law_signatures Hlaws _ _ Hde) as H. by destruct H. }
  destruct (law_bytes Hlaws _ _ Hl) as [Hlb Hlne].
  destruct (read_resigned _ _ _ ss l Hread Hss) as [Hr Hv].
  assert (decode_view (base64 l) = inr (resigned (view d) (slots ss) (base64 l))) as Hview
    by (unfold decode_view; rewrite (decode_base64 _ _ Hlb Hlne Hl' Hl), Hr; done).
  assert (slots ss = Some (bs58_encode sg) :: tail (signatures (view d))) as Es.
  { rewrite Hv. unfold ss, set_first, slots. cbn. rewrite Hne. by destruct (tx_signatures (transaction d)). }
  exists (base64 l). split_and!.
  - unfold attachSignature. rewrite (proj1 Hsg), Hlen, Z.eqb_refl. cbn [throw_on rbind negb Nat.eqb]. fold ss. by rewrite Hl.
  - unfold signatureOf. rewrite Hview. cbn [resigned signatures]. by rewrite Es.
  - by rewrite Hview, Es.
Qed.

(** What the signer is proved about takes its text to be non-empty: it is. *)
Lemma attach_view_text v sg t g : wire_laws -> attach_view v sg = inr (t, g) -> t <> "".
Proof.
  intros Hlaws. unfold attach_view, attachSignature. intros H. open_result H. destruct (serialize _) as [l|] eqn:E; [|done].
  injection H as <- _. apply base64_nonempty. by eapply law_bytes.
Qed.
End Codec.

(** *** A wire format with one signature *)

Definition byteb (b : Z) : bool := (0 <=? b) && (b <? 256).

Definition demo_deserialize (l : list Z) : option (@VersionedTransaction (list Z)) :=
  match l with
  | 1 :: r =>
      if (64 <? length r)%nat && forallb byteb r then Some {| tx_message := drop 64 r; tx_signatures := [take 64 r] |}
      else None
  | _ => None
  end.

Definition demo_serialize (tx : @VersionedTransaction (list Z)) : option (list Z) :=
  match tx_signatures tx with
  | [s] =>
      if (length s =? 64)%nat && negb (length (tx_message tx) =? 0)%nat && forallb byteb (s ++ tx_message tx)
      then Some (1 :: s ++ tx_message tx) else None
  | _ => None
  end.

Lemma forallb_byteb l : forallb byteb l = true <-> Forall is_byte l.
Proof.
  unfold is_byte, byteb. rewrite forallb_forall, Forall_forall. split; intros H x Hx; apply list_elem_of_In in Hx; specialize (H x Hx).
  - apply andb_true_iff in H. lia.
  - apply andb_true_iff. lia.
Qed.

Lemma demo_laws : wire_laws demo_deserialize demo_serialize.
Proof.
  split.
  - unfold demo_serialize. intros [m [|s [|s2 rest]]] l; try done. cbn [tx_message tx_signatures].
    destruct (_ && _) eqn:E; [|done]. intros [= <-]. bool_hyps. split; [|done].
    constructor; [unfold is_byte; lia|]. by apply forallb_byteb.
  - unfold demo_deserialize. intros [|[|[]|] r] tx; try done. destruct (_ && _) eqn:E; [|done]. intros [= <-]. bool_hyps.
    constructor; [|constructor]. split; [rewrite length_take; match goal with H : (64 <? _)%nat = true |- _ => apply Nat.ltb_lt in H end; lia|].
    apply Forall_take. by apply forallb_byteb.
  - unfold demo_deserialize, demo_serialize. intros [|[|[]|] r] tx ss; try done. destruct (_ && _) eqn:E; [|done].
    intros [= <-]. bool_hyps. cbn [tx_signatures tx_message length]. intros Hl Hss.
    destruct ss as [|s [|]]; try done. inversion Hss as [|? ? [Hs Hsb] _]; subst.
    assert (Forall is_byte (s ++ drop 64 r)) as Hall
      by (apply Forall_app; split; [done|apply Forall_drop; by apply forallb_byteb]).
    match goal with H : (64 <? _)%nat = true |- _ => apply Nat.ltb_lt in H end. rewrite (proj2 (forallb_byteb _) Hall), Hs, Nat.eqb_refl.
    rewrite (proj2 (Nat.eqb_neq _ _)) by (rewrite length_drop; lia). cbn [negb andb]. eexists. split; [done|].
    cbn iota. rewrite (proj2 (forallb_byteb _) Hall), length_app, length_drop, Hs, (proj2 (Nat.ltb_lt _ _)) by lia.
    cbn [andb]. by rewrite (drop_app_length' s) by done; rewrite (take_app_length' s) by done.
Qed.

#[local] Abbreviation demo_decoder := (decodeTransaction (fun k : string => k) (fun _ => ["FeePayer11111111"]) (fun _ => 1)
  (fun m => [{| programIdIndex := 0; accountKeyIndexes := [0]; ci_bytes := m |}]) (fun _ => []) (fun _ => "Blockhash")
  (fun m => m) demo_deserialize demo_serialize (fun l => hex l) (fun l => hex l)).

Definition demo_wire_bytes : list Z := 1 :: replicate 64 0 ++ [7; 8].

Lemma attach_reads_back_witness :
  exists d t, demo_decoder (base64 demo_wire_bytes) = inr d /\ signatures (view d) = [None] /\
    attachSignature (fun _ => 1) demo_serialize (fun l => hex l) d (replicate 64 9) = inr (t, hex (replicate 64 9)) /\
    base64 (1 :: replicate 64 9 ++ [7; 8]) = t.
Proof.
  assert (exists d, demo_decoder (base64 demo_wire_bytes) = inr d) as [d Hd] by (eexists; vm_compute; reflexivity).
  assert (signature_bytes (replicate 64 9)) as Hb
    by (split; [done|apply Forall_replicate; unfold is_byte; lia]).
  destruct (attach_reads_back (fun k : string => k) (fun _ => ["FeePayer11111111"]) (fun _ => 1)
    (fun m => [{| programIdIndex := 0; accountKeyIndexes := [0]; ci_bytes := m |}]) (fun _ => []) (fun _ => "Blockhash")
    (fun m => m) demo_deserialize demo_serialize (fun l => hex l) (fun l => hex l)
    (base64 demo_wire_bytes) d (replicate 64 9) demo_laws Hd Hb eq_refl) as (t & Ha & _ & _).
  exists d, t. split; [exact Hd|]. split; [|split; [exact Ha|]].
  - vm_compute in Hd. injection Hd as <-. reflexivity.
  - vm_compute in Hd. injection Hd as <-. vm_compute in Ha. injection Ha as <-. vm_compute. reflexivity.
Defined.
