(* ===== verification/RpcSimulator.v ===== *)
(** `src/execution/rpc-simulator.ts`: simulation over a node's JSON-RPC.

    [simulate] asks the node for the accounts a transaction can write, before and
    after, and derives what moved.  The node's answers are effects; account data
    is the bytes its base64 text stands for.  The message and lookup tables are
    objects of a third-party package: what is read off them is a parameter.
    Of the provenance, the constant and textual fields are left out. *)
From S2P Require Import Prelude Bytes Prog Canonical SignerPolicy SignerEnvelope SignerService Simulation.
From stdpp Require Import pretty.
From Stdlib Require Import Ascii.
#[local] Open Scope string_scope.
#[local] Open Scope list_scope.
#[local] Open Scope Z_scope.

(** *** Data *)

Definition CLUSTER_GENESIS_HASHES : list (string * string) :=
  [("mainnet-beta", "5eykt4UsFv8P8NJdTREpY1vzqKqZKvdpKuc147dw2N9d");
   ("devnet", "EtWTRABZaYq6iMfeYKouRu166VU2xqa1wcaWoxPkrZBG");
   ("testnet", "4uhcVJyU9pJkvQyS88uRDiswHXSCkY3zQawwpjk2NsNY")].

Record RpcSimulatorOptions : Type := {
  o_cluster : string; o_genesisHash : option string; o_maxSlotDrift : option Z;
  o_maxObservedAccounts : option Z; o_addressLookupTables : option (list string)
}.

Record RpcAccount : Type := { ra_lamports : Z; ra_owner : string; ra_data : list Z }.

Record SimulationProvenance : Type := {
  pv_preSlot : Z; pv_slot : Z; pv_sigVerify : bool; pv_observedAccounts : list string;
  pv_lookupTables : list string
}.

(** What `simulateTransaction` answers: absent fields are [None]. *)
Record SimAnswer : Type := {
  sa_slot : number; sa_err : option value; sa_logs : option (list string);
  sa_accounts : option (list (option RpcAccount)); sa_unitsConsumed : number
}.

Definition TOKEN_PROGRAMS : list string :=
  ["TokenkegQfeZyiNwAJbNbGKPFXCWuBvf9Ss623VQ5DA"; "TokenzQdBNbLqP5VEhdkAS6EPFLC1PHnBqCXEpPxuEb"].

Definition SPL_ACCOUNT_BYTES : nat := 165.

(** *** Texts *)

(** `Object.entries(v)` of an object or an array. *)
Definition entries (v : value) : list (string * value) :=
  match v with
  | V_object fs => fs
  | V_array l => imap (fun i x => (pretty (Z.of_nat i), x)) l
  | _ => []
  end.

(** `String(v)` *)
Fixpoint js_string (v : value) : string :=
  match v with
  | V_null => "null"
  | V_bool b => if b then "true" else "false"
  | V_string s => s
  | V_number z | V_bigint z => pretty z
  | V_array l => Canonical.join (map (fun x => match x with V_null => "" | _ => js_string x end) l)
  | V_object _ | V_other => "[object Object]"
  end.

(** What is rendered of the detail of an `InstructionError`. *)
Definition render_detail (d : option value) : string :=
  match d with
  | None => "undefined"
  | Some (V_string s) => s
  | Some (V_object _ as v) | Some (V_array _ as v) =>
      Canonical.join (map (fun '(k, x) => (k ++ "(" ++ js_string x ++ ")")%string) (entries v))
  | Some v => js_string v
  end.

(** `decodeSimulationError` *)
Definition decodeSimulationError (err : option value) : string :=
  match err with
  | None | Some V_null => "failed"
  | Some (V_string s) => s
  | Some (V_object _ as e) | Some (V_array _ as e) =>
      match entries e with
      | [] => "failed"
      | (tag, v) :: _ =>
          if streq tag "" then "failed"
          else match v with
               | V_array (i :: l) =>
                   if streq tag "InstructionError"
                   then ("InstructionError(" ++ js_string i ++ "," ++ render_detail (head l) ++ ")")%string
                   else (tag ++ "(" ++ String.substring 0 128 (print v) ++ ")")%string
               | V_array [] =>
                   if streq tag "InstructionError" then "InstructionError(undefined,undefined)"
                   else (tag ++ "(" ++ print v ++ ")")%string
               | V_null => tag
               | _ => (tag ++ "(" ++ String.substring 0 128 (print v) ++ ")")%string
               end
      end
  | Some v => js_string v
  end.

(** *** Reading accounts *)

Definition stateOf (address : string) (a : option RpcAccount) : AccountState :=
  {| as_address := address; as_lamports := match a with Some r => ra_lamports r | None => 0 end;
     as_owner := match a with Some r => ra_owner r | None => "" end;
     as_data := (fun r => base64 (ra_data r)) <$> a |}.

Record TokenAccount : Type := { ta_mint : string; ta_owner : string; ta_amount : Z }.

(** `if (!(b)) throw new RpcSimulationError(code)` is [fail_if] of any effects. *)
Definition reject {E} (b : bool) (code : string) : prog E string unit := if b then Throw code else Ret tt.

(** The first occurrence of each item: `[...new Set(l)]`. *)
Fixpoint unique (seen l : list string) : list string :=
  match l with
  | [] => []
  | x :: l' => if includes seen x then unique seen l' else x :: unique (x :: seen) l'
  end.

(** *** Totals *)

(** `add(asset, owner, amount)`: the `Map` in insertion order. *)
Fixpoint add_total (m : AssetDelta) (totals : list AssetDelta) : list AssetDelta :=
  match totals with
  | [] => [m]
  | t :: totals' =>
      if streq (delta_key t) (delta_key m)
      then {| ad_asset := ad_asset t; ad_owner := ad_owner t; ad_amount := ad_amount t + ad_amount m |} :: totals'
      else t :: add_total m totals'
  end.

Definition add (m : AssetDelta) (totals : list AssetDelta) : list AssetDelta :=
  if ad_amount m =? 0 then totals else add_total m totals.

Section RpcSimulator.
Context (bs58_encode : list Z -> string) (decodeTransaction : string -> result DecodedTransaction).
(** Lookup tables, and what a message says of its accounts given them. *)
Context {LookupTable : Type} (deserialize : string -> list Z -> option LookupTable)
        (accountKeys : DecodedTransaction -> list LookupTable -> result (list (option string)))
        (isAccountWritable : DecodedTransaction -> nat -> bool).
Context (o : RpcSimulatorOptions).

(** `tokenAccount` *)
Definition tokenAccount (a : option RpcAccount) : option TokenAccount :=
  match a with
  | None => None
  | Some r =>
      if negb (includes TOKEN_PROGRAMS (ra_owner r)) then None
      else if (length (ra_data r) <? SPL_ACCOUNT_BYTES)%nat then None
      else Some {| ta_mint := bs58_encode (take 32 (ra_data r));
                   ta_owner := bs58_encode (take 32 (drop 32 (ra_data r)));
                   ta_amount := le_value (take 8 (drop 64 (ra_data r))) |}
  end.

(** *** Effects: the RPC methods called *)

Inductive reff : Type -> Type :=
  | GetGenesisHash : reff (result value)
  | GetTables (keys : list string) : reff (result (list (option RpcAccount)))
  (** the context slot and the accounts, fewer if the node left some out *)
  | GetAccounts (addresses : list string) : reff (result (number * list (option RpcAccount)))
  | SimulateTransaction (transaction : string) (sigVerify : bool) (minContextSlot : Z) (addresses : list string) :
      reff (result SimAnswer)
  | GetFee (message : string) : reff (result (option Z)).

Definition rprog : Type -> Type := prog reff string.

Definition rcall {R} (e : reff (result R)) : rprog R := bind (trigger e) raise.

(** `lookupTables` *)
Definition pinned (key : string) : bool := includes (default [] (o_addressLookupTables o)) key.

Fixpoint read_tables (keys : list string) (values : list (option RpcAccount)) : result (list LookupTable) :=
  match keys with
  | [] => inr []
  | key :: keys' =>
      match head values with
      | Some (Some a) =>
          match deserialize key (ra_data a) with
          | None => inl "address_table_lookup_invalid"
          | Some t => rbind (read_tables keys' (tail values)) (fun ts => inr (t :: ts))
          end
      | _ => inl "address_table_lookup_missing"
      end
  end.

#[local] Open Scope prog_scope.

Definition lookupTables (q : SimulationRequest) : rprog (list LookupTable) :=
  match q_addressTableLookups q with
  | [] => Ret []
  | keys =>
      reject (existsb (fun k => negb (pinned k)) keys) "address_table_lookup_unpinned" ;;
      let* values := rcall (GetTables keys) in
      raise (read_tables keys values)
  end.

(** `writableAccounts` *)
Definition writableAccounts (d : DecodedTransaction) (tables : list LookupTable) : result (list string) :=
  rbind (accountKeys d tables) (fun keys =>
    let out := omap id (imap (fun i k => if isAccountWritable d i then k else None) keys) in
    let us := unique [] out in
    if default 64 (o_maxObservedAccounts o) <? Z.of_nat (length us) then inl "observed_accounts_exceeded"
    else inr us).

(** *** What moved *)

Definition lamports (a : option RpcAccount) : Z := match a with Some r => ra_lamports r | None => 0 end.

Definition native_move (address : string) (before after : option RpcAccount) : AssetDelta :=
  {| ad_asset := NATIVE_ASSET; ad_owner := address; ad_amount := lamports after - lamports before |}.

Definition token_amount (t : option TokenAccount) : Z := match t with Some x => ta_amount x | None => 0 end.

(** One turn of the loop over the accounts, past the lamports. *)
Definition token_move (before after : option RpcAccount) (totals : list AssetDelta) : result (list AssetDelta) :=
  match tokenAccount after with
  | None => inr totals
  | Some post =>
      let prior := tokenAccount before in
      if match prior with
         | Some p => negb (streq (ta_mint p) (ta_mint post)) || negb (streq (ta_owner p) (ta_owner post))
         | None => false
         end
      then inl "token_account_identity_changed"
      else inr (add {| ad_asset := ta_mint post; ad_owner := ta_owner post;
                       ad_amount := ta_amount post - token_amount prior |} totals)
  end.

(** The loop; an account missing from [pre] reads as null. *)
Fixpoint observe (addresses : list string) (pre post : list (option RpcAccount)) (totals : list AssetDelta) :
    result (list AssetDelta) :=
  match addresses with
  | [] => inr totals
  | address :: rest =>
      let before := default None (head pre) in
      let after := default None (head post) in
      rbind (token_move before after (add (native_move address before after) totals))
        (fun totals' => observe rest (tail pre) (tail post) totals')
  end.

Fixpoint states_of (addresses : list string) (post : list (option RpcAccount)) : list AccountState :=
  match addresses with
  | [] => []
  | address :: rest => stateOf address (default None (head post)) :: states_of rest (tail post)
  end.

(** `BigInt(Math.max(0, Number(x)))` *)
Definition units (x : number) : result Z :=
  match x with
  | Prelude.Infinite true => inr 0
  | Finite q =>
      if QArith_base.Qle_bool q (QArith_base.inject_Z 0) then inr 0
      else let z := floor_number x in
           if QArith_base.Qeq_bool q (QArith_base.inject_Z z) then inr z else inl "RangeError"
  | _ => inl "RangeError"
  end.

Definition failed_result (q : SimulationRequest) (slot used : Z) (a : SimAnswer) : SimulationResult :=
  {| sr_success := false; sr_slot := slot; sr_blockhash := q_recentBlockhash q;
     sr_messageHash := q_messageHash q; sr_unitsConsumed := used; sr_feeLamports := 0;
     sr_logs := default [] (sa_logs a); sr_accountStates := []; sr_assetDeltas := [];
     sr_capabilities := Some {| cap_balances := false;
       cap_logs := match sa_logs a with Some _ => true | None => false end;
       cap_fee := false; cap_tables := true |};
     sr_err := Some (decodeSimulationError (sa_err a)) |}.

Definition successful_result (q : SimulationRequest) (slot used fee : Z) (logs : list string)
    (states : list AccountState) (deltas : list AssetDelta) : SimulationResult :=
  {| sr_success := true; sr_slot := slot; sr_blockhash := q_recentBlockhash q;
     sr_messageHash := q_messageHash q; sr_unitsConsumed := used; sr_feeLamports := fee; sr_logs := logs;
     sr_accountStates := states; sr_assetDeltas := deltas; sr_capabilities := Some full_capabilities;
     sr_err := None |}.

(** `this.o.genesisHash ?? CLUSTER_GENESIS_HASHES[this.o.cluster]` *)
Definition expectedGenesis : option string :=
  truthy (match o_genesisHash o with
          | Some h => Some h
          | None => snd <$> List.find (fun e => streq (fst e) (o_cluster o)) CLUSTER_GENESIS_HASHES
          end).

(** `simulate`, from the answer of the node on *)
Definition derive (q : SimulationRequest) (addresses : list string) (pre : list (option RpcAccount))
    (slot : Z) (a : SimAnswer) : rprog SimulationResult :=
  let* used := raise (units (sa_unitsConsumed a)) in
  if truthy_value (sa_err a) then Ret (failed_result q slot used a)
  else
    match sa_accounts a, sa_logs a with
    | None, _ => Throw "account_states_unavailable"
    | Some post, logs =>
        reject (negb (length post =? length addresses)%nat) "account_states_incomplete" ;;
        match logs with
        | None => Throw "logs_unavailable"
        | Some logs =>
            let* fee := rcall (GetFee (q_message q)) in
            match fee with
            | None => Throw "fee_unavailable"
            | Some fee =>
                let* deltas := raise (observe addresses pre post []) in
                Ret (successful_result q slot used fee logs (states_of addresses post) deltas)
            end
        end
    end.

(** `simulate` *)
Definition simulate (q : SimulationRequest) : rprog (SimulationResult * SimulationProvenance) :=
  match expectedGenesis with
  | None => Throw "cluster_unknown"
  | Some expected =>
      reject (negb (streq (q_cluster q) (o_cluster o))) "cluster_mismatch" ;;
      let* genesis := rcall GetGenesisHash in
      reject (negb (is_text genesis expected)) "cluster_mismatch" ;;
      let* d := raise (decodeTransaction (q_transaction q)) in
      reject (negb (streq (messageHash d) (q_messageHash q))) "transaction_mismatch" ;;
      let sigVerify := forallb (fun s : option string => match s with Some _ => true | None => false end) (signatures d) in
      let* tables := lookupTables q in
      let* addresses := raise (writableAccounts d tables) in
      let* pre := rcall (GetAccounts addresses) in
      match safe_int (fst pre) with
      | None => Throw "context_slot_invalid"
      | Some preSlot =>
          let* a := rcall (SimulateTransaction (q_transaction q) sigVerify preSlot addresses) in
          match safe_int (sa_slot a) with
          | None => Throw "context_slot_invalid"
          | Some slot =>
              reject (slot <? preSlot) "slot_regressed" ;;
              reject (default 150 (o_maxSlotDrift o) <? slot - preSlot) "slot_drift_exceeded" ;;
              let* r := derive q addresses (snd pre) slot a in
              Ret (r, {| pv_preSlot := preSlot; pv_slot := slot; pv_sigVerify := sigVerify;
                         pv_observedAccounts := addresses;
                         pv_lookupTables := match tables with [] => [] | _ => q_addressTableLookups q end |})
          end
      end
  end.
End RpcSimulator.
