(* ===== verification/RpcSafety.v ===== *)
(** What a simulation over RPC establishes.

    The deltas of a successful [RpcSimulator.simulate] are the differences of the
    accounts it observed, summed per asset and owner, and what
    [Simulation.assertSimulationSafe] accepts of them moved only allowed assets. *)
From S2P Require Import Prelude Prog Canonical SignerPolicy SignerEnvelope SignerService Simulation RpcSimulator.
From Stdlib Require Import Ascii.
#[local] Open Scope string_scope.
#[local] Open Scope list_scope.
#[local] Open Scope Z_scope.
#[local] Open Scope prog_scope.

(** *** Totals *)

(** What a list of movements amounts to under a key. *)
Definition total (k : string) (l : list AssetDelta) : Z :=
  sum_by (fun d => if streq (delta_key d) k then ad_amount d else 0) l.

(** [ds] is the list of totals of the movements [ms]. *)
Record totals_of (ms ds : list AssetDelta) : Prop := {
  to_once : NoDup (map delta_key ds);
  to_total : forall k, total k ds = total k ms;
  to_keys : forall k, k ∈ map delta_key ds <-> exists m, m ∈ ms /\ ad_amount m <> 0 /\ delta_key m = k;
  to_source : forall d, d ∈ ds -> exists m, m ∈ ms /\ ad_asset d = ad_asset m /\ ad_owner d = ad_owner m
}.

Lemma total_cons k d l : total k (d :: l) = (if streq (delta_key d) k then ad_amount d else 0) + total k l.
Proof. apply sum_by_cons. Qed.

Lemma total_app k l1 l2 : total k (l1 ++ l2) = total k l1 + total k l2.
Proof. apply sum_by_app. Qed.

Lemma add_total_keys m t :
  map delta_key (add_total m t) =
  if decide (delta_key m ∈ map delta_key t) then map delta_key t else map delta_key t ++ [delta_key m].
Proof.
  induction t as [|x t IH]; [done|]. cbn [add_total map]. destruct (streq (delta_key x) (delta_key m)) eqn:E.
  - bool_hyps. rewrite decide_True by (rewrite E; left). done.
  - bool_hyps. cbn [map]. rewrite IH. destruct (decide (delta_key m ∈ map delta_key t)).
    + rewrite decide_True by by right. done.
    + rewrite decide_False; [done|]. by intros [?|?]%elem_of_cons.
Qed.

Lemma add_total_total k m t :
  total k (add_total m t) = total k t + (if streq (delta_key m) k then ad_amount m else 0).
Proof.
  induction t as [|x t IH]; cbn [add_total]; [rewrite total_cons; change (total k []) with 0; lia|].
  destruct (streq (delta_key x) (delta_key m)) eqn:E; rewrite !total_cons; [|rewrite IH; lia].
  bool_hyps. assert (delta_key {| ad_asset := ad_asset x; ad_owner := ad_owner x;
    ad_amount := ad_amount x + ad_amount m |} = delta_key m) as -> by exact E.
  rewrite E. cbn [ad_amount]. destruct (streq _ k); lia.
Qed.

Lemma add_total_source m t d :
  d ∈ add_total m t -> exists x, (x ∈ t \/ x = m) /\ ad_asset d = ad_asset x /\ ad_owner d = ad_owner x.
Proof.
  induction t as [|x t IH]; cbn [add_total].
  - intros ->%list_elem_of_singleton. by exists m; auto.
  - destruct (streq _ _); intros [->|H]%elem_of_cons.
    + exists x. split; [left; left|done].
    + exists d. split; [left; by right|done].
    + exists x. split; [left; left|done].
    + destruct (IH H) as (y & [Hy|Hy] & ?); exists y; (split; [|done]); [left; by right|by right].
Qed.

Lemma add_totals_of ms ds m : totals_of ms ds -> totals_of (ms ++ [m]) (add m ds).
Proof.
  intros [Hn Ht Hk Hs]. unfold add.
  assert (forall d, d ∈ ds -> exists x, x ∈ ms ++ [m] /\ ad_asset d = ad_asset x /\ ad_owner d = ad_owner x) as Hs'
    by (intros d Hd; destruct (Hs d Hd) as (x & ? & ?); exists x; split; [apply elem_of_app; by left|done]).
  destruct (ad_amount m =? 0) eqn:E.
  - apply Z.eqb_eq in E. split; [done| | |done].
    + intros k. rewrite total_app, total_cons, E, Ht. change (total k []) with 0. destruct (streq _ k); lia.
    + intros k. rewrite Hk. split; intros (x & Hx & Ha & Hkx); exists x; (split; [|done]).
      * apply elem_of_app. by left.
      * apply elem_of_app in Hx as [Hx| ->%list_elem_of_singleton]; done.
  - apply Z.eqb_neq in E. pose proof (add_total_keys m ds) as Hkeys.
    assert (forall k, k ∈ map delta_key (add_total m ds) <-> k ∈ map delta_key ds \/ k = delta_key m) as Hin.
    { intros k. rewrite Hkeys. case_decide as Hd.
      - split; [by left|]. by intros [?| ->].
      - rewrite elem_of_app, list_elem_of_singleton. done. }
    split.
    + rewrite Hkeys. case_decide as Hd; [done|]. apply NoDup_app. split_and!; [done| |apply NoDup_singleton].
      intros x Hx ->%list_elem_of_singleton. done.
    + intros k. rewrite add_total_total, total_app, total_cons, Ht. change (total k []) with 0. lia.
    + intros k. rewrite Hin, Hk. split.
      * intros [(x & Hx & ?)| ->]; [exists x|exists m]; (split; [apply elem_of_app|done]); [by left|right; left].
      * intros (x & [Hx| ->%list_elem_of_singleton]%elem_of_app & ? & <-); [left; eauto|by right].
    + intros d (x & [Hx| ->] & ?)%add_total_source.
      * destruct (Hs' x Hx) as (y & ? & ? & ?). exists y. split; [done|]. destruct_and?. split; congruence.
      * exists m. split; [apply elem_of_app; right; left|done].
Qed.

Section Observe.
Context (bs58_encode : list Z -> string).

#[local] Abbreviation tokens := (tokenAccount bs58_encode).

(** *** What moved, account by account *)

Definition token_movement (before after : option RpcAccount) : list AssetDelta :=
  match tokens after with
  | None => []
  | Some post => [{| ad_asset := ta_mint post; ad_owner := ta_owner post;
                     ad_amount := ta_amount post - token_amount (tokens before) |}]
  end.

Fixpoint movements (addresses : list string) (pre post : list (option RpcAccount)) : list AssetDelta :=
  match addresses with
  | [] => []
  | address :: rest =>
      let before := default None (head pre) in
      let after := default None (head post) in
      native_move address before after :: token_movement before after ++ movements rest (tail pre) (tail post)
  end.

(** A token account that stays one keeps its mint and owner. *)
Definition same_identity (before after : option RpcAccount) : Prop :=
  forall b a, tokens before = Some b -> tokens after = Some a -> ta_mint b = ta_mint a /\ ta_owner b = ta_owner a.

Fixpoint same_identities (addresses : list string) (pre post : list (option RpcAccount)) : Prop :=
  match addresses with
  | [] => True
  | _ :: rest => same_identity (default None (head pre)) (default None (head post)) /\
                 same_identities rest (tail pre) (tail post)
  end.

Lemma token_move_spec before after ms t t' :
  token_move bs58_encode before after t = inr t' -> totals_of ms t ->
  totals_of (ms ++ token_movement before after) t' /\ same_identity before after.
Proof.
  unfold token_move, token_movement, same_identity. destruct (tokens after) as [post|].
  - destruct (tokens before) as [p|]; cbn.
    + destruct (negb _ || negb _) eqn:E; [done|]. intros [= <-] Ht. bool_hyps. split; [by apply add_totals_of|].
      intros b a [= <-] [= <-]. done.
    + intros [= <-] Ht. split; [by apply add_totals_of|done].
  - intros [= <-] Ht. by rewrite app_nil_r.
Qed.

Lemma observe_spec addresses pre post ms t t' :
  observe bs58_encode addresses pre post t = inr t' -> totals_of ms t ->
  totals_of (ms ++ movements addresses pre post) t' /\ same_identities addresses pre post.
Proof.
  revert pre post ms t. induction addresses as [|address rest IH]; intros pre post ms t; cbn [observe movements same_identities].
  { intros [= <-]. by rewrite app_nil_r. }
  intros (t1 & H1 & H)%rbind_inr Ht. apply (token_move_spec _ _ (ms ++ [native_move address (default None (head pre)) (default None (head post))])) in H1
    as [Ht1 Hid]; [|by apply add_totals_of].
  destruct (IH _ _ _ _ H Ht1) as [Ht' Hids]. split; [|done].
  by rewrite <- !app_assoc in Ht'.
Qed.

Lemma totals_nil : totals_of [] [].
Proof.
  split; [constructor|done| |by intros d ?%elem_of_nil].
  intros k. split; [by intros ?%elem_of_nil|]. by intros (m & Hm%elem_of_nil & _).
Qed.
End Observe.

Section Simulated.
Context (bs58_encode : list Z -> string) (decodeTransaction : string -> result DecodedTransaction).
Context {LookupTable : Type} (deserialize : string -> list Z -> option LookupTable)
        (accountKeys : DecodedTransaction -> list LookupTable -> result (list (option string)))
        (isAccountWritable : DecodedTransaction -> nat -> bool).
Context (o : RpcSimulatorOptions).

#[local] Abbreviation simulate_ q := (simulate bs58_encode decodeTransaction deserialize accountKeys isAccountWritable o q).

(** The tables of the request are pinned, and are what the node answered. *)
Definition tables_read (q : SimulationRequest) (l : list (event reff)) (tables : list LookupTable) : Prop :=
  length tables = length (q_addressTableLookups q) /\
  (forall key, key ∈ q_addressTableLookups q -> key ∈ default [] (o_addressLookupTables o)) /\
  (q_addressTableLookups q <> [] -> exists values, Event (GetTables (q_addressTableLookups q)) (inr values) ∈ l /\
     forall i key, q_addressTableLookups q !! i = Some key ->
       exists a t, values !! i = Some (Some a) /\ deserialize key (ra_data a) = Some t /\ tables !! i = Some t).

(** The accounts are those the message can write, each once. *)
Definition writable_of (d : DecodedTransaction) (tables : list LookupTable) (addresses : list string) : Prop :=
  exists keys, accountKeys d tables = inr keys /\ NoDup addresses /\
    Z.of_nat (length addresses) <= default 64 (o_maxObservedAccounts o) /\
    forall address, address ∈ addresses <->
      exists i, keys !! i = Some (Some address) /\ isAccountWritable d i = true.

(** The node is of the request's cluster. *)
Definition right_cluster (q : SimulationRequest) (l : list (event reff)) : Prop :=
  q_cluster q = o_cluster o /\ exists h, Event GetGenesisHash (inr (V_string h)) ∈ l /\
    (o_genesisHash o = Some h \/ o_genesisHash o = None /\ (o_cluster o, h) ∈ CLUSTER_GENESIS_HASHES).

(** The node was asked about the exact transaction and all it can write, and the
    result is what its answers say. *)
Record observed_run (q : SimulationRequest) (l : list (event reff)) (r : SimulationResult)
    (pv : SimulationProvenance) (pre : list (option RpcAccount)) (post : list (option RpcAccount)) : Prop := {
  or_cluster : right_cluster q l;
  or_decoded : exists d tables, decodeTransaction (q_transaction q) = inr d /\ messageHash d = q_messageHash q /\
                 tables_read q l tables /\ writable_of d tables (pv_observedAccounts pv) /\
                 (pv_sigVerify pv = true <-> forall s, s ∈ signatures d -> s <> None);
  or_pre : exists slot, Event (GetAccounts (pv_observedAccounts pv)) (inr (slot, pre)) ∈ l /\
             safe_int slot = Some (pv_preSlot pv);
  or_post : exists a, Event (SimulateTransaction (q_transaction q) (pv_sigVerify pv) (pv_preSlot pv)
                               (pv_observedAccounts pv)) (inr a) ∈ l /\
              safe_int (sa_slot a) = Some (sr_slot r) /\ truthy_value (sa_err a) = false /\
              sa_accounts a = Some post /\ sa_logs a = Some (sr_logs r);
  or_fee : Event (GetFee (q_message q)) (inr (Some (sr_feeLamports r))) ∈ l;
  or_drift : pv_preSlot pv <= sr_slot r <= pv_preSlot pv + default 150 (o_maxSlotDrift o);
  or_length : length post = length (pv_observedAccounts pv);
  or_result : sr_messageHash r = q_messageHash q /\ sr_blockhash r = q_recentBlockhash q /\
              sr_capabilities r = Some full_capabilities /\
              sr_accountStates r = states_of (pv_observedAccounts pv) post;
  or_totals : totals_of (movements bs58_encode (pv_observedAccounts pv) pre post) (sr_assetDeltas r);
  or_identity : same_identities bs58_encode (pv_observedAccounts pv) pre post
}.

Definition run_post (q : SimulationRequest) (r : string + (SimulationResult * SimulationProvenance))
    (h : list (event reff)) : Prop :=
  match r with
  | inr (r, pv) => sr_success r = true -> exists pre post, observed_run q (rev h) r pv pre post
  | inl _ => True
  end.

Lemma unique_spec seen l : NoDup (unique seen l) /\ forall x, x ∈ unique seen l <-> x ∈ l /\ x ∉ seen.
Proof.
  revert seen. induction l as [|x l IH]; intros seen; cbn [unique].
  { split; [constructor|]. intros y. split; [by intros ?%elem_of_nil|by intros [?%elem_of_nil _]]. }
  destruct (includes seen x) eqn:E.
  - apply includes_spec in E. destruct (IH seen) as [Hn Hi]. split; [done|]. intros y. rewrite Hi, elem_of_cons.
    split; [by intros [? ?]; auto|]. by intros [[->|?] ?].
  - assert (x ∉ seen) as Hx by (intros H%includes_spec; congruence).
    destruct (IH (x :: seen)) as [Hn Hi]. split.
    + apply NoDup_cons. split; [|done]. intros [_ H]%Hi. apply H. left.
    + intros y. rewrite !elem_of_cons, Hi, elem_of_cons. split.
      * intros [->|[? ?]]; [by auto|]. split; [by right|]. intros ?. auto.
      * intros [[->|?] ?]; [by left|]. destruct (decide (y = x)) as [->|]; [by left|right]. split; [done|]. by intros [?|?].
Qed.

Lemma writable_spec d tables addresses :
  writableAccounts accountKeys isAccountWritable o d tables = inr addresses -> writable_of d tables addresses.
Proof.
  unfold writableAccounts. intros (keys & Hk & H)%rbind_inr. destruct (_ <? _) eqn:E; [done|]. injection H as <-.
  apply Z.ltb_ge in E. set (out := omap _ _) in *. destruct (unique_spec [] out) as [Hn Hi]. exists keys. split_and!; [done..|].
  intros address. rewrite Hi. split.
  - intros [(k & Hin & Hid)%list_elem_of_omap _]. cbn in Hid. subst k.
    apply elem_of_lookup_imap in Hin as (i & k & Hik & Hl). exists i. destruct (isAccountWritable d i) eqn:Ew; [|done].
    by subst k.
  - intros (i & Hl & Hw). split; [|by intros ?%elem_of_nil]. apply list_elem_of_omap. exists (Some address). split; [|done].
    apply elem_of_lookup_imap. exists i, (Some address). by rewrite Hw.
Qed.

Lemma read_tables_spec keys values ts :
  read_tables deserialize keys values = inr ts ->
  length ts = length keys /\ forall i key, keys !! i = Some key ->
    exists a t, values !! i = Some (Some a) /\ deserialize key (ra_data a) = Some t /\ ts !! i = Some t.
Proof.
  revert values ts. induction keys as [|key keys IH]; intros values ts; cbn [read_tables]; [by intros [= <-]|].
  destruct values as [|[a|] values]; [done| |done]. cbn [head tail]. destruct (deserialize key (ra_data a)) as [t|] eqn:Et; [|done].
  intros (ts' & H & [= <-])%rbind_inr. destruct (IH _ _ H) as [Hl Hi]. split; [cbn; lia|].
  intros [|i] k; cbn; [|apply Hi]. intros [= <-]. by exists a, t.
Qed.

Lemma pinned_spec keys : existsb (fun k => negb (pinned o k)) keys = false ->
  forall key, key ∈ keys -> key ∈ default [] (o_addressLookupTables o).
Proof.
  intros H key Hk. apply includes_spec. destruct (includes (default [] (o_addressLookupTables o)) key) eqn:E; [done|].
  apply not_true_iff_false in H. destruct H. apply existsb_exists. exists key. split; [by apply list_elem_of_In|].
  unfold pinned. by rewrite E.
Qed.

Lemma genesis_spec h : expectedGenesis o = Some h ->
  o_genesisHash o = Some h \/ o_genesisHash o = None /\ (o_cluster o, h) ∈ CLUSTER_GENESIS_HASHES.
Proof.
  unfold expectedGenesis. destruct (o_genesisHash o) as [x|]; [cbn; destruct (streq x ""); [done|by left; congruence]|].
  destruct (List.find (fun e => streq (fst e) (o_cluster o)) CLUSTER_GENESIS_HASHES) as [[cl x]|] eqn:E; [|done].
  cbn [fmap option_fmap option_map snd truthy].
  destruct (streq x ""); [done|]. intros [= <-]. right. split; [done|]. apply find_some in E as [Hin Heq]. cbn in Heq.
  bool_hyps. subst. by apply list_elem_of_In.
Qed.

Lemma verify_spec (l : list (option string)) :
  forallb (fun s => match s with Some _ => true | None => false end) l = true <-> forall s, s ∈ l -> s <> None.
Proof.
  rewrite forallb_forall. split; intros H s Hs.
  - specialize (H s (proj1 (list_elem_of_In _ _) Hs)). by destruct s.
  - specialize (H s (proj2 (list_elem_of_In _ _) Hs)). by destruct s.
Qed.

Lemma is_text_spec v h : is_text v h = true -> v = V_string h.
Proof. destruct v; try done. cbn. intros. by bool_hyps; subst. Qed.

Ltac sim_step :=
  match goal with
  | |- True => exact I
  | |- True /\ _ => split; [exact I|]
  | |- forall _, _ => intros ?
  | |- context [match ?x with _ => _ end] => destruct x eqn:?; try exact I
  end.

Lemma simulate_ensures q :
  ensures (fun _ _ _ => True) (fun _ _ _ => True) record_event (simulate_ q) (run_post q) [].
Proof.
  unfold simulate, lookupTables, derive, rcall, reject, raise.
  repeat first [sim_step | progress cbn [bind trigger ensures]].
  all: try (intros [=]; fail). all: try done.
  all: bool_hyps.
  all: match goal with H : observe _ ?ad ?pre ?post [] = inr _ |- _ =>
    apply (observe_spec _ _ _ _ []) in H as [? ?]; [|apply totals_nil]; exists pre, post end.
  all: match goal with H : (length _ =? length _)%nat = true |- _ => apply Nat.eqb_eq in H end.
  all: repeat match goal with x : number * _ |- _ => destruct x end; cbn in *.
  all: repeat match goal with
    | H : writableAccounts _ _ _ _ _ = inr _ |- _ => apply writable_spec in H
    | H : expectedGenesis _ = Some _ |- _ => apply genesis_spec in H
    | H : is_text _ _ = true |- _ => apply is_text_spec in H
    end.
  all: try match goal with
    | E : q_addressTableLookups _ = ?k :: ?ks, H : negb _ || _ = false, H' : match head ?v with _ => _ end = inr ?ts |- _ =>
        pose proof (pinned_spec (k :: ks) H); pose proof (read_tables_spec (k :: ks) v ts H') as [? ?]; clear H H'
    end.
  all: split; cbn; [| |..|done|done]; subst.
  all: first
    [ lia | done | by in_history | eexists; split; [by in_history|done]
    | split; [done|]; eexists; split; [by in_history|done]
    | eexists _, _; split_and!; [done|done| |done|apply verify_spec] ].
  all: unfold tables_read; match goal with H : q_addressTableLookups _ = _ |- _ => rewrite H end; split_and!; try done.
  all: first [ by intros key ?%elem_of_nil | intros _; eexists; split; [by in_history|done] ].
Qed.

(** What a successful simulation reports is what a node of the request's cluster
    answered about the exact transaction that was asked for: the decoded bytes have
    the requested message, the accounts observed are each that the message can
    write, those its pinned lookup tables add among them, the slot did not run
    behind the read before it or too far ahead, every capability was observed,
    there is one account state per writable account, and the deltas are the
    differences of the accounts observed, summed per asset and owner, zero
    movements left out. *)
Theorem simulated_faithfully q l r pv
    (Ht : traces (simulate_ q) l (Ret (r, pv))) (Hs : sr_success r = true) :
  exists pre post, observed_run q l r pv pre post.
Proof.
  pose proof (history_result _ _ _ _ _ (simulate_ensures q) Ht) as H. cbn in H.
  rewrite rev_involutive in H. by apply H.
Qed.

(** *** What an accepted simulation moved *)

Fixpoint no_colon (s : string) : Prop :=
  match s with "" => True | String c s' => c <> ":"%char /\ no_colon s' end.

Lemma colon_split a b x y :
  no_colon a -> no_colon b -> (a ++ String ":" x = b ++ String ":" y)%string -> a = b.
Proof.
  revert b. induction a as [|c a IH]; intros [|e b]; cbn; intros Ha Hb H; try done.
  - injection H as <- _. by destruct Hb.
  - injection H as -> _. by destruct Ha.
  - injection H as -> H. f_equal. apply (IH b); [apply Ha|apply Hb|exact H].
Qed.

(** The accounts observed, before and after. *)
Fixpoint observations (addresses : list string) (pre post : list (option RpcAccount)) :
    list (string * option RpcAccount * option RpcAccount) :=
  match addresses with
  | [] => []
  | address :: rest => (address, default None (head pre), default None (head post)) ::
                       observations rest (tail pre) (tail post)
  end.

Lemma movements_elem m addresses pre post :
  m ∈ movements bs58_encode addresses pre post <->
  exists address before after, (address, before, after) ∈ observations addresses pre post /\
    (m = native_move address before after \/ m ∈ token_movement bs58_encode before after).
Proof.
  revert pre post. induction addresses as [|address rest IH]; intros pre post; cbn [movements observations].
  { split; [by intros ?%elem_of_nil|]. by intros (? & ? & ? & ?%elem_of_nil & _). }
  rewrite elem_of_cons, elem_of_app, IH. split.
  - intros [->|[H|(a & b & c & ? & ?)]].
    + exists address, (default None (head pre)), (default None (head post)). split; [left|by left].
    + exists address, (default None (head pre)), (default None (head post)). split; [left|by right].
    + exists a, b, c. split; [by right|done].
  - intros (a & b & c & [[= -> -> ->]|H]%elem_of_cons & [->|Hm]); [by left|by right; left|..];
      right; right; exists a, b, c; split; auto.
Qed.

(** What [assertSimulationSafe] says of one account that was observed. *)
Definition moved_allowed (allowed : list string) (before after : option RpcAccount) : Prop :=
  (lamports before <> lamports after -> NATIVE_ASSET ∈ allowed) /\
  (forall t, tokenAccount bs58_encode after = Some t ->
     ta_amount t <> token_amount (tokenAccount bs58_encode before) -> ta_mint t ∈ allowed).

Lemma movement_assets m addresses pre post :
  (forall b, no_colon (bs58_encode b)) -> m ∈ movements bs58_encode addresses pre post -> no_colon (ad_asset m).
Proof.
  intros Hb (a & b & c & _ & [->|Hm])%movements_elem; [by cbn; split_and!|].
  unfold token_movement in Hm. destruct (tokenAccount bs58_encode c) as [t|] eqn:E; [|by apply elem_of_nil in Hm].
  apply list_elem_of_singleton in Hm as ->. cbn. unfold tokenAccount in E. destruct c; [|done].
  destruct (negb _); [done|]. destruct (_ <? _)%nat; [done|]. injection E as <-. apply Hb.
Qed.

Lemma allowed_movements (allowed : list string) (ms ds : list AssetDelta) :
  totals_of ms ds -> (forall m, m ∈ ms -> no_colon (ad_asset m)) ->
  (forall d, d ∈ ds -> ad_asset d ∈ allowed) -> forall m, m ∈ ms -> ad_amount m <> 0 -> ad_asset m ∈ allowed.
Proof.
  intros [_ _ Hk Hsrc] Hc Hal m Hm Ha.
  assert (delta_key m ∈ map delta_key ds) as (d & E & Hd)%list_elem_of_fmap by (apply Hk; eauto).
  destruct (Hsrc d Hd) as (m' & Hm' & E' & _). pose proof (Hal d Hd) as H.
  assert (ad_asset m = ad_asset d) as ->; [|done].
  apply (colon_split _ _ (ad_owner m) (ad_owner d)); [by apply Hc|rewrite E'; by apply Hc|exact E].
Qed.

Lemma not_token_movement before after t :
  tokenAccount bs58_encode after = Some t ->
  {| ad_asset := ta_mint t; ad_owner := ta_owner t;
     ad_amount := ta_amount t - token_amount (tokenAccount bs58_encode before) |} ∈
  token_movement bs58_encode before after.
Proof. intros E. unfold token_movement. rewrite E. left. Qed.

(** C21: simulation and its check together: when a result of the simulator is
    accepted, each account the exact transaction can write - its own and those of
    the pinned lookup tables it names, as the message says - and no other was asked
    for before and in the simulation, on a node of the request's cluster, and
    whichever of them changed its lamports, or is a token account afterwards and
    changed its amount, did so in an allowed asset; `:` separates asset and owner
    in the totals, and base58 has none. *)
Theorem accepted_moves_allowed (isPublicKey : string -> bool) q l r pv x
    (Hbase58 : forall b, no_colon (bs58_encode b))
    (Ht : traces (simulate_ q) l (Ret (r, pv))) (Hsafe : assertSimulationSafe isPublicKey r x = inr tt) :
  exists pre post, observed_run q l r pv pre post /\
    forall address before after, (address, before, after) ∈ observations (pv_observedAccounts pv) pre post ->
      moved_allowed (allowedAssets x) before after.
Proof.
  apply simulation_safe_iff in Hsafe as [Hs _ _ _ _ _ _ Hal].
  destruct (simulated_faithfully _ _ _ _ Ht Hs) as (pre & post & Hrun). exists pre, post. split; [done|].
  intros a b c Hin. pose proof (or_totals _ _ _ _ _ _ Hrun) as Htot.
  pose proof (allowed_movements _ _ _ Htot (fun m => movement_assets m _ _ _ Hbase58) Hal) as Hm. split.
  - intros Hne. apply (Hm (native_move a b c)); [apply movements_elem; eauto 10|cbn; lia].
  - intros t Et Hne. pose proof (not_token_movement b c t Et) as Hin'.
    match type of Hin' with ?m ∈ _ => apply (Hm m) end; [|cbn; lia].
    apply movements_elem. exists a, b, c. split; [done|by right].
Qed.
End Simulated.

(** *** A node to run against *)

(** What a node answers, in the order of the accounts. *)
Record Node : Type := { nd_pre : list (option RpcAccount); nd_post : option (list (option RpcAccount)) }.

Definition demo_node (n : Node) R (e : reff R) (u : unit) : R * unit :=
  match e in reff R return R * unit with
  | GetGenesisHash => (inr (V_string "EtWTRABZaYq6iMfeYKouRu166VU2xqa1wcaWoxPkrZBG"), u)
  | GetTables _ => (inr [], u)
  | GetAccounts _ => (inr (js_num 100, nd_pre n), u)
  | SimulateTransaction _ _ _ _ =>
      (inr {| sa_slot := js_num 101; sa_err := None; sa_logs := Some ["ok"]; sa_accounts := nd_post n;
              sa_unitsConsumed := js_num 450 |}, u)
  | GetFee _ => (inr (Some 5000), u)
  end.

Definition demo_decoded : DecodedTransaction := demo_tx [188; 2; 0; 0; 0; 0; 0; 0].

Definition demo_decode (s : string) : result DecodedTransaction :=
  if streq s "AAE=" then inr demo_decoded else inl "transaction_invalid".

(** Base58 of two keys. *)
Definition demo_base58 (b : list Z) : string := match b with 7 :: _ => "MintA" | _ => "OwnerB" end.

Definition demo_options : RpcSimulatorOptions :=
  {| o_cluster := "devnet"; o_genesisHash := None; o_maxSlotDrift := None; o_maxObservedAccounts := None;
     o_addressLookupTables := None |}.

Definition demo_request : SimulationRequest := simulationRequestOf demo_decoded "devnet" 500 "0xab".

Definition no_tables (key : string) (data : list Z) : option unit := None.
Definition demo_keys (d : DecodedTransaction) (tables : list unit) : result (list (option string)) :=
  inr (map Some (staticAccountKeys d)).
Definition demo_writable (d : DecodedTransaction) (i : nat) : bool := (i <? 2)%nat.

Definition demo_simulate : rprog (SimulationResult * SimulationProvenance) :=
  simulate demo_base58 demo_decode no_tables demo_keys demo_writable demo_options demo_request.

Definition demo_context (allowed : list string) : SafetyContext :=
  {| expectedMessageHash := "0x01"; maxSlotLag := 10; currentSlot := 105; allowedAssets := allowed;
     currentBlockHeight := Some 450; lastValidBlockHeight := Some 500 |}.

Definition system (z : Z) : option RpcAccount := Some {| ra_lamports := z; ra_owner := "1111"; ra_data := [] |}.

(** A token account of "MintA" that holds [z] < 256. *)
Definition token (z : Z) : option RpcAccount :=
  Some {| ra_lamports := 2000; ra_owner := "TokenkegQfeZyiNwAJbNbGKPFXCWuBvf9Ss623VQ5DA";
          ra_data := repeat 7 32 ++ repeat 0 32 ++ z :: repeat 0 100 |}.

Definition run_node (n : Node) : string + (SimulationResult * SimulationProvenance) :=
  (run (demo_node n) demo_simulate tt).1.

Definition transfer_node : Node :=
  {| nd_pre := [system 10000; token 5]; nd_post := Some [system 4000; token 105] |}.

Definition result_or (r : string + (SimulationResult * SimulationProvenance)) : SimulationResult * SimulationProvenance :=
  match r with
  | inr x => x
  | inl _ => (failed_result demo_request 0 0 {| sa_slot := NaN; sa_err := None; sa_logs := None;
                sa_accounts := None; sa_unitsConsumed := NaN |},
              {| pv_preSlot := 0; pv_slot := 0; pv_sigVerify := false; pv_observedAccounts := [];
                 pv_lookupTables := [] |})
  end.

Definition transfer_result : SimulationResult * SimulationProvenance := result_or (run_node transfer_node).

Lemma transfer_traces :
  traces demo_simulate (run_trace (demo_node transfer_node) demo_simulate tt)
    (Ret (transfer_result.1, transfer_result.2)).
Proof.
  pose proof (run_traces (demo_node transfer_node) demo_simulate tt) as H.
  assert ((run (demo_node transfer_node) demo_simulate tt).1 = inr (transfer_result.1, transfer_result.2)) as E
    by (vm_compute; reflexivity).
  rewrite E in H. exact H.
Qed.

Lemma simulated_faithfully_witness :
  sr_assetDeltas transfer_result.1 =
    [{| ad_asset := "native"; ad_owner := "FeePayer11111111"; ad_amount := -6000 |};
     {| ad_asset := "MintA"; ad_owner := "OwnerB"; ad_amount := 100 |}] /\
  exists pre post, observed_run demo_base58 demo_decode no_tables demo_keys demo_writable demo_options demo_request
    (run_trace (demo_node transfer_node) demo_simulate tt) transfer_result.1 transfer_result.2 pre post.
Proof.
  split; [vm_compute; reflexivity|].
  eapply (simulated_faithfully _ _ _ _ _ _ _ _ _ _ transfer_traces). vm_compute. reflexivity.
Defined.

Lemma accepted_moves_allowed_witness :
  assertSimulationSafe (fun _ => true) transfer_result.1 (demo_context ["native"; "MintA"]) = inr tt /\
  assertSimulationSafe (fun _ => true) transfer_result.1 (demo_context ["native"]) = inl "unexpected_asset_delta:MintA" /\
  exists pre post, observed_run demo_base58 demo_decode no_tables demo_keys demo_writable demo_options demo_request
    (run_trace (demo_node transfer_node) demo_simulate tt) transfer_result.1 transfer_result.2 pre post /\
    forall address before after,
      (address, before, after) ∈ observations (pv_observedAccounts transfer_result.2) pre post ->
      moved_allowed demo_base58 ["native"; "MintA"] before after.
Proof.
  split; [vm_compute; reflexivity|]. split; [vm_compute; reflexivity|].
  refine (accepted_moves_allowed _ _ _ _ _ _ (fun _ => true) _ _ _ _ (demo_context ["native"; "MintA"]) _ transfer_traces _).
  - intros b. unfold demo_base58. repeat case_match; by cbn; split_and!.
  - vm_compute. reflexivity.
Defined.

(** *** What the deltas do not show *)

(** A token account that is emptied and closed has no token account to read
    afterwards, and what it held does not count as moved: 200 units of a mint
    leave the wallet, and the result is accepted with native as the only asset
    allowed to move. *)
Lemma closed_account_unseen :
  let r := (result_or (run_node {| nd_pre := [system 10000; token 200]; nd_post := Some [system 12000; None] |})).1 in
  sr_success r = true /\
  map (fun d => (ad_asset d, ad_amount d)) (sr_assetDeltas r) = [("native", 2000); ("native", -2000)] /\
  assertSimulationSafe (fun _ => true) r (demo_context ["native"]) = inr tt.
Proof. cbn zeta. split_and!; vm_compute; reflexivity. Qed.

(** The accounts before are not counted: a node that answers none of them is
    recorded as one whose balances were observed, and everything the accounts
    hold counts as received. *)
Lemma missing_pre_state :
  let r := (result_or (run_node {| nd_pre := []; nd_post := Some [system 4000; token 105] |})).1 in
  sr_capabilities r = Some full_capabilities /\
  map (fun d => (ad_asset d, ad_amount d)) (sr_assetDeltas r) =
    [("native", 4000); ("native", 2000); ("MintA", 105)].
Proof. cbn zeta. split; vm_compute; reflexivity. Qed.
