(* ===== verification/Issuer.v ===== *)
(** `src/execution/authorization/index.ts`: issuing authorizations.

    [issue] turns an exact request, its evidence and the references of a decision
    into signed claims, after asking every check the host wires in.  The theorem
    of the file composes it with the signer: it says exactly when what is issued
    passes the checks the signer makes. *)
From S2P Require Import Prelude Prog Canonical SignerPolicy SignerEnvelope Simulation.
#[local] Open Scope string_scope.
#[local] Open Scope list_scope.
#[local] Open Scope Z_scope.
#[local] Open Scope prog_scope.

(** *** Data *)

Record AuthorizationReferences : Type := {
  r_quoteHash : string; r_policyHash : string; r_policyVersion : Z; r_riskHash : string;
  r_reservationId : string; r_approvalId : string; r_audience : string; r_signerKeyId : option string
}.

(** The dependencies that are data, and which of the optional ones are wired. *)
Record IssuerDeps : Type := {
  is_signerKeyId : option string; is_ttlMs : option Z; is_maxTtlMs : option Z;
  has_consume : bool; has_snapshot : bool
}.

(** *** Effects: the checks, the clock, a uuid and the operator's key *)

Inductive ieff : Type -> Type :=
  | SnapshotVersion : ieff (result string)
  | CheckQuote (hash : string) : ieff (result bool)
  | CheckPolicy (hash : string) : ieff (result bool)
  | CheckRisk (hash : string) : ieff (result bool)
  | CheckReservation (id : string) : ieff (result bool)
  | CheckApproval (id : string) : ieff (result bool)
  | CheckSimulation (hash : string) : ieff (result bool)
  | CheckBlockhash (cluster : string) : ieff (result value)
  | ConsumeApprovalReservation (approval reservation authorization : string) : ieff (result bool)
  | IssueTime : ieff Z
  | RandomUUID : ieff string
  | SignClaims (text : string) : ieff (result string).

Definition iprog : Type -> Type := prog ieff string.

Definition icall {R} (e : ieff (result R)) : iprog R := bind (trigger e) raise.
Definition refuse (b : bool) (code : string) : iprog unit := if b then Throw code else Ret tt.

(** *** The projection that is compared *)

Definition summary_value (i : InstructionSummary) : value :=
  V_object [("programId", V_string (ci_programId i)); ("accounts", V_array (map account_value (ci_accounts i)));
            ("data", V_string (ci_data i))].

(** The request as `JSON.stringify` prints it. *)
Definition request_value (r : SimulationRequest) : value := V_object
  [("cluster", V_string (q_cluster r)); ("transaction", V_string (q_transaction r));
   ("message", V_string (q_message r)); ("messageHash", V_string (q_messageHash r));
   ("feePayer", V_string (q_feePayer r)); ("recentBlockhash", V_string (q_recentBlockhash r));
   ("lastValidBlockHeight", V_number (q_lastValidBlockHeight r));
   ("programIds", strings_value (q_programIds r)); ("accountKeys", strings_value (q_accountKeys r));
   ("instructions", V_array (map summary_value (q_instructions r)));
   ("addressTableLookups", strings_value (q_addressTableLookups r));
   ("policyHash", V_string (q_policyHash r))].

Section Issuer.
Context (decodeTransaction : string -> result DecodedTransaction) (sha256 : string -> string)
        (deps : IssuerDeps).

(** The answer of the blockhash check: a height the transaction can still land
    at, or `true` when the caller cannot observe it. *)
Definition alive (r : SimulationRequest) (h : value) : bool :=
  match h with
  | V_bool b => b
  | V_number z => isSafeInteger z && (z <=? q_lastValidBlockHeight r)
  | _ => false
  end.

(** The loop over the answers: each is awaited in turn. *)
Fixpoint all_valid (l : list (string * result bool)) : result unit :=
  match l with
  | [] => inr tt
  | (n, a) :: l' =>
      match a with
      | inl e => inl e
      | inr false => inl ("authorization_" ++ n ++ "_invalid")%string
      | inr true => all_valid l'
      end
  end.

(** The issuer's key id replaces the one the references may carry. *)
Definition key_claim (refs : AuthorizationReferences) : option string :=
  match truthy (is_signerKeyId deps) with Some k => Some k | None => r_signerKeyId refs end.

Definition claims_of (r : SimulationRequest) (e : SimulationEvidence) (refs : AuthorizationReferences)
    (id : string) (issuedAt ttl : Z) : AuthorizationClaims :=
  {| c_quoteHash := r_quoteHash refs; c_policyHash := r_policyHash refs; c_policyVersion := r_policyVersion refs;
     c_riskHash := r_riskHash refs; c_reservationId := r_reservationId refs; c_approvalId := r_approvalId refs;
     c_audience := r_audience refs; c_signerKeyId := key_claim refs; c_protocol := AUTHORIZATION_PROTOCOL;
     c_version := 1; c_id := id; c_cluster := q_cluster r; c_feePayer := q_feePayer r;
     c_transaction := q_transaction r; c_message := q_message r; c_messageHash := q_messageHash r;
     c_recentBlockhash := q_recentBlockhash r; c_lastValidBlockHeight := q_lastValidBlockHeight r;
     c_programIds := q_programIds r; c_accountKeys := q_accountKeys r; c_instructions := q_instructions r;
     c_addressTableLookups := q_addressTableLookups r; c_simulationHash := se_hash e;
     c_issuedAt := issuedAt; c_expiresAt := issuedAt + ttl |}.

Definition ttl : Z := default 30000 (is_ttlMs deps).

Definition snapshot : iprog (option string) :=
  if has_snapshot deps then let* v := icall SnapshotVersion in Ret (Some v) else Ret None.

(** The checks on the arguments, before anything is asked. *)
Definition consistent (r : SimulationRequest) (e : SimulationEvidence) (refs : AuthorizationReferences) : result unit :=
  (check negb (isSafeInteger ttl) || (ttl <=? 0) || (default 60000 (is_maxTtlMs deps) <? ttl)
   else "authorization_ttl_invalid";
   check negb (streq (r_policyHash refs) (q_policyHash r)) else "authorization_policy_invalid";
   let? decoded := decodeTransaction (q_transaction r) in
   check negb (streq (print (request_value (simulationRequestOf decoded (q_cluster r) (q_lastValidBlockHeight r)
                                                 (q_policyHash r)))) (print (request_value r)))
   else "authorization_transaction_invalid";
   check negb (streq (se_hash e) (simulationEvidenceHash sha256 (se_body e))) ||
         negb (streq (eb_messageHash (se_body e)) (q_messageHash r))
   else "authorization_simulation_invalid";
   inr tt)%result.

(** `issue` *)
Definition issue (r : SimulationRequest) (e : SimulationEvidence) (refs : AuthorizationReferences) :
    iprog AuthorizationEnvelope :=
  let* _c := raise (consistent r e refs) in
  let* start := snapshot in
  (** the promises are made in this order, and then awaited *)
  let* quote := trigger (CheckQuote (r_quoteHash refs)) in
  let* policy := trigger (CheckPolicy (r_policyHash refs)) in
  let* risk := trigger (CheckRisk (r_riskHash refs)) in
  let* reservation := trigger (CheckReservation (r_reservationId refs)) in
  let* approval := trigger (CheckApproval (r_approvalId refs)) in
  let* simulation := trigger (CheckSimulation (se_hash e)) in
  let* blockhash := trigger (CheckBlockhash (q_cluster r)) in
  let* _v := raise (all_valid [("quote", quote); ("policy", policy); ("risk", risk); ("reservation", reservation);
                     ("approval", approval); ("simulation", simulation);
                     ("blockhash", match blockhash with inl x => inl x | inr h => inr (alive r h) end)]) in
  (match start with
   | None => Ret tt
   | Some v => let* later := snapshot in refuse (negb (bool_decide (Some v = later))) "authorization_snapshot_changed"
   end) ;;
  let* issuedAt := trigger IssueTime in
  let* id := trigger RandomUUID in
  (if has_consume deps then
     let* won := icall (ConsumeApprovalReservation (r_approvalId refs) (r_reservationId refs) id) in
     refuse (negb won) "authorization_consumption_invalid"
   else Ret tt) ;;
  let c := claims_of r e refs id issuedAt ttl in
  let* signature := icall (SignClaims (canonicalClaims c)) in
  Ret {| claims := Some c; env_signature := signature |}.

(** *** What an issued envelope has behind it *)

Record issued (r : SimulationRequest) (e : SimulationEvidence) (refs : AuthorizationReferences)
    (env : AuthorizationEnvelope) (l : list (event ieff)) : Prop := {
  iss_consistent : consistent r e refs = inr tt;
  iss_quote : Event (CheckQuote (r_quoteHash refs)) (inr true) ∈ l;
  iss_policy : Event (CheckPolicy (r_policyHash refs)) (inr true) ∈ l;
  iss_risk : Event (CheckRisk (r_riskHash refs)) (inr true) ∈ l;
  iss_reservation : Event (CheckReservation (r_reservationId refs)) (inr true) ∈ l;
  iss_approval : Event (CheckApproval (r_approvalId refs)) (inr true) ∈ l;
  iss_simulation : Event (CheckSimulation (se_hash e)) (inr true) ∈ l;
  iss_blockhash : exists h, Event (CheckBlockhash (q_cluster r)) (inr h) ∈ l /\ alive r h = true;
  iss_claims : exists id t, Event IssueTime t ∈ l /\ Event RandomUUID id ∈ l /\
    claims env = Some (claims_of r e refs id t ttl) /\
    Event (SignClaims (canonicalClaims (claims_of r e refs id t ttl))) (inr (env_signature env)) ∈ l /\
    (has_consume deps = true ->
       Event (ConsumeApprovalReservation (r_approvalId refs) (r_reservationId refs) id) (inr true) ∈ l)
}.

Lemma all_valid_cons n a l : all_valid ((n, a) :: l) = inr tt <-> a = inr true /\ all_valid l = inr tt.
Proof. cbn. destruct a as [|[]]; split; try done; by intros [? ?]. Qed.

Definition issue_post (r : SimulationRequest) (e : SimulationEvidence) (refs : AuthorizationReferences)
    (a : string + AuthorizationEnvelope) (h : list (event ieff)) : Prop :=
  match a with inr env => issued r e refs env (rev h) | inl _ => True end.

Ltac issue_step :=
  match goal with
  | |- True => exact I
  | |- True /\ _ => split; [exact I|]
  | |- forall _, _ => intros ?
  | |- context [match all_valid ?l with _ => _ end] =>
      let E := fresh "Eall" in destruct (all_valid l) as [?|[]] eqn:E; [exact I|]
  | |- context [match ?x with _ => _ end] => destruct x eqn:?; try exact I
  end.

Lemma issue_ensures r e refs :
  ensures (fun _ _ _ => True) (fun _ _ _ => True) record_event (issue r e refs) (issue_post r e refs) [].
Proof.
  unfold issue, snapshot, icall, refuse, raise. destruct (consistent r e refs) as [?|[]] eqn:Ec; [exact I|].
  repeat first [issue_step | progress cbn [bind trigger ensures]].
  all: unfold issue_post, record_event; rewrite !all_valid_cons in Eall; destruct_and!; subst.
  all: repeat match goal with H : negb ?b = false |- _ => apply negb_false_iff in H end; subst.
  all: split; try done; cbn [rev app].
  all: first [ by in_history
             | match goal with H : match ?a with _ => _ end = inr true |- _ =>
                 destruct a as [?|h]; [done|]; exists h; split; [by in_history|by injection H] end
             | eexists _, _; split; [|split; [|split; [reflexivity|split]]];
               [by in_history..|]; intros; first [by in_history | congruence] ].
Qed.

Lemma issue_issued r e refs l env : traces (issue r e refs) l (Ret env) -> issued r e refs env l.
Proof.
  intros Ht. pose proof (history_result _ _ _ _ _ (issue_ensures r e refs) Ht) as H. cbn in H.
  by rewrite rev_involutive in H.
Qed.

(** *** The comparison with a fresh decode *)

Lemma summary_value_inj a b : summary_value a = summary_value b -> a = b.
Proof.
  destruct a, b; unfold summary_value; cbn. intros H. injection H as Hp Ha Hd.
  apply (f_equal V_array) in Ha. apply (map_value_inj account_value _ _ account_value_inj) in Ha. by subst.
Qed.

Lemma summary_printable i : printable false (summary_value i) = true.
Proof. apply object_printable. repeat constructor. apply (flat_printable account_value). by intros []. Qed.

Lemma request_printable r : printable false (request_value r) = true.
Proof.
  apply object_printable.
  repeat (constructor; [first [done | apply strings_printable | apply flat_printable, summary_printable]|]).
  constructor.
Qed.

Lemma request_text_inj a b : print (request_value a) = print (request_value b) -> a = b.
Proof.
  intros H. destruct (print_inj_follow false (request_value a) (request_value b) "" "") as [E _];
    auto using request_printable; [by rewrite !sapp_nil|].
  destruct a, b. unfold request_value in E. cbn in E. injection E. intros. subst. f_equal.
  all: first [apply strings_value_inj; unfold strings_value; by f_equal
             |apply (map_value_inj summary_value _ _ summary_value_inj); by f_equal].
Qed.

Lemma consistent_facts r e refs :
  consistent r e refs = inr tt ->
  (isSafeInteger ttl = true /\ 0 < ttl <= default 60000 (is_maxTtlMs deps)) /\ r_policyHash refs = q_policyHash r /\
  (exists d, decodeTransaction (q_transaction r) = inr d /\
     r = simulationRequestOf d (q_cluster r) (q_lastValidBlockHeight r) (q_policyHash r)) /\
  se_hash e = simulationEvidenceHash sha256 (se_body e) /\ eb_messageHash (se_body e) = q_messageHash r.
Proof.
  unfold consistent. intros H. open_result H. bool_hyps. split_and!; try done.
  exists a. split; [done|]. symmetry. by apply request_text_inj.
Qed.

(** *** When the signer accepts what is issued *)

(** The key of the issuer, or when it has none that of the references. *)
Definition names_key (refs : AuthorizationReferences) (k : string) : Prop :=
  is_signerKeyId deps = Some k /\ k <> "" \/
  (is_signerKeyId deps = None \/ is_signerKeyId deps = Some "") /\ r_signerKeyId refs = Some k.

Lemma key_claim_names refs k : key_claim refs = Some k <-> names_key refs k.
Proof.
  unfold key_claim, names_key. destruct (is_signerKeyId deps) as [i|]; cbn.
  - destruct (streq i "") eqn:E; bool_hyps; subst; intuition congruence.
  - intuition congruence.
Qed.

(** What the signer's settings ask of the references and the request: the issuer
    does not see these settings. *)
Record agrees (w : Wire) (r : SimulationRequest) (refs : AuthorizationReferences) : Prop := {
  ag_audience : r_audience refs = audience w;
  ag_cluster : forall cl, w_cluster w = Some cl -> q_cluster r = cl;
  ag_signer : forall k, signerKeyId w = Some k -> k <> "" -> names_key refs k;
  ag_policy : forall p, policyHash w = Some p -> p <> "" -> lower (r_policyHash refs) = lower p;
  ag_version : forall v, policyVersion w = Some v -> r_policyVersion refs = v;
  ag_keys : forall ids, authorizationKeyIds w = Some ids -> exists k, names_key refs k /\ k <> "" /\ k ∈ ids;
  ag_ttl : ttl <= default 60000 (maxTtlMs w)
}.

(** The numbers of the claims the issuer does not check: the last valid height and,
    issued at [t], the times. *)
Definition numbers_safe (r : SimulationRequest) (t : Z) : Prop :=
  isSafeInteger (q_lastValidBlockHeight r) = true /\ 0 <= q_lastValidBlockHeight r /\
  isSafeInteger t = true /\ isSafeInteger (t + ttl) = true.

Lemma eq_refl_true v : eq v v = true.
Proof. unfold eq. apply streq_refl. Qed.

Lemma check_transaction_issued w e refs id t d cl last ph :
  check_transaction w (claims_of (simulationRequestOf d cl last ph) e refs id t ttl) d = inr tt <->
  (forall x, w_cluster w = Some x -> cl = x) /\ isSafeInteger last = true /\ 0 <= last.
Proof.
  unfold check_transaction. cbn [claims_of c_cluster c_lastValidBlockHeight q_cluster simulationRequestOf q_lastValidBlockHeight].
  assert (differs (claims_of (simulationRequestOf d cl last ph) e refs id t ttl) d = false) as ->
    by (unfold differs, claims_of; cbn; by rewrite !streq_refl, !eq_refl_true).
  split.
  - intros H. open_result H. bool_hyps. split_and!; [|done|lia]. intros c Ec. rewrite Ec in *. by bool_hyps.
  - intros (Hcl & Hs & Hl). rewrite Hs, (proj2 (Z.ltb_ge _ _) Hl). cbn.
    destruct (w_cluster w) as [x|]; [|done]. by rewrite (Hcl x eq_refl), streq_refl.
Qed.

Lemma key_claim_truthy refs k : key_claim refs = Some k -> k <> "" -> some_truthy (key_claim refs) = true.
Proof. intros -> Hk. cbn. by rewrite (proj2 (streq_false _ _) Hk). Qed.

Lemma check_claims_issued w r e refs id t now :
  check_claims w (claims_of r e refs id t ttl) now = inr tt <->
  isSafeInteger t = true /\ isSafeInteger (t + ttl) = true /\ t <= now < t + ttl /\
  (r_audience refs = audience w /\
   (forall k, signerKeyId w = Some k -> k <> "" -> key_claim refs = Some k) /\
   (forall p, policyHash w = Some p -> p <> "" -> lower (r_policyHash refs) = lower p) /\
   (forall v, policyVersion w = Some v -> r_policyVersion refs = v) /\
   (forall ids, authorizationKeyIds w = Some ids -> exists k, key_claim refs = Some k /\ k <> "" /\ k ∈ ids) /\
   ttl <= default 60000 (maxTtlMs w)).
Proof.
  unfold check_claims.
  cbn [claims_of c_protocol c_version c_issuedAt c_expiresAt c_audience c_signerKeyId c_policyHash c_policyVersion].
  split.
  - intros H. open_result H. bool_hyps. split_and!; try done; try lia.
    + intros k E Hk. rewrite E in *. cbn in *. rewrite (proj2 (streq_false _ _) Hk) in *. cbn in *. by bool_hyps.
    + intros p E Hp. rewrite E in *. cbn in *. rewrite (proj2 (streq_false _ _) Hp) in *. cbn in *. by bool_hyps.
    + intros v E. rewrite E in *. by bool_hyps.
    + intros ids E. rewrite E in *. bool_hyps. destruct (key_claim refs) as [k|]; [|done]. cbn in *. bool_hyps. by exists k.
  - intros (Hst & Hse & Hnow & Haud & Hsig & Hpol & Hver & Hkeys & Httl).
    rewrite streq_refl, Hst, Hse, Haud, streq_refl. cbn.
    rewrite (proj2 (Z.ltb_ge _ _)), (proj2 (Z.leb_gt _ _)), (proj2 (Z.ltb_ge _ _)) by lia. cbn.
    assert (some_truthy (signerKeyId w) && negb (bool_decide (key_claim refs = signerKeyId w)) = false) as ->.
    { destruct (signerKeyId w) as [k|]; [|done]. cbn. destruct (streq k "") eqn:E; [done|]. bool_hyps.
      rewrite (Hsig k eq_refl E). by rewrite bool_decide_true. }
    assert (some_truthy (policyHash w) && negb (streq (lower (r_policyHash refs)) (lower (default "" (policyHash w)))) = false) as ->.
    { destruct (policyHash w) as [p|]; [|done]. cbn. destruct (streq p "") eqn:E; [done|]. bool_hyps.
      rewrite (Hpol p eq_refl E). by rewrite streq_refl. }
    assert (match policyVersion w with Some v => negb (r_policyVersion refs =? v) | None => false end = false) as ->.
    { destruct (policyVersion w) as [v|]; [|done]. by rewrite (Hver v eq_refl), Z.eqb_refl. }
    cbn. destruct (authorizationKeyIds w) as [ids|]; [|done]. destruct (Hkeys ids eq_refl) as (k & Hk & Hne & Hin).
    rewrite (key_claim_truthy refs k Hk Hne), Hk. cbn. by rewrite (proj2 (includes_spec _ _) Hin).
Qed.

(** C19: issuing and signing fit together: an envelope is issued only after every
    check answered yes and, where it is wired, the approval and its reservation
    were consumed for this very authorization, and the signer accepts it - its
    claims at a time, and the transaction it decodes itself - exactly when three
    things hold that the issuer does not check: the references and the cluster are
    what the signer's settings ask ([agrees]: audience, cluster, key, policy hash
    and version, accepted keys, longest lifetime), the last valid height and the
    times are safe integers and the height is not negative, and the time is within
    the lifetime.  All else the signer checks of an issued envelope is true of it:
    protocol and version, and each field of the transaction. *)
Theorem issued_is_accepted w r e refs l env (Ht : traces (issue r e refs) l (Ret env)) :
  issued r e refs env l /\
  exists c d t, claims env = Some c /\ decodeTransaction (q_transaction r) = inr d /\ Event IssueTime t ∈ l /\
    forall now, check_claims w c now = inr tt /\ check_transaction w c d = inr tt <->
                agrees w r refs /\ numbers_safe r t /\ t <= now < t + ttl.
Proof.
  pose proof (issue_issued _ _ _ _ _ Ht) as Hi. split; [done|].
  destruct (iss_claims _ _ _ _ _ Hi) as (id & t & Ht0 & _ & Hc & _ & _).
  destruct (consistent_facts _ _ _ (iss_consistent _ _ _ _ _ Hi)) as (_ & _ & (d & Hd & Er) & _).
  exists (claims_of r e refs id t ttl), d, t. split_and!; try done. intros now. rewrite check_claims_issued.
  assert (check_transaction w (claims_of r e refs id t ttl) d = inr tt <->
    (forall x, w_cluster w = Some x -> q_cluster r = x) /\ isSafeInteger (q_lastValidBlockHeight r) = true /\
    0 <= q_lastValidBlockHeight r) as -> by (rewrite Er at 1; apply check_transaction_issued).
  split.
  - intros [(? & ? & ? & ? & Hs & ? & ? & Hk & ?) (? & ? & ?)]. split; [|by split; [split_and!|]].
    split; try done; [intros k; rewrite <- key_claim_names; apply Hs|]. intros ids E.
    destruct (Hk ids E) as (k & Hc' & ?). exists k. by rewrite <- key_claim_names.
  - intros ([? ? Hs ? ? Hk ?] & (? & ? & ? & ?) & [? ?]). split_and!; try done.
    + intros k E Hne. by apply key_claim_names, Hs.
    + intros ids E. destruct (Hk ids E) as (k & Hn & ?). exists k. by rewrite key_claim_names.
Qed.
End Issuer.

(** *** An authorization issued *)

Definition demo_issuer : IssuerDeps :=
  {| is_signerKeyId := Some "op"; is_ttlMs := None; is_maxTtlMs := None; has_consume := true; has_snapshot := true |}.

Definition demo_decode (s : string) : result DecodedTransaction :=
  if streq s "AAE=" then inr (demo_tx [188; 2; 0; 0; 0; 0; 0; 0]) else inl "transaction_invalid".

Definition demo_hash (s : string) : string := ("0x" ++ s)%string.

Definition demo_request : SimulationRequest :=
  simulationRequestOf (demo_tx [188; 2; 0; 0; 0; 0; 0; 0]) "devnet" 500 "0xAB".

Definition demo_body : EvidenceBody :=
  {| eb_domain := None; eb_messageHash := q_messageHash demo_request; eb_slot := 101; eb_blockhash := "Blockhash";
     eb_unitsConsumed := 450; eb_feeLamports := 5000; eb_logs := ["ok"]; eb_accountStates := [];
     eb_assetDeltas := []; eb_capabilities := Some full_capabilities |}.

Definition demo_evidence : SimulationEvidence :=
  {| se_hash := simulationEvidenceHash demo_hash demo_body; se_body := demo_body |}.

Definition demo_refs : AuthorizationReferences :=
  {| r_quoteHash := "q"; r_policyHash := "0xAB"; r_policyVersion := 1; r_riskHash := "r"; r_reservationId := "res_1";
     r_approvalId := "apr_1"; r_audience := "signer"; r_signerKeyId := None |}.

(** Checks that pass, at height 450 and time 1000. *)
Definition demo_checks R (e : ieff R) (u : unit) : R * unit :=
  match e in ieff R return R * unit with
  | SnapshotVersion => (inr "v1", u)
  | CheckQuote _ | CheckPolicy _ | CheckRisk _ | CheckReservation _ | CheckApproval _ | CheckSimulation _ => (inr true, u)
  | CheckBlockhash _ => (inr (V_number 450), u)
  | ConsumeApprovalReservation _ _ _ => (inr true, u)
  | IssueTime => (1000, u)
  | RandomUUID => ("auth_1", u)
  | SignClaims _ => (inr "sig", u)
  end.

#[local] Abbreviation demo_issue := (issue demo_decode demo_hash demo_issuer demo_request demo_evidence demo_refs).

Definition demo_envelope : AuthorizationEnvelope :=
  {| claims := Some (claims_of demo_issuer demo_request demo_evidence demo_refs "auth_1" 1000 30000);
     env_signature := "sig" |}.

Lemma demo_issue_traces : traces demo_issue (run_trace demo_checks demo_issue tt) (Ret demo_envelope).
Proof.
  pose proof (run_traces demo_checks demo_issue tt) as H.
  assert ((run demo_checks demo_issue tt).1 = inr demo_envelope) as E by (vm_compute; reflexivity).
  rewrite E in H. exact H.
Qed.

Lemma issued_is_accepted_witness :
  length (run_trace demo_checks demo_issue tt) = 13%nat /\
  exists c d t, claims demo_envelope = Some c /\ demo_decode (q_transaction demo_request) = inr d /\
    Event IssueTime t ∈ run_trace demo_checks demo_issue tt /\
    (forall now, check_claims demo_wire c now = inr tt /\ check_transaction demo_wire c d = inr tt <->
       agrees demo_issuer demo_wire demo_request demo_refs /\ numbers_safe demo_issuer demo_request t /\
       t <= now < t + ttl demo_issuer).
Proof.
  split; [vm_compute; reflexivity|].
  exact (proj2 (issued_is_accepted demo_decode demo_hash demo_issuer demo_wire demo_request
    demo_evidence demo_refs _ _ demo_issue_traces)).
Defined.

(** The signer of the example is configured as the host is. *)
Lemma demo_agrees : agrees demo_issuer demo_wire demo_request demo_refs.
Proof.
  split; try done.
  all: try (by intros ? [= <-]).
  intros ids [= <-]. exists "op". split; [by left|]. split; [done|]. left.
Qed.
