(* ===== verification/SignerSafety.v ===== *)
(** What the signer guarantees.

    For any replay store ([ReplayStore]) and any interleaving of the tasks of
    `src/signer/index.ts`: one signature per authorization, what precedes a
    signature, the lifecycle of a replay row, and that an existing signature
    stays retrievable. *)
From S2P Require Import Prelude Table Prog Once Canonical SignerPolicy SignerEnvelope SignerReplay SignerService.
#[local] Open Scope string_scope.
#[local] Open Scope list_scope.
#[local] Open Scope Z_scope.
#[local] Open Scope prog_scope.

Section Safety.
Context (decodeTransaction : string -> result DecodedTransaction)
        (attachSignature : DecodedTransaction -> list Z -> result (string * string))
        (publicKey : string) (policy : SignPolicy) (wire : option Wire).

#[local] Abbreviation task_prog := (run_task decodeTransaction attachSignature publicKey policy wire).

(** The tasks of a process, in the order they start. *)
Definition runs (tasks : list Task) (n : nat) (p : sprog unit) : Prop :=
  exists t, tasks !! n = Some t /\ p = task_prog t.

(** *** Which effects a method uses *)

Definition reads R (e : seff R) : bool :=
  match e with ReplayGet _ | Now | VerifyClaims _ _ _ | BlockHeight | ListRows _ => true | _ => false end.

Definition answers R (e : seff R) : bool := match e with RecoverSigned _ => true | _ => reads _ e end.

(** The moves of the broadcaster and of reconciliation. *)
Definition settles R (e : seff R) : bool :=
  match e with
  | Transition _ X_signed b _ => bool_decide (b ∈ [X_broadcast; X_reconciliation])
  | Transition _ X_broadcast b _ => bool_decide (b ∈ [X_confirmed; X_reverted; X_dropped])
  | Transition _ X_reconciliation b _ => bool_decide (b ∈ [X_confirmed; X_reverted; X_broadcast; X_dropped])
  | SendTransaction _ | GetSignatureStatus _ | GetBlockHeight => true
  | _ => answers _ e
  end.

Lemma stored_reads id h : only reads (stored id h).
Proof. signer_walk; done. Qed.

Lemma verify_reads w d env : only reads (verify w d env).
Proof. signer_walk; done. Qed.

Lemma result_answers id h r : only answers (result_of id h r).
Proof. signer_walk; done. Qed.

Lemma broadcast_settles id tx : only settles (broadcastSigned decodeTransaction id tx).
Proof. signer_walk; done. Qed.

Lemma reconcile_row_settles row :
  row.1.2 = X_broadcast \/ row.1.2 = X_reconciliation -> only settles (reconcile_row row).
Proof.
  destruct row as [[id st] d]. simpl. unfold settled_state. intros [-> | ->]; signer_walk; simplify_eq; try done.
  all: by repeat case_match; simplify_eq.
Qed.

Lemma reconcile_rows_settles rows :
  (forall row, row ∈ rows -> row.1.2 = X_broadcast \/ row.1.2 = X_reconciliation) ->
  only settles (reconcile_rows rows).
Proof.
  induction rows as [|row rows IH]; intros H; simpl; [done|]. apply only_bind.
  - apply reconcile_row_settles, H, list_elem_of_here.
  - intros _. apply IH. intros r Hr. by apply H, list_elem_of_further.
Qed.

(** *** One signature per authorization *)

Definition claims_id R (e : seff R) : option string :=
  match e with Consume id _ => Some id | _ => None end.

Definition claim_granted R (e : seff R) : R -> bool :=
  match e in seff R return R -> bool with Consume _ _ => fun r => r | _ => fun _ => false end.

Definition signs R (e : seff R) : bool := match e with SignMessage _ => true | _ => false end.

(** The authorizations signed for, one entry per signature. *)
Definition signed_ids (tasks : list Task) (log : list (nat * event seff)) : list string :=
  acted (fun n => task_id <$> tasks !! n) signs log.


(** Neither claims nor signs. *)
#[local] Abbreviation quiet := (idle claims_id signs).

Lemma reads_quiet R (e : seff R) : reads _ e = true -> quiet _ e = true.
Proof. by destruct e. Qed.

Lemma reconcile_rows_quiet rows : only quiet (reconcile_rows rows).
Proof.
  induction rows as [|row rows IH]; simpl; [done|]. apply only_bind; [|done].
  destruct row as [[id st] d]. signer_walk; done.
Qed.

#[local] Abbreviation fenced := (ensures (fence_pre claims_id signs) (fun _ _ _ => True)
                           (fence_upd claims_id claim_granted signs)).

Lemma claim_and_sign_fenced wi id x d last :
  fenced (claim_and_sign attachSignature wi id x d last) (fun _ _ => True)
    {| fc_key := id; fc_claimed := false; fc_used := false |}.
Proof. unfold fence_pre, fence_upd. signer_walk; first [done | by simplify_eq/= | by bool_hyps]. Qed.

Lemma raise_quiet {A} (r : result A) : only quiet (raise r : sprog A).
Proof. by destruct r. Qed.

Lemma fail_quiet b c : only quiet (fail_if b c).
Proof. by destruct b. Qed.

Lemma stored_quiet id h : only quiet (stored id h).
Proof. eapply only_mono; [apply stored_reads|apply reads_quiet]. Qed.

Lemma verify_quiet w d env : only quiet (verify w d env).
Proof. eapply only_mono; [apply verify_reads|apply reads_quiet]. Qed.

Lemma task_fenced t : fenced (task_prog t) (fun _ _ => True)
  {| fc_key := task_id t; fc_claimed := false; fc_used := false |}.
Proof.
  assert (forall A (p : sprog A), only quiet p -> forall g, fenced (bind p (fun _ => Ret tt)) (fun _ _ => True) g) as Hq.
  { intros A p Hp g. by apply fenced_after. }
  destruct t as [id tx payer last|tx env|id h r|id tx|]; cbn [run_task task_id].
  - apply ensures_bind. unfold sign.
    apply fenced_after; [apply raise_quiet|done|]. intros d.
    apply fenced_after; [apply raise_quiet|done|]. intros _.
    apply fenced_after; [apply fail_quiet|done|]. intros _.
    apply fenced_after; [apply stored_quiet|done|]. intros [p|]; [done|].
    apply fenced_after; [done|done|]. intros now.
    eapply ensures_mono; [apply claim_and_sign_fenced|]. by intros [x|a] g' _.
  - apply ensures_bind. unfold signEnvelope. destruct wire as [w|]; [|done].
    apply fenced_after; [apply raise_quiet|done|]. intros d. destruct (claims env) as [c|]; [|done].
    apply fenced_after; [apply fail_quiet|done|]. intros _.
    apply fenced_after; [apply stored_quiet|done|]. intros prior.
    apply fenced_after; [apply verify_quiet|done|]. intros _.
    apply fenced_after; [apply raise_quiet|done|]. intros _. destruct prior as [p|]; [done|].
    eapply ensures_mono; [apply claim_and_sign_fenced|]. by intros [x|a] g' _.
  - apply Hq. eapply only_mono; [apply result_answers|]. by intros R [].
  - apply Hq. eapply only_mono; [apply broadcast_settles|]. by intros R [].
  - eapply ensures_mono; [apply idle_fenced|done]. split; [done|]. apply reconcile_rows_quiet.
Qed.

Lemma runs_fenced tasks n p :
  runs tasks n p ->
  exists g, fence_start (fun n => task_id <$> tasks !! n) n g /\
            follows (fence_pre claims_id signs) (fun _ _ _ => True) (fence_upd claims_id claim_granted signs) p g.
Proof.
  intros (t & Ht & ->). eexists. split; [eexists; rewrite Ht; split; reflexivity|].
  eapply ensures_follows, task_fenced.
Qed.

(** *** The store *)

Context `{ReplayStore St}.

Definition id_taken (s : St) (k : string) : Prop := rp_get k s <> None.

Lemma claim_frees_id (i : nat) R (e : seff R) s r s' k :
  sexec_ok i e s r s' -> claims_id _ e = Some k -> claim_granted _ e r = true -> ~ id_taken s k /\ id_taken s' k.
Proof.
  intros [Hok He]. destruct e; simpl in *; try done. intros [= ->] Hr. subst r. destruct He as [now E].
  destruct (rp_consume_won _ _ _ _ _ Hok E) as [Hn [x Hx]]. unfold id_taken. rewrite Hn, Hx. by split; [intros []|].
Qed.

Lemma id_stays (i : nat) R (e : seff R) s r s' k : sexec_ok i e s r s' -> id_taken s k -> id_taken s' k.
Proof.
  intros [Hok He]. unfold id_taken. pose proof (sexec_get e s r s' k Hok He) as Hg.
  destruct e; try by rewrite Hg.
  - simpl in He. destruct He as [now E]. destruct r.
    + destruct (decide (k = id)) as [->|Hne].
      * destruct (rp_consume_won _ _ _ _ _ Hok E) as [_ [x Hx]]. by rewrite Hx.
      * by rewrite (rp_consume_other _ _ _ _ _ _ k Hok E (or_intror Hne)).
    + by rewrite (rp_consume_other _ _ _ _ _ _ k Hok E (or_introl eq_refl)).
  - simpl in He. destruct He as [now E]. destruct r.
    + destruct (decide (k = id)) as [->|Hne].
      * destruct (rp_transition_won _ _ _ _ _ _ _ Hok E) as [_ (x & Hx & _)]. by rewrite Hx.
      * by rewrite (rp_transition_other _ _ _ _ _ _ _ _ k Hok E (or_intror Hne)).
    + by rewrite (rp_transition_other _ _ _ _ _ _ _ _ k Hok E (or_introl eq_refl)).
Qed.

(** C11: whatever the interleaving of signing, result, broadcast and
    reconciliation tasks, over any replay store, no authorization id is signed
    for twice, and an id the store already held when the process started is not
    signed for at all. *)
Theorem signs_once_per_authorization tasks s0 s log ts
    (Hreach : pool_reachable (logged (fun i R => @sexec_ok St _ i R)) (runs tasks) (s0, []) ((s, log), ts)) :
  NoDup (signed_ids tasks log) /\
  (forall k, k ∈ signed_ids tasks log -> rp_get k s0 = None).
Proof.
  destruct (acts_once _ _ _ claims_id claim_granted signs id_taken (runs_fenced tasks) claim_frees_id id_stays
    (fun R e => ltac:(by destruct e)) s0 s log ts Hreach) as [Hn Hk].
  split; [done|]. intros k Hin. apply Hk in Hin. unfold id_taken in Hin. by destruct (rp_get k s0); [destruct Hin|].
Qed.
End Safety.

Section Authorized.
Context (decodeTransaction : string -> result DecodedTransaction)
        (attachSignature : DecodedTransaction -> list Z -> result (string * string))
        (publicKey : string) (policy : SignPolicy) (wire : option Wire).
(** *** What precedes a signature *)

(** The events of a run, latest first. *)
Definition history : Type := list (event seff).

Definition is_signing (ev : event seff) : bool := match ev with Event e _ => match e with SignMessage _ => true | _ => false end end.

Record authorized (w : Wire) (c : AuthorizationClaims) (d : DecodedTransaction) (env_sig : string) (h : history) :
    Prop := {
  au_current : exists now, Event Now now ∈ h /\ current w c now;
  au_verified : Event (VerifyClaims (canonicalClaims c) env_sig (c_signerKeyId c)) (inr true) ∈ h;
  au_describes : describes c d;
  au_cluster : forall cl, w_cluster w = Some cl -> c_cluster c = cl;
  au_policy : exists ev, evaluatePolicy d policy publicKey = inr ev;
  au_claimed : Event (Consume (c_id c) (c_expiresAt c)) true ∈ h;
  au_alive : has_blockHeight w = true -> exists height,
    Event BlockHeight (inr (V_number height)) ∈ h /\ 0 <= height <= c_lastValidBlockHeight c;
  au_first : List.filter is_signing h = []
}.

Definition envelope_pre (transaction : string) (env : AuthorizationEnvelope) R (e : seff R) (h : history) : Prop :=
  match e with
  | SignMessage b => exists w c d, wire = Some w /\ claims env = Some c /\
      decodeTransaction transaction = inr d /\ b = messageBytes d /\
      authorized w c d (env_signature env) h
  | _ => True
  end.

(** What a returned signature was. *)
Definition recorded (id : string) (d : DecodedTransaction) (last : option Z) (res : SignResult) (h : history) : Prop :=
  Event (Transition id X_claimed X_signed (Some (signed_data (messageHash d) res last))) true ∈ h \/
  exists dt, Event (ReplayGet id) (Some (X_signed, Some dt)) ∈ h /\ res = prior_result dt.

Definition envelope_post (transaction : string) (env : AuthorizationEnvelope) (r : string + SignResult) (h : history) : Prop :=
  match r with
  | inl _ => True
  | inr res => exists c d, claims env = Some c /\ decodeTransaction transaction = inr d /\
      recorded (c_id c) d (Some (c_lastValidBlockHeight c)) res h
  end.

Lemma safe_integer_spec v h : safe_integer v = Some h -> v = V_number h.
Proof. destruct v; simpl; try done. destruct (isSafeInteger _); congruence. Qed.

Lemma wired_alive w v h last (hist : history) :
  safe_integer v = Some h -> 0 <= h -> h <= last -> Event BlockHeight (inr v) ∈ hist ->
  has_blockHeight w = true -> exists height, Event BlockHeight (inr (V_number height)) ∈ hist /\ 0 <= height <= last.
Proof. intros ->%safe_integer_spec ? ? ? _. eauto. Qed.

(** The conditions of [authorized], from the history and the branches taken. *)
Ltac authorize :=
  match goal with H : check_transaction _ _ _ = inr _ |- _ =>
    apply check_transaction_describes in H as (? & ? & ?) end;
  split;
  [ eexists; split; [in_history|by apply check_claims_current]
  | in_history | done | done | by eexists | in_history
  | first [ intros Hw; simpl in *; congruence | eapply wired_alive; [done|done|done|in_history] ]
  | done ].

Lemma signEnvelope_protocol tx env :
  ensures (envelope_pre tx env) (fun _ _ _ => True) record_event
    (signEnvelope decodeTransaction attachSignature publicKey policy wire tx env) (envelope_post tx env) [].
Proof.
  unfold envelope_pre, envelope_post. signer_walk; try done; bool_hyps; unit_answers; subst.
  all: lazymatch goal with
       | |- exists w c d, Some _ = Some w /\ _ => eexists _, _, _; split_and!; [done..|]; authorize
       | |- _ => eexists _, _; split_and!; [done..|];
           first [solve [left; in_history] | right; eexists; split; [in_history|done]]
       end.
Qed.

(** C12: the daemon path signs only the message of the transaction it decoded, and
    only when the claims describe exactly that transaction, are current, for this
    signer and signed by a known operator key, the signer's own policy accepts the
    transaction, the one-time authorization was claimed by this run and, where the
    block height is wired, the blockhash is still alive; and it signs once. *)
Theorem signs_only_authorized tx env b r l1 l2 q
    (Hrun : traces (signEnvelope decodeTransaction attachSignature publicKey policy wire tx env)
              (l1 ++ Event (SignMessage b) r :: l2) q) :
  exists w c d, wire = Some w /\ claims env = Some c /\ decodeTransaction tx = inr d /\ b = messageBytes d /\
    authorized w c d (env_signature env) (rev l1).
Proof.
  exact (history_allowed _ _ _ _ _ _ (ensures_follows _ _ _ _ _ _ (signEnvelope_protocol tx env)) Hrun).
Qed.

(** A signature leaves the signer only after it was recorded: what the daemon
    path returns was either moved into the replay row as `signed` by this run, or
    read from a row that was already `signed`. *)
Theorem returns_only_recorded tx env l res
    (Hrun : traces (signEnvelope decodeTransaction attachSignature publicKey policy wire tx env) l (Ret res)) :
  exists c d, claims env = Some c /\ decodeTransaction tx = inr d /\
    recorded (c_id c) d (Some (c_lastValidBlockHeight c)) res (rev l).
Proof. exact (history_result _ _ _ _ _ (signEnvelope_protocol tx env) Hrun). Qed.
End Authorized.

(** *** The lifecycle of a replay row *)

Inductive edge : ExecutionState -> ExecutionState -> Prop :=
  | e_signed : edge X_claimed X_signed
  | e_expired : edge X_claimed X_expired
  | e_failed : edge X_claimed X_failed
  | e_broadcast : edge X_signed X_broadcast
  | e_unresolved : edge X_signed X_reconciliation
  | e_resolved : edge X_reconciliation X_broadcast
  | e_settled a b : a = X_broadcast \/ a = X_reconciliation ->
      b = X_confirmed \/ b = X_reverted \/ b = X_dropped -> edge a b.

(** Data with everything a lookup returns. *)
Definition complete (d : option Data) : Prop :=
  exists x h t g, d = Some x /\ d_requestHash x = Some h /\ d_transaction x = Some t /\ t <> "" /\
    d_signature x = Some g.

Definition edge_pre R (e : seff R) (_ : unit) : Prop :=
  match e with Transition _ a b d => edge a b /\ (b = X_signed -> complete d) | _ => True end.

(** The rows a list answers with are in the states asked for. *)
Definition list_ans R (e : seff R) : R -> Prop :=
  match e in seff R return R -> Prop with
  | ListRows l => fun rows => forall row, row ∈ rows -> row.1.2 ∈ l
  | _ => fun _ => True
  end.

Definition same_ghost R (e : seff R) (_ : R) (g : unit) : unit := g.

Section Lifecycle.
Context (decodeTransaction : string -> result DecodedTransaction)
        (attachSignature : DecodedTransaction -> list Z -> result (string * string))
        (publicKey : string) (policy : SignPolicy) (wire : option Wire).

(** The wire text of a transaction is not empty. *)
Context (attach_text : forall d raw tx sg, attachSignature d raw = inr (tx, sg) -> tx <> "").

#[local] Abbreviation task_prog := (run_task decodeTransaction attachSignature publicKey policy wire).
#[local] Abbreviation edges p := (ensures edge_pre list_ans same_ghost p (fun _ _ => True) tt).

Lemma settles_edge R (e : seff R) : settles _ e = true -> edge_pre _ e tt /\ forall r, same_ghost _ e r tt = tt.
Proof.
  intros He. split; [|done]. destruct e as [| |id a b d| | | | | | | | |]; try done. destruct a; try done.
  all: simpl in He; apply bool_decide_eq_true in He; rewrite !elem_of_cons in He.
  all: destruct_or!; subst; try (by apply elem_of_nil in He); (split; [|done]); constructor; auto.
Qed.

Lemma only_edges (ok : forall R, seff R -> bool) {A} (p : sprog A) :
  only ok p -> (forall R (e : seff R), ok _ e = true -> settles _ e = true) -> edges p.
Proof.
  intros Hp Hok. eapply ensures_mono; [|done].
  eapply (only_ensures _ _ _ settles); [by eapply only_mono|]. intros R e He. by apply settles_edge.
Qed.

Lemma edges_bind {A B} (p : sprog A) (f : A -> sprog B) :
  edges p -> (forall a, edges (f a)) -> edges (bind p f).
Proof. intros Hp Hf. apply ensures_bind. eapply ensures_mono; [exact Hp|]. intros [x|a] [] _; [done|apply Hf]. Qed.

Lemma reads_edges {A} (p : sprog A) : only reads p -> edges p.
Proof. intros Hp. eapply only_edges; [exact Hp|]. by intros R []. Qed.

Lemma raise_edges {A} (r : result A) : edges (raise r : sprog A).
Proof. by destruct r. Qed.

Lemma fail_edges b c : edges (fail_if b c).
Proof. by destruct b. Qed.

Lemma claim_and_sign_edges wi id x d last : edges (claim_and_sign attachSignature wi id x d last).
Proof.
  unfold edge_pre. signer_walk; try done; try by constructor.
  all: do 4 eexists; split_and!; try done; match goal with
    H : attachSignature _ _ = inr ?p |- _ => destruct p; by eapply attach_text end.
Qed.

Create HintDb edges.
#[local] Hint Resolve raise_edges fail_edges claim_and_sign_edges reads_edges stored_reads verify_reads : edges.

Lemma task_edges t : edges (task_prog t).
Proof.
  destruct t as [id tx payer last|tx env|id h r|id tx|]; cbn [run_task]; try (apply edges_bind; [|done]).
  - unfold sign. repeat (apply edges_bind; [by auto with edges|intros ?]).
    case_match; [done|]. apply edges_bind; [by apply reads_edges|auto with edges].
  - unfold signEnvelope. destruct wire as [w|]; [|done].
    apply edges_bind; [auto with edges|]. intros d. destruct (claims env) as [c|]; [|done].
    repeat (apply edges_bind; [by auto with edges|intros ?]).
    case_match; [done|auto with edges].
  - eapply only_edges; [apply result_answers|]. by intros R [].
  - eapply only_edges; [apply broadcast_settles|by intros R e He].
  - split; [done|]. intros rows Hrows. apply (only_edges settles); [|done]. apply reconcile_rows_settles.
    intros row Hin. specialize (Hrows _ Hin). rewrite !elem_of_cons in Hrows.
    destruct Hrows as [?|[?|[]%elem_of_nil]]; auto.
Qed.

(** *** The lifecycle, in every interleaving *)

Context `{ReplayStore St}.

Definition signed_complete (s : St) : Prop :=
  forall id x, rp_get id s = Some (X_signed, x) -> complete x.

Definition moves_along (s s' : St) : Prop :=
  forall id st x, rp_get id s = Some (st, x) ->
  exists st' x', rp_get id s' = Some (st', x') /\ (st' = st \/ edge st st').

Lemma moves_same (s s' : St) : (forall k, rp_get k s' = rp_get k s) -> moves_along s s'.
Proof. intros E id st x Hg. rewrite E. eauto. Qed.

Lemma sexec_list_ans R (e : seff R) (s : St) r s' : rp_ok s -> sexec e s r s' -> list_ans _ e r.
Proof.
  intros Hok. destruct e; try done. simpl. intros [-> _] [[id st] x] Hin. by eapply rp_list_get.
Qed.

Lemma edge_step R (e : seff R) (s : St) r s' :
  rp_ok s -> signed_complete s -> edge_pre _ e tt -> sexec e s r s' ->
  moves_along s s' /\ signed_complete s'.
Proof.
  intros Hok Hc Hpre He.
  assert ((forall k, rp_get k s' = rp_get k s) -> moves_along s s' /\ signed_complete s') as Hsame.
  { intros E. split; [by apply moves_same|]. intros k x. rewrite E. apply Hc. }
  destruct e; try (apply Hsame; intros k; exact (sexec_get _ _ _ _ k Hok He)).
  - destruct He as [now E]. destruct r; [|apply Hsame; intros k; by eapply rp_consume_other; [..|left]].
    destruct (rp_consume_won _ _ _ _ _ Hok E) as [Hn [y Hy]].
    pose proof (fun k Hk => rp_consume_other _ _ _ _ _ _ k Hok E (or_intror Hk)) as Ho. split.
    + intros k st x Hg. destruct (decide (k = id)) as [->|Hne]; [congruence|]. rewrite Ho by done. eauto.
    + intros k x Hg. destruct (decide (k = id)) as [->|Hne]; [congruence|]. rewrite Ho in Hg by done. by eapply Hc.
  - destruct He as [now E]. destruct r; [|apply Hsame; intros k; by eapply rp_transition_other; [..|left]].
    destruct (rp_transition_won _ _ _ _ _ _ _ Hok E) as ([y Hy] & y' & Hy' & Hd).
    pose proof (fun k Hk => rp_transition_other _ _ _ _ _ _ _ _ k Hok E (or_intror Hk)) as Ho.
    destruct Hpre as [Hedge Hcomp]. split.
    + intros k st x Hg. destruct (decide (k = id)) as [->|Hne]; [|rewrite Ho by done; eauto].
      rewrite Hy' . rewrite Hy in Hg. injection Hg as <- <-. eauto.
    + intros k x Hg. destruct (decide (k = id)) as [->|Hne]; [|rewrite Ho in Hg by done; by eapply Hc].
      rewrite Hy' in Hg. injection Hg as -> <-.
      specialize (Hcomp eq_refl). destruct (Hcomp) as (v & ? & ? & ? & -> & _). by rewrite (Hd v eq_refl).
Qed.

Lemma runs_edges tasks n p :
  runs decodeTransaction attachSignature publicKey policy wire tasks n p ->
  exists g, g = tt /\ follows edge_pre list_ans same_ghost p g.
Proof. intros (t & _ & ->). exists tt. split; [done|]. eapply ensures_follows, task_edges. Qed.

Lemma replay_reachable tasks s0 s ts :
  rp_ok s0 -> signed_complete s0 ->
  pool_reachable (fun i R => @sexec_ok St _ i R)
    (runs decodeTransaction attachSignature publicKey policy wire tasks) s0 (s, ts) ->
  rp_ok s /\ signed_complete s /\
  exists gs, Forall2 (fun p g => follows edge_pre list_ans same_ghost p g) ts gs.
Proof.
  intros Hok Hsigned Hreach.
  destruct (pool_invariant (fun i R => @sexec_ok St _ i R) _ edge_pre list_ans same_ghost (fun _ g => g = tt)
    (fun s _ => rp_ok s /\ signed_complete s) (fun i R e s r s' He => sexec_list_ans R e s r s' (proj1 He) (proj2 He))
    (runs_edges tasks) (fun s gs g HI _ => HI)
    (fun i R e s r s' gs g HI _ Hpre He =>
       conj (sexec_keeps_ok e s r s' (proj1 HI) (proj2 He))
            (proj2 (edge_step R e s r s' (proj1 HI) (proj2 HI) ltac:(by destruct g) (proj2 He))))
    s0 (s, ts) (conj Hok Hsigned) Hreach) as (gs & [Hok' Hc] & Hfs). simpl in *. by split_and!; [..|exists gs].
Qed.

(** Along every interleaving of tasks, each step moves every replay row only
    along the documented edges: a claimed authorization becomes signed, expired or
    failed; a signed one is broadcast or left for reconciliation; only those settle,
    as confirmed, reverted or dropped; no row leaves a terminal state, goes back to
    claimed, or disappears; and a row in state signed holds the request hash, the
    signed transaction and its signature. *)
Theorem replay_lifecycle tasks s0 s ts s' ts'
    (Hok : rp_ok s0) (Hsigned : signed_complete s0)
    (Hreach : pool_reachable (fun i R => @sexec_ok St _ i R)
                (runs decodeTransaction attachSignature publicKey policy wire tasks) s0 (s, ts))
    (Hstep : pool_step (fun i R => @sexec_ok St _ i R)
               (runs decodeTransaction attachSignature publicKey policy wire tasks) (s, ts) (s', ts')) :
  moves_along s s' /\ signed_complete s'.
Proof.
  destruct (replay_reachable tasks s0 s ts Hok Hsigned Hreach) as (Hok' & Hc & gs & Hfs).
  inversion Hstep; subst; [|split; [by apply moves_same|done]].
  match goal with H : _ !! _ = Some (Vis _ _), Hx : sexec_ok _ _ _ _ _ |- _ =>
    destruct (Forall2_lookup_l _ _ _ _ _ Hfs H) as ([] & _ & Hpre & _); destruct Hx as [_ Hx];
    exact (edge_step _ _ _ _ _ Hok' Hc Hpre Hx) end.
Qed.

(** *** A signature stays retrievable *)

Lemma result_signed (s : St) id d h :
  rp_get id s = Some (X_signed, Some d) -> complete (Some d) -> h <> "" ->
  lower <$> d_requestHash d = Some (lower h) ->
  wp (fun R => @sexec St _ R) (result_of id h false)
    (fun r s' => r = inr (V_signed (d_signature d) None) /\ s' = s) s.
Proof.
  intros Hg (x & h' & t & g & [= <-] & Hh' & Ht & Hne & Hs) Hh Hl. rewrite Hh' in Hl. injection Hl as Hl.
  simpl. intros r s' [-> ->]. rewrite Hg. simpl. unfold stored, fail_if, do.
  unfold streq at 1. rewrite bool_decide_false by done. simpl. intros r s' [-> ->]. rewrite Hg. simpl.
  rewrite Hh', Hl, streq_refl. simpl. rewrite Ht. simpl. unfold streq. by rewrite bool_decide_false by done.
Qed.

(** In every state the tasks can reach, a lookup of a row in state `signed`
    under its request hash, in any letter case, answers with the signature, a
    present one, and changes nothing. *)
Theorem signature_retrievable tasks s0 s ts id x h
    (Hok : rp_ok s0) (Hsigned : signed_complete s0)
    (Hreach : pool_reachable (fun i R => @sexec_ok St _ i R)
                (runs decodeTransaction attachSignature publicKey policy wire tasks) s0 (s, ts))
    (Hrow : rp_get id s = Some (X_signed, x)) (Hh : h <> "") :
  exists d g, x = Some d /\ d_signature d = Some g /\
    (lower <$> d_requestHash d = Some (lower h) ->
     wp (fun R => @sexec St _ R) (result_of id h false)
       (fun r s' => r = inr (V_signed (Some g) None) /\ s' = s) s).
Proof.
  destruct (replay_reachable tasks s0 s ts Hok Hsigned Hreach) as (_ & Hc & _).
  pose proof (Hc id x Hrow) as Hcx. pose proof Hcx as (d & h' & t & g & -> & _ & _ & _ & Hs).
  exists d, g. split; [done|]. split; [done|]. intros Hl. rewrite <- Hs. by apply result_signed.
Qed.
End Lifecycle.

(** *** A concrete signer

    One policy, one key, a node that is at height 400 and accepts what it is
    sent. *)
Definition demo_bytes : list Z := [188; 2; 0; 0; 0; 0; 0; 0].

Definition demo_decode (wire : string) : result DecodedTransaction :=
  if streq wire "AAE=" then inr (demo_tx demo_bytes)
  else if streq wire "AAI=" then
    let d := demo_tx demo_bytes in
    inr {| feePayer := feePayer d; recentBlockhash := recentBlockhash d;
           numRequiredSignatures := numRequiredSignatures d; staticAccountKeys := staticAccountKeys d;
           signatures := [Some "sig"]; addressTableLookups := addressTableLookups d;
           instructions := instructions d; messageBytes := messageBytes d; messageBase64 := messageBase64 d;
           messageHash := messageHash d; wireBase64 := "AAI=" |}
  else inl "transaction_invalid".

Definition demo_attach (d : DecodedTransaction) (raw : list Z) : result (string * string) :=
  if (length raw =? 64)%nat then inr ("AAI=", "sig") else inl "signature_invalid".

Definition demo_env : AuthorizationEnvelope := {| claims := Some demo_claims; env_signature := "opsig" |}.

Definition demo_sexec `{ReplayStore St} {R} (e : seff R) : St -> R * St :=
  match e in seff R return St -> R * St with
  | ReplayGet id => fun s => (rp_get id s, s)
  | Consume id x => fun s => rp_consume id x 2000 s
  | Transition id a b d => fun s => rp_transition id a b d 2000 s
  | RecoverSigned id => fun s => rp_recover id 2000 s
  | ListRows l => fun s => (rp_list l s, s)
  | Now => fun s => (2000, s)
  | VerifyClaims t sg _ => fun s => (inr (streq t (canonicalClaims demo_claims) && streq sg "opsig"), s)
  | BlockHeight => fun s => (inr (V_number 400), s)
  | SignMessage b => fun s => (inr (replicate 64 1), s)
  | SendTransaction t => fun s => (inr (V_string "sig"), s)
  | GetSignatureStatus _ => fun s =>
      (inr (Some (V_object [("err", V_null); ("confirmationStatus", V_string "finalized")])), s)
  | GetBlockHeight => fun s => (inr (V_number 400), s)
  end.

Lemma demo_sexec_ok i R (e : seff R) (s : MemoryReplay) :
  sexec_ok i e s (demo_sexec e s).1 (demo_sexec e s).2.
Proof. split; [exact I|]. destruct e; simpl; try done; exists 2000; by rewrite <- ?surjective_pairing. Qed.

Definition demo_tasks : list Task :=
  [T_envelope "AAE=" demo_env; T_envelope "AAE=" demo_env; T_result "auth_1" "0x01" false].

Definition empty_memory : MemoryReplay := {| states := ∅; datas := ∅ |}.

Definition demo_envelope : sprog SignResult :=
  signEnvelope demo_decode demo_attach "FeePayer11111111" (demo_policy demo_rules) (Some demo_wire) "AAE=" demo_env.

Definition demo_prog (t : Task) : sprog unit :=
  run_task demo_decode demo_attach "FeePayer11111111" (demo_policy demo_rules) (Some demo_wire) t.

#[local] Abbreviation demo_runs :=
  (runs demo_decode demo_attach "FeePayer11111111" (demo_policy demo_rules) (Some demo_wire) demo_tasks).

Definition demo_pool : MemoryReplay * list (nat * event seff) :=
  run_seq (logging (fun _ R => @demo_sexec MemoryReplay _ R)) 0 (map demo_prog demo_tasks) (empty_memory, []).

Lemma demo_started k p : map demo_prog demo_tasks !! k = Some p -> demo_runs k p.
Proof.
  intros Hk. rewrite list_lookup_fmap in Hk. destruct (demo_tasks !! k) as [t|] eqn:Ht; [|done].
  injection Hk as <-. by exists t.
Qed.

Lemma signer_pool_reachable :
  exists ts, pool_reachable (logged (fun i R => @sexec_ok MemoryReplay _ i R)) demo_runs (empty_memory, []) (demo_pool, ts).
Proof.
  apply (run_pool_seq _ _ (logging (fun _ R => @demo_sexec MemoryReplay _ R))) with (ts := []).
  - apply logging_logged. intros i R e s. apply demo_sexec_ok.
  - apply rtc_refl.
  - apply demo_started.
Qed.

Lemma signs_once_per_authorization_witness :
  signed_ids demo_tasks demo_pool.2 = ["auth_1"] /\ NoDup (signed_ids demo_tasks demo_pool.2).
Proof.
  split; [vm_compute; reflexivity|]. destruct signer_pool_reachable as [ts Hts].
  destruct demo_pool as [s log].
  exact (proj1 (signs_once_per_authorization _ _ _ _ _ _ _ _ _ _ Hts)).
Defined.

(** The trace of one run on an empty SQLite store. *)
Definition no_rows : SqliteReplay := {| signer_replay := [] |}.

Definition demo_trace : list (event seff) := run_trace (fun R => @demo_sexec SqliteReplay _ R) demo_envelope no_rows.

Definition demo_result : SignResult := {| sr_transaction := "AAI="; sr_signature := Some "sig" |}.

Lemma demo_run :
  (run (fun R => @demo_sexec SqliteReplay _ R) demo_envelope no_rows).1 = inr demo_result.
Proof. vm_compute. reflexivity. Qed.

Lemma demo_envelope_traces : traces demo_envelope demo_trace (Ret demo_result).
Proof.
  pose proof (run_traces (fun R => @demo_sexec SqliteReplay _ R) demo_envelope no_rows) as H.
  by rewrite demo_run in H.
Qed.

Lemma returns_only_recorded_witness :
  exists c d, claims demo_env = Some c /\ demo_decode "AAE=" = inr d /\
    recorded (c_id c) d (Some (c_lastValidBlockHeight c)) demo_result (rev demo_trace).
Proof.
  exact (returns_only_recorded demo_decode demo_attach _ _ _ "AAE=" demo_env _ _ demo_envelope_traces).
Defined.

Lemma signs_only_authorized_witness :
  exists l1 l2, demo_trace = l1 ++ Event (SignMessage [1]) (inr (replicate 64 1)) :: l2 /\
  exists w c d, Some demo_wire = Some w /\ claims demo_env = Some c /\ demo_decode "AAE=" = inr d /\
    [1] = messageBytes d /\
    authorized "FeePayer11111111" (demo_policy demo_rules) w c d (env_signature demo_env) (rev l1).
Proof.
  exists (take 5 demo_trace), (drop 6 demo_trace).
  assert (demo_trace = take 5 demo_trace ++ Event (SignMessage [1]) (inr (replicate 64 1)) :: drop 6 demo_trace) as E
    by (vm_compute; reflexivity).
  split; [exact E|]. pose proof demo_envelope_traces as Ht. rewrite E in Ht.
  exact (signs_only_authorized demo_decode demo_attach _ _ _ "AAE=" demo_env _ _ _ _ _ Ht).
Defined.

(** The store after the first task. *)
Definition demo_memory : MemoryReplay :=
  (run (fun R => @demo_sexec MemoryReplay _ R) (demo_prog (T_envelope "AAE=" demo_env)) empty_memory).2.

Definition demo_data : Data :=
  {| d_requestHash := Some "0x01"; d_transaction := Some "AAI="; d_signature := Some "sig"; d_expected := None;
     d_returned := None; d_status := None; d_lastValidBlockHeight := Some 500; d_blockHeight := None |}.

Lemma demo_memory_row : rp_get "auth_1" demo_memory = Some (X_signed, Some demo_data).
Proof. vm_compute. reflexivity. Qed.

Lemma demo_attach_text d raw tx sg : demo_attach d raw = inr (tx, sg) -> tx <> "".
Proof. unfold demo_attach. case_match; [|done]. by intros [= <- _]. Qed.

Lemma empty_signed_complete : signed_complete empty_memory.
Proof. intros id x Hg. change (mem_get id empty_memory = Some (X_signed, x)) in Hg. unfold mem_get in Hg. simpl in Hg. by rewrite lookup_empty in Hg. Qed.

Lemma empty_memory_ok : rp_ok empty_memory.
Proof. exact I. Qed.

Lemma demo_memory_reachable : exists ts, length ts = 1%nat /\
  pool_reachable (fun i R => @sexec_ok MemoryReplay _ i R) demo_runs empty_memory (demo_memory, ts).
Proof.
  eexists. split; [|eapply (run_pool_one _ _ (fun _ R => @demo_sexec MemoryReplay _ R))]; [done| |].
  - intros i R e s. apply demo_sexec_ok.
  - by apply demo_started.
Qed.

Lemma replay_lifecycle_witness :
  rp_get "auth_1" demo_memory = Some (X_signed, Some demo_data) /\ signed_complete demo_memory.
Proof.
  split; [exact demo_memory_row|]. destruct demo_memory_reachable as (ts & Hl & Hts).
  refine (proj2 (replay_lifecycle _ _ _ _ _ demo_attach_text demo_tasks empty_memory demo_memory ts demo_memory
    (ts ++ [demo_prog (T_envelope "AAE=" demo_env)]) empty_memory_ok empty_signed_complete Hts _)).
  apply pool_start. rewrite Hl. by apply demo_started.
Defined.

Lemma signature_retrievable_witness :
  exists g, wp (fun R => @sexec MemoryReplay _ R) (result_of "auth_1" "0X01" false)
    (fun r s' => r = inr (V_signed (Some g) None) /\ s' = demo_memory) demo_memory.
Proof.
  destruct demo_memory_reachable as (ts & _ & Hts).
  destruct (signature_retrievable _ _ _ _ _ demo_attach_text demo_tasks empty_memory demo_memory ts "auth_1" _ "0X01"
    empty_memory_ok empty_signed_complete Hts demo_memory_row ltac:(discriminate)) as (d & g & Hd & _ & Hw).
  exists g. apply Hw. injection Hd as <-. reflexivity.
Defined.

(** *** After the broadcast

    The comment on `result` says that a signature that exists always stays
    retrievable.  It does while the row is in state `signed`; the data
    `broadcastSigned` stores has no request hash, so afterwards the same lookup
    is refused. *)
Definition after_broadcast : SqliteReplay :=
  (run (fun R => @demo_sexec SqliteReplay _ R) (demo_envelope ;; broadcastSigned demo_decode "auth_1" "AAI=") no_rows).2.

Lemma broadcast_hides_signature :
  sql_view "auth_1" after_broadcast = Some (X_broadcast, Some (broadcast_data "sig" "AAI=" (Some 500))) /\
  (run (fun R => @demo_sexec SqliteReplay _ R) (result_of "auth_1" "0x01" false) after_broadcast).1 =
    inl "authorization_request_mismatch".
Proof. split; vm_compute; reflexivity. Qed.

(** Reconciliation then settles the row. *)
Example demo_settled :
  fst <$> sql_view "auth_1" (run (fun R => @demo_sexec SqliteReplay _ R) reconcileTransactions after_broadcast).2 =
  Some X_confirmed.
Proof. vm_compute. reflexivity. Qed.
