(* ===== verification/HostGateway.v ===== *)
(** `HostAuthorizationVerifier` of `src/execution/authorization/index.ts` and
    `src/execution/gateway.ts`: the host's side of the custody boundary.

    [prepare] is the way to evidence, [execute] the way across: verify, burn the
    authorization, have the signer sign, record, broadcast. *)
From S2P Require Import Prelude Prog Once Canonical SignerPolicy SignerEnvelope Simulation SignerReplay SignerService SignerSafety.
#[local] Open Scope string_scope.
#[local] Open Scope list_scope.
#[local] Open Scope Z_scope.
#[local] Open Scope prog_scope.

(** *** Data and effects *)

Record SignerSignResponse : Type := {
  sg_transaction : string; sg_signature : string; sg_broadcast : option string
}.

Record ExecutionContext : Type := {
  x_policyHash : string; x_currentSlot : Z; x_maxSlotLag : Z; x_allowedAssets : list string;
  x_currentBlockHeight : option Z
}.

Record AuthorizedExecution : Type := { ax_transaction : string; ax_envelope : option AuthorizationEnvelope }.

Inductive heff : Type -> Type :=
  | Verifying {R} (e : seff R) : heff R
  | HSimulate (q : SimulationRequest) : heff (result SimulationResult)
  | HConsume (id : string) (expiresAt : Z) : heff bool
  (** the answer of a transition is not looked at; its data is a text *)
  | HTransition (id : string) (from to : ExecutionState) (data : string) : heff unit
  | HBlockHeight : heff (result value)
  | HSign (transaction : string) (env : AuthorizationEnvelope) : heff (result SignerSignResponse)
  | HBroadcast (signed : string) : heff (result string).

Definition hprog : Type -> Type := prog heff string.

Definition hcall {R} (e : heff (result R)) : hprog R := bind (trigger e) raise.
Definition hdo {R} (e : heff R) : hprog R := trigger e.
Definition halt_if (b : bool) (code : string) : hprog unit := if b then Throw code else Ret tt.

Section HostGateway.
Context (decodeTransaction : string -> result DecodedTransaction) (isPublicKey : string -> bool).

(** *** `HostAuthorizationVerifier.verify` *)

Definition expired_text (last height : Z) : string :=
  print (V_object [("lastValidBlockHeight", V_number last); ("blockHeight", V_number height)]).

(** The fence at the end of `verify`. *)
Definition fence (w : Wire) (c : AuthorizationClaims) : hprog unit :=
  if negb (has_blockHeight w) then Ret tt
  else
    let* v := hcall HBlockHeight in
    match safe_integer v with
    | None => Throw "block_height_invalid"
    | Some height =>
        halt_if (height <? 0) "block_height_invalid" ;;
        if c_lastValidBlockHeight c <? height then
          hdo (HTransition (c_id c) X_claimed X_expired (expired_text (c_lastValidBlockHeight c) height)) ;;
          Throw "envelope_blockhash_expired"
        else Ret tt
    end.

Definition host_verify (w : Wire) (transaction : string) (env : AuthorizationEnvelope) : hprog string :=
  let* d := raise (decodeTransaction transaction) in
  translate (@Verifying) (verify w d env) ;;
  match claims env with
  | None => Throw "envelope_invalid"
  | Some c =>
      let* won := hdo (HConsume (c_id c) (c_expiresAt c)) in
      halt_if (negb won) "envelope_replayed" ;;
      fence w c ;;
      Ret (wireBase64 d)
  end.

(** *** `ExecutionGateway.prepare` *)

Definition context_of (q : SimulationRequest) (x : ExecutionContext) : SafetyContext :=
  {| expectedMessageHash := q_messageHash q; maxSlotLag := x_maxSlotLag x; currentSlot := x_currentSlot x;
     allowedAssets := x_allowedAssets x; currentBlockHeight := x_currentBlockHeight x;
     lastValidBlockHeight := match x_currentBlockHeight x with
                             | Some _ => Some (q_lastValidBlockHeight q) | None => None end |}.

Definition prepare (t : PreparedTransaction) (x : ExecutionContext) :
    hprog (string * SimulationRequest * SimulationResult) :=
  let* q := raise (buildSimulationRequest decodeTransaction t (x_policyHash x)) in
  let* r := hcall (HSimulate q) in
  let* _s := raise (assertSimulationSafe isPublicKey r (context_of q x)) in
  Ret (q_messageHash q, q, r).

(** *** `ExecutionGateway.execute` *)

(** The text of an error. *)
Definition error_text (e : string) : string := ("Error: " ++ e)%string.

Definition signed_text (s : SignerSignResponse) : string :=
  print (V_object [("signature", V_string (sg_signature s)); ("transaction", V_string (sg_transaction s))]).

(** The signature attached to the bytes, empty when there is none. *)
Definition attached (s : SignerSignResponse) : string :=
  match signatureOf decodeTransaction (sg_transaction s) with inr x => x | inl _ => "" end.

Record BroadcastResult : Type := { br_messageHash : string; br_signature : string }.

Definition broadcast_of (c : AuthorizationClaims) (signature : string) : BroadcastResult :=
  {| br_messageHash := c_messageHash c; br_signature := signature |}.

(** From the signed bytes on. *)
Definition send (c : AuthorizationClaims) (s : SignerSignResponse) : hprog BroadcastResult :=
  match sg_broadcast s with
  | Some b =>
      if negb (streq b (sg_signature s)) then
        hdo (HTransition (c_id c) X_signed X_reconciliation b) ;; Throw "broadcast_signature_mismatch"
      else
        hdo (HTransition (c_id c) X_signed X_broadcast (sg_signature s)) ;; Ret (broadcast_of c (sg_signature s))
  | None =>
      let* signature := catch (hcall (HBroadcast (sg_transaction s)))
        (fun e => hdo (HTransition (c_id c) X_signed X_reconciliation (error_text e)) ;; Throw e) in
      if negb (streq signature (sg_signature s)) then
        hdo (HTransition (c_id c) X_signed X_reconciliation signature) ;; Throw "broadcast_signature_mismatch"
      else
        hdo (HTransition (c_id c) X_signed X_broadcast signature) ;; Ret (broadcast_of c signature)
  end.

(** [wire] is the verifier's configuration, absent when signing is not wired. *)
Definition execute (wire : option Wire) (input : AuthorizedExecution) : hprog BroadcastResult :=
  match ax_envelope input with
  | None => Throw "authorization_envelope_required"
  | Some env =>
      halt_if (streq (ax_transaction input) "") "authorization_envelope_required" ;;
      match wire with
      | None => Throw "signing_disabled"
      | Some w =>
          let* transaction := host_verify w (ax_transaction input) env in
          match claims env with
          | None => Throw "envelope_invalid"
          | Some c =>
              let* s := catch (hcall (HSign transaction env))
                (fun e => hdo (HTransition (c_id c) X_claimed X_failed (error_text e)) ;; Throw e) in
              if streq (attached s) "" || negb (streq (attached s) (sg_signature s)) then
                hdo (HTransition (c_id c) X_claimed X_failed "signer_signature_mismatch") ;;
                Throw "signer_signature_mismatch"
              else
                hdo (HTransition (c_id c) X_claimed X_signed (signed_text s)) ;;
                send c s
          end
      end
  end.

(** *** What precedes a crossing, and a broadcast *)

Definition host_history : Type := list (event heff).

(** What the verifier established before the transaction crossed. *)
Record verified (w : Wire) (c : AuthorizationClaims) (d : DecodedTransaction) (sig : string) (h : host_history) :
    Prop := {
  ve_current : exists now, Event (Verifying Now) now ∈ h /\ current w c now;
  ve_signed : Event (Verifying (VerifyClaims (canonicalClaims c) sig (c_signerKeyId c))) (inr true) ∈ h;
  ve_describes : describes c d;
  ve_cluster : forall cl, w_cluster w = Some cl -> c_cluster c = cl;
  ve_burned : Event (HConsume (c_id c) (c_expiresAt c)) true ∈ h;
  ve_alive : has_blockHeight w = true -> exists height,
    Event HBlockHeight (inr (V_number height)) ∈ h /\ 0 <= height <= c_lastValidBlockHeight c
}.

Definition crossing_pre (wire : option Wire) (input : AuthorizedExecution) R (e : heff R) (h : host_history) : Prop :=
  match e with
  | HSign transaction env => exists w c d, wire = Some w /\ ax_envelope input = Some env /\
      claims env = Some c /\ decodeTransaction (ax_transaction input) = inr d /\ transaction = wireBase64 d /\
      verified w c d (env_signature env) h
  | HBroadcast signed => exists w c d s env, wire = Some w /\ claims env = Some c /\
      Event (HSign (wireBase64 d) env) (inr s) ∈ h /\ signed = sg_transaction s /\
      verified w c d (env_signature env) h /\
      signatureOf decodeTransaction signed = inr (sg_signature s) /\
      Event (HTransition (c_id c) X_claimed X_signed (signed_text s)) tt ∈ h
  | _ => True
  end.

Definition crossing_post (r : string + BroadcastResult) (h : host_history) : Prop :=
  match r with
  | inl _ => True
  | inr b => exists id s tx env, Event (HSign tx env) (inr s) ∈ h /\
      signatureOf decodeTransaction (sg_transaction s) = inr (sg_signature s) /\
      br_signature b = sg_signature s /\
      Event (HTransition id X_claimed X_signed (signed_text s)) tt ∈ h /\
      Event (HTransition id X_signed X_broadcast (sg_signature s)) tt ∈ h
  end.

Lemma attached_spec s :
  streq (attached s) "" || negb (streq (attached s) (sg_signature s)) = false ->
  signatureOf decodeTransaction (sg_transaction s) = inr (sg_signature s).
Proof.
  unfold attached. destruct (signatureOf _ _) as [?|x]; intros H; bool_hyps; [done|]. by subst.
Qed.

Ltac host_simpl :=
  try unfold execute, host_verify, fence, send, verify, do, call, hdo, hcall, halt_if, fail_if, raise;
  cbn [bind catch trigger translate ensures follows].

Ltac host_step :=
  match goal with
  | |- True => exact I
  | |- _ /\ _ => split
  | |- forall _, _ => intros ?
  | |- ensures _ _ _ (if ?b then _ else _) _ _ => destruct b eqn:?
  | |- follows _ _ _ (if ?b then _ else _) _ => destruct b eqn:?
  | |- context [match ?x with _ => _ end] => destruct x eqn:?
  end.

Ltac host_walk := repeat (host_simpl; host_step); host_simpl.

Lemma host_alive w v h last (hist : host_history) :
  safe_integer v = Some h -> 0 <= h -> h <= last -> Event HBlockHeight (inr v) ∈ hist ->
  has_blockHeight w = true -> exists height, Event HBlockHeight (inr (V_number height)) ∈ hist /\ 0 <= height <= last.
Proof. intros ->%safe_integer_spec ? ? ? _. eauto. Qed.

(** The conditions of [verified], from the history and the branches taken. *)
Ltac verified_walk :=
  match goal with H : check_transaction _ _ _ = inr _ |- _ =>
    apply check_transaction_describes in H as (? & ? & ?) end;
  split;
  [ eexists; split; [in_history|by apply check_claims_current]
  | in_history | done | done | in_history
  | first [ intros Hw; simpl in *; congruence | eapply host_alive; [done|done|done|in_history] ] ].

Ltac crossed :=
  match goal with H : streq (attached ?s) "" || _ = false |- _ =>
    let H' := fresh in pose proof (attached_spec s H) as H'; clear H end.

Lemma crossing_protocol wire input :
  ensures (crossing_pre wire input) (fun _ _ _ => True) record_event (execute wire input) crossing_post [].
Proof.
  unfold crossing_pre, crossing_post. host_walk; try done; try crossed; bool_hyps; unit_answers; subst.
  all: lazymatch goal with
       | |- exists w c d s env, _ => eexists _, _, _, _, _; split_and!; [reflexivity|eassumption|in_history|done|verified_walk|done|in_history]
       | |- exists _ : Wire, _ => eexists _, _, _; split_and!; [done..|verified_walk]
       | |- _ => eexists _, _, _, _; split_and!; [in_history|eassumption|done|in_history|in_history]
       end.
Qed.

(** A transaction crosses to the signer only as the bytes the host decoded,
    after the claims were found current, signed by an operator key and describing
    exactly those bytes, their authorization was burned by this run and, where the
    height is wired, the blockhash was alive. *)
Theorem crosses_only_verified wire input tx env r l1 l2 q
    (Hrun : traces (execute wire input) (l1 ++ Event (HSign tx env) r :: l2) q) :
  exists w c d, wire = Some w /\ ax_envelope input = Some env /\ claims env = Some c /\
    decodeTransaction (ax_transaction input) = inr d /\ tx = wireBase64 d /\
    verified w c d (env_signature env) (rev l1).
Proof. exact (history_allowed _ _ _ _ _ _ (ensures_follows _ _ _ _ _ _ (crossing_protocol wire input)) Hrun). Qed.

(** Bytes are broadcast by the host only after the signature they carry was
    recorded with them, and only bytes the signer returned with that signature for
    a verified authorization. *)
Theorem broadcasts_only_recorded wire input signed r l1 l2 q
    (Hrun : traces (execute wire input) (l1 ++ Event (HBroadcast signed) r :: l2) q) :
  exists w c d s env, wire = Some w /\ claims env = Some c /\ Event (HSign (wireBase64 d) env) (inr s) ∈ rev l1 /\
    signed = sg_transaction s /\ verified w c d (env_signature env) (rev l1) /\
    signatureOf decodeTransaction signed = inr (sg_signature s) /\
    Event (HTransition (c_id c) X_claimed X_signed (signed_text s)) tt ∈ rev l1.
Proof. exact (history_allowed _ _ _ _ _ _ (ensures_follows _ _ _ _ _ _ (crossing_protocol wire input)) Hrun). Qed.

(** What is reported as broadcast is the signature on the bytes the signer
    returned, recorded as signed and as broadcast. *)
Theorem reports_recorded wire input l b (Hrun : traces (execute wire input) l (Ret b)) :
  exists id s tx env, Event (HSign tx env) (inr s) ∈ rev l /\
    signatureOf decodeTransaction (sg_transaction s) = inr (sg_signature s) /\ br_signature b = sg_signature s /\
    Event (HTransition id X_claimed X_signed (signed_text s)) tt ∈ rev l /\
    Event (HTransition id X_signed X_broadcast (sg_signature s)) tt ∈ rev l.
Proof. exact (history_result _ _ _ _ _ (crossing_protocol wire input) Hrun). Qed.

(** *** Preparing *)

Definition prepare_post (t : PreparedTransaction) (x : ExecutionContext)
    (a : string + (string * SimulationRequest * SimulationResult)) (h : host_history) : Prop :=
  match a with
  | inl _ => True
  | inr (hash, q, r) =>
      buildSimulationRequest decodeTransaction t (x_policyHash x) = inr q /\ hash = q_messageHash q /\
      Event (HSimulate q) (inr r) ∈ h /\ safe isPublicKey r (context_of q x)
  end.

Lemma prepare_ensures t x :
  ensures (fun _ _ _ => True) (fun _ _ _ => True) record_event (prepare t x) (prepare_post t x) [].
Proof.
  unfold prepare, hcall, raise, prepare_post. destruct (buildSimulationRequest _ _ _) as [?|q] eqn:Eq; [done|].
  cbn [bind trigger ensures]. split; [done|]. intros [?|r] _; [done|]. cbn [bind ensures].
  destruct (assertSimulationSafe _ _ _) as [?|[]] eqn:Es; [done|]. cbn [bind ensures].
  split_and!; [done..|left|by apply simulation_safe_iff].
Qed.

(** Evidence leaves [prepare] only when it is safe. *)
Lemma prepared_safe t x l hash q r :
  traces (prepare t x) l (Ret (hash, q, r)) -> prepare_post t x (inr (hash, q, r)) (rev l).
Proof. exact (history_result _ _ _ _ _ (prepare_ensures t x)). Qed.

(** *** One crossing per authorization *)

Context (wire : option Wire).

(** The requests of a process, in the order they start. *)
Definition crossings (inputs : list AuthorizedExecution) (n : nat) (p : hprog BroadcastResult) : Prop :=
  exists i, inputs !! n = Some i /\ p = execute wire i.

Definition crossing_id (i : AuthorizedExecution) : string :=
  match ax_envelope i with
  | Some env => match claims env with Some c => c_id c | None => "" end
  | None => ""
  end.

Definition burns R (e : heff R) : option string := match e with HConsume id _ => Some id | _ => None end.

Definition burn_granted R (e : heff R) : R -> bool :=
  match e in heff R return R -> bool with HConsume _ _ => fun r => r | _ => fun _ => false end.

Definition crosses R (e : heff R) : bool := match e with HSign _ _ => true | _ => false end.

(** The authorizations that crossed, one entry per crossing. *)
Definition crossed_ids (inputs : list AuthorizedExecution) (log : list (nat * event heff)) : list string :=
  acted (fun n => crossing_id <$> inputs !! n) crosses log.

#[local] Abbreviation fenced := (ensures (fence_pre burns crosses) (fun _ _ _ => True) (fence_upd burns burn_granted crosses)).
#[local] Abbreviation quiet := (idle burns crosses).

Lemma host_verify_quiet w d env : only quiet (translate (@Verifying) (verify w d env) : hprog unit).
Proof.
  unfold verify, do, call, fail_if. cbn [bind trigger translate only]. split; [done|]. intros now.
  destruct (claims env) as [c|]; [|done]. destruct (check_claims w c now); [done|]. cbn [raise bind trigger translate only].
  split; [done|]. intros [?|[]]; [done| |done]. cbn. by destruct (check_transaction w c d).
Qed.

Lemma fence_quiet w c : only quiet (fence w c).
Proof.
  unfold fence, hcall, hdo, halt_if. destruct (negb _); [done|]. cbn [bind trigger only]. split; [done|].
  intros [?|v]; [done|]. cbn [raise bind]. destruct (safe_integer v) as [z|]; [|done].
  destruct (z <? 0); [done|]. cbn [bind]. by destruct (_ <? z).
Qed.

Lemma send_quiet c s : only quiet (send c s).
Proof.
  unfold send, hcall, hdo. destruct (sg_broadcast s) as [b|].
  - by destruct (negb _).
  - cbn. split; [done|]. intros [?|g]; [done|]. cbn. by destruct (negb _).
Qed.

Lemma host_raise_quiet {A} (r : result A) : only quiet (raise r : hprog A).
Proof. by destruct r. Qed.

Lemma halt_quiet b c : only quiet (halt_if b c).
Proof. by destruct b. Qed.

Lemma execute_fenced i :
  fenced (execute wire i) (fun _ _ => True) {| fc_key := crossing_id i; fc_claimed := false; fc_used := false |}.
Proof.
  unfold execute, host_verify, crossing_id. destruct (ax_envelope i) as [env|]; [|done].
  apply fenced_after; [apply halt_quiet|done|]. intros _. destruct wire as [w|]; [|done].
  apply ensures_bind, fenced_after; [apply host_raise_quiet|done|]. intros d.
  apply fenced_after; [apply host_verify_quiet|done|]. intros _. destruct (claims env) as [c|]; [|done].
  cbn [hdo bind trigger ensures]. split; [split; [by intros k [= <-]|done]|]. intros [|] _; [|done].
  cbn [negb halt_if bind]. apply fenced_after; [apply fence_quiet|done|]. intros _.
  cbn [ensures bind catch hcall trigger]. split; [split; [done|by split]|]. intros [e|s] _; cbn [raise bind catch]; [by cbn|].
  destruct (_ || _); [by cbn|]. cbn [hdo bind trigger ensures]. split; [done|]. intros u _.
  eapply ensures_mono; [apply idle_fenced, send_quiet|done].
Qed.

Lemma crossings_fenced inputs n p :
  crossings inputs n p ->
  exists g, fence_start (fun n => crossing_id <$> inputs !! n) n g /\
            follows (fence_pre burns crosses) (fun _ _ _ => True) (fence_upd burns burn_granted crosses) p g.
Proof.
  intros (i & Hi & ->). eexists. split; [eexists; rewrite Hi; split; reflexivity|].
  eapply ensures_follows, execute_fenced.
Qed.

Context `{ReplayStore St}.

(** Effects on the host's replay store; the text of a transition is kept as some
    data of the store. *)
Definition hexec (i : nat) {R} (e : heff R) (s : St) (r : R) (s' : St) : Prop :=
  rp_ok s /\
  match e in heff R return R -> Prop with
  | HConsume id x => fun r => exists now, rp_consume id x now s = (r, s')
  | HTransition id a b _ => fun _ => exists now d won, rp_transition id a b d now s = (won, s')
  | _ => fun _ => s' = s
  end r.

Lemma burn_frees (i : nat) R (e : heff R) s r s' k :
  hexec i e s r s' -> burns _ e = Some k -> burn_granted _ e r = true -> ~ id_taken s k /\ id_taken s' k.
Proof.
  intros [Hok He]. destruct e; simpl in *; try done. intros [= ->] Hr. subst r. destruct He as [now E].
  apply (claim_frees_id i _ (Consume k expiresAt) s true s'); [|done..]. split; [done|]. by exists now.
Qed.

Lemma burned_stays (i : nat) R (e : heff R) s r s' k : hexec i e s r s' -> id_taken s k -> id_taken s' k.
Proof.
  intros [Hok He]. destruct e; try by subst.
  - destruct He as [now E]. apply (id_stays i _ (Consume id expiresAt) s r s'). split; [done|]. by exists now.
  - destruct He as (now & d & won & E). apply (id_stays i _ (Transition id from to d) s won s').
    split; [done|]. by exists now.
Qed.

(** C20: over any replay store and whatever the interleaving of requests, an
    authorization crosses to the signer at most once, and one that the store
    already held when the process started does not cross at all. *)
Theorem crosses_once inputs s0 s log ts
    (Hreach : pool_reachable (logged (fun i R => @hexec i R)) (crossings inputs) (s0, []) ((s, log), ts)) :
  NoDup (crossed_ids inputs log) /\ (forall k, k ∈ crossed_ids inputs log -> rp_get k s0 = None).
Proof.
  destruct (acts_once _ _ _ burns burn_granted crosses id_taken (crossings_fenced inputs) burn_frees burned_stays
    (fun R e => ltac:(by destruct e)) s0 s log ts Hreach) as [Hn Hk].
  split; [done|]. intros k Hin. apply Hk in Hin. unfold id_taken in Hin. by destruct (rp_get k s0); [destruct Hin|].
Qed.
End HostGateway.

(** *** A host to run *)

Definition demo_signed : SignerSignResponse :=
  {| sg_transaction := "AAI="; sg_signature := "sig"; sg_broadcast := None |}.

Definition demo_sim : SimulationResult :=
  {| sr_success := true; sr_slot := 101; sr_blockhash := "Blockhash"; sr_messageHash := "0x01";
     sr_unitsConsumed := 450; sr_feeLamports := 5000; sr_logs := []; sr_accountStates := [];
     sr_assetDeltas := []; sr_capabilities := Some full_capabilities; sr_err := None |}.

(** A signer that signs and a node that accepts. *)
Definition demo_hexec {R} (e : heff R) : MemoryReplay -> R * MemoryReplay :=
  match e in heff R return MemoryReplay -> R * MemoryReplay with
  | Verifying e => fun s => ((demo_sexec e s).1, s)
  | HSimulate _ => fun s => (inr demo_sim, s)
  | HConsume id x => fun s => rp_consume id x 2000 s
  | HTransition id a b _ => fun s => (tt, (rp_transition id a b None 2000 s).2)
  | HBlockHeight => fun s => (inr (V_number 400), s)
  | HSign _ _ => fun s => (inr demo_signed, s)
  | HBroadcast _ => fun s => (inr "sig", s)
  end.

Lemma demo_hexec_ok i R (e : heff R) (s : MemoryReplay) : hexec i e s (demo_hexec e s).1 (demo_hexec e s).2.
Proof.
  split; [exact I|]. destruct e; cbn [demo_hexec fst snd]; try done.
  - exists 2000. by rewrite <- surjective_pairing.
  - exists 2000, None. eexists. by rewrite <- surjective_pairing.
Qed.

Definition demo_input : AuthorizedExecution := {| ax_transaction := "AAE="; ax_envelope := Some demo_env |}.

(** The same request twice. *)
Definition demo_inputs : list AuthorizedExecution := [demo_input; demo_input].

#[local] Abbreviation demo_execute := (execute demo_decode (Some demo_wire)).

Definition demo_crossing : MemoryReplay * list (nat * event heff) :=
  run_seq (logging (fun _ R => @demo_hexec R)) 0 (map demo_execute demo_inputs) (empty_memory, []).

Lemma demo_crossing_reachable :
  exists ts, pool_reachable (logged (fun i R => @hexec MemoryReplay _ i R))
    (crossings demo_decode (Some demo_wire) demo_inputs) (empty_memory, []) (demo_crossing, ts).
Proof.
  apply (run_pool_seq _ _ (logging (fun _ R => @demo_hexec R))) with (ts := []).
  - apply logging_logged. intros i R e s. apply demo_hexec_ok.
  - apply rtc_refl.
  - intros k p Hk. rewrite list_lookup_fmap in Hk. destruct (demo_inputs !! k) as [i|] eqn:Hi; [|done].
    injection Hk as <-. by exists i.
Qed.

Lemma crosses_once_witness :
  crossed_ids demo_inputs demo_crossing.2 = ["auth_1"] /\ NoDup (crossed_ids demo_inputs demo_crossing.2).
Proof.
  split; [vm_compute; reflexivity|]. destruct demo_crossing_reachable as [ts Hts].
  destruct demo_crossing as [s log].
  exact (proj1 (crosses_once _ _ _ _ _ _ _ Hts)).
Defined.

Definition crossing_trace : list (event heff) := run_trace (fun R => @demo_hexec R) (demo_execute demo_input) empty_memory.

Lemma crossing_traces :
  traces (demo_execute demo_input) crossing_trace (Ret {| br_messageHash := "0x01"; br_signature := "sig" |}).
Proof.
  pose proof (run_traces (fun R => @demo_hexec R) (demo_execute demo_input) empty_memory) as H.
  assert ((run (fun R => @demo_hexec R) (demo_execute demo_input) empty_memory).1 =
    inr {| br_messageHash := "0x01"; br_signature := "sig" |}) as E by (vm_compute; reflexivity).
  by rewrite E in H.
Qed.

Lemma crosses_only_verified_witness :
  exists l1 l2, crossing_trace = l1 ++ Event (HSign "AAE=" demo_env) (inr demo_signed) :: l2 /\
  exists w c d, Some demo_wire = Some w /\ ax_envelope demo_input = Some demo_env /\ claims demo_env = Some c /\
    demo_decode "AAE=" = inr d /\ "AAE=" = wireBase64 d /\ verified w c d "opsig" (rev l1).
Proof.
  exists (take 4 crossing_trace), (drop 5 crossing_trace).
  assert (crossing_trace = take 4 crossing_trace ++ Event (HSign "AAE=" demo_env) (inr demo_signed) :: drop 5 crossing_trace) as E
    by (vm_compute; reflexivity).
  split; [exact E|]. pose proof crossing_traces as Ht. rewrite E in Ht.
  exact (crosses_only_verified demo_decode (Some demo_wire) demo_input _ demo_env _ _ _ _ Ht).
Defined.

Lemma broadcasts_only_recorded_witness :
  exists l1 l2, crossing_trace = l1 ++ Event (HBroadcast "AAI=") (inr "sig") :: l2 /\
  exists w c d s env, Some demo_wire = Some w /\ claims env = Some c /\
    Event (HSign (wireBase64 d) env) (inr s) ∈ rev l1 /\ "AAI=" = sg_transaction s /\
    verified w c d (env_signature env) (rev l1) /\ signatureOf demo_decode "AAI=" = inr (sg_signature s) /\
    Event (HTransition (c_id c) X_claimed X_signed (signed_text s)) tt ∈ rev l1.
Proof.
  exists (take 6 crossing_trace), (drop 7 crossing_trace).
  assert (crossing_trace = take 6 crossing_trace ++ Event (HBroadcast "AAI=") (inr "sig") :: drop 7 crossing_trace) as E
    by (vm_compute; reflexivity).
  split; [exact E|]. pose proof crossing_traces as Ht. rewrite E in Ht.
  exact (broadcasts_only_recorded demo_decode (Some demo_wire) demo_input _ _ _ _ _ Ht).
Defined.
