(* ===== verification/LiveTrading.v ===== *)
(** `src/live-trading/index.ts`: the execution store and the trading orchestrator.

    An execution is a row that moves through [TradeState].  The store's methods
    are functions on its two tables, the orchestrator's methods effect trees over
    the store, the chain, the approval engine, the issuer, the signer, risk and
    reservations.  A JSON payload is the record it parses to, so a read gives back
    what was written and the comparison of payloads inside a transaction holds;
    the migration of old databases is left out. *)
From S2P Require Import Prelude Table Prog Canonical Approvals SignerPolicy SignerEnvelope Simulation Issuer SignerReplay SignerService HostGateway.
From Stdlib Require Import Ascii.
From stdpp Require Import pretty.
#[local] Open Scope string_scope.
#[local] Open Scope list_scope.
#[local] Open Scope Z_scope.

(** *** Data *)

Inductive TradeState : Type :=
  | L_awaiting_approval | L_approved | L_dry_run | L_signing | L_submitting | L_reconciliation_required
  | L_broadcast | L_confirmed | L_finalized | L_failed | L_denied | L_expired | L_dropped.

#[export] Instance TradeState_eq_dec : EqDecision TradeState.
Proof. solve_decision. Defined.

Inductive Commitment : Type := Cm_processed | Cm_confirmed | Cm_finalized.

#[export] Instance Commitment_eq_dec : EqDecision Commitment.
Proof. solve_decision. Defined.

Inductive QuoteSide : Type := S_buy | S_sell | S_revoke.

Record TradingPolicy : Type := {
  tp_version : Z; tp_hash : option string; tp_maxAmountIn : Z; tp_maxSlippageBps : Z;
  tp_approvalRequired : bool; tp_finalityCommitment : Commitment; tp_allowedMints : option (list string)
}.

Record QuoteResult : Type := {
  qr_amountOut : Z; qr_slot : Z; qr_lastValidBlockHeight : Z; qr_expiresAt : Z;
  qr_request : option SimulationRequest; qr_evidence : option SimulationEvidence; qr_route : option value
}.

(** `err` as a condition: whether it is truthy. *)
Record SignatureStatus : Type := { st_slot : Z; st_confirmationStatus : Commitment; st_err : bool }.

(** What `simulate` answers. *)
Inductive SimulateAnswer : Type :=
  | A_evidence (e : SimulationEvidence)
  | A_outcome (success : bool) (slot : Z) (hash : string).

Record Quote : Type := {
  qt_id : string; qt_side : QuoteSide; qt_cluster : string; qt_inputMint : string; qt_outputMint : string;
  qt_amountIn : Z; qt_amountOut : Z; qt_minimumOut : Z; qt_slippageBps : number; qt_slot : Z;
  qt_lastValidBlockHeight : Z; qt_expiresAt : Z; qt_intentHash : string; qt_quoteHash : string;
  qt_policyHash : string; qt_route : option value; qt_request : option SimulationRequest;
  qt_evidence : option SimulationEvidence; qt_transaction : option string; qt_messageHash : option string
}.

Record Execution : Type := {
  e_id : string; e_version : Z; e_quoteId : string; e_quoteHash : option string; e_intentHash : string;
  e_policyHash : option string; e_riskHash : option string; e_reservationId : option string;
  e_simulationHash : option string; e_approvalId : option string; e_authorizationId : option string;
  e_actor : string; e_dryRun : bool; e_idempotencyKey : string; e_state : TradeState;
  e_approver : option string; e_messageHash : option string; e_signature : option string;
  e_slot : option Z; e_lastValidBlockHeight : option Z; e_createdAt : Z; e_updatedAt : Z
}.

(** What `create` is given: the fields of an execution it does not set itself. *)
Record NewExecution : Type := {
  n_quoteId : string; n_quoteHash : option string; n_intentHash : string; n_policyHash : option string;
  n_riskHash : option string; n_reservationId : option string; n_simulationHash : option string;
  n_actor : string; n_dryRun : bool; n_idempotencyKey : string; n_lastValidBlockHeight : option Z
}.

(** `Partial<Execution>`: the fields the code ever changes. *)
Record Patch : Type := {
  p_state : option TradeState; p_approver : option string; p_approvalId : option string;
  p_authorizationId : option string; p_messageHash : option string; p_signature : option string;
  p_slot : option Z; p_lastValidBlockHeight : option Z
}.

Definition no_patch : Patch :=
  {| p_state := None; p_approver := None; p_approvalId := None; p_authorizationId := None;
     p_messageHash := None; p_signature := None; p_slot := None; p_lastValidBlockHeight := None |}.

Definition to_state (st : TradeState) : Patch :=
  {| p_state := Some st; p_approver := None; p_approvalId := None; p_authorizationId := None;
     p_messageHash := None; p_signature := None; p_slot := None; p_lastValidBlockHeight := None |}.

(** *** `ExecutionStore` *)

Record ExecutionStore : Type := { executions : list Execution; quotes : list Quote }.

(** INSERT OR REPLACE: an old row of the id goes, the new one is last. *)
Definition putQuote (q : Quote) (s : ExecutionStore) : ExecutionStore :=
  {| executions := executions s;
     quotes := delete_where (fun x => streq (qt_id x) (qt_id q)) (quotes s) ++ [q] |}.

Definition getQuote (id : string) (s : ExecutionStore) : option Quote := get qt_id id (quotes s).

Definition findQuoteByHash (hash : string) (s : ExecutionStore) : option Quote :=
  List.find (fun q => streq (qt_quoteHash q) hash) (quotes s).

Definition new_row (x : NewExecution) (st : TradeState) (id : string) (now : Z) : Execution :=
  {| e_id := id; e_version := 0; e_quoteId := n_quoteId x; e_quoteHash := n_quoteHash x;
     e_intentHash := n_intentHash x; e_policyHash := n_policyHash x; e_riskHash := n_riskHash x;
     e_reservationId := n_reservationId x; e_simulationHash := n_simulationHash x; e_approvalId := None;
     e_authorizationId := None; e_actor := n_actor x; e_dryRun := n_dryRun x;
     e_idempotencyKey := n_idempotencyKey x; e_state := st; e_approver := None; e_messageHash := None;
     e_signature := None; e_slot := None; e_lastValidBlockHeight := n_lastValidBlockHeight x;
     e_createdAt := now; e_updatedAt := now |}.

(** `create`: both the id and the idempotency key are unique. *)
Definition create (x : NewExecution) (st : TradeState) (id : string) (now : Z) (s : ExecutionStore) :
    result Execution * ExecutionStore :=
  let r := new_row x st id now in
  if has e_idempotencyKey (n_idempotencyKey x) (executions s) then (inl "UNIQUE constraint failed", s)
  else match Table.insert e_id r (executions s) with
       | None => (inl "UNIQUE constraint failed", s)
       | Some t => (inr r, {| executions := t; quotes := quotes s |})
       end.

Definition get_execution (id : string) (s : ExecutionStore) : option Execution := get e_id id (executions s).

Definition byIdempotency (k : string) (s : ExecutionStore) : option Execution :=
  get e_idempotencyKey k (executions s).

Definition list_executions (states : list TradeState) (s : ExecutionStore) : list Execution :=
  select (fun x => includes states (e_state x)) (executions s).

Definition opt {A} (new old : option A) : option A := match new with Some _ => new | None => old end.

(** `{ ...old, ...p, version: old.version + 1, updatedAt: now }` *)
Definition patched (p : Patch) (now : Z) (x : Execution) : Execution :=
  {| e_id := e_id x; e_version := e_version x + 1; e_quoteId := e_quoteId x; e_quoteHash := e_quoteHash x;
     e_intentHash := e_intentHash x; e_policyHash := e_policyHash x; e_riskHash := e_riskHash x;
     e_reservationId := e_reservationId x; e_simulationHash := e_simulationHash x;
     e_approvalId := opt (p_approvalId p) (e_approvalId x);
     e_authorizationId := opt (p_authorizationId p) (e_authorizationId x); e_actor := e_actor x;
     e_dryRun := e_dryRun x; e_idempotencyKey := e_idempotencyKey x; e_state := default (e_state x) (p_state p);
     e_approver := opt (p_approver p) (e_approver x); e_messageHash := opt (p_messageHash p) (e_messageHash x);
     e_signature := opt (p_signature p) (e_signature x); e_slot := opt (p_slot p) (e_slot x);
     e_lastValidBlockHeight := opt (p_lastValidBlockHeight p) (e_lastValidBlockHeight x);
     e_createdAt := e_createdAt x; e_updatedAt := now |}.

(** `transition` *)
Definition transition (id : string) (from : list TradeState) (p : Patch) (version : option Z) (now : Z)
    (s : ExecutionStore) : result Execution * ExecutionStore :=
  match get_execution id s with
  | None => (inl "execution_not_found", s)
  | Some old =>
      if negb (includes from (e_state old)) ||
         match version with Some v => negb (e_version old =? v) | None => false end
      then (inl "state conflict", s)
      else (inr (patched p now old),
            {| executions := update_where (fun x => streq (e_id x) id) (patched p now) (executions s);
               quotes := quotes s |})
  end.

(** `update` *)
Definition update (id : string) (p : Patch) (now : Z) (s : ExecutionStore) : result Execution * ExecutionStore :=
  match get_execution id s with
  | None => (inl "execution_not_found", s)
  | Some x => transition id [e_state x] p (Some (e_version x)) now s
  end.

(** *** Effects of the orchestrator *)

Record QuoteAsk : Type := {
  k_side : QuoteSide; k_inputMint : string; k_outputMint : string; k_amountIn : Z; k_slippageBps : number
}.

(** The references of a submission: what the execution does not have is absent. *)
Record SubmitReferences : Type := {
  s_quoteHash : string; s_policyHash : string; s_policyVersion : Z; s_riskHash : option string;
  s_reservationId : option string; s_approvalId : option string; s_audience : string
}.

Inductive leff : Type -> Type :=
  (** the store: each call is one synchronous statement or transaction *)
  | PutQuote (q : Quote) : leff unit
  | GetQuote (id : string) : leff (option Quote)
  | CreateExecution (x : NewExecution) (st : TradeState) : leff (result Execution)
  | GetExecution (id : string) : leff (option Execution)
  | ByIdempotency (k : string) : leff (option Execution)
  | ListExecutions (states : list TradeState) : leff (list Execution)
  | TransitionExecution (id : string) (from : list TradeState) (p : Patch) : leff (result Execution)
  (** the clock and a uuid *)
  | Clock : leff Z
  | QuoteId : leff string
  (** the chain *)
  | RpcQuote (x : QuoteAsk) : leff (result QuoteResult)
  | RpcRevokeQuote (tokenAccount owner : string) : leff (result QuoteResult)
  | RpcSimulate (q : SimulationRequest) : leff (result SimulateAnswer)
  | RpcSimulateIntent (intentHash : string) (slot : Z) : leff (result SimulateAnswer)
  | RpcBroadcast (wire : string) : leff (result string)
  | RpcStatus (signature : string) : leff (result (option SignatureStatus))
  | RpcBlockHeight : leff (result Z)
  (** risk and reservations *)
  | AssessRisk (q : Quote) (r : SimulationRequest) (e : SimulationEvidence) : leff (result (string * bool))
  | Reserve (quoteHash policyHash messageHash : string) : leff (result string)
  | ReservationValid (id : string) : leff (result bool)
  | ReservationCommit (id : option string) : leff (result bool)
  | ReservationRelease (id : string) : leff (result bool)
  (** the approval engine *)
  | ApprovalRequest (i : ApprovalRequestInput) (quorum : Z) : leff (result unit)
  | ApprovalGet (id : string) : leff (result (option ReqRow))
  | ApprovalDecide (id : string) (i : DecisionInput) : leff (result unit)
  | ApprovalConsume (id : string) (t : BoundTransaction) : leff (result unit)
  (** the issuer and the signer *)
  | IssueAuthorization (r : SimulationRequest) (e : SimulationEvidence) (refs : SubmitReferences) :
      leff (result AuthorizationEnvelope)
  | SignerSign (transaction : string) (env : AuthorizationEnvelope) : leff (result SignerSignResponse)
  | SignerResult (authorizationId messageHash : string) (recoverRaw : bool) : leff (result ResultView).

Definition lprog : Type -> Type := prog leff string.

Definition lcall {R} (e : leff (result R)) : lprog R := bind (trigger e) raise.
Definition ldo {R} (e : leff R) : lprog R := trigger e.
Definition throw_if (b : bool) (code : string) : lprog unit := if b then Throw code else Ret tt.

(** The dependencies that are data, and which of the optional ones are wired. *)
Record Live : Type := {
  lv_cluster : string; lv_account : string; lv_policy : TradingPolicy; lv_enabled : bool;
  lv_audience : option string; lv_signer : bool; lv_signer_result : bool; lv_approvals : bool;
  lv_issuer : bool; lv_risk : bool; lv_reservations : bool; lv_revoke : bool
}.

(** *** Texts that are hashed *)

Definition side_text (s : QuoteSide) : string :=
  match s with S_buy => "buy" | S_sell => "sell" | S_revoke => "revoke" end.

Definition commitment_text (c : Commitment) : string :=
  match c with Cm_processed => "processed" | Cm_confirmed => "confirmed" | Cm_finalized => "finalized" end.

(** A field, left out when it is undefined. *)
Definition field (k : string) (v : option value) : list (string * value) :=
  match v with Some x => [(k, x)] | None => [] end.

Definition policy_value (p : TradingPolicy) : value := V_object (
  [("version", V_number (tp_version p))] ++ field "hash" (V_string <$> tp_hash p) ++
  [("maxAmountIn", V_bigint (tp_maxAmountIn p)); ("maxSlippageBps", V_number (tp_maxSlippageBps p));
   ("approvalRequired", V_bool (tp_approvalRequired p));
   ("finalityCommitment", V_string (commitment_text (tp_finalityCommitment p)))] ++
  field "allowedMints" (strings_value <$> tp_allowedMints p)).

Section LiveTrading.
Context (decodeTransaction : string -> result DecodedTransaction) (isPublicKey : string -> bool)
        (sha256 : string -> string) (c : Live).

#[local] Open Scope prog_scope.

Definition digest (v : value) : string := sha256 (print v).

(** `policyHash` *)
Definition trading_policyHash : string :=
  match tp_hash (lv_policy c) with Some h => h | None => digest (policy_value (lv_policy c)) end.

(** `mint` *)
Definition mint (v label : string) : result string :=
  if isPublicKey v then inr v else inl ("invalid " ++ label)%string.

Definition require (id : string) : lprog Execution :=
  let* x := ldo (GetExecution id) in
  match x with Some x => Ret x | None => Throw "execution_not_found" end.

Definition move (id : string) (from : list TradeState) (p : Patch) : lprog Execution :=
  lcall (TransitionExecution id from p).

(** *** Quotes *)

(** The object whose digest names the intent, and the quote with `amountOut`. *)
Definition quote_core (x : QuoteAsk) (minimumOut : Z) (r : QuoteResult) : list (string * value) :=
  [("side", V_string (side_text (k_side x))); ("cluster", V_string (lv_cluster c));
   ("account", V_string (lv_account c)); ("inputMint", V_string (k_inputMint x));
   ("outputMint", V_string (k_outputMint x)); ("amountIn", V_bigint (k_amountIn x));
   ("minimumOut", V_bigint minimumOut)] ++
  field "route" (qr_route r) ++
  [("policyHash", V_string trading_policyHash); ("slot", V_bigint (qr_slot r));
   ("lastValidBlockHeight", V_number (qr_lastValidBlockHeight r)); ("expiresAt", V_number (qr_expiresAt r))] ++
  field "transaction" ((fun q => V_string (q_transaction q)) <$> qr_request r).

(** `x > z` for an integer [z] *)
Definition num_gtb (x : number) (z : Z) : bool :=
  match x with
  | NaN => false
  | Prelude.Infinite neg => negb neg
  | Finite q => negb (QArith_base.Qle_bool q (QArith_base.inject_Z z))
  end.

(** `BigInt(10000 - x)` *)
Definition complement_bps (x : number) : result Z :=
  match x with
  | Finite q =>
      let z := floor_number x in
      if QArith_base.Qeq_bool q (QArith_base.inject_Z z) then inr (10000 - z) else inl "RangeError"
  | _ => inl "RangeError"
  end.

(** `quote`; [known] is false when the object has a field the API does not know. *)
Definition quote (known : bool) (raw : QuoteAsk) : lprog Quote :=
  throw_if (negb known) "unknown field" ;;
  throw_if (match k_side raw with S_revoke => true | _ => false end) "invalid side" ;;
  throw_if ((k_amountIn raw <=? 0) || (tp_maxAmountIn (lv_policy c) <? k_amountIn raw)) "amount exceeds policy" ;;
  throw_if (num_ltb (k_slippageBps raw) 0 || num_gtb (k_slippageBps raw) (tp_maxSlippageBps (lv_policy c)))
    "slippage exceeds policy" ;;
  let* inputMint := raise (mint (k_inputMint raw) "inputMint") in
  let* outputMint := raise (mint (k_outputMint raw) "outputMint") in
  throw_if (match tp_allowedMints (lv_policy c) with
            | Some l => negb (includes l inputMint) || negb (includes l outputMint)
            | None => false
            end) "mint denied" ;;
  let* r := lcall (RpcQuote raw) in
  let* bps := raise (complement_bps (k_slippageBps raw)) in
  let minimumOut := Z.quot (qr_amountOut r * bps) 10000 in
  let core := quote_core raw minimumOut r in
  let* id := ldo QuoteId in
  let q := {| qt_id := id; qt_side := k_side raw; qt_cluster := lv_cluster c; qt_inputMint := inputMint;
              qt_outputMint := outputMint; qt_amountIn := k_amountIn raw; qt_amountOut := qr_amountOut r;
              qt_minimumOut := minimumOut; qt_slippageBps := k_slippageBps raw; qt_slot := qr_slot r;
              qt_lastValidBlockHeight := qr_lastValidBlockHeight r; qt_expiresAt := qr_expiresAt r;
              qt_intentHash := digest (V_object core);
              qt_quoteHash := digest (V_object (core ++ [("amountOut", V_bigint (qr_amountOut r))]));
              qt_policyHash := trading_policyHash; qt_route := qr_route r; qt_request := qr_request r;
              qt_evidence := qr_evidence r; qt_transaction := q_transaction <$> qr_request r;
              qt_messageHash := q_messageHash <$> qr_request r |} in
  ldo (PutQuote q) ;;
  Ret q.

Definition revoke_core (tokenAccount : string) (r : QuoteResult) (q : SimulationRequest) : list (string * value) :=
  [("side", V_string "revoke"); ("cluster", V_string (lv_cluster c)); ("account", V_string (lv_account c));
   ("tokenAccount", V_string tokenAccount); ("policyHash", V_string trading_policyHash);
   ("slot", V_bigint (qr_slot r)); ("lastValidBlockHeight", V_number (qr_lastValidBlockHeight r));
   ("expiresAt", V_number (qr_expiresAt r)); ("transaction", V_string (q_transaction q))].

(** `revokeQuote` *)
Definition revokeQuote (raw : string) : lprog Quote :=
  let* tokenAccount := raise (mint raw "tokenAccount") in
  throw_if (negb (lv_revoke c)) "revoke_unsupported" ;;
  let* r := lcall (RpcRevokeQuote tokenAccount (lv_account c)) in
  match qr_request r, qr_evidence r with
  | Some rq, Some ev =>
      let core := revoke_core tokenAccount r rq in
      let* id := ldo QuoteId in
      let q := {| qt_id := id; qt_side := S_revoke; qt_cluster := lv_cluster c; qt_inputMint := tokenAccount;
                  qt_outputMint := tokenAccount; qt_amountIn := 0; qt_amountOut := qr_amountOut r;
                  qt_minimumOut := 0; qt_slippageBps := js_num 0; qt_slot := qr_slot r;
                  qt_lastValidBlockHeight := qr_lastValidBlockHeight r; qt_expiresAt := qr_expiresAt r;
                  qt_intentHash := digest (V_object core);
                  qt_quoteHash := digest (V_object (core ++ [("evidenceHash", V_string (se_hash ev))]));
                  qt_policyHash := trading_policyHash; qt_route := qr_route r; qt_request := qr_request r;
                  qt_evidence := qr_evidence r; qt_transaction := Some (q_transaction rq);
                  qt_messageHash := Some (q_messageHash rq) |} in
      ldo (PutQuote q) ;;
      Ret q
  | _, _ => Throw "exact_transaction_required"
  end.

(** *** The approval engine's view of an execution *)

Definition join_comma (l : list string) : string := Canonical.join l.

(** `binding` *)
Definition binding (q : Quote) (r : SimulationRequest) (e : SimulationEvidence) : BoundTransaction :=
  {| Approvals.chain := qt_cluster q;
     Approvals.serializedTransaction := V_object
       [("transaction", V_string (q_transaction r)); ("message", V_string (q_message r));
        ("messageHash", V_string (q_messageHash r)); ("feePayer", V_string (q_feePayer r));
        ("recentBlockhash", V_string (q_recentBlockhash r));
        ("lastValidBlockHeight", V_number (q_lastValidBlockHeight r));
        ("programIds", strings_value (q_programIds r)); ("accountKeys", strings_value (q_accountKeys r));
        ("instructions", V_array (map summary_value (q_instructions r)));
        ("addressTableLookups", strings_value (q_addressTableLookups r));
        ("to", V_string (join_comma (q_programIds r))); ("data", V_string (q_message r));
        ("value", V_string (pretty (qt_amountIn q))); ("nonce", V_string (q_recentBlockhash r))];
     Approvals.intentHash := qt_intentHash q; Approvals.policyHash := qt_policyHash q;
     Approvals.policyVersion := pretty (tp_version (lv_policy c)); Approvals.simulationHash := se_hash e;
     Approvals.simulationBlock := pretty (eb_slot (se_body e));
     Approvals.simulationState := eb_blockhash (se_body e); Approvals.account := q_feePayer r;
     Approvals.nonce := q_recentBlockhash r; Approvals.value_ := pretty (qt_amountIn q);
     Approvals.calldata := q_message r; Approvals.router := join_comma (q_programIds r) |}.

(** *** `execute` *)

Record ExecOptions : Type := { ox_idempotencyKey : string; ox_actor : string; ox_dryRun : option bool }.

(** The evidence `execute` goes on with. *)
Definition simulate_again (q : Quote) : lprog (option SimulationEvidence) :=
  match qt_request q with
  | Some r =>
      let* got := lcall (RpcSimulate r) in
      match got with
      | A_evidence e => Ret (Some e)
      | A_outcome _ _ _ => Throw "simulation_evidence_required"
      end
  | None =>
      let* got := lcall (RpcSimulateIntent (qt_intentHash q) (qt_slot q)) in
      match got with
      | A_outcome true _ _ => Ret (qt_evidence q)
      | _ => Throw "simulation_failed"
      end
  end.

Definition new_execution (q : Quote) (quoteId : string) (o : ExecOptions) (dryRun : bool)
    (risk reservation simulation : option string) (last : option Z) : NewExecution :=
  {| n_quoteId := quoteId; n_quoteHash := Some (qt_quoteHash q); n_intentHash := qt_intentHash q;
     n_policyHash := Some (qt_policyHash q); n_riskHash := risk; n_reservationId := reservation;
     n_simulationHash := simulation; n_actor := ox_actor o; n_dryRun := dryRun;
     n_idempotencyKey := ox_idempotencyKey o; n_lastValidBlockHeight := last |}.

Definition assess (q : Quote) (r : SimulationRequest) (e : SimulationEvidence) : lprog (option string) :=
  if lv_risk c then
    let* v := lcall (AssessRisk q r e) in
    throw_if (negb (snd v)) "risk_denied" ;;
    Ret (Some (fst v))
  else Ret None.

Definition reserve (q : Quote) (r : SimulationRequest) : lprog (option string) :=
  if lv_reservations c then
    let* id := lcall (Reserve (qt_quoteHash q) (qt_policyHash q) (q_messageHash r)) in
    Ret (truthy (Some id))
  else Ret None.

(** What follows the creation of a live execution. *)
Definition queue (q : Quote) (r : SimulationRequest) (e : SimulationEvidence) (o : ExecOptions) (x : Execution) :
    lprog Execution :=
  if negb (tp_approvalRequired (lv_policy c)) then move (e_id x) [L_awaiting_approval] (to_state L_approved)
  else
    (if lv_approvals c then
       lcall (ApprovalRequest {| Approvals.in_id := e_id x; Approvals.in_type := "sign";
                Approvals.proposerId := ox_actor o; Approvals.in_tx := binding q r e;
                Approvals.in_expiresAt := qt_expiresAt q; Approvals.displayImpact := None |} 1)
     else Ret tt) ;;
    move (e_id x) [L_awaiting_approval]
      {| p_state := None; p_approver := None; p_approvalId := Some (e_id x); p_authorizationId := None;
         p_messageHash := None; p_signature := None; p_slot := None; p_lastValidBlockHeight := None |}.

(** `execute`, past the simulation of a live order *)
Definition execute_live (quoteId : string) (q : Quote) (r : SimulationRequest) (e : SimulationEvidence)
    (o : ExecOptions) : lprog Execution :=
  throw_if (negb (streq (eb_messageHash (se_body e)) (q_messageHash r))) "simulation_transaction_mismatch" ;;
  let* height := lcall RpcBlockHeight in
  throw_if (qt_lastValidBlockHeight q <? height) "blockhash_expired" ;;
  let* risk := assess q r e in
  let* reservation := reserve q r in
  let* x := lcall (CreateExecution (new_execution q quoteId o false risk reservation (Some (se_hash e))
                     (Some (qt_lastValidBlockHeight q))) L_awaiting_approval) in
  queue q r e o x.

Definition execute (quoteId : string) (o : ExecOptions) : lprog Execution :=
  let* old := ldo (ByIdempotency (ox_idempotencyKey o)) in
  match old with
  | Some x => Ret x
  | None =>
      let* q := ldo (GetQuote quoteId) in
      match q with
      | None => Throw "quote_not_found"
      | Some q =>
          let* now := ldo Clock in
          throw_if (qt_expiresAt q <? now) "quote_expired" ;;
          let dryRun := default true (ox_dryRun o) in
          throw_if (negb dryRun && negb (lv_enabled c)) "live_trading_disabled" ;;
          let* evidence := simulate_again q in
          if dryRun then
            lcall (CreateExecution (new_execution q quoteId o true None None (se_hash <$> evidence) None) L_dry_run)
          else
            match qt_request q, evidence with
            | Some r, Some e => execute_live quoteId q r e o
            | _, _ => Throw "exact_transaction_required"
            end
      end
  end.

(** `revoke` *)
Definition revoke (tokenAccount : string) (o : ExecOptions) : lprog Execution :=
  let* old := ldo (ByIdempotency (ox_idempotencyKey o)) in
  match old with
  | Some x => Ret x
  | None => let* q := revokeQuote tokenAccount in execute (qt_id q) o
  end.

(** `assertExact` *)
Definition assertExact (id : string) (r : SimulationRequest) : lprog bool :=
  let* x := require id in
  let* q := ldo (GetQuote (e_quoteId x)) in
  match q ≫= qt_request with
  | Some r' =>
      throw_if (negb (streq (q_transaction r') (q_transaction r)) || negb (streq (q_messageHash r') (q_messageHash r)))
        "exact transaction mismatch" ;;
      Ret true
  | None => Throw "exact transaction mismatch"
  end.

(** *** Decisions *)

Definition decided (st : TradeState) (operator : option string) : Patch :=
  {| p_state := Some st; p_approver := truthy operator; p_approvalId := None; p_authorizationId := None;
     p_messageHash := None; p_signature := None; p_slot := None; p_lastValidBlockHeight := None |}.

(** `refreshApproval` *)
Definition refreshApproval (id : string) (operator : option string) : lprog Execution :=
  let* x := require id in
  if negb (bool_decide (e_state x = L_awaiting_approval)) then Ret x
  else
    match truthy (e_approvalId x) with
    | None => Throw "approval unavailable"
    | Some approvalId =>
        throw_if (negb (lv_approvals c)) "approval unavailable" ;;
        let* a := lcall (ApprovalGet approvalId) in
        match a with
        | None => Throw "approval record missing"
        | Some a =>
            if bool_decide (rq_status a = Approvals.denied) then
              move id [L_awaiting_approval] (decided L_denied operator)
            else if bool_decide (rq_status a = Approvals.approved) then
              move id [L_awaiting_approval] (decided L_approved operator)
            else Ret x
        end
    end.

(** The decision the orchestrator passes on: the operator is the caller. *)
Definition decision_by (operator : string) (approve : option bool) (i : DecisionInput) : DecisionInput :=
  {| Approvals.operatorId := operator; Approvals.approve := default (Approvals.approve i) approve;
     Approvals.in_challenge := Approvals.in_challenge i; Approvals.in_nonce := Approvals.in_nonce i;
     Approvals.expectedRevision := Approvals.expectedRevision i; Approvals.timestamp := Approvals.timestamp i;
     Approvals.proof := Approvals.proof i; Approvals.reason := Approvals.reason i |}.

(** `approve` *)
Definition approve (id operator : string) (input : option DecisionInput) : lprog Execution :=
  let* x := require id in
  throw_if (streq (e_actor x) operator) "self approval prohibited" ;;
  throw_if (negb (bool_decide (e_state x = L_awaiting_approval))) "not awaiting approval" ;;
  (match input, truthy (e_approvalId x) with
   | Some i, Some approvalId =>
       if lv_approvals c then lcall (ApprovalDecide approvalId (decision_by operator None i)) else Ret tt
   | _, _ => throw_if (lv_approvals c) "decision proof required"
   end) ;;
  refreshApproval id (Some operator).

(** `deny` *)
Definition deny (id operator : string) (input : option DecisionInput) : lprog Execution :=
  let* x := require id in
  throw_if (negb (bool_decide (e_state x = L_awaiting_approval))) "not awaiting approval" ;;
  match input, truthy (e_approvalId x) with
  | Some i, Some approvalId =>
      throw_if (negb (lv_approvals c)) "decision proof required" ;;
      lcall (ApprovalDecide approvalId (decision_by operator (Some false) i)) ;;
      refreshApproval id (Some operator)
  | _, _ => Throw "decision proof required"
  end.

(** *** Submission *)

(** `if (id) await reservations?.release(id)` *)
Definition release (id : option string) : lprog unit :=
  match truthy id with
  | Some r => if lv_reservations c then lcall (ReservationRelease r) ;; Ret tt else Ret tt
  | None => Ret tt
  end.

Definition commit (id : option string) : lprog unit :=
  if lv_reservations c then lcall (ReservationCommit id) ;; Ret tt else Ret tt.

(** `expire` *)
Definition expire (id : string) (from : list TradeState) : lprog Execution :=
  let* x := ldo (GetExecution id) in
  release (x ≫= e_reservationId) ;;
  move id from (to_state L_expired).

(** `assertSignedTransaction` *)
Definition assertSignedTransaction (transaction signature : option string) : result string :=
  match transaction, truthy signature with
  | Some t, Some sg =>
      match signatureOf decodeTransaction t with
      | inr attached => if streq attached sg then inr attached else inl "invalid_signer_response"
      | inl _ => inl "invalid_signer_response"
      end
  | _, _ => inl "invalid_signer_response"
  end.

Definition references (q : Quote) (x : Execution) : SubmitReferences :=
  {| s_quoteHash := qt_quoteHash q; s_policyHash := qt_policyHash q; s_policyVersion := tp_version (lv_policy c);
     s_riskHash := e_riskHash x; s_reservationId := e_reservationId x; s_approvalId := e_approvalId x;
     s_audience := default "signer" (lv_audience c) |}.

Definition authorized_by (id : string) : Patch :=
  {| p_state := None; p_approver := None; p_approvalId := None; p_authorizationId := Some id;
     p_messageHash := None; p_signature := None; p_slot := None; p_lastValidBlockHeight := None |}.

Definition signed_as (authorizationId : option string) (messageHash signature : string) (last : Z) : Patch :=
  {| p_state := Some L_submitting; p_approver := None; p_approvalId := None; p_authorizationId := authorizationId;
     p_messageHash := Some messageHash; p_signature := Some signature; p_slot := None;
     p_lastValidBlockHeight := Some last |}.

Definition landed_as (signature : string) : Patch :=
  {| p_state := Some L_broadcast; p_approver := None; p_approvalId := None; p_authorizationId := None;
     p_messageHash := None; p_signature := Some signature; p_slot := None; p_lastValidBlockHeight := None |}.

Definition env_id (env : AuthorizationEnvelope) : string :=
  match claims env with Some cl => c_id cl | None => "" end.

(** The `try` block of `submit` *)
Definition sign_and_send (id : string) (q : Quote) (r : SimulationRequest) (e : SimulationEvidence)
    (x : Execution) : lprog Execution :=
  let* env := lcall (IssueAuthorization r e (references q x)) in
  move id [L_signing] (authorized_by (env_id env)) ;;
  let* signed := lcall (SignerSign (q_transaction r) env) in
  let* signature := raise (assertSignedTransaction (Some (sg_transaction signed)) (Some (sg_signature signed))) in
  let* x := move id [L_signing] (signed_as (Some (env_id env)) (q_messageHash r) signature (qt_lastValidBlockHeight q)) in
  let* landed := match sg_broadcast signed with
                 | Some b => Ret b
                 | None => lcall (RpcBroadcast (sg_transaction signed))
                 end in
  throw_if (negb (streq landed signature)) "broadcast_signature_mismatch" ;;
  commit (e_reservationId x) ;;
  move id [L_submitting] (landed_as landed).

(** Its handler. *)
Definition submit_failed (id error : string) : lprog Execution :=
  let* now := require id in
  (if bool_decide (e_state now = L_submitting)
   then move id [L_submitting] (to_state L_reconciliation_required) ;; Ret tt else Ret tt) ;;
  Throw error.

(** `submit`, once the execution may be signed for *)
Definition submit_live (id : string) (x : Execution) (q : Quote) (r : SimulationRequest) (e : SimulationEvidence) :
    lprog Execution :=
  let* now := ldo Clock in
  throw_if (qt_expiresAt q <=? now) "quote_expired" ;;
  let* height := lcall RpcBlockHeight in
  if qt_lastValidBlockHeight q <? height then expire id [e_state x] ;; Throw "blockhash_expired"
  else
    (match truthy (e_reservationId x) with
     | Some rid =>
         if lv_reservations c then
           let* ok := lcall (ReservationValid rid) in throw_if (negb ok) "reservation_invalid"
         else Ret tt
     | None => Ret tt
     end) ;;
    match truthy (e_approvalId x) with
    | None => Throw "approval unavailable"
    | Some approvalId =>
        throw_if (negb (lv_approvals c)) "approval unavailable" ;;
        let* a := lcall (ApprovalGet approvalId) in
        (if match a with Some row => bool_decide (rq_status row = Approvals.consumed) | None => false end
         then Ret tt else lcall (ApprovalConsume approvalId (binding q r e))) ;;
        let* x := (if bool_decide (e_state x = L_approved) then move id [L_approved] (to_state L_signing) else Ret x) in
        catch (sign_and_send id q r e x) (submit_failed id)
    end.

(** `submit` *)
Definition submit (id : string) : lprog Execution :=
  let* x := require id in
  throw_if (negb (bool_decide (e_state x = L_approved)) && negb (bool_decide (e_state x = L_signing)))
    (if bool_decide (e_state x = L_submitting) then "submission in progress" else "not approved") ;;
  let* q := ldo (GetQuote (e_quoteId x)) in
  match q with
  | Some q =>
      match qt_request q, qt_evidence q with
      | Some r, Some e =>
          throw_if (negb (lv_enabled c) || negb (lv_signer c) || negb (lv_issuer c)) "signer unavailable" ;;
          submit_live id x q r e
      | _, _ => Throw "exact_transaction_required"
      end
  | None => Throw "exact_transaction_required"
  end.

(** *** Recovery and reconciliation *)

(** `recover` *)
Definition recover (id : string) : lprog Execution :=
  let* x := require id in
  if bool_decide (e_state x = L_submitting) then move id [L_submitting] (to_state L_reconciliation_required)
  else Ret x.

(** `recoverSigning`, with the signer's answer *)
Definition resume (row : Execution) (q : Quote) (r : SimulationRequest) (signed : ResultView) : lprog Execution :=
  match signed with
  | V_expired => expire (e_id row) [L_signing] ;; Throw "authorization_expired"
  | V_not_found => Throw "signer_result_not_found"
  | V_signed sg tx =>
      match truthy tx with
      | None => Throw "signer_result_raw_unavailable"
      | Some t =>
          let* signature := raise (assertSignedTransaction (Some t) sg) in
          let* x := move (e_id row) [L_signing] (signed_as None (q_messageHash r) signature (qt_lastValidBlockHeight q)) in
          let* landed := lcall (RpcBroadcast t) in
          if negb (streq landed signature) then
            move (e_id row) [L_submitting] (to_state L_reconciliation_required) ;;
            Throw "broadcast_signature_mismatch"
          else
            commit (e_reservationId x) ;;
            move (e_id row) [L_submitting] (landed_as landed)
      end
  end.

(** `recoverSigning` *)
Definition recoverSigning (row : Execution) : lprog Execution :=
  let* q := ldo (GetQuote (e_quoteId row)) in
  match q with
  | Some q =>
      match qt_request q with
      | Some r =>
          match truthy (e_authorizationId row) with
          | None => submit (e_id row)
          | Some authorizationId =>
              throw_if (negb (lv_signer c) || negb (lv_signer_result c)) "signer_result_unavailable" ;;
              let* signed := lcall (SignerResult authorizationId (q_messageHash r) true) in
              resume row q r signed
          end
      | None => Throw "exact_transaction_required"
      end
  | None => Throw "exact_transaction_required"
  end.

Definition settled_as (st : TradeState) (signature : string) (slot : Z) : Patch :=
  {| p_state := Some st; p_approver := None; p_approvalId := None; p_authorizationId := None;
     p_messageHash := None; p_signature := Some signature; p_slot := Some slot; p_lastValidBlockHeight := None |}.

(** The state a status without an error settles an execution in. *)
Definition settled (st : SignatureStatus) : TradeState :=
  if bool_decide (st_confirmationStatus st = Cm_finalized) ||
     (bool_decide (tp_finalityCommitment (lv_policy c) = Cm_confirmed) &&
      bool_decide (st_confirmationStatus st = Cm_confirmed))
  then L_finalized else L_confirmed.

(** `reconcile` *)
Definition reconcile (id : string) : lprog Execution :=
  let* x := require id in
  match truthy (e_signature x) with
  | None => Throw "transaction_not_broadcast"
  | Some signature =>
      let* status := lcall (RpcStatus signature) in
      match status with
      | None =>
          let* dead := match e_lastValidBlockHeight x with
                       | Some last => let* height := lcall RpcBlockHeight in Ret (last <? height)
                       | None => Ret false
                       end in
          if dead then
            release (e_reservationId x) ;;
            move id [e_state x] (to_state L_dropped)
          else if bool_decide (e_state x = L_reconciliation_required) then Ret x
          else move id [e_state x] (to_state L_reconciliation_required)
      | Some st =>
          if st_err st then move id [e_state x] (settled_as L_failed signature (st_slot st))
          else move id [e_state x] (settled_as (settled st) signature (st_slot st))
      end
  end.

Record RecoveryReport : Type := { rr_scanned : nat; rr_recovered : nat; rr_reconciled : nat; rr_failed : nat }.

(** One turn of the loop of `recoverAndReconcile`. *)
Definition recover_row (row : Execution) (rep : RecoveryReport) : lprog RecoveryReport :=
  catch
    (if bool_decide (e_state row = L_signing) then
       recoverSigning row ;;
       Ret {| rr_scanned := rr_scanned rep; rr_recovered := S (rr_recovered rep);
              rr_reconciled := rr_reconciled rep; rr_failed := rr_failed rep |}
     else if bool_decide (e_state row = L_submitting) then
       recover (e_id row) ;;
       Ret {| rr_scanned := rr_scanned rep; rr_recovered := S (rr_recovered rep);
              rr_reconciled := rr_reconciled rep; rr_failed := rr_failed rep |}
     else
       reconcile (e_id row) ;;
       Ret {| rr_scanned := rr_scanned rep; rr_recovered := rr_recovered rep;
              rr_reconciled := S (rr_reconciled rep); rr_failed := rr_failed rep |})
    (fun _ => Ret {| rr_scanned := rr_scanned rep; rr_recovered := rr_recovered rep;
                     rr_reconciled := rr_reconciled rep; rr_failed := S (rr_failed rep) |}).

Fixpoint recover_rows (rows : list Execution) (rep : RecoveryReport) : lprog RecoveryReport :=
  match rows with
  | [] => Ret rep
  | row :: rows' => let* rep' := recover_row row rep in recover_rows rows' rep'
  end.

Definition OPEN_STATES : list TradeState :=
  [L_signing; L_submitting; L_reconciliation_required; L_broadcast; L_confirmed].

(** `recoverAndReconcile` *)
Definition recoverAndReconcile (limit : Z) : lprog RecoveryReport :=
  let* all := ldo (ListExecutions OPEN_STATES) in
  let rows := take (Z.to_nat (Z.max 0 limit)) all in
  recover_rows rows {| rr_scanned := length rows; rr_recovered := 0; rr_reconciled := 0; rr_failed := 0 |}.

Record StatusView : Type := {
  sv_execution : Execution; sv_challenge : option string; sv_approvalRevision : option Z
}.

(** `status` *)
Definition status (id : string) : lprog StatusView :=
  let* x := require id in
  let plain := {| sv_execution := x; sv_challenge := None; sv_approvalRevision := None |} in
  match truthy (e_approvalId x) with
  | None => Ret plain
  | Some approvalId =>
      if negb (lv_approvals c) then Ret plain
      else
        let* a := lcall (ApprovalGet approvalId) in
        match a with
        | Some row => Ret {| sv_execution := x; sv_challenge := Some (rq_challenge row);
                             sv_approvalRevision := Some (rq_revision row) |}
        | None => Ret plain
        end
  end.
End LiveTrading.
