(* ===== verification/SignerClient.v ===== *)
(** `UnixSignerClient` of `src/live-trading/index.ts`: the host's end of the
    signer's socket.

    The socket is an effect of the caller; a method is a function of the line it
    got, parsed ([None]: not JSON).  The deadline and socket errors reject. *)
From S2P Require Import Prelude Prog Canonical SignerPolicy SignerEnvelope SignerReplay SignerService Simulation RpcSimulator HostGateway Approvals Issuer LiveTrading.
#[local] Open Scope string_scope.
#[local] Open Scope list_scope.
#[local] Open Scope Z_scope.
#[local] Open Scope result_scope.

(** `r.result ?? r`, or the error the daemon reported. *)
Definition client_answer (line : option value) : result value :=
  match line with
  | None | Some V_null => inl "invalid_signer_response"
  | Some r =>
      if truthy_value (member r "error") || match member r "ok" with Some (V_bool false) => true | _ => false end
      then inl (match member r "error" with Some e => js_string e | None => "" end)
      else inr (match member r "result" with Some V_null | None => r | Some x => x end)
  end.

(** `typeof v[key] === "string"`, the text then. *)
Definition text_member (v : value) (key : string) : option string :=
  match member v key with Some (V_string s) => Some s | _ => None end.

Section Client.
Context (decodeTransaction : string -> result DecodedTransaction) (isPublicKey : string -> bool).

Definition is_some {A} (o : option A) : bool := match o with Some _ => true | None => false end.

(** `status` *)
Definition client_status (line : option value) : result value :=
  let? v := client_answer line in
  check negb (match text_member v "account" with Some a => isPublicKey a | None => false end) ||
        negb (is_some (truthy (text_member v "cluster"))) || negb (is_some (text_member v "policyHash")) ||
        negb (match member v "policyVersion" with Some x => is_some (safe_integer x) | None => false end) ||
        negb (is_some (text_member v "authorizationKeyId")) || negb (is_some (text_member v "serviceVersion"))
  else "invalid_signer_status";
  inr v.

(** `probe` *)
Definition client_probe (line : option value) : bool :=
  match client_status line with inr _ => true | inl _ => false end.

(** `sign` *)
Definition client_sign (line : option value) : result SignerSignResponse :=
  let? v := client_answer line in
  let? signature := assertSignedTransaction decodeTransaction (text_member v "transaction") (text_member v "signature") in
  check negb (match member v "broadcast" with Some b => is_text b signature | None => true end)
  else "invalid_signer_response";
  inr {| sg_transaction := default "" (text_member v "transaction"); sg_signature := signature;
         sg_broadcast := text_member v "broadcast" |}.

(** `result` *)
Definition client_result (line : option value) : result ResultView :=
  let? v := client_answer line in
  let state := default V_null (member v "state") in
  if is_text state "expired" then inr V_expired
  else if is_text state "not_found" then inr V_not_found
  else
    check negb (is_text state "signed") || negb (is_some (truthy (text_member v "signature")))
    else "invalid_signer_response";
    let? _s := match member v "transaction" with
               | Some _ => assertSignedTransaction decodeTransaction (text_member v "transaction") (text_member v "signature")
               | None => inr ""
               end in
    inr (V_signed (text_member v "signature") (text_member v "transaction")).

(** *** What the answers carry *)

Lemma assertSigned_inv t sg s :
  assertSignedTransaction decodeTransaction t sg = inr s ->
  exists tx, t = Some tx /\ sg = Some s /\ s <> "" /\ signatureOf decodeTransaction tx = inr s.
Proof.
  unfold assertSignedTransaction, truthy. destruct t as [tx|]; [|done]. destruct sg as [g|]; [|done].
  destruct (streq g "") eqn:Eg; [done|]. destruct (signatureOf _ tx) as [?|x] eqn:Ex; [done|].
  destruct (streq x g) eqn:E; [|done]. intros [= <-]. bool_hyps. subst. exists tx. by split_and!.
Qed.

(** A signing answer that is accepted reports the signature its bytes carry, and
    a broadcast of that signature if any: the check the orchestrator makes of it
    again passes. *)
Lemma client_sign_attached line r :
  client_sign line = inr r ->
  assertSignedTransaction decodeTransaction (Some (sg_transaction r)) (Some (sg_signature r)) = inr (sg_signature r) /\
  (forall b, sg_broadcast r = Some b -> b = sg_signature r).
Proof.
  unfold client_sign. intros H. open_result H.
  match goal with H : assertSignedTransaction _ _ _ = inr _ |- _ => pose proof H as (tx & Et & Es & Hne & Hs)%assertSigned_inv end.
  injection H as <-. cbn [sg_transaction sg_signature sg_broadcast]. split.
  - rewrite Et. change (default "" (Some tx)) with tx. congruence.
  - intros b Hbr. assert (member a "broadcast" = Some (V_string b)) as E
      by (unfold text_member in Hbr; destruct (member a "broadcast") as [[]|]; congruence).
    rewrite E in Hb. cbn in Hb. by bool_hyps.
Qed.

(** A recovered result that carries bytes carries them with its signature. *)
Lemma client_result_attached line sg tx :
  client_result line = inr (V_signed sg (Some tx)) ->
  exists s, sg = Some s /\ signatureOf decodeTransaction tx = inr s.
Proof.
  unfold client_result. destruct (client_answer line) as [e|v]; cbn [rbind]; [done|].
  destruct (is_text _ "expired"); [done|]. destruct (is_text _ "not_found"); [done|]. intros H. open_result H.
  injection H as <- Et.
  assert (exists w, member v "transaction" = Some w) as [w Ew]
    by (unfold text_member in Et; destruct (member v "transaction"); eauto; done).
  match goal with H : match member v "transaction" with _ => _ end = inr _ |- _ =>
    rewrite Ew in H; apply assertSigned_inv in H as (t & Ht & Hs & _ & Hsig) end.
  eexists. split; [exact Hs|]. congruence.
Qed.
End Client.
