(* ===== verification/LiveSafety.v ===== *)
(** What the orchestrator of live trading guarantees.

    For any interleaving of its methods over one store: the lifecycle of an
    execution, what the cluster must have answered for each of its late moves, and
    that its signature is set once and never changes. *)
From S2P Require Import Prelude Table Prog Canonical Approvals SignerPolicy SignerEnvelope Simulation Issuer SignerReplay SignerService SignerSafety HostGateway LiveTrading.
From stdpp Require Import pretty.
#[local] Open Scope string_scope.
#[local] Open Scope list_scope.
#[local] Open Scope Z_scope.
#[local] Open Scope prog_scope.

(** *** The store as the environment of the effects *)

Definition lstore {R} (e : leff R) (s : ExecutionStore) (r : R) (s' : ExecutionStore) : Prop :=
  match e in leff R return R -> Prop with
  | PutQuote q => fun _ => s' = putQuote q s
  | GetQuote id => fun r => r = getQuote id s /\ s' = s
  | CreateExecution x st => fun r => exists id now, (r, s') = create x st id now s
  | GetExecution id => fun r => r = get_execution id s /\ s' = s
  | ByIdempotency k => fun r => r = byIdempotency k s /\ s' = s
  | ListExecutions l => fun r => r = list_executions l s /\ s' = s
  | TransitionExecution id from p => fun r => exists now, (r, s') = LiveTrading.transition id from p None now s
  | _ => fun _ => s' = s
  end r.

(** What the cluster answers. *)
Inductive Heard : Type :=
  | H_status (signature : string) (st : option SignatureStatus)
  | H_height (height : Z).

Definition heard {R} (e : leff R) : R -> list Heard :=
  match e in leff R return R -> list Heard with
  | RpcStatus sg => fun r => match r with inr st => [H_status sg st] | inl _ => [] end
  | RpcBlockHeight => fun r => match r with inr h => [H_height h] | inl _ => [] end
  | _ => fun _ => []
  end.

(** The store, and as a ghost all the cluster has answered so far. *)
Record World : Type := { w_store : ExecutionStore; w_heard : list Heard }.

Definition lexec (i : nat) {R} (e : leff R) (w : World) (r : R) (w' : World) : Prop :=
  lstore e (w_store w) r (w_store w') /\ w_heard w' = w_heard w ++ heard e r.

(** *** The lifecycle of an execution *)

Definition SIGNED_STATES : list TradeState :=
  [L_submitting; L_reconciliation_required; L_broadcast; L_confirmed; L_finalized; L_failed; L_dropped].

(** The moves the orchestrator makes by itself. *)
Inductive live_edge : TradeState -> TradeState -> Prop :=
  | le_queued : live_edge L_awaiting_approval L_awaiting_approval
  | le_decided st : st = L_approved \/ st = L_denied -> live_edge L_awaiting_approval st
  | le_signing : live_edge L_approved L_signing
  | le_authorized : live_edge L_signing L_signing
  | le_expired st : st = L_approved \/ st = L_signing -> live_edge st L_expired
  | le_signed : live_edge L_signing L_submitting
  | le_broadcast : live_edge L_submitting L_broadcast
  | le_unresolved : live_edge L_submitting L_reconciliation_required.

(** A status that counts as final under the policy. *)
Definition final (c : Live) (st : SignatureStatus) : Prop :=
  st_confirmationStatus st = Cm_finalized \/
  (tp_finalityCommitment (lv_policy c) = Cm_confirmed /\ st_confirmationStatus st = Cm_confirmed).

(** The moves of a signed execution the cluster's answers about its own signature
    make, whatever state it is in. *)
Definition answered (c : Live) (h : list Heard) (x y : Execution) : Prop :=
  exists sg, e_signature x = Some sg /\
    match e_state y with
    | L_reconciliation_required => H_status sg None ∈ h
    | L_dropped => H_status sg None ∈ h /\
        exists last height, e_lastValidBlockHeight x = Some last /\ H_height height ∈ h /\ last < height
    | L_failed => exists st, H_status sg (Some st) ∈ h /\ st_err st = true /\ e_slot y = Some (st_slot st)
    | L_finalized => exists st, H_status sg (Some st) ∈ h /\ st_err st = false /\ e_slot y = Some (st_slot st) /\ final c st
    | L_confirmed => exists st, H_status sg (Some st) ∈ h /\ st_err st = false /\ e_slot y = Some (st_slot st) /\ ~ final c st
    | _ => False
    end.

(** What no transition changes. *)
Definition same_order (x y : Execution) : Prop :=
  e_id y = e_id x /\ e_quoteId y = e_quoteId x /\ e_quoteHash y = e_quoteHash x /\
  e_intentHash y = e_intentHash x /\ e_policyHash y = e_policyHash x /\ e_riskHash y = e_riskHash x /\
  e_reservationId y = e_reservationId x /\ e_simulationHash y = e_simulationHash x /\ e_actor y = e_actor x /\
  e_dryRun y = e_dryRun x /\ e_idempotencyKey y = e_idempotencyKey x /\ e_createdAt y = e_createdAt x.

(** What a signature fixes. *)
Definition same_signed (x y : Execution) : Prop :=
  forall sg, e_signature x = Some sg -> e_signature y = Some sg /\ e_lastValidBlockHeight y = e_lastValidBlockHeight x.

(** One transition of a row. *)
Record moved (c : Live) (h : list Heard) (x y : Execution) : Prop := {
  mo_same : same_order x y;
  mo_version : e_version y = e_version x + 1;
  mo_edge : live_edge (e_state x) (e_state y) \/ (e_state x ∈ SIGNED_STATES /\ answered c h x y);
  mo_signature : same_signed x y
}.

(** A row carries a signature exactly from `submitting` on. *)
Definition row_ok (x : Execution) : Prop :=
  (exists sg, e_signature x = Some sg) <-> e_state x ∈ SIGNED_STATES.

(** Any number of transitions. *)
Record later (x y : Execution) : Prop := {
  la_same : same_order x y;
  la_version : e_version x <= e_version y;
  la_signature : same_signed x y
}.

Lemma later_refl x : later x x.
Proof. split; [by split_and!|lia|by intros sg]. Qed.

Lemma later_moved c h x y z : later x y -> moved c h y z -> later x z.
Proof.
  intros [H1 H2 H3] [H5 H6 H7 H8]. split; [|lia|].
  - unfold same_order in *. destruct_and!. split_and!; congruence.
  - intros sg Hx. destruct (H3 sg Hx) as [Hy El]. destruct (H8 sg Hy) as [Hz El']. split; congruence.
Qed.

(** *** What a run may ask of the store *)

(** The rows a run has seen, and the answers of the cluster it got. *)
Record Seen : Type := { sn_rows : list Execution; sn_heard : list Heard }.

Definition nothing_seen : Seen := {| sn_rows := []; sn_heard := [] |}.
Definition learn (l : list Execution) (g : Seen) : Seen := {| sn_rows := l ++ sn_rows g; sn_heard := sn_heard g |}.
Definition hear (l : list Heard) (g : Seen) : Seen := {| sn_rows := sn_rows g; sn_heard := l ++ sn_heard g |}.

Definition approval_patch (a : string) : Patch :=
  {| p_state := None; p_approver := None; p_approvalId := Some a; p_authorizationId := None;
     p_messageHash := None; p_signature := None; p_slot := None; p_lastValidBlockHeight := None |}.

Definition knows (g : Seen) (id sg : string) : Prop :=
  exists x, x ∈ sn_rows g /\ e_id x = id /\ e_signature x = Some sg.

(** What reconciliation may write to a row of signature [sg], last seen as [x]. *)
Inductive settlement (c : Live) (h : list Heard) (x : Execution) (sg : string) : Patch -> Prop :=
  | se_unseen : H_status sg None ∈ h -> settlement c h x sg (to_state L_reconciliation_required)
  | se_dropped last height : H_status sg None ∈ h -> e_lastValidBlockHeight x = Some last -> H_height height ∈ h ->
      last < height -> settlement c h x sg (to_state L_dropped)
  | se_failed st : H_status sg (Some st) ∈ h -> st_err st = true ->
      settlement c h x sg (settled_as L_failed sg (st_slot st))
  | se_settled st : H_status sg (Some st) ∈ h -> st_err st = false ->
      settlement c h x sg (settled_as (settled c st) sg (st_slot st)).

Inductive allowed_move (c : Live) (g : Seen) (id : string) : list TradeState -> Patch -> Prop :=
  | am_queue a : allowed_move c g id [L_awaiting_approval] (approval_patch a)
  | am_decide st op : st = L_approved \/ st = L_denied -> allowed_move c g id [L_awaiting_approval] (decided st op)
  | am_approve : allowed_move c g id [L_awaiting_approval] (to_state L_approved)
  | am_signing : allowed_move c g id [L_approved] (to_state L_signing)
  | am_expire st : st = L_approved \/ st = L_signing -> allowed_move c g id [st] (to_state L_expired)
  | am_authorize a : allowed_move c g id [L_signing] (authorized_by a)
  | am_sign a h sg last : allowed_move c g id [L_signing] (signed_as a h sg last)
  | am_unresolved : allowed_move c g id [L_submitting] (to_state L_reconciliation_required)
  | am_landed sg : knows g id sg -> allowed_move c g id [L_submitting] (landed_as sg)
  | am_settle x sg p : x ∈ sn_rows g -> e_id x = id -> e_signature x = Some sg -> settlement c (sn_heard g) x sg p ->
      allowed_move c g id [e_state x] p.

Definition move_pre (c : Live) R (e : leff R) (g : Seen) : Prop :=
  match e with
  | TransitionExecution id from p => allowed_move c g id from p
  | CreateExecution _ st => st = L_awaiting_approval \/ st = L_dry_run
  | _ => True
  end.

Definition move_ans R (e : leff R) : R -> Prop :=
  match e in leff R return R -> Prop with
  | GetExecution id => fun r => forall x, r = Some x -> e_id x = id
  | TransitionExecution id _ p => fun r => forall x, r = inr x ->
      e_id x = id /\ (forall sg, p_signature p = Some sg -> e_signature x = Some sg) /\
      (forall st, p_state p = Some st -> e_state x = st)
  | _ => fun _ => True
  end.

Definition move_upd R (e : leff R) : R -> Seen -> Seen :=
  match e in leff R return R -> Seen -> Seen with
  | GetExecution _ => fun r g => match r with Some x => learn [x] g | None => g end
  | ByIdempotency _ => fun r g => match r with Some x => learn [x] g | None => g end
  | CreateExecution _ _ => fun r g => match r with inr x => learn [x] g | inl _ => g end
  | TransitionExecution _ _ _ => fun r g => match r with inr x => learn [x] g | inl _ => g end
  | ListExecutions _ => fun r g => learn r g
  | RpcStatus sg => fun r g => match r with inr st => hear [H_status sg st] g | inl _ => g end
  | RpcBlockHeight => fun r g => match r with inr h => hear [H_height h] g | inl _ => g end
  | _ => fun _ g => g
  end.

Section Runs.
Context (decodeTransaction : string -> result DecodedTransaction) (isPublicKey : string -> bool)
        (sha256 : string -> string) (c : Live).

#[local] Abbreviation keeps p g := (ensures (move_pre c) move_ans move_upd p (fun _ _ => True) g).

Ltac live_simpl :=
  unfold recoverSigning, resume, submit, submit_live, sign_and_send, submit_failed, execute, execute_live,
    simulate_again, assess, reserve, queue, quote, revokeQuote, approve, deny, refreshApproval, assertExact, expire,
    release, commit, recover, reconcile, status, require, move, lcall, ldo, throw_if, raise;
  cbn [bind catch trigger ensures move_pre move_ans move_upd].

Ltac live_step :=
  match goal with
  | |- True => exact I
  | |- _ /\ _ => split
  | |- forall _, _ => intros ?
  | |- ensures _ _ _ (match ?x with _ => _ end) _ _ => destruct x eqn:?
  | |- ensures _ _ _ _ _ (match ?x with _ => _ end) => destruct x eqn:?
  | |- context [bind (match ?x with _ => _ end) _] => destruct x eqn:?
  | |- context [catch (match ?x with _ => _ end) _] => destruct x eqn:?
  | |- context [match ?x with _ => _ end] => destruct x eqn:?
  end.

Lemma truthy_Some o s : truthy o = Some s -> o = Some s.
Proof. destruct o as [x|]; cbn; [|done]. by destruct (streq x ""). Qed.

(** The obligations that are left: that a move is an allowed one. *)
Ltac live_done :=
  bool_hyps; subst; simplify_eq/=;
  repeat match goal with H : truthy _ = Some _ |- _ => apply truthy_Some in H end;
  repeat match goal with H : forall x, Some ?y = Some x -> _ |- _ => specialize (H y eq_refl) end;
  repeat match goal with H : forall x, inr ?y = inr x -> _ |- _ => specialize (H y eq_refl) end;
  repeat match goal with H : ?st = e_state ?x |- context [e_state ?x] => rewrite <- H
         | H : e_state ?x = _ |- context [e_state ?x] => rewrite H end;
  destruct_and?;
  first
  [ done | by left | by right
  | apply am_landed; match goal with H : forall sg, _ = Some sg -> e_signature ?x = Some sg |- _ =>
      exists x; split; [cbn [sn_rows learn hear app]; by repeat first [left | right]|by split; [|apply H]] end
  | apply am_queue | apply am_decide; first [by left | by right] | apply am_approve | apply am_signing
  | apply am_expire; first [by left | by right] | apply am_authorize | apply am_sign | apply am_unresolved ].

Ltac live_walk := repeat (live_simpl; live_step); try done; try live_done.

Lemma quote_keeps known raw g : keeps (quote isPublicKey sha256 c known raw) g.
Proof. live_walk. Qed.

Lemma revokeQuote_keeps t g : keeps (revokeQuote isPublicKey sha256 c t) g.
Proof. live_walk. Qed.

Lemma execute_keeps id o g : keeps (execute c id o) g.
Proof. live_walk. Qed.

Lemma assertExact_keeps id r g : keeps (assertExact id r) g.
Proof. live_walk. Qed.

Lemma refresh_keeps id op g : keeps (refreshApproval c id op) g.
Proof. live_walk. Qed.

Lemma recover_keeps id g : keeps (recover id) g.
Proof. live_walk. Qed.

Lemma status_keeps id g : keeps (status c id) g.
Proof. live_walk. Qed.

Lemma expire_keeps id st g : st = L_approved \/ st = L_signing -> keeps (expire c id [st]) g.
Proof. intros Hst. live_walk. all: by apply am_expire. Qed.

Lemma keeps_bind {A B} (p : lprog A) (f : A -> lprog B) g :
  keeps p g -> (forall a g', keeps (f a) g') -> keeps (bind p f) g.
Proof.
  intros Hp Hf. apply ensures_bind. eapply ensures_mono; [exact Hp|]. intros [x|a] g' _; [done|]. apply Hf.
Qed.

Lemma keeps_catch {A} (p : lprog A) (h : string -> lprog A) g :
  keeps p g -> (forall x g', keeps (h x) g') -> keeps (catch p h) g.
Proof.
  intros Hp Hh. apply ensures_catch. eapply ensures_mono; [exact Hp|]. intros [x|a] g' _; [|done]. apply Hh.
Qed.

Lemma sign_and_send_keeps id q r e x g : keeps (sign_and_send decodeTransaction c id q r e x) g.
Proof. live_walk. Qed.

Lemma submit_failed_keeps id err g : keeps (submit_failed id err) g.
Proof. live_walk. Qed.

Lemma submit_live_keeps id x q r e g :
  e_state x = L_approved \/ e_state x = L_signing -> keeps (submit_live decodeTransaction c id x q r e) g.
Proof.
  intros Hx. unfold submit_live. apply keeps_bind; [live_walk|]. intros now g1.
  apply keeps_bind; [live_walk|]. intros _ g2. apply keeps_bind; [live_walk|]. intros height g3.
  destruct (_ <? height); [apply keeps_bind; [by apply expire_keeps|done]|].
  apply keeps_bind; [live_walk|]. intros _ g4. destruct (truthy (e_approvalId x)) as [a|]; [|done].
  apply keeps_bind; [live_walk|]. intros _ g5. apply keeps_bind; [live_walk|]. intros row g6.
  apply keeps_bind; [live_walk|]. intros _ g7. apply keeps_bind; [live_walk|]. intros x' g8.
  apply keeps_catch; [apply sign_and_send_keeps|]. intros err g9. apply submit_failed_keeps.
Qed.

Lemma submit_keeps id g : keeps (submit decodeTransaction c id) g.
Proof.
  unfold submit. apply keeps_bind; [live_walk|]. intros x g1.
  destruct (negb (bool_decide (e_state x = L_approved)) && _) eqn:E; [done|].
  apply keeps_bind; [done|]. intros _ g2. apply keeps_bind; [live_walk|]. intros [q|] g3; [|done].
  destruct (qt_request q) as [r|], (qt_evidence q) as [e|]; try done. apply keeps_bind; [live_walk|]. intros _ g4.
  apply submit_live_keeps. destruct (TradeState_eq_dec (e_state x) L_approved) as [?|Ha]; [by left|right].
  rewrite bool_decide_false in E by done. cbn in E. by bool_hyps.
Qed.

Lemma resume_keeps row q r signed g : keeps (resume decodeTransaction c row q r signed) g.
Proof.
  destruct signed as [| |sg tx]; cbn [resume].
  - apply keeps_bind; [apply expire_keeps; by right|done].
  - done.
  - destruct (truthy tx) as [t|]; [|done]. live_walk.
Qed.

Lemma recoverSigning_keeps row g : keeps (recoverSigning decodeTransaction c row) g.
Proof.
  unfold recoverSigning. apply keeps_bind; [live_walk|]. intros [q|] g1; [|done].
  destruct (qt_request q) as [r|]; [|done]. destruct (truthy (e_authorizationId row)); [|apply submit_keeps].
  apply keeps_bind; [live_walk|]. intros _ g2. apply keeps_bind; [live_walk|]. intros signed g3. apply resume_keeps.
Qed.

Lemma reconcile_keeps id g : keeps (reconcile c id) g.
Proof.
  live_walk.
  all: bool_hyps.
  all: repeat match goal with H : truthy _ = Some _ |- _ => apply truthy_Some in H end.
  all: match goal with H : forall x, Some ?y = Some x -> _ |- _ => specialize (H y eq_refl) end.
  all: eapply am_settle; cbn [sn_rows sn_heard learn hear app]; [by repeat first [left | right]|first [reflexivity|eassumption]|eassumption|].
  all: first
    [ apply se_unseen; by repeat first [left | right]
    | eapply se_dropped; [by repeat first [left | right]|eassumption|by repeat first [left | right]|done]
    | apply se_failed; [by repeat first [left | right]|done]
    | apply se_settled; [by repeat first [left | right]|done] ].
Qed.

Lemma approve_keeps id op i g : keeps (approve c id op i) g.
Proof.
  unfold approve. apply keeps_bind; [live_walk|]. intros x g1. apply keeps_bind; [live_walk|]. intros _ g2.
  apply keeps_bind; [live_walk|]. intros _ g3. apply keeps_bind; [live_walk|]. intros _ g4. apply refresh_keeps.
Qed.

Lemma deny_keeps id op i g : keeps (deny c id op i) g.
Proof.
  unfold deny. apply keeps_bind; [live_walk|]. intros x g1. apply keeps_bind; [live_walk|]. intros _ g2.
  destruct i as [i|], (truthy (e_approvalId x)) as [a|]; try done. apply keeps_bind; [live_walk|]. intros _ g3.
  apply keeps_bind; [live_walk|]. intros _ g4. apply refresh_keeps.
Qed.

Lemma revoke_keeps t o g : keeps (revoke isPublicKey sha256 c t o) g.
Proof.
  unfold revoke. apply keeps_bind; [live_walk|]. intros [x|] g1; [done|].
  apply keeps_bind; [apply revokeQuote_keeps|]. intros q g2. apply execute_keeps.
Qed.

Lemma recover_row_keeps row rep g : keeps (recover_row decodeTransaction c row rep) g.
Proof.
  unfold recover_row. apply keeps_catch; [|done]. destruct (bool_decide (e_state row = L_signing)).
  - apply keeps_bind; [apply recoverSigning_keeps|done].
  - destruct (bool_decide (e_state row = L_submitting)); (apply keeps_bind; [|done]);
      [apply recover_keeps|apply reconcile_keeps].
Qed.

Lemma recover_rows_keeps rows rep g : keeps (recover_rows decodeTransaction c rows rep) g.
Proof.
  revert rep g. induction rows as [|row rows IH]; intros rep g; cbn [recover_rows]; [done|].
  apply keeps_bind; [apply recover_row_keeps|]. intros rep' g'. apply IH.
Qed.

(** *** The methods a host runs, any number at once *)

Inductive LiveTask : Type :=
  | T_quote (known : bool) (raw : QuoteAsk)
  | T_revokeQuote (tokenAccount : string)
  | T_execute (quoteId : string) (o : ExecOptions)
  | T_revoke (tokenAccount : string) (o : ExecOptions)
  | T_assertExact (id : string) (r : SimulationRequest)
  | T_approve (id operator : string) (i : option DecisionInput)
  | T_deny (id operator : string) (i : option DecisionInput)
  | T_refresh (id : string) (operator : option string)
  | T_submit (id : string)
  | T_recover (id : string)
  | T_recoverSigning (row : Execution)
  | T_reconcile (id : string)
  | T_recoverAndReconcile (limit : Z)
  | T_status (id : string).

Definition done_with {A} (p : lprog A) : lprog unit := bind p (fun _ => Ret tt).

Definition live_task (t : LiveTask) : lprog unit :=
  match t with
  | T_quote known raw => done_with (quote isPublicKey sha256 c known raw)
  | T_revokeQuote a => done_with (revokeQuote isPublicKey sha256 c a)
  | T_execute id o => done_with (execute c id o)
  | T_revoke a o => done_with (revoke isPublicKey sha256 c a o)
  | T_assertExact id r => done_with (assertExact id r)
  | T_approve id op i => done_with (approve c id op i)
  | T_deny id op i => done_with (deny c id op i)
  | T_refresh id op => done_with (refreshApproval c id op)
  | T_submit id => done_with (submit decodeTransaction c id)
  | T_recover id => done_with (recover id)
  | T_recoverSigning row => done_with (recoverSigning decodeTransaction c row)
  | T_reconcile id => done_with (reconcile c id)
  | T_recoverAndReconcile limit => done_with (recoverAndReconcile decodeTransaction c limit)
  | T_status id => done_with (status c id)
  end.

Definition live_runs (n : nat) (p : lprog unit) : Prop := exists t, p = live_task t.

Lemma live_task_keeps t g : keeps (live_task t) g.
Proof.
  destruct t; unfold live_task, done_with; (apply keeps_bind; [|done]);
    [ apply quote_keeps | apply revokeQuote_keeps | apply execute_keeps | apply revoke_keeps | apply assertExact_keeps
    | apply approve_keeps | apply deny_keeps | apply refresh_keeps | apply submit_keeps | apply recover_keeps
    | apply recoverSigning_keeps | apply reconcile_keeps | | apply status_keeps ].
  unfold recoverAndReconcile. apply keeps_bind; [live_walk|]. intros all g'. apply recover_rows_keeps.
Qed.

Lemma live_runs_follow n p :
  live_runs n p -> exists g, g = nothing_seen /\ follows (move_pre c) move_ans move_upd p g.
Proof. intros [t ->]. exists nothing_seen. split; [done|]. eapply ensures_follows, live_task_keeps. Qed.
End Runs.

(** *** The invariant *)

Section Inv.
Context (c : Live).

Record live_inv (w : World) (gs : list Seen) : Prop := {
  li_keyed : keyed e_id (executions (w_store w));
  li_idempotency : keyed e_idempotencyKey (executions (w_store w));
  li_rows : forall x, x ∈ executions (w_store w) -> row_ok x;
  li_seen : forall i g x, gs !! i = Some g -> x ∈ sn_rows g ->
    row_ok x /\ exists y, get_execution (e_id x) (w_store w) = Some y /\ later x y;
  li_heard : forall i g, gs !! i = Some g -> sn_heard g ⊆ w_heard w
}.

(** What a step does to the rows there are. *)
Definition rows_move (h : list Heard) (s s' : ExecutionStore) : Prop :=
  forall id x, get_execution id s = Some x -> exists y, get_execution id s' = Some y /\ (y = x \/ moved c h x y).

(** A move among unsigned states. *)
Lemma unsigned_move h x p now :
  row_ok x -> e_state x ∉ SIGNED_STATES -> live_edge (e_state x) (default (e_state x) (p_state p)) ->
  ((exists sg, p_signature p = Some sg) <-> default (e_state x) (p_state p) ∈ SIGNED_STATES) ->
  moved c h x (patched p now x) /\ row_ok (patched p now x).
Proof.
  intros Hok Hu He Hn. assert (e_signature x = None) as Hx.
  { destruct (e_signature x) eqn:E; [|done]. destruct Hu. apply Hok. by eexists. }
  split.
  - split; [by split_and!|done|by left|]. intros sg E. by rewrite E in Hx.
  - unfold row_ok. cbn. rewrite Hx. unfold opt. destruct (p_signature p); exact Hn.
Qed.

(** A move of a signed execution. *)
Lemma signed_move h x p now sg :
  row_ok x -> e_signature x = Some sg -> p_signature p = None \/ p_signature p = Some sg ->
  p_lastValidBlockHeight p = None -> default (e_state x) (p_state p) ∈ SIGNED_STATES ->
  live_edge (e_state x) (default (e_state x) (p_state p)) \/ answered c h x (patched p now x) ->
  moved c h x (patched p now x) /\ row_ok (patched p now x).
Proof.
  intros Hok Hx Hp Hl Hn He. assert (opt (p_signature p) (e_signature x) = Some sg) as Ho by (by destruct Hp as [-> | ->]).
  split.
  - split; [by split_and!|done| |].
    + destruct He as [He|He]; [by left|right]. split; [|done]. apply Hok. by eexists.
    + intros sg' E. assert (sg' = sg) as -> by congruence. split; [exact Ho|]. cbn. by rewrite Hl.
  - split; [done|]. intros _. exists sg. exact Ho.
Qed.

Ltac in_states := unfold SIGNED_STATES; repeat first [left | right].
Ltac not_in_states := unfold SIGNED_STATES; rewrite !elem_of_cons, elem_of_nil; intuition discriminate.
Ltac unsigned_states := cbn; split; [by intros [? ?]|not_in_states].

(** What reconciliation writes is an answer's move. *)
Lemma settlement_answered h x y sg p now :
  e_signature x = Some sg -> e_lastValidBlockHeight x = e_lastValidBlockHeight y -> settlement c h y sg p ->
  answered c h x (patched p now x) /\ (p_signature p = None \/ p_signature p = Some sg) /\
  p_lastValidBlockHeight p = None /\ default (e_state x) (p_state p) ∈ SIGNED_STATES.
Proof.
  intros Hx El Hs. destruct Hs as [Hh|last height Hh Hl Hht Hlt|st Hh Her|st Hh Her].
  - split_and!; [by exists sg|by left|done|cbn; in_states].
  - split_and!; [|by left|done|cbn; in_states]. exists sg. split; [done|]. split; [done|]. exists last, height. by rewrite El.
  - split_and!; [|by right|done|cbn; in_states]. exists sg. split; [done|]. by exists st.
  - assert (settled c st = L_finalized /\ final c st \/ settled c st = L_confirmed /\ ~ final c st) as Hf.
    { unfold settled, final. repeat case_bool_decide; cbn; intuition congruence. }
    split_and!; [|by right|done|destruct Hf as [[-> _]|[-> _]]; cbn; in_states]. exists sg. split; [done|].
    cbn [patched settled_as p_state e_state e_slot p_slot default opt].
    destruct Hf as [[-> Hf]|[-> Hf]]; by exists st.
Qed.

Lemma settlement_more h h' x sg p : h ⊆ h' -> settlement c h x sg p -> settlement c h' x sg p.
Proof. intros Hh []; econstructor; eauto. Qed.

Lemma patched_moved h g id from p now x :
  allowed_move c g id from p -> e_state x ∈ from -> row_ok x -> e_id x = id -> sn_heard g ⊆ h ->
  (forall y, y ∈ sn_rows g -> e_id y = id -> row_ok y /\ later y x) ->
  moved c h x (patched p now x) /\ row_ok (patched p now x).
Proof.
  intros Ha Hf Hok Hid Hh Hg.
  assert (forall sg, knows g id sg -> e_signature x = Some sg) as Hknow.
  { intros sg (y & Hy & Hyid & Hsg). destruct (Hg y Hy Hyid) as [_ Hl]. by apply (la_signature _ _ Hl). }
  destruct Ha as [a|st op Hst| | |st Hst|a|a h' sg last| |sg Hk|y sg p Hy Hyid Hsg Hp];
    apply list_elem_of_singleton in Hf.
  1-7: apply unsigned_move; [done|rewrite Hf; not_in_states || (destruct Hst as [-> | ->]; not_in_states)|rewrite Hf; cbn..].
  all: try (first [ by constructor | constructor; by auto
                  | destruct Hst as [-> | ->]; unsigned_states | unsigned_states ]).
  - split; [intros _; in_states|by eexists].
  - assert (exists sg, e_signature x = Some sg) as [sg Hx] by (apply Hok; rewrite Hf; in_states).
    apply (signed_move _ _ _ _ sg); [done|done|by left|done|cbn; in_states|left]. rewrite Hf. constructor.
  - pose proof (Hknow _ Hk) as Hx.
    apply (signed_move _ _ _ _ sg); [done|done|by right|done|cbn; in_states|left]. rewrite Hf. constructor.
  - destruct (Hg y Hy Hyid) as [_ Hl]. destruct (la_signature _ _ Hl sg Hsg) as [Hx El].
    destruct (settlement_answered h x y sg p now Hx El (settlement_more _ _ _ _ _ Hh Hp)) as (Ha & Hps & Hpl & Hpst).
    apply (signed_move _ _ _ _ sg); [done..|by right].
Qed.

(** *** Statements of the store *)

Lemma get_execution_id id s x : get_execution id s = Some x -> e_id x = id /\ x ∈ executions s.
Proof. intros [? ?]%get_Some. done. Qed.

Lemma rows_move_same h s s' : executions s' = executions s -> rows_move h s s'.
Proof. intros E id x Hx. exists x. unfold get_execution in *. rewrite E. auto. Qed.

Lemma live_inv_same w w' gs :
  executions (w_store w') = executions (w_store w) -> w_heard w ⊆ w_heard w' -> live_inv w gs -> live_inv w' gs.
Proof.
  intros E Hh [H1 H2 H3 H4 H5]. split; unfold get_execution in *; rewrite ?E; try done.
  intros i g Hg. etrans; [by eapply H5|done].
Qed.

(** Seen rows stay earlier versions of the rows there are. *)
Lemma seen_moves h s s' (gs : list Seen) :
  rows_move h s s' ->
  (forall i g x, gs !! i = Some g -> x ∈ sn_rows g -> row_ok x /\ exists y, get_execution (e_id x) s = Some y /\ later x y) ->
  forall i g x, gs !! i = Some g -> x ∈ sn_rows g -> row_ok x /\ exists y, get_execution (e_id x) s' = Some y /\ later x y.
Proof.
  intros Hm H i g x Hg Hx. destruct (H i g x Hg Hx) as (Hok & y & Hy & Hl). split; [done|].
  destruct (Hm _ _ Hy) as (z & Hz & Hor). exists z. split; [done|].
  destruct Hor as [->|Hyz]; [done|by eapply later_moved].
Qed.

(** A run learns rows of the store. *)
Lemma live_inv_learn w gs i g l :
  live_inv w gs -> gs !! i = Some g -> (forall x, x ∈ l -> x ∈ executions (w_store w)) -> live_inv w (<[i := learn l g]> gs).
Proof.
  intros [H1 H2 H3 H4 H5] Hg Hl. split; try done.
  - intros j g' y Hj Hy. destruct (insert_lookup_cases _ _ _ _ _ Hj) as [[-> ->]|[_ Hj']]; [|by eapply H4].
    apply elem_of_app in Hy as [Hy|Hy]; [|by eapply H4]. pose proof (Hl y Hy) as Hin. split; [by apply H3|]. exists y.
    split; [by apply (keyed_get e_id)|apply later_refl].
  - intros j g' Hj. destruct (insert_lookup_cases _ _ _ _ _ Hj) as [[-> ->]|[_ Hj']]; [exact (H5 i g Hg)|by eapply H5].
Qed.

(** A run hears an answer of the cluster. *)
Lemma live_inv_hear w gs i g l :
  live_inv w gs -> gs !! i = Some g -> (forall x, x ∈ l -> x ∈ w_heard w) -> live_inv w (<[i := hear l g]> gs).
Proof.
  intros [H1 H2 H3 H4 H5] Hg Hl. split; try done.
  - intros j g' y Hj Hy. destruct (insert_lookup_cases _ _ _ _ _ Hj) as [[-> ->]|[_ Hj']]; [exact (H4 i g y Hg Hy)|by eapply H4].
  - intros j g' Hj. destruct (insert_lookup_cases _ _ _ _ _ Hj) as [[-> ->]|[_ Hj']]; [|by eapply H5].
    intros x [Hx|Hx]%elem_of_app; [by apply Hl|by apply (H5 _ _ Hg)].
Qed.

Lemma live_create_ok x st id now s r s' :
  create x st id now s = (inr r, s') ->
  r = new_row x st id now /\ executions s' = executions s ++ [r] /\
  Table.insert e_id r (executions s) = Some (executions s') /\
  get e_idempotencyKey (n_idempotencyKey x) (executions s) = None.
Proof.
  unfold create. destruct (has e_idempotencyKey _ _) eqn:Eh; [done|]. destruct (Table.insert _ _ _) as [t|] eqn:Ei; [|done].
  intros [= <- <-]. split; [done|]. cbn. pose proof Ei as [_ ->]%insert_Some. split_and!; [done..|].
  unfold has in Eh. by destruct (get _ _ _).
Qed.

Lemma create_failed x st id now s e s' : create x st id now s = (inl e, s') -> s' = s.
Proof. unfold create. destruct (has _ _ _); [by intros [= _ <-]|]. destruct (Table.insert _ _ _); by intros [= <-]. Qed.

Lemma new_row_ok x st id now : st = L_awaiting_approval \/ st = L_dry_run -> row_ok (new_row x st id now).
Proof.
  intros Hst. split; [by intros [? ?]|]. cbn. intros Hin. exfalso. revert Hin.
  destruct Hst as [-> | ->]; not_in_states.
Qed.

Lemma live_inv_create w w' gs i g x st id now r :
  live_inv w gs -> gs !! i = Some g -> st = L_awaiting_approval \/ st = L_dry_run -> w_heard w' = w_heard w ->
  create x st id now (w_store w) = (inr r, w_store w') ->
  live_inv w' (<[i := learn [r] g]> gs) /\ rows_move (w_heard w') (w_store w) (w_store w').
Proof.
  intros HI Hg Hst Eh (Hr & He & Hi & Hk)%live_create_ok. pose proof HI as [H1 H2 H3 H4 H5].
  assert (rows_move (w_heard w') (w_store w) (w_store w')) as Hm.
  { intros id' y Hy. exists y. split; [|by left]. unfold get_execution in *. by rewrite He, get_app, Hy. }
  split; [|done].
  apply live_inv_learn; [|done|intros y ->%list_elem_of_singleton; rewrite He; apply elem_of_app; right; left].
  split.
  - by eapply insert_keyed.
  - rewrite He. apply (insert_keyed e_idempotencyKey r (executions (w_store w))); [|done].
    apply insert_Some. by rewrite Hr.
  - rewrite He. intros y [Hy| ->%list_elem_of_singleton]%elem_of_app; [by apply H3|]. rewrite Hr. by apply new_row_ok.
  - by eapply seen_moves.
  - rewrite Eh. exact H5.
Qed.

Lemma transition_ok id from p now s r s' :
  LiveTrading.transition id from p None now s = (inr r, s') ->
  exists x, get_execution id s = Some x /\ e_state x ∈ from /\ r = patched p now x /\
    executions s' = update_where (fun x => streq (e_id x) id) (patched p now) (executions s).
Proof.
  unfold LiveTrading.transition. destruct (get_execution id s) as [x|] eqn:Ex; [|done].
  destruct (negb _ || _) eqn:Eb; [done|]. intros [= <- <-]. bool_hyps. exists x. by split_and!.
Qed.

Lemma transition_failed id from p v now s e s' : LiveTrading.transition id from p v now s = (inl e, s') -> s' = s.
Proof.
  unfold LiveTrading.transition. destruct (get_execution id s); [|by intros [= _ <-]].
  destruct (_ || _); by intros [= _ <-].
Qed.

Lemma live_inv_transition w w' gs i g id from p now r :
  live_inv w gs -> gs !! i = Some g -> allowed_move c g id from p -> w_heard w' = w_heard w ->
  LiveTrading.transition id from p None now (w_store w) = (inr r, w_store w') ->
  live_inv w' (<[i := learn [r] g]> gs) /\ rows_move (w_heard w') (w_store w) (w_store w').
Proof.
  intros HI Hg Ha Eh (x & Hx & Hf & Hr & He)%transition_ok. pose proof HI as [H1 H2 H3 H4 H5].
  pose proof (get_execution_id _ _ _ Hx) as [Hid Hin].
  assert (forall id', get_execution id' (w_store w') =
      (fun y => if streq (e_id y) id then patched p now y else y) <$> get_execution id' (w_store w))
    as Hget by (intros id'; unfold get_execution; rewrite He; by apply update_get).
  assert (forall y, y ∈ executions (w_store w) -> e_id y = id -> y = x) as Hone.
  { intros y Hy Ey. apply (keyed_same e_id (executions (w_store w))); congruence. }
  assert (moved c (w_heard w') x (patched p now x) /\ row_ok (patched p now x)) as [Hmv Hok].
  { eapply patched_moved; [exact Ha|done|by apply H3|done|rewrite Eh; by eapply H5|]. intros y Hy Ey.
    destruct (H4 _ _ _ Hg Hy) as (? & z & Hz & Hl). split; [done|]. rewrite Ey, Hx in Hz. by injection Hz as ->. }
  assert (rows_move (w_heard w') (w_store w) (w_store w')) as Hm.
  { intros id' y Hy. rewrite Hget, Hy. cbn. eexists. split; [done|]. destruct (streq (e_id y) id) eqn:E; [|by left].
    bool_hyps. right. pose proof (get_execution_id _ _ _ Hy) as [_ Hyin]. by rewrite (Hone y). }
  split; [|done]. apply live_inv_learn; [|done|].
  - split.
    + rewrite He. by apply update_keyed.
    + rewrite He. by apply update_keyed.
    + rewrite He. intros y (z & Hz & ->)%update_elem. destruct (streq (e_id z) id) eqn:E; [|by apply H3].
      bool_hyps. by rewrite (Hone z).
    + by eapply seen_moves.
    + rewrite Eh. exact H5.
  - intros y ->%list_elem_of_singleton. pose proof (Hget id) as Hgi. rewrite Hx in Hgi. cbn in Hgi.
    rewrite Hid, streq_refl in Hgi. apply get_execution_id in Hgi as [_ Hgi]. by rewrite Hr.
Qed.

Lemma live_inv_step i R (e : leff R) w r w' gs g :
  live_inv w gs -> gs !! i = Some g -> move_pre c _ e g -> lexec i e w r w' ->
  live_inv w' (<[i := move_upd _ e r g]> gs) /\ rows_move (w_heard w') (w_store w) (w_store w').
Proof.
  intros HI Hg Hpre [He Hh].
  assert (w_heard w ⊆ w_heard w') as Hsub by (rewrite Hh; intros x Hx; apply elem_of_app; by left).
  assert (executions (w_store w') = executions (w_store w) ->
    live_inv w' gs /\ rows_move (w_heard w') (w_store w) (w_store w')) as Hkeep
    by (intros E; split; [by eapply live_inv_same|by apply rows_move_same]).
  assert (executions (w_store w') = executions (w_store w) ->
    live_inv w' (<[i := g]> gs) /\ rows_move (w_heard w') (w_store w) (w_store w')) as Hsame
    by (rewrite list_insert_id by done; exact Hkeep).
  destruct e; cbn [lstore move_pre move_upd heard] in *; rewrite ?app_nil_r in Hh;
    lazymatch type of He with _ /\ _ => destruct He as [-> He] | _ => idtac end;
    try (apply Hsame; by rewrite He).
  - destruct He as (id & now & E). destruct r as [err|x']; [|by eapply live_inv_create].
    symmetry in E. apply create_failed in E. apply Hsame. by rewrite E.
  - destruct Hkeep as [Hk Hm]; [by rewrite He|]. destruct (get_execution id (w_store w)) as [x|] eqn:Ex; [|by apply Hsame; rewrite He].
    split; [|done]. apply live_inv_learn; [done..|]. intros y ->%list_elem_of_singleton. rewrite He.
    by apply get_execution_id in Ex as [_ ?].
  - destruct Hkeep as [Hk Hm]; [by rewrite He|]. destruct (byIdempotency k (w_store w)) as [x|] eqn:Ex; [|by apply Hsame; rewrite He].
    split; [|done]. apply live_inv_learn; [done..|]. intros y ->%list_elem_of_singleton. rewrite He.
    by apply get_Some in Ex as [? _].
  - destruct Hkeep as [Hk Hm]; [by rewrite He|]. split; [|done]. apply live_inv_learn; [done..|]. rewrite He.
    by intros x [Hx _]%select_elem.
  - destruct He as (now & E). destruct r as [err|x']; [|by eapply live_inv_transition].
    symmetry in E. apply transition_failed in E. apply Hsame. by rewrite E.
  - destruct Hkeep as [Hk Hm]; [by rewrite He|]. destruct r as [err|st]; [by apply Hsame; rewrite He|]. split; [|done].
    apply live_inv_hear; [done..|]. intros x Hx. rewrite Hh. apply elem_of_app. by right.
  - destruct Hkeep as [Hk Hm]; [by rewrite He|]. destruct r as [err|st]; [by apply Hsame; rewrite He|]. split; [|done].
    apply live_inv_hear; [done..|]. intros x Hx. rewrite Hh. apply elem_of_app. by right.
Qed.

Lemma lexec_ans i R (e : leff R) w r w' : lexec i e w r w' -> move_ans _ e r.
Proof.
  intros [H _]. revert H. destruct e; cbn [lstore move_ans]; try done.
  - intros [-> _] x Hx. by apply get_execution_id in Hx as [? _].
  - intros [now E] x ->. symmetry in E. apply transition_ok in E as (y & Hy & _ & -> & _).
    apply get_execution_id in Hy as [Hid _]. cbn. split_and!; [done|by intros sg ->|by intros st ->].
Qed.

Lemma live_inv_start w gs g : live_inv w gs -> g = nothing_seen -> live_inv w (gs ++ [g]).
Proof.
  intros [H1 H2 H3 H4 H5] ->. split; try done.
  - intros i g x [Hg|[_ Hg]]%lookup_app_Some Hx; [by eapply H4|].
    apply list_lookup_singleton_Some in Hg as [_ <-]. by apply elem_of_nil in Hx.
  - intros i g [Hg|[_ Hg]]%lookup_app_Some; [by eapply H5|]. apply list_lookup_singleton_Some in Hg as [_ <-].
    intros x Hx. by apply elem_of_nil in Hx.
Qed.
End Inv.


(** *** A chain to run against *)

(** What the environment of a scenario answers. *)
Record Chain : Type := {
  ch_status : option SignatureStatus; ch_height : Z; ch_approval : ApprovalStatus;
  ch_evidence : SimulationEvidence; ch_signed : result SignerSignResponse
}.

Definition demo_row (id : string) (st : ApprovalStatus) : ReqRow :=
  {| rq_id := id; rq_type := "sign"; rq_proposer_id := "alice"; rq_binding := V_null; rq_tx := V_null;
     rq_display_impact := None; rq_expires_at := 9000; rq_quorum := 1; rq_challenge := "ch"; rq_status := st;
     rq_revision := 0; rq_created_at := 1000; rq_config_version := "v1"; rq_config_hash := "h" |}.

Definition demo_quoted (e : SimulationEvidence) : QuoteResult :=
  {| qr_amountOut := 1000; qr_slot := 100; qr_lastValidBlockHeight := 500; qr_expiresAt := 9000;
     qr_request := Some Issuer.demo_request; qr_evidence := Some e; qr_route := None |}.

Definition demo_lexec (ch : Chain) {R} (e : leff R) : ExecutionStore -> R * ExecutionStore :=
  match e in leff R return ExecutionStore -> R * ExecutionStore with
  | PutQuote q => fun s => (tt, putQuote q s)
  | GetQuote id => fun s => (getQuote id s, s)
  | CreateExecution x st => fun s => create x st ("exe_" ++ pretty (length (executions s)))%string 1000 s
  | GetExecution id => fun s => (get_execution id s, s)
  | ByIdempotency k => fun s => (byIdempotency k s, s)
  | ListExecutions l => fun s => (list_executions l s, s)
  | TransitionExecution id from p => fun s => LiveTrading.transition id from p None 1000 s
  | Clock => fun s => (1000, s)
  | QuoteId => fun s => ("q1", s)
  | RpcQuote _ => fun s => (inr (demo_quoted Issuer.demo_evidence), s)
  | RpcRevokeQuote _ _ => fun s => (inr (demo_quoted Issuer.demo_evidence), s)
  | RpcSimulate _ => fun s => (inr (A_evidence (ch_evidence ch)), s)
  | RpcSimulateIntent _ _ => fun s => (inr (A_outcome true 100 "h"), s)
  | RpcBroadcast _ => fun s => (inr "sig", s)
  | RpcStatus _ => fun s => (inr (ch_status ch), s)
  | RpcBlockHeight => fun s => (inr (ch_height ch), s)
  | AssessRisk _ _ _ => fun s => (inr ("risk", true), s)
  | Reserve _ _ _ => fun s => (inr "res_1", s)
  | ReservationValid _ => fun s => (inr true, s)
  | ReservationCommit _ => fun s => (inr true, s)
  | ReservationRelease _ => fun s => (inr true, s)
  | ApprovalRequest _ _ => fun s => (inr tt, s)
  | ApprovalGet id => fun s => (inr (Some (demo_row id (ch_approval ch))), s)
  | ApprovalDecide _ _ => fun s => (inr tt, s)
  | ApprovalConsume _ _ => fun s => (inr tt, s)
  | IssueAuthorization _ _ _ => fun s => (inr demo_env, s)
  | SignerSign _ _ => fun s => (ch_signed ch, s)
  | SignerResult _ _ _ => fun s => (inr (V_signed (Some "sig") (Some "AAI=")), s)
  end.

(** The chain of a scenario, its answers written down. *)
Definition demo_world (ch : Chain) {R} (e : leff R) (w : World) : R * World :=
  let '(r, s) := demo_lexec ch e (w_store w) in (r, {| w_store := s; w_heard := w_heard w ++ heard e r |}).

Lemma demo_world_ok ch i R (e : leff R) w : lexec i e w (demo_world ch e w).1 (demo_world ch e w).2.
Proof.
  unfold demo_world, lexec. destruct (demo_lexec ch e (w_store w)) as [r s] eqn:E. split; [|done].
  cbn [fst snd w_store]. destruct e; cbn [demo_lexec] in E; try (by injection E as <- <-).
  - by eexists _, 1000.
  - by exists 1000.
Qed.

Definition demo_chain : Chain :=
  {| ch_status := Some {| st_slot := 120; st_confirmationStatus := Cm_finalized; st_err := false |}; ch_height := 400;
     ch_approval := Approvals.approved; ch_evidence := Issuer.demo_evidence; ch_signed := inr demo_signed |}.

Definition demo_live (approvalRequired : bool) : Live :=
  {| lv_cluster := "devnet"; lv_account := "FeePayer11111111";
     lv_policy := {| tp_version := 1; tp_hash := Some "0xAB"; tp_maxAmountIn := 1000000; tp_maxSlippageBps := 100;
       tp_approvalRequired := approvalRequired; tp_finalityCommitment := Cm_confirmed; tp_allowedMints := None |};
     lv_enabled := true; lv_audience := Some "signer"; lv_signer := true; lv_signer_result := true;
     lv_approvals := true; lv_issuer := true; lv_risk := true; lv_reservations := true; lv_revoke := false |}.

Definition demo_ask : QuoteAsk :=
  {| k_side := S_buy; k_inputMint := "MintA"; k_outputMint := "MintB"; k_amountIn := 1000; k_slippageBps := js_num 50 |}.

Definition demo_options : ExecOptions := {| ox_idempotencyKey := "key"; ox_actor := "alice"; ox_dryRun := Some false |}.

Definition to_submission : list LiveTask :=
  [T_quote true demo_ask; T_execute "q1" demo_options; T_refresh "exe_0" (Some "bob"); T_submit "exe_0"].

Definition live_demo (required : bool) : LiveTask -> lprog unit :=
  live_task SignerSafety.demo_decode (fun _ => true) (fun s => s) (demo_live required).

Definition demo_store : ExecutionStore := {| executions := []; quotes := [] |}.

(** The store after tasks that ran one after the other. *)
Definition after_tasks (ch : Chain) (required : bool) (l : list LiveTask) (s : ExecutionStore) : ExecutionStore :=
  run_seq (fun _ R => @demo_lexec ch R) 0 (map (live_demo required) l) s.

Definition world_after (ch : Chain) (required : bool) (l : list LiveTask) (w : World) : World :=
  run_seq (fun _ R => @demo_world ch R) 0 (map (live_demo required) l) w.

Lemma world_reachable ch required l w :
  exists ts, pool_reachable (fun i R => @lexec i R)
    (live_runs SignerSafety.demo_decode (fun _ => true) (fun s => s) (demo_live required)) w
    (world_after ch required l w, ts).
Proof.
  apply (run_pool_seq _ _ (fun _ R => @demo_world ch R)) with (ts := []).
  - intros i R e s'. apply demo_world_ok.
  - apply rtc_refl.
  - intros k p Hk. rewrite list_lookup_fmap in Hk. destruct (l !! k) as [t|] eqn:Ht; [|done].
    injection Hk as <-. by exists t.
Qed.

Definition demo_start : World := {| w_store := demo_store; w_heard := [] |}.

