(* ===== verification/LiveSigning.v ===== *)
(** What precedes a signing request and a broadcast of live trading.

    Each run of a method of the orchestrator, whatever its environment answers:
    it asks for a signature only for an execution that may be signed, and it
    broadcasts only bytes whose signature it has recorded. *)
From S2P Require Import Prelude Table Prog Canonical Approvals ApprovalSafety SignerPolicy SignerEnvelope Simulation SignerReplay SignerService Issuer SignerSafety HostGateway LiveTrading LiveSafety.
#[local] Open Scope string_scope.
#[local] Open Scope list_scope.
#[local] Open Scope Z_scope.
#[local] Open Scope prog_scope.

Definition live_history : Type := list (Prog.event leff).

Section Signing.
Context (decodeTransaction : string -> result DecodedTransaction) (isPublicKey : string -> bool)
        (sha256 : string -> string) (c : Live).

(** *** When an execution may be signed *)

(** The approval of the execution was consumed, for exactly this transaction when
    this run did it. *)
Definition approval_spent (a : string) (q : Quote) (r : SimulationRequest) (e : SimulationEvidence) (h : live_history) :
    Prop :=
  (exists row, Event (ApprovalGet a) (inr (Some row)) ∈ h /\ rq_status row = Approvals.consumed) \/
  Event (ApprovalConsume a (binding c q r e)) (inr tt) ∈ h.

Record may_sign (id : string) (x : Execution) (q : Quote) (r : SimulationRequest) (e : SimulationEvidence)
    (h : live_history) : Prop := {
  ms_state : Event (GetExecution id) (Some x) ∈ h /\ (e_state x = L_approved \/ e_state x = L_signing);
  ms_quote : Event (GetQuote (e_quoteId x)) (Some q) ∈ h /\ qt_request q = Some r /\ qt_evidence q = Some e;
  ms_live : lv_enabled c = true /\ lv_signer c = true /\ lv_issuer c = true;
  ms_current : exists now, Event Clock now ∈ h /\ now < qt_expiresAt q;
  ms_alive : exists height, Event RpcBlockHeight (inr height) ∈ h /\ height <= qt_lastValidBlockHeight q;
  ms_reserved : forall rid, truthy (e_reservationId x) = Some rid -> lv_reservations c = true ->
    Event (ReservationValid rid) (inr true) ∈ h;
  ms_approved : exists a, truthy (e_approvalId x) = Some a /\ approval_spent a q r e h
}.

(** The signature of the bytes was recorded on an execution, with its move from
    `signing` to `submitting`. *)
Definition signature_recorded (wire : string) (h : live_history) : Prop :=
  exists id p y sg, Event (TransitionExecution id [L_signing] p) (inr y) ∈ h /\
    p_state p = Some L_submitting /\ p_signature p = Some sg /\ signatureOf decodeTransaction wire = inr sg.

(** What holds when an effect is performed. *)
Definition signing_pre R (ef : leff R) (h : live_history) : Prop :=
  match ef with
  | SignerSign transaction env => exists id x q r e y z, may_sign id x q r e h /\ transaction = q_transaction r /\
      (y = x \/ Event (TransitionExecution id [L_approved] (to_state L_signing)) (inr y) ∈ h) /\
      Event (IssueAuthorization r e (references c q y)) (inr env) ∈ h /\
      Event (TransitionExecution id [L_signing] (authorized_by (env_id env))) (inr z) ∈ h
  | RpcBroadcast wire => signature_recorded wire h
  | _ => True
  end.

#[local] Abbreviation guarded p h :=
  (ensures signing_pre (fun _ _ _ => True) record_event p (fun _ _ => True) h).

Lemma approval_spent_more a q r e h ev : approval_spent a q r e h -> approval_spent a q r e (ev :: h).
Proof. intros [(row & H & Hs)|H]; [left; exists row; split; [by right|done]|right; by right]. Qed.

Lemma may_sign_more id x q r e h ev : may_sign id x q r e h -> may_sign id x q r e (ev :: h).
Proof.
  intros [[H1 H2] [H3 H4] H5 [n [H6 H7]] [z [H8 H9]] H10 [a [H11 H12]]].
  split; [split; [by right|done]|split; [by right|done]|done|exists n; split; [by right|done]
    |exists z; split; [by right|done]|intros rid ? ?; right; by apply H10|].
  exists a. split; [done|by apply approval_spent_more].
Qed.

Lemma guarded_bind {A B} (p : lprog A) (f : A -> lprog B) h :
  guarded p h -> (forall a h', guarded (f a) h') -> guarded (bind p f) h.
Proof.
  intros Hp Hf. apply ensures_bind. eapply ensures_mono; [exact Hp|]. intros [x|a] h' _; [done|]. apply Hf.
Qed.

Lemma guarded_catch {A} (p : lprog A) (k : string -> lprog A) h :
  guarded p h -> (forall x h', guarded (k x) h') -> guarded (catch p k) h.
Proof.
  intros Hp Hk. apply ensures_catch. eapply ensures_mono; [exact Hp|]. intros [x|a] h' _; [|done]. apply Hk.
Qed.

Lemma assertSigned_spec t sg s :
  assertSignedTransaction decodeTransaction (Some t) sg = inr s -> signatureOf decodeTransaction t = inr s.
Proof.
  unfold assertSignedTransaction. destruct (truthy sg); [|done]. destruct (signatureOf _ t); [done|].
  destruct (streq _ _); [|done]. by intros [= <-].
Qed.

Ltac g_simpl :=
  unfold execute, execute_live, simulate_again, assess, reserve, queue, quote, revokeQuote, approve, deny,
    refreshApproval, assertExact, expire, release, commit, recover, reconcile, status, submit_failed, require, move,
    lcall, ldo, throw_if, raise;
  cbn [bind catch trigger ensures signing_pre].

Ltac g_step :=
  match goal with
  | |- True => exact I
  | |- _ /\ _ => split
  | |- forall _, _ => intros ?
  | |- ensures _ _ _ (match ?x with _ => _ end) _ _ => destruct x eqn:?
  | |- context [bind (match ?x with _ => _ end) _] => destruct x eqn:?
  | |- context [catch (match ?x with _ => _ end) _] => destruct x eqn:?
  end.

Ltac g_walk := repeat (g_simpl; g_step); try done.

Lemma submit_failed_guarded id err h : guarded (submit_failed id err : lprog Execution) h.
Proof. g_walk. Qed.

Lemma broadcast_ready id a mh sg last y wire h :
  Event (TransitionExecution id [L_signing] (signed_as a mh sg last)) (inr y) ∈ h ->
  signatureOf decodeTransaction wire = inr sg -> signing_pre _ (RpcBroadcast wire) h.
Proof. intros Hin Hs. by exists id, (signed_as a mh sg last), y, sg. Qed.

(** The row the references are read off. *)
Definition same_run (id : string) (x y : Execution) (h : live_history) : Prop :=
  y = x \/ Event (TransitionExecution id [L_approved] (to_state L_signing)) (inr y) ∈ h.

Lemma sign_and_send_guarded id x y q r e h :
  may_sign id x q r e h -> same_run id x y h -> guarded (sign_and_send decodeTransaction c id q r e y) h.
Proof.
  intros Hm Hy. unfold sign_and_send, record_event. g_walk.
  - exists id, x, q, r, e, y. eexists. split_and!; [by do 2 apply may_sign_more|done| |right; left|left].
    destruct Hy as [->|Hy]; [by left|right; by do 2 right].
  - eapply (broadcast_ready id); [left|by eapply assertSigned_spec].
Qed.

Lemma resume_guarded row q r signed h : guarded (resume decodeTransaction c row q r signed) h.
Proof.
  unfold resume. destruct signed as [| |sg tx]; [g_walk..|]. destruct (truthy tx) as [t|]; [|done].
  unfold record_event. g_walk. all: eapply (broadcast_ready (e_id row)); [left|by eapply assertSigned_spec].
Qed.

Ltac find_event := repeat first [eassumption | apply list_elem_of_here | apply list_elem_of_further].

(** The conditions of [may_sign], from the history and the branches taken. *)
Ltac may_sign_done :=
  split;
  [ split; [find_event|done]
  | split_and!; [find_event|done|done]
  | done
  | eexists; split; [find_event|done]
  | eexists; split; [find_event|done]
  | intros rid Hrid Hlr; simplify_eq; first [congruence | solve [find_event]]
  | eexists; split; [eassumption|] ];
  first
  [ solve [right; find_event]
  | match goal with H : match ?o with _ => _ end = true |- _ => destruct o as [?|]; [|done] end;
    bool_hyps; left; eexists; split; [find_event|done] ].

Lemma submit_live_guarded id x q r e h :
  Event (GetExecution id) (Some x) ∈ h -> e_state x = L_approved \/ e_state x = L_signing ->
  Event (GetQuote (e_quoteId x)) (Some q) ∈ h -> qt_request q = Some r -> qt_evidence q = Some e ->
  lv_enabled c = true /\ lv_signer c = true /\ lv_issuer c = true ->
  guarded (submit_live decodeTransaction c id x q r e) h.
Proof.
  intros Hx Hst Hq Hr He Hl. unfold submit_live, record_event. g_walk.
  all: bool_hyps; unit_answers; subst.
  all: apply guarded_catch; [|intros; apply submit_failed_guarded].
  all: apply sign_and_send_guarded with (x := x); [|first [by left | solve [right; find_event]]].
  all: may_sign_done.
Qed.

Lemma submit_guarded id h : guarded (submit decodeTransaction c id) h.
Proof.
  unfold submit, require, ldo, throw_if, record_event. cbn [bind trigger ensures signing_pre]. split; [done|].
  intros [x|] _; [|done]. cbn [bind]. destruct (negb _ && negb _) eqn:E; [done|]. cbn [bind ensures signing_pre].
  split; [done|]. intros [q|] _; [|done]. destruct (qt_request q) as [r|] eqn:Er, (qt_evidence q) as [e|] eqn:Ee; try done.
  destruct (_ || _) eqn:El; [done|]. cbn [bind]. bool_hyps. apply submit_live_guarded; try done.
  - right. left.
  - destruct (TradeState_eq_dec (e_state x) L_approved) as [?|Ha]; [by left|right].
    rewrite bool_decide_false in E by done. cbn in E. by bool_hyps.
  - left.
Qed.

Lemma recoverSigning_guarded row h : guarded (recoverSigning decodeTransaction c row) h.
Proof.
  unfold recoverSigning. apply guarded_bind; [g_walk|]. intros [q|] h1; [|done].
  destruct (qt_request q) as [r|]; [|done]. destruct (truthy (e_authorizationId row)); [|apply submit_guarded].
  apply guarded_bind; [g_walk|]. intros _ h2. apply guarded_bind; [g_walk|]. intros signed h3. apply resume_guarded.
Qed.

Lemma recover_row_guarded row rep h : guarded (recover_row decodeTransaction c row rep) h.
Proof.
  unfold recover_row. apply guarded_catch; [|done]. destruct (bool_decide (e_state row = L_signing)).
  - apply guarded_bind; [apply recoverSigning_guarded|done].
  - destruct (bool_decide (e_state row = L_submitting)); (apply guarded_bind; [|done]); g_walk.
Qed.

Lemma recover_rows_guarded rows rep h : guarded (recover_rows decodeTransaction c rows rep) h.
Proof.
  revert rep h. induction rows as [|row rows IH]; intros rep h; cbn [recover_rows]; [done|].
  apply guarded_bind; [apply recover_row_guarded|]. intros rep' h'. apply IH.
Qed.

Lemma live_task_guarded t h : guarded (live_task decodeTransaction isPublicKey sha256 c t) h.
Proof.
  destruct t; unfold live_task, done_with; (apply guarded_bind; [|done]);
    try apply submit_guarded; try apply recoverSigning_guarded; try (by g_walk).
  - unfold revoke. apply guarded_bind; [g_walk|]. intros [x|] h1; [done|]. apply guarded_bind; [g_walk|].
    intros q h2. g_walk.
  - unfold recoverAndReconcile. apply guarded_bind; [g_walk|]. intros all h'. apply recover_rows_guarded.
Qed.

(** C16: live trading asks for a signature only for an execution it read as
    approved or signing, over the exact transaction of its quote, with live trading
    enabled, before the quote expires, while the blockhash is alive, under a valid
    reservation where it has one, after the approval was consumed (for exactly this
    transaction and evidence if this run consumed it), and with an authorization
    issued for these bytes in this run and recorded before. *)
Theorem signing_is_guarded t tx env r l1 l2 p
    (Hrun : traces (live_task decodeTransaction isPublicKey sha256 c t) (l1 ++ Event (SignerSign tx env) r :: l2) p) :
  exists id x q req e y z, may_sign id x q req e (rev l1) /\ tx = q_transaction req /\
    (y = x \/ Event (TransitionExecution id [L_approved] (to_state L_signing)) (inr y) ∈ rev l1) /\
    Event (IssueAuthorization req e (references c q y)) (inr env) ∈ rev l1 /\
    Event (TransitionExecution id [L_signing] (authorized_by (env_id env))) (inr z) ∈ rev l1.
Proof. exact (history_allowed _ _ _ _ _ _ (ensures_follows _ _ _ _ _ _ (live_task_guarded t [])) Hrun). Qed.

(** C17: whatever method of live trading broadcasts, it broadcasts bytes whose
    attached signature it has recorded on an execution that it moved from
    `signing` to `submitting`: after a crash the signature is found, not made
    again. *)
Theorem broadcast_after_record t wire r l1 l2 p
    (Hrun : traces (live_task decodeTransaction isPublicKey sha256 c t) (l1 ++ Event (RpcBroadcast wire) r :: l2) p) :
  signature_recorded wire (rev l1).
Proof. exact (history_allowed _ _ _ _ _ _ (ensures_follows _ _ _ _ _ _ (live_task_guarded t [])) Hrun). Qed.
End Signing.

(** *** A submission *)

Definition ready_store : ExecutionStore := after_tasks demo_chain true (take 3 to_submission) demo_store.

#[local] Abbreviation demo_submission := (live_demo true (T_submit "exe_0")).

Definition submission_trace : live_history := run_trace (fun R => @demo_lexec demo_chain R) demo_submission ready_store.

Lemma submission_traces : traces demo_submission submission_trace (Ret tt).
Proof.
  pose proof (run_traces (fun R => @demo_lexec demo_chain R) demo_submission ready_store) as H.
  assert ((run (fun R => @demo_lexec demo_chain R) demo_submission ready_store).1 = inr tt) as E by (vm_compute; reflexivity).
  by rewrite E in H.
Qed.

Lemma signing_is_guarded_witness :
  exists l1 l2, submission_trace = l1 ++ Event (SignerSign "AAE=" demo_env) (inr demo_signed) :: l2 /\
  signing_pre SignerSafety.demo_decode (demo_live true) _ (SignerSign "AAE=" demo_env) (rev l1).
Proof.
  exists (take 10 submission_trace), (drop 11 submission_trace).
  assert (submission_trace = take 10 submission_trace ++
    Event (SignerSign "AAE=" demo_env) (inr demo_signed) :: drop 11 submission_trace) as E by (vm_compute; reflexivity).
  split; [exact E|]. pose proof submission_traces as Ht. rewrite E in Ht.
  exact (signing_is_guarded SignerSafety.demo_decode (fun _ => true) (fun s => s) (demo_live true) (T_submit "exe_0")
    "AAE=" demo_env _ _ _ _ Ht).
Defined.

Lemma broadcast_after_record_witness :
  exists l1 l2, submission_trace = l1 ++ Event (RpcBroadcast "AAI=") (inr "sig") :: l2 /\
  signature_recorded SignerSafety.demo_decode "AAI=" (rev l1).
Proof.
  exists (take 12 submission_trace), (drop 13 submission_trace).
  assert (submission_trace = take 12 submission_trace ++ Event (RpcBroadcast "AAI=") (inr "sig") :: drop 13 submission_trace) as E
    by (vm_compute; reflexivity).
  split; [exact E|]. pose proof submission_traces as Ht. rewrite E in Ht.
  exact (broadcast_after_record SignerSafety.demo_decode (fun _ => true) (fun s => s) (demo_live true) (T_submit "exe_0")
    "AAI=" _ _ _ _ Ht).
Defined.

(** ** Runs of live trading worth knowing

    The scenarios of [LiveSafety] and the approval engine of [ApprovalSafety] composed. *)

(** *** The approval and the evidence *)

(** An approval requested for one piece of evidence is consumed for another only
    if hash, slot and blockhash agree: `execute` requests it for the evidence it
    has just made, `submit` consumes it with the evidence of the quote. *)
Lemma approval_needs_same_evidence sha256 verify c q r e e' operators ver hash s0 o ch now1 now1' res1 s1 i now2 now2' res2 s2
    (Hi : inv verify operators s0) (Htx : in_tx i = binding c q r e)
    (Hreq : request sha256 operators ver hash i o ch now1 now1' s0 = (inr res1, s1))
    (Hcon : Approvals.consume sha256 (in_id i) (binding c q r e') now2 now2' s1 = (inr res2, s2)) :
  se_hash e = se_hash e' /\ pretty.pretty (eb_slot (se_body e)) = pretty.pretty (eb_slot (se_body e')) /\
  eb_blockhash (se_body e) = eb_blockhash (se_body e').
Proof.
  destruct (request_row _ verify _ _ _ _ _ _ _ _ _ _ _ Hi Hreq) as (row & b & Hr & Hb & Hbind).
  destruct (consume_ok _ _ _ _ _ _ _ _ Hcon) as (row' & b' & text & Hr' & _ & _ & Hb' & Ht & Htr & _).
  assert (row' = row) as -> by congruence. rewrite Htx in Hb. rewrite Hbind in Htr.
  pose proof (canonicalSerialize_binds_values _ _ _ Htr Ht) as E. rewrite (boundKeys_sorted _ _ _ Hb) in E.
  destruct (boundKeys_inj _ _ _ _ _ Hb Hb' E) as (_ & _ & _ & _ & _ & H1 & H2 & H3 & _). done.
Qed.

(** *** Scenarios *)

Definition scenario (ch : Chain) (required : bool) (t : LiveTask) (s : ExecutionStore) : (string + unit) * ExecutionStore :=
  run (fun R => @demo_lexec ch R) (live_demo required t) s.

Definition states_of (s : ExecutionStore) : list TradeState := map e_state (executions s).

(** The effects of tasks that ran one after the other, with the task of each. *)
Definition log_of (ch : Chain) (required : bool) (l : list LiveTask) (s : ExecutionStore) : list (nat * Prog.event leff) :=
  (run_seq (logging (fun _ R => @demo_lexec ch R)) 0 (map (live_demo required) l) (s, [])).2.

Definition is_sign (ev : nat * Prog.event leff) : bool :=
  match ev.2 with Event (SignerSign _ _) _ => true | _ => false end.

Definition is_commit (ev : nat * Prog.event leff) : bool :=
  match ev.2 with Event (ReservationCommit _) _ => true | _ => false end.

Definition is_release (ev : nat * Prog.event leff) : bool :=
  match ev.2 with Event (ReservationRelease _) _ => true | _ => false end.

Definition prefilled (required : bool) : ExecutionStore :=
  after_tasks demo_chain required (take 3 to_submission) demo_store.

(** A policy without approvals approves an execution that submission refuses: it
    has no approval to consume. *)
Lemma unapproved_cannot_submit :
  states_of (prefilled false) = [L_approved] /\
  scenario demo_chain false (T_submit "exe_0") (prefilled false) = (inl "approval unavailable", prefilled false).
Proof. split; vm_compute; reflexivity. Qed.

(** A chain whose simulation fails, and the evidence made of it. *)
Definition failed_result : SimulationResult :=
  {| sr_success := false; sr_slot := 101; sr_blockhash := "Blockhash"; sr_messageHash := q_messageHash Issuer.demo_request;
     sr_unitsConsumed := 0; sr_feeLamports := 5000; sr_logs := []; sr_accountStates := [];
     sr_assetDeltas := []; sr_capabilities := Some full_capabilities; sr_err := Some "custom program error" |}.

Definition failed_evidence : SimulationEvidence :=
  {| se_hash := simulationEvidenceHash (fun s => s) (evidenceBody failed_result); se_body := evidenceBody failed_result |}.

Definition failing_chain : Chain :=
  {| ch_status := None; ch_height := 400; ch_approval := Approvals.approved; ch_evidence := failed_evidence;
     ch_signed := inr demo_signed |}.

(** Evidence of a failed simulation passes `execute`. *)
Lemma failed_simulation_executes :
  createSimulationEvidence (fun s : string => s) Issuer.demo_request failed_result = inr failed_evidence /\
  states_of (after_tasks failing_chain true (take 3 to_submission) demo_store) = [L_approved].
Proof. split; vm_compute; reflexivity. Qed.

(** The cluster has confirmed; later it does not know the signature any more. *)
Definition confirmed_chain : Chain :=
  {| ch_status := Some {| st_slot := 120; st_confirmationStatus := Cm_processed; st_err := false |}; ch_height := 400;
     ch_approval := Approvals.approved; ch_evidence := Issuer.demo_evidence; ch_signed := inr demo_signed |}.

Definition forgetful_chain : Chain :=
  {| ch_status := None; ch_height := 600; ch_approval := Approvals.approved; ch_evidence := Issuer.demo_evidence;
     ch_signed := inr demo_signed |}.

Definition confirmed_store : ExecutionStore :=
  after_tasks confirmed_chain true (to_submission ++ [T_reconcile "exe_0"]) demo_store.

(** An execution the cluster has seen (at `processed`, stored as confirmed) is
    dropped, and its committed reservation released. *)
Lemma confirmed_is_dropped :
  states_of confirmed_store = [L_confirmed] /\
  states_of (after_tasks forgetful_chain true [T_reconcile "exe_0"] confirmed_store) = [L_dropped] /\
  existsb is_release (log_of forgetful_chain true [T_reconcile "exe_0"] confirmed_store) = true.
Proof. split_and!; vm_compute; reflexivity. Qed.

(** A dropped execution is not at its end: when the cluster later answers that it
    has the transaction, reconciliation makes it finalized, and the reservation
    stays released. *)
Lemma dropped_is_revived :
  let dropped := after_tasks forgetful_chain true [T_reconcile "exe_0"] confirmed_store in
  states_of dropped = [L_dropped] /\
  states_of (after_tasks demo_chain true [T_reconcile "exe_0"] dropped) = [L_finalized] /\
  existsb is_commit (log_of demo_chain true [T_reconcile "exe_0"] dropped) = false.
Proof. split_and!; vm_compute; reflexivity. Qed.

(** The signer signs, its answer is lost; the approval is consumed. *)
Definition silent_signer : Chain :=
  {| ch_status := None; ch_height := 400; ch_approval := Approvals.consumed; ch_evidence := Issuer.demo_evidence;
     ch_signed := inl "signer_unavailable" |}.

(** Submitted twice, an execution in `signing` asks for a signature twice, each
    time under a new authorization. *)
Lemma signing_asks_again :
  (scenario silent_signer true (T_submit "exe_0") (prefilled true)).1 = inl "signer_unavailable" /\
  length (List.filter is_sign (log_of silent_signer true [T_submit "exe_0"; T_submit "exe_0"] (prefilled true))) = 2%nat.
Proof. split; vm_compute; reflexivity. Qed.

(** A node that answers with another signature. *)
Definition mismatched_chain : Chain :=
  {| ch_status := Some {| st_slot := 120; st_confirmationStatus := Cm_finalized; st_err := false |}; ch_height := 400;
     ch_approval := Approvals.approved; ch_evidence := Issuer.demo_evidence;
     ch_signed := inr {| sg_transaction := "AAI="; sg_signature := "sig"; sg_broadcast := Some "other" |} |}.

Definition to_settlement : list LiveTask := [T_submit "exe_0"; T_reconcile "exe_0"; T_recoverAndReconcile 100].

(** An execution that is finalized by reconciliation never commits its
    reservation, nor releases it. *)
Lemma finalized_without_commit :
  states_of (after_tasks mismatched_chain true to_settlement (prefilled true)) = [L_finalized] /\
  existsb is_commit (log_of mismatched_chain true to_settlement (prefilled true)) = false /\
  existsb is_release (log_of mismatched_chain true to_settlement (prefilled true)) = false.
Proof. split_and!; vm_compute; reflexivity. Qed.
