(* ===== verification/SignerCompletes.v ===== *)
(** The signer produces a signature.

    On the SQLite store, when nothing refuses: the first call of `signEnvelope`
    (`src/signer/index.ts`) returns a signature and records it, and a repeated
    call returns the same one without signing again. *)
From S2P Require Import Prelude Table Prog Canonical SignerPolicy SignerEnvelope SignerReplay SignerService SignerSafety.
#[local] Open Scope string_scope.
#[local] Open Scope list_scope.
#[local] Open Scope Z_scope.
#[local] Open Scope prog_scope.

#[local] Arguments transition : simpl never.
#[local] Arguments consume : simpl never.

(** What the clock, the verifier, the node and the key answer. *)
Record Surroundings : Type := {
  su_now : Z; su_verify : string -> string -> option string -> result bool; su_height : result value;
  su_sign : list Z -> result (list Z)
}.

Definition surround (v : Surroundings) R (e : seff R) : SqliteReplay -> R * SqliteReplay :=
  match e in seff R return SqliteReplay -> R * SqliteReplay with
  | ReplayGet id => fun s => (sql_view id s, s)
  | Consume id x => fun s => consume id x (su_now v) s
  | Transition id a b d => fun s => transition id a b d (su_now v) s
  | RecoverSigned id => fun s => recoverSigned id (su_now v) s
  | ListRows l => fun s => (rp_list l s, s)
  | Now => fun s => (su_now v, s)
  | VerifyClaims t sg k => fun s => (su_verify v t sg k, s)
  | BlockHeight => fun s => (su_height v, s)
  | SignMessage b => fun s => (su_sign v b, s)
  | SendTransaction _ => fun s => (inl "offline", s)
  | GetSignatureStatus _ => fun s => (inl "offline", s)
  | GetBlockHeight => fun s => (inl "offline", s)
  end.

Section Completes.
Context (decodeTransaction : string -> result DecodedTransaction)
        (attachSignature : DecodedTransaction -> list Z -> result (string * string))
        (publicKey : string) (policy : SignPolicy) (w : Wire) (v : Surroundings).

#[local] Abbreviation envelope_prog := (signEnvelope decodeTransaction attachSignature publicKey policy (Some w)).

(** Nothing refuses the request. *)
Record acceptable (tx : string) (env : AuthorizationEnvelope) (c : AuthorizationClaims) (d : DecodedTransaction) : Prop := {
  ac_decode : decodeTransaction tx = inr d;
  ac_claims : claims env = Some c;
  ac_id : c_id c <> "";
  ac_hash : messageHash d <> "";
  ac_current : check_claims w c (su_now v) = inr tt;
  ac_verified : su_verify v (canonicalClaims c) (env_signature env) (c_signerKeyId c) = inr true;
  ac_describes : check_transaction w c d = inr tt;
  ac_policy : exists ev, evaluatePolicy d policy publicKey = inr ev;
  ac_alive : has_blockHeight w = true -> exists h, su_height v = inr (V_number h) /\
    isSafeInteger h = true /\ 0 <= h <= c_lastValidBlockHeight c
}.

Lemma run_fence c s :
  (has_blockHeight w = true -> exists h, su_height v = inr (V_number h) /\
    isSafeInteger h = true /\ 0 <= h <= c_lastValidBlockHeight c) ->
  run (surround v) (fenceBlockhash (Some w) (c_id c) (Some (c_lastValidBlockHeight c))) s = (inr tt, s).
Proof.
  unfold fenceBlockhash, wired_height. destruct (has_blockHeight w); simpl; [|done].
  intros (h & -> & Hs & H0 & Hl); [done|]. simpl. rewrite Hs. simpl. unfold fail_if.
  destruct (h <? 0) eqn:E; [lia|]. simpl. destruct (h <=? _) eqn:E2; [done|lia].
Qed.

Lemma consume_free id e t s :
  id <> "" -> isSafeInteger e = true -> replay_get id s = None ->
  exists s', consume id e t s = (true, s') /\ sql_view id s' = Some (X_claimed, None) /\
    (replay_keyed s -> replay_keyed s').
Proof.
  intros Hid He Hfree. destruct (consume id e t s) as [b s'] eqn:E. exists s'.
  assert (b = true) as ->.
  { unfold consume in E. unfold streq in E. rewrite bool_decide_false, He in E by done. simpl in E.
    unfold insert, has in E. simpl in E. unfold replay_get in Hfree. rewrite Hfree in E. by simplify_eq. }
  split; [done|]. split; [by eapply consume_won|]. intros Hk. pose proof (consume_keyed id e t s Hk) as H. by rewrite E in H.
Qed.

Lemma transition_free id a b x t s :
  replay_keyed s -> (exists y, sql_view id s = Some (a, y)) ->
  exists s', transition id a b x t s = (true, s') /\ sql_view id s' = Some (b, x).
Proof.
  intros Hk [y Hy]. unfold sql_view in Hy. destruct (replay_get id s) as [r|] eqn:Hr; [|done]. injection Hy as Ha _.
  destruct (transition id a b x t s) as [won s'] eqn:E. exists s'.
  assert (won = true) as ->.
  { assert ((transition id a b x t s).1 = true) as H by (apply transition_won; eauto). by rewrite E in H. }
  split; [done|]. assert (s' = (transition id a b x t s).2) as -> by by rewrite E.
  unfold sql_view. rewrite transition_get, Hr. cbn.
  rewrite (replay_get_id _ _ _ Hr), streq_refl, bool_decide_true by done. done.
Qed.

(** `stored` and the checks, when nothing refuses. *)
Lemma run_stored id h s row :
  h <> "" -> sql_view id s = row ->
  run (surround v) (stored id h) s =
  (match row with
   | None => inr None
   | Some (st, x) =>
       if bool_decide (st = X_expired) then inl "authorization_expired"
       else match x with
            | None => inr None
            | Some d =>
                if negb match d_requestHash d with Some h' => streq (lower h') (lower h) | None => false end
                then inl "authorization_request_mismatch"
                else if negb (bool_decide (st = X_signed)) || negb (some_truthy (d_transaction d))
                     then inl "authorization_in_progress" else inr (Some d)
            end
   end, s).
Proof.
  intros Hh Hrow. unfold stored, fail_if, do. unfold streq at 1. rewrite bool_decide_false by done. simpl. rewrite Hrow.
  destruct row as [[st [d|]]|]; simpl; [|by case_bool_decide|done].
  case_bool_decide; simpl; [done|]. destruct (negb match d_requestHash d with _ => _ end); simpl; [done|].
  by destruct (_ || _).
Qed.

Lemma run_verify c d env s tx :
  acceptable tx env c d -> run (surround v) (verify w d env) s = (inr tt, s).
Proof.
  intros A. unfold verify, do, call, fail_if. simpl. rewrite (ac_claims _ _ _ _ A). simpl.
  rewrite (ac_current _ _ _ _ A). simpl. rewrite (ac_verified _ _ _ _ A). simpl.
  by rewrite (ac_describes _ _ _ _ A).
Qed.

(** The run up to the claim. *)
Lemma run_envelope tx env c d s prior :
  acceptable tx env c d ->
  run (surround v) (stored (c_id c) (messageHash d)) s = (inr prior, s) ->
  run (surround v) (envelope_prog tx env) s =
  run (surround v) match prior with
                   | Some p => Ret (prior_result p)
                   | None => claim_and_sign attachSignature (Some w) (c_id c) (c_expiresAt c) d
                               (Some (c_lastValidBlockHeight c))
                   end s.
Proof.
  intros A Hstored. pose proof A as [Hd Hc Hid _ _ _ _ [ev Hev] _]. unfold signEnvelope.
  rewrite Hd. cbn [bind raise]. rewrite Hc. unfold fail_if. unfold streq at 1. rewrite bool_decide_false by done.
  cbn [bind]. rewrite run_bind, Hstored, run_bind, (run_verify c d env s tx A). by rewrite Hev.
Qed.

Lemma run_claim_and_sign tx env c d raw t g s :
  acceptable tx env c d -> su_sign v (messageBytes d) = inr raw -> attachSignature d raw = inr (t, g) ->
  replay_keyed s -> replay_get (c_id c) s = None -> isSafeInteger (c_expiresAt c) = true ->
  exists s', run (surround v) (claim_and_sign attachSignature (Some w) (c_id c) (c_expiresAt c) d
                                 (Some (c_lastValidBlockHeight c))) s
             = (inr {| sr_transaction := t; sr_signature := Some g |}, s') /\
    sql_view (c_id c) s' = Some (X_signed, Some (signed_data (messageHash d)
      {| sr_transaction := t; sr_signature := Some g |} (Some (c_lastValidBlockHeight c)))).
Proof.
  intros A Hsign Hatt Hk Hfree Hexp. unfold claim_and_sign, do, fail_if. cbn [trigger bind run surround].
  destruct (consume_free (c_id c) (c_expiresAt c) (su_now v) s (ac_id _ _ _ _ A) Hexp Hfree)
    as (s1 & -> & Hv1 & Hk1). cbn [negb bind].
  rewrite run_bind, (run_fence c s1 (ac_alive _ _ _ _ A)). unfold signClaimed, call, do, fail_if, raise.
  cbn [trigger bind catch run surround]. rewrite Hsign. cbn [bind catch]. rewrite Hatt.
  cbn [trigger bind catch run surround fst snd].
  destruct (transition_free (c_id c) X_claimed X_signed
    (Some (signed_data (messageHash d) {| sr_transaction := t; sr_signature := Some g |} (Some (c_lastValidBlockHeight c))))
    (su_now v) s1 (Hk1 Hk)) as (s2 & E & Hv2); [by eexists|].
  rewrite E. simpl. eauto.
Qed.

(** C14: when nothing refuses (the transaction decodes, the envelope is current,
    signed and describes it, the policy accepts, the id is new, the blockhash is
    alive and the key answers) the daemon path returns the signed transaction and
    has recorded it; and the same request again returns the same result and leaves
    the store as it is, so it does not sign again. *)
Theorem signEnvelope_completes tx env c d raw t g s
    (Hok : acceptable tx env c d) (Hkeyed : keyed rr_id (signer_replay s))
    (Hnew : replay_get (c_id c) s = None)
    (Hsign : su_sign v (messageBytes d) = inr raw) (Hattach : attachSignature d raw = inr (t, g)) (Ht : t <> "") :
  exists s', run (surround v) (envelope_prog tx env) s
             = (inr {| sr_transaction := t; sr_signature := Some g |}, s') /\
    sql_view (c_id c) s' = Some (X_signed, Some (signed_data (messageHash d)
      {| sr_transaction := t; sr_signature := Some g |} (Some (c_lastValidBlockHeight c)))) /\
    run (surround v) (envelope_prog tx env) s' = (inr {| sr_transaction := t; sr_signature := Some g |}, s').
Proof.
  assert (isSafeInteger (c_expiresAt c) = true) as Hexp.
  { pose proof (ac_current _ _ _ _ Hok) as H. unfold check_claims in H. open_result H. by bool_hyps. }
  destruct (run_claim_and_sign tx env c d raw t g s Hok Hsign Hattach Hkeyed Hnew Hexp) as (s' & Hrun & Hview).
  exists s'. split; [|split; [done|]].
  - rewrite (run_envelope tx env c d s None Hok); [done|].
    rewrite (run_stored _ _ s None); [done|by apply (ac_hash _ _ _ _ Hok)|]. unfold sql_view. by rewrite Hnew.
  - rewrite (run_envelope tx env c d s' (Some (signed_data (messageHash d)
      {| sr_transaction := t; sr_signature := Some g |} (Some (c_lastValidBlockHeight c)))) Hok); [done|].
    rewrite (run_stored _ _ s' _ (ac_hash _ _ _ _ Hok) Hview). simpl.
    unfold streq. by rewrite bool_decide_true, bool_decide_false by done.
Qed.
End Completes.

Definition demo_surroundings : Surroundings :=
  {| su_now := 2000; su_verify := fun t sg _ => inr (streq sg "opsig"); su_height := inr (V_number 400);
     su_sign := fun _ => inr (replicate 64 1) |}.

Lemma demo_acceptable :
  acceptable demo_decode "FeePayer11111111" (demo_policy demo_rules) demo_wire demo_surroundings "AAE=" demo_env
    demo_claims (demo_tx demo_bytes).
Proof.
  split; [vm_compute; reflexivity|reflexivity|discriminate|discriminate|vm_compute; reflexivity
         |vm_compute; reflexivity|vm_compute; reflexivity| |].
  - exists demo_evaluation. vm_compute. reflexivity.
  - intros _. exists 400. split; [reflexivity|]. split; [reflexivity|]. vm_compute. by split.
Qed.

Lemma signEnvelope_completes_witness :
  exists s', run (surround demo_surroundings)
    (signEnvelope demo_decode demo_attach "FeePayer11111111" (demo_policy demo_rules) (Some demo_wire) "AAE=" demo_env)
    no_rows = (inr demo_result, s').
Proof.
  destruct (signEnvelope_completes demo_decode demo_attach "FeePayer11111111" (demo_policy demo_rules) demo_wire
    demo_surroundings "AAE=" demo_env demo_claims (demo_tx demo_bytes) (replicate 64 1) "AAI=" "sig" no_rows
    demo_acceptable (NoDup_nil_2) eq_refl eq_refl eq_refl ltac:(discriminate)) as (s' & H & _).
  exists s'. exact H.
Defined.
