(* ===== verification/Jobs.v ===== *)
(** `src/autonomy/jobs/index.ts`: the durable job queue.

    [JobQueue]'s methods over the two tables `jobs` and `job_attempts`.  A method
    reads the clock once, is synchronous, and so is one function on the queue; a
    method that runs in a transaction leaves the tables as they were when it
    throws.  The schemas (a third-party validator) are a parameter.  Payload
    texts are what `canonical` prints, for keys that are not array indices (those
    `JSON.stringify` would move to the front); a stored text always parses, so the check
    of `map` is left out.  The retry delay is computed with exact rationals where
    the code uses doubles. *)
From S2P Require Import Prelude Table Canonical.
From Stdlib Require Import QArith Qround.
#[local] Open Scope string_scope.
#[local] Open Scope list_scope.
#[local] Open Scope Z_scope.
#[local] Open Scope result_scope.

Inductive JobStatus : Type :=
  | J_scheduled | J_queued | J_running | J_succeeded | J_failed | J_cancelled | J_dead_letter.

#[export] Instance JobStatus_eq_dec : EqDecision JobStatus.
Proof. solve_decision. Defined.

Inductive Outcome : Type := O_succeeded | O_failed | O_cancelled.

#[export] Instance Outcome_eq_dec : EqDecision Outcome.
Proof. solve_decision. Defined.

(** A row of `jobs`. *)
Record JobRow : Type := {
  j_id : string; j_type : string; j_payload : string; j_status : JobStatus; j_scheduled_at : Z;
  j_attempt_count : Z; j_max_attempts : Z; j_idempotency_key : option string; j_backoff_ms : Z; j_jitter : Q;
  j_worker_id : option string; j_fencing_token : Z; j_lease_expires_at : option Z; j_cancel_requested : bool;
  j_result_ref : option string; j_error : option string; j_created_at : Z; j_updated_at : Z
}.

(** A row of `job_attempts`. *)
Record AttemptRow : Type := {
  a_job_id : string; a_number : Z; a_worker_id : string; a_fencing_token : Z; a_started_at : Z;
  a_finished_at : option Z; a_outcome : option Outcome; a_error : option string; a_result_ref : option string
}.

Record JobStore : Type := { jobs : list JobRow; attempts : list AttemptRow }.

Record JobQueue : Type := { db : JobStore; closed : bool; draining : bool; schemas : list string }.

Record Lease : Type := { l_job : JobRow; l_workerId : string; l_fencingToken : Z; l_expiresAt : Z }.

(** The result of a method, and the queue after it. *)
Definition jop (A : Type) : Type := JobQueue -> result A * JobQueue.

Definition set_db (s : JobStore) (q : JobQueue) : JobQueue :=
  {| db := s; closed := closed q; draining := draining q; schemas := schemas q |}.

(** *** Checks *)

Definition MAX_TEXT : Z := 1000000.

Definition validText (v name : string) (allowEmpty : bool) : result unit :=
  throw_on ((negb allowEmpty && streq v "") || (MAX_TEXT <? Z.of_nat (String.length v)))
    (String.append "Invalid or too large " name).

Definition valid_optional (v : option string) (name : string) (allowEmpty : bool) : result unit :=
  match v with Some x => validText x name allowEmpty | None => inr tt end.

(** `canonical` *)
Definition canonical_payload (v : value) : result string :=
  match canonicalSerialize v with
  | None => inl "Payload is not JSON serializable"
  | Some text => check MAX_TEXT <? Z.of_nat (String.length text) else "Payload too large"; inr text
  end.

Definition open_ (q : JobQueue) : result unit := throw_on (closed q) "JobQueue is closed".

(** `now`, of a clock reading *)
Definition now_of (clock : Z) : result Z :=
  check negb (isSafeInteger clock) || (clock <? 0) else "Invalid clock timestamp"; inr clock.

Definition check_lease (leaseMs : Z) : result unit :=
  throw_on (negb (isSafeInteger leaseMs) || (leaseMs <=? 0)) "Invalid lease".

(** *** Transactions *)

Definition body (A : Type) : Type := JobStore -> result A * JobStore.

(** `tx`: COMMIT the body's store, or ROLLBACK when it throws. *)
Definition tx {A} (b : body A) (s : JobStore) : result A * JobStore :=
  match b s with (inr a, s') => (inr a, s') | (inl e, _) => (inl e, s) end.

(** A method: its checks, which give the arguments of the transaction, and the
    transaction. *)
Definition method {A B} (checks : JobQueue -> result B) (b : B -> body A) : jop A :=
  fun q => match checks q with
           | inl e => (inl e, q)
           | inr x => let '(r, s) := tx (b x) (db q) in (r, set_db s q)
           end.

(** *** Statements *)

(** `ORDER BY scheduled_at, created_at LIMIT 1`, the first in the table of those
    that come first. *)
Definition before (x y : JobRow) : bool :=
  (j_scheduled_at x <? j_scheduled_at y) ||
  ((j_scheduled_at x =? j_scheduled_at y) && (j_created_at x <=? j_created_at y)).

Definition first_row (rows : list JobRow) : option JobRow :=
  fold_right (fun r best => match best with Some b => if before r b then Some r else Some b | None => Some r end)
    None rows.

Definition is_running (r : JobRow) : bool := bool_decide (j_status r = J_running).
Definition is_waiting (r : JobRow) : bool := bool_decide (j_status r = J_queued) || bool_decide (j_status r = J_scheduled).

(** `lease_expires_at<=now` and `lease_expires_at>now`; no lease satisfies neither. *)
Definition lease_over (now : Z) (r : JobRow) : bool :=
  match j_lease_expires_at r with Some t => t <=? now | None => false end.
Definition lease_live (now : Z) (r : JobRow) : bool :=
  match j_lease_expires_at r with Some t => now <? t | None => false end.

(** `UPDATE job_attempts SET finished_at, outcome, ... WHERE job_id AND
    fencing_token AND finished_at IS NULL`; [err] and [res] give the columns
    `error` and `result_ref`, [a_error] and [a_result_ref] where the statement
    does not name them. *)
Definition open_attempt (id : string) (token : Z) (a : AttemptRow) : bool :=
  streq (a_job_id a) id && (a_fencing_token a =? token) && bool_decide (a_finished_at a = None).

Definition finish_attempt (now : Z) (o : Outcome) (err res : AttemptRow -> option string) (a : AttemptRow) :
    AttemptRow :=
  {| a_job_id := a_job_id a; a_number := a_number a; a_worker_id := a_worker_id a;
     a_fencing_token := a_fencing_token a; a_started_at := a_started_at a; a_finished_at := Some now;
     a_outcome := Some o; a_error := err a; a_result_ref := res a |}.

Definition close_attempt (id : string) (token now : Z) (o : Outcome) (err res : AttemptRow -> option string)
    (s : JobStore) : nat * JobStore :=
  (changes (open_attempt id token) (attempts s),
   {| jobs := jobs s; attempts := update_where (open_attempt id token) (finish_attempt now o err res) (attempts s) |}).

Definition update_jobs (p : JobRow -> bool) (f : JobRow -> JobRow) (s : JobStore) : nat * JobStore :=
  (changes p (jobs s), {| jobs := update_where p f (jobs s); attempts := attempts s |}).

(** The row of a job that no worker holds any more. *)
Definition release_row (st : JobStatus) (at_ : Z) (err res : option string) (now : Z) (r : JobRow) : JobRow :=
  {| j_id := j_id r; j_type := j_type r; j_payload := j_payload r; j_status := st; j_scheduled_at := at_;
     j_attempt_count := j_attempt_count r; j_max_attempts := j_max_attempts r;
     j_idempotency_key := j_idempotency_key r; j_backoff_ms := j_backoff_ms r; j_jitter := j_jitter r;
     j_worker_id := None; j_fencing_token := j_fencing_token r; j_lease_expires_at := None;
     j_cancel_requested := j_cancel_requested r; j_result_ref := res; j_error := err;
     j_created_at := j_created_at r; j_updated_at := now |}.

(** *** `enqueue` *)

Record EnqueueOptions : Type := {
  o_id : option string; o_idempotencyKey : option string; o_scheduledAt : option Z; o_maxAttempts : option Z;
  o_backoffMs : option Z; o_jitter : option Q
}.

Definition options_invalid (at_ max back : Z) (jitter : Q) : bool :=
  negb (isSafeInteger at_) || (at_ <? 0) || (max <? 1) || negb (isSafeInteger back) || (back <? 0) ||
  negb (Qle_bool 0 jitter) || negb (Qle_bool jitter 1).

Definition has_key (key : option string) (r : JobRow) : bool :=
  match key with Some k => bool_decide (j_idempotency_key r = Some k) | None => false end.

(** `INSERT ... ON CONFLICT(idempotency_key) DO NOTHING`: the key is looked at
    first; a taken id is an error of the database. *)
Definition insert_job (r : JobRow) (s : JobStore) : result JobStore :=
  if existsb (has_key (j_idempotency_key r)) (jobs s) then inr s
  else match insert j_id r (jobs s) with
       | Some t => inr {| jobs := t; attempts := attempts s |}
       | None => inl "UNIQUE constraint failed: jobs.id"
       end.

Definition enqueue_body (r : JobRow) : body JobRow := fun s =>
  match insert_job r s with
  | inl e => (inl e, s)
  | inr s1 =>
      match j_idempotency_key r with
      | Some _ =>
          match List.find (has_key (j_idempotency_key r)) (jobs s1) with
          | Some x =>
              if negb (streq (j_type x) (j_type r)) || negb (streq (j_payload x) (j_payload r))
              then (inl "Idempotency key conflict", s1) else (inr x, s1)
          | None => (inl "row missing", s1)
          end
      | None => match get j_id (j_id r) (jobs s1) with Some x => (inr x, s1) | None => (inl "row missing", s1) end
      end
  end.

(** `register` *)
Definition register (type : string) : jop unit := fun q =>
  match (let? _u := open_ q in validText type "job type" false) with
  | inl e => (inl e, q)
  | inr _ => (inr tt, {| db := db q; closed := closed q; draining := draining q;
                         schemas := if includes (schemas q) type then schemas q else type :: schemas q |})
  end.

Section Enqueue.
(** `schema.safeParse` of a registered type; the message of the issue otherwise. *)
Context (safeParse : string -> value -> result value).

(** [uuid] is what `randomUUID()` would give. *)
Definition enqueue_checks (type : string) (payload : value) (o : EnqueueOptions) (uuid : string) (clock : Z)
    (q : JobQueue) : result JobRow :=
  let? _u := open_ q in
  check negb (includes (schemas q) type) else String.append "Unknown job type: " type;
  let? data := match safeParse type payload with
               | inl e => inl (String.append "Invalid job payload: " e) | inr d => inr d end in
  let? json := canonical_payload data in
  let? now := now_of clock in
  let at_ := default now (o_scheduledAt o) in
  let max := default 3 (o_maxAttempts o) in
  let back := default 1000 (o_backoffMs o) in
  let jitter := default 0%Q (o_jitter o) in
  let id := default uuid (o_id o) in
  let? _u := validText id "job id" false in
  let? _u := valid_optional (o_idempotencyKey o) "idempotency key" false in
  check options_invalid at_ max back jitter else "Invalid retry options";
  inr {| j_id := id; j_type := type; j_payload := json;
         j_status := if now <? at_ then J_scheduled else J_queued; j_scheduled_at := at_;
         j_attempt_count := 0; j_max_attempts := max; j_idempotency_key := o_idempotencyKey o;
         j_backoff_ms := back; j_jitter := jitter; j_worker_id := None; j_fencing_token := 0;
         j_lease_expires_at := None; j_cancel_requested := false; j_result_ref := None; j_error := None;
         j_created_at := now; j_updated_at := now |}.

Definition enqueue (type : string) (payload : value) (o : EnqueueOptions) (uuid : string) (clock : Z) : jop JobRow :=
  method (enqueue_checks type payload o uuid clock) enqueue_body.
End Enqueue.

(** `get` *)
Definition get_job (id : string) : jop (option JobRow) := fun q =>
  (let? _u := open_ q in inr (get j_id id (jobs (db q))), q).

(** *** `claim` *)

Definition expired_row (now : Z) (r : JobRow) : bool := is_running r && lease_over now r.

(** What becomes of a job whose lease ran out. *)
Definition recovered_status (r : JobRow) : JobStatus :=
  if j_cancel_requested r then J_cancelled
  else if j_max_attempts r <=? j_attempt_count r then J_dead_letter else J_queued.

(** One turn of the recovery loop, on the expired row it read. *)
Definition recover_row (now : Z) (r : JobRow) : body unit := fun s =>
  let cancel := j_cancel_requested r in
  let err := if cancel then None else Some "Lease expired" in
  let '(a, s1) := close_attempt (j_id r) (j_fencing_token r) now (if cancel then O_cancelled else O_failed)
                    (fun _ => err) a_result_ref s in
  if negb (a =? 1)%nat then (inl "Expired attempt missing or already finalized", s1)
  else
    let '(j, s2) := update_jobs
          (fun x => streq (j_id x) (j_id r) && is_running x && (j_fencing_token x =? j_fencing_token r))
          (fun x => release_row (recovered_status r) (j_scheduled_at x) err (j_result_ref x) now x) s1 in
    if negb (j =? 1)%nat then (inl "Lease recovery fencing conflict", s2) else (inr tt, s2).

(** The loop `for (;;)`.  Each turn ends a running job, so [fuel] the number of
    expired rows is enough. *)
Fixpoint recover_expired (fuel : nat) (now : Z) (s : JobStore) : result unit * JobStore :=
  match first_row (List.filter (expired_row now) (jobs s)) with
  | None => (inr tt, s)
  | Some r =>
      match fuel with
      | O => (inl "out of fuel", s)
      | S fuel' =>
          match recover_row now r s with
          | (inl e, s1) => (inl e, s1)
          | (inr _, s1) => recover_expired fuel' now s1
          end
      end
  end.

Definition claimable (now : Z) (r : JobRow) : bool :=
  negb (j_cancel_requested r) && is_waiting r && (j_scheduled_at r <=? now) &&
  (j_attempt_count r <? j_max_attempts r).

Definition claim_row (workerId : string) (expires now : Z) (r : JobRow) : JobRow :=
  {| j_id := j_id r; j_type := j_type r; j_payload := j_payload r; j_status := J_running;
     j_scheduled_at := j_scheduled_at r; j_attempt_count := j_attempt_count r + 1;
     j_max_attempts := j_max_attempts r; j_idempotency_key := j_idempotency_key r;
     j_backoff_ms := j_backoff_ms r; j_jitter := j_jitter r; j_worker_id := Some workerId;
     j_fencing_token := j_fencing_token r + 1; j_lease_expires_at := Some expires;
     j_cancel_requested := j_cancel_requested r; j_result_ref := j_result_ref r; j_error := j_error r;
     j_created_at := j_created_at r; j_updated_at := now |}.

Definition new_attempt (r : JobRow) (workerId : string) (now : Z) : AttemptRow :=
  {| a_job_id := j_id r; a_number := j_attempt_count r; a_worker_id := workerId;
     a_fencing_token := j_fencing_token r; a_started_at := now; a_finished_at := None; a_outcome := None;
     a_error := None; a_result_ref := None |}.

(** `INSERT INTO job_attempts`, UNIQUE(job_id,number). *)
Definition insert_attempt (a : AttemptRow) (s : JobStore) : option JobStore :=
  if existsb (fun x => streq (a_job_id x) (a_job_id a) && (a_number x =? a_number a)) (attempts s) then None
  else Some {| jobs := jobs s; attempts := attempts s ++ [a] |}.

(** Give a worker the job [id]. *)
Definition take_job (workerId id : string) (leaseMs now : Z) : body (option Lease) := fun s =>
  let expires := now + leaseMs in
  let '(x, s1) := update_jobs
        (fun r => streq (j_id r) id && is_waiting r && (j_scheduled_at r <=? now) &&
                  (j_attempt_count r <? j_max_attempts r))
        (claim_row workerId expires now) s in
  if negb (x =? 1)%nat then (inl "Claim fencing conflict", s1)
  else
    match get j_id id (jobs s1) with
    | None => (inl "row missing", s1)
    | Some row =>
        match insert_attempt (new_attempt row workerId now) s1 with
        | None => (inl "UNIQUE constraint failed: job_attempts", s1)
        | Some s2 => (inr (Some {| l_job := row; l_workerId := workerId; l_fencingToken := j_fencing_token row;
                                   l_expiresAt := expires |}), s2)
        end
    end.

Definition claim_body (workerId : string) (leaseMs now : Z) : body (option Lease) := fun s =>
  match recover_expired (length (List.filter (expired_row now) (jobs s))) now s with
  | (inl e, s1) => (inl e, s1)
  | (inr _, s1) =>
      match first_row (List.filter (claimable now) (jobs s1)) with
      | None => (inr None, s1)
      | Some r => take_job workerId (j_id r) leaseMs now s1
      end
  end.

Definition claim_checks (workerId : string) (leaseMs clock : Z) (q : JobQueue) : result Z :=
  let? _u := validText workerId "worker id" false in
  let? _u := check_lease leaseMs in
  let? now := now_of clock in
  check negb (isSafeInteger (now + leaseMs)) else "Invalid lease";
  inr now.

Definition claim (workerId : string) (leaseMs clock : Z) : jop (option Lease) := fun q =>
  match open_ q with
  | inl e => (inl e, q)
  | inr _ =>
      if draining q then (inr None, q)
      else method (claim_checks workerId leaseMs clock) (claim_body workerId leaseMs) q
  end.

(** *** Lease holders *)

(** `WHERE id AND status='running' AND worker_id AND fencing_token` *)
Definition assigned (l : Lease) (r : JobRow) : bool :=
  streq (j_id r) (j_id (l_job l)) && is_running r && bool_decide (j_worker_id r = Some (l_workerId l)) &&
  (j_fencing_token r =? l_fencingToken l).

(** ... `AND lease_expires_at>now` *)
Definition holder (l : Lease) (now : Z) (r : JobRow) : bool := assigned l r && lease_live now r.

(** `heartbeat` *)
Definition extend_lease (expires now : Z) (r : JobRow) : JobRow :=
  {| j_id := j_id r; j_type := j_type r; j_payload := j_payload r; j_status := j_status r;
     j_scheduled_at := j_scheduled_at r; j_attempt_count := j_attempt_count r;
     j_max_attempts := j_max_attempts r; j_idempotency_key := j_idempotency_key r;
     j_backoff_ms := j_backoff_ms r; j_jitter := j_jitter r; j_worker_id := j_worker_id r;
     j_fencing_token := j_fencing_token r; j_lease_expires_at := Some expires;
     j_cancel_requested := j_cancel_requested r; j_result_ref := j_result_ref r; j_error := j_error r;
     j_created_at := j_created_at r; j_updated_at := now |}.

Definition heartbeat_checks (leaseMs clock : Z) (q : JobQueue) : result Z :=
  let? _u := open_ q in
  let? _u := check_lease leaseMs in
  let? now := now_of clock in
  check negb (isSafeInteger (now + leaseMs)) else "Invalid lease";
  inr now.

Definition heartbeat_body (l : Lease) (leaseMs now : Z) : body bool := fun s =>
  let '(x, s1) := update_jobs (fun r => holder l now r && negb (j_cancel_requested r))
                    (extend_lease (now + leaseMs) now) s in
  (inr (x =? 1)%nat, s1).

Definition heartbeat (l : Lease) (leaseMs clock : Z) : jop bool :=
  method (heartbeat_checks leaseMs clock) (heartbeat_body l leaseMs).

(** The end of an attempt by its holder: the job, then the attempt. *)
Definition settle_held (l : Lease) (now : Z) (f : JobRow -> JobRow) (o : Outcome)
    (err res : AttemptRow -> option string) (answer : bool) : body bool := fun s =>
  let '(x, s1) := update_jobs (holder l now) f s in
  if negb (x =? 1)%nat then (inr false, s1)
  else
    let '(a, s2) := close_attempt (j_id (l_job l)) (l_fencingToken l) now o err res s1 in
    if negb (a =? 1)%nat then (inl "Attempt finalization failed", s2) else (inr answer, s2).

(** The transaction of `complete`. *)
Definition complete_body (l : Lease) (resultRef : option string) (now : Z) : body bool := fun s =>
  match List.find (holder l now) (jobs s) with
  | None => (inr false, s)
  | Some r =>
      let cancelled := j_cancel_requested r in
      let res := if cancelled then None else resultRef in
      settle_held l now
        (fun x => release_row (if cancelled then J_cancelled else J_succeeded) (j_scheduled_at x) (j_error x) res now x)
        (if cancelled then O_cancelled else O_succeeded) a_error (fun _ => res) (negb cancelled) s
  end.

Definition complete (l : Lease) (resultRef : option string) (clock : Z) : jop bool := fun q =>
  match (let? _u := open_ q in valid_optional resultRef "result reference" true) with
  | inl e => (inl e, q)
  | inr _ =>
      match get j_id (j_id (l_job l)) (jobs (db q)) with
      | Some x =>
          if bool_decide (j_status x = J_succeeded) then (inr (bool_decide (j_result_ref x = resultRef)), q)
          else method (fun _ => now_of clock) (complete_body l resultRef) q
      | None => method (fun _ => now_of clock) (complete_body l resultRef) q
      end
  end.

(** The delay before a retry, in milliseconds; [random] is the draw. *)
Definition retry_delay (r : JobRow) (random : Q) : Q :=
  (inject_Z (j_backoff_ms r) * Qpower 2 (j_attempt_count r - 1) * (1 + j_jitter r * random))%Q.

(** `Math.round` *)
Definition round (x : Q) : Z := Qfloor (x + (1 # 2))%Q.

(** The status and the next time of a failed job. *)
Definition failed_status (r : JobRow) (random : Q) (now : Z) : result (JobStatus * Z) :=
  if j_cancel_requested r then inr (J_cancelled, now)
  else if j_max_attempts r <=? j_attempt_count r then inr (J_dead_letter, now)
  else
    let at_ := now + round (retry_delay r random) in
    check negb (isSafeInteger at_) else "Retry backoff overflow";
    inr (J_scheduled, at_).

(** The transaction of `fail`. *)
Definition fail_body (l : Lease) (error : string) (random : Q) (now : Z) : body bool := fun s =>
  match List.find (holder l now) (jobs s) with
  | None => (inr false, s)
  | Some r =>
      match failed_status r random now with
      | inl e => (inl e, s)
      | inr (status, at_) =>
          settle_held l now (fun x => release_row status at_ (Some error) (j_result_ref x) now x)
            (if bool_decide (status = J_cancelled) then O_cancelled else O_failed) (fun _ => Some error) a_result_ref
            true s
      end
  end.

Definition fail_checks (error : string) (clock : Z) (q : JobQueue) : result Z :=
  let? _u := open_ q in
  let? _u := validText error "error" true in
  now_of clock.

Definition fail (l : Lease) (error : string) (random : Q) (clock : Z) : jop bool :=
  method (fail_checks error clock) (fail_body l error random).

(** *** `cancel` *)

Definition terminal (st : JobStatus) : bool :=
  match st with J_succeeded | J_failed | J_cancelled | J_dead_letter => true | _ => false end.

Definition cancel_row (st : JobStatus) (now : Z) (r : JobRow) : JobRow :=
  {| j_id := j_id r; j_type := j_type r; j_payload := j_payload r; j_status := st;
     j_scheduled_at := j_scheduled_at r; j_attempt_count := j_attempt_count r;
     j_max_attempts := j_max_attempts r; j_idempotency_key := j_idempotency_key r;
     j_backoff_ms := j_backoff_ms r; j_jitter := j_jitter r; j_worker_id := j_worker_id r;
     j_fencing_token := j_fencing_token r; j_lease_expires_at := j_lease_expires_at r;
     j_cancel_requested := true; j_result_ref := j_result_ref r; j_error := j_error r;
     j_created_at := j_created_at r; j_updated_at := now |}.

Definition cancel_body (id : string) (now : Z) : body bool := fun s =>
  match get j_id id (jobs s) with
  | None => (inr false, s)
  | Some r =>
      if terminal (j_status r) then (inr false, s)
      else if is_running r
      then (inr true, snd (update_jobs (fun x => streq (j_id x) id && is_running x)
                             (fun x => cancel_row (j_status x) now x) s))
      else (inr true, snd (update_jobs (fun x => streq (j_id x) id && is_waiting x) (cancel_row J_cancelled now) s))
  end.

Definition cancel (id : string) (clock : Z) : jop bool :=
  method (fun q => let? _u := open_ q in now_of clock) (cancel_body id).

Definition isCancellationRequested (l : Lease) : jop bool := fun q =>
  (let? _u := open_ q in
   inr (match List.find (assigned l) (jobs (db q)) with Some r => j_cancel_requested r | None => false end), q).

(** *** The rest *)

(** `attempts`, `ORDER BY number`: rows are appended in that order. *)
Definition attempts_of (id : string) : jop (list AttemptRow) := fun q =>
  (let? _u := open_ q in inr (select (fun a => streq (a_job_id a) id) (attempts (db q))), q).

Definition beginDrain : jop unit := fun q =>
  match open_ q with
  | inl e => (inl e, q)
  | inr _ => (inr tt, {| db := db q; closed := closed q; draining := true; schemas := schemas q |})
  end.

Definition close (q : JobQueue) : JobQueue :=
  {| db := db q; closed := true; draining := draining q; schemas := schemas q |}.
