(* ===== verification/JobSafety.v ===== *)
(** What the job queue guarantees (`src/autonomy/jobs/index.ts`).

    The invariant that ties a job to its attempts, that every operation keeps it,
    that no transaction can meet the inconsistencies its checks throw for, and
    that recovery of expired leases ends. *)
From S2P Require Import Prelude Table Canonical Jobs.
From Stdlib Require Import QArith.
#[local] Open Scope string_scope.
#[local] Open Scope list_scope.
#[local] Open Scope Z_scope.

(** *** The invariant *)

(** The attempts of a job, in the order they were made. *)
Definition of_job (id : string) (t : list AttemptRow) : list AttemptRow := select (fun a => streq (a_job_id a) id) t.

(** A job and its attempts: one attempt per number up to the count, the fencing
    token being the number; only the last one of a running job is unfinished, and
    its worker holds the lease; a waiting job has an attempt left and is not
    cancelled; an attempt that succeeded is the last one of a succeeded job. *)
Record row_ok (l : list AttemptRow) (r : JobRow) : Prop := {
  ro_count : 0 <= j_attempt_count r <= j_max_attempts r;
  ro_token : j_fencing_token r = j_attempt_count r;
  ro_numbers : map a_number l = map Z.of_nat (seq 1 (Z.to_nat (j_attempt_count r)));
  ro_fencing : forall a, a ∈ l -> a_fencing_token a = a_number a;
  ro_open : forall a, a ∈ l ->
    a_finished_at a = None <-> (j_status r = J_running /\ a_number a = j_attempt_count r);
  ro_worker : forall a, a ∈ l -> a_finished_at a = None -> j_worker_id r = Some (a_worker_id a);
  ro_running : j_status r = J_running <-> j_lease_expires_at r <> None;
  ro_started : j_status r = J_running -> 1 <= j_attempt_count r;
  ro_waiting : is_waiting r = true -> j_attempt_count r < j_max_attempts r /\ j_cancel_requested r = false;
  ro_success : forall a, a ∈ l -> a_outcome a = Some O_succeeded ->
    j_status r = J_succeeded /\ a_number a = j_attempt_count r
}.

Record store_ok (s : JobStore) : Prop := {
  so_keyed : keyed j_id (jobs s);
  so_keys : NoDup (omap j_idempotency_key (jobs s));
  so_rows : forall r, r ∈ jobs s -> row_ok (of_job (j_id r) (attempts s)) r;
  so_owned : forall a, a ∈ attempts s -> exists r, r ∈ jobs s /\ j_id r = a_job_id a
}.

(** *** How the tables evolve *)

(** What a job keeps for ever; a finished job keeps everything. *)
Definition job_evolves (r r' : JobRow) : Prop :=
  j_id r' = j_id r /\ j_type r' = j_type r /\ j_payload r' = j_payload r /\
  j_idempotency_key r' = j_idempotency_key r /\ j_max_attempts r' = j_max_attempts r /\
  j_fencing_token r <= j_fencing_token r' /\
  (terminal (j_status r) = true -> r' = r).

(** What an attempt keeps for ever; a finished attempt keeps everything. *)
Definition attempt_evolves (a a' : AttemptRow) : Prop :=
  a_job_id a' = a_job_id a /\ a_number a' = a_number a /\ a_worker_id a' = a_worker_id a /\
  a_fencing_token a' = a_fencing_token a /\ a_started_at a' = a_started_at a /\
  (a_finished_at a <> None -> a' = a).

Definition evolves (s s' : JobStore) : Prop :=
  (forall r, r ∈ jobs s -> exists r', r' ∈ jobs s' /\ job_evolves r r') /\
  (forall a, a ∈ attempts s -> exists a', a' ∈ attempts s' /\ attempt_evolves a a').

Lemma job_evolves_refl r : job_evolves r r.
Proof. unfold job_evolves. split_and!; auto; lia. Qed.

Lemma attempt_evolves_refl a : attempt_evolves a a.
Proof. by repeat split. Qed.

Lemma evolves_refl s : evolves s s.
Proof. split; intros x Hx; exists x; auto using job_evolves_refl, attempt_evolves_refl. Qed.

Lemma attempt_evolves_trans a b c : attempt_evolves a b -> attempt_evolves b c -> attempt_evolves a c.
Proof.
  intros (H1 & H2 & H3 & H4 & H5 & H6) (G1 & G2 & G3 & G4 & G5 & G6). split_and!; try congruence.
  intros Hf. rewrite (H6 Hf) in *. auto.
Qed.

Lemma job_evolves_trans a b c : job_evolves a b -> job_evolves b c -> job_evolves a c.
Proof.
  intros (H1 & H2 & H3 & H4 & H5 & H6 & H7) (G1 & G2 & G3 & G4 & G5 & G6 & G7). split_and!; try congruence; [lia|].
  intros Hf. rewrite (H7 Hf) in *. auto.
Qed.

Lemma evolves_trans s1 s2 s3 : evolves s1 s2 -> evolves s2 s3 -> evolves s1 s3.
Proof.
  intros [H1 H2] [G1 G2]. split.
  - intros r Hr. destruct (H1 r Hr) as (r' & Hr' & E1). destruct (G1 r' Hr') as (r'' & Hr'' & E2).
    eauto using job_evolves_trans.
  - intros a Ha. destruct (H2 a Ha) as (a' & Ha' & E1). destruct (G2 a' Ha') as (a'' & Ha'' & E2).
    eauto using attempt_evolves_trans.
Qed.

(** *** Finding rows *)

Section Rows.
Context (s : JobStore) (Hok : store_ok s).

Lemma job_unique r r' : r ∈ jobs s -> r' ∈ jobs s -> j_id r = j_id r' -> r = r'.
Proof. by apply (keyed_same j_id), so_keyed. Qed.

Lemma of_job_elem id a : a ∈ of_job id (attempts s) <-> a ∈ attempts s /\ a_job_id a = id.
Proof. unfold of_job. by rewrite select_elem, streq_spec. Qed.

Lemma of_job_keyed r : r ∈ jobs s -> keyed a_number (of_job (j_id r) (attempts s)).
Proof.
  intros Hr. unfold keyed. rewrite (ro_numbers _ _ (so_rows _ Hok r Hr)).
  apply (NoDup_fmap_2 Z.of_nat), NoDup_seq.
Qed.

(** The current attempt of a running job. *)
Lemma current_attempt r :
  r ∈ jobs s -> j_status r = J_running ->
  exists a, a ∈ of_job (j_id r) (attempts s) /\ a_number a = j_attempt_count r /\ a_finished_at a = None.
Proof.
  intros Hr Hrun. destruct (so_rows _ Hok r Hr) as [Hc _ Hn _ Ho _ _ Hst _ _].
  assert (j_attempt_count r ∈ map a_number (of_job (j_id r) (attempts s))) as Hin.
  { rewrite Hn. apply list_elem_of_fmap. exists (Z.to_nat (j_attempt_count r)).
    specialize (Hst Hrun). split; [lia|]. apply elem_of_seq. lia. }
  apply list_elem_of_fmap in Hin as (a & Hnum & Ha). exists a. split_and!; [done..|]. by apply Ho.
Qed.

(** The statement that closes the current attempt touches exactly one row. *)
Lemma close_one r :
  r ∈ jobs s -> j_status r = J_running ->
  changes (open_attempt (j_id r) (j_fencing_token r)) (attempts s) = 1%nat.
Proof.
  intros Hr Hrun. destruct (current_attempt r Hr Hrun) as (a & Ha & Hnum & Hfin).
  pose proof (so_rows _ Hok r Hr) as [_ Htok _ Hf _ _ _ _ _ _].
  transitivity (changes (open_attempt (j_id r) (j_fencing_token r)) (of_job (j_id r) (attempts s))).
  { unfold changes, of_job, select. f_equal. apply filter_filter_same. intros x Hx.
    unfold open_attempt in Hx. bool_hyps. by apply streq_spec. }
  apply (changes_one a_number _ a); [by apply of_job_keyed|done| |].
  - pose proof (Hf _ Ha). apply of_job_elem in Ha as [_ Hid]. unfold open_attempt.
    rewrite Hid, streq_refl, Hfin, bool_decide_true by done. simpl. rewrite andb_true_r. apply Z.eqb_eq. lia.
  - intros x Hx Hp. unfold open_attempt in Hp. bool_hyps. rewrite <- (Hf x Hx). lia.
Qed.
End Rows.

(** *** One job changes *)

Lemma omap_via_map {A B} (g : A -> option B) l : omap g l = omap id (map g l).
Proof. induction l as [|x l IH]; csimpl; [done|]. by rewrite IH. Qed.

Section Update.
Context (s : JobStore) (Hok : store_ok s) (r : JobRow) (Hr : r ∈ jobs s).
Context (p : JobRow -> bool) (f : JobRow -> JobRow).
Context (Hp : p r = true) (Honly : forall x, p x = true -> j_id x = j_id r).
Context (Hid : j_id (f r) = j_id r) (Hkey : j_idempotency_key (f r) = j_idempotency_key r).

Lemma selects x : x ∈ jobs s -> p x = true <-> x = r.
Proof.
  intros Hx. split; [|by intros ->]. intros Hpx. by apply (job_unique s Hok); [..|apply Honly].
Qed.

Lemma same_job x : x ∈ jobs s -> x = r \/ x <> r.
Proof.
  intros Hx. destruct (decide (j_id x = j_id r)) as [E|E]; [left|right; congruence].
  by apply (job_unique s Hok).
Qed.

Lemma selects_changes : changes p (jobs s) = 1%nat.
Proof. apply (changes_one j_id _ r); auto using so_keyed. Qed.

Lemma updated x : x ∈ update_where p f (jobs s) <-> x = f r \/ (x ∈ jobs s /\ x <> r).
Proof.
  unfold update_where. rewrite list_elem_of_fmap. split.
  - intros (y & -> & Hy). destruct (p y) eqn:E.
    + apply selects in E as ->; auto.
    + right. split; [done|]. intros ->. congruence.
  - intros [-> |[Hx Hne]].
    + exists r. by rewrite Hp.
    + exists x. destruct (p x) eqn:E; [|done]. by apply selects in E.
Qed.

Lemma updated_columns {B} (g : JobRow -> B) : g (f r) = g r -> map g (update_where p f (jobs s)) = map g (jobs s).
Proof.
  intros Hg. unfold update_where. rewrite map_map. apply map_ext_in. intros x Hx%list_elem_of_In.
  destruct (p x) eqn:E; [|done]. by apply selects in E as ->.
Qed.

(** The store with that job's row and attempts replaced. *)
Lemma update_store_ok atts :
  (forall id, id <> j_id r -> of_job id atts = of_job id (attempts s)) ->
  (forall a, a ∈ atts -> exists r0, r0 ∈ jobs s /\ j_id r0 = a_job_id a) ->
  row_ok (of_job (j_id r) atts) (f r) ->
  store_ok {| jobs := update_where p f (jobs s); attempts := atts |}.
Proof.
  intros Hother Howned Hrow. split; simpl.
  - unfold keyed. rewrite updated_columns by done. apply so_keyed, Hok.
  - rewrite omap_via_map, updated_columns, <- omap_via_map by done. apply so_keys, Hok.
  - intros x [-> |[Hx Hne]]%updated; [by rewrite Hid|]. rewrite Hother; [by apply so_rows|].
    intros E. by apply Hne, (job_unique s Hok).
  - intros a Ha. destruct (Howned a Ha) as (r0 & Hr0 & E).
    destruct (same_job r0 Hr0) as [-> |Hne]; [exists (f r)|exists r0]; rewrite updated; [|by auto].
    split; [by left|congruence].
Qed.

Lemma update_jobs_evolve : job_evolves r (f r) ->
  forall x, x ∈ jobs s -> exists x', x' ∈ update_where p f (jobs s) /\ job_evolves x x'.
Proof.
  intros He x Hx. destruct (same_job x Hx) as [-> |Hne].
  - exists (f r). split; [|done]. apply updated. by left.
  - exists x. split; [|apply job_evolves_refl]. apply updated. by right.
Qed.
End Update.

(** *** The end of an attempt *)

(** The statuses a running job may end in, with the outcome of the attempt. *)
Definition may_end (r : JobRow) (st : JobStatus) (o : Outcome) : Prop :=
  st <> J_running /\ (o = O_succeeded -> st = J_succeeded) /\
  (st = J_queued \/ st = J_scheduled -> j_attempt_count r < j_max_attempts r /\ j_cancel_requested r = false).

Lemma update_map {Row B} (g : Row -> B) p f (t : list Row) :
  (forall x, g (f x) = g x) -> map g (update_where p f t) = map g t.
Proof. intros Hg. unfold update_where. rewrite map_map. apply map_ext. intros x. by destruct (p x). Qed.

Lemma release_row_ok l r st at_ e rs now o ea ra :
  row_ok l r -> (forall a, a ∈ l -> a_job_id a = j_id r) -> j_status r = J_running -> may_end r st o ->
  row_ok (update_where (open_attempt (j_id r) (j_fencing_token r)) (finish_attempt now o ea ra) l)
    (release_row st at_ e rs now r).
Proof.
  intros [Hc Ht Hn Hf Ho Hw Hr Hs Hwait Hsucc] Hown Hrun (Hst & Hout & Hagain).
  assert (forall a, a ∈ l -> open_attempt (j_id r) (j_fencing_token r) a = bool_decide (a_finished_at a = None)) as Hopen.
  { intros a Ha. unfold open_attempt. rewrite Hown, streq_refl by done. simpl.
    case_bool_decide as Hfin; [|by rewrite andb_false_r]. rewrite andb_true_r. apply Z.eqb_eq.
    rewrite (Hf a Ha). apply Ho in Hfin as [_ ->]; [lia|done]. }
  assert (forall a, a ∈ update_where (open_attempt (j_id r) (j_fencing_token r)) (finish_attempt now o ea ra) l ->
    exists b, b ∈ l /\ a_number a = a_number b /\ a_fencing_token a = a_fencing_token b /\ a_finished_at a <> None /\
      (a_outcome a = Some O_succeeded -> o = O_succeeded /\ a_number b = j_attempt_count r)) as Hall.
  { intros a (b & Hb & ->)%update_elem. exists b. rewrite Hopen by done. case_bool_decide as Hfin; simpl.
    - split_and!; try done. intros [= ->]. split; [done|]. by apply Ho in Hfin as [_ ?].
    - split_and!; try done. intros Hsu. destruct (Hsucc _ Hb Hsu) as [? _]. congruence. }
  split; simpl; try done.
  - rewrite update_map; done.
  - intros a (b & Hb & -> & -> & _)%Hall. by apply Hf.
  - intros a (b & Hb & _ & _ & Hfin & _)%Hall. split; [by intros ?|]. by intros [? _].
  - intros a (b & Hb & _ & _ & Hfin & _)%Hall. by intros ?.
  - unfold is_waiting. simpl. intros Hwt. apply orb_true_iff in Hwt as [Hwt|Hwt]; bool_hyps; auto.
  - intros a (b & Hb & Hnum & _ & _ & Hsu)%Hall Hsucc'. destruct (Hsu Hsucc') as [-> Hnb].
    rewrite Hnum. split; [by apply Hout|done].
Qed.

Section Finish.
Context (s : JobStore) (Hok : store_ok s) (r : JobRow) (Hr : r ∈ jobs s) (Hrun : j_status r = J_running).
Context (p : JobRow -> bool) (f : JobRow -> JobRow) (st : JobStatus) (at_ now : Z) (e rs : option string)
        (o : Outcome) (ea ra : AttemptRow -> option string).
Context (Hp : p r = true) (Honly : forall x, p x = true -> j_id x = j_id r)
        (Hf : f r = release_row st at_ e rs now r) (Hend : may_end r st o).

Definition finished_store : JobStore :=
  {| jobs := update_where p f (jobs s);
     attempts := update_where (open_attempt (j_id r) (j_fencing_token r)) (finish_attempt now o ea ra) (attempts s) |}.

Lemma finish_of_job id :
  of_job id (attempts finished_store) =
  update_where (open_attempt (j_id r) (j_fencing_token r)) (finish_attempt now o ea ra) (of_job id (attempts s)).
Proof. unfold of_job. simpl. by apply select_update. Qed.

Lemma finish_ok : store_ok finished_store.
Proof.
  apply (update_store_ok s Hok r Hr); try done; rewrite ?Hf; try done.
  - intros id Hne. change (update_where _ _ (attempts s)) with (attempts finished_store). rewrite finish_of_job.
    apply update_where_none. intros a [_ Ha]%of_job_elem. unfold open_attempt.
    destruct (streq (a_job_id a) (j_id r)) eqn:E; [|done]. bool_hyps. congruence.
  - intros a (b & Hb & ->)%update_elem. destruct (so_owned _ Hok b Hb) as (r0 & ? & E). exists r0. split; [done|].
    by destruct (open_attempt _ _ b).
  - change (update_where _ _ (attempts s)) with (attempts finished_store). rewrite finish_of_job.
    apply release_row_ok; [by apply so_rows| |done|done]. by intros a [_ ?]%of_job_elem.
Qed.

Lemma finish_evolves : evolves s finished_store.
Proof.
  split.
  - apply (update_jobs_evolve s Hok r Hr p f Hp Honly); rewrite Hf; [done|]. unfold job_evolves. simpl.
    rewrite Hrun. split_and!; done.
  - intros a Ha. eexists. split; [apply list_elem_of_fmap; by exists a|].
    destruct (open_attempt _ _ a) eqn:E; [|apply attempt_evolves_refl].
    unfold open_attempt in E. bool_hyps. by repeat split.
Qed.
End Finish.

(** *** Recovery *)

Lemma first_row_in l r : first_row l = Some r -> r ∈ l.
Proof.
  revert r. induction l as [|x l IH]; intros r; simpl; [done|].
  destruct (first_row l) as [b|] eqn:E.
  - destruct (before x b); intros [= <-]; [left|right; by apply IH].
  - intros [= <-]. left.
Qed.

Lemma first_row_none l : first_row l = None -> l = [].
Proof. destruct l as [|x l]; simpl; [done|]. destruct (first_row l) as [b|]; [by destruct (before x b)|done]. Qed.

Lemma filter_elem {A} (q : A -> bool) l x : x ∈ List.filter q l <-> x ∈ l /\ q x = true.
Proof. by rewrite !list_elem_of_In, filter_In. Qed.

Lemma row_running r : is_running r = true <-> j_status r = J_running.
Proof. unfold is_running. by rewrite bool_decide_eq_true. Qed.

Lemma recover_row_ok now r s :
  store_ok s -> r ∈ jobs s -> expired_row now r = true ->
  exists s', recover_row now r s = (inr tt, s') /\ store_ok s' /\ evolves s s' /\
    (length (List.filter (expired_row now) (jobs s')) < length (List.filter (expired_row now) (jobs s)))%nat.
Proof.
  intros Hok Hr Hexp. unfold expired_row in Hexp. apply andb_true_iff in Hexp as [Hrun Hover].
  pose proof (proj1 (row_running r) Hrun) as Hst.
  set (p := fun x => streq (j_id x) (j_id r) && is_running x && (j_fencing_token x =? j_fencing_token r)).
  assert (p r = true) as Hp by (unfold p; by rewrite streq_refl, Hrun, Z.eqb_refl).
  assert (forall x, p x = true -> j_id x = j_id r) as Honly by (intros x Hx; unfold p in Hx; by bool_hyps).
  set (err := if j_cancel_requested r then None else Some "Lease expired").
  set (o := if j_cancel_requested r then O_cancelled else O_failed).
  set (f := fun x => release_row (recovered_status r) (j_scheduled_at x) err (j_result_ref x) now x).
  assert (may_end r (recovered_status r) o) as Hend.
  { unfold may_end, recovered_status, o. destruct (j_cancel_requested r) eqn:Ec.
    - split_and!; try done. by intros [|].
    - destruct (_ <=? _) eqn:Em; split_and!; try done; [by intros [|]|]. intros _. bool_hyps. split; [lia|done]. }
  exists (finished_store s r p f now o (fun _ => err) a_result_ref). split; [|split; [|split]].
  - unfold recover_row, close_attempt. fold err o. rewrite (close_one s Hok r Hr Hst). cbn -[update_jobs].
    unfold update_jobs. cbn [jobs attempts]. fold p f. by rewrite (selects_changes s Hok r Hr p Hp Honly).
  - by eapply finish_ok.
  - by eapply finish_evolves.
  - cbn [jobs finished_store].
    rewrite <- (filter_update_less (expired_row now) p f (jobs s)); [rewrite (selects_changes s Hok r Hr p Hp Honly); lia|].
    intros x Hx Hpx. apply (selects s Hok r Hr p Hp Honly) in Hpx as ->; [|done]. split.
    + unfold expired_row. by rewrite Hrun.
    + unfold expired_row, f, is_running. simpl. destruct Hend as [Hne _]. by rewrite bool_decide_false.
Qed.

(** The recovery loop ends, with no expired lease left. *)
Lemma recover_expired_ok fuel now s :
  store_ok s -> (length (List.filter (expired_row now) (jobs s)) <= fuel)%nat ->
  exists s', recover_expired fuel now s = (inr tt, s') /\ store_ok s' /\ evolves s s' /\
    List.filter (expired_row now) (jobs s') = [].
Proof.
  revert s. induction fuel as [|fuel IH]; intros s Hok Hf.
  - assert (List.filter (expired_row now) (jobs s) = []) as E by by destruct (List.filter _ _); [|simpl in Hf; lia].
    exists s. simpl. rewrite E. by split_and!; auto using evolves_refl.
  - cbn [recover_expired]. destruct (first_row _) as [r|] eqn:E.
    + pose proof (first_row_in _ _ E) as [Hr Hexp]%filter_elem.
      destruct (recover_row_ok now r s Hok Hr Hexp) as (s1 & -> & Hok1 & Hev1 & Hlt).
      destruct (IH s1 Hok1) as (s2 & -> & Hok2 & Hev2 & Hnone); [lia|].
      exists s2. split_and!; eauto using evolves_trans.
    + exists s. split_and!; auto using evolves_refl, first_row_none.
Qed.

(** *** Claims *)

Lemma claim_row_ok l r w expires now :
  row_ok l r -> claimable now r = true ->
  row_ok (l ++ [new_attempt (claim_row w expires now r) w now]) (claim_row w expires now r).
Proof.
  intros [Hc Ht Hn Hf Ho Hw Hr Hs Hwait Hsucc] Hcl. unfold claimable in Hcl. bool_hyps.
  assert (j_status r <> J_running) as Hnr.
  { intros E. match goal with H : is_waiting r = true |- _ => unfold is_waiting in H; by rewrite E in H end. }
  assert (forall a, a ∈ l -> 1 <= a_number a <= j_attempt_count r) as Hnum.
  { intros a Ha. assert (a_number a ∈ map a_number l) as Hin by (by apply list_elem_of_fmap_2).
    rewrite Hn in Hin. apply list_elem_of_fmap in Hin as (k & -> & Hk%elem_of_seq). lia. }
  split; simpl; try done; try lia.
  - rewrite map_app, Hn. simpl. replace (Z.to_nat (j_attempt_count r + 1)) with (S (Z.to_nat (j_attempt_count r))) by lia.
    rewrite seq_S, map_app. simpl. do 2 f_equal. lia.
  - intros a [Ha|Ha]%elem_of_app; [by apply Hf|]. apply list_elem_of_singleton in Ha as ->. simpl. lia.
  - intros a [Ha|Ha]%elem_of_app.
    + pose proof (Hnum a Ha). split; [|lia]. intros Hfin%Ho; [|done]. by destruct Hfin.
    + apply list_elem_of_singleton in Ha as ->. by simpl.
  - intros a [Ha|Ha]%elem_of_app Hfin; [by apply Ho in Hfin as [? _]|]. by apply list_elem_of_singleton in Ha as ->.
  - intros a [Ha|Ha]%elem_of_app Hsu; [|by apply list_elem_of_singleton in Ha as ->].
    destruct (Hsucc _ Ha Hsu) as [E _]. match goal with H : is_waiting r = true |- _ => unfold is_waiting in H; by rewrite E in H end.
Qed.

Lemma claim_evolves w expires now r : claimable now r = true -> job_evolves r (claim_row w expires now r).
Proof.
  intros Hcl. unfold claimable, is_waiting in Hcl. bool_hyps. unfold job_evolves; simpl. split_and!; try done; [lia|].
  by destruct (j_status r).
Qed.

Lemma take_job_ok w leaseMs now s r :
  store_ok s -> r ∈ jobs s -> claimable now r = true ->
  exists s', take_job w (j_id r) leaseMs now s =
    (inr (Some {| l_job := claim_row w (now + leaseMs) now r; l_workerId := w;
                  l_fencingToken := j_fencing_token r + 1; l_expiresAt := now + leaseMs |}), s') /\
    store_ok s' /\ evolves s s' /\ claim_row w (now + leaseMs) now r ∈ jobs s'.
Proof.
  intros Hok Hr Hcl. set (f := claim_row w (now + leaseMs) now). pose proof Hcl as Hcl'.
  unfold claimable in Hcl'. bool_hyps.
  set (p := fun x => streq (j_id x) (j_id r) && is_waiting x && (j_scheduled_at x <=? now) &&
                     (j_attempt_count x <? j_max_attempts x)).
  assert (p r = true) as Hp.
  { unfold p. rewrite streq_refl. rewrite !andb_true_iff. repeat split; [done|by apply Z.leb_le|by apply Z.ltb_lt]. }
  assert (forall x, p x = true -> j_id x = j_id r) as Honly by (intros x Hx; unfold p in Hx; by bool_hyps).
  pose proof (so_rows _ Hok r Hr) as Hrow. pose proof (claim_row_ok _ _ w (now + leaseMs) now Hrow Hcl) as Hrow'.
  assert (store_ok {| jobs := update_where p f (jobs s); attempts := attempts s ++ [new_attempt (f r) w now] |}) as Hok'.
  { apply (update_store_ok s Hok r Hr p f Hp Honly eq_refl eq_refl).
    - intros id Hne. unfold of_job, select. rewrite List.filter_app. cbn.
      destruct (streq (j_id r) id) eqn:E; [|by rewrite app_nil_r]. bool_hyps. congruence.
    - intros a [Ha|Ha]%elem_of_app; [by apply (so_owned _ Hok)|]. apply list_elem_of_singleton in Ha as ->. by exists r.
    - unfold of_job, select. rewrite List.filter_app. cbn. rewrite streq_refl. exact Hrow'. }
  assert (f r ∈ update_where p f (jobs s)) as Hin by (apply (updated s Hok r Hr p f Hp Honly); by left).
  exists {| jobs := update_where p f (jobs s); attempts := attempts s ++ [new_attempt (f r) w now] |}.
  split; [|split; [done|split; [split|done]]].
  - unfold take_job, update_jobs. fold p. fold f. rewrite (selects_changes s Hok r Hr p Hp Honly). cbn [negb Nat.eqb jobs].
    rewrite (keyed_get j_id _ (f r) (so_keyed _ Hok') Hin : get j_id (j_id r) (update_where p f (jobs s)) = Some (f r)).
    unfold insert_attempt. cbn [attempts jobs].
    destruct (existsb _ (attempts s)) eqn:E; [exfalso|done].
    apply existsb_exists in E as (a & Ha%list_elem_of_In & Heq). cbn in Heq. bool_hyps.
    assert (a_number a ∈ map a_number (of_job (j_id r) (attempts s))) as Hnum
      by (apply list_elem_of_fmap_2; by apply of_job_elem).
    rewrite (ro_numbers _ _ Hrow) in Hnum. apply list_elem_of_fmap in Hnum as (k & Ek & Hk%elem_of_seq).
    pose proof (ro_count _ _ Hrow). lia.
  - apply (update_jobs_evolve s Hok r Hr p f Hp Honly); [done|]. by apply claim_evolves.
  - intros a Ha. exists a. split; [apply elem_of_app; by left|apply attempt_evolves_refl].
Qed.

(** The lease a claim gives, and the row it is on. *)
Definition lease_of (l : Lease) (r : JobRow) : Prop :=
  j_id (l_job l) = j_id r /\ l_fencingToken l = j_fencing_token r /\ j_worker_id r = Some (l_workerId l) /\
  j_lease_expires_at r = Some (l_expiresAt l) /\ j_status r = J_running.

Lemma claim_body_ok w leaseMs now s :
  store_ok s ->
  exists ol s', claim_body w leaseMs now s = (inr ol, s') /\ store_ok s' /\ evolves s s' /\
    match ol with
    | Some l => (exists r, r ∈ jobs s' /\ lease_of l r /\ l_workerId l = w /\ l_expiresAt l = now + leaseMs) /\
        forall r0, r0 ∈ jobs s -> j_id r0 = j_id (l_job l) -> j_fencing_token r0 < l_fencingToken l
    | None => forall r, r ∈ jobs s' -> claimable now r = false
    end.
Proof.
  intros Hok. unfold claim_body.
  destruct (recover_expired_ok _ now s Hok (le_n _)) as (s1 & -> & Hok1 & Hev1 & _).
  destruct (first_row _) as [r|] eqn:E.
  - pose proof (first_row_in _ _ E) as [Hr Hcl]%filter_elem.
    destruct (take_job_ok w leaseMs now s1 r Hok1 Hr Hcl) as (s2 & -> & Hok2 & Hev2 & Hin).
    eexists _, s2. split; [done|]. split; [done|]. split; [by eapply evolves_trans|].
    split; [eexists; split; [exact Hin|]; by repeat split|].
    intros r0 Hr0 Hid. simpl in *. destruct Hev1 as [Hev1 _].
    destruct (Hev1 r0 Hr0) as (r1 & Hr1 & Hid1 & _ & _ & _ & _ & Htok & _).
    assert (r1 = r) as -> by (apply (job_unique s1 Hok1); [done..|congruence]). lia.
  - eexists None, s1. split_and!; try done. intros r Hr. apply not_true_is_false. intros Hcl.
    assert (r ∈ List.filter (claimable now) (jobs s1)) as Hin by (by apply filter_elem).
    rewrite (first_row_none _ E) in Hin. by apply elem_of_nil in Hin.
Qed.

(** *** The other operations *)

(** A clause on one id selects one row or none. *)
Lemma select_cases s p k :
  (forall x, p x = true -> j_id x = k) ->
  (exists r, r ∈ jobs s /\ p r = true /\ j_id r = k) \/
  (changes p (jobs s) = 0%nat /\ (forall f, update_where p f (jobs s) = jobs s) /\ List.find p (jobs s) = None).
Proof.
  intros Hp. destruct (List.find p (jobs s)) as [r|] eqn:E.
  - left. apply find_some in E as [Hin%list_elem_of_In Hpr]. eauto.
  - right. assert (forall x, x ∈ jobs s -> p x = false) as Hn.
    { intros x Hx. apply (find_none _ _ E). by apply list_elem_of_In. }
    split_and!; [by apply changes_zero|intros f; by apply update_where_none|done].
Qed.

(** A change of a job that leaves its attempts. *)
Lemma keep_attempts_ok s r p f :
  store_ok s -> r ∈ jobs s -> p r = true -> (forall x, p x = true -> j_id x = j_id r) ->
  j_id (f r) = j_id r -> j_idempotency_key (f r) = j_idempotency_key r -> job_evolves r (f r) ->
  row_ok (of_job (j_id r) (attempts s)) (f r) ->
  store_ok {| jobs := update_where p f (jobs s); attempts := attempts s |} /\
  evolves s {| jobs := update_where p f (jobs s); attempts := attempts s |}.
Proof.
  intros Hok Hr Hp Honly Hid Hkey Hev Hrow. split.
  - apply (update_store_ok s Hok r Hr p f Hp Honly Hid Hkey); [done|apply (so_owned _ Hok)|done].
  - split; [by apply (update_jobs_evolve s Hok r Hr p f Hp Honly)|]. intros a Ha. exists a. auto using attempt_evolves_refl.
Qed.

Lemma holder_spec l now r :
  holder l now r = true <->
  j_id r = j_id (l_job l) /\ j_status r = J_running /\ j_worker_id r = Some (l_workerId l) /\
  j_fencing_token r = l_fencingToken l /\ exists t, j_lease_expires_at r = Some t /\ now < t.
Proof.
  unfold holder, assigned, lease_live. rewrite !andb_true_iff, streq_spec, row_running, bool_decide_eq_true, Z.eqb_eq.
  destruct (j_lease_expires_at r) as [t|].
  - rewrite Z.ltb_lt. split; [intros [[[[? ?] ?] ?] ?]; split_and!; eauto|].
    intros (? & ? & ? & ? & t' & [= <-] & ?). by split_and!.
  - split; [by intros [_ ?]|]. by intros (_ & _ & _ & _ & t' & ? & _).
Qed.

Lemma holder_only l now x : holder l now x = true -> j_id x = j_id (l_job l).
Proof. by intros (? & _)%holder_spec. Qed.

Lemma heartbeat_body_ok l leaseMs now s :
  store_ok s ->
  exists b s', heartbeat_body l leaseMs now s = (inr b, s') /\ store_ok s' /\ evolves s s' /\
    (b = true -> exists r, r ∈ jobs s /\ holder l now r = true) /\ (b = false -> s' = s).
Proof.
  intros Hok. unfold heartbeat_body, update_jobs.
  set (p := fun r => holder l now r && negb (j_cancel_requested r)). set (f := extend_lease (now + leaseMs) now).
  destruct (select_cases s p (j_id (l_job l))) as [(r & Hr & Hp & Hid)|(-> & Hu & _)].
  - intros x Hx. unfold p in Hx. bool_hyps. by eapply holder_only.
  - assert (forall x, p x = true -> j_id x = j_id r) as Honly.
    { intros x Hx. unfold p in Hx. bool_hyps. rewrite Hid. by eapply holder_only. }
    rewrite (selects_changes s Hok r Hr p Hp Honly). simpl.
    eexists _, _. split; [done|].
    pose proof Hp as Hh. unfold p in Hh. apply andb_true_iff in Hh as [Hh _].
    destruct (keep_attempts_ok s r p f) as [Hok' Hev']; try done; [| |split_and!; [done|apply Hev'..|by eauto|done]].
    + unfold job_evolves; simpl. split_and!; try done.
      apply holder_spec in Hh as (_ & -> & _). done.
    + destruct (so_rows _ Hok r Hr) as [Hc Ht Hn Hf Ho Hw Hrn Hs Hwait Hsucc]. apply holder_spec in Hh as (_ & Hrun & _).
      split; done.
  - rewrite Hu. eexists _, _. split; [done|]. destruct s. split_and!; auto using evolves_refl. done.
Qed.

(** The end of a held attempt never fails to find it. *)
Lemma settle_held_ok l now f o ea ra ans s r st at_ e rs :
  store_ok s -> r ∈ jobs s -> holder l now r = true ->
  f r = release_row st at_ e rs now r -> may_end r st o ->
  exists s', settle_held l now f o ea ra ans s = (inr ans, s') /\ store_ok s' /\ evolves s s' /\ f r ∈ jobs s'.
Proof.
  intros Hok Hr Hh Hf Hend. pose proof Hh as (Hid & Hrun & _ & Htok & _)%holder_spec.
  assert (forall x, holder l now x = true -> j_id x = j_id r) as Honly.
  { intros x Hx. rewrite Hid. by eapply holder_only. }
  exists (finished_store s r (holder l now) f now o ea ra). split; [|split; [|split]].
  - unfold settle_held, update_jobs, close_attempt.
    rewrite (selects_changes s Hok r Hr _ Hh Honly). cbn [negb Nat.eqb attempts].
    rewrite <- Hid, <- Htok, (close_one s Hok r Hr Hrun). done.
  - by eapply finish_ok.
  - by eapply finish_evolves.
  - apply (updated s Hok r Hr _ f Hh Honly). by left.
Qed.

Lemma complete_body_ok l ref now s :
  store_ok s ->
  exists b s', complete_body l ref now s = (inr b, s') /\ store_ok s' /\ evolves s s' /\
    match List.find (holder l now) (jobs s) with
    | Some r => b = negb (j_cancel_requested r) /\
        exists r', r' ∈ jobs s' /\ j_id r' = j_id r /\
          j_status r' = (if j_cancel_requested r then J_cancelled else J_succeeded) /\
          j_result_ref r' = (if j_cancel_requested r then None else ref)
    | None => b = false /\ s' = s
    end.
Proof.
  intros Hok. unfold complete_body. destruct (List.find _ _) as [r|] eqn:E.
  - apply find_some in E as [Hr%list_elem_of_In Hh].
    set (st := if j_cancel_requested r then J_cancelled else J_succeeded).
    set (res := if j_cancel_requested r then None else ref).
    set (f := fun x => release_row st (j_scheduled_at x) (j_error x) res now x).
    destruct (settle_held_ok l now f (if j_cancel_requested r then O_cancelled else O_succeeded) a_error (fun _ => res)
      (negb (j_cancel_requested r)) s r st (j_scheduled_at r) (j_error r) res Hok Hr Hh eq_refl) as (s' & E & Hok' & Hev & Hin).
    { unfold may_end, st. destruct (j_cancel_requested r); split_and!; try done; by intros [|]. }
    exists (negb (j_cancel_requested r)), s'. split_and!; try done.
    exists (f r). by split_and!.
  - exists false, s. split_and!; auto using evolves_refl.
Qed.

(** What `fail` may throw in its transaction. *)
Lemma fail_body_ok l err random now s :
  store_ok s ->
  match fail_body l err random now s with
  | (inr b, s') => store_ok s' /\ evolves s s' /\
      match List.find (holder l now) (jobs s) with
      | Some r => b = true /\ exists st at_, failed_status r random now = inr (st, at_) /\
          exists r', r' ∈ jobs s' /\ j_id r' = j_id r /\ j_status r' = st /\ j_scheduled_at r' = at_
      | None => b = false /\ s' = s
      end
  | (inl e, s') => s' = s /\ e = "Retry backoff overflow" /\
      exists r, List.find (holder l now) (jobs s) = Some r /\ failed_status r random now = inl e
  end.
Proof.
  intros Hok. unfold fail_body. destruct (List.find _ _) as [r|] eqn:E.
  2:{ split_and!; auto using evolves_refl. }
  pose proof E as [Hr%list_elem_of_In Hh]%find_some.
  destruct (failed_status r random now) as [e|[st at_]] eqn:Ef.
  - split; [done|]. split; [|by exists r]. unfold failed_status in Ef. repeat case_match; try done.
    unfold throw_on, rbind in Ef. destruct (negb _); by simplify_eq.
  - set (f := fun x => release_row st at_ (Some err) (j_result_ref x) now x).
    set (o := if bool_decide (st = J_cancelled) then O_cancelled else O_failed).
    destruct (settle_held_ok l now f o (fun _ => Some err) a_result_ref true s r st at_ (Some err) (j_result_ref r)
      Hok Hr Hh eq_refl) as (s' & -> & Hok' & Hev & Hin).
    { unfold may_end, o. unfold failed_status in Ef. destruct (j_cancel_requested r) eqn:Ec.
      - simplify_eq. split_and!; try done. by intros [|].
      - destruct (_ <=? _) eqn:Em; [simplify_eq; split_and!; try done; by intros [|]|].
        open_result Ef. simplify_eq. bool_hyps. split_and!; try done; lia. }
    split_and!; try done. exists st, at_. split; [done|]. exists (f r). by split_and!.
Qed.

Lemma cancel_body_ok id now s :
  store_ok s -> exists b s', cancel_body id now s = (inr b, s') /\ store_ok s' /\ evolves s s'.
Proof.
  intros Hok. unfold cancel_body. destruct (get j_id id (jobs s)) as [r|] eqn:Hg.
  2:{ eexists _, _. split; [done|]. auto using evolves_refl. }
  apply get_Some in Hg as [Hr Hid]. destruct (terminal (j_status r)) eqn:Et.
  { eexists _, _. split; [done|]. auto using evolves_refl. }
  pose proof (so_rows _ Hok r Hr) as [Hc Ht Hn Hf Ho Hw Hrn Hs Hwait Hsucc].
  destruct (is_running r) eqn:Hrun; eexists _, _; (split; [done|]); apply (keep_attempts_ok s r); try done.
  all: try (rewrite Hid, streq_refl; simpl); try (intros x Hx; bool_hyps; congruence).
  all: try (unfold job_evolves; simpl; split_and!; try done; by rewrite Et).
  - done.
  - apply row_running in Hrun. split; simpl; try done. unfold is_waiting. simpl. by rewrite Hrun.
  - unfold is_running, is_waiting in *. by destruct (j_status r).
  - assert (j_status r <> J_running) as Hnr by (intros E; apply row_running in E; congruence).
    split; simpl; try done.
    + intros a Ha. split; [|by intros [? _]]. by intros [? _]%Ho.
    + split; [done|]. intros Hl. by apply Hrn in Hl.
    + intros a Ha Hsu. destruct (Hsucc a Ha Hsu) as [E _]. by rewrite E in Et.
Qed.

(** A row `enqueue` inserts. *)
Definition fresh_row (r : JobRow) : Prop :=
  j_attempt_count r = 0 /\ 1 <= j_max_attempts r /\ j_fencing_token r = 0 /\ j_lease_expires_at r = None /\
  j_cancel_requested r = false /\ (j_status r = J_queued \/ j_status r = J_scheduled).

Lemma no_attempts s id : store_ok s -> (forall r, r ∈ jobs s -> j_id r <> id) -> of_job id (attempts s) = [].
Proof.
  intros Hok Hn. unfold of_job. apply filter_none. intros a Ha. destruct (so_owned _ Hok a Ha) as (r & Hr & E).
  unfold streq. rewrite bool_decide_false; [done|]. rewrite <- E. by apply Hn.
Qed.

Lemma insert_job_ok r s s' :
  store_ok s -> fresh_row r -> insert_job r s = inr s' ->
  store_ok s' /\ evolves s s' /\
  ((existsb (has_key (j_idempotency_key r)) (jobs s) = true /\ s' = s) \/
   (existsb (has_key (j_idempotency_key r)) (jobs s) = false /\ jobs s' = jobs s ++ [r])).
Proof.
  intros Hok (Hc & Hm & Ht & Hl & Hcan & Hst) H. unfold insert_job in H.
  destruct (existsb _ _) eqn:Ek; [injection H as <-; auto using evolves_refl|].
  destruct (insert j_id r (jobs s)) as [t|] eqn:E; [|done]. injection H as <-.
  pose proof (insert_keyed j_id _ _ _ E (so_keyed _ Hok)) as Hkeyed.
  apply insert_Some in E as [Hfree ->]. rewrite get_None in Hfree. split; [|split].
  - split; simpl; [done| | |].
    + rewrite omap_app. apply NoDup_app. split; [apply so_keys, Hok|]. split.
      * intros k Hk Hin. simpl in Hin. destruct (j_idempotency_key r) as [k'|] eqn:Er; [|by apply elem_of_nil in Hin].
        apply list_elem_of_singleton in Hin as ->. apply list_elem_of_omap in Hk as (x & Hx & Hkx).
        apply not_true_iff_false in Ek. apply Ek, existsb_exists. exists x. split; [by apply list_elem_of_In|].
        simpl. by apply bool_decide_eq_true.
      * simpl. destruct (j_idempotency_key r); [apply NoDup_singleton|constructor].
    + intros x [Hx|Hx]%elem_of_app; [by apply so_rows|]. apply list_elem_of_singleton in Hx as ->.
      rewrite no_attempts by done. assert (j_status r <> J_running) by (destruct Hst as [-> | ->]; done).
      split; rewrite ?Hc, ?Hl; try done; try lia; try (intros a Ha; by apply elem_of_nil in Ha).
      intros _. split; [lia|done].
    + intros a Ha. destruct (so_owned _ Hok a Ha) as (r0 & ? & ?). exists r0. split; [|done]. apply elem_of_app. by left.
  - split; intros x Hx; exists x; simpl; rewrite ?elem_of_app; auto using job_evolves_refl, attempt_evolves_refl.
  - by right.
Qed.

Lemma enqueue_body_ok r s :
  store_ok s -> fresh_row r ->
  match enqueue_body r s with
  | (inr x, s') => store_ok s' /\ evolves s s' /\ x ∈ jobs s' /\ j_type x = j_type r /\ j_payload x = j_payload r /\
      j_idempotency_key x = j_idempotency_key r /\ (s' = s \/ (jobs s' = jobs s ++ [r] /\ x = r))
  | (inl e, _) => e = "UNIQUE constraint failed: jobs.id" \/ e = "Idempotency key conflict"
  end.
Proof.
  intros Hok Hfresh. unfold enqueue_body. destruct (insert_job r s) as [e|s1] eqn:Ei.
  { left. unfold insert_job in Ei. repeat case_match; by simplify_eq. }
  destruct (insert_job_ok r s s1 Hok Hfresh Ei) as (Hok1 & Hev1 & Hcase).
  destruct (j_idempotency_key r) as [k|] eqn:Ek.
  - destruct (List.find _ (jobs s1)) as [x|] eqn:Ef.
    + destruct (_ || _) eqn:Eneq; [by right|]. bool_hyps.
      apply find_some in Ef as [Hx%list_elem_of_In Hk]. simpl in Hk. apply bool_decide_eq_true in Hk.
      split_and!; try done. destruct Hcase as [[_ ->]|[Hno Hj]]; [by left|right]. split; [done|].
      rewrite Hj in Hx. apply elem_of_app in Hx as [Hx|Hx]; [|by apply list_elem_of_singleton in Hx].
      exfalso. apply not_true_iff_false in Hno. apply Hno, existsb_exists. exists x.
      split; [by apply list_elem_of_In|]. by apply bool_decide_eq_true.
    + exfalso. destruct Hcase as [[Hyes ->]|[_ Hj]].
      * apply existsb_exists in Hyes as (x & Hx & Hk). pose proof (find_none _ _ Ef x Hx). congruence.
      * pose proof (find_none _ _ Ef r) as Hn. rewrite Hj in Hn. simpl in Hn. rewrite Ek, bool_decide_true in Hn by done.
        discriminate Hn. apply in_or_app. right. by left.
  - destruct Hcase as [[Hyes _]|[_ Hj]].
    { apply existsb_exists in Hyes as (x & _ & Hk). done. }
    assert (r ∈ jobs s1) as Hin by (rewrite Hj; apply elem_of_app; right; apply list_elem_of_here).
    rewrite (keyed_get j_id _ r (so_keyed _ Hok1) Hin). split_and!; auto.
Qed.

Lemma enqueue_checks_fresh sp type payload o uuid clock q r :
  enqueue_checks sp type payload o uuid clock q = inr r -> fresh_row r.
Proof.
  unfold enqueue_checks. intros H. open_result H. injection H as <-. unfold options_invalid in *. bool_hyps.
  split_and!; simpl; try done; try lia. destruct (_ <? _); auto.
Qed.

(** A taken key names one job. *)
Lemma same_key s x y k :
  store_ok s -> x ∈ jobs s -> y ∈ jobs s -> j_idempotency_key x = Some k -> j_idempotency_key y = Some k -> x = y.
Proof.
  intros Hok Hx Hy Ex Ey. pose proof (so_keys _ Hok) as Hnd. revert Hx Hy Hnd. induction (jobs s) as [|z l IH]; [by intros ?%elem_of_nil|].
  assert (forall v, v ∈ l -> j_idempotency_key v = Some k -> k ∈ omap j_idempotency_key l) as Hin
    by (intros v Hv Ev; apply list_elem_of_omap; by exists v).
  intros [-> |Hx]%elem_of_cons [-> |Hy]%elem_of_cons; simpl; [done|..]; rewrite ?Ex, ?Ey; simpl.
  - intros [Hno _]%NoDup_cons. destruct Hno. by apply (Hin y).
  - intros [Hno _]%NoDup_cons. destruct Hno. by apply (Hin x).
  - destruct (j_idempotency_key z); [intros [_ ?]%NoDup_cons|intros ?]; by apply IH.
Qed.

(** *** The queue as a whole *)

(** The calls on one queue object, with the clock readings, draws and uuids they
    get. *)
Inductive JobCall : Type :=
  | C_register (type : string)
  | C_enqueue (type : string) (payload : value) (o : EnqueueOptions) (uuid : string) (clock : Z)
  | C_claim (workerId : string) (leaseMs clock : Z)
  | C_heartbeat (l : Lease) (leaseMs clock : Z)
  | C_complete (l : Lease) (resultRef : option string) (clock : Z)
  | C_fail (l : Lease) (error : string) (random : Q) (clock : Z)
  | C_cancel (id : string) (clock : Z)
  | C_drain
  | C_close.

Section Queue.
Context (safeParse : string -> value -> result value).

Definition perform (c : JobCall) (q : JobQueue) : JobQueue :=
  match c with
  | C_register type => (register type q).2
  | C_enqueue type payload o uuid clock => (enqueue safeParse type payload o uuid clock q).2
  | C_claim w leaseMs clock => (claim w leaseMs clock q).2
  | C_heartbeat l leaseMs clock => (heartbeat l leaseMs clock q).2
  | C_complete l ref clock => (complete l ref clock q).2
  | C_fail l err random clock => (fail l err random clock q).2
  | C_cancel id clock => (cancel id clock q).2
  | C_drain => (beginDrain q).2
  | C_close => close q
  end.

Definition perform_all (cs : list JobCall) (q : JobQueue) : JobQueue := fold_left (fun q c => perform c q) cs q.

(** A method whose transaction keeps the tables consistent. *)
Lemma method_ok {A B} (checks : JobQueue -> result B) (b : B -> body A) q :
  store_ok (db q) ->
  (forall x, checks q = inr x -> match b x (db q) with (inr _, s') => store_ok s' /\ evolves (db q) s' | _ => True end) ->
  store_ok (db (method checks b q).2) /\ evolves (db q) (db (method checks b q).2).
Proof.
  intros Hok Hb. unfold method, tx. destruct (checks q) as [e|x]; [by auto using evolves_refl|].
  specialize (Hb x eq_refl). destruct (b x (db q)) as [[e|a] s']; simpl; [by auto using evolves_refl|done].
Qed.

Lemma perform_ok c q :
  store_ok (db q) -> store_ok (db (perform c q)) /\ evolves (db q) (db (perform c q)).
Proof.
  intros Hok. assert (store_ok (db q) /\ evolves (db q) (db q)) as Hsame by auto using evolves_refl.
  destruct c; simpl.
  - unfold register. by destruct (rbind _ _).
  - apply method_ok; [done|]. intros r Hr. pose proof (enqueue_body_ok r (db q) Hok (enqueue_checks_fresh _ _ _ _ _ _ _ _ Hr)) as H.
    destruct (enqueue_body r (db q)) as [[e|x] s']; [done|]. tauto.
  - unfold claim. destruct (open_ q); [done|]. destruct (draining q); [done|].
    apply method_ok; [done|]. intros now _. destruct (claim_body_ok workerId leaseMs now (db q) Hok) as (ol & s' & -> & ? & ? & _). done.
  - apply method_ok; [done|]. intros now _. destruct (heartbeat_body_ok l leaseMs now (db q) Hok) as (b & s' & -> & ? & ? & _). done.
  - unfold complete. destruct (rbind _ _); [done|].
    assert (store_ok (db (method (fun _ => now_of clock) (complete_body l resultRef) q).2) /\
            evolves (db q) (db (method (fun _ => now_of clock) (complete_body l resultRef) q).2)) as Hm.
    { apply method_ok; [done|]. intros now _. destruct (complete_body_ok l resultRef now (db q) Hok) as (b & s' & -> & ? & ? & _). done. }
    destruct (get j_id _ _) as [x|]; [by case_bool_decide|done].
  - apply method_ok; [done|]. intros now _. pose proof (fail_body_ok l error random now (db q) Hok) as H.
    destruct (fail_body l error random now (db q)) as [[e|b] s']; [done|]. tauto.
  - apply method_ok; [done|]. intros now _. destruct (cancel_body_ok id now (db q) Hok) as (b & s' & -> & ? & ?). done.
  - unfold beginDrain. by destruct (open_ q).
  - done.
Qed.

Lemma perform_all_ok cs q :
  store_ok (db q) -> store_ok (db (perform_all cs q)) /\ evolves (db q) (db (perform_all cs q)).
Proof.
  revert q. induction cs as [|c cs IH]; intros q Hok; [by auto using evolves_refl|].
  destruct (perform_ok c q Hok) as [Hok1 Hev1]. destruct (IH (perform c q) Hok1) as [Hok2 Hev2].
  split; [done|]. by eapply evolves_trans.
Qed.
End Queue.
