(* ===== verification/JobLeases.v ===== *)
(** The properties of the job queue (`src/autonomy/jobs/index.ts`): what holds of
    any queue that was reached from an empty one, and what a worker can rely on
    about its lease. *)
From S2P Require Import Prelude Table Canonical Jobs JobSafety.
From Stdlib Require Import QArith.
#[local] Open Scope string_scope.
#[local] Open Scope list_scope.
#[local] Open Scope Z_scope.
#[local] Open Scope result_scope.

(** The queue of a new database. *)
Definition new_queue : JobQueue :=
  {| db := {| jobs := []; attempts := [] |}; closed := false; draining := false; schemas := [] |}.

Lemma new_queue_ok : store_ok (db new_queue).
Proof. split; simpl; [apply NoDup_nil_2|apply NoDup_nil_2|..]; intros x Hx; by apply elem_of_nil in Hx. Qed.

(** *** Leases *)

Lemma method_inr {A B} (checks : JobQueue -> result B) (b : B -> body A) q a q' :
  method checks b q = (inr a, q') ->
  exists x, checks q = inr x /\ b x (db q) = (inr a, db q') /\ q' = set_db (db q') q.
Proof.
  unfold method, tx. destruct (checks q) as [e|x]; [done|]. destruct (b x (db q)) as [[e|a'] s'] eqn:E; [done|].
  intros [= <- <-]. by exists x.
Qed.

Lemma claim_inr w leaseMs clock q ol q' :
  claim w leaseMs clock q = (inr ol, q') ->
  (draining q = true /\ ol = None /\ q' = q) \/
  (draining q = false /\ exists now, claim_checks w leaseMs clock q = inr now /\
     claim_body w leaseMs now (db q) = (inr ol, db q') /\ q' = set_db (db q') q).
Proof.
  unfold claim. destruct (open_ q); [done|]. destruct (draining q); [intros [= <- <-]; by left|].
  intros H%method_inr. by right.
Qed.

(** The lease a claim gave, in the tables after it; and the tokens before it. *)
Lemma claim_lease w leaseMs clock q l q' :
  store_ok (db q) -> claim w leaseMs clock q = (inr (Some l), q') ->
  store_ok (db q') /\ evolves (db q) (db q') /\ (exists r, r ∈ jobs (db q') /\ lease_of l r) /\
  forall r0, r0 ∈ jobs (db q) -> j_id r0 = j_id (l_job l) -> j_fencing_token r0 < l_fencingToken l.
Proof.
  intros Hok [(_ & [=] & _)|(_ & now & _ & Hb & _)]%claim_inr.
  destruct (claim_body_ok w leaseMs now (db q) Hok) as (ol & s' & E & Hok' & Hev & Hl).
  rewrite Hb in E. injection E as <- <-. destruct Hl as [(r & Hr & Hlr & _) Htok]. eauto 10.
Qed.

(** A lease on a token that the job has gone past. *)
Definition outdated (l : Lease) (s : JobStore) : Prop :=
  exists r, r ∈ jobs s /\ j_id r = j_id (l_job l) /\ l_fencingToken l < j_fencing_token r.

Lemma outdated_unassigned l s : store_ok s -> outdated l s -> forall x, x ∈ jobs s -> assigned l x = false.
Proof.
  intros Hok (r & Hr & Hid & Hlt) x Hx. apply not_true_is_false. intros Ha. unfold assigned in Ha. bool_hyps.
  assert (x = r) as -> by (apply (job_unique s Hok); [done..|congruence]). lia.
Qed.

Lemma outdated_evolves l s s' : outdated l s -> evolves s s' -> outdated l s'.
Proof.
  intros (r & Hr & Hid & Hlt) [Hev _]. destruct (Hev r Hr) as (r' & Hr' & Hid' & _ & _ & _ & _ & Htok & _).
  exists r'. split_and!; [done|congruence|lia].
Qed.

Section Outdated.
Context (l : Lease) (q : JobQueue) (Hok : store_ok (db q)) (Hout : outdated l (db q)).

Lemma outdated_holder now x : x ∈ jobs (db q) -> holder l now x = false.
Proof. intros Hx. unfold holder. by rewrite (outdated_unassigned l _ Hok Hout x Hx). Qed.

Lemma outdated_find now : List.find (holder l now) (jobs (db q)) = None.
Proof.
  destruct (List.find _ _) as [x|] eqn:E; [|done]. apply find_some in E as [Hx%list_elem_of_In Hh].
  by rewrite outdated_holder in Hh.
Qed.

Lemma set_db_same : set_db (db q) q = q.
Proof. by destruct q. Qed.

(** A method whose transaction answers false and changes nothing. *)
Lemma method_refused {B} (checks : JobQueue -> result B) (b : B -> body bool) :
  (forall x, b x (db q) = (inr false, db q)) -> (method checks b q).2 = q /\ (method checks b q).1 <> inr true.
Proof.
  intros Hb. unfold method, tx. destruct (checks q) as [e|x]; [done|]. rewrite Hb. simpl. by rewrite set_db_same.
Qed.

Lemma outdated_heartbeat leaseMs clock :
  (heartbeat l leaseMs clock q).2 = q /\ (heartbeat l leaseMs clock q).1 <> inr true.
Proof.
  apply method_refused. intros now. unfold heartbeat_body, update_jobs.
  assert (forall x, x ∈ jobs (db q) -> holder l now x && negb (j_cancel_requested x) = false) as Hn
    by (intros x Hx; by rewrite outdated_holder).
  rewrite changes_zero, update_where_none by done. by destruct (db q).
Qed.

Lemma outdated_fail err random clock :
  (fail l err random clock q).2 = q /\ (fail l err random clock q).1 <> inr true.
Proof. apply method_refused. intros now. unfold fail_body. by rewrite outdated_find. Qed.

Lemma outdated_complete ref clock :
  (complete l ref clock q).2 = q /\
  ((complete l ref clock q).1 = inr true ->
   exists r, r ∈ jobs (db q) /\ j_id r = j_id (l_job l) /\ j_status r = J_succeeded /\ j_result_ref r = ref).
Proof.
  assert (forall now, complete_body l ref now (db q) = (inr false, db q)) as Hb
    by (intros now; unfold complete_body; by rewrite outdated_find).
  unfold complete. destruct (rbind _ _); [done|]. destruct (get j_id _ _) as [x|] eqn:Hg.
  - apply get_Some in Hg as [Hx Hid]. case_bool_decide as Hst.
    + split; [done|]. intros [= Href%bool_decide_eq_true]. by exists x.
    + destruct (method_refused (fun _ => now_of clock) _ Hb) as [-> Hne]. split; [done|]. by intros ?%Hne.
  - destruct (method_refused (fun _ => now_of clock) _ Hb) as [-> Hne]. split; [done|]. by intros ?%Hne.
Qed.

Lemma outdated_cancellation : (isCancellationRequested l q).1 <> inr true.
Proof.
  unfold isCancellationRequested. simpl. destruct (open_ q); [done|]. simpl.
  destruct (List.find _ _) as [x|] eqn:E; [|done]. apply find_some in E as [Hx%list_elem_of_In Ha].
  by rewrite (outdated_unassigned l _ Hok Hout x Hx) in Ha.
Qed.
End Outdated.

(** *** Claims *)

(** [before] puts the first row of a list first. *)
Lemma before_total x y : before x y = false -> before y x = true.
Proof. unfold before. intros H. destruct (Z.ltb_spec (j_scheduled_at x) (j_scheduled_at y)); simpl in *; [done|].
  destruct (Z.eqb_spec (j_scheduled_at x) (j_scheduled_at y)); simpl in *; apply orb_true_iff.
  - right. apply andb_true_iff. split; [apply Z.eqb_eq; lia|]. apply Z.leb_gt in H. apply Z.leb_le. lia.
  - left. apply Z.ltb_lt. lia.
Qed.

Lemma before_trans x y z : before x y = true -> before y z = true -> before x z = true.
Proof.
  unfold before. rewrite !orb_true_iff, !andb_true_iff, !Z.ltb_lt, !Z.eqb_eq, !Z.leb_le. lia.
Qed.

Lemma before_refl x : before x x = true.
Proof. unfold before. apply orb_true_iff. right. by rewrite Z.eqb_refl, Z.leb_refl. Qed.

Lemma first_row_first l r : first_row l = Some r -> forall x, x ∈ l -> before r x = true.
Proof.
  revert r. induction l as [|y l IH]; intros r; simpl; [done|]. destruct (first_row l) as [b|] eqn:E.
  - specialize (IH b eq_refl). intros H x [-> |Hx]%elem_of_cons; destruct (before _ b) eqn:Eb; injection H as <-.
    + apply before_refl.
    + by apply before_total.
    + eapply before_trans; eauto.
    + by apply IH.
  - apply first_row_none in E as ->. intros [= ->] x [-> |Hx]%elem_of_cons; [apply before_refl|by apply elem_of_nil in Hx].
Qed.

Lemma take_job_expired w id leaseMs now s ol s' :
  0 < leaseMs -> List.filter (expired_row now) (jobs s) = [] -> take_job w id leaseMs now s = (inr ol, s') ->
  List.filter (expired_row now) (jobs s') = [].
Proof.
  intros Hpos Hnone H. unfold take_job, update_jobs in H. destruct (negb _); [done|].
  destruct (get j_id id _) as [row|]; [|done]. unfold insert_attempt in H. destruct (existsb _ _); [done|].
  injection H as _ <-. cbn [jobs]. apply filter_none. intros x (y & Hy & ->)%update_elem.
  destruct (_ && _).
  - unfold expired_row. apply andb_false_intro2. simpl. apply Z.leb_gt. lia.
  - apply not_true_is_false. intros Hx. assert (y ∈ List.filter (expired_row now) (jobs s)) as Hin by (by apply filter_elem).
    rewrite Hnone in Hin. by apply elem_of_nil in Hin.
Qed.

(** The tables of a claim after the recovery of expired leases. *)
Definition recovered (now : Z) (s : JobStore) : JobStore :=
  (recover_expired (length (List.filter (expired_row now) (jobs s))) now s).2.

(** *** The properties *)

Section Properties.
Context (safeParse : string -> value -> result value).

(** A queue that calls reached from an empty database. *)
Definition reached (cs : list JobCall) : JobQueue := perform_all safeParse cs new_queue.

Lemma reached_ok cs : store_ok (db (reached cs)).
Proof. apply perform_all_ok, new_queue_ok. Qed.
End Properties.

(** Whatever calls a queue got since its database was empty, its tables stay
    consistent: ids and idempotency keys are unique, a job has exactly one
    attempt for each number up to its count, its fencing token is the count, only
    the last attempt of a running job is unfinished and it belongs to the worker
    that holds the lease, a waiting job has an attempt left, and an attempt
    succeeded only if it is the last one of a job that succeeded.  And whatever
    calls come after, no job or attempt is lost, tokens only grow, and a finished
    job or attempt never changes again. *)
Theorem queue_consistent safeParse cs cs' :
  store_ok (db (reached safeParse cs)) /\
  evolves (db (reached safeParse cs)) (db (perform_all safeParse cs' (reached safeParse cs))).
Proof. split; [apply reached_ok|]. apply perform_all_ok, reached_ok. Qed.

(** C29: once a job was claimed again, the lease of the earlier claim is powerless
    for ever: its token is smaller than the new one, and after any further calls
    a heartbeat, a failure or a completion under it changes nothing and is not
    answered with true, except a completion whose result the job already
    succeeded with. *)
Theorem reissued_lease_powerless safeParse cs0 w leaseMs clock l q1 cs1 w' leaseMs' clock' l' q2 cs2 :
  claim w leaseMs clock (reached safeParse cs0) = (inr (Some l), q1) ->
  claim w' leaseMs' clock' (perform_all safeParse cs1 q1) = (inr (Some l'), q2) ->
  j_id (l_job l') = j_id (l_job l) ->
  l_fencingToken l < l_fencingToken l' /\
  let q := perform_all safeParse cs2 q2 in
  (forall ms now, (heartbeat l ms now q).2 = q /\ (heartbeat l ms now q).1 <> inr true) /\
  (forall err random now, (fail l err random now q).2 = q /\ (fail l err random now q).1 <> inr true) /\
  (forall ref now, (complete l ref now q).2 = q /\
     ((complete l ref now q).1 = inr true ->
      exists r, r ∈ jobs (db q) /\ j_id r = j_id (l_job l) /\ j_status r = J_succeeded /\ j_result_ref r = ref)) /\
  (isCancellationRequested l q).1 <> inr true.
Proof.
  intros Hc1 Hc2 Hsame.
  destruct (claim_lease _ _ _ _ _ _ (reached_ok safeParse cs0) Hc1) as (Hok1 & _ & (r1 & Hr1 & Hid1 & Ht1 & _) & _).
  destruct (perform_all_ok safeParse cs1 q1 Hok1) as [Hokm [Hevm _]].
  destruct (claim_lease _ _ _ _ _ _ Hokm Hc2) as (Hok2 & _ & (r2 & Hr2 & Hid2 & Ht2 & _) & Hless).
  destruct (Hevm r1 Hr1) as (rm & Hrm & Hidm & _ & _ & _ & _ & Htm & _).
  pose proof (Hless rm Hrm) as Hlt. assert (l_fencingToken l < l_fencingToken l') as Hgt by (rewrite Ht1; assert (j_id rm = j_id (l_job l')) by congruence; specialize (Hlt H); lia).
  split; [done|]. intros q. destruct (perform_all_ok safeParse cs2 q2 Hok2) as [Hok Hev].
  assert (outdated l (db q)) as Hout.
  { apply (outdated_evolves l (db q2)); [|done]. exists r2. split_and!; [done|congruence|lia]. }
  split_and!; intros; [by apply outdated_heartbeat|by apply outdated_fail|by apply outdated_complete|by apply outdated_cancellation].
Qed.

(** C30: on an open queue a claim with valid arguments always ends and is never
    refused: the recovery loop stops with no expired lease left, which still
    holds of the tables after the claim, and the worker gets the waiting job that
    comes first by time and creation, or nothing when no job can be claimed. *)
Theorem claim_total safeParse cs w leaseMs clock now :
  let q := reached safeParse cs in
  closed q = false -> draining q = false -> claim_checks w leaseMs clock q = inr now ->
  exists ol q', claim w leaseMs clock q = (inr ol, q') /\
    List.filter (expired_row now) (jobs (db q')) = [] /\
    match ol with
    | Some l => exists r, r ∈ jobs (recovered now (db q)) /\ claimable now r = true /\
        l_job l = claim_row w (now + leaseMs) now r /\ l_job l ∈ jobs (db q') /\
        forall x, x ∈ jobs (recovered now (db q)) -> claimable now x = true -> before r x = true
    | None => forall x, x ∈ jobs (db q') -> claimable now x = false
    end.
Proof.
  intros q Hopen Hdrain Hchecks. pose proof (reached_ok safeParse cs) as Hok. fold q in Hok.
  unfold claim, open_. rewrite Hopen, Hdrain. unfold method, tx. rewrite Hchecks. simpl. unfold claim_body, recovered.
  destruct (recover_expired_ok _ now (db q) Hok (le_n _)) as (s1 & -> & Hok1 & _ & Hnone).
  assert (0 < leaseMs) as Hpos.
  { unfold claim_checks, check_lease in Hchecks. open_result Hchecks. bool_hyps. lia. }
  destruct (first_row _) as [r|] eqn:E.
  - pose proof (first_row_in _ _ E) as [Hr Hcl]%filter_elem.
    destruct (take_job_ok w leaseMs now s1 r Hok1 Hr Hcl) as (s2 & Et & Hok2 & _ & Hin). rewrite Et.
    eexists _, _. split; [done|]. split; [by apply (take_job_expired _ _ _ _ _ _ _ Hpos Hnone Et)|].
    exists r. split_and!; try done. intros x Hx Hcx. apply (first_row_first _ _ E). by apply filter_elem.
  - eexists _, _. split; [done|]. split; [done|]. intros x Hx. apply not_true_is_false. intros Hcl.
    assert (x ∈ List.filter (claimable now) (jobs s1)) as Hin by (by apply filter_elem).
    rewrite (first_row_none _ E) in Hin. by apply elem_of_nil in Hin.
Qed.

(** *** Errors and answers *)

(** The first refusal of a list of checks, in order. *)
Fixpoint refusal (l : list (option string)) : option string :=
  match l with [] => None | Some e :: _ => Some e | None :: l' => refusal l' end.

Definition when (b : bool) (e : string) : option string := if b then Some e else None.

Definition bad_text (v name : string) (allowEmpty : bool) : option string :=
  when ((negb allowEmpty && streq v "") || (1000000 <? Z.of_nat (String.length v))) (String.append "Invalid or too large " name).

Definition is_time (z : Z) : bool := (0 <=? z) && (z <=? 9007199254740991).

Definition bad_clock (clock : Z) : option string := when (negb (is_time clock)) "Invalid clock timestamp".

(** A lease of [ms] from [clock] on, once the clock is known to be good. *)
Definition bad_span (ms : Z) : option string := when ((ms <=? 0) || negb (is_time ms)) "Invalid lease".
Definition bad_end (ms clock : Z) : option string := when (9007199254740991 <? clock + ms) "Invalid lease".

(** A call on [q] that ends with the first refusal and leaves [q], or else as [otherwise]
    says. *)
Definition refuses {A} (l : list (option string)) (q : JobQueue) (r : result A * JobQueue) (otherwise : Prop) : Prop :=
  match refusal l with Some e => r = (inl e, q) | None => otherwise end.

(** A row under the lease [l] at the time [now]. *)
Definition holds (l : Lease) (now : Z) (r : JobRow) : Prop :=
  j_id r = j_id (l_job l) /\ j_status r = J_running /\ j_worker_id r = Some (l_workerId l) /\
  j_fencing_token r = l_fencingToken l /\ exists t, j_lease_expires_at r = Some t /\ now < t.

Definition nobody_holds (l : Lease) (now : Z) (q : JobQueue) : Prop := forall r, r ∈ jobs (db q) -> ~ holds l now r.

Lemma refusal_cons e l : refusal (e :: l) = match e with Some x => Some x | None => refusal l end.
Proof. by destruct e. Qed.

Lemma is_time_safe z : is_time z = isSafeInteger z && negb (z <? 0).
Proof.
  unfold is_time, isSafeInteger, MAX_SAFE_INTEGER. apply eq_true_iff_eq. rewrite !andb_true_iff, negb_true_iff, Z.ltb_ge, !Z.leb_le. lia.
Qed.

Lemma now_of_refusal clock : now_of clock = match bad_clock clock with Some e => inl e | None => inr clock end.
Proof.
  unfold now_of, bad_clock, when. rewrite is_time_safe. destruct (isSafeInteger clock), (clock <? 0); done.
Qed.

Lemma validText_refusal v name b : validText v name b = match bad_text v name b with Some e => inl e | None => inr tt end.
Proof. unfold validText, bad_text, when, MAX_TEXT, throw_on. by destruct (_ || _). Qed.

Lemma lease_refusal ms : check_lease ms = match bad_span ms with Some e => inl e | None => inr tt end.
Proof.
  unfold check_lease, bad_span, when, throw_on. rewrite is_time_safe.
  destruct (isSafeInteger ms), (Z.leb_spec ms 0), (Z.ltb_spec ms 0); cbn; done || lia.
Qed.

Lemma end_refusal {A} (x : A) ms clock : bad_span ms = None -> bad_clock clock = None ->
  (check negb (isSafeInteger (clock + ms)) else "Invalid lease"; inr x) =
  match bad_end ms clock with Some e => inl e | None => inr x end.
Proof.
  unfold bad_span, bad_clock, bad_end, when. intros H1 H2. destruct (_ || _) eqn:E1 in H1; [done|].
  destruct (is_time clock) eqn:E2; [|done]. apply orb_false_iff in E1 as [E1 E3]. apply negb_false_iff in E3.
  unfold is_time in *. bool_hyps. unfold throw_on, rbind.
  assert (isSafeInteger (clock + ms) = negb (9007199254740991 <? clock + ms)) as ->; [|by destruct (_ <? _)].
  apply eq_true_iff_eq. unfold isSafeInteger, MAX_SAFE_INTEGER. rewrite negb_true_iff, Z.ltb_ge, ?andb_true_iff, ?Z.leb_le. lia.
Qed.

Lemma open_refusal q : open_ q = match when (closed q) "JobQueue is closed" with Some e => inl e | None => inr tt end.
Proof. unfold open_, when, throw_on. by destruct (closed q). Qed.

(** The checks of the calls, as lists of refusals. *)
Lemma span_checks ms clock : (let? _u := check_lease ms in let? now := now_of clock in
    check negb (isSafeInteger (now + ms)) else "Invalid lease"; inr now) =
  match refusal [bad_span ms; bad_clock clock; bad_end ms clock] with Some e => inl e | None => inr clock end.
Proof.
  rewrite lease_refusal, now_of_refusal, !refusal_cons. destruct (bad_span ms) eqn:E1; [done|].
  destruct (bad_clock clock) eqn:E2; [done|]. cbn [rbind]. rewrite (end_refusal clock ms clock E1 E2). by destruct (bad_end _ _).
Qed.

(** A method whose checks are a list of refusals. *)
Lemma method_refuses {A B} (checks : JobQueue -> result B) (b : B -> body A) l (x : B) q (P : Prop) :
  checks q = match refusal l with Some e => inl e | None => inr x end ->
  (refusal l = None -> method checks b q = (let '(r, s) := tx (b x) (db q) in (r, set_db s q)) -> P) ->
  refuses l q (method checks b q) P.
Proof.
  intros Hc Hp. unfold refuses, method in *. rewrite Hc in *. destruct (refusal l) as [e|] eqn:E; [done|]. by apply Hp.
Qed.

(** A failed call leaves the tables. *)
Lemma method_error_same {A B} (checks : JobQueue -> result B) (b : B -> body A) q e q' :
  method checks b q = (inl e, q') -> q' = q.
Proof.
  unfold method, tx. destruct (checks q) as [e'|x]; [by intros [= _ <-]|].
  destruct (b x (db q)) as [[e'|a] s']; [intros [= _ <-]; by destruct q|done].
Qed.

(** A transaction that answers or that throws. *)
Lemma tx_answer {A} (b : body A) q a s : b (db q) = (inr a, s) ->
  (let '(r, s') := tx b (db q) in (r, set_db s' q)) = (inr a, set_db s q).
Proof. intros E. unfold tx. by rewrite E. Qed.

Lemma tx_throws {A} (b : body A) q e s : b (db q) = (inl e, s) ->
  (let '(r, s') := tx b (db q) in (r, set_db s' q)) = (inl e, q).
Proof. intros E. unfold tx. rewrite E. by destruct q. Qed.

(** Rows that do not match are passed over. *)
Lemma find_skip {A} (p : A -> bool) l k : (forall x, x ∈ l -> p x = false) -> List.find p (l ++ k) = List.find p k.
Proof.
  induction l as [|x l IH]; intros Hn; [done|]. cbn. rewrite (Hn x) by apply list_elem_of_here. apply IH. intros y Hy. apply Hn. by right.
Qed.

Section Answers.
Context (q : JobQueue).

Definition closed_error : option string := when (closed q) "JobQueue is closed".

(** A new job. *)
Definition queued_job (id type text : string) (o : EnqueueOptions) (clock : Z) : JobRow :=
  let at_ := default clock (o_scheduledAt o) in
  {| j_id := id; j_type := type; j_payload := text; j_status := if clock <? at_ then J_scheduled else J_queued;
     j_scheduled_at := at_; j_attempt_count := 0; j_max_attempts := default 3 (o_maxAttempts o);
     j_idempotency_key := o_idempotencyKey o; j_backoff_ms := default 1000 (o_backoffMs o);
     j_jitter := default 0%Q (o_jitter o); j_worker_id := None; j_fencing_token := 0; j_lease_expires_at := None;
     j_cancel_requested := false; j_result_ref := None; j_error := None; j_created_at := clock; j_updated_at := clock |}.

(** The job that has the key, if the key of [o] is taken. *)
Definition key_taken (o : EnqueueOptions) (x : JobRow) : Prop :=
  o_idempotencyKey o <> None /\ j_idempotency_key x = o_idempotencyKey o.

Definition enqueue_answers (safeParse : string -> value -> result value) (type : string) (payload : value)
    (o : EnqueueOptions) (uuid : string) (clock : Z) (r : result JobRow * JobQueue) : Prop :=
  let data := match safeParse type payload with inr d => d | inl _ => payload end in
  let id := default uuid (o_id o) in
  refuses [closed_error; when (negb (includes (schemas q) type)) (String.append "Unknown job type: " type);
           match safeParse type payload with inl e => Some (String.append "Invalid job payload: " e) | inr _ => None end;
           match canonicalSerialize data with
           | None => Some "Payload is not JSON serializable"
           | Some text => when (1000000 <? Z.of_nat (String.length text)) "Payload too large"
           end;
           bad_clock clock; bad_text id "job id" false;
           match o_idempotencyKey o with Some k => bad_text k "idempotency key" false | None => None end;
           when (negb (is_time (default clock (o_scheduledAt o))) || (default 3 (o_maxAttempts o) <? 1) ||
                 negb (is_time (default 1000 (o_backoffMs o))) || negb (Qle_bool 0 (default 0%Q (o_jitter o))) ||
                 negb (Qle_bool (default 0%Q (o_jitter o)) 1)) "Invalid retry options"] q r
    (exists text, canonicalSerialize data = Some text /\
       let row := queued_job id type text o clock in
       (forall x, x ∈ jobs (db q) -> key_taken o x ->
          r = (if bool_decide (j_type x = type /\ j_payload x = text) then inr x else inl "Idempotency key conflict", q)) /\
       ((forall x, x ∈ jobs (db q) -> ~ key_taken o x) ->
          (forall x, x ∈ jobs (db q) -> j_id x = id -> r = (inl "UNIQUE constraint failed: jobs.id", q)) /\
          ((forall x, x ∈ jobs (db q) -> j_id x <> id) ->
             r = (inr row, set_db {| jobs := jobs (db q) ++ [row]; attempts := attempts (db q) |} q)))).

Definition claim_answers (w : string) (ms clock : Z) (r : result (option Lease) * JobQueue) : Prop :=
  refuses [closed_error] q r
    (if draining q then r = (inr None, q)
     else refuses [bad_text w "worker id" false; bad_span ms; bad_clock clock; bad_end ms clock] q r
            (exists ol q', r = (inr ol, q'))).

Definition heartbeat_answers (l : Lease) (ms clock : Z) (r : result bool * JobQueue) : Prop :=
  refuses [closed_error; bad_span ms; bad_clock clock; bad_end ms clock] q r
    ((forall x, x ∈ jobs (db q) -> holds l clock x -> j_cancel_requested x = false ->
        exists q' x', r = (inr true, q') /\ x' ∈ jobs (db q') /\ j_id x' = j_id x /\ holds l clock x' /\
          j_lease_expires_at x' = Some (clock + ms)) /\
     ((forall x, x ∈ jobs (db q) -> holds l clock x -> j_cancel_requested x = true) -> r = (inr false, q))).

(** The end of a held job: [after] says what it becomes. *)
Definition ends (x : JobRow) (answer : bool) (after : JobRow -> Prop) (r : result bool * JobQueue) : Prop :=
  exists q' x', r = (inr answer, q') /\ x' ∈ jobs (db q') /\ j_id x' = j_id x /\ after x'.

Definition complete_answers (l : Lease) (ref : option string) (clock : Z) (r : result bool * JobQueue) : Prop :=
  refuses [closed_error; match ref with Some v => bad_text v "result reference" true | None => None end] q r
    ((forall x, x ∈ jobs (db q) -> j_id x = j_id (l_job l) -> j_status x = J_succeeded ->
        r = (inr (bool_decide (j_result_ref x = ref)), q)) /\
     ((forall x, x ∈ jobs (db q) -> j_id x = j_id (l_job l) -> j_status x <> J_succeeded) ->
      refuses [bad_clock clock] q r
        ((forall x, x ∈ jobs (db q) -> holds l clock x ->
            ends x (negb (j_cancel_requested x)) (fun x' =>
              j_status x' = (if j_cancel_requested x then J_cancelled else J_succeeded) /\
              j_result_ref x' = (if j_cancel_requested x then None else ref)) r) /\
         (nobody_holds l clock q -> r = (inr false, q))))).

Definition fail_answers (l : Lease) (err : string) (random : Q) (clock : Z) (r : result bool * JobQueue) : Prop :=
  refuses [closed_error; bad_text err "error" true; bad_clock clock] q r
    ((forall x, x ∈ jobs (db q) -> holds l clock x ->
        let at_ := clock + round (inject_Z (j_backoff_ms x) * Qpower 2 (j_attempt_count x - 1) * (1 + j_jitter x * random)) in
        let ends_as st t := ends x true (fun x' => j_status x' = st /\ j_scheduled_at x' = t) r in
        if j_cancel_requested x then ends_as J_cancelled clock
        else if j_max_attempts x <=? j_attempt_count x then ends_as J_dead_letter clock
        else if isSafeInteger at_ then ends_as J_scheduled at_
        else r = (inl "Retry backoff overflow", q)) /\
     (nobody_holds l clock q -> r = (inr false, q))).

Definition cancel_answers (id : string) (clock : Z) (r : result bool * JobQueue) : Prop :=
  refuses [closed_error; bad_clock clock] q r
    ((forall x, x ∈ jobs (db q) -> j_id x = id ->
        match j_status x with
        | J_succeeded | J_failed | J_cancelled | J_dead_letter => r = (inr false, q)
        | J_running => ends x true (fun x' => j_status x' = J_running /\ j_cancel_requested x' = true) r
        | _ => ends x true (fun x' => j_status x' = J_cancelled /\ j_cancel_requested x' = true) r
        end) /\
     ((forall x, x ∈ jobs (db q) -> j_id x <> id) -> r = (inr false, q))).

Context (Hok : store_ok (db q)).

Lemma set_db_id : set_db (db q) q = q.
Proof. by destruct q. Qed.

(** The row under a lease is the one the queue looks up. *)
Lemma find_holder l now x : x ∈ jobs (db q) -> holds l now x -> List.find (holder l now) (jobs (db q)) = Some x.
Proof.
  intros Hx Hh. destruct (List.find _ _) as [y|] eqn:E.
  - apply find_some in E as [Hy%list_elem_of_In Hhy]. f_equal. apply (job_unique _ Hok); [done..|].
    apply holder_only in Hhy. destruct Hh as [Hid _]. congruence.
  - apply holder_spec in Hh. rewrite (find_none _ _ E x) in Hh; [done|]. by apply list_elem_of_In.
Qed.

Lemma find_nobody l now : nobody_holds l now q -> List.find (holder l now) (jobs (db q)) = None.
Proof.
  intros Hn. destruct (List.find _ _) as [y|] eqn:E; [|done]. apply find_some in E as [Hy%list_elem_of_In Hh].
  by apply holder_spec, (Hn y Hy) in Hh.
Qed.

Lemma enqueue_existing r x : x ∈ jobs (db q) -> j_idempotency_key r <> None -> j_idempotency_key x = j_idempotency_key r ->
  tx (enqueue_body r) (db q) =
  (if bool_decide (j_type x = j_type r /\ j_payload x = j_payload r) then inr x else inl "Idempotency key conflict", db q).
Proof.
  intros Hx Hr Hk. destruct (j_idempotency_key r) as [k|] eqn:Ek; [|done].
  assert (existsb (has_key (Some k)) (jobs (db q)) = true) as Hex.
  { apply existsb_exists. exists x. split; [by apply list_elem_of_In|]. by apply bool_decide_eq_true. }
  unfold tx, enqueue_body, insert_job. rewrite Ek, Hex.
  destruct (List.find _ _) as [y|] eqn:Ef.
  - apply find_some in Ef as [Hy%list_elem_of_In Hky]. apply bool_decide_eq_true in Hky.
    assert (y = x) as -> by (by eapply same_key).
    destruct (streq (j_type x) (j_type r)) eqn:E1, (streq (j_payload x) (j_payload r)) eqn:E2; cbn; case_bool_decide as Hd;
      try done; try (by destruct Hd; apply streq_spec in H, H0; congruence).
    all: try (destruct Hd as [H1 H2]; apply streq_spec in H1, H2; congruence).
    destruct Hd. by apply streq_spec in E1, E2.
  - pose proof (find_none _ _ Ef x) as Hn. rewrite (bool_decide_true _ Hk : has_key (Some k) x = true) in Hn.
    discriminate Hn. by apply list_elem_of_In.
Qed.

Lemma enqueue_new r : (forall x, x ∈ jobs (db q) -> j_idempotency_key r <> None -> j_idempotency_key x <> j_idempotency_key r) ->
  (forall x, x ∈ jobs (db q) -> j_id x = j_id r -> tx (enqueue_body r) (db q) = (inl "UNIQUE constraint failed: jobs.id", db q)) /\
  ((forall x, x ∈ jobs (db q) -> j_id x <> j_id r) ->
     tx (enqueue_body r) (db q) = (inr r, {| jobs := jobs (db q) ++ [r]; attempts := attempts (db q) |})).
Proof.
  intros Hno. assert (existsb (has_key (j_idempotency_key r)) (jobs (db q)) = false) as Hex.
  { apply not_true_iff_false. intros (x & Hx%list_elem_of_In & Hk)%existsb_exists.
    unfold has_key in Hk. destruct (j_idempotency_key r) as [k|] eqn:Ek; [|done]. apply bool_decide_eq_true in Hk. by apply (Hno x). }
  unfold tx, enqueue_body, insert_job, insert, has. rewrite Hex. split.
  - intros x Hx Hid. destruct (get j_id (j_id r) (jobs (db q))) eqn:Hg; [done|]. rewrite get_None in Hg. by apply Hg in Hx.
  - intros Hfree. rewrite (proj2 (get_None j_id (j_id r) (jobs (db q))) Hfree). cbn [jobs].
    destruct (j_idempotency_key r) as [k|] eqn:Ek.
    + assert (List.find (has_key (Some k)) (jobs (db q) ++ [r]) = Some r) as ->.
      { rewrite find_skip; [cbn; by rewrite bool_decide_true|]. intros x Hx. apply bool_decide_eq_false. by apply Hno. }
      by rewrite !streq_refl.
    + by rewrite get_app, (proj2 (get_None j_id (j_id r) (jobs (db q))) Hfree), get_cons, decide_True.
Qed.

Lemma options_refusal at_ max back j : options_invalid at_ max back j =
  (negb (is_time at_) || (max <? 1) || negb (is_time back) || negb (Qle_bool 0 j) || negb (Qle_bool j 1)).
Proof.
  unfold options_invalid. rewrite !is_time_safe.
  by destruct (isSafeInteger at_), (at_ <? 0), (max <? 1), (isSafeInteger back), (back <? 0).
Qed.

Lemma enqueue_answered safeParse type payload o uuid clock :
  enqueue_answers safeParse type payload o uuid clock (enqueue safeParse type payload o uuid clock q).
Proof.
  unfold enqueue_answers, refuses, enqueue, method, enqueue_checks, canonical_payload, closed_error, MAX_TEXT.
  rewrite open_refusal, !refusal_cons. destruct (when (closed q) _); cbn [rbind]; [done|].
  destruct (includes (schemas q) type); cbn [negb when throw_on rbind]; [|done].
  destruct (safeParse type payload) as [e|data]; cbn [rbind]; [done|].
  destruct (canonicalSerialize data) as [text|]; cbn [rbind]; [|done].
  destruct (1000000 <? _); cbn [when throw_on rbind]; [done|].
  rewrite now_of_refusal. destruct (bad_clock clock); cbn [rbind]; [done|].
  rewrite validText_refusal. destruct (bad_text _ "job id" _); cbn [rbind]; [done|].
  assert (valid_optional (o_idempotencyKey o) "idempotency key" false =
    match match o_idempotencyKey o with Some k => bad_text k "idempotency key" false | None => None end with
    | Some e => inl e | None => inr tt end) as ->.
  { unfold valid_optional. destruct (o_idempotencyKey o); [apply validText_refusal|done]. }
  destruct (match o_idempotencyKey o with Some k => _ | None => _ end); cbn [rbind]; [done|].
  rewrite options_refusal. destruct (_ || _); cbn [when throw_on rbind refusal]; [done|].
  exists text. split; [done|]. cbv zeta.
  match goal with |- context [tx (enqueue_body ?r)] => change r with (queued_job (default uuid (o_id o)) type text o clock) end.
  split.
  - intros x Hx [Hk He]. rewrite (enqueue_existing (queued_job (default uuid (o_id o)) type text o clock) x Hx Hk He). cbn.
    by case_bool_decide; destruct q.
  - intros Hno. destruct (enqueue_new (queued_job (default uuid (o_id o)) type text o clock)) as [H1 H2].
    { intros x Hx Hk He. by apply (Hno x Hx). }
    split; [intros x Hx Hid; rewrite (H1 x Hx Hid); by destruct q|]. intros Hfree. by rewrite (H2 Hfree).
Qed.

Lemma claim_answered w ms clock : claim_answers w ms clock (claim w ms clock q).
Proof.
  unfold claim_answers, claim. unfold refuses at 1. rewrite open_refusal. unfold closed_error. rewrite refusal_cons.
  destruct (when _ _); [done|]. destruct (draining q); [done|].
  apply (method_refuses _ _ _ clock).
  - unfold claim_checks. rewrite span_checks, validText_refusal, (refusal_cons (bad_text _ _ _)). by destruct (bad_text _ _ _).
  - intros _ ->. destruct (claim_body_ok w ms clock (db q) Hok) as (ol & s' & E & _). rewrite (tx_answer _ _ _ _ E). eauto.
Qed.

Lemma heartbeat_answered l ms clock : heartbeat_answers l ms clock (heartbeat l ms clock q).
Proof.
  unfold heartbeat_answers, heartbeat. apply (method_refuses _ _ _ clock).
  - unfold heartbeat_checks. rewrite open_refusal, span_checks, (refusal_cons closed_error). unfold closed_error. by destruct (when _ _).
  - intros Hnone ->. assert (0 < ms) as Hms.
    { unfold bad_span in Hnone. destruct (Z.leb_spec ms 0); [|done]. rewrite !refusal_cons in Hnone. by destruct closed_error. }
    set (p := fun r => holder l clock r && negb (j_cancel_requested r)).
    assert (forall x, p x = true -> j_id x = j_id (l_job l)) as Honly
      by (intros x Hx; unfold p in Hx; apply andb_true_iff in Hx as [Hx _]; by eapply holder_only).
    split.
    + intros x Hx Hh Hcan. assert (p x = true) as Hp by (unfold p; rewrite Hcan, andb_true_r; by apply holder_spec).
      assert (forall y, p y = true -> j_id y = j_id x) as Honly' by (intros y Hy; rewrite (Honly y Hy); by destruct Hh).
      rewrite (tx_answer _ _ true {| jobs := update_where p (extend_lease (clock + ms) clock) (jobs (db q)); attempts := attempts (db q) |}).
      2: { unfold heartbeat_body, update_jobs. fold p. by rewrite (selects_changes (db q) Hok x Hx p Hp Honly'). }
      eexists _, (extend_lease (clock + ms) clock x). split; [done|]. split; [|split; [done|split; [|done]]].
      * cbn. apply (updated (db q) Hok x Hx p _ Hp Honly'). by left.
      * destruct Hh as (H1 & H2 & H3 & H4 & _). split_and!; try done. exists (clock + ms). split; [done|lia].
    + intros Hcan. destruct (select_cases (db q) p _ Honly) as [(x & Hx & Hp & _)|(Hz & Hu & _)].
      * unfold p in Hp. apply andb_true_iff in Hp as [Hh Hc]. apply holder_spec in Hh. by rewrite (Hcan x Hx Hh) in Hc.
      * rewrite (tx_answer _ _ false (db q)); [by rewrite set_db_id|]. unfold heartbeat_body, update_jobs. fold p.
        rewrite Hz, Hu. by destruct (db q).
Qed.

Lemma complete_answered l ref clock : complete_answers l ref clock (complete l ref clock q).
Proof.
  unfold complete_answers, complete. unfold refuses at 1. rewrite open_refusal, !refusal_cons. unfold closed_error.
  destruct (when _ _); [done|]. cbn [rbind].
  assert (valid_optional ref "result reference" true =
    match match ref with Some v => bad_text v "result reference" true | None => None end with Some e => inl e | None => inr tt end) as ->
    by (destruct ref; [apply validText_refusal|done]).
  destruct (match ref with Some v => _ | None => _ end); [done|]. split.
  - intros x Hx Hid Hs. rewrite <- Hid, (keyed_get j_id _ x (so_keyed _ Hok) Hx), bool_decide_true by done. done.
  - intros Hno. match goal with |- refuses _ _ ?m _ => assert (m = method (fun _ => now_of clock) (complete_body l ref) q) as -> end.
    { destruct (get _ _ _) as [x|] eqn:Hg; [|done]. apply get_Some in Hg as [Hx Hid]. by rewrite bool_decide_false by (by apply Hno). }
    apply (method_refuses _ _ _ clock); [by rewrite now_of_refusal; destruct (bad_clock clock)|]. intros _ ->.
    destruct (complete_body_ok l ref clock (db q) Hok) as (b & s' & E & _ & _ & Hb). rewrite (tx_answer _ _ _ _ E). split.
    + intros x Hx Hh. rewrite (find_holder l clock x Hx Hh) in Hb. destruct Hb as (-> & x' & Hx' & Hid & H1 & H2).
      by eexists _, x'.
    + intros Hn. rewrite (find_nobody l clock Hn) in Hb. destruct Hb as [-> ->]. by rewrite set_db_id.
Qed.

Lemma fail_answered l err random clock : fail_answers l err random clock (fail l err random clock q).
Proof.
  unfold fail_answers, fail. apply (method_refuses _ _ _ clock).
  - unfold fail_checks, closed_error. rewrite open_refusal, validText_refusal, now_of_refusal, !refusal_cons.
    destruct (when _ _); [done|]. cbn [rbind]. destruct (bad_text _ _ _); [done|]. by destruct (bad_clock clock).
  - intros _ ->. pose proof (fail_body_ok l err random clock (db q) Hok) as Hf. split.
    + intros x Hx Hh. pose proof (find_holder l clock x Hx Hh) as Hfind. cbv zeta.
      assert (forall st t, failed_status x random clock = inr (st, t) ->
        ends x true (fun x' => j_status x' = st /\ j_scheduled_at x' = t)
          (let '(r, s) := tx (fail_body l err random clock) (db q) in (r, set_db s q))) as Hend.
      { intros st t Hst. destruct (fail_body l err random clock (db q)) as [[e|b] s'] eqn:E.
        - destruct Hf as (_ & _ & r & Hr & Hs). rewrite Hfind in Hr. injection Hr as <-. by rewrite Hst in Hs.
        - rewrite (tx_answer _ _ _ _ E), Hfind in *. destruct Hf as (_ & _ & -> & st' & at' & Hs & x' & Hx' & Hid & H1 & H2).
          rewrite Hst in Hs. injection Hs as <- <-. by eexists _, x'. }
      unfold failed_status, retry_delay in Hend. revert Hend. destruct (j_cancel_requested x) eqn:Ec; [intros Hend; by apply Hend|].
      destruct (_ <=? _) eqn:Em; [intros Hend; by apply Hend|].
      destruct (isSafeInteger _) eqn:Esafe; cbn [negb throw_on rbind]; intros Hend; [by apply Hend|].
      destruct (fail_body l err random clock (db q)) as [[e|b] s'] eqn:E.
      * rewrite (tx_throws _ _ _ _ E). by destruct Hf as (_ & -> & _).
      * rewrite Hfind in Hf. destruct Hf as (_ & _ & _ & st & t & Hs & _). unfold failed_status, retry_delay in Hs.
        by rewrite Ec, Em, Esafe in Hs.
    + intros Hn. rewrite (tx_answer _ _ false (db q)); [by rewrite set_db_id|]. unfold fail_body. by rewrite find_nobody.
Qed.

Lemma cancel_answered id clock : cancel_answers id clock (cancel id clock q).
Proof.
  unfold cancel_answers, cancel. apply (method_refuses _ _ _ clock).
  - unfold closed_error. rewrite open_refusal, now_of_refusal, !refusal_cons. destruct (when _ _); [done|]. by destruct (bad_clock clock).
  - intros _ ->. split.
    + intros x Hx Hid. assert (get j_id id (jobs (db q)) = Some x) as Hg by (rewrite <- Hid; by apply keyed_get, Hx; apply so_keyed).
      assert (forall p f, p x = true -> (forall y, p y = true -> j_id y = id) ->
        f x ∈ jobs (update_jobs p f (db q)).2) as Hup.
      { intros p f Hp Hy. cbn. apply (updated (db q) Hok x Hx p f Hp); [intros y Hy'; rewrite Hid; by apply Hy|by left]. }
      assert (forall p f after, p x = true -> (forall y, p y = true -> j_id y = id) -> j_id (f x) = j_id x -> after (f x) ->
        ends x true after (inr true, set_db (update_jobs p f (db q)).2 q)) as Hends.
      { intros p f after Hp Hy Hid' Ha. eexists _, (f x). split; [done|]. split; [|done]. by apply Hup. }
      unfold tx, cancel_body. rewrite Hg. unfold is_running, is_waiting.
      destruct (j_status x) eqn:Est; cbn; rewrite ?set_db_id; try done; apply Hends; cbn;
        rewrite ?Hid, ?streq_refl, ?Est; try done; intros y Hy; apply andb_true_iff in Hy as [Hy _]; by apply streq_spec.
    + intros Hn. unfold tx, cancel_body. rewrite (proj2 (get_None j_id id (jobs (db q))) Hn). by rewrite set_db_id.
Qed.
End Answers.

(** C31: what each call on a queue that was reached from an empty database answers, and
    every error it can throw, in the order of its checks: closed queue, unknown job type,
    rejected, unserialisable or oversized payload, clock, id, key and options, lease, text
    sizes.  A call that throws leaves the queue as it was.  Past the checks: `enqueue`
    gives the job that has the key if type and payload agree, conflicts if they do not,
    refuses a taken id, and else appends the new job; `claim` throws nothing;
    `heartbeat` answers true exactly for a job that is running under this lease, not yet
    over, and not asked to stop, and the lease then ends as asked; `complete` answers for a
    job that succeeded whether it did with this result, and else ends a job under the
    lease, `fail` too, with the retry time of the code or `Retry backoff overflow` where
    that time is not a safe integer; without such a job they answer false and change
    nothing; `cancel` answers false exactly for a job that is missing or over.  The
    inconsistencies the transactions test for (a claim conflict, a missing attempt, a
    fencing conflict) never happen. *)
Theorem queue_errors safeParse cs :
  let q := reached safeParse cs in
  (forall type payload o uuid clock,
     enqueue_answers q safeParse type payload o uuid clock (enqueue safeParse type payload o uuid clock q)) /\
  (forall w ms clock, claim_answers q w ms clock (claim w ms clock q)) /\
  (forall l ms clock, heartbeat_answers q l ms clock (heartbeat l ms clock q)) /\
  (forall l ref clock, complete_answers q l ref clock (complete l ref clock q)) /\
  (forall l err random clock, fail_answers q l err random clock (fail l err random clock q)) /\
  (forall id clock, cancel_answers q id clock (cancel id clock q)).
Proof.
  intros q. pose proof (reached_ok safeParse cs) as Hok. fold q in Hok.
  split_and!; intros; by auto using enqueue_answered, claim_answered, heartbeat_answered, complete_answered, fail_answered, cancel_answered.
Qed.

(** *** Witnesses *)

(** Every payload is valid. *)
Definition accept_all (type : string) (v : value) : result value := inr v.

Definition demo_options : EnqueueOptions :=
  {| o_id := Some "job-1"; o_idempotencyKey := None; o_scheduledAt := None; o_maxAttempts := None;
     o_backoffMs := None; o_jitter := None |}.

Definition demo_calls : list JobCall :=
  [C_register "report"; C_enqueue "report" (V_string "weekly") demo_options "uuid" 1000].

(** The lease of the first claim, which runs out, and of the second. *)
Definition demo_lease (clock : Z) (q : JobQueue) : Lease * JobQueue :=
  match claim "worker" 500 clock q with
  | (inr (Some l), q') => (l, q')
  | (_, q') => ({| l_job := {| j_id := ""; j_type := ""; j_payload := ""; j_status := J_failed; j_scheduled_at := 0;
                     j_attempt_count := 0; j_max_attempts := 0; j_idempotency_key := None; j_backoff_ms := 0;
                     j_jitter := 0%Q; j_worker_id := None; j_fencing_token := 0; j_lease_expires_at := None;
                     j_cancel_requested := false; j_result_ref := None; j_error := None; j_created_at := 0;
                     j_updated_at := 0 |}; l_workerId := ""; l_fencingToken := 0; l_expiresAt := 0 |}, q')
  end.

Definition demo_first : Lease * JobQueue := demo_lease 2000 (reached accept_all demo_calls).
Definition demo_second : Lease * JobQueue := demo_lease 3000 demo_first.2.

Lemma reissued_lease_powerless_witness :
  l_fencingToken demo_first.1 < l_fencingToken demo_second.1 /\
  (complete demo_first.1 (Some "done") 3100 demo_second.2).2 = demo_second.2.
Proof.
  pose proof (reissued_lease_powerless accept_all demo_calls "worker" 500 2000 demo_first.1 demo_first.2 []
    "worker" 500 3000 demo_second.1 demo_second.2 [] eq_refl eq_refl eq_refl) as (Hlt & _ & _ & Hc & _).
  split; [exact Hlt|]. apply (Hc (Some "done") 3100).
Defined.

Lemma claim_total_witness :
  exists ol q', claim "worker" 500 2000 (reached accept_all demo_calls) = (inr ol, q') /\
    List.filter (expired_row 2000) (jobs (db q')) = [].
Proof.
  destruct (claim_total accept_all demo_calls "worker" 500 2000 2000 eq_refl eq_refl eq_refl) as (ol & q' & H1 & H2 & _).
  exists ol, q'. split; assumption.
Defined.

(** The first claim gives the job, so the theorems above are not vacuous. *)
Example demo_claimed : l_fencingToken demo_first.1 = 1 /\ l_fencingToken demo_second.1 = 2.
Proof. by vm_compute. Qed.
