(* ===== verification/Schedule.v ===== *)
(** `nextScheduleTime` of `src/autonomy/jobs/index.ts`: when a schedule is due next, over
    the UTC fields of a JavaScript `Date`, as ECMAScript defines them on the proleptic
    Gregorian calendar: a time is a number of milliseconds, a day a number of days since
    1970-01-01. *)
From S2P Require Import Prelude Money.
From Stdlib Require Import Ascii.
#[local] Open Scope Z_scope.
#[local] Open Scope result_scope.

Definition MS_PER_MINUTE : Z := 60000.
Definition MS_PER_DAY : Z := 86400000.

(** `new Date(t)` is a valid date. *)
Definition valid_time (t : Z) : bool := Z.abs t <=? 8640000000000000.

Definition getUTCMinutes (t : Z) : Z := t / MS_PER_MINUTE mod 60.
Definition getUTCHours (t : Z) : Z := t / 3600000 mod 24.
Definition day (t : Z) : Z := t / MS_PER_DAY.
Definition week_day (d : Z) : Z := (d + 4) mod 7.

(** One in a leap year. *)
Definition leap (y : Z) : Z :=
  if (y mod 4 =? 0) && (negb (y mod 100 =? 0) || (y mod 400 =? 0)) then 1 else 0.

(** The first day of a year. *)
Definition day_from_year (y : Z) : Z := 365 * (y - 1970) + (y - 1969) / 4 - (y - 1901) / 100 + (y - 1601) / 400.

(** The year of a day: the mean year is never more than one year off. *)
Definition year_of (d : Z) : Z :=
  let y := 1970 + d * 400 / 146097 in
  if d <? day_from_year y then y - 1 else if day_from_year (y + 1) <=? d then y + 1 else y.

(** The first day of a month in its year, and the month of a day; [l] is [leap]. *)
Definition month_start (l m : Z) : Z :=
  if m <=? 0 then 0 else if m =? 1 then 31 else if m =? 2 then 59 + l else if m =? 3 then 90 + l
  else if m =? 4 then 120 + l else if m =? 5 then 151 + l else if m =? 6 then 181 + l else if m =? 7 then 212 + l
  else if m =? 8 then 243 + l else if m =? 9 then 273 + l else if m =? 10 then 304 + l else if m =? 11 then 334 + l
  else 365 + l.

Definition month_at (l yd : Z) : Z :=
  if yd <? 31 then 0 else if yd <? 59 + l then 1 else if yd <? 90 + l then 2 else if yd <? 120 + l then 3
  else if yd <? 151 + l then 4 else if yd <? 181 + l then 5 else if yd <? 212 + l then 6 else if yd <? 243 + l then 7
  else if yd <? 273 + l then 8 else if yd <? 304 + l then 9 else if yd <? 334 + l then 10 else 11.

Definition year_day (d : Z) : Z := d - day_from_year (year_of d).
Definition month_of (d : Z) : Z := month_at (leap (year_of d)) (year_day d).
Definition date_of (d : Z) : Z := year_day d - month_start (leap (year_of d)) (month_of d) + 1.

Definition getUTCDate (t : Z) : Z := date_of (day t).
Definition getUTCMonth (t : Z) : Z := month_of (day t).
Definition getUTCDay (t : Z) : Z := week_day (day t).

(** The day of a date. *)
Definition day_of_date (y m dom : Z) : Z := day_from_year y + month_start (leap y) m + dom - 1.
Definition month_length (y m : Z) : Z := month_start (leap y) (m + 1) - month_start (leap y) m.
Definition valid_date (y m dom : Z) : Prop := 0 <= m < 12 /\ 1 <= dom <= month_length y m.

Example leap_day_2024 : (year_of 19782, month_of 19782, date_of 19782, week_day 19782) = (2024, 1, 29, 4).
Proof. reflexivity. Qed.

(** *** Years *)

Lemma leap_cases y : leap y = 0 \/ leap y = 1.
Proof. unfold leap. destruct (_ && _); auto. Qed.

Lemma leap_true y : leap y = 1 <-> y mod 4 = 0 /\ (y mod 100 <> 0 \/ y mod 400 = 0).
Proof.
  unfold leap. destruct (Z.eqb_spec (y mod 4) 0), (Z.eqb_spec (y mod 100) 0), (Z.eqb_spec (y mod 400) 0);
    simpl; split; try done; try tauto; lia.
Qed.

Lemma div_next x b : 0 < b -> (x + 1) / b = x / b + (if (x + 1) mod b =? 0 then 1 else 0).
Proof.
  intros Hb. pose proof (Z.div_mod x b ltac:(lia)) as Hx. pose proof (Z.mod_pos_bound x b Hb) as Hr.
  destruct (Z.eq_dec (x mod b) (b - 1)) as [E|E].
  - rewrite <- (Z.div_unique (x + 1) b (x / b + 1) 0), <- (Z.mod_unique (x + 1) b (x / b + 1) 0) by lia. done.
  - rewrite <- (Z.div_unique (x + 1) b (x / b) (x mod b + 1)), <- (Z.mod_unique (x + 1) b (x / b) (x mod b + 1)) by lia.
    destruct (Z.eqb_spec (x mod b + 1) 0); lia.
Qed.

Lemma year_term y b k : 0 < b -> (y + 1 - (k * b + 1)) / b = (y - (k * b + 1)) / b + (if y mod b =? 0 then 1 else 0).
Proof.
  intros Hb. replace (y + 1 - (k * b + 1)) with (y - (k * b + 1) + 1) by lia. rewrite div_next by done.
  replace (y - (k * b + 1) + 1) with (y + (- k) * b) by lia. by rewrite Z_mod_plus_full.
Qed.

Lemma year_length y : day_from_year (y + 1) = day_from_year y + 365 + leap y.
Proof.
  pose proof (year_term y 4 492 eq_refl) as H4. pose proof (year_term y 100 19 eq_refl) as H100.
  pose proof (year_term y 400 4 eq_refl) as H400.
  change (492 * 4 + 1) with 1969 in H4. change (19 * 100 + 1) with 1901 in H100. change (4 * 400 + 1) with 1601 in H400.
  unfold day_from_year, leap. rewrite H4, H100, H400. clear H4 H100 H400.
  destruct (Z.eqb_spec (y mod 4) 0), (Z.eqb_spec (y mod 100) 0), (Z.eqb_spec (y mod 400) 0); simpl; try lia;
    exfalso; Z.to_euclidean_division_equations; lia.
Qed.

Lemma year_length_bounds y : day_from_year y + 365 <= day_from_year (y + 1) <= day_from_year y + 366.
Proof. rewrite year_length. destruct (leap_cases y); lia. Qed.

Lemma years_apart y k : 0 <= k -> day_from_year y + 365 * k <= day_from_year (y + k).
Proof.
  intros Hk. pattern k. apply natlike_ind; [rewrite (Z.add_0_r y); lia| |done].
  intros x Hx IH. pose proof (year_length_bounds (y + x)). replace (y + Z.succ x) with (y + x + 1) by lia. lia.
Qed.

Lemma day_from_year_le y z : y <= z -> day_from_year y <= day_from_year z.
Proof. intros H. pose proof (years_apart y (z - y)). replace (y + (z - y)) with z in * by lia. lia. Qed.

Lemma mean_year y : 146097 * (y - 1970) - 510 <= 400 * day_from_year y <= 146097 * (y - 1970) + 590.
Proof. unfold day_from_year. Z.to_euclidean_division_equations. lia. Qed.

Lemma year_of_spec d : day_from_year (year_of d) <= d < day_from_year (year_of d + 1).
Proof.
  unfold year_of. set (k := d * 400 / 146097).
  assert (146097 * k <= d * 400 < 146097 * (k + 1)) as Hk
    by (unfold k; Z.to_euclidean_division_equations; lia).
  pose proof (mean_year (1970 + k - 1)). pose proof (mean_year (1970 + k + 1 + 1)).
  destruct (Z.ltb_spec d (day_from_year (1970 + k))).
  - replace (1970 + k - 1 + 1) with (1970 + k) by lia. lia.
  - destruct (Z.leb_spec (day_from_year (1970 + k + 1)) d); lia.
Qed.

Lemma year_of_unique d y : day_from_year y <= d < day_from_year (y + 1) -> year_of d = y.
Proof.
  intros H. pose proof (year_of_spec d) as Hs.
  destruct (Z.lt_trichotomy (year_of d) y) as [Hl|[E|Hl]]; [|done|]; exfalso.
  - pose proof (day_from_year_le (year_of d + 1) y). lia.
  - pose proof (day_from_year_le (y + 1) (year_of d)). lia.
Qed.

(** *** Months *)

Lemma month_start_end l : month_start l 12 = 365 + l.
Proof. done. Qed.

Lemma twelve (P : Z -> Prop) :
  P 0 -> P 1 -> P 2 -> P 3 -> P 4 -> P 5 -> P 6 -> P 7 -> P 8 -> P 9 -> P 10 -> P 11 -> forall m, 0 <= m < 12 -> P m.
Proof.
  intros. assert (m = 0 \/ m = 1 \/ m = 2 \/ m = 3 \/ m = 4 \/ m = 5 \/ m = 6 \/ m = 7 \/ m = 8 \/ m = 9 \/ m = 10 \/ m = 11)
    as Hm by lia. by repeat (destruct Hm as [-> |Hm]; [done|]); subst.
Qed.

Lemma month_at_spec l yd :
  l = 0 \/ l = 1 -> 0 <= yd < 365 + l ->
  0 <= month_at l yd < 12 /\ month_start l (month_at l yd) <= yd < month_start l (month_at l yd + 1).
Proof.
  intros Hl Hyd. unfold month_at.
  repeat match goal with |- context [if yd <? ?x then _ else _] => destruct (Z.ltb_spec yd x) end;
    unfold month_start; simpl; lia.
Qed.

Lemma month_at_unique l yd m :
  l = 0 \/ l = 1 -> 0 <= m < 12 -> month_start l m <= yd < month_start l (m + 1) -> month_at l yd = m.
Proof.
  intros Hl Hm. revert m Hm. apply (twelve (fun m => _ -> _)); unfold month_start; simpl; intros H;
    unfold month_at; repeat match goal with |- context [yd <? ?x] => destruct (Z.ltb_spec yd x); try lia end.
Qed.

Lemma month_length_min y m : 0 <= m < 12 -> 28 <= month_length y m <= 31.
Proof.
  revert m. unfold month_length. destruct (leap_cases y) as [-> | ->]; apply twelve; vm_compute; split; by intros.
Qed.

Lemma month_start_bounds l m : l = 0 \/ l = 1 -> 0 <= m < 12 -> 0 <= month_start l m <= 335.
Proof. intros Hl. revert m. apply twelve; unfold month_start; simpl; lia. Qed.

Lemma month_in_year y m : 0 <= m < 12 -> month_start (leap y) m + month_length y m <= 365 + leap y.
Proof. revert m. unfold month_length. destruct (leap_cases y) as [-> | ->]; apply twelve; vm_compute; by intros. Qed.

(** Only February depends on the year. *)
Lemma month_length_cases y z m dom :
  valid_date y m dom -> valid_date z m dom \/ (m = 1 /\ dom = 29 /\ leap z = 0).
Proof.
  intros [Hm Hd]. unfold valid_date. revert m Hm Hd. unfold month_length.
  destruct (leap_cases y) as [-> | ->], (leap_cases z) as [-> | ->]; apply (twelve (fun m => _ -> _));
    unfold month_start; simpl; lia.
Qed.

(** *** Dates *)

(** The fields of a day are a date, and it is that day's. *)
Lemma date_of_day d :
  valid_date (year_of d) (month_of d) (date_of d) /\ day_of_date (year_of d) (month_of d) (date_of d) = d.
Proof.
  pose proof (year_of_spec d) as Hy. rewrite year_length in Hy. unfold valid_date, day_of_date, date_of, month_length.
  destruct (month_at_spec (leap (year_of d)) (year_day d) (leap_cases _)) as [Hm Hs]; [unfold year_day; lia|].
  fold (month_of d) in *. unfold year_day in *. lia.
Qed.

(** The day of a date has the date's fields. *)
Lemma day_of_date_fields y m dom :
  valid_date y m dom ->
  let d := day_of_date y m dom in year_of d = y /\ month_of d = m /\ date_of d = dom.
Proof.
  intros [Hm Hd] d. pose proof (month_start_bounds (leap y) m (leap_cases y) Hm).
  pose proof (month_in_year y m Hm). unfold month_length in *.
  assert (year_of d = y) as Ey by (apply year_of_unique; rewrite year_length; unfold d, day_of_date; lia).
  assert (month_of d = m) as Em.
  { unfold month_of, year_day. rewrite Ey. apply month_at_unique; [apply leap_cases|done|]. unfold d, day_of_date. lia. }
  split_and!; [done..|]. unfold date_of, year_day. rewrite Ey, Em. unfold d, day_of_date. lia.
Qed.

(** ** `nextScheduleTime`

    A text is its list of ASCII characters; `Number(text)` is the exact value of the
    numeral, so it can differ from the double only for numerals of more than fifteen
    digits. *)

(** *** Texts *)

(** `text.split(c)` *)
Fixpoint split_on (c : ascii) (l : list ascii) : list (list ascii) :=
  match l with
  | [] => [[]]
  | x :: l' =>
      if Ascii.eqb x c then [] :: split_on c l'
      else match split_on c l' with w :: ws => (x :: w) :: ws | [] => [[x]] end
  end.

(** `text.split(/\s+/)`: a run of white space is one separator. *)
Fixpoint split_spaces (l : list ascii) : list (list ascii) :=
  match l with
  | [] => [[]]
  | x :: l' =>
      if is_space x then
        match l' with
        | y :: _ => if is_space y then split_spaces l' else [] :: split_spaces l'
        | [] => [[]; []]
        end
      else match split_spaces l' with w :: ws => (x :: w) :: ws | [] => [[x]] end
  end.

(** *** Numerals *)

Definition nonempty {A} (l : list A) : bool := match l with [] => false | _ => true end.

(** A sign and the rest. *)
Definition signed (l : list ascii) : bool * list ascii :=
  match l with
  | "-"%char :: l' => (true, l')
  | "+"%char :: l' => (false, l')
  | _ => (false, l)
  end.

(** The first `e` or `E` splits a decimal numeral. *)
Fixpoint split_exponent (l : list ascii) : list ascii * option (list ascii) :=
  match l with
  | [] => ([], None)
  | c :: l' =>
      if Ascii.eqb c "e"%char || Ascii.eqb c "E"%char then ([], Some l')
      else let '(m, e) := split_exponent l' in (c :: m, e)
  end.

(** The integer [n * 10^e] is, if it is one below the infinity of doubles. *)
Definition scaled (n e : Z) : option Z :=
  let v := if 0 <=? e then Some (n * 10 ^ e)
           else if n mod 10 ^ (- e) =? 0 then Some (n / 10 ^ (- e)) else None in
  match v with Some z => if 2 ^ 1024 <=? z then None else Some z | None => None end.

Definition exponent_value (e : option (list ascii)) : option Z :=
  match e with
  | None => Some 0
  | Some l =>
      let '(neg, d) := signed l in
      if nonempty d && forallb is_digit d then Some (if neg then - digits_value d else digits_value d) else None
  end.

(** A decimal numeral: the integer it is; None for a fraction, an infinity or a
    text that is no numeral. *)
Definition decimal_integer (l : list ascii) : option Z :=
  let '(neg, body) := signed l in
  let '(mant, ex) := split_exponent body in
  let '(w, f) := split_dot mant in
  let digits := w ++ default [] f in
  if nonempty digits && forallb is_digit digits then
    match exponent_value ex with
    | Some e =>
        match scaled (digits_value digits) (e - Z.of_nat (length (default [] f))) with
        | Some z => Some (if neg then - z else z)
        | None => None
        end
    | None => None
    end
  else None.

(** The value of a digit in bases up to sixteen. *)
Definition radix_digit (c : ascii) : Z :=
  let n := Z.of_nat (nat_of_ascii c) in
  if is_digit c then n - 48 else if (97 <=? n) && (n <=? 102) then n - 87
  else if (65 <=? n) && (n <=? 70) then n - 55 else 16.

Definition radix_integer (b : Z) (l : list ascii) : option Z :=
  if nonempty l && forallb (fun c => radix_digit c <? b) l
  then Some (fold_left (fun n c => n * b + radix_digit c) l 0) else None.

(** `Number(text)`, when it is an integer. *)
Definition to_number (text : list ascii) : option Z :=
  match trim text with
  | [] => Some 0
  | "0"%char :: x :: l =>
      if Ascii.eqb x "x" || Ascii.eqb x "X" then radix_integer 16 l
      else if Ascii.eqb x "o" || Ascii.eqb x "O" then radix_integer 8 l
      else if Ascii.eqb x "b" || Ascii.eqb x "B" then radix_integer 2 l
      else decimal_integer ("0"%char :: x :: l)
  | l => decimal_integer l
  end.

(** *** Fields *)

Record ParsedField : Type := { values : list Z; wildcard : bool }.

Definition bad_field {A} : result A := inl "Invalid cron field"%string.

(** The bounds of one part. *)
Definition part_bounds (base : list ascii) (min max : Z) : result (Z * Z) :=
  let bounds := if bool_decide (base = ["*"%char]) then Some (min, max)
    else if includes base "-"%char then
      match split_on "-" base with
      | [a; b] => match to_number a, to_number b with Some lo, Some hi => Some (lo, hi) | _, _ => None end
      | _ => None
      end
    else match to_number base with Some n => Some (n, n) | None => None end in
  match bounds with
  | Some (lo, hi) => if (lo <? min) || (max <? hi) || (hi <? lo) then bad_field else inr (lo, hi)
  | None => bad_field
  end.

(** `for (let x = lo; x <= hi; x += step) out.add(...)`; [fuel] at least the
    number of values is enough. *)
Fixpoint add_values (fuel : nat) (x hi step : Z) (sunday : bool) : list Z :=
  match fuel with
  | O => []
  | S fuel' =>
      if x <=? hi then (if sunday && (x =? 7) then 0 else x) :: add_values fuel' (x + step) hi step sunday
      else []
  end.

Definition part_step (stepText : option (list ascii)) : result Z :=
  match match stepText with None => Some 1 | Some s => to_number s end with
  | Some step => if step <=? 0 then bad_field else inr step
  | None => bad_field
  end.

Definition field_part (part : list ascii) (min max : Z) (sunday : bool) : result (list Z) :=
  let pieces := split_on "/" part in
  let? step := part_step (pieces !! 1%nat) in
  let? b := part_bounds (default [] (head pieces)) min max in
  inr (add_values (Z.to_nat (b.2 - b.1 + 1)) b.1 b.2 step sunday).

Fixpoint field_parts (parts : list (list ascii)) (min max : Z) (sunday : bool) : result (list Z) :=
  match parts with
  | [] => inr []
  | p :: parts' =>
      let? here := field_part p min max sunday in
      let? rest := field_parts parts' min max sunday in
      inr (here ++ rest)
  end.

Definition field (text : list ascii) (min max : Z) (sunday : bool) : result ParsedField :=
  let? vs := field_parts (split_on "," text) min max sunday in
  inr {| values := vs; wildcard := bool_decide (text = ["*"%char]) |}.

(** *** Schedules *)

Inductive Schedule : Type :=
  | S_at (t : Z)
  | S_everyMs (ms : Z)
  | S_cron (text : string).

Record CronFields : Type := {
  f_minute : ParsedField; f_hour : ParsedField; f_dom : ParsedField; f_month : ParsedField; f_dow : ParsedField
}.

Definition parse_cron (text : string) : result CronFields :=
  match split_spaces (trim (String.list_ascii_of_string text)) with
  | [mi; h; dom; mo; dow] =>
      let? f0 := field mi 0 59 false in
      let? f1 := field h 0 23 false in
      let? f2 := field dom 1 31 false in
      let? f3 := field mo 1 12 false in
      let? f4 := field dow 0 7 true in
      inr {| f_minute := f0; f_hour := f1; f_dom := f2; f_month := f3; f_dow := f4 |}
  | _ => inl "Invalid cron schedule"%string
  end.

Definition has (f : ParsedField) (v : Z) : bool := includes (values f) v.

(** The day part of the test, on a day. *)
Definition day_matches (fs : CronFields) (d : Z) : bool :=
  let domMatch := has (f_dom fs) (date_of d) in
  let dowMatch := has (f_dow fs) (week_day d) in
  if wildcard (f_dom fs) then dowMatch else if wildcard (f_dow fs) then domMatch else domMatch || dowMatch.

(** The body's test.  The fields of an invalid date are NaN, which is no value. *)
Definition matches (fs : CronFields) (t : Z) : bool :=
  valid_time t && has (f_minute fs) (getUTCMinutes t) && has (f_hour fs) (getUTCHours t) &&
  has (f_month fs) (getUTCMonth t + 1) && day_matches fs (day t).

(** The loop, for [n] more minutes. *)
Fixpoint scan (n : nat) (fs : CronFields) (t : Z) : option Z :=
  match n with
  | O => None
  | S n' => if matches fs t then Some t else scan n' fs (t + MS_PER_MINUTE)
  end.

(** `60 * 24 * 366 * 8` minutes. *)
Definition SCAN : positive := 4216320.

Definition nextScheduleTime (schedule : Schedule) (after : Z) : result Z :=
  check negb (isSafeInteger after) || (after <? 0) else "Invalid schedule timestamp"%string;
  match schedule with
  | S_at t => check negb (isSafeInteger t) || (t <=? after) else "One-shot schedule is in the past"%string; inr t
  | S_everyMs ms =>
      check negb (isSafeInteger ms) || (ms <=? 0) || negb (isSafeInteger (after + ms))
        else "Invalid interval"%string;
      inr (after + ms)
  | S_cron text =>
      let? fs := parse_cron text in
      match scan (Pos.to_nat SCAN) fs (after / MS_PER_MINUTE * MS_PER_MINUTE + MS_PER_MINUTE) with
      | Some t => inr t
      | None => inl "Cron schedule has no occurrence"%string
      end
  end.

Example field_ranges : field (String.list_ascii_of_string "1-9/4,0x10") 0 59 false =
  inr {| values := [1; 5; 9; 16]; wildcard := false |}.
Proof. reflexivity. Qed.

(** A list that ends with a comma has an empty item, which reads as 0. *)
Example field_empty_item : field (String.list_ascii_of_string "30,") 0 59 false =
  inr {| values := [30; 0]; wildcard := false |}.
Proof. reflexivity. Qed.

Example field_sunday : field (String.list_ascii_of_string "5-7") 0 7 true =
  inr {| values := [5; 6; 0]; wildcard := false |}.
Proof. reflexivity. Qed.
