(* ===== verification/ScheduleDue.v ===== *)
(** What `nextScheduleTime` promises (`src/autonomy/jobs/index.ts`): the time it
    gives is the next minute the schedule matches, and the eight years it looks
    at are enough: when it finds none, the schedule never matches. *)
From S2P Require Import Prelude Money Schedule.
From Stdlib Require Import Ascii.
#[local] Open Scope Z_scope.

#[local] Opaque Pos.to_nat.

(** *** Fields *)

Lemma add_values_elem fuel x hi step sunday v :
  0 < step -> hi - x < Z.of_nat fuel ->
  v ∈ add_values fuel x hi step sunday <->
  exists k, 0 <= k /\ x + k * step <= hi /\ v = if sunday && (x + k * step =? 7) then 0 else x + k * step.
Proof.
  intros Hs. revert x. induction fuel as [|fuel IH]; intros x Hf; cbn [add_values].
  - split; [by intros ?%elem_of_nil|]. intros (k & ? & ? & _). nia.
  - destruct (Z.leb_spec x hi).
    + rewrite elem_of_cons, IH by lia. split.
      * intros [-> |(k & ? & ? & ->)]; [exists 0|exists (k + 1)].
        -- replace (x + 0 * step) with x by lia. split_and!; done || lia.
        -- replace (x + (k + 1) * step) with (x + step + k * step) by lia. split_and!; done || lia.
      * intros (k & Hk & Hh & ->). destruct (Z.eq_dec k 0) as [-> |Hne].
        -- left. by replace (x + 0 * step) with x by lia.
        -- right. exists (k - 1). replace (x + step + (k - 1) * step) with (x + k * step) by lia.
           split_and!; done || lia.
    + split; [by intros ?%elem_of_nil|]. intros (k & ? & ? & _). nia.
Qed.

Lemma part_bounds_inr base min max lo hi :
  part_bounds base min max = inr (lo, hi) -> min <= lo <= hi /\ hi <= max.
Proof.
  unfold part_bounds. destruct (if bool_decide _ then _ else _) as [[lo' hi']|]; [|done].
  destruct (_ || _) eqn:E; [done|]. intros [= <- <-]. bool_hyps. lia.
Qed.

Lemma part_step_inr s step : part_step s = inr step -> 0 < step.
Proof.
  unfold part_step. destruct (match s with None => _ | Some _ => _ end) as [n|]; [|done].
  destruct (Z.leb_spec n 0); [done|]. by intros [= <-].
Qed.

(** The values a part of a field stands for. *)
Definition part_value (part : list ascii) (min max : Z) (sunday : bool) (v : Z) : Prop :=
  exists step lo hi k,
    part_step (split_on "/" part !! 1%nat) = inr step /\
    part_bounds (default [] (head (split_on "/" part))) min max = inr (lo, hi) /\
    0 <= k /\ lo + k * step <= hi /\ v = if sunday && (lo + k * step =? 7) then 0 else lo + k * step.

Lemma field_part_elem part min max sunday vs v :
  field_part part min max sunday = inr vs -> v ∈ vs <-> part_value part min max sunday v.
Proof.
  unfold field_part. intros H. open_result H. destruct a0 as [lo hi]. injection H as <-. simpl.
  rewrite add_values_elem; [|by eapply part_step_inr|apply part_bounds_inr in Ha0; lia]. split.
  - intros (k & ? & ? & ->). by exists a, lo, hi, k.
  - intros (step & lo' & hi' & k & E1 & E2 & ? & ? & ->). simplify_eq. rewrite Ha in E1. rewrite Ha0 in E2. simplify_eq. by exists k.
Qed.

Lemma field_parts_elem parts min max sunday vs v :
  field_parts parts min max sunday = inr vs ->
  v ∈ vs <-> exists part, part ∈ parts /\ part_value part min max sunday v.
Proof.
  revert vs. induction parts as [|p parts IH]; intros vs H; cbn [field_parts] in H.
  - injection H as <-. split; [by intros ?%elem_of_nil|]. by intros (? & ?%elem_of_nil & _).
  - open_result H. injection H as <-. rewrite elem_of_app, (field_part_elem _ _ _ _ _ _ Ha), (IH _ Ha0). split.
    + intros [?|(q & ? & ?)]; [exists p|exists q]; rewrite elem_of_cons; auto.
    + intros (q & [-> |?]%elem_of_cons & ?); [by left|right; eauto].
Qed.

(** *** The loop *)

Lemma scan_some n fs t u :
  scan n fs t = Some u <->
  exists k, (k < n)%nat /\ u = t + MS_PER_MINUTE * Z.of_nat k /\ matches fs u = true /\
    forall j, (j < k)%nat -> matches fs (t + MS_PER_MINUTE * Z.of_nat j) = false.
Proof.
  revert t. induction n as [|n IH]; intros t; cbn [scan].
  { split; [done|]. intros (k & ? & _). lia. }
  destruct (matches fs t) eqn:E.
  - split.
    + intros [= <-]. exists 0%nat. split_and!; [lia|lia|done|lia].
    + intros ([|k] & ? & -> & ? & Hj); [f_equal; lia|]. specialize (Hj 0%nat).
      replace (t + MS_PER_MINUTE * Z.of_nat 0) with t in Hj by lia. rewrite Hj in E by lia. done.
  - rewrite IH. unfold MS_PER_MINUTE. split.
    + intros (k & ? & -> & ? & Hj). exists (S k). split_and!; [lia|lia|done|]. intros [|j] Hlt.
      * by replace (t + 60000 * Z.of_nat 0) with t by lia.
      * replace (t + 60000 * Z.of_nat (S j)) with (t + 60000 + 60000 * Z.of_nat j) by lia. apply Hj. lia.
    + intros ([|k] & ? & -> & Hm & Hj).
      { replace (t + 60000 * Z.of_nat 0) with t in Hm by lia. congruence. }
      exists k. split_and!; [lia|lia|done|]. intros j Hlt.
      replace (t + 60000 + 60000 * Z.of_nat j) with (t + 60000 * Z.of_nat (S j)) by lia. apply Hj. lia.
Qed.

Lemma scan_none n fs t :
  scan n fs t = None -> forall j, (j < n)%nat -> matches fs (t + MS_PER_MINUTE * Z.of_nat j) = false.
Proof.
  revert t. induction n as [|n IH]; intros t; cbn [scan]; [lia|].
  destruct (matches fs t) eqn:E; [done|]. intros H [|j] Hj.
  - by replace (t + MS_PER_MINUTE * Z.of_nat 0) with t by lia.
  - replace (t + MS_PER_MINUTE * Z.of_nat (S j)) with (t + MS_PER_MINUTE + MS_PER_MINUTE * Z.of_nat j) by lia.
    apply IH; [done|lia].
Qed.

(** The same loop by halves, which evaluates. *)
Fixpoint scan_halves (p : positive) (fs : CronFields) (t : Z) : option Z :=
  match p with
  | xH => if matches fs t then Some t else None
  | xO q => match scan_halves q fs t with Some u => Some u | None => scan_halves q fs (t + MS_PER_MINUTE * Zpos q) end
  | xI q =>
      if matches fs t then Some t
      else match scan_halves q fs (t + MS_PER_MINUTE) with
           | Some u => Some u
           | None => scan_halves q fs (t + MS_PER_MINUTE + MS_PER_MINUTE * Zpos q)
           end
  end.

Lemma scan_app n m fs t :
  scan (n + m) fs t =
  match scan n fs t with Some u => Some u | None => scan m fs (t + MS_PER_MINUTE * Z.of_nat n) end.
Proof.
  revert t. induction n as [|n IH]; intros t.
  - simpl. f_equal. lia.
  - cbn [scan Nat.add]. destruct (matches fs t); [done|]. rewrite IH. destruct (scan n _ _); [done|]. f_equal. lia.
Qed.

Lemma scan_halves_eq p fs t : scan (Pos.to_nat p) fs t = scan_halves p fs t.
Proof.
  revert t. induction p as [p IH|p IH|]; intros t; cbn [scan_halves].
  - replace (Pos.to_nat p~1) with (S (Pos.to_nat p + Pos.to_nat p)) by lia. cbn [scan].
    destruct (matches fs t); [done|]. by rewrite scan_app, !IH, positive_nat_Z.
  - replace (Pos.to_nat p~0) with (Pos.to_nat p + Pos.to_nat p)%nat by lia.
    by rewrite scan_app, !IH, positive_nat_Z.
  - replace (Pos.to_nat 1) with 1%nat by lia. done.
Qed.

(** *** Eight years are enough *)

(** The gap between two leap years is at most eight years. *)
Lemma next_leap y : exists k, 1 <= k <= 8 /\ leap (y + k) = 1 /\ (leap y = 0 -> k <= 7).
Proof.
  set (z := y + (4 - y mod 4)). assert (z mod 4 = 0) as Hz by (unfold z; Z.to_euclidean_division_equations; lia).
  destruct (leap_cases z) as [E|E].
  - exists (4 - y mod 4 + 4). replace (y + (4 - y mod 4 + 4)) with (z + 4) by (unfold z; lia).
    assert (z mod 100 = 0) as H100.
    { destruct (Z.eq_dec (z mod 100) 0); [done|]. assert (leap z = 1) by (apply leap_true; auto). lia. }
    pose proof (Z.mod_pos_bound y 4 eq_refl). split_and!; [lia|lia| |].
    + apply leap_true. split; [|left]; Z.to_euclidean_division_equations; lia.
    + intros Hy. destruct (Z.eq_dec (y mod 4) 0) as [E0|]; [|lia]. exfalso.
      assert (leap y = 1); [|lia]. apply leap_true. split; [done|left]. unfold z in H100.
      Z.to_euclidean_division_equations; lia.
  - exists (4 - y mod 4). pose proof (Z.mod_pos_bound y 4 eq_refl). fold z. split_and!; done || lia.
Qed.

Lemma eight_years y : day_from_year (y + 8) <= day_from_year y + 2922.
Proof.
  unfold day_from_year. Z.to_euclidean_division_equations. lia.
Qed.

(** A date that exists in some year comes within eight years. *)
Lemma next_date D0 y0 m dom :
  valid_date y0 m dom -> exists D, D0 < D <= D0 + 2922 /\ month_of D = m /\ date_of D = dom.
Proof.
  intros Hv. pose proof (year_of_spec D0) as Hy. set (y := year_of D0) in *.
  assert (forall z, valid_date z m dom -> day_from_year z <= day_of_date z m dom < day_from_year (z + 1)) as Hin.
  { intros z [Hm Hd]. pose proof (month_start_bounds (leap z) m (leap_cases z) Hm).
    pose proof (month_in_year z m Hm). rewrite year_length. unfold day_of_date. lia. }
  assert (forall z, valid_date z m dom -> D0 < day_of_date z m dom <= D0 + 2922 ->
            exists D, D0 < D <= D0 + 2922 /\ month_of D = m /\ date_of D = dom) as Hgo.
  { intros z Hz Hb. exists (day_of_date z m dom). by destruct (day_of_date_fields z m dom Hz) as (_ & ? & ?). }
  pose proof (eight_years y). pose proof (day_from_year_le (y + 2) (y + 8) ltac:(lia)).
  pose proof (year_length_bounds y). pose proof (year_length_bounds (y + 1)).
  destruct (month_length_cases y0 (y + 1) m dom Hv) as [Hv1|(-> & -> & Hl1)].
  { apply (Hgo (y + 1)); [done|]. pose proof (Hin (y + 1) Hv1).
    replace (y + 1 + 1) with (y + 2) in * by lia. lia. }
  destruct (next_leap y) as (k & Hk & Hl & Hshort).
  assert (forall z, leap z = 1 -> valid_date z 1 29 /\ day_of_date z 1 29 = day_from_year z + 59) as Hfeb.
  { intros z Hz. unfold valid_date, month_length, day_of_date, month_start. rewrite Hz. simpl. lia. }
  destruct (Hfeb (y + k) Hl) as [Hvk Ek]. pose proof (Hin (y + k) Hvk).
  pose proof (day_from_year_le (y + 1) (y + k) ltac:(lia)). pose proof (day_from_year_le (y + k) (y + 8) ltac:(lia)).
  destruct (leap_cases y) as [Hy0|Hy1].
  - pose proof (day_from_year_le (y + k + 1) (y + 8) ltac:(lia)). apply (Hgo (y + k)); [done|]. lia.
  - destruct (Hfeb y Hy1) as [Hvy Ey]. destruct (Z.le_gt_cases (day_of_date y 1 29) D0).
    + apply (Hgo (y + k)); [done|]. lia.
    + apply (Hgo y); [done|]. lia.
Qed.

(** Every month has every day of the week. *)
Lemma next_week_day D0 m w :
  0 <= m < 12 -> 0 <= w < 7 -> exists D, D0 < D <= D0 + 2922 /\ month_of D = m /\ week_day D = w.
Proof.
  intros Hm Hw. pose proof (year_of_spec D0) as Hy. set (y := year_of D0) in *.
  set (d1 := day_of_date (y + 1) m 1). pose proof (month_length_min (y + 1) m Hm) as Hlen.
  set (j := (w - week_day d1) mod 7). assert (0 <= j < 7) as Hj by (apply Z.mod_pos_bound; lia).
  assert (valid_date (y + 1) m (1 + j)) as Hv by (split; lia).
  destruct (day_of_date_fields (y + 1) m (1 + j) Hv) as (_ & Em & _).
  pose proof (month_start_bounds (leap (y + 1)) m (leap_cases _) Hm). pose proof (month_in_year (y + 1) m Hm).
  pose proof (year_length_bounds y). exists (day_of_date (y + 1) m (1 + j)). unfold day_of_date in *. split_and!.
  - lia.
  - destruct (leap_cases (y + 1)); lia.
  - done.
  - unfold j, week_day, d1, day_of_date. Z.to_euclidean_division_equations. lia.
Qed.

Lemma next_day fs D0 d :
  day_matches fs d = true -> exists D, D0 < D <= D0 + 2922 /\ month_of D = month_of d /\ day_matches fs D = true.
Proof.
  intros Hd. destruct (date_of_day d) as [Hv _].
  assert (0 <= week_day d < 7) as Hw by (apply Z.mod_pos_bound; lia).
  destruct (next_date D0 _ _ _ Hv) as (D1 & Hb1 & Hm1 & E1).
  destruct (next_week_day D0 _ _ (proj1 Hv) Hw) as (D2 & Hb2 & Hm2 & E2). unfold day_matches in *.
  destruct (wildcard (f_dom fs)); [exists D2; by rewrite E2|].
  destruct (wildcard (f_dow fs)); [exists D1; by rewrite E1|].
  apply orb_true_iff in Hd as [Hd|Hd].
  - exists D1. by rewrite E1, Hd.
  - exists D2. rewrite E2, Hd. by rewrite orb_true_r.
Qed.

(** The time of a minute of a day. *)
Lemma time_fields D h mi :
  0 <= h < 24 -> 0 <= mi < 60 -> let t := D * 86400000 + h * 3600000 + mi * 60000 in
  getUTCMinutes t = mi /\ getUTCHours t = h /\ day t = D.
Proof.
  intros Hh Hmi t. unfold getUTCMinutes, getUTCHours, day, MS_PER_MINUTE, MS_PER_DAY, t.
  split_and!; Z.to_euclidean_division_equations; lia.
Qed.

Lemma whole_minutes a b : a mod 60000 = 0 -> b mod 60000 = 0 -> a + 60000 * ((b - a) / 60000) = b.
Proof.
  intros Ha Hb. assert ((b - a) mod 60000 = 0) as H by (by rewrite Zminus_mod, Ha, Hb).
  pose proof (Z_div_exact_full_2 (b - a) 60000 ltac:(lia) H). lia.
Qed.

Lemma matches_again fs u t0 :
  matches fs u = true -> 0 <= t0 -> t0 mod 60000 = 0 -> t0 + 2923 * 86400000 <= 8640000000000000 ->
  exists j, (j < Pos.to_nat SCAN)%nat /\ matches fs (t0 + MS_PER_MINUTE * Z.of_nat j) = true.
Proof.
  intros Hu H0 Hal Hlast. unfold matches in Hu. rewrite !andb_true_iff in Hu. destruct Hu as [[[[_ Hmi] Hh] Hmo] Hd].
  destruct (next_day fs (day t0) _ Hd) as (D & Hb & Em & HD).
  assert (0 <= getUTCHours u < 24) as Bh by (apply Z.mod_pos_bound; lia).
  assert (0 <= getUTCMinutes u < 60) as Bm by (apply Z.mod_pos_bound; lia).
  destruct (time_fields D _ _ Bh Bm) as (E1 & E2 & E3).
  set (t := D * 86400000 + getUTCHours u * 3600000 + getUTCMinutes u * 60000) in *.
  assert (t0 <= t < t0 + 2923 * 86400000) as Ht.
  { unfold day, MS_PER_DAY in Hb. unfold t. clear -Hb Bh Bm. Z.to_euclidean_division_equations. lia. }
  assert (t mod 60000 = 0) as Halt.
  { unfold t. replace (D * 86400000 + getUTCHours u * 3600000 + getUTCMinutes u * 60000)
      with ((D * 1440 + getUTCHours u * 60 + getUTCMinutes u) * 60000) by lia. apply Z_mod_mult. }
  assert (t = t0 + MS_PER_MINUTE * ((t - t0) / 60000)) as Et by (by rewrite whole_minutes).
  exists (Z.to_nat ((t - t0) / 60000)). assert (0 <= (t - t0) / 60000) by (apply Z.div_pos; lia).
  assert ((t - t0) / 60000 < 4216320) by (apply Z.div_lt_upper_bound; lia). split.
  - assert (Z.of_nat (Pos.to_nat SCAN) = 4216320) by (by rewrite positive_nat_Z). lia.
  - rewrite Z2Nat.id, <- Et by done. unfold matches. rewrite !andb_true_iff, E1, E2. unfold getUTCMonth.
    rewrite E3, Em. split_and!; try done. unfold valid_time. apply Z.leb_le. lia.
Qed.

(** *** The properties *)

(** The first minute after a time. *)
Definition next_minute (after : Z) : Z := after / MS_PER_MINUTE * MS_PER_MINUTE + MS_PER_MINUTE.

Lemma next_minute_spec after :
  after < next_minute after <= after + 60000 /\ next_minute after mod 60000 = 0 /\
  forall u, after < u -> u mod 60000 = 0 -> next_minute after <= u.
Proof.
  unfold next_minute, MS_PER_MINUTE. replace (after / 60000 * 60000 + 60000) with ((after / 60000 + 1) * 60000) by lia.
  split_and!; [| |apply Z_mod_mult|].
  - Z.to_euclidean_division_equations. lia.
  - Z.to_euclidean_division_equations. lia.
  - intros u Hu Hm. Z.to_euclidean_division_equations. lia.
Qed.

Lemma cron_inr text after t :
  nextScheduleTime (S_cron text) after = inr t <->
  (isSafeInteger after = true /\ 0 <= after) /\ exists fs, parse_cron text = inr fs /\
  scan (Pos.to_nat SCAN) fs (next_minute after) = Some t.
Proof.
  unfold nextScheduleTime. change (after / _ * _ + _) with (next_minute after). split.
  - intros H. open_result H. destruct (scan _ _ _) as [u|] eqn:E; [|done]. injection H as <-. bool_hyps.
    split; [done|]. by exists a.
  - intros ([-> H0] & fs & -> & E). rewrite (proj2 (Z.ltb_ge _ _) H0). simpl. by rewrite E.
Qed.

(** The time found is exactly the next one that matches. *)
Lemma cron_next text after t :
  nextScheduleTime (S_cron text) after = inr t <->
  isSafeInteger after = true /\ 0 <= after < t /\ t mod 60000 = 0 /\ t < next_minute after + 4216320 * 60000 /\
  exists fs, parse_cron text = inr fs /\ matches fs t = true /\
    forall u, after < u < t -> u mod 60000 = 0 -> matches fs u = false.
Proof.
  destruct (next_minute_spec after) as (Hn & Hmod & Hfirst). rewrite cron_inr.
  assert (Z.of_nat (Pos.to_nat SCAN) = 4216320) as HS by (by rewrite positive_nat_Z).
  revert HS. generalize (Pos.to_nat SCAN) as n. intros n HS. unfold MS_PER_MINUTE in *. split.
  - intros ([Hs H0] & fs & Hp & (k & Hk & -> & Hm & Hj)%scan_some). unfold MS_PER_MINUTE in *. split_and!; try done; try lia.
    + rewrite (Z.mul_comm 60000), Z_mod_plus_full. done.
    + exists fs. split_and!; try done. intros u Hu Hum. specialize (Hfirst u ltac:(lia) Hum).
      replace u with (next_minute after + 60000 * Z.of_nat (Z.to_nat ((u - next_minute after) / 60000))).
      * apply Hj. clear -Hfirst Hum Hmod Hu. assert ((u - next_minute after) / 60000 < Z.of_nat k); [|lia].
        apply Z.div_lt_upper_bound; lia.
      * rewrite Z2Nat.id by (apply Z.div_pos; lia). by apply whole_minutes.
  - intros (Hs & H0 & Htm & Hlt & fs & Hp & Hm & Hno). split; [split; [done|lia]|]. exists fs. split; [done|].
    apply scan_some. specialize (Hfirst t ltac:(lia) Htm). exists (Z.to_nat ((t - next_minute after) / 60000)).
    assert (0 <= (t - next_minute after) / 60000) by (apply Z.div_pos; lia).
    assert ((t - next_minute after) / 60000 < 4216320) by (apply Z.div_lt_upper_bound; lia).
    unfold MS_PER_MINUTE. split_and!; [lia| |done|].
    + rewrite Z2Nat.id by done. by rewrite whole_minutes.
    + intros j Hj. apply Hno.
      * pose proof (whole_minutes _ _ Hmod Htm). lia.
      * rewrite (Z.mul_comm 60000), Z_mod_plus_full. done.
Qed.

(** The eight years that are looked at are enough. *)
Lemma cron_complete text after fs :
  0 <= after -> after <= 8640000000000000 - 2924 * MS_PER_DAY -> parse_cron text = inr fs ->
  (exists t, nextScheduleTime (S_cron text) after = inr t) \/
  (nextScheduleTime (S_cron text) after = inl "Cron schedule has no occurrence"%string /\
   forall u, matches fs u = false).
Proof.
  unfold MS_PER_DAY. intros H0 Hlast Hp. destruct (next_minute_spec after) as (Hn & Hmod & _).
  assert (isSafeInteger after = true) as Hs.
  { unfold isSafeInteger, MAX_SAFE_INTEGER. apply andb_true_iff. rewrite !Z.leb_le. lia. }
  destruct (scan (Pos.to_nat SCAN) fs (next_minute after)) as [t|] eqn:E.
  - left. exists t. apply cron_inr. split; [done|]. by exists fs.
  - right. split.
    + unfold nextScheduleTime. change (after / _ * _ + _) with (next_minute after).
      rewrite Hs, (proj2 (Z.ltb_ge _ _) H0), Hp. simpl. by rewrite E.
    + intros u. apply not_true_is_false. intros Hu.
      destruct (matches_again fs u (next_minute after) Hu) as (j & Hj & Hm); [lia|done|lia|].
      by rewrite (scan_none _ _ _ E j Hj) in Hm.
Qed.

(** C32: the time `nextScheduleTime` gives for a cron schedule is exactly the next
    one: a whole minute after [after] whose UTC minute, hour, month and day are
    values of the fields, with no such minute between the two; and such a minute
    within the 4216320 that are looked at is always found.  These eight years are
    enough for any schedule, also one for 29 February across a century: when no
    occurrence is found for a well-formed schedule, no time at all matches it (for
    a time whose next eight years are valid dates). *)
Theorem cron_due text after :
  (forall t, nextScheduleTime (S_cron text) after = inr t <->
     isSafeInteger after = true /\ 0 <= after < t /\ t mod 60000 = 0 /\ t < next_minute after + 4216320 * 60000 /\
     exists fs, parse_cron text = inr fs /\ matches fs t = true /\
       forall u, after < u < t -> u mod 60000 = 0 -> matches fs u = false) /\
  (forall fs, 0 <= after -> after <= 8640000000000000 - 2924 * MS_PER_DAY -> parse_cron text = inr fs ->
     (exists t, nextScheduleTime (S_cron text) after = inr t) \/
     (nextScheduleTime (S_cron text) after = inl "Cron schedule has no occurrence"%string /\
      forall u, matches fs u = false)).
Proof. split; [intros t; apply cron_next|intros fs; apply cron_complete]. Qed.

(** *** Witnesses *)

(** 29 February 2024, 06:00:30. *)
Definition leap_morning : Z := 1709186430000.

Definition demo_fields : CronFields :=
  match parse_cron "0 12 29 2 *" with inr fs => fs
  | inl _ => {| f_minute := {| values := []; wildcard := false |}; f_hour := {| values := []; wildcard := false |};
                f_dom := {| values := []; wildcard := false |}; f_month := {| values := []; wildcard := false |};
                f_dow := {| values := []; wildcard := false |} |}
  end.

(** Noon of 29 February 2024. *)
Example leap_day_due : nextScheduleTime (S_cron "0 12 29 2 *") leap_morning = inr 1709208000000.
Proof. apply cron_inr. split; [done|]. exists demo_fields. split; [reflexivity|]. rewrite scan_halves_eq. by vm_compute. Qed.

Lemma cron_due_witness :
  (exists t, nextScheduleTime (S_cron "0 12 29 2 *") leap_morning = inr t) \/
  (nextScheduleTime (S_cron "0 12 29 2 *") leap_morning = inl "Cron schedule has no occurrence"%string /\
   forall u, matches demo_fields u = false).
Proof.
  destruct (cron_due "0 12 29 2 *" leap_morning) as [_ H]. apply (H demo_fields); [by vm_compute|by vm_compute|reflexivity].
Defined.

(** A schedule without an occurrence: the thirtieth of February. *)
Lemma no_february_30 fs u : values (f_dom fs) = [30] -> values (f_month fs) = [2] -> wildcard (f_dom fs) = false ->
  wildcard (f_dow fs) = true -> matches fs u = false.
Proof.
  intros Hd Hm W1 W2. unfold matches. apply not_true_is_false. rewrite !andb_true_iff. intros [[_ H1] H2].
  unfold day_matches in H2. rewrite W1, W2 in H2. unfold has in *. rewrite Hm in H1. rewrite Hd in H2. bool_hyps.
  apply list_elem_of_singleton in H1, H2. destruct (date_of_day (day u)) as [[_ Hv] _]. unfold getUTCMonth in H1.
  assert (month_of (day u) = 1) as E by lia. rewrite E, H2 in Hv. unfold month_length, month_start in Hv. simpl in Hv.
  destruct (leap_cases (year_of (day u))); lia.
Qed.
