(* ===== verification/Workers.v ===== *)
(** `src/workers/jobs.ts`: the worker that runs queued jobs and the scheduler that
    queues them.

    [JobWorker.runOnce] waits for a handler, so it is three functions on the queue:
    [start] up to the handler, [beat] for the timer while the handler runs, and
    [settle] with the outcome of the handler, which is outside this code.
    [DurableScheduler] is synchronous; its table holds the payload and the schedule
    as JSON texts, which are modelled by the JSON values they are read back as. *)
From stdpp Require Import pretty.
From S2P Require Import Prelude Prog Table Canonical Schedule Jobs.
From Stdlib Require Import QArith.
#[local] Open Scope string_scope.
#[local] Open Scope list_scope.
#[local] Open Scope Z_scope.

(** *** Handlers *)

(** `schema.safeParse` on the payload a text of the queue stands for. *)
Definition Schema : Type := string -> option value.

(** `JobHandlerRegistry`, less the handlers themselves. *)
Definition JobHandlerRegistry : Type := gmap string Schema.

Definition register_handler (type : string) (schema : Schema) (r : JobHandlerRegistry) : JobHandlerRegistry :=
  <[type := schema]> r.

Definition get_handler (type : string) (r : JobHandlerRegistry) : option Schema := r !! type.

(** *** One job *)

Record WorkerOptions : Type := { workerId : string; leaseMs : Z; concurrency : option Z }.

(** A handler at work: its lease, its argument, and whether its signal is aborted. *)
Record Execution : Type := { e_lease : Lease; e_data : value; e_aborted : bool }.

(** What `runOnce` did before the first wait: it returns false, it returns true, or
    it waits for a handler. *)
Inductive Started : Type := R_idle | R_refused | R_running (e : Execution).

(** The draws and clock readings of one turn. *)
Record Draws : Type := { d_random : Q; d_clock : Z; d_clock2 : Z }.

(** The value of a method that nobody reads. *)
Definition ignoring {A B} (b : B) (r : result A * JobQueue) : result B * JobQueue :=
  match r with (inl e, q) => (inl e, q) | (inr _, q) => (inr b, q) end.

Definition start (r : JobHandlerRegistry) (o : WorkerOptions) (d : Draws) : jop Started := fun q =>
  match claim (workerId o) (leaseMs o) (d_clock d) q with
  | (inl e, q1) => (inl e, q1)
  | (inr None, q1) => (inr R_idle, q1)
  | (inr (Some l), q1) =>
      match get_handler (j_type (l_job l)) r with
      | None => ignoring R_refused (fail l "unknown handler" (d_random d) (d_clock2 d) q1)
      | Some schema =>
          match schema (j_payload (l_job l)) with
          | None => ignoring R_refused (fail l "invalid payload" (d_random d) (d_clock2 d) q1)
          | Some data => (inr (R_running {| e_lease := l; e_data := data; e_aborted := false |}), q1)
          end
      end
  end.

Definition abort (e : Execution) : Execution := {| e_lease := e_lease e; e_data := e_data e; e_aborted := true |}.

(** The timer's callback. *)
Definition beat (o : WorkerOptions) (clock : Z) (e : Execution) : jop Execution := fun q =>
  match isCancellationRequested (e_lease e) q with
  | (inl err, q1) => (inl err, q1)
  | (inr true, q1) => (inr (abort e), q1)
  | (inr false, q1) =>
      match heartbeat (e_lease e) (leaseMs o) clock q1 with
      | (inl err, q2) => (inl err, q2)
      | (inr extended, q2) => (inr (if extended then e else abort e), q2)
      end
  end.

(** The rest of `runOnce`, after the handler returned a reference or threw. *)
Definition settle (d : Draws) (e : Execution) (outcome : result (option string)) : jop unit := fun q =>
  let failed err q1 := ignoring tt (fail (e_lease e) err (d_random d) (d_clock2 d) q1) in
  match outcome with
  | inl err => failed err q
  | inr ref =>
      if e_aborted e then (inr tt, q)
      else match complete (e_lease e) (truthy ref) (d_clock d) q with
           | (inl err, q1) => failed err q1
           | (inr _, q1) => (inr tt, q1)
           end
  end.

(** *** The worker *)

(** A promise in `active`: a handler, or the wait after an empty poll. *)
Inductive Slot : Type := S_waiting | S_running (e : Execution).

Record JobWorker : Type := { options : WorkerOptions; stopRequested : bool; active : list Slot }.

Definition set_active (l : list Slot) (w : JobWorker) : JobWorker :=
  {| options := options w; stopRequested := stopRequested w; active := l |}.

(** The test of `run`'s loop. *)
Definition may_start (w : JobWorker) : bool :=
  negb (stopRequested w) && (Z.of_nat (length (active w)) <? default 1 (concurrency (options w))).

(** What a turn of `run` adds to `active`; a turn that ends at once adds nothing
    that outlives it. *)
Definition occupy (s : Started) (w : JobWorker) : JobWorker :=
  match s with
  | R_idle => set_active (active w ++ [S_waiting]) w
  | R_refused => w
  | R_running e => set_active (active w ++ [S_running e]) w
  end.

(** `stop`, up to the wait for what is active. *)
Definition stop (w : JobWorker) (q : JobQueue) : JobWorker * (result unit * JobQueue) :=
  ({| options := options w; stopRequested := true; active := active w |}, beginDrain q).

(** *** The scheduler *)

(** A row of `schedules`. *)
Record ScheduleRow : Type := {
  s_id : string; s_type : string; s_payload : value; s_schedule : Schedule; s_next_fire : Z; s_enabled : bool
}.

Record DurableScheduler : Type := { schedules : list ScheduleRow; queue : JobQueue }.

(** `upsert`; REPLACE deletes the row of the id and inserts a new one. *)
Definition upsert (id type : string) (payload : value) (schedule : Schedule) (now : Z) (w : DurableScheduler) :
    result unit * DurableScheduler :=
  match nextScheduleTime schedule now with
  | inl e => (inl e, w)
  | inr next =>
      (inr tt,
       {| schedules := delete_where (fun r => streq (s_id r) id) (schedules w) ++
            [{| s_id := id; s_type := type; s_payload := payload; s_schedule := schedule; s_next_fire := next;
                s_enabled := true |}];
          queue := queue w |})
  end.

(** `schedule:${r.id}:${r.next_fire}` *)
Definition fire_key (id : string) (next_fire : Z) : string :=
  String.append "schedule:" (String.append id (String.append ":" (pretty next_fire))).

Definition due (now : Z) (r : ScheduleRow) : bool := s_enabled r && (s_next_fire r <=? now).

(** What the UPDATE after a fire does to a row. *)
Definition advance (r : ScheduleRow) : result (ScheduleRow -> ScheduleRow) :=
  match s_schedule r with
  | S_at _ => inr (fun x => {| s_id := s_id x; s_type := s_type x; s_payload := s_payload x;
                              s_schedule := s_schedule x; s_next_fire := s_next_fire x; s_enabled := false |})
  | schedule =>
      rbind (nextScheduleTime schedule (s_next_fire r)) (fun next =>
      inr (fun x => {| s_id := s_id x; s_type := s_type x; s_payload := s_payload x; s_schedule := s_schedule x;
                       s_next_fire := next; s_enabled := s_enabled x |}))
  end.

(** What a tick asks of its database and of the queue, one statement at a time. *)
Inductive teff : Type -> Type :=
  | SelectDue (now : Z) : teff (list ScheduleRow)
  | Fire (r : ScheduleRow) : teff (result JobRow)
  | Update (id : string) (f : ScheduleRow -> ScheduleRow) : teff unit.

Definition fire_options (r : ScheduleRow) : EnqueueOptions :=
  {| o_id := None; o_idempotencyKey := Some (fire_key (s_id r) (s_next_fire r)); o_scheduledAt := None;
     o_maxAttempts := None; o_backoffMs := None; o_jitter := None |}.

(** The body of the loop: the job is queued before the row is written. *)
Definition tick_row (r : ScheduleRow) : prog teff string unit :=
  (let* x := trigger (Fire r) in
   let* _job := raise x in
   let* f := raise (advance r) in
   trigger (Update (s_id r) f))%prog.

Fixpoint tick_rows (rows : list ScheduleRow) : prog teff string unit :=
  match rows with
  | [] => Ret tt
  | r :: rows' => (tick_row r ;; tick_rows rows')%prog
  end.

Definition tick (now : Z) : prog teff string Z :=
  (let* rows := trigger (SelectDue now) in
   tick_rows rows ;;
   Ret (Z.of_nat (length rows)))%prog.

Section Statements.
(** The queue's schemas, and the uuid and clock reading of the queue at a fire. *)
Context (safeParse : string -> value -> result value) (uuid : ScheduleRow -> string) (clock : ScheduleRow -> Z).

Definition fire (r : ScheduleRow) : jop JobRow :=
  enqueue safeParse (s_type r) (s_payload r) (fire_options r) (uuid r) (clock r).

(** One statement, committed when it answers. *)
Definition statement (R : Type) (e : teff R) (w : DurableScheduler) : R * DurableScheduler :=
  match e in teff R return R * DurableScheduler with
  | SelectDue now => (select (due now) (schedules w), w)
  | Fire r => let '(x, q) := fire r (queue w) in (x, {| schedules := schedules w; queue := q |})
  | Update id f => (tt, {| schedules := update_where (fun x => streq (s_id x) id) f (schedules w); queue := queue w |})
  end.
End Statements.
