(* ===== verification/WorkerSafety.v ===== *)
(** What workers and the scheduler guarantee together with the queue
    (`src/workers/jobs.ts`, `src/autonomy/jobs/index.ts`).

    Any number of workers share a queue with other processes, and a process may
    die at any moment.  A handler still starts at most once per attempt and at most
    as often as the job has attempts, and what a handler that lost its lease
    returns is ignored.  A fire of a schedule becomes one job and none is lost,
    wherever a tick stops. *)
From stdpp Require Import pretty.
From S2P Require Import Prelude Prog Table Canonical Schedule ScheduleDue Jobs JobSafety JobLeases Workers.
From Stdlib Require Import QArith Ascii.
#[local] Open Scope string_scope.
#[local] Open Scope list_scope.
#[local] Open Scope Z_scope.

(** *** Calls of a worker are calls of the queue *)

Lemma ignoring_queue {A B} (b : B) (r : result A * JobQueue) : (ignoring b r).2 = r.2.
Proof. by destruct r as [[e|a] q]. Qed.

Lemma ignoring_inr {A B} (b : B) (r : result A * JobQueue) x : (ignoring b r).1 = inr x -> x = b.
Proof. destruct r as [[e|a] q]; [done|]. by intros [= <-]. Qed.

(** A step of the queue: consistent tables stay consistent and evolve. *)
Definition queue_step (q q' : JobQueue) : Prop := store_ok (db q) -> store_ok (db q') /\ evolves (db q) (db q').

Lemma queue_step_refl q : queue_step q q.
Proof. intros Hok. by auto using evolves_refl. Qed.

Lemma queue_step_trans q1 q2 q3 : queue_step q1 q2 -> queue_step q2 q3 -> queue_step q1 q3.
Proof.
  intros H1 H2 Hok. destruct (H1 Hok) as [Hok2 Hev2]. destruct (H2 Hok2) as [Hok3 Hev3]. eauto using evolves_trans.
Qed.

Lemma perform_step sp c q : queue_step q (perform sp c q).
Proof. intros Hok. by apply perform_ok. Qed.

(** The same, seen from another queue object on the database. *)
Lemma other_step sp c q other : queue_step q (set_db (db (perform sp c (set_db (db q) other))) q).
Proof. intros Hok. exact (perform_ok sp c (set_db (db q) other) Hok). Qed.

Lemma fail_step l err random clock q : queue_step q (fail l err random clock q).2.
Proof. exact (perform_step (fun _ => inr) (C_fail l err random clock) q). Qed.

Create HintDb queue.
#[export] Hint Resolve queue_step_refl perform_step other_step fail_step : queue.

Lemma beat_step o clock e q : queue_step q (beat o clock e q).2.
Proof.
  unfold beat, isCancellationRequested. destruct (rbind _ _) as [err|[|]]; [apply queue_step_refl..|].
  pose proof (perform_step (fun _ => inr) (C_heartbeat (e_lease e) (leaseMs o) clock) q) as H. simpl in H.
  by destruct (heartbeat _ _ _ _) as [[err|b] q2].
Qed.

Lemma settle_step d e outcome q : queue_step q (settle d e outcome q).2.
Proof.
  unfold settle. destruct outcome as [err|ref]; [rewrite ignoring_queue; apply fail_step|].
  destruct (e_aborted e); [apply queue_step_refl|].
  pose proof (perform_step (fun _ => inr) (C_complete (e_lease e) (truthy ref) (d_clock d)) q) as H. simpl in H.
  destruct (complete _ _ _ _) as [[err|b] q1]; [|done]. rewrite ignoring_queue.
  eapply queue_step_trans; [exact H|apply fail_step].
Qed.

(** A turn: the queue steps, and a handler that starts has a lease whose token is
    above every earlier token of the job. *)
Lemma start_step r o d q : queue_step q (start r o d q).2.
Proof.
  unfold start. pose proof (perform_step (fun _ => inr) (C_claim (workerId o) (leaseMs o) (d_clock d)) q) as H. simpl in H.
  destruct (claim _ _ _ _) as [[err|[l|]] q1]; simpl in *; [done| |done].
  assert (forall err, queue_step q (fail l err (d_random d) (d_clock2 d) q1).2) as Hf
    by (intros err; eapply queue_step_trans; [exact H|apply fail_step]).
  destruct (get_handler _ _) as [schema|]; [destruct (schema _); [exact H|]|]; rewrite ignoring_queue; apply Hf.
Qed.

Lemma start_running r o d q e q1 :
  store_ok (db q) -> start r o d q = (inr (R_running e), q1) ->
  (exists x, x ∈ jobs (db q1) /\ lease_of (e_lease e) x) /\
  forall x, x ∈ jobs (db q) -> j_id x = j_id (l_job (e_lease e)) -> j_fencing_token x < l_fencingToken (e_lease e).
Proof.
  intros Hok. unfold start. destruct (claim _ _ _ _) as [[err|[l|]] q'] eqn:E; [done| |done].
  destruct (claim_lease _ _ _ _ _ _ Hok E) as (_ & _ & Hl & Hless).
  assert (forall err r, ignoring R_refused (fail l err (d_random d) (d_clock2 d) q') <> (inr (R_running r), q1)) as Hno.
  { intros err e' Heq. pose proof (ignoring_inr R_refused _ (R_running e') (f_equal fst Heq)). done. }
  destruct (get_handler _ _) as [schema|]; [|by intros ?%Hno]. destruct (schema _); [|by intros ?%Hno].
  by intros [= <- <-].
Qed.

(** *** The system *)

Record System : Type := { s_queue : JobQueue; s_workers : list JobWorker }.

(** The attempts whose handler a turn starts. *)
Definition starts (s : Started) : list (string * Z) :=
  match s with R_running e => [(j_id (l_job (e_lease e)), l_fencingToken (e_lease e))] | _ => [] end.

Definition set_slots (s : System) (q : JobQueue) (i : nat) (w : JobWorker) (l : list Slot) : System :=
  {| s_queue := q; s_workers := <[i := set_active l w]> (s_workers s) |}.

Section System.
Context (safeParse : string -> value -> result value) (registry : JobHandlerRegistry).

(** One step, with the handlers it starts.  An error of a timer or of the end of a
    handler leaves the worker's slots to the process that dies of it. *)
Inductive step (s : System) : list (string * Z) -> System -> Prop :=
  | Turn i w d st q : s_workers s !! i = Some w -> may_start w = true ->
      start registry (options w) d (s_queue s) = (inr st, q) ->
      step s (starts st) {| s_queue := q; s_workers := <[i := occupy st w]> (s_workers s) |}
  | Turn_throws i w d e q : s_workers s !! i = Some w -> may_start w = true ->
      start registry (options w) d (s_queue s) = (inl e, q) ->
      step s [] {| s_queue := q; s_workers := s_workers s |}
  | Waited i w j : s_workers s !! i = Some w -> active w !! j = Some S_waiting ->
      step s [] (set_slots s (s_queue s) i w (delete j (active w)))
  | Beat i w j e clock : s_workers s !! i = Some w -> active w !! j = Some (S_running e) ->
      step s [] (set_slots s (beat (options w) clock e (s_queue s)).2 i w
        (match (beat (options w) clock e (s_queue s)).1 with
         | inr e' => <[j := S_running e']> (active w) | inl _ => active w end))
  | Settle i w j e d outcome : s_workers s !! i = Some w -> active w !! j = Some (S_running e) ->
      step s [] (set_slots s (settle d e outcome (s_queue s)).2 i w (delete j (active w)))
  | Stop i w : s_workers s !! i = Some w ->
      step s [] {| s_queue := (stop w (s_queue s)).2.2; s_workers := <[i := (stop w (s_queue s)).1]> (s_workers s) |}
  | Call c : step s [] {| s_queue := perform safeParse c (s_queue s); s_workers := s_workers s |}
  | Other c other : step s []
      {| s_queue := set_db (db (perform safeParse c (set_db (db (s_queue s)) other))) (s_queue s);
         s_workers := s_workers s |}
  | Crash ws q : (forall w, w ∈ ws -> active w = []) -> db q = db (s_queue s) ->
      step s [] {| s_queue := q; s_workers := ws |}.

Inductive runs : list (string * Z) -> System -> Prop :=
  | runs_new ws : (forall w, w ∈ ws -> active w = []) -> runs [] {| s_queue := new_queue; s_workers := ws |}
  | runs_step log s new s' : runs log s -> step s new s' -> runs (log ++ new) s'.

(** A worker's slots are within its concurrency. *)
Definition within (w : JobWorker) : Prop :=
  Z.of_nat (length (active w)) <= Z.max 0 (default 1 (concurrency (options w))).

Record system_ok (log : list (string * Z)) (s : System) : Prop := {
  sy_store : store_ok (db (s_queue s));
  sy_once : NoDup log;
  sy_tokens : forall id t, (id, t) ∈ log -> exists r, r ∈ jobs (db (s_queue s)) /\ j_id r = id /\ 1 <= t <= j_fencing_token r;
  sy_within : forall w, w ∈ s_workers s -> within w;
  sy_logged : forall w e, w ∈ s_workers s -> S_running e ∈ active w ->
    (j_id (l_job (e_lease e)), l_fencingToken (e_lease e)) ∈ log
}.

Lemma tokens_evolve (log : list (string * Z)) s s' id t :
  (forall (id : string) (t : Z), (id, t) ∈ log -> exists r, r ∈ jobs s /\ j_id r = id /\ 1 <= t <= j_fencing_token r) -> evolves s s' ->
  (id, t) ∈ log -> exists r, r ∈ jobs s' /\ j_id r = id /\ 1 <= t <= j_fencing_token r.
Proof.
  intros H [Hev _] Hin. destruct (H _ _ Hin) as (r & Hr & Hid & Ht). destruct (Hev r Hr) as (r' & Hr' & Hid' & _ & _ & _ & _ & Htok & _).
  exists r'. split_and!; [done|congruence|lia|lia].
Qed.

(** A step that starts no handler. *)
Lemma quiet_ok log s s' :
  system_ok log s -> queue_step (s_queue s) (s_queue s') -> (forall w, w ∈ s_workers s' -> within w) ->
  (forall w e, w ∈ s_workers s' -> S_running e ∈ active w ->
     exists w0 e0, w0 ∈ s_workers s /\ S_running e0 ∈ active w0 /\ e_lease e0 = e_lease e) ->
  system_ok log s'.
Proof.
  intros [Hok Hnd Htok Hw Hlog] Hq Hw' Hrun. destruct (Hq Hok) as [Hok' Hev]. split; [done|done| |done|].
  - intros id t. by apply (tokens_evolve log (db (s_queue s))).
  - intros w e Hin He. destruct (Hrun w e Hin He) as (w0 & e0 & H0 & He0 & <-). by apply Hlog with w0.
Qed.

Lemma slots_ok log s q i w l :
  system_ok log s -> s_workers s !! i = Some w -> queue_step (s_queue s) q -> (length l <= length (active w))%nat ->
  (forall e, S_running e ∈ l -> exists e0, S_running e0 ∈ active w /\ e_lease e0 = e_lease e) ->
  system_ok log (set_slots s q i w l).
Proof.
  intros Hs Hi Hq Hlen Hl. pose proof (list_elem_of_lookup_2 _ _ _ Hi) as Hw.
  apply (quiet_ok log s); [done|done|..]; simpl.
  - intros x [k Hk]%list_elem_of_lookup. apply insert_lookup_cases in Hk as [[_ ->]|[_ Hk]].
    + pose proof (sy_within _ _ Hs w Hw). unfold within in *. simpl. lia.
    + apply (sy_within _ _ Hs), list_elem_of_lookup. by exists k.
  - intros x e [k Hk]%list_elem_of_lookup He. apply insert_lookup_cases in Hk as [[_ ->]|[_ Hk]].
    + destruct (Hl e He) as (e0 & He0 & Heq). by exists w, e0.
    + exists x, e. split_and!; [|done|done]. apply list_elem_of_lookup. by exists k.
Qed.

Lemma delete_slots_ok log s q i w j :
  system_ok log s -> s_workers s !! i = Some w -> queue_step (s_queue s) q ->
  system_ok log (set_slots s q i w (delete j (active w))).
Proof.
  intros Hs Hi Hq. apply slots_ok; [done..| |].
  - rewrite delete_take_drop, length_app, length_take, length_drop. lia.
  - intros e He. exists e. split; [|done]. rewrite <- (take_drop j (active w)), elem_of_app. rewrite delete_take_drop in He.
    apply elem_of_app in He as [He|[k Hk]%list_elem_of_lookup]; [by left|right].
    rewrite lookup_drop in Hk. apply list_elem_of_lookup. exists (S k). by rewrite lookup_drop, Nat.add_succ_r.
Qed.

(** A turn that starts a handler. *)
Lemma turn_ok log s i w d st q :
  system_ok log s -> s_workers s !! i = Some w -> may_start w = true -> start registry (options w) d (s_queue s) = (inr st, q) ->
  system_ok (log ++ starts st) {| s_queue := q; s_workers := <[i := occupy st w]> (s_workers s) |}.
Proof.
  intros Hs Hi Hmay E. pose proof (list_elem_of_lookup_2 _ _ _ Hi) as Hw.
  pose proof (start_step registry (options w) d (s_queue s)) as Hstep. rewrite E in Hstep. destruct (Hstep (sy_store _ _ Hs)) as [Hok Hev].
  assert (forall l, Z.of_nat (length l) <= Z.of_nat (length (active w)) + 1 -> within (set_active l w)) as Hroom.
  { intros l Hl. unfold may_start in Hmay. bool_hyps. unfold within. simpl. lia. }
  assert (within (occupy st w)) as Hocc.
  { destruct st; simpl; [apply Hroom; rewrite length_app; simpl; lia|apply (sy_within _ _ Hs), Hw|apply Hroom; rewrite length_app; simpl; lia]. }
  assert (forall e, S_running e ∈ active (occupy st w) -> S_running e ∈ active w \/ st = R_running e) as Hslot.
  { intros e He. destruct st; simpl in He; try apply elem_of_app in He as [He|He%list_elem_of_singleton]; auto; simplify_eq; auto. }
  destruct Hs as [Hok0 Hnd Htok Hwi Hlog]. split; [done| | | |]; simpl.
  - apply NoDup_app. split; [done|]. destruct st as [| |e]; simpl; [split; [|constructor]; intros ? _ []%elem_of_nil..|].
    split; [|apply NoDup_singleton]. intros [id t] Hin [= -> ->]%list_elem_of_singleton.
    destruct (Htok _ _ Hin) as (x & Hx & Hid & Ht). destruct (start_running _ _ _ _ _ _ Hok0 E) as [_ Hless].
    specialize (Hless x Hx Hid). lia.
  - intros id t [Hin|Hin]%elem_of_app; [by apply (tokens_evolve log (db (s_queue s)))|].
    destruct st as [| |e]; simpl in Hin; [by apply elem_of_nil in Hin..|]. apply list_elem_of_singleton in Hin as [= -> ->].
    destruct (start_running _ _ _ _ _ _ Hok0 E) as [(x & Hx & Hid & Ht & _ & _ & Hrun) _]. exists x.
    pose proof (so_rows _ Hok x Hx) as Hrow. pose proof (ro_started _ _ Hrow Hrun). pose proof (ro_token _ _ Hrow).
    split_and!; [done|done|lia|lia].
  - intros x [k Hk]%list_elem_of_lookup. apply insert_lookup_cases in Hk as [[_ ->]|[_ Hk]]; [done|].
    apply Hwi, list_elem_of_lookup. by exists k.
  - intros x e [k Hk]%list_elem_of_lookup He. apply elem_of_app. apply insert_lookup_cases in Hk as [[_ ->]|[_ Hk]].
    + apply Hslot in He as [He| ->]; [left; by apply (Hlog w)|right; apply list_elem_of_here].
    + left. apply (Hlog x); [|done]. apply list_elem_of_lookup. by exists k.
Qed.

Lemma system_step_ok log s new s' : system_ok log s -> step s new s' -> system_ok (log ++ new) s'.
Proof.
  intros Hs Hstep. destruct Hstep; [by eapply turn_ok|rewrite app_nil_r..].
  - pose proof (start_step registry (options w) d (s_queue s)) as Hq. rewrite H1 in Hq.
    apply (quiet_ok log s); eauto using sy_within.
  - apply delete_slots_ok; [done|done|apply queue_step_refl].
  - assert (forall e', (beat (options w) clock e (s_queue s)).1 = inr e' -> e_lease e' = e_lease e) as Hlease.
    { intros e' He'. unfold beat in He'.
      destruct (isCancellationRequested _ _) as [[err|[|]] q1]; simpl in He'; [done|by simplify_eq|].
      destruct (heartbeat _ _ _ _) as [[err|b] q2]; simpl in He'; [done|]. destruct b; by simplify_eq. }
    revert Hlease. destruct (beat (options w) clock e (s_queue s)) as [[err|e'] q'] eqn:E; simpl; intros Hlease;
      (apply slots_ok; [done|done|by eapply eq_ind; [apply beat_step|rewrite E]|..]); [lia|by eauto|..].
    + by rewrite length_insert.
    + intros x [k Hk]%list_elem_of_lookup. apply insert_lookup_cases in Hk as [[_ Hx]|[_ Hk]].
      * injection Hx as ->. exists e. split; [apply list_elem_of_lookup; by exists j|]. symmetry. by apply Hlease.
      * exists x. split; [apply list_elem_of_lookup; by exists k|done].
  - apply delete_slots_ok; [done|done|apply settle_step].
  - apply (quiet_ok log s); [done|exact (perform_step (fun _ => inr) C_drain (s_queue s))|..]; simpl.
    + intros x [k Hk]%list_elem_of_lookup. apply insert_lookup_cases in Hk as [[_ ->]|[_ Hk]].
      * exact (sy_within _ _ Hs w (list_elem_of_lookup_2 _ _ _ H)).
      * exact (sy_within _ _ Hs x (list_elem_of_lookup_2 _ _ _ Hk)).
    + intros x e [k Hk]%list_elem_of_lookup He. apply insert_lookup_cases in Hk as [[_ ->]|[_ Hk]].
      * exists w, e. split_and!; [apply list_elem_of_lookup; by exists i|done|done].
      * exists x, e. split_and!; [apply list_elem_of_lookup; by exists k|done|done].
  - apply (quiet_ok log s); [done|apply perform_step|eauto using sy_within..].
  - apply (quiet_ok log s); [done|apply other_step|eauto using sy_within..].
  - apply (quiet_ok log s); [done|..]; simpl.
    + intros Hok. rewrite H0. by auto using evolves_refl.
    + intros w Hw. unfold within. rewrite H by done. simpl. lia.
    + intros w e Hw He. rewrite H in He by done. by apply elem_of_nil in He.
Qed.

Lemma runs_ok log s : runs log s -> system_ok log s.
Proof.
  induction 1 as [ws Hws|log s new s' _ IH Hstep]; [|by apply system_step_ok with s].
  split; simpl; [apply new_queue_ok|constructor|..].
  - intros id t []%elem_of_nil.
  - intros w Hw. unfold within. rewrite Hws by done. simpl. lia.
  - intros w e Hw He. rewrite Hws in He by done. by apply elem_of_nil in He.
Qed.
End System.

(** *** What a lost lease leaves to do *)

Section LostLease.
Context (e : Execution) (q : JobQueue) (Hok : store_ok (db q)) (Hout : outdated (e_lease e) (db q)).

Lemma lost_fail err random clock : (ignoring tt (fail (e_lease e) err random clock q)).2 = q.
Proof. rewrite ignoring_queue. by apply outdated_fail. Qed.

Lemma lost_settle d outcome : (settle d e outcome q).2 = q.
Proof.
  unfold settle. destruct outcome as [err|ref]; [apply lost_fail|]. destruct (e_aborted e); [done|].
  destruct (outdated_complete (e_lease e) q Hok Hout (truthy ref) (d_clock d)) as [Hq _].
  destruct (complete _ _ _ _) as [[err|b] q1]; simpl in Hq; subst q1; [apply lost_fail|done].
Qed.

Lemma lost_beat o clock :
  (beat o clock e q).2 = q /\ forall e', (beat o clock e q).1 = inr e' -> e_aborted e' = true.
Proof.
  pose proof (outdated_cancellation (e_lease e) q Hok Hout) as Hc. unfold beat, isCancellationRequested in *. simpl in Hc.
  destruct (rbind _ _) as [err|[|]]; [done|done|].
  destruct (outdated_heartbeat (e_lease e) q Hok Hout (leaseMs o) clock) as [Hq Hh].
  destruct (heartbeat _ _ _ _) as [[err|b] q1]; simpl in *; subst q1; [done|]. destruct b; [done|].
  split; [done|]. by intros e' [= <-].
Qed.
End LostLease.

(** A list of distinct pairs with numbers between 1 and [n] for one name. *)
Lemma numbered_length (log : list (string * Z)) id n :
  NoDup log -> (forall t, (id, t) ∈ log -> 1 <= t <= n) ->
  Z.of_nat (length (List.filter (fun p => streq p.1 id) log)) <= Z.max 0 n.
Proof.
  intros Hnd Hb.
  assert (forall p, p ∈ List.filter (fun p => streq p.1 id) log -> p ∈ log /\ p.1 = id) as Hin.
  { intros p [Hp Hid]%filter_elem. by bool_hyps. }
  transitivity (Z.of_nat (length (map (fun k => (id, Z.of_nat k)) (seq 1 (Z.to_nat n))))).
  - apply inj_le, submseteq_length, NoDup_submseteq.
    + apply NoDup_ListNoDup, List.NoDup_filter, NoDup_ListNoDup, Hnd.
    + intros [id' t] Hp. destruct (Hin _ Hp) as [Hl Hid]. simpl in Hid. subst id'. apply list_elem_of_fmap.
      specialize (Hb t Hl). exists (Z.to_nat t). rewrite Z2Nat.id by lia. split; [done|]. apply elem_of_seq. lia.
  - rewrite length_map, length_seq. lia.
Qed.

(** Whatever workers, other processes and crashes do to a queue, the handler of
    a job starts at most once under one lease and at most as often as the job may be
    attempted, and no worker has more at work than its concurrency.  When a job
    was started again while an earlier handler of it is still running, that handler
    is powerless: whatever it returns or throws changes nothing in the queue, and its
    next timer aborts its signal. *)
Theorem handlers_start_once safeParse registry log s :
  runs safeParse registry log s ->
  NoDup log /\
  (forall r, r ∈ jobs (db (s_queue s)) ->
     Z.of_nat (length (List.filter (fun p => streq p.1 (j_id r)) log)) <= j_max_attempts r) /\
  (forall w, w ∈ s_workers s -> within w) /\
  (forall w e t, w ∈ s_workers s -> S_running e ∈ active w -> (j_id (l_job (e_lease e)), t) ∈ log ->
     l_fencingToken (e_lease e) < t ->
     (forall d outcome, (settle d e outcome (s_queue s)).2 = s_queue s) /\
     (forall clock, (beat (options w) clock e (s_queue s)).2 = s_queue s /\
        forall e', (beat (options w) clock e (s_queue s)).1 = inr e' -> e_aborted e' = true)).
Proof.
  intros [Hok Hnd Htok Hw _]%runs_ok. split_and!; [done| |done|].
  - intros r Hr. pose proof (so_rows _ Hok r Hr) as Hrow. pose proof (ro_count _ _ Hrow). pose proof (ro_token _ _ Hrow).
    etransitivity; [apply (numbered_length log (j_id r) (j_max_attempts r) Hnd)|lia].
    intros t Hin. destruct (Htok _ _ Hin) as (x & Hx & Hid & Ht). assert (x = r) as -> by (by apply (job_unique _ Hok)). lia.
  - intros w e t Hwin He Hin Hlt. assert (outdated (e_lease e) (db (s_queue s))) as Hout.
    { destruct (Htok _ _ Hin) as (x & Hx & Hid & Ht). exists x. split_and!; [done|done|lia]. }
    split; [intros; by apply lost_settle|intros; by apply lost_beat].
Qed.

(** *** Fires *)

Lemma all_chars_app p s c t : all_chars p (String.append s (String c t)) = true -> p c = true.
Proof. induction s as [|d s IH]; simpl; [by intros [? _]%andb_true_iff|]. intros [_ ?]%andb_true_iff. auto. Qed.

Lemma fire_key_inj id n id' n' : fire_key id n = fire_key id' n' -> id = id' /\ n = n'.
Proof.
  unfold fire_key. intros H%(inj (String.append "schedule:")).
  assert (forall s t : string, all_chars numeral s = true -> all_chars numeral t = true ->
    String.append id (String ":"%char s) = String.append id' (String ":"%char t) -> id = id' /\ s = t) as Hsplit.
  { clear. revert id'. induction id as [|c id IH]; intros [|d id'] s t Hs Ht; simpl; intros Heq.
    - by injection Heq as ->.
    - injection Heq as <- ->. by apply all_chars_app in Hs.
    - injection Heq as -> <-. by apply all_chars_app in Ht.
    - injection Heq as <- Heq. by destruct (IH id' s t Hs Ht Heq) as [-> ->]. }
  destruct (Hsplit _ _ (pretty_Z_numeral n) (pretty_Z_numeral n') H) as [-> Hn]. split; [done|].
  by apply (inj pretty) in Hn.
Qed.

(** The next time of a schedule is later. *)
Lemma nextScheduleTime_later s after t : nextScheduleTime s after = inr t -> after < t.
Proof.
  destruct s as [u|ms|text].
  - unfold nextScheduleTime. intros H. open_result H. injection H as <-. bool_hyps. lia.
  - unfold nextScheduleTime. intros H. open_result H. injection H as <-. bool_hyps. lia.
  - intros (_ & [_ H] & _)%cron_next. done.
Qed.

(** The states that a run passes through, in order: before its first statement, after each
    one, the last where it ends or throws. *)
Fixpoint passes {E X A W} (h : forall R, E R -> W -> R * W) (p : prog E X A) (w : W) : list W :=
  match p with
  | Ret _ | Throw _ => [w]
  | Vis e k => let '(r, w') := h _ e w in w :: passes h (k r) w'
  end.

Lemma run_passed {E X A W} (h : forall R, E R -> W -> R * W) (p : prog E X A) w : (run h p w).2 ∈ passes h p w.
Proof.
  revert w. induction p as [a|x|R e k IH]; intros w; cbn; [apply list_elem_of_here..|]. destruct (h R e w) as [r w'].
  right. apply IH.
Qed.

Lemma passes_ret {E X A B W} (h : forall R, E R -> W -> R * W) (p : prog E X A) (b : B) w :
  passes h (bind p (fun _ => Ret b)) w = passes h p w.
Proof.
  revert w. induction p as [a|x|R e k IH]; intros w; cbn; [done..|]. destruct (h R e w) as [r w']. by rewrite IH.
Qed.

Section Tick.
Context (sp : string -> value -> result value) (uuid : ScheduleRow -> string) (clock : ScheduleRow -> Z).

#[local] Abbreviation stmt := (statement sp uuid clock).

(** The states between the statements of a tick, row by row. *)
Inductive tick_state : list ScheduleRow -> DurableScheduler -> DurableScheduler -> Prop :=
  | T_here rows w : tick_state rows w w
  | T_fired r rows w : tick_state (r :: rows) w
      {| schedules := schedules w; queue := (fire sp uuid clock r (queue w)).2 |}
  | T_next r rows w w1 w' : run stmt (tick_row r) w = (inr tt, w1) -> tick_state rows w1 w' ->
      tick_state (r :: rows) w w'.

(** The job of a fire. *)
Definition job_for (q : JobQueue) (r : ScheduleRow) : Prop :=
  exists x data, x ∈ jobs (db q) /\ j_idempotency_key x = Some (fire_key (s_id r) (s_next_fire r)) /\
    j_type x = s_type r /\ sp (s_type r) (s_payload r) = inr data /\ canonical_payload data = inr (j_payload x).

(** A row after its fire: it waits for the next time, or is done. *)
Definition advanced (r r' : ScheduleRow) : Prop :=
  s_id r' = s_id r /\ s_type r' = s_type r /\ s_payload r' = s_payload r /\ s_schedule r' = s_schedule r /\
  match s_schedule r with
  | S_at _ => s_enabled r' = false /\ s_next_fire r' = s_next_fire r
  | _ => s_enabled r' = s_enabled r /\ nextScheduleTime (s_schedule r) (s_next_fire r) = inr (s_next_fire r') /\
         s_next_fire r < s_next_fire r'
  end.

Lemma advance_advanced r f : advance r = inr f -> advanced r (f r).
Proof.
  unfold advance, advanced. destruct (s_schedule r) as [t|ms|text] eqn:E.
  - by intros [= <-].
  - intros (next & Hn & [= <-])%rbind_inr. simpl. split_and!; eauto using nextScheduleTime_later.
  - intros (next & Hn & [= <-])%rbind_inr. cbn [s_id s_type s_payload s_schedule s_enabled s_next_fire].
    split_and!; eauto using nextScheduleTime_later.
Qed.

Lemma job_for_evolves q q' r : job_for q r -> evolves (db q) (db q') -> job_for q' r.
Proof.
  intros (x & data & Hx & Hk & Ht & Hp & Hc) [Hev _]. destruct (Hev x Hx) as (x' & Hx' & _ & Ht' & Hp' & Hk' & _).
  exists x', data. split_and!; congruence.
Qed.

(** A fire adds its job unless it is there. *)
Lemma fire_ok r q :
  store_ok (db q) -> let '(res, q') := fire sp uuid clock r q in
  store_ok (db q') /\ evolves (db q) (db q') /\
  (forall x, x ∈ jobs (db q') -> x ∈ jobs (db q) \/ j_idempotency_key x = Some (fire_key (s_id r) (s_next_fire r))) /\
  match res with inl _ => q' = q | inr _ => job_for q' r end.
Proof.
  intros Hok. pose proof (perform_ok sp (C_enqueue (s_type r) (s_payload r) (fire_options r) (uuid r) (clock r)) q Hok) as [Hok' Hev].
  unfold fire. simpl in *. destruct (enqueue _ _ _ _ _ _ q) as [[err|x] q'] eqn:E; simpl in *.
  - pose proof (method_error_same _ _ _ _ _ E) as ->. split_and!; auto.
  - apply method_inr in E as (row & Hrow & Hb & Hq). pose proof (enqueue_checks_fresh _ _ _ _ _ _ _ _ Hrow) as Hfresh.
    pose proof (enqueue_body_ok row (db q) Hok Hfresh) as H. rewrite Hb in H.
    destruct H as (_ & _ & Hx & Ht & Hp & Hk & Hnew). unfold enqueue_checks in Hrow. open_result Hrow.
    match goal with H : match sp _ _ with _ => _ end = inr _ |- _ => destruct (sp (s_type r) (s_payload r)) as [|d] eqn:Esp; [done|]; injection H as -> end.
    injection Hrow as <-. simpl in *. split_and!; [done|done| |].
    + intros y Hy. destruct Hnew as [Hs|[Hj _]]; [left; by rewrite Hs in Hy|]. rewrite Hj in Hy.
      apply elem_of_app in Hy as [Hy|Hy%list_elem_of_singleton]; [by left|right]. by rewrite Hy.
    + eexists x, _. split_and!; [done|done|done|done|]. by rewrite Hp.
Qed.

(** What a tick makes of the table: a row is as it was, or its job is queued and it
    moved on. *)
Definition settled (rows : list ScheduleRow) (w w' : DurableScheduler) : Prop :=
  forall r, r ∈ schedules w -> exists r', r' ∈ schedules w' /\
    (r' = r \/ (r ∈ rows /\ job_for (queue w') r /\ advanced r r')).

Lemma tick_row_inr r w w1 :
  run stmt (tick_row r) w = (inr tt, w1) ->
  exists x f, fire sp uuid clock r (queue w) = (inr x, queue w1) /\ advance r = inr f /\
    schedules w1 = update_where (fun y => streq (s_id y) (s_id r)) f (schedules w).
Proof.
  unfold tick_row. cbn. destruct (fire _ _ _ r (queue w)) as [[err|x] q]; cbn; [done|].
  destruct (advance r) as [err|f]; cbn; [done|]. intros [= <-]. by exists x, f.
Qed.

Lemma tick_row_row r w w1 y :
  run stmt (tick_row r) w = (inr tt, w1) -> keyed s_id (schedules w) -> r ∈ schedules w -> y ∈ schedules w ->
  (s_id y <> s_id r /\ y ∈ schedules w1) \/ (y = r /\ exists y', y' ∈ schedules w1 /\ advanced r y').
Proof.
  intros (x & f & _ & Hf & ->)%tick_row_inr Hkey Hr Hy. destruct (decide (s_id y = s_id r)) as [E|Hne].
  - right. assert (y = r) as -> by (by apply (keyed_same s_id (schedules w))). split; [done|]. exists (f r).
    split; [|by apply advance_advanced]. apply list_elem_of_fmap. exists r. split; [by rewrite streq_refl|done].
  - left. split; [done|]. apply list_elem_of_fmap. exists y. split; [by rewrite (proj2 (streq_false _ _) Hne)|done].
Qed.

Lemma tick_row_keyed r w w1 :
  run stmt (tick_row r) w = (inr tt, w1) -> keyed s_id (schedules w) -> keyed s_id (schedules w1).
Proof.
  intros (x & f & _ & Hf & ->)%tick_row_inr Hkey. apply update_keyed; [|done]. intros y.
  unfold advance in Hf. destruct (s_schedule r); [by injection Hf as <-|..]; apply rbind_inr in Hf as (? & _ & Hf); by injection Hf as <-.
Qed.

Lemma tick_state_ok rows w w' :
  tick_state rows w w' -> keyed s_id rows -> (forall r, r ∈ rows -> r ∈ schedules w) -> keyed s_id (schedules w) ->
  store_ok (db (queue w)) ->
  store_ok (db (queue w')) /\ evolves (db (queue w)) (db (queue w')) /\ keyed s_id (schedules w') /\
  (forall x, x ∈ jobs (db (queue w')) -> x ∈ jobs (db (queue w)) \/
     exists r, r ∈ rows /\ j_idempotency_key x = Some (fire_key (s_id r) (s_next_fire r))) /\
  settled rows w w'.
Proof.
  induction 1 as [rows w|r rows w|r rows w w1 w' Hrow Hst IH]; intros Hnd Hin Hkey Hok.
  - split_and!; auto using evolves_refl. intros r Hr. exists r. auto.
  - pose proof (fire_ok r (queue w) Hok) as H. destruct (fire _ _ _ _ _) as [res q']. destruct H as (Hok' & Hev & Hnew & _).
    split_and!; simpl; [done|done|done| |intros y Hy; exists y; auto].
    intros x Hx. destruct (Hnew x Hx) as [?|?]; [by left|right]. exists r. split; [left|done].
  - pose proof (tick_row_keyed _ _ _ Hrow Hkey) as Hkey1. pose proof (Hin r (list_elem_of_here _ _)) as Hr.
    pose proof (fun y => tick_row_row r w w1 y Hrow Hkey Hr) as Hrows.
    destruct (tick_row_inr _ _ _ Hrow) as (x & f & Hfire & _ & _).
    pose proof (fire_ok r (queue w) Hok) as H. rewrite Hfire in H. destruct H as (Hok1 & Hev1 & Hnew1 & Hjob).
    apply NoDup_cons in Hnd as [Hnotin Hnd].
    assert (forall y, y ∈ rows -> s_id y <> s_id r) as Hids
      by (intros y Hy E; apply Hnotin; rewrite <- E; by apply list_elem_of_fmap_2).
    destruct IH as (Hok' & Hev' & Hkey' & Hnew' & Hset); [done| |done|done|].
    { intros y Hy. destruct (Hrows y (Hin y (list_elem_of_further _ _ _ Hy))) as [[_ ?]|[-> _]]; [done|].
      by destruct (Hids r Hy). }
    split_and!; [done|by eapply evolves_trans|done|..].
    + intros y Hy. destruct (Hnew' y Hy) as [Hy1|(z & Hz & Hk)]; [|right; exists z; split; [by right|done]].
      destruct (Hnew1 y Hy1) as [?|Hk]; [by left|right]. exists r. split; [left|done].
    + intros y Hy. destruct (Hrows y Hy) as [[Hne Hy1]|[-> (y1 & Hy1 & Hadv)]].
      * destruct (Hset y Hy1) as (y' & Hy' & [-> |(? & ? & ?)]); [exists y; auto|].
        exists y'. split; [done|]. right. split_and!; [by right|done|done].
      * destruct (Hset y1 Hy1) as (y' & Hy' & [-> |(Hy1r & _ & _)]).
        -- exists y1. split; [done|]. right. split_and!; [left|by eapply job_for_evolves|done].
        -- destruct (Hids y1 Hy1r). apply Hadv.
Qed.

(** The states a tick passes through, by its own statements. *)
Lemma tick_rows_state rows w w' : w' ∈ passes stmt (tick_rows rows) w -> tick_state rows w w'.
Proof.
  revert w. induction rows as [|r rows IH]; intros w; cbn.
  { intros ->%list_elem_of_singleton. constructor. }
  destruct (fire sp uuid clock r (queue w)) as [x q] eqn:Ef.
  assert (tick_state (r :: rows) w {| schedules := schedules w; queue := q |}) as Hfired
    by (pose proof (T_fired r rows w) as H; by rewrite Ef in H).
  intros [->|Hin]%elem_of_cons; [constructor|].
  destruct x as [err|x]; cbn in Hin; [by apply list_elem_of_singleton in Hin as ->|].
  destruct (advance r) as [err|f] eqn:Ea; cbn in Hin; [by apply list_elem_of_singleton in Hin as ->|].
  apply elem_of_cons in Hin as [->|Hin]; [done|]. eapply T_next; [|by apply IH].
  unfold tick_row. cbn. by rewrite Ef, Ea.
Qed.

Lemma tick_state_of now w w' : w' ∈ passes stmt (tick now) w -> tick_state (select (due now) (schedules w)) w w'.
Proof.
  unfold tick. cbn [bind trigger passes statement]. rewrite passes_ret. intros [->|Hin]%elem_of_cons; [constructor|].
  by apply tick_rows_state.
Qed.

(** A tick that ends moved every row on. *)
Lemma tick_rows_done rows w w' :
  run stmt (tick_rows rows) w = (inr tt, w') -> keyed s_id rows -> (forall r, r ∈ rows -> r ∈ schedules w) ->
  keyed s_id (schedules w) -> store_ok (db (queue w)) ->
  forall r, r ∈ rows -> job_for (queue w') r /\ exists r', r' ∈ schedules w' /\ advanced r r'.
Proof.
  revert w. induction rows as [|r rows IH]; intros w H Hnd Hin Hkey Hok y Hy; [by apply elem_of_nil in Hy|].
  cbn [tick_rows] in H. rewrite run_bind in H. destruct (run stmt (tick_row r) w) as [[err|[]] w1] eqn:E; [done|].
  pose proof (Hin r (list_elem_of_here _ _)) as Hr. pose proof (fun y => tick_row_row r w w1 y E Hkey Hr) as Hrows.
  pose proof (tick_row_keyed _ _ _ E Hkey) as Hkey1. destruct (tick_row_inr _ _ _ E) as (x & f & Hfire & _ & _).
  pose proof (fire_ok r (queue w) Hok) as Hf. rewrite Hfire in Hf. destruct Hf as (Hok1 & Hev1 & _ & Hjob).
  apply NoDup_cons in Hnd as [Hnotin Hnd].
  assert (forall z, z ∈ rows -> s_id z <> s_id r) as Hids
    by (intros z Hz Ez; apply Hnotin; rewrite <- Ez; by apply list_elem_of_fmap_2).
  assert (forall z, z ∈ rows -> z ∈ schedules w1) as Hin1.
  { intros z Hz. destruct (Hrows z (Hin z (list_elem_of_further _ _ _ Hz))) as [[_ ?]|[-> _]]; [done|]. by destruct (Hids r Hz). }
  pose proof (tick_rows_state rows w1 _ (run_passed stmt (tick_rows rows) w1)) as Hst. rewrite H in Hst.
  destruct (tick_state_ok _ _ _ Hst Hnd Hin1 Hkey1 Hok1) as (_ & Hev & _ & _ & Hset).
  apply elem_of_cons in Hy as [-> |Hy]; [|by apply (IH w1)].
  split; [by eapply job_for_evolves|]. destruct (Hrows r Hr) as [[? _]|[_ (y1 & Hy1 & Hadv)]]; [done|].
  destruct (Hset y1 Hy1) as (y' & Hy' & [-> |(Hy1r & _ & _)]); [by exists y1|]. destruct (Hids y1 Hy1r). apply Hadv.
Qed.

End Tick.

(** The schedulers that are reached from an empty database; uuids and clock readings
    differ from tick to tick. *)
Inductive scheduler_reached (sp : string -> value -> result value) : DurableScheduler -> Prop :=
  | sr_new : scheduler_reached sp {| schedules := []; queue := new_queue |}
  | sr_upsert id type payload schedule now w : scheduler_reached sp w ->
      scheduler_reached sp (upsert id type payload schedule now w).2
  | sr_call c w : scheduler_reached sp w ->
      scheduler_reached sp {| schedules := schedules w; queue := perform sp c (queue w) |}
  | sr_restart q w : scheduler_reached sp w -> db q = db (queue w) ->
      scheduler_reached sp {| schedules := schedules w; queue := q |}
  | sr_tick uuid clock now w w' : scheduler_reached sp w ->
      w' ∈ passes (statement sp uuid clock) (tick now) w -> scheduler_reached sp w'.

Lemma reached_scheduler sp w : scheduler_reached sp w -> store_ok (db (queue w)) /\ keyed s_id (schedules w).
Proof.
  induction 1 as [|id type payload schedule now w _ [Hok Hkey]|c w _ [Hok Hkey]|q w _ [Hok Hkey] E|uuid clock now w w' _ [Hok Hkey] Hst].
  - split; [apply new_queue_ok|apply NoDup_nil_2].
  - unfold upsert. destruct (nextScheduleTime schedule now); [done|]. simpl. split; [done|].
    unfold keyed. rewrite map_app. apply NoDup_app. split; [by apply delete_keyed|]. split; [|apply NoDup_singleton].
    intros k Hk Hid%list_elem_of_singleton. simpl in Hid. subst k. apply list_elem_of_fmap in Hk as (r & E & Hr).
    apply delete_elem in Hr as [_ Hr]. bool_hyps. congruence.
  - split; [by apply perform_ok|done].
  - simpl. by rewrite E.
  - apply tick_state_of in Hst. destruct (tick_state_ok _ _ _ _ _ _ Hst) as (? & _ & ? & _); [by apply select_keyed| |done..].
    by intros r [? _]%select_elem.
Qed.

(** C34: no fire of a schedule is lost or doubled, whichever statement of a tick its
    process dies after or which one throws.  In every state a tick passes through - before,
    between and after its statements, the last where it ends or throws - each schedule is
    as it was, so that it is due still and a later tick fires it, or the job of its fire is
    queued and it moved on to the next, later time of its schedule; jobs that were not due
    are not queued; and a fire that is repeated finds its job: two jobs with the keys of
    fires are the same job exactly when schedule and time are the same.  A tick that ends
    has done so for every schedule that was due.  A tick that throws leaves the schedules
    it did not come to for a later tick; that it may throw at the same one every time is
    [unknown_type_blocks]. *)
Theorem fires_exactly_once sp uuid clock now w :
  scheduler_reached sp w ->
  let rows := select (due now) (schedules w) in let states := passes (statement sp uuid clock) (tick now) w in
  (forall w', w' ∈ states ->
     evolves (db (queue w)) (db (queue w')) /\ settled sp rows w w' /\
     (forall x, x ∈ jobs (db (queue w')) -> x ∈ jobs (db (queue w)) \/
        exists r, r ∈ rows /\ j_idempotency_key x = Some (fire_key (s_id r) (s_next_fire r))) /\
     (forall x y id n id' n', x ∈ jobs (db (queue w')) -> y ∈ jobs (db (queue w')) ->
        j_idempotency_key x = Some (fire_key id n) -> j_idempotency_key y = Some (fire_key id' n') ->
        x = y <-> (id = id' /\ n = n'))) /\
  (forall answer w', run (statement sp uuid clock) (tick now) w = (answer, w') -> w' ∈ states /\
     forall k, answer = inr k -> k = Z.of_nat (length rows) /\
       forall r, r ∈ rows -> job_for sp (queue w') r /\ exists r', r' ∈ schedules w' /\ advanced r r').
Proof.
  intros [Hok Hkey]%reached_scheduler rows. assert (keyed s_id rows) as Hrows by (by apply select_keyed).
  assert (forall r, r ∈ rows -> r ∈ schedules w) as Hin by (by intros r [? _]%select_elem). cbv zeta. split.
  - intros w' Hst%tick_state_of. destruct (tick_state_ok _ _ _ _ _ _ Hst Hrows Hin Hkey Hok) as (Hok' & Hev & _ & Hnew & Hset).
    split; [done|split; [done|split; [done|]]]. intros x y id n id' n' Hx Hy Ex Ey. split.
    + intros ->. apply fire_key_inj. rewrite Ex in Ey. by apply (inj Some) in Ey.
    + intros [-> ->]. by apply (same_key (db (queue w')) x y (fire_key id' n')).
  - intros answer w' H. split.
    { pose proof (run_passed (statement sp uuid clock) (tick now) w) as Hp. by rewrite H in Hp. }
    intros k ->. unfold tick in H. cbn [bind trigger run statement] in H. fold rows in H. rewrite run_bind in H.
    destruct (run _ (tick_rows rows) w) as [[err|[]] w1] eqn:E; [done|]. cbn in H.
    injection H as <- <-. split; [done|]. intros r Hr. by apply (tick_rows_done sp uuid clock rows w).
Qed.

(** *** Witnesses *)

Definition demo_worker : JobWorker :=
  {| options := {| workerId := "worker"; leaseMs := 500; concurrency := None |}; stopRequested := false; active := [] |}.

Definition demo_registry : JobHandlerRegistry := register_handler "report" (fun t => Some (V_string t)) ∅.

Definition demo_draws (t : Z) : Draws := {| d_random := 0; d_clock := t; d_clock2 := t |}.

Definition demo_system : System := {| s_queue := new_queue; s_workers := [demo_worker] |}.

(** A worker starts the one job of the queue. *)
Definition demo_start : result Started * JobQueue :=
  start demo_registry (options demo_worker) (demo_draws 2000) (reached accept_all demo_calls).

Lemma handlers_start_once_witness :
  exists log s, runs accept_all demo_registry log s /\ log = [("job-1", 1)] /\ NoDup log.
Proof.
  assert (runs accept_all demo_registry ((([] ++ []) ++ []) ++ [("job-1", 1)])
            {| s_queue := demo_start.2; s_workers := [occupy (match demo_start.1 with inr st => st | _ => R_idle end) demo_worker] |}) as H.
  { refine (runs_step _ _ _ _ _ _ (runs_step _ _ _ _ [] _ (runs_step _ _ [] demo_system [] _ (runs_new _ _ [demo_worker] _) (Call _ _ _ (C_register "report")))
      (Call _ _ _ (C_enqueue "report" (V_string "weekly") demo_options "uuid" 1000))) _).
    - intros w ->%list_elem_of_singleton. reflexivity.
    - exact (Turn accept_all demo_registry {| s_queue := reached accept_all demo_calls; s_workers := [demo_worker] |} 0 demo_worker (demo_draws 2000)
        (match demo_start.1 with inr st => st | _ => R_idle end) demo_start.2 eq_refl eq_refl eq_refl). }
  eexists _, _. split; [exact H|]. split; [reflexivity|]. apply (handlers_start_once _ _ _ _ H).
Defined.

Definition demo_scheduler : DurableScheduler :=
  {| schedules := [{| s_id := "s"; s_type := "report"; s_payload := V_string "weekly"; s_schedule := S_everyMs 10;
                      s_next_fire := 110; s_enabled := true |}];
     queue := perform accept_all (C_register "report") new_queue |}.

Lemma fires_exactly_once_witness :
  exists w', run (statement accept_all (fun r => "uuid") (fun r => 115)) (tick 115) demo_scheduler = (inr 1, w') /\
    map s_next_fire (schedules w') = [120] /\ length (jobs (db (queue w'))) = 1%nat /\
    (forall r, r ∈ schedules demo_scheduler -> job_for accept_all (queue w') r).
Proof.
  assert (scheduler_reached accept_all demo_scheduler) as Hr.
  { exact (sr_upsert _ "s" "report" (V_string "weekly") (S_everyMs 10) 100 _
      (sr_call _ (C_register "report") _ (sr_new _))). }
  destruct (fires_exactly_once accept_all (fun r => "uuid") (fun r => 115) 115 demo_scheduler Hr) as [_ H].
  eexists. split; [reflexivity|]. split; [reflexivity|]. split; [reflexivity|].
  intros r Hin. apply (proj2 (H (inr 1) _ eq_refl) 1 eq_refl). exact Hin.
Defined.

(** A schedule of a type that the queue does not know stops every tick before the
    schedules after it: they are due and stay so. *)
Lemma unknown_type_blocks sp uuid clock now r rows w :
  closed (queue w) = false -> includes (schemas (queue w)) (s_type r) = false -> select (due now) (schedules w) = r :: rows ->
  run (statement sp uuid clock) (tick now) w = (inl (String.append "Unknown job type: " (s_type r)), w).
Proof.
  intros Hopen Htype Hrows. unfold tick. cbn [bind trigger run statement]. rewrite Hrows. cbn. unfold fire, enqueue, method, enqueue_checks, open_.
  rewrite Hopen, Htype. simpl. by destruct w.
Qed.
