(* ===== verification/Strategy.v ===== *)
(** `src/strategy/store.ts` and `src/strategy/runner.ts`: stored strategies and the
    runner that proposes their trades.

    A row of the table holds its parameters as JSON; a column that does not parse to
    an object is [None].  Numbers of the parameters are doubles.  [step] and [tick]
    are effect trees: the clock, the store's statements, and the executor's price,
    swap and notification, at whose answers others may run.  The texts of
    notifications are left out. *)
From stdpp Require Import pretty sorting.
From S2P Require Import Prelude Table Prog Money Doubles.
From Stdlib Require Import QArith.
#[local] Open Scope string_scope.
#[local] Open Scope Z_scope.
#[local] Open Scope prog_scope.

(** *** The store *)

Inductive StrategyKind : Type := dca | twap | trailing_stop | take_profit | unknown_kind (name : string).
Inductive StrategyStatus : Type := active | paused | done | errored.

#[export] Instance StrategyKind_eq_dec : EqDecision StrategyKind.
Proof. solve_decision. Defined.
#[export] Instance StrategyStatus_eq_dec : EqDecision StrategyStatus.
Proof. solve_decision. Defined.

Definition kind_name (k : StrategyKind) : string :=
  match k with
  | dca => "dca" | twap => "twap" | trailing_stop => "trailing_stop" | take_profit => "take_profit"
  | unknown_kind s => s
  end.

Definition STRATEGY_KINDS : list StrategyKind := [dca; twap; trailing_stop; take_profit].

Definition isStrategyKind (value : string) : bool := includes (map kind_name STRATEGY_KINDS) value.

(** A value of `params`: what `num` reads, what `str` reads, anything else. *)
Inductive Param : Type := P_number (x : number) | P_string (s : string) | P_other.

Notation Params := (gmap string Param).

Record StrategyRow : Type := {
  id : string; userId : Z; kind : StrategyKind; status : StrategyStatus; params : Params; nextRunAt : number;
  createdAt : Z; lastRunAt : option Z; runs : Z; errors : Z; lastError : option string
}.

(** A row of `strategies`. *)
Record DbRow : Type := {
  r_id : string; r_user_id : Z; r_kind : StrategyKind; r_status : StrategyStatus; r_params : option Params;
  r_next_run_at : number; r_created_at : Z; r_last_run_at : option Z; r_runs : Z; r_errors : Z;
  r_last_error : option string
}.

Definition hydrate (r : DbRow) : StrategyRow :=
  {| id := r_id r; userId := r_user_id r; kind := r_kind r; status := r_status r; params := default ∅ (r_params r);
     nextRunAt := r_next_run_at r; createdAt := r_created_at r; lastRunAt := r_last_run_at r; runs := r_runs r;
     errors := r_errors r; lastError := r_last_error r |}.

(** `JSON.stringify(params)`, read back: a number that is not finite becomes null. *)
Definition stringified (p : Params) : Params :=
  (fun v => match v with P_number x => if isFinite x then v else P_other | _ => v end) <$> p.

(** `create`, with the uuid and the clock reading; NaN is bound as NULL, which the
    column refuses, and so is a uuid that is taken. *)
Definition create (uuid : string) (now : Z) (user : Z) (k : StrategyKind) (p : Params) (firstRunAt : number)
    (t : list DbRow) : option (StrategyRow * list DbRow) :=
  match firstRunAt with
  | NaN => None
  | _ =>
      let r := {| r_id := uuid; r_user_id := user; r_kind := k; r_status := active; r_params := Some (stringified p);
                  r_next_run_at := firstRunAt; r_created_at := now; r_last_run_at := None; r_runs := 0; r_errors := 0;
                  r_last_error := None |} in
      match insert r_id r t with Some t' => Some (hydrate r, t') | None => None end
  end.

Definition get_strategy (id : string) (t : list DbRow) : option StrategyRow := hydrate <$> get r_id id t.

(** `ORDER BY next_run_at ASC`, rows of one time in the order of the table. *)
Definition earlier (x y : DbRow) : Prop := num_lt (r_next_run_at y) (r_next_run_at x) = false.
#[export] Instance earlier_dec : RelDecision earlier.
Proof. intros x y. unfold earlier. apply _. Defined.

Definition is_due (now : Z) (r : DbRow) : bool :=
  bool_decide (r_status r = active) && num_le (r_next_run_at r) (js_num now).

Definition due (now : Z) (t : list DbRow) : list StrategyRow := map hydrate (merge_sort earlier (select (is_due now) t)).

(** `ORDER BY created_at DESC` *)
Definition newer (x y : DbRow) : Prop := r_created_at y <= r_created_at x.
#[export] Instance newer_dec : RelDecision newer.
Proof. intros x y. unfold newer. apply _. Defined.

Definition list_strategies (user : Z) (t : list DbRow) : list StrategyRow :=
  map hydrate (merge_sort newer (select (fun r => r_user_id r =? user) t)).

Definition all_strategies (limit : Z) (t : list DbRow) : list StrategyRow :=
  map hydrate (take (Z.to_nat limit) (merge_sort newer t)).

Definition saved_row (row : StrategyRow) (r : DbRow) : DbRow :=
  {| r_id := r_id r; r_user_id := r_user_id r; r_kind := r_kind r; r_status := status row;
     r_params := Some (stringified (params row)); r_next_run_at := nextRunAt row; r_created_at := r_created_at r;
     r_last_run_at := lastRunAt row; r_runs := runs row; r_errors := errors row; r_last_error := lastError row |}.

Definition save (row : StrategyRow) (t : list DbRow) : list DbRow :=
  update_where (fun r => streq (r_id r) (id row)) (saved_row row) t.

Definition setStatus (sid : string) (st : StrategyStatus) (t : list DbRow) : bool * list DbRow :=
  ((0 <? changes (fun r => streq (r_id r) sid) t)%nat,
   update_where (fun r => streq (r_id r) sid)
     (fun r => {| r_id := r_id r; r_user_id := r_user_id r; r_kind := r_kind r; r_status := st; r_params := r_params r;
                  r_next_run_at := r_next_run_at r; r_created_at := r_created_at r; r_last_run_at := r_last_run_at r;
                  r_runs := r_runs r; r_errors := r_errors r; r_last_error := r_last_error r |}) t).

(** *** Plans *)

Inductive SwapKind : Type := buy | sell | swap_kind.

Record StrategySwap : Type := {
  sw_kind : SwapKind; amountUi : number; inputMint : string; outputMint : string; sw_slippageBps : option Z
}.

Record StrategySwapResult : Type := { ok : bool; text : string; sr_signature : option string }.

Inductive Plan : Type := P_swap (req : StrategySwap) | P_skip | P_done.

Definition MAX_CONSECUTIVE_ERRORS : Z := 3.
Definition MIN_INTERVAL_SEC : Z := 15.
Definition DEFAULT_INTERVAL_SEC : Z := 3600.

(** `num(p.key, d)` and `str(p.key, d)` *)
Definition num (p : Params) (key : string) (d : number) : number :=
  match p !! key with Some (P_number x) => if isFinite x then x else d | _ => d end.
Definition str (p : Params) (key : string) (d : string) : string :=
  match p !! key with Some (P_string s) => s | _ => d end.

(** `Math.max(x, y)` *)
Definition num_max (x y : number) : number :=
  match x, y with NaN, _ | _, NaN => NaN | _, _ => if num_le x y then y else x end.

(** `1e-9` *)
Definition EPSILON : number := round_double (1 # 1000000000).

Definition buy_with_sol (amount : number) (token : string) : Plan :=
  P_swap {| sw_kind := buy; amountUi := amount; inputMint := WSOL_MINT; outputMint := token; sw_slippageBps := None |}.
Definition sell_for_sol (amount : number) (token : string) : Plan :=
  P_swap {| sw_kind := sell; amountUi := amount; inputMint := token; outputMint := WSOL_MINT; sw_slippageBps := None |}.

Definition not_positive (x : number) : bool := num_le x (js_num 0).
Definition positive (x : number) : bool := num_gt x (js_num 0).

Definition plan_dca (p : Params) : Plan :=
  let token := str p "token" "" in
  let per := num p "amountUiPerStep" (js_num 0) in
  let total := num p "totalBudgetUi" (js_num 0) in
  let spent := num p "spentUi" (js_num 0) in
  if streq token "" || not_positive per then P_done
  else if positive total && num_gt (num_add spent per) (num_add total EPSILON) then P_done
  else buy_with_sol per token.

(** `Math.max(1, Math.floor(num(p.slices, 1)))` and `Math.floor(num(p.doneSlices))` *)
Definition slices_of (p : Params) : number := num_max (js_num 1) (num_floor (num p "slices" (js_num 1))).
Definition done_of (p : Params) : number := num_floor (num p "doneSlices" (js_num 0)).

Definition plan_twap (p : Params) : Plan :=
  let token := str p "token" "" in
  let totalUi := num p "totalUi" (js_num 0) in
  if streq token "" || num_le (slices_of p) (done_of p) then P_done
  else
    let sliceUi := num_div totalUi (slices_of p) in
    if streq (str p "side" "buy") "sell" then sell_for_sol sliceUi token else buy_with_sol sliceUi token.

(** The part of a price trigger after the price is known. *)
Definition plan_trailing (p : Params) (price : number) : Params * Plan :=
  let dropPct := num p "dropPct" (js_num 10) in
  let peak := num_max (num p "peak" price) price in
  let stop := num_mul peak (num_sub (js_num 1) (num_div dropPct (js_num 100))) in
  (<["peak" := P_number peak]> p,
   if num_le price stop then sell_for_sol (num p "sizeUi" (js_num 0)) (str p "token" "") else P_skip).

Definition plan_profit (p : Params) (price : number) : Plan :=
  let gainPct := num p "gainPct" (js_num 50) in
  let target := num_mul (num p "entryPrice" (js_num 0)) (num_add (js_num 1) (num_div gainPct (js_num 100))) in
  if num_le target price then sell_for_sol (num p "sizeUi" (js_num 0)) (str p "token" "") else P_skip.

(** *** Changes of a row *)

Definition with_status (st : StrategyStatus) (s : StrategyRow) : StrategyRow :=
  {| id := id s; userId := userId s; kind := kind s; status := st; params := params s; nextRunAt := nextRunAt s;
     createdAt := createdAt s; lastRunAt := lastRunAt s; runs := runs s; errors := errors s; lastError := lastError s |}.

Definition with_params (p : Params) (s : StrategyRow) : StrategyRow :=
  {| id := id s; userId := userId s; kind := kind s; status := status s; params := p; nextRunAt := nextRunAt s;
     createdAt := createdAt s; lastRunAt := lastRunAt s; runs := runs s; errors := errors s; lastError := lastError s |}.

(** `runs += 1; lastRunAt = Date.now()` *)
Definition count_run (now : Z) (s : StrategyRow) : StrategyRow :=
  {| id := id s; userId := userId s; kind := kind s; status := status s; params := params s; nextRunAt := nextRunAt s;
     createdAt := createdAt s; lastRunAt := Some now; runs := runs s + 1; errors := errors s; lastError := lastError s |}.

Definition with_errors (n : Z) (e : option string) (s : StrategyRow) : StrategyRow :=
  {| id := id s; userId := userId s; kind := kind s; status := status s; params := params s; nextRunAt := nextRunAt s;
     createdAt := createdAt s; lastRunAt := lastRunAt s; runs := runs s; errors := n; lastError := e |}.

(** `errors += 1; lastError = e` *)
Definition count_error (e : string) (s : StrategyRow) : StrategyRow := with_errors (errors s + 1) (Some e) s.

Definition exhausted (s : StrategyRow) : bool := MAX_CONSECUTIVE_ERRORS <=? errors s.

Definition pause_if_exhausted (s : StrategyRow) : StrategyRow := if exhausted s then with_status paused s else s.

Definition applyProgress (s : StrategyRow) (action : StrategySwap) : StrategyRow :=
  let p := params s in
  match kind s with
  | dca => with_params (<["spentUi" := P_number (num_add (num p "spentUi" (js_num 0)) (amountUi action))]> p) s
  | twap => with_params (<["doneSlices" := P_number (num_add (done_of p) (js_num 1))]> p) s
  | _ => with_status done s
  end.

Definition isComplete (s : StrategyRow) : bool :=
  let p := params s in
  match kind s with
  | dca =>
      let total := num p "totalBudgetUi" (js_num 0) in
      positive total && num_le (num_sub total EPSILON) (num p "spentUi" (js_num 0))
  | twap => num_le (slices_of p) (done_of p)
  | _ => false
  end.

Definition reschedule (now : Z) (s : StrategyRow) : StrategyRow :=
  let intervalSec := num_max (js_num MIN_INTERVAL_SEC) (num (params s) "intervalSec" (js_num DEFAULT_INTERVAL_SEC)) in
  {| id := id s; userId := userId s; kind := kind s; status := status s; params := params s;
     nextRunAt := num_add (js_num now) (num_mul intervalSec (js_num 1000)); createdAt := createdAt s;
     lastRunAt := lastRunAt s; runs := runs s; errors := errors s; lastError := lastError s |}.

(** *** The runner *)

Inductive seff : Type -> Type :=
  | Now : seff Z
  | Due (now : Z) : seff (list StrategyRow)
  | Save (row : StrategyRow) : seff unit
  | Price (mint : string) : seff (string + option number)%type
  | Swap (req : StrategySwap) (key : string) : seff (string + StrategySwapResult)%type
  | Notify (user : Z) : seff unit.

(** The optional methods of the executor. *)
Record StrategyExecutor : Type := { has_price : bool; has_notify : bool }.

Section Runner.
Context (x : StrategyExecutor).

Definition notify {X} (s : StrategyRow) : prog seff X unit := when (has_notify x) (trigger (Notify (userId s))).

(** A price, when the mint has one: a call that throws carries the row as it is. *)
Definition read_price (s : StrategyRow) (mint : string) : prog seff (string * StrategyRow)%type (option number) :=
  let* r := trigger (Price mint) in
  match r with inl e => Throw (e, s) | inr v => Ret v end.

Definition plan (s : StrategyRow) : prog seff (string * StrategyRow)%type (StrategyRow * Plan) :=
  let p := params s in
  let token := str p "token" "" in
  match kind s with
  | dca => Ret (s, plan_dca p)
  | twap => Ret (s, plan_twap p)
  | trailing_stop =>
      if streq token "" || not_positive (num p "sizeUi" (js_num 0)) || negb (has_price x) then Ret (s, P_skip)
      else
        let* price := read_price s token in
        match price with
        | None => Ret (s, P_skip)
        | Some v => let '(p', a) := plan_trailing p v in Ret (with_params p' s, a)
        end
  | take_profit =>
      if streq token "" || not_positive (num p "sizeUi" (js_num 0)) || not_positive (num p "entryPrice" (js_num 0)) ||
         negb (has_price x) then Ret (s, P_skip)
      else
        let* price := read_price s token in
        match price with None => Ret (s, P_skip) | Some v => Ret (s, plan_profit p v) end
  | unknown_kind _ => Ret (s, P_done)
  end.

(** `strat_${strat.id}_${strat.runs}` *)
Definition swap_key (sid : string) (n : Z) : string := "strat_" +:+ sid +:+ "_" +:+ pretty n.

(** The row after an answered swap, up to the completion check. *)
Definition after_swap (action : StrategySwap) (res : StrategySwapResult) (s : StrategyRow) : StrategyRow :=
  if ok res then applyProgress (with_errors 0 None s) action else pause_if_exhausted (count_error (text res) s).

(** `if (strat.status === "active" && this.#isComplete(strat)) strat.status = "done"` *)
Definition completes (s : StrategyRow) : bool := bool_decide (status s = active) && isComplete s.
Definition complete_row (s : StrategyRow) : StrategyRow := if completes s then with_status done s else s.

Definition run_swap (s : StrategyRow) (action : StrategySwap) : prog seff (string * StrategyRow)%type unit :=
  let* r := trigger (Swap action (swap_key (id s) (runs s))) in
  match r with
  | inl e => Throw (e, s)
  | inr res =>
      let* t1 := trigger Now in
      let s1 := after_swap action res (count_run t1 s) in
      when (ok res || exhausted s1) (notify s1) ;;
      when (completes s1) (notify s1) ;;
      let* t2 := trigger Now in
      trigger (Save (reschedule t2 (complete_row s1)))
  end.

Definition step_body (s : StrategyRow) : prog seff (string * StrategyRow)%type unit :=
  let* ' (s1, a) := plan s in
  match a with
  | P_done => trigger (Save (with_status done s1)) ;; notify s1
  | P_skip => let* t := trigger Now in trigger (Save (reschedule t s1))
  | P_swap action => run_swap s1 action
  end.

(** The `catch` block, with the row as the throw left it. *)
Definition step_failed (es : string * StrategyRow) : prog seff Empty_set unit :=
  let s1 := pause_if_exhausted (count_error es.1 es.2) in
  let* t := trigger Now in
  trigger (Save (reschedule t s1)).

(** `#step` *)
Definition step (s : StrategyRow) : prog seff Empty_set unit := catch (step_body s) step_failed.

Fixpoint steps (l : list StrategyRow) : prog seff Empty_set unit :=
  match l with
  | [] => Ret tt
  | s :: l' => step s ;; steps l'
  end.

(** `tick`, past the test of `#running`. *)
Definition tick : prog seff Empty_set unit :=
  let* now := trigger Now in
  let* l := trigger (Due now) in
  steps l.
End Runner.

(** `Date.now` and the store's statements are functions of the table; the executor
    may answer anything. *)
Definition sexec {R} (e : seff R) : list DbRow -> R -> list DbRow -> Prop :=
  match e in seff R return list DbRow -> R -> list DbRow -> Prop with
  | Due now => fun t r t' => r = due now t /\ t' = t
  | Save row => fun t _ t' => t' = save row t
  | _ => fun t _ t' => t' = t
  end.

(** A price or a swap is a promise, and so is a notification: others run before it
    is answered. *)
Definition awaited {R} (e : seff R) : bool :=
  match e with Price _ | Swap _ _ | Notify _ => true | _ => false end.
