(* ===== verification/StrategySafety.v ===== *)
(** What the strategy runner guarantees (`src/strategy/`), with the operator acting
    on the table at any moment and the process dying at any moment.

    The swaps a DCA or TWAP strategy counts are limited by its budget, each crash may
    cost one that is not counted, and a strategy nobody resumes is active only while
    fewer than three runs in a row failed. *)
From stdpp Require Import pretty sorting.
From Stdlib Require Import QArith.
From S2P Require Import Prelude Table Prog Money Doubles Strategy.
#[local] Open Scope string_scope.
#[local] Open Scope list_scope.
#[local] Open Scope Z_scope.

(** *** Reading parameters *)

Lemma num_stringified p key d : num (stringified p) key d = num p key d.
Proof.
  unfold num, stringified. rewrite lookup_fmap. destruct (p !! key) as [[v|s|]|]; simpl; [|done..].
  destruct (isFinite v) eqn:E; by rewrite ?E.
Qed.

Lemma str_stringified p key d : str (stringified p) key d = str p key d.
Proof.
  unfold str, stringified. rewrite lookup_fmap. destruct (p !! key) as [[v|s|]|]; simpl; [|done..]. by destruct (isFinite v).
Qed.

Lemma num_insert_ne p key key' v d : key <> key' -> num (<[key := v]> p) key' d = num p key' d.
Proof. intros Hne. unfold num. by rewrite lookup_insert_ne. Qed.

Lemma num_insert p key v d : isFinite v = true -> num (<[key := P_number v]> p) key d = v.
Proof. intros Hv. unfold num. rewrite lookup_insert_eq. by rewrite Hv. Qed.


(** *** Progress *)

(** What a counted swap does to the progress [v] of a strategy, and whether the plan
    of a strategy with progress [v] is a swap. *)
Definition bump (k : StrategyKind) (p : Params) (v : number) : number :=
  match k with dca => num_add v (num p "amountUiPerStep" (js_num 0)) | _ => num_add (num_floor v) (js_num 1) end.

Definition allows (k : StrategyKind) (p : Params) (v : number) : bool :=
  match k with
  | dca => let total := num p "totalBudgetUi" (js_num 0) in
           negb (positive total && num_gt (num_add v (num p "amountUiPerStep" (js_num 0))) (num_add total EPSILON))
  | _ => negb (num_le (slices_of p) (num_floor v))
  end.

Definition progress_key (k : StrategyKind) : string := match k with dca => "spentUi" | _ => "doneSlices" end.
Definition progress (k : StrategyKind) (p : Params) : number := num p (progress_key k) (js_num 0).

Definition counted (k : StrategyKind) : bool := match k with dca | twap => true | _ => false end.

(** The progress after [c] counted swaps of a new strategy. *)
Definition progress_after (k : StrategyKind) (p : Params) (c : nat) : number := Nat.iter c (bump k p) (js_num 0).

(** After [n] counted swaps the plan is no swap; no progress up to there overflows. *)
Definition limit (k : StrategyKind) (p : Params) (n : nat) : Prop :=
  allows k p (progress_after k p n) = false /\ forall j, (j <= n)%nat -> isFinite (progress_after k p j) = true.

(** Two parameter lists that differ at most in what the runner writes. *)
Definition same_setup (p q : Params) : Prop :=
  num q "amountUiPerStep" (js_num 0) = num p "amountUiPerStep" (js_num 0) /\
  num q "totalBudgetUi" (js_num 0) = num p "totalBudgetUi" (js_num 0) /\ num q "slices" (js_num 1) = num p "slices" (js_num 1).

Lemma same_setup_refl p : same_setup p p.
Proof. done. Qed.

Lemma same_bump k p q v : same_setup p q -> bump k q v = bump k p v.
Proof. intros (H & _ & _). destruct k; simpl; by rewrite ?H. Qed.

Lemma same_allows k p q v : same_setup p q -> allows k q v = allows k p v.
Proof. intros (H1 & H2 & H3). unfold allows, slices_of. by rewrite H1, H2, H3. Qed.

Lemma same_after k p q c : same_setup p q -> progress_after k q c = progress_after k p c.
Proof. intros H. unfold progress_after. induction c as [|c IH]; simpl; [done|]. by rewrite IH, (same_bump k p q). Qed.

Lemma same_limit k p q n : same_setup p q -> limit k q n -> limit k p n.
Proof.
  intros H [Ha Hf]. split; [by rewrite <- (same_allows k p q), <- (same_after k p q)|].
  intros j Hj. rewrite <- (same_after k p q) by done. by apply Hf.
Qed.

(** A swap is planned only while the progress allows it, and counting it adds to the
    progress. *)
Lemma planned_allows k p a :
  counted k = true -> match k with dca => plan_dca p | _ => plan_twap p end = P_swap a ->
  allows k p (progress k p) = true /\ (k = dca -> amountUi a = num p "amountUiPerStep" (js_num 0)).
Proof.
  destruct k; try done; intros _; cbn [allows].
  - unfold plan_dca, progress. cbn [progress_key]. destruct (_ || _); [done|]. destruct (_ && _); [done|]. by intros [= <-].
  - unfold plan_twap, progress. cbn [progress_key]. unfold done_of. destruct (num_le _ _) eqn:E; [by rewrite orb_true_r|]. done.
Qed.

Lemma applied_progress s a :
  counted (kind s) = true -> (kind s = dca -> amountUi a = num (params s) "amountUiPerStep" (js_num 0)) ->
  isFinite (bump (kind s) (params s) (progress (kind s) (params s))) = true ->
  progress (kind s) (params (applyProgress s a)) = bump (kind s) (params s) (progress (kind s) (params s)) /\
  same_setup (params s) (params (applyProgress s a)).
Proof.
  unfold applyProgress, progress, same_setup. destruct (kind s) eqn:Ek; try done; intros _ Ha Hfin; cbn in *.
  - rewrite Ha by done. rewrite num_insert by done. split; [done|]. by rewrite !num_insert_ne.
  - unfold done_of. rewrite num_insert by done. split; [done|]. by rewrite !num_insert_ne.
Qed.

(** *** What a tick does, effect by effect *)

(** Where the tick is: before the rows are read, at a row, after a call for a row
    failed or its swap was answered, or nowhere. *)
Inductive Stage : Type :=
  | G_none
  | G_due
  | G_rows (l : list StrategyRow)
  | G_failed (s : StrategyRow) (l : list StrategyRow)
  | G_answered (s : StrategyRow) (a : StrategySwap) (res : StrategySwapResult) (l : list StrategyRow).

(** The row as planning leaves it: a trailing stop's peak is new. *)
Definition replanned (s s1 : StrategyRow) : Prop :=
  exists p, s1 = with_params p s /\ (counted (kind s) = true -> p = params s).

Definition planned (s : StrategyRow) (a : StrategySwap) : Prop :=
  counted (kind s) = true -> match kind s with dca => plan_dca (params s) | _ => plan_twap (params s) end = P_swap a.

(** The row that is saved when no swap was asked for, after a call that failed and
    after an answered swap. *)
Definition quiet_save (s row : StrategyRow) : Prop :=
  exists s1, replanned s s1 /\ (row = with_status done s1 \/ exists t, row = reschedule t s1).

Definition failed_save (s row : StrategyRow) : Prop :=
  exists s1 t e, replanned s s1 /\ row = reschedule t (pause_if_exhausted (count_error e s1)).

Definition swap_save (s : StrategyRow) (a : StrategySwap) (res : StrategySwapResult) (row : StrategyRow) : Prop :=
  exists s1 t1 t2, replanned s s1 /\ row = reschedule t2 (complete_row (after_swap a res (count_run t1 s1))).

Definition may {R} (e : seff R) (g : Stage) : Prop :=
  match e with
  | Due _ => g = G_due
  | Swap a key => exists s l, g = G_rows (s :: l) /\ key = swap_key (id s) (runs s) /\ planned s a
  | Save row =>
      match g with
      | G_rows (s :: _) => quiet_save s row
      | G_failed s _ => failed_save s row
      | G_answered s a res _ => swap_save s a res row
      | _ => False
      end
  | _ => True
  end.

Definition next_stage {R} (e : seff R) : R -> Stage -> Stage :=
  match e in seff R return R -> Stage -> Stage with
  | Due _ => fun l _ => G_rows l
  | Price _ => fun r g => match r, g with inl _, G_rows (s :: l) => G_failed s l | _, _ => g end
  | Swap a _ => fun r g =>
      match r, g with inr res, G_rows (s :: l) => G_answered s a res l | inl _, G_rows (s :: l) => G_failed s l | _, _ => g end
  | Save _ => fun _ g => match g with G_rows (_ :: l) | G_failed _ l | G_answered _ _ _ l => G_rows l | _ => g end
  | _ => fun _ g => g
  end.

Notation tells p Q g := (ensures (@may) (fun _ _ _ => True) (@next_stage) p Q g).

Lemma replanned_refl s : replanned s s.
Proof. exists (params s). split; [by destruct s|done]. Qed.

Lemma notify_tells {X} x s (Q : X + unit -> Stage -> Prop) g : Q (inr tt) g -> tells (notify x s) Q g.
Proof. unfold notify. destruct (has_notify x); simpl; [|done]. intros H. split; [done|]. by intros []. Qed.

Lemma when_tells {X} b (p : prog seff X unit) (Q : X + unit -> Stage -> Prop) g :
  tells p Q g -> Q (inr tt) g -> tells (when b p) Q g.
Proof. by destruct b. Qed.

Lemma plan_tells x s l :
  tells (plan x s) (fun r g =>
    match r with
    | inr (s1, a) => g = G_rows (s :: l) /\ replanned s s1 /\ (forall req, a = P_swap req -> planned s req)
    | inl (_, s1) => g = G_failed s l /\ replanned s s1
    end) (G_rows (s :: l)).
Proof.
  unfold plan, planned. destruct (kind s) eqn:Ek; simpl.
  - split_and!; [done|apply replanned_refl|]. by intros req H _.
  - split_and!; [done|apply replanned_refl|]. by intros req H _.
  - destruct (_ || _); simpl; [split_and!; [done|apply replanned_refl|done]|]. split; [done|]. intros [e|[v|]] _; simpl.
    + auto using replanned_refl.
    + split_and!; [done| |done]. eexists. split; [done|]. by rewrite Ek.
    + split_and!; [done|apply replanned_refl|done].
  - destruct (_ || _); simpl; [split_and!; [done|apply replanned_refl|done]|]. split; [done|]. intros [e|[v|]] _; simpl.
    + auto using replanned_refl.
    + split_and!; [done|apply replanned_refl|done].
    + split_and!; [done|apply replanned_refl|done].
  - split_and!; [done|apply replanned_refl|done].
Qed.

Lemma step_tells x s l : tells (step x s) (fun _ g => g = G_rows l) (G_rows (s :: l)).
Proof.
  unfold step, step_body. apply ensures_catch, ensures_bind. eapply ensures_mono; [apply plan_tells|].
  intros [[e s1]|[s1 a]] g; simpl.
  { intros [-> H]. split; [done|]. intros t _. split; [|done]. by exists s1, t, e. }
  intros (-> & Hs1 & Ha). destruct a as [a| |]; simpl.
  - assert (id s1 = id s /\ runs s1 = runs s) as [Hid Hruns] by (destruct Hs1 as (p & -> & _); done).
    split. { exists s, l. rewrite Hid, Hruns. auto. }
    intros [e|res] _; simpl.
    + split; [done|]. intros t _. split; [|done]. by exists s1, t, e.
    + split; [done|]. intros t1 _.
      assert (forall (Q : (string * StrategyRow) + unit -> Stage -> Prop) g, Q (inr tt) g ->
        forall b r, tells (when b (notify x r)) Q g) as Hn.
      { intros Q g HQ b r. apply when_tells; [by apply notify_tells|done]. }
      apply ensures_bind, Hn, ensures_bind, Hn. simpl. split; [done|]. intros t2 _. split; [|done].
      by exists s1, t1, t2.
  - split; [done|]. intros t _. split; [|done]. exists s1. split; [done|]. right. by exists t.
  - split; [exists s1; split; [done|by left]|]. intros _ _. by apply notify_tells.
Qed.

(** The strategy whose successful swap is not saved yet. *)
Definition unsaved (g : Stage) : list string :=
  match g with G_answered s _ res _ => if ok res then [id s] else [] | _ => [] end.

Lemma tick_tells x : tells (tick x) (fun _ g => unsaved g = []) G_due.
Proof.
  simpl. split; [done|]. intros now _. split; [done|]. intros l _.
  induction l as [|s l IH]; simpl; [done|]. apply ensures_bind. eapply ensures_mono; [apply step_tells|].
  intros [[]|[]] g ->. exact IH.
Qed.

(** *** The system *)

(** The runs of strategies that came to an end and were saved, the last first:
    whether the run's swap succeeded, [None] when a call of it threw. *)
Definition Log : Type := list (string * option bool).

(** How a save ends the run of its row: a row without a swap leaves no entry. *)
Definition logged {R} (e : seff R) (g : Stage) : Log :=
  match e, g with
  | Save _, G_failed s _ => [(id s, None)]
  | Save _, G_answered s _ res _ => [(id s, Some (ok res))]
  | _, _ => []
  end.

(** The runs of a strategy that failed since the last that succeeded. *)
Fixpoint streak (sid : string) (l : Log) : Z :=
  match l with
  | [] => 0
  | (k, b) :: l' => if streq k sid then match b with Some true => 0 | _ => streak sid l' + 1 end else streak sid l'
  end.

(** The runs of a strategy whose swap was answered. *)
Fixpoint answered (sid : string) (l : Log) : Z :=
  match l with
  | [] => 0
  | (k, b) :: l' => (if streq k sid && bool_decide (b <> None) then 1 else 0) + answered sid l'
  end.

(** The table and the tick in flight; [stage] is where it is, [oks] the strategies
    whose swaps were answered with success and [lost] those of them whose save a crash
    prevented, [touched] the strategies whose status the operator set. *)
Record World : Type := {
  table : list DbRow; current : option (prog seff Empty_set unit); stage : Stage; oks : list string;
  lost : list string; touched : list string; log : Log
}.

(** The strategy an effect reports a success for. *)
Definition succeeded {R} (e : seff R) : R -> Stage -> list string :=
  match e in seff R return R -> Stage -> list string with
  | Swap a _ => fun r g => unsaved (next_stage (Swap a EmptyString) r g)
  | _ => fun _ _ => []
  end.

Section System.
Context (x : StrategyExecutor).

(** A tick starts only when none runs (`#running`); the operator creates strategies
    without progress. *)
Inductive wstep (w : World) : World -> Prop :=
  | W_begin : current w = None ->
      wstep w {| table := table w; current := Some (tick x); stage := G_due; oks := oks w; lost := lost w; touched := touched w; log := log w |}
  | W_effect R (e : seff R) k r t : current w = Some (Vis e k) -> sexec e (table w) r t ->
      wstep w {| table := t; current := Some (k r); stage := next_stage e r (stage w);
                 oks := succeeded e r (stage w) ++ oks w; lost := lost w; touched := touched w;
                 log := logged e (stage w) ++ log w |}
  | W_end : current w = Some (Ret tt) ->
      wstep w {| table := table w; current := None; stage := G_none; oks := oks w; lost := lost w; touched := touched w; log := log w |}
  | W_crash :
      wstep w {| table := table w; current := None; stage := G_none; oks := oks w;
                 lost := unsaved (stage w) ++ lost w; touched := touched w; log := log w |}
  | W_status sid st :
      wstep w {| table := (setStatus sid st (table w)).2; current := current w; stage := stage w; oks := oks w;
                 lost := lost w; touched := sid :: touched w; log := log w |}
  | W_create uuid now user k p first row t : create uuid now user k p first (table w) = Some (row, t) ->
      p !! "spentUi" = None -> p !! "doneSlices" = None ->
      wstep w {| table := t; current := current w; stage := stage w; oks := oks w; lost := lost w; touched := touched w; log := log w |}.

Definition new_world : World :=
  {| table := []; current := None; stage := G_none; oks := []; lost := []; touched := []; log := [] |}.

Definition world_reached (w : World) : Prop := rtc wstep new_world w.

(** The rows the tick still has copies of. *)
Definition copies (g : Stage) : list StrategyRow :=
  match g with G_rows l => l | G_failed s l | G_answered s _ _ l => s :: l | _ => [] end.

(** A copy differs from its row at most in the status, if the operator set it. *)
Definition agrees (touched : list string) (s : StrategyRow) (r : DbRow) : Prop :=
  hydrate r = with_status (r_status r) s /\ status s = active /\ (r_status r = active \/ r_id r ∈ touched).

Definition count (sid : string) (l : list string) : nat := length (List.filter (streq sid) l).

Record world_ok (w : World) : Prop := {
  wo_follows : forall p, current w = Some p -> tells p (fun _ g => unsaved g = []) (stage w);
  wo_idle : current w = None -> stage w = G_none;
  wo_keyed : keyed r_id (table w);
  wo_copies : NoDup (map id (copies (stage w)));
  wo_agrees : forall s, s ∈ copies (stage w) -> exists r, r ∈ table w /\ r_id r = id s /\ agrees (touched w) s r;
  wo_planned : forall s a res l, stage w = G_answered s a res l -> planned s a;
  wo_known : forall sid, sid ∈ oks w ++ lost w -> exists r, r ∈ table w /\ r_id r = sid;
  wo_logged : forall sid b, (sid, b) ∈ log w -> exists r, r ∈ table w /\ r_id r = sid;
  wo_errors : forall r, r ∈ table w -> r_errors r = streak (r_id r) (log w);
  wo_runs : forall r, r ∈ table w -> r_runs r = answered (r_id r) (log w);
  wo_breaker : forall r, r ∈ table w -> r_id r ∉ touched w -> r_status r = active -> r_errors r < MAX_CONSECUTIVE_ERRORS;
  wo_progress : forall r n, r ∈ table w -> let p := params (hydrate r) in
    counted (r_kind r) = true -> limit (r_kind r) p n ->
    exists c, (c <= n)%nat /\ progress (r_kind r) p = progress_after (r_kind r) p c /\
      (count (r_id r) (oks w) = c + count (r_id r) (lost w) + count (r_id r) (unsaved (stage w)))%nat
}.

(** *** The table under the runner and the operator *)

Lemma quiet_save_facts s row :
  quiet_save s row -> id row = id s /\ (counted (kind s) = true -> params row = params s) /\ errors row = errors s /\ runs row = runs s.
Proof. by intros (s1 & (p & -> & Hp) & [->|[t ->]]). Qed.

Lemma failed_save_facts s row :
  failed_save s row -> id row = id s /\ (counted (kind s) = true -> params row = params s) /\ errors row = errors s + 1 /\ runs row = runs s /\
  (status row = active -> errors row < MAX_CONSECUTIVE_ERRORS).
Proof.
  intros (s1 & t & e & (p & -> & Hp) & ->). unfold pause_if_exhausted, exhausted.
  destruct (_ <=? _) eqn:E; simpl in *; split_and!; try done. by bool_hyps.
Qed.

Lemma swap_save_facts s a res row :
  swap_save s a res row -> id row = id s /\
  (counted (kind s) = true -> params row = if ok res then params (applyProgress s a) else params s) /\
  errors row = (if ok res then 0 else errors s + 1) /\ runs row = runs s + 1 /\
  (status row = active -> errors row < MAX_CONSECUTIVE_ERRORS).
Proof.
  intros (s1 & t1 & t2 & (p & -> & Hp) & ->). unfold after_swap, complete_row, pause_if_exhausted, exhausted, applyProgress.
  split_and!.
  - repeat (case_match; simpl); done.
  - intros Hc. rewrite <- Hp by done. destruct (ok res); simpl.
    + destruct (kind s); try done; by case_match.
    + by repeat (case_match; simpl).
  - destruct (ok res); simpl; repeat (case_match; simpl); done.
  - destruct (ok res); simpl; repeat (case_match; simpl); done.
  - destruct (ok res); simpl.
    + by repeat (case_match; simpl).
    + destruct (_ <=? _) eqn:E; simpl in *; [done|]. bool_hyps. by case_match.
Qed.

Lemma count_app sid l1 l2 : count sid (l1 ++ l2) = (count sid l1 + count sid l2)%nat.
Proof. unfold count. by rewrite List.filter_app, length_app. Qed.

Lemma count_notin sid l : sid ∉ l -> count sid l = 0%nat.
Proof.
  intros H. unfold count. rewrite filter_none; [done|]. intros y Hy. apply streq_false. by intros ->.
Qed.

(** An UPDATE of one row. *)
Section Update.
Context (t : list DbRow) (r : DbRow) (f : DbRow -> DbRow) (Hkey : keyed r_id t) (Hr : r ∈ t).
Hypothesis (f_id : forall y, r_id (f y) = r_id y).
Let t' := update_where (fun y => streq (r_id y) (r_id r)) f t.

Lemma update_row y : y ∈ t' <-> y = f r \/ (y ∈ t /\ r_id y <> r_id r).
Proof.
  unfold t'. split.
  - intros (z & Hz & ->)%update_elem. destruct (streq _ _) eqn:E; bool_hyps; [left|by right].
    f_equal. by apply (keyed_same r_id t).
  - intros [->|[Hy Hne]]; apply list_elem_of_fmap.
    + exists r. by rewrite streq_refl.
    + exists y. by rewrite (proj2 (streq_false _ _) Hne).
Qed.

Lemma update_row_keyed : keyed r_id t'.
Proof. by apply update_keyed. Qed.

Lemma update_row_known sid : (exists y, y ∈ t /\ r_id y = sid) -> exists y, y ∈ t' /\ r_id y = sid.
Proof.
  intros (y & Hy & <-). destruct (decide (r_id y = r_id r)) as [E|Hne].
  - exists (f r). split; [apply update_row; by left|]. by rewrite f_id.
  - exists y. split; [apply update_row; by right|done].
Qed.
End Update.

(** The copies that are left agree after the row of another was saved. *)
Lemma agrees_ne tch (l : list StrategyRow) t r f :
  keyed r_id t -> r ∈ t -> (forall y, r_id (f y) = r_id y) ->
  (forall s, s ∈ l -> id s <> r_id r) -> (forall s, s ∈ l -> exists y, y ∈ t /\ r_id y = id s /\ agrees tch s y) ->
  forall s, s ∈ l -> exists y, y ∈ update_where (fun y => streq (r_id y) (r_id r)) f t /\ r_id y = id s /\ agrees tch s y.
Proof.
  intros Hkey Hr Hf Hne H s Hs. destruct (H s Hs) as (y & Hy & Hid & Ha). exists y. split; [|done].
  apply update_row; [done..|]. right. split; [done|]. rewrite Hid. by apply Hne.
Qed.

(** What holds of the progress of one row. *)
Definition row_progress (w : World) (r : DbRow) : Prop := forall n, let p := params (hydrate r) in
  counted (r_kind r) = true -> limit (r_kind r) p n ->
  exists c, (c <= n)%nat /\ progress (r_kind r) p = progress_after (r_kind r) p c /\
    (count (r_id r) (oks w) = c + count (r_id r) (lost w) + count (r_id r) (unsaved (stage w)))%nat.

(** The save of the row the tick is at. *)
Lemma save_ok w s row tail g' (new : Log) :
  world_ok w -> copies (stage w) = s :: tail -> id row = id s -> copies g' = tail -> unsaved g' = [] ->
  (forall s a res l, g' <> G_answered s a res l) ->
  new = [] /\ errors row = errors s /\ runs row = runs s \/
  (exists b, new = [(id s, b)] /\ errors row = match b with Some true => 0 | _ => errors s + 1 end /\
     runs row = runs s + (if bool_decide (b <> None) then 1 else 0) /\
     (status row = active -> errors row < MAX_CONSECUTIVE_ERRORS)) ->
  (forall w' r, r ∈ table w -> r_id r = id s -> params (hydrate r) = params s -> r_kind r = kind s -> row_progress w r ->
     oks w' = oks w -> lost w' = lost w -> stage w' = g' -> row_progress w' (saved_row row r)) ->
  forall c, (forall p, c = Some p -> tells p (fun _ g => unsaved g = []) g') -> c <> None ->
  world_ok {| table := save row (table w); current := c; stage := g'; oks := oks w; lost := lost w; touched := touched w;
              log := new ++ log w |}.
Proof.
  intros Hw Hcop Hid Hcop' Hun Hnot Herr Hprog c Hc Hsome.
  destruct (wo_agrees _ Hw s) as (r & Hr & Hrid & Hhyd & Hact & Hst); [rewrite Hcop; left|].
  assert (save row (table w) = update_where (fun y => streq (r_id y) (r_id r)) (saved_row row) (table w)) as Hsave
    by (unfold save; by rewrite Hid, Hrid).
  pose proof (wo_keyed _ Hw) as Hkey. pose proof (wo_copies _ Hw) as Hnd. rewrite Hcop in Hnd. apply NoDup_cons in Hnd as [Hnotin Hnd].
  assert (forall y, y ∈ tail -> id y <> r_id r) as Hne.
  { intros y Hy E. apply Hnotin. rewrite <- Hrid, <- E. by apply list_elem_of_fmap_2. }
  assert (params (hydrate r) = params s /\ r_kind r = kind s /\ r_errors r = errors s /\ r_runs r = runs s) as (Hp & Hk & He & Hrs).
  { rewrite Hhyd. split; [done|]. split; [exact (f_equal kind Hhyd)|]. split; [exact (f_equal errors Hhyd)|exact (f_equal runs Hhyd)]. }
  split; simpl; rewrite ?Hsave.
  - done.
  - done.
  - by apply update_row_keyed.
  - by rewrite Hcop'.
  - rewrite Hcop'. apply (agrees_ne (touched w) tail (table w) r (saved_row row) Hkey Hr (fun _ => eq_refl) Hne).
    intros y Hy. apply (wo_agrees _ Hw). rewrite Hcop. by right.
  - intros s' a res l ->. by destruct (Hnot s' a res l).
  - intros sid Hsid. apply update_row_known; [done..|]. by apply (wo_known _ Hw).
  - intros sid b Hsid. apply update_row_known; [done..|]. apply elem_of_app in Hsid as [Hsid|Hsid]; [|by apply (wo_logged _ Hw sid b)].
    destruct Herr as [[-> _]|(b' & -> & _)]; [by apply elem_of_nil in Hsid|]. apply list_elem_of_singleton in Hsid as [= -> ->].
    by exists r.
  - intros y [->|[Hy Hyne]]%update_row; [| |done..].
    + simpl. destruct Herr as [(-> & -> & _)|(b & -> & -> & _)]; simpl; [rewrite <- He; by apply (wo_errors _ Hw)|].
      rewrite <- Hrid, streq_refl, <- He, (wo_errors _ Hw r Hr). by destruct b as [[]|].
    + rewrite (wo_errors _ Hw y Hy). destruct Herr as [[-> _]|(b & -> & _)]; simpl; [done|].
      rewrite (proj2 (streq_false _ _)); [done|congruence].
  - intros y [->|[Hy Hyne]]%update_row; [| |done..].
    + simpl. destruct Herr as [(-> & _ & ->)|(b & -> & _ & -> & _)]; simpl; [rewrite <- Hrs; by apply (wo_runs _ Hw)|].
      rewrite <- Hrid, streq_refl, <- Hrs, (wo_runs _ Hw r Hr). simpl. lia.
    + rewrite (wo_runs _ Hw y Hy). destruct Herr as [[-> _]|(b & -> & _)]; simpl; [done|].
      rewrite (proj2 (streq_false _ _)); [done|congruence].
  - intros y [->|[Hy _]]%update_row Hnt Hya; [|by apply (wo_breaker _ Hw)|done..]. simpl in *.
    destruct Herr as [(_ & -> & _)|(b & _ & _ & _ & H)]; [|by apply H]. rewrite <- He. apply (wo_breaker _ Hw r Hr Hnt). by destruct Hst.
  - intros y n [->|[Hy Hyne]]%update_row; [| |done..].
    + exact (Hprog {| table := table w; current := c; stage := g'; oks := oks w; lost := lost w; touched := touched w; log := log w |}
        r Hr Hrid Hp Hk (fun m => wo_progress _ Hw r m Hr) eq_refl eq_refl eq_refl n).
    + intros Hcn Hl. destruct (wo_progress _ Hw y n Hy Hcn Hl) as (k & Hk1 & Hk2 & Hk3). exists k. split_and!; [done|done|].
      rewrite Hk3, Hun. f_equal. apply count_notin. intros Hin. apply Hyne.
      rewrite Hrid. unfold unsaved in Hin. destruct (stage w) as [| |l|s0 l|s0 a res l]; try by apply elem_of_nil in Hin.
      simpl in Hcop. injection Hcop as -> ->. destruct (ok res); [|by apply elem_of_nil in Hin].
      by apply list_elem_of_singleton in Hin.
Qed.

(** Reading a row back after its save. *)
Lemma saved_params row r key d : num (params (hydrate (saved_row row r))) key d = num (params row) key d.
Proof. apply num_stringified. Qed.

Lemma saved_setup row r p : same_setup p (params row) -> same_setup p (params (hydrate (saved_row row r))).
Proof. unfold same_setup. by rewrite !saved_params. Qed.

(** A save without an answered swap leaves the progress. *)
Lemma quiet_progress w w' s l r row :
  unsaved (stage w) = [] -> params (hydrate r) = params s -> r_kind r = kind s -> row_progress w r ->
  oks w' = oks w -> lost w' = lost w -> stage w' = G_rows l -> (counted (kind s) = true -> params row = params s) ->
  row_progress w' (saved_row row r).
Proof.
  intros Hst Hp Hk H Ho Hl Hst' Hrow n p Hc Hlim. simpl in Hc. rewrite Hk in Hc. specialize (Hrow Hc).
  assert (same_setup (params s) p) as Hsame by (apply saved_setup; by rewrite Hrow).
  unfold row_progress in H. cbn zeta in H. rewrite Hp, Hk in H. simpl in Hlim. rewrite Hk in Hlim.
  destruct (H n Hc (same_limit _ _ _ _ Hsame Hlim)) as (c & Hcn & Hprog & Hcount). exists c. split; [done|].
  simpl. rewrite Hk, (same_after _ _ _ _ Hsame). split.
  - rewrite <- Hprog. unfold progress, p. by rewrite saved_params, Hrow.
  - rewrite Ho, Hl, Hst', Hcount, Hst. done.
Qed.

(** The save after an answered swap counts it if it succeeded. *)
Lemma swap_progress w w' s a res l r row :
  stage w = G_answered s a res l -> planned s a -> r_id r = id s -> params (hydrate r) = params s -> r_kind r = kind s ->
  row_progress w r -> oks w' = oks w -> lost w' = lost w -> stage w' = G_rows l ->
  (counted (kind s) = true -> params row = if ok res then params (applyProgress s a) else params s) ->
  row_progress w' (saved_row row r).
Proof.
  intros Hst Hplan Hid Hp Hk H Ho Hl Hst' Hrow n p Hc Hlim. simpl in Hc. rewrite Hk in Hc. specialize (Hrow Hc).
  unfold row_progress in H. cbn zeta in H. rewrite Hp, Hk in H. simpl in Hlim. rewrite Hk in Hlim.
  destruct (planned_allows (kind s) (params s) a Hc (Hplan Hc)) as [Hallow Hamount].
  assert (forall q, q = params row -> same_setup (params s) q -> same_setup (params s) p) as Hsame
    by (intros q -> ?; by apply saved_setup).
  assert (count (r_id r) (unsaved (stage w)) = if ok res then 1%nat else 0%nat) as Hun.
  { rewrite Hst. simpl. destruct (ok res); [|done]. unfold count. simpl. by rewrite Hid, streq_refl. }
  destruct (ok res).
  - assert (limit (kind s) (params s) n -> exists c, (c < n)%nat /\ progress (kind s) (params s) = progress_after (kind s) (params s) c /\
      isFinite (progress_after (kind s) (params s) (S c)) = true /\ (count (r_id r) (oks w) = S c + count (r_id r) (lost w))%nat) as Hgo.
    { intros Hlim0. destruct (H n Hc Hlim0) as (c & Hcn & Hprog & Hcount). exists c.
      assert (c <> n) as Hne by (intros ->; destruct Hlim0 as [Hno _]; rewrite <- Hprog in Hno; congruence).
      split_and!; [lia|done| |lia]. apply Hlim0. lia. }
    assert (forall c, progress (kind s) (params s) = progress_after (kind s) (params s) c ->
      isFinite (progress_after (kind s) (params s) (S c)) = true ->
      progress (kind s) (params (applyProgress s a)) = progress_after (kind s) (params s) (S c) /\
      same_setup (params s) (params (applyProgress s a))) as Happ.
    { intros c Hprog Hfin. unfold progress_after in Hfin |- *. simpl in Hfin |- *. fold (progress_after (kind s) (params s) c) in Hfin |- *.
      rewrite <- Hprog in Hfin |- *. by apply applied_progress. }
    assert (same_setup (params s) (params (applyProgress s a))) as Hset.
    { unfold applyProgress, same_setup. destruct (kind s); try done; simpl; by rewrite !num_insert_ne. }
    specialize (Hsame _ (eq_sym Hrow) Hset).
    destruct (Hgo (same_limit _ _ _ _ Hsame Hlim)) as (c & Hcn & Hprog & Hfin & Hcount).
    exists (S c). split; [lia|]. cbn [r_kind r_id saved_row]. rewrite Hk, (same_after _ _ _ _ Hsame). split.
    + destruct (Happ c Hprog Hfin) as [<- _]. unfold progress, p. by rewrite saved_params, Hrow.
    + rewrite Ho, Hl, Hst'. simpl. rewrite Hcount. unfold count at 3. simpl. lia.
  - specialize (Hsame _ (eq_sym Hrow) (same_setup_refl _)).
    destruct (H n Hc (same_limit _ _ _ _ Hsame Hlim)) as (c & Hcn & Hprog & Hcount). exists c. split; [done|].
    simpl. rewrite Hk, (same_after _ _ _ _ Hsame). split.
    + rewrite <- Hprog. unfold progress, p. by rewrite saved_params, Hrow.
    + rewrite Ho, Hl, Hst', Hcount, Hun. done.
Qed.

(** The rows the tick reads. *)
Lemma due_elem now t s : s ∈ due now t -> exists r, r ∈ t /\ s = hydrate r /\ r_status r = active.
Proof.
  unfold due. intros (r & -> & Hr)%list_elem_of_fmap. rewrite merge_sort_Permutation in Hr.
  apply select_elem in Hr as [Hr Hd]. unfold is_due in Hd. bool_hyps. by exists r.
Qed.

Lemma due_nodup now t : keyed r_id t -> NoDup (map id (due now t)).
Proof.
  intros Hkey. unfold due. rewrite map_map.
  assert (map (fun r => id (hydrate r)) (merge_sort earlier (select (is_due now) t)) ≡ₚ map r_id (select (is_due now) t)) as ->
    by (apply (fmap_Permutation r_id), merge_sort_Permutation).
  by apply select_keyed.
Qed.

(** A step that leaves the table, the copies and the counts. *)
Lemma same_ok w c g :
  world_ok w -> copies g = copies (stage w) -> unsaved g = unsaved (stage w) ->
  (forall s a res l, g = G_answered s a res l -> stage w = g) ->
  (forall p, c = Some p -> tells p (fun _ g => unsaved g = []) g) -> (c = None -> g = G_none) ->
  world_ok {| table := table w; current := c; stage := g; oks := oks w; lost := lost w; touched := touched w; log := log w |}.
Proof.
  intros [Hf Hi Hk Hc Ha Hp Hkn Hlg Her Hrn Hb Hpr] Hcop Hun Hans Ht Hidle. split; simpl; rewrite ?Hcop, ?Hun; try done.
  intros s a res l E. apply (Hp s a res l). by rewrite (Hans s a res l E).
Qed.

Lemma swap_ok w s l a key r k :
  world_ok w -> stage w = G_rows (s :: l) -> planned s a ->
  tells (k r) (fun _ g => unsaved g = []) (next_stage (Swap a key) r (stage w)) ->
  world_ok {| table := table w; current := Some (k r); stage := next_stage (Swap a key) r (stage w);
              oks := unsaved (next_stage (Swap a EmptyString) r (stage w)) ++ oks w; lost := lost w; touched := touched w; log := log w |}.
Proof.
  intros Hw Hst Hpl Ht. rewrite Hst in *. destruct r as [e|res]; simpl in *.
  { apply same_ok; simpl; rewrite ?Hst; try done. by intros p [= <-]. }
  destruct Hw as [Hf Hi Hk Hc Ha Hp Hkn Hlg Her Hrn Hb Hpr]. rewrite Hst in *. split; simpl in *; try done.
  - by intros p [= <-].
  - by intros s' a' res' l' [= <- <- <- <-].
  - intros sid Hin. rewrite <- app_assoc in Hin. apply elem_of_app in Hin as [Hin|Hin]; [|by apply Hkn].
    destruct (ok res); [|by apply elem_of_nil in Hin]. apply list_elem_of_singleton in Hin as ->.
    destruct (Ha s (list_elem_of_here _ _)) as (r & Hr & Hid & _). by exists r.
  - intros r n Hr Hcn Hl. destruct (Hpr r n Hr Hcn Hl) as (c & Hc1 & Hc2 & Hc3). exists c. split_and!; [done|done|].
    rewrite count_app, Hc3. unfold count. simpl. lia.
Qed.

Lemma effect_ok w R (e : seff R) k r t :
  world_ok w -> current w = Some (Vis e k) -> sexec e (table w) r t ->
  world_ok {| table := t; current := Some (k r); stage := next_stage e r (stage w);
              oks := succeeded e r (stage w) ++ oks w; lost := lost w; touched := touched w;
              log := logged e (stage w) ++ log w |}.
Proof.
  intros Hw Hcur He. destruct (wo_follows _ Hw _ Hcur) as [Hmay Hk]. specialize (Hk r I).
  assert (forall g p, Some (k r) = Some p -> tells (k r) (fun _ g => unsaved g = []) g -> tells p (fun _ g => unsaved g = []) g) as Hsome
    by (by intros g p [= <-]).
  destruct e as [|now|row|mint|a key|u]; simpl in *.
  - subst t. apply same_ok; try done. intros p Hp. by apply Hsome.
  - destruct He as [-> ->]. destruct Hw as [Hf Hi Hkey Hc Ha Hp Hkn Hlg Her Hrn Hb Hpr]. rewrite Hmay in *. split; simpl in *; try done.
    + intros p Hp'. by apply Hsome.
    + by apply due_nodup.
    + intros s (y & Hy & -> & Hact)%due_elem. exists y. split_and!; [done|done|]. split; [|by auto].
      destruct y. done.
  - destruct (stage w) as [| |[|s l]|s l|s a res l] eqn:Hst; simpl in *; try done; subst t.
    + destruct (quiet_save_facts _ _ Hmay) as (Hid & Hrow & Herr & Hrun).
      apply (save_ok w s row l (G_rows l) []); try done; [by rewrite Hst|by left|..].
      * intros w' y Hy Hyid Hyp Hyk Hpr Ho Hl Hs. apply (quiet_progress w w' s l); try done. by rewrite Hst.
      * intros p Hp. by apply Hsome.
    + destruct (failed_save_facts _ _ Hmay) as (Hid & Hrow & Herr & Hrun & Hmax).
      apply (save_ok w s row l (G_rows l) [(id s, None)]); try done; [by rewrite Hst|right; exists None; split_and!; simpl; [done|done|lia|done]|..].
      * intros w' y Hy Hyid Hyp Hyk Hpr Ho Hl Hs. apply (quiet_progress w w' s l); try done. by rewrite Hst.
      * intros p Hp. by apply Hsome.
    + destruct (swap_save_facts _ _ _ _ Hmay) as (Hid & Hrow & Herr & Hrun & Hmax).
      apply (save_ok w s row l (G_rows l) [(id s, Some (ok res))]); try done; [by rewrite Hst|right; exists (Some (ok res)); split_and!; [done|by destruct (ok res)|done|done]|..].
      * intros w' y Hy Hyid Hyp Hyk Hpr Ho Hl Hs. apply (swap_progress w w' s a res l); try done. by apply (wo_planned _ Hw s a res l).
      * intros p Hp. by apply Hsome.
  - subst t. apply same_ok; try done.
    + by destruct r, (stage w) as [| |[|]| |].
    + by destruct r, (stage w) as [| |[|]| |].
    + intros s a res l. by destruct r, (stage w) as [| |[|]| |].
    + intros p Hp. by apply Hsome.
  - subst t. destruct Hmay as (s & l & Hst & _ & Hpl). by apply (swap_ok w s l a key).
  - subst t. apply same_ok; try done. intros p Hp. by apply Hsome.
Qed.

Lemma status_ok w sid st :
  world_ok w ->
  world_ok {| table := (setStatus sid st (table w)).2; current := current w; stage := stage w; oks := oks w;
              lost := lost w; touched := sid :: touched w; log := log w |}.
Proof.
  intros [Hf Hi Hk Hc Ha Hp Hkn Hlg Her Hrn Hb Hpr]. simpl.
  match goal with |- context [update_where _ ?g (table w)] => set (f := g) end.
  assert (forall y, y ∈ update_where (fun r => streq (r_id r) sid) f (table w) <->
            exists r, r ∈ table w /\ y = if streq (r_id r) sid then f r else r) as Hin.
  { intros y. unfold update_where. rewrite list_elem_of_fmap. split; intros (r & ? & ?); exists r; auto. }
  split; simpl; try done.
  - by apply update_keyed.
  - intros s Hs. destruct (Ha s Hs) as (r & Hr & Hid & Hh & Hact & Hst).
    exists (if streq (r_id r) sid then f r else r). split; [apply Hin; by exists r|].
    destruct (streq (r_id r) sid) eqn:E; bool_hyps; [|split; [done|split; [done|split; [done|]]]].
    + split; [done|]. split; [|split; [done|right; simpl; rewrite E; left]].
      transitivity (with_status st (hydrate r)); [done|]. by rewrite Hh.
    + destruct Hst; [by left|right; by right].
  - intros k Hkin. destruct (Hkn k Hkin) as (r & Hr & Hid). exists (if streq (r_id r) sid then f r else r).
    split; [apply Hin; by exists r|]. by destruct (streq (r_id r) sid).
  - intros k b Hkin. destruct (Hlg k b Hkin) as (r & Hr & Hid). exists (if streq (r_id r) sid then f r else r).
    split; [apply Hin; by exists r|]. by destruct (streq (r_id r) sid).
  - intros y (r & Hr & ->)%Hin. destruct (streq (r_id r) sid); by apply (Her r).
  - intros y (r & Hr & ->)%Hin. destruct (streq (r_id r) sid); by apply (Hrn r).
  - intros y (r & Hr & ->)%Hin. destruct (streq (r_id r) sid) eqn:E; bool_hyps; simpl.
    + intros Hnot. destruct Hnot. rewrite E. left.
    + intros Hnot. apply Hb; [done|]. intros H. apply Hnot. by right.
  - intros y n (r & Hr & ->)%Hin. destruct (streq (r_id r) sid); exact (Hpr r n Hr).
Qed.

Lemma streak_unknown sid l : (forall b, (sid, b) ∉ l) -> streak sid l = 0 /\ answered sid l = 0.
Proof.
  induction l as [|[k b] l IH]; intros H; simpl; [done|]. destruct (streq k sid) eqn:E.
  - bool_hyps. subst. destruct (H b). left.
  - apply IH. intros b' Hb'. apply (H b'). by right.
Qed.

Lemma create_ok w uuid now user k p first row t :
  world_ok w -> create uuid now user k p first (table w) = Some (row, t) ->
  p !! "spentUi" = None -> p !! "doneSlices" = None ->
  world_ok {| table := t; current := current w; stage := stage w; oks := oks w; lost := lost w; touched := touched w; log := log w |}.
Proof.
  intros [Hf Hi Hk Hc Ha Hp Hkn Hlg Her Hrn Hb Hpr] Hcr Hs Hd. unfold create in Hcr. set (new := Build_DbRow _ _ _ _ _ _ _ _ _ _ _) in Hcr.
  assert (insert r_id new (table w) = Some t) as Hins.
  { destruct first; [done|..]; destruct (insert _ _ _) as [t0|]; simplify_eq; done. }
  pose proof (insert_keyed _ _ _ _ Hins Hk) as Hk'. apply insert_Some in Hins as [Hfree ->]. rewrite get_None in Hfree.
  assert (forall sid, (exists y, y ∈ table w /\ r_id y = sid) -> exists y, y ∈ table w ++ [new] /\ r_id y = sid) as Hgrow
    by (intros sid (y & Hy & E); exists y; split; [apply elem_of_app; by left|done]).
  assert (forall b, (r_id new, b) ∉ log w) as Hnone
    by (intros b Hin; destruct (Hlg _ _ Hin) as (y & Hy & E); by apply (Hfree y)).
  assert (forall l, (forall sid, sid ∈ l -> exists y, y ∈ table w /\ r_id y = sid) -> count (r_id new) l = 0%nat) as Hzero.
  { intros l Hl. apply count_notin. intros Hin. destruct (Hl _ Hin) as (y & Hy & E). by apply (Hfree y). }
  split; simpl; try done.
  - intros s Hin. destruct (Ha s Hin) as (y & Hy & ?). exists y. split; [apply elem_of_app; by left|done].
  - intros sid Hin. by apply Hgrow, Hkn.
  - intros sid b Hin. by apply Hgrow, (Hlg sid b).
  - intros y [Hy|Hy%list_elem_of_singleton]%elem_of_app; [by apply Her|]. subst y. simpl.
    exact (eq_sym (proj1 (streak_unknown _ _ Hnone))).
  - intros y [Hy|Hy%list_elem_of_singleton]%elem_of_app; [by apply Hrn|]. subst y. simpl.
    exact (eq_sym (proj2 (streak_unknown _ _ Hnone))).
  - intros y [Hy|Hy%list_elem_of_singleton]%elem_of_app; [by apply Hb|]. by subst y.
  - intros y n [Hy|Hy%list_elem_of_singleton]%elem_of_app; [by apply Hpr|]. subst y. intros Hcn Hl. exists 0%nat.
    split; [lia|]. split.
    + unfold progress, progress_after. simpl. rewrite num_stringified. unfold num.
      destruct k; try done; simpl; by rewrite ?Hs, ?Hd.
    + rewrite !Hzero; [done|..].
      * intros sid Hin. destruct (stage w) as [| |l|s l|s a res l]; simpl in Hin; try by apply elem_of_nil in Hin.
        destruct (ok res); [|by apply elem_of_nil in Hin]. apply list_elem_of_singleton in Hin as ->.
        destruct (Ha s (list_elem_of_here _ _)) as (r & Hr & Hid & _). by exists r.
      * intros sid Hin. apply Hkn, elem_of_app. by right.
      * intros sid Hin. apply Hkn, elem_of_app. by left.
Qed.

Lemma wstep_ok w w' : wstep w w' -> world_ok w -> world_ok w'.
Proof.
  intros Hs Hw. destruct Hs as [Hcur|R e k r t Hcur He|Hcur| |sid st|uuid now user k p first row t Hcr Hs Hd].
  - pose proof (wo_idle _ Hw Hcur) as Hst. apply same_ok; rewrite ?Hst; try done. intros p [= <-]. apply tick_tells.
  - by apply effect_ok.
  - pose proof (wo_follows _ Hw _ Hcur) as Hun. simpl in Hun. destruct Hw as [Hf Hi Hk Hc Ha Hp Hkn Hlg Her Hrn Hb Hpr].
    rewrite Hun in Hpr. split; simpl; try done; [constructor|]. by intros s ?%elem_of_nil.
  - destruct Hw as [Hf Hi Hk Hc Ha Hp Hkn Hlg Her Hrn Hb Hpr]. split; simpl; try done; [constructor|by intros s ?%elem_of_nil|..].
    + intros sid Hin. apply elem_of_app in Hin as [Hin|Hin]; [apply Hkn, elem_of_app; by left|].
      apply elem_of_app in Hin as [Hin|Hin]; [|apply Hkn, elem_of_app; by right].
      destruct (stage w) as [| |l|s l|s a res l]; simpl in Hin; try by apply elem_of_nil in Hin.
      destruct (ok res); [|by apply elem_of_nil in Hin]. apply list_elem_of_singleton in Hin as ->.
      destruct (Ha s (list_elem_of_here _ _)) as (r & Hr & Hid & _). by exists r.
    + intros r n Hr Hcn Hl. destruct (Hpr r n Hr Hcn Hl) as (c & Hc1 & Hc2 & Hc3). exists c. split_and!; [done|done|].
      rewrite count_app, Hc3. unfold count. simpl. lia.
  - by apply status_ok.
  - by apply (create_ok w uuid now user k p first row t).
Qed.

Lemma reached_world w : world_reached w -> world_ok w.
Proof.
  unfold world_reached. intros H. assert (world_ok new_world) as H0.
  { split; simpl; try done; try (intros ? ?%elem_of_nil; done); try apply NoDup_nil_2.
    all: by intros ? ? ?%elem_of_nil. }
  induction H as [|w1 w2 w3 H12 _ IH]; [done|]. by apply IH, (wstep_ok w1).
Qed.
End System.

(** *** The property *)

(** A successful swap that is not saved yet was planned by its row. *)
Lemma unsaved_room w r n :
  world_ok w -> r ∈ table w -> counted (r_kind r) = true -> limit (r_kind r) (params (hydrate r)) n ->
  (count (r_id r) (oks w) <= n + count (r_id r) (lost w))%nat.
Proof.
  intros Hw Hr Hc Hl. destruct (wo_progress _ Hw r n Hr Hc Hl) as (c & Hcn & Hp & ->).
  assert (unsaved (stage w) = [] \/ exists s a res l, stage w = G_answered s a res l /\ unsaved (stage w) = [id s]) as [->|Hcase].
  { unfold unsaved. destruct (stage w) as [| |l|s l|s a res l] eqn:E; auto. destruct (ok res); [right|by left]. by exists s, a, res, l. }
  { unfold count at 2. simpl. lia. }
  destruct Hcase as (s & a & res & l & Hst & ->). destruct (decide (r_id r = id s)) as [Hid|Hne].
  - destruct (wo_agrees _ Hw s) as (r' & Hr' & Hid' & Hh & _); [rewrite Hst; left|].
    assert (r' = r) as -> by (apply (keyed_same r_id (table w)); [apply (wo_keyed _ Hw)|done|done|congruence]).
    assert (params (hydrate r) = params s /\ r_kind r = kind s) as [Hps Hks] by (rewrite Hh; split; [done|exact (f_equal kind Hh)]).
    rewrite Hps, Hks in *. destruct (planned_allows (kind s) (params s) a Hc) as [Hallow _]; [by apply (wo_planned _ Hw s a res l)|].
    assert (c <> n) by (intros ->; destruct Hl as [Hno _]; rewrite <- Hp in Hno; congruence).
    unfold count at 2. simpl. destruct (streq _ _); simpl; lia.
  - rewrite (count_notin _ [id s]); [lia|]. by intros ?%list_elem_of_singleton.
Qed.

(** C36: whatever the operator and crashes do to the strategies, which are created
    without the progress the runner writes (`spentUi`, `doneSlices`): the swaps of a
    DCA or TWAP strategy that succeeded are at most as many as its budget or its
    slices allow (when progress that many swaps long makes the plan stop), plus one
    for each crash between the answer and the save.  Every swap that is offered is
    what the stored row plans, under a key made of its id and the number of its swaps
    that were answered before, so a key is offered again only when no answer to it
    was saved.  A row counts exactly its runs that failed - a price or a swap that threw,
    or a swap that was refused - since its last successful one, and a strategy whose
    status the operator never set is active only while these are fewer than three. *)
Theorem strategies_bounded x w :
  world_reached x w ->
  (forall r n, r ∈ table w -> counted (r_kind r) = true -> limit (r_kind r) (params (hydrate r)) n ->
     (count (r_id r) (oks w) <= n + count (r_id r) (lost w))%nat) /\
  (forall a key k, current w = Some (Vis (Swap a key) k) ->
     exists r, r ∈ table w /\ key = "strat_" +:+ r_id r +:+ "_" +:+ pretty (answered (r_id r) (log w)) /\ (r_status r = active \/ r_id r ∈ touched w) /\
       (r_kind r = dca -> plan_dca (params (hydrate r)) = P_swap a) /\
       (r_kind r = twap -> plan_twap (params (hydrate r)) = P_swap a)) /\
  (forall r, r ∈ table w -> r_errors r = streak (r_id r) (log w) /\
     (r_id r ∉ touched w -> r_status r = active -> streak (r_id r) (log w) < 3)).
Proof.
  intros Hw%reached_world. split_and!; [intros r n; by apply unsaved_room| |].
  2: { intros r Hr. pose proof (wo_errors _ Hw r Hr) as He. rewrite <- He. split; [done|]. by apply (wo_breaker _ Hw). }
  intros a key k Hcur. destruct (wo_follows _ Hw _ Hcur) as [(s & l & Hst & -> & Hpl) _].
  destruct (wo_agrees _ Hw s) as (r & Hr & Hid & Hh & _ & Hact); [rewrite Hst; left|].
  assert (params (hydrate r) = params s /\ r_kind r = kind s /\ r_runs r = runs s) as (Hps & Hks & Hrs).
  { rewrite Hh. split; [done|]. split; [exact (f_equal kind Hh)|exact (f_equal runs Hh)]. }
  rewrite Hid in Hact. exists r. rewrite <- (wo_runs _ Hw r Hr), Hid, Hrs, Hps, Hks. split_and!; try done; intros E; unfold planned in Hpl; rewrite E in Hpl; by apply Hpl.
Qed.

(** *** Witnesses and findings *)

Definition demo_executor : StrategyExecutor := {| has_price := false; has_notify := false |}.

(** Three SOL, one at a time. *)
Definition demo_params : Params :=
  <["token" := P_string "mint"]> (<["amountUiPerStep" := P_number (js_num 1)]> (<["totalBudgetUi" := P_number (js_num 3)]> ∅)).

Definition demo_created : option (StrategyRow * list DbRow) := create "s" 100 7 dca demo_params (js_num 100) [].
Definition demo_table : list DbRow := match demo_created with Some (_, t) => t | None => [] end.
Definition demo_swap : StrategySwap :=
  {| sw_kind := buy; amountUi := js_num 1; inputMint := WSOL_MINT; outputMint := "mint"; sw_slippageBps := None |}.
Definition demo_answer : StrategySwapResult := {| ok := true; text := "done"; sr_signature := None |}.

(** A tick driven to its end by a handler. *)
Section Drive.
Context (x : StrategyExecutor) (h : forall R, seff R -> list DbRow -> R * list DbRow).
Hypothesis (h_exec : forall R (e : seff R) t, sexec e t (h R e t).1 (h R e t).2).

Fixpoint drive (p : prog seff Empty_set unit) (w : World) : World :=
  match p with
  | Vis e k =>
      let r := h _ e (table w) in
      drive (k r.1) {| table := r.2; current := Some (k r.1); stage := next_stage e r.1 (stage w);
                       oks := succeeded e r.1 (stage w) ++ oks w; lost := lost w; touched := touched w;
                       log := logged e (stage w) ++ log w |}
  | _ => w
  end.

Lemma drive_reached p w : current w = Some p -> rtc (wstep x) w (drive p w) /\ touched (drive p w) = touched w.
Proof.
  revert w. induction p as [[]|[]|R e k IH]; intros w Hcur; simpl; [split; [apply rtc_refl|done]|].
  destruct (IH (h R e (table w)).1 {| table := (h R e (table w)).2; current := Some (k (h R e (table w)).1);
    stage := next_stage e (h R e (table w)).1 (stage w); oks := succeeded e (h R e (table w)).1 (stage w) ++ oks w;
    lost := lost w; touched := touched w; log := logged e (stage w) ++ log w |} eq_refl) as [H1 H2].
  split; [|done]. eapply rtc_l; [|exact H1]. by apply (W_effect _ _ _ e k).
Qed.
End Drive.

Definition demo_handler R (e : seff R) : list DbRow -> R * list DbRow :=
  match e in seff R return list DbRow -> R * list DbRow with
  | Now => fun t => (100, t)
  | Due now => fun t => (due now t, t)
  | Save row => fun t => (tt, save row t)
  | Price _ => fun t => (inr None, t)
  | Swap _ _ => fun t => (inr demo_answer, t)
  | Notify _ => fun t => (tt, t)
  end.

Lemma demo_handler_exec R (e : seff R) t : sexec e t (demo_handler R e t).1 (demo_handler R e t).2.
Proof. by destruct e. Qed.

(** The operator created the strategy, and a tick begins. *)
Definition demo_begun : World :=
  {| table := demo_table; current := Some (tick demo_executor); stage := G_due; oks := []; lost := []; touched := []; log := [] |}.

Lemma demo_begun_reached : world_reached demo_executor demo_begun.
Proof.
  eapply rtc_l; [eapply (W_create _ _ "s" 100 7 dca demo_params (js_num 100)); vm_compute; reflexivity|].
  eapply rtc_l; [by apply W_begin|]. apply rtc_refl.
Qed.

Lemma demo_limit : limit dca demo_params 3.
Proof. split; [by vm_compute|]. intros j Hj. do 4 (destruct j as [|j]; [by vm_compute|]). lia. Qed.

Definition demo_ended : World := drive demo_handler (tick demo_executor) demo_begun.

Lemma strategies_bounded_witness :
  world_reached demo_executor demo_ended /\ oks demo_ended = ["s"] /\
  forall r, r ∈ table demo_ended -> r_kind r = dca -> limit dca (params (hydrate r)) 3 ->
    (count (r_id r) (oks demo_ended) <= 3 + count (r_id r) (lost demo_ended))%nat.
Proof.
  assert (world_reached demo_executor demo_ended) as Hw.
  { unfold world_reached. etransitivity; [exact demo_begun_reached|].
    apply (drive_reached demo_executor demo_handler demo_handler_exec (tick demo_executor) demo_begun eq_refl). }
  split; [exact Hw|]. split; [vm_compute; reflexivity|]. intros r Hr Hk Hl.
  destruct (strategies_bounded demo_executor demo_ended Hw) as [H _]. apply H; [exact Hr|rewrite Hk; reflexivity|rewrite Hk; exact Hl].
Defined.

(** The operator pauses the strategy after the tick read it and before its swap is
    answered. *)
Definition demo_paused : World :=
  {| table := (setStatus "s" paused demo_table).2; current := Some (steps demo_executor (due 100 demo_table));
     stage := G_rows (due 100 demo_table); oks := []; lost := []; touched := ["s"]; log := [] |}.

Lemma demo_paused_reached : world_reached demo_executor demo_paused.
Proof.
  unfold world_reached. etransitivity; [exact demo_begun_reached|].
  eapply rtc_l; [apply (W_effect _ _ _ Now (fun now => bind (trigger (Due now)) (steps demo_executor)) 100); reflexivity|].
  eapply rtc_l; [apply (W_effect _ _ _ (Due 100) (steps demo_executor) (due 100 demo_table)); [reflexivity|split; reflexivity]|].
  eapply rtc_l; [apply (W_status _ _ "s" paused)|]. exact (rtc_refl _ _).
Qed.

(** The save that follows makes it active again, with no further step of the operator
    (each would be recorded in [touched]). *)
Lemma pause_overwritten :
  map r_status (table demo_paused) = [paused] /\
  exists w, rtc (wstep demo_executor) demo_paused w /\ touched w = touched demo_paused /\ map r_status (table w) = [active].
Proof.
  split; [by vm_compute|].
  destruct (drive_reached demo_executor demo_handler demo_handler_exec _ demo_paused eq_refl) as [H1 H2].
  eexists. split; [exact H1|]. split; [exact H2|]. by vm_compute.
Qed.

(** A price that is NaN makes the next reading of the peak its default: the trailing
    stop forgets how high the price was. *)
Lemma nan_price_forgets_peak p d : num (stringified (plan_trailing p NaN).1) "peak" d = d.
Proof.
  rewrite num_stringified. unfold plan_trailing. simpl. unfold num at 1. rewrite lookup_insert_eq.
  by destruct (num p "peak" NaN) as [| |q].
Qed.
