(* ===== verification/StrategyExec.v ===== *)
(** `src/strategy/executor.ts`: the executor the composition root mounts, which turns a
    scheduled swap into an intent of the kernel.

    [swap] is an effect tree: the pinned mints, the chain reader and the aggregator
    may answer anything or throw; the gateway never throws ([TradeGateway.execute]).
    The texts of errors and summaries are parameters. *)
From stdpp Require Import pretty.
From Stdlib Require Import QArith.
From S2P Require Import Prelude Table Prog Money Contracts PolicyEngine KernelStore TradeGateway Doubles Strategy.
#[local] Open Scope string_scope.
#[local] Open Scope list_scope.
#[local] Open Scope Z_scope.
#[local] Open Scope prog_scope.

Definition STRATEGY_SOURCE : string := "strategy_runner".
Definition DEFAULT_PRIORITY_FEE_LAMPORTS : Z := 200000.
Definition QUOTE_MINTS : list string := [WSOL_MINT; USDC_MINT; USDT_MINT].

Record JupQuote : Type := {
  q_inAmount : Z; q_outAmount : Z; q_otherAmountThreshold : Z; q_priceImpactPct : number; q_slippageBps : Z;
  q_routeLabel : string; q_contextSlot : option Z; q_raw : string
}.

Record SwapBuild : Type := {
  swapTransactionB64 : string; b_recentBlockhash : string; b_lastValidBlockHeight : Z; prioritizationFeeLamports : number
}.

Record JupiterQuoteArgs : Type := { qa_inputMint : string; qa_outputMint : string; qa_amount : Z; qa_slippageBps : Z }.

(** What the executor asks for. *)
Inductive xeff : Type -> Type :=
  | PinnedMints : xeff (option (list string))
  | GetMintInfo (mint : string) : xeff (string + nat)%type
  | Quote (args : JupiterQuoteArgs) : xeff (string + JupQuote)%type
  | BuildSwap (quote : JupQuote) (wallet : string) (fee : Z) : xeff (string + SwapBuild)%type
  | Execute (intent : TradeIntent) (o : ExecuteOptions) : xeff ExecuteResult.

Record GatewayExecutorDeps : Type := {
  ownerWallet : string; priorityFee : option Z; defaultSlippageBps : option Z;
  error_text : ResultCode -> string; summary_text : StrategySwap -> string; result_text : ExecuteResult -> string
}.

Definition fallible {R} (e : xeff (string + R)%type) : prog xeff string R := let* r := trigger e in raise r.

Section Executor.
Context (d : GatewayExecutorDeps).

Definition provenanceFor (mint : string) : prog xeff string MintProvenance :=
  if includes QUOTE_MINTS mint then Ret user
  else
    let* pinned := trigger PinnedMints in
    Ret (match pinned with Some l => if includes l mint then user else untrusted | None => untrusted end).

Definition decimalsFor (mint : string) : prog xeff string nat :=
  if streq mint WSOL_MINT then Ret SOL_DECIMALS else fallible (GetMintInfo mint).

Definition buildIntent (req : StrategySwap) : prog xeff string TradeIntent :=
  if negb (isFinite (amountUi req)) || not_positive (amountUi req) then Throw "input leg must be positive"
  else
    let* inputDecimals := decimalsFor (inputMint req) in
    match toBaseUnits_number (amountUi req) inputDecimals with
    | None => Throw "invalid amount"
    | Some amount =>
        if amount <=? 0 then Throw "rounds to zero base units"
        else
          let slippageBps := match sw_slippageBps req with
                             | Some s => s
                             | None => match defaultSlippageBps d with Some s => s | None => 100 end end in
          let* quote := fallible (Quote {| qa_inputMint := inputMint req; qa_outputMint := outputMint req;
                                           qa_amount := amount; qa_slippageBps := slippageBps |}) in
          let* build := fallible (BuildSwap quote (ownerWallet d)
                                    (default DEFAULT_PRIORITY_FEE_LAMPORTS (priorityFee d))) in
          let* outputDecimals := decimalsFor (outputMint req) in
          let* inputProvenance := provenanceFor (inputMint req) in
          let* outputProvenance := provenanceFor (outputMint req) in
          Ret {| Contracts.kind := "swap"; source := STRATEGY_SOURCE;
                 input := {| mint := inputMint req; amount := amount; decimals := inputDecimals |};
                 output := {| out_mint := outputMint req; out_decimals := outputDecimals |};
                 Contracts.inputProvenance := inputProvenance; Contracts.outputProvenance := outputProvenance;
                 unsignedTxBase64 := swapTransactionB64 build; recentBlockhash := b_recentBlockhash build;
                 lastValidBlockHeight := b_lastValidBlockHeight build; landMode := self_rpc; landHandle := None;
                 priorityFeeLamports := prioritizationFeeLamports build;
                 Contracts.quote := {| inAmount := q_inAmount quote; outAmount := q_outAmount quote;
                   minOutAmount := q_otherAmountThreshold quote; priceImpactPct := q_priceImpactPct quote;
                   routeLabel := q_routeLabel quote; slippage_bps := q_slippageBps quote;
                   contextSlot := q_contextSlot quote |};
                 perp := None; summary := summary_text d req |}
    end.

(** What `swap` makes of the gateway's result. *)
Definition swap_result (r : ExecuteResult) : StrategySwapResult :=
  match res_error r with
  | Some c => {| ok := false; text := error_text d c; sr_signature := None |}
  | None => {| ok := bool_decide (res_state r = confirmed) || res_simulated r; text := result_text d r;
               sr_signature := res_signature r |}
  end.

(** `{ idempotencyKey }`: neither a dry run nor confirmed by a user. *)
Definition key_only (key : string) : ExecuteOptions := {| idempotencyKey := key; dryRun := false; confirmedByUser := false |}.

(** `swap` *)
Definition swap (req : StrategySwap) (key : string) : prog xeff Empty_set StrategySwapResult :=
  catch (
    let* intent := buildIntent req in
    let* r := trigger (Execute intent (key_only key)) in
    Ret (swap_result r))
  (fun e => Ret {| ok := false; text := e; sr_signature := None |}).
End Executor.

(** *** Properties *)

(** A mint that is neither a quote asset nor pinned. *)
Definition unpinned (pinned : option (list string)) (mint : string) : Prop :=
  mint ∉ QUOTE_MINTS /\ forall l, pinned = Some l -> mint ∉ l.

(** What the intents of the executor look like. *)
Definition strategy_intent (pinned : option (list string)) (req : StrategySwap) (i : TradeIntent) : Prop :=
  Contracts.kind i = "swap" /\ source i = STRATEGY_SOURCE /\ mint (input i) = inputMint req /\
  out_mint (output i) = outputMint req /\ 0 < amount (input i) /\
  toBaseUnits_number (amountUi req) (decimals (input i)) = Some (amount (input i)) /\ perp i = None /\
  (Contracts.inputProvenance i = untrusted <-> unpinned pinned (inputMint req)) /\
  (Contracts.outputProvenance i = untrusted <-> unpinned pinned (outputMint req)).

(** The answers of a run in which the operator's pinned mints are [pinned]. *)
Definition pins (pinned : option (list string)) R (e : xeff R) : R -> Prop :=
  match e in xeff R return R -> Prop with PinnedMints => fun r => r = pinned | _ => fun _ => True end.

(** At most one intent per swap, of the form above and with the swap's key only. *)
Definition offers (pinned : option (list string)) (req : StrategySwap) (key : string) R (e : xeff R) (n : nat) : Prop :=
  match e with Execute i o => n = O /\ strategy_intent pinned req i /\ o = key_only key | _ => True end.

Definition count_execute R (e : xeff R) (_ : R) (n : nat) : nat := match e with Execute _ _ => S n | _ => n end.

Section Offers.
Context (d : GatewayExecutorDeps) (pinned : option (list string)) (req : StrategySwap) (key : string).

Lemma provenance_offers mint (Q : string + MintProvenance -> nat -> Prop) n :
  (forall v, (v = untrusted <-> unpinned pinned mint) -> Q (inr v) n) ->
  ensures (offers pinned req key) (pins pinned) count_execute (provenanceFor mint) Q n.
Proof.
  intros H. unfold provenanceFor, unpinned in *. destruct (includes QUOTE_MINTS mint) eqn:Eq; bool_hyps; simpl.
  - apply H. split; [done|]. by intros [? _].
  - split; [done|]. intros r ->. apply H. destruct pinned as [l|]; [|split; [|done]; split; [done|by intros ?]].
    destruct (includes l mint) eqn:E; bool_hyps; split; try done.
    + intros [_ Hn]. by destruct (Hn l eq_refl).
    + intros _. split; [done|]. by intros l' [= <-].
Qed.

Lemma decimals_offers mint (Q : string + nat -> nat -> Prop) n :
  (forall r, Q r n) -> ensures (offers pinned req key) (pins pinned) count_execute (decimalsFor mint) Q n.
Proof.
  intros H. unfold decimalsFor. destruct (streq _ _); simpl; [done|]. split; [done|]. intros [e|v] _; simpl; apply H.
Qed.

Lemma buildIntent_offers n :
  ensures (offers pinned req key) (pins pinned) count_execute (buildIntent d req)
    (fun r n' => n' = n /\ forall i, r = inr i -> strategy_intent pinned req i) n.
Proof.
  unfold buildIntent. destruct (_ || _); simpl; [done|]. apply ensures_bind, decimals_offers.
  intros [e|dec]; simpl; [done|]. destruct (toBaseUnits_number _ dec) as [amount|] eqn:Ea; simpl; [|done].
  destruct (amount <=? 0) eqn:Epos; simpl; [done|]. bool_hyps. split; [done|]. intros [e|quote] _; simpl; [done|].
  split; [done|]. intros [e|build] _; simpl; [done|]. apply ensures_bind, decimals_offers. intros [e|odec]; simpl; [done|].
  apply ensures_bind, provenance_offers. intros v1 H1. apply ensures_bind, provenance_offers. intros v2 H2. simpl.
  split; [done|]. intros i [= <-]. unfold strategy_intent. simpl. by split_and!.
Qed.
End Offers.

(** An intent with an untrusted mint that no user confirmed asks the gateway's
    environment for no simulation, no signature and no broadcast. *)
Definition harmless R (e : geff R) : bool :=
  match e with Simulate _ | Sign _ | Broadcast _ _ _ | Reserve _ | InsertTrade _ _ => false | _ => true end.

Lemma unpinned_harmless deps i o :
  (Contracts.inputProvenance i = untrusted \/ Contracts.outputProvenance i = untrusted) -> confirmedByUser o = false ->
  dryRun o = false -> only harmless (execute deps i o).
Proof.
  intros Hun Hc Hd. unfold execute. rewrite Hd. unfold live. simpl. split; [done|]. intros now. split; [done|]. intros tid.
  split; [done|]. intros [|]; simpl; [|split; [done|]; by intros prior].
  split; [done|]. intros p. destruct (staticGuards p i _) as [c|] eqn:E.
  - simpl. repeat (split; [done|]; intros ?). done.
  - exfalso. unfold staticGuards in E. rewrite !and_then_None in E. destruct E as (_ & _ & _ & _ & _ & _ & Hp & _).
    apply provenanceGuard_None in Hp as [[H1 H2]|H]; [by destruct Hun|]. simpl in H. congruence.
Qed.

(** Whatever the chain reader and the aggregator answer, a scheduled swap offers
    the gateway at most one intent: a swap of a positive amount, the requested one in
    base units, under the swap's key and without a user's confirmation.  Its mints
    are trusted only when they are quote assets or pinned by the operator, so a swap
    of any other mint passes through the gateway without a simulation, a
    reservation, a trade row, a signature or a broadcast. *)
Theorem strategy_swaps_guarded d pinned req key l q :
  traces (swap d req key) l q -> expected (pins pinned) l ->
  (forall l1 i o r l2, l = l1 ++ Event (Execute i o) r :: l2 ->
     strategy_intent pinned req i /\ o = key_only key /\
     (forall j p s, Event (Execute j p) s ∉ l1) /\
     (unpinned pinned (inputMint req) \/ unpinned pinned (outputMint req) ->
      forall deps, only harmless (execute deps i o))).
Proof.
  intros Ht Hl l1 i o r l2 ->.
  assert (follows (offers pinned req key) (pins pinned) count_execute (swap d req key) O) as Hf.
  { apply (ensures_follows _ _ _ _ (fun _ _ => True)). unfold swap. apply ensures_catch, ensures_bind.
    eapply ensures_mono; [apply buildIntent_offers|]. intros [e|j] n [-> H]; simpl; [done|]. split; [|done]. auto. }
  apply Forall_app in Hl as [Hl1 _].
  pose proof (follows_allowed _ _ _ _ _ _ _ _ _ Hf Ht Hl1) as (Hn & Hi & ->). split; [done|]. split; [done|]. split.
  - intros j p s Hin. clear -Hn Hin.
    assert (forall l n, n <= ghost_after count_execute l n)%nat as Hmono.
    { intros l. induction l as [|[R e r'] l IH]; intros n; simpl; [done|]. etransitivity; [|apply IH]. destruct e; simpl; lia. }
    revert Hn. generalize O at 1. induction l1 as [|ev l1 IH]; intros n Hn; [by apply elem_of_nil in Hin|].
    apply elem_of_cons in Hin as [<-|Hin]; simpl in Hn.
    + pose proof (Hmono l1 (S n)). lia.
    + destruct ev as [R e r']. by apply (IH Hin (count_execute R e r' n)).
  - intros Hun deps. destruct Hi as (_ & _ & _ & _ & _ & _ & _ & Hin & Hout).
    apply unpinned_harmless; [|done|done]. destruct Hun; [left; by apply Hin|right; by apply Hout].
Qed.

(** *** Witness and findings *)

Definition demo_deps : GatewayExecutorDeps :=
  {| ownerWallet := "owner"; priorityFee := None; defaultSlippageBps := None; error_text := fun _ => "error";
     summary_text := fun _ => "buy"; result_text := fun _ => "done" |}.

Definition demo_buy : StrategySwap :=
  {| sw_kind := buy; amountUi := Finite (1 # 2); inputMint := WSOL_MINT; outputMint := "mint"; sw_slippageBps := None |}.

Definition demo_answers R (e : xeff R) (u : unit) : R * unit :=
  (match e in xeff R return R with
   | PinnedMints => None
   | GetMintInfo _ => inr 6%nat
   | Quote args => inr {| q_inAmount := qa_amount args; q_outAmount := 100; q_otherAmountThreshold := 99; q_priceImpactPct := js_num 0;
                          q_slippageBps := qa_slippageBps args; q_routeLabel := "route"; q_contextSlot := None; q_raw := "" |}
   | BuildSwap _ _ fee => inr {| swapTransactionB64 := "tx"; b_recentBlockhash := "hash"; b_lastValidBlockHeight := 9;
                                 prioritizationFeeLamports := js_num fee |}
   | Execute i o => duplicate_result "trade" None
   end, u).

Definition demo_trace : list (event xeff) := run_trace demo_answers (swap demo_deps demo_buy "strat_s_0") tt.

Lemma strategy_swaps_guarded_witness :
  exists l1 i o r, demo_trace = l1 ++ [Event (Execute i o) r] /\ amount (input i) = 500000000 /\
    forall deps, only harmless (execute deps i o).
Proof.
  eexists [_; _; _; _], _, _, _. split; [reflexivity|]. split; [reflexivity|].
  destruct (strategy_swaps_guarded demo_deps None demo_buy "strat_s_0" demo_trace _
    (run_traces demo_answers (swap demo_deps demo_buy "strat_s_0") tt)
    ltac:(repeat (apply List.Forall_cons; [vm_compute; try reflexivity; exact I|]); apply List.Forall_nil)
    [_; _; _; _] _ _ _ [] eq_refl) as (_ & _ & _ & H).
  apply H. right. split; [|intros l; discriminate]. vm_compute. intros Hin. repeat (apply elem_of_cons in Hin as [Hin|Hin]; [discriminate|]).
  by apply elem_of_nil in Hin.
Defined.

(** A key the gateway knows, as after a crash between the swap and the save, is never
    answered with success: the trade of the first run is not counted. *)
Lemma replay_not_counted d tradeId prior : ok (swap_result d (duplicate_result tradeId prior)) = false.
Proof. by destruct prior. Qed.

(** Nor is a confirmed trade whose fill fell short, although it spent its input. *)
Lemma shortfall_not_counted d r :
  res_state r = confirmed -> res_error r = Some (Guard SETTLE_SHORTFALL) -> ok (swap_result d r) = false.
Proof. intros _ H. unfold swap_result. by rewrite H. Qed.
