(* ===== verification/Console.v ===== *)
(** The control plane: `src/control/auth.ts` (tokens, sessions, cookies),
    `src/control/policy.ts` (the live policy) and the routes of `src/control/index.ts`.

    A handler is a function of the request, the clock and a fresh random id; the clock
    reads the same while it runs.  The web framework's own checks, the headers that are
    the same on every response, the pages and the contents of a snapshot are left out. *)
From Stdlib Require Import Ascii.
From stdpp Require Import pretty.
From S2P Require Import Prelude Table Canonical Money Contracts Schedule Strategy.
#[local] Open Scope string_scope.
#[local] Open Scope list_scope.
#[local] Open Scope Z_scope.
#[local] Open Scope result_scope.

(** *** A JavaScript Map, in the order of insertion *)

Section Map.
Context {V : Type}.

Definition map_get (k : string) (m : list (string * V)) : option V := snd <$> List.find (fun x => streq x.1 k) m.

Definition map_delete (k : string) (m : list (string * V)) : list (string * V) := List.filter (fun x => negb (streq x.1 k)) m.

Definition map_set (k : string) (v : V) (m : list (string * V)) : list (string * V) :=
  if existsb (fun x => streq x.1 k) m then map (fun x => if streq x.1 k then (k, v) else x) m else m ++ [(k, v)].
End Map.

(** *** `auth.ts` *)

Definition SESSION_COOKIE : string := "ari_session".
Definition DEFAULT_TTL_MS : Z := 12 * 60 * 60 * 1000.
Definition MAX_SESSIONS : nat := 64.

Record ControlAuthOptions : Type := {
  bearerToken : option string; bearerTokenSha256 : option string; op_scopes : list string; sessionTtlMs : option Z;
  op_secureCookies : option bool
}.

(** What the object keeps; a digest is its text in lower-case hexadecimal. *)
Record ControlAuth : Type := { expected : option string; scopes : list string; ttl : Z; secureCookies : bool }.

Definition is_hex (c : ascii) : bool :=
  is_digit c || ((97 <=? nat_of_ascii c)%nat && (nat_of_ascii c <=? 102)%nat).

(** `toLowerCase()` *)
Definition lower (c : ascii) : ascii :=
  if (65 <=? nat_of_ascii c)%nat && (nat_of_ascii c <=? 90)%nat then ascii_of_nat (nat_of_ascii c + 32) else c.

Definition toLowerCase (s : string) : string := String.string_of_list_ascii (map lower (String.list_ascii_of_string s)).

(** `Buffer.from(s, "hex")` stops before the first pair that is none. *)
Fixpoint hex_prefix (s : string) : string :=
  match s with
  | String a (String b s') => if is_hex a && is_hex b then String a (String b (hex_prefix s')) else ""
  | _ => ""
  end.

(** `s.indexOf(c)`, the text before it and after it. *)
Fixpoint cut_at (c : ascii) (l : list ascii) : option (list ascii * list ascii) :=
  match l with
  | [] => None
  | x :: l' => if Ascii.eqb x c then Some ([], l') else (fun p => (x :: p.1, p.2)) <$> cut_at c l'
  end.

Definition hex_value (c : ascii) : Z :=
  let n := Z.of_nat (nat_of_ascii (lower c)) in if n <=? 57 then n - 48 else n - 87.

(** The byte `%ab` stands for. *)
Definition escaped (a b : ascii) : result Z :=
  check negb (is_hex (lower a) && is_hex (lower b)) else "URIError";
  inr (hex_value a * 16 + hex_value b).

(** A byte that continues a character of UTF-8; the one after the first byte [x]
    excludes long forms, surrogates and what is past the last character. *)
Definition continues (p a b : ascii) : result Z :=
  check negb (Ascii.eqb p "%"%char) else "URIError";
  let? y := escaped a b in
  check (y <? 128) || (191 <? y) else "URIError";
  inr y.

Definition second (x : Z) (p a b : ascii) : result Z :=
  let? y := continues p a b in
  check ((x =? 224) && (y <? 160)) || ((x =? 237) && (159 <? y)) || ((x =? 240) && (y <? 144)) ||
        ((x =? 244) && (143 <? y)) else "URIError";
  inr y.

Definition byte_char (z : Z) : ascii := ascii_of_nat (Z.to_nat z).

(** `decodeURIComponent`, a text being its UTF-8 bytes: each run of escaped bytes is
    a character of one to four bytes. *)
Fixpoint decodeURIComponent (l : list ascii) : result (list ascii) :=
  match l with
  | [] => inr []
  | c :: l' =>
      if negb (Ascii.eqb c "%"%char) then let? rest := decodeURIComponent l' in inr (c :: rest)
      else
        match l' with
        | a :: b :: l1 =>
            let? x := escaped a b in
            if x <? 128 then let? rest := decodeURIComponent l1 in inr (byte_char x :: rest)
            else if (x <? 194) || (244 <? x) then inl "URIError"
            else match l1 with
            | p1 :: a1 :: b1 :: l2 =>
                let? y := second x p1 a1 b1 in
                if x <? 224 then let? rest := decodeURIComponent l2 in inr (map byte_char [x; y] ++ rest)
                else match l2 with
                | p2 :: a2 :: b2 :: l3 =>
                    let? z := continues p2 a2 b2 in
                    if x <? 240 then let? rest := decodeURIComponent l3 in inr (map byte_char [x; y; z] ++ rest)
                    else match l3 with
                    | p3 :: a3 :: b3 :: l4 =>
                        let? w := continues p3 a3 b3 in
                        let? rest := decodeURIComponent l4 in inr (map byte_char [x; y; z; w] ++ rest)
                    | _ => inl "URIError"
                    end
                | _ => inl "URIError"
                end
            | _ => inl "URIError"
            end
        | _ => inl "URIError"
        end
  end.

Example decodes_characters :
  map (fun s => match decodeURIComponent (String.list_ascii_of_string s) with
                | inr l => map nat_of_ascii l | inl _ => [] end)
    ["a%20b"; "%C3%A9"; "%e2%82%ac"; "%F0%9F%98%80"; "%C3"; "%C3%28"; "%C0%AF"; "%ED%A0%80"; "%2"] =
  [[97; 32; 98]; [195; 169]; [226; 130; 172]; [240; 159; 152; 128]; []; []; []; []; []]%nat.
Proof. vm_compute. reflexivity. Qed.

(** The loop over the parts of the header. *)
Fixpoint cookie_in (parts : list (list ascii)) (name : string) : result (option string) :=
  match parts with
  | [] => inr None
  | part :: parts' =>
      match cut_at "="%char part with
      | None => cookie_in parts' name
      | Some (k, v) =>
          if negb (streq (String.string_of_list_ascii (trim k)) name) then cookie_in parts' name
          else let? s := decodeURIComponent (trim v) in inr (Some (String.string_of_list_ascii s))
      end
  end.

Definition readCookie (header : option string) (name : string) : result (option string) :=
  match truthy header with
  | None => inr None
  | Some h => cookie_in (split_on ";"%char (String.list_ascii_of_string h)) name
  end.

(** Live sessions: the digest of the id and when it expires. *)
Definition Sessions : Type := list (string * Z).

(** `#prune` *)
Definition prune (now : Z) (m : Sessions) : Sessions := List.filter (fun x => negb (x.2 <=? now)) m.

(** The first of the entries that expire soonest. *)
Fixpoint oldest (m : Sessions) : option (string * Z) :=
  match m with
  | [] => None
  | x :: m' => match oldest m' with Some y => Some (if x.2 <=? y.2 then x else y) | None => Some x end
  end.

Section Auth.
Context (sha256 : string -> string).

(** The constructor. *)
Definition control_auth (o : ControlAuthOptions) : ControlAuth :=
  {| expected := match truthy (bearerTokenSha256 o) with
                 | Some h => Some (hex_prefix (toLowerCase h))
                 | None => sha256 <$> truthy (bearerToken o)
                 end;
     scopes := op_scopes o; ttl := default DEFAULT_TTL_MS (sessionTtlMs o);
     secureCookies := default false (op_secureCookies o) |}.

Context (a : ControlAuth).

Definition configured : bool := match expected a with Some _ => true | None => false end.

Definition hasScope (scope : string) : bool := includes (scopes a) scope || includes (scopes a) "agent:admin".

Definition verifyToken (token : string) : bool :=
  match expected a with Some e => negb (streq token "") && streq (sha256 token) e | None => false end.

Definition verifyAuthorizationHeader (header : option string) : bool :=
  match truthy header with
  | None => false
  | Some h =>
      if String.prefix "Bearer " h
      then verifyToken (String.string_of_list_ascii (trim (drop 7 (String.list_ascii_of_string h))))
      else false
  end.

(** `createSession`; [id] is the random id. *)
Definition createSession (id : string) (now : Z) (m : Sessions) : Z * Sessions :=
  let m1 := prune now m in
  let m2 := if (MAX_SESSIONS <=? length m1)%nat
            then match oldest m1 with Some x => map_delete x.1 m1 | None => m1 end
            else m1 in
  (now + ttl a, map_set (sha256 id) (now + ttl a) m2).

Definition verifySession (id : option string) (now : Z) (m : Sessions) : bool * Sessions :=
  match truthy id with
  | None => (false, m)
  | Some i =>
      match map_get (sha256 i) m with
      | None => (false, m)
      | Some e => if e <=? now then (false, map_delete (sha256 i) m) else (true, m)
      end
  end.

Definition revokeSession (id : option string) (m : Sessions) : Sessions :=
  match truthy id with Some i => map_delete (sha256 i) m | None => m end.

Definition join (sep : string) (l : list string) : string := String.concat sep l.

Definition cookie (id : string) (secure : bool) : string :=
  join "; " ([(SESSION_COOKIE ++ "=" ++ id)%string; "Path=/"; "HttpOnly"; "SameSite=Strict";
              ("Max-Age=" ++ pretty (ttl a / 1000))%string] ++ if secure || secureCookies a then ["Secure"] else []).

Definition clearedCookie (secure : bool) : string :=
  join "; " ([(SESSION_COOKIE ++ "=")%string; "Path=/"; "HttpOnly"; "SameSite=Strict"; "Max-Age=0"] ++
             if secure || secureCookies a then ["Secure"] else []).
End Auth.

(** *** `policy.ts` *)

Record PolicyController : Type := { pc_policy : PolicyConfig; pc_enforced : bool; pc_canArm : bool }.

(** The constructor. *)
Definition policy_controller (initial : PolicyConfig) (canArm : option bool) : PolicyController :=
  {| pc_policy := initial; pc_enforced := false; pc_canArm := default (executionEnabled initial) canArm |}.

Definition markEnforced (p : PolicyController) : PolicyController :=
  {| pc_policy := pc_policy p; pc_enforced := true; pc_canArm := pc_canArm p |}.

(** `{ ...policy, executionEnabled, killSwitch }` *)
Definition with_flags (enabled engaged : bool) (p : PolicyConfig) : PolicyConfig :=
  {| executionEnabled := enabled; killSwitch := engaged; maxSlippageBps := maxSlippageBps p; capsSol := capsSol p;
     capsUsdc := capsUsdc p; mintAllowlist := mintAllowlist p; mintDenylist := mintDenylist p;
     allowToken2022 := allowToken2022 p; priorityFeeMaxLamports := priorityFeeMaxLamports p;
     priorityFeeMaxBps := priorityFeeMaxBps p |}.

Definition set_policy (x : PolicyConfig) (p : PolicyController) : PolicyController :=
  {| pc_policy := x; pc_enforced := pc_enforced p; pc_canArm := pc_canArm p |}.

Definition requireEnforced (p : PolicyController) : result unit := throw_on (negb (pc_enforced p)) "POLICY_NOT_ENFORCED".

Definition setKillSwitch (engaged : bool) (p : PolicyController) : result PolicyController :=
  let? _u := if engaged then inr tt else requireEnforced p in
  inr (set_policy (with_flags (executionEnabled (pc_policy p)) engaged (pc_policy p)) p).

Definition setExecutionEnabled (enabled : bool) (p : PolicyController) : result PolicyController :=
  let? _u := if enabled then let? _v := requireEnforced p in throw_on (negb (pc_canArm p)) "EXECUTION_NOT_PERMITTED"
             else inr tt in
  inr (set_policy (with_flags enabled (killSwitch (pc_policy p)) (pc_policy p)) p).

(** *** Requests and replies *)

Record HttpRequest : Type := {
  authorization : option string; cookies : option string; contentType : option string; origin : option string;
  host : option string; secFetchSite : option string; https : bool; ip : option string; req_body : option value
}.

Inductive Route : Type :=
  | PostSession | DeleteSession | GetSession | GetSnapshot | GetSources | GetStream
  | PostDecide (approval : string) | PostKillSwitch | PostExecution | PostStrategyStatus (strategy : string) | GetShell.

#[export] Instance Route_eq_dec : EqDecision Route.
Proof. solve_decision. Defined.

Inductive Reply : Type :=
  | Failed (status : Z) (code : string)
  | SignedIn (set_cookie : string) (expiresAt : Z) (granted : list string)
  | SignedOut (set_cookie : string)
  | SessionInfo (isConfigured isAuthenticated : bool) (granted : list string)
  | SnapshotSent | SourcesSent | StreamOpened
  | PolicyIs (enabled engaged enforced : bool)
  | StrategyIs (strategy : string) (st : StrategyStatus) (row : option StrategyRow)
  | ShellSent | ToLogin
  (** a handler that threw *)
  | Threw (message : string).

(** The sign-in attempts of an address: their number and when the window began. *)
Definition Attempts : Type := list (string * (Z * Z)).

Record ControlPlane : Type := {
  sessions : Sessions; attempts : Attempts; policy : PolicyController; strategies : option (list DbRow); streams : nat
}.

Definition set_sessions (m : Sessions) (c : ControlPlane) : ControlPlane :=
  {| sessions := m; attempts := attempts c; policy := policy c; strategies := strategies c; streams := streams c |}.

Definition set_attempts (m : Attempts) (c : ControlPlane) : ControlPlane :=
  {| sessions := sessions c; attempts := m; policy := policy c; strategies := strategies c; streams := streams c |}.

Definition set_controller (p : PolicyController) (c : ControlPlane) : ControlPlane :=
  {| sessions := sessions c; attempts := attempts c; policy := p; strategies := strategies c; streams := streams c |}.

Definition set_strategies (t : list DbRow) (c : ControlPlane) : ControlPlane :=
  {| sessions := sessions c; attempts := attempts c; policy := policy c; strategies := Some t; streams := streams c |}.

Definition set_streams (n : nat) (c : ControlPlane) : ControlPlane :=
  {| sessions := sessions c; attempts := attempts c; policy := policy c; strategies := strategies c; streams := n |}.

Definition SCOPE_READ : string := "agent:read".
Definition SCOPE_POLICY : string := "trading:execute".
Definition SCOPE_APPROVE : string := "trading:approve".
Definition MAX_STREAMS : nat := 8.
Definition SESSION_ATTEMPT_WINDOW_MS : Z := 60000.
Definition SESSION_ATTEMPT_MAX : Z := 10.

(** `body(req)[field]` *)
Definition field_of (r : HttpRequest) (name : string) : option value :=
  match req_body r with
  | Some (V_object fields) => snd <$> List.find (fun x => streq x.1 name) fields
  | _ => None
  end.

Definition status_of (v : option value) : option StrategyStatus :=
  match v with
  | Some (V_string s) =>
      if streq s "active" then Some active else if streq s "paused" then Some paused
      else if streq s "done" then Some done else if streq s "errored" then Some errored else None
  | _ => None
  end.

Section Routes.
Context (sha256 : string -> string) (url_host : string -> option string) (a : ControlAuth).

(** An `Origin` of this host; [url_host] is the host of a URL, if the text is one. *)
Definition origin_matches (r : HttpRequest) : bool :=
  match truthy (origin r) with
  | None => true
  | Some o => match url_host o with Some h => bool_decide (host r = Some h) | None => false end
  end.

Definition isSameOrigin (r : HttpRequest) : bool :=
  match truthy (secFetchSite r) with
  | Some site => if negb (streq site "same-origin") && negb (streq site "none") then false else origin_matches r
  | None => origin_matches r
  end.

(** `authenticated` *)
Definition authenticated (r : HttpRequest) (now : Z) (c : ControlPlane) : result bool * ControlPlane :=
  if negb (configured a) then (inr false, c)
  else if verifyAuthorizationHeader sha256 a (authorization r) then (inr true, c)
  else
    match readCookie (cookies r) SESSION_COOKIE with
    | inl e => (inl e, c)
    | inr id => let '(ok, m) := verifySession sha256 id now (sessions c) in (inr ok, set_sessions m c)
    end.

(** `guard`: the refusal, if any. *)
Definition guard (r : HttpRequest) (scope : string) (now : Z) (c : ControlPlane) : option Reply * ControlPlane :=
  if negb (configured a) then (Some (Failed 401 "AUTH_NOT_CONFIGURED"), c)
  else
    match authenticated r now c with
    | (inl e, c') => (Some (Threw e), c')
    | (inr false, c') => (Some (Failed 401 "UNAUTHORIZED"), c')
    | (inr true, c') => if negb (hasScope a scope) then (Some (Failed 403 "FORBIDDEN"), c') else (None, c')
    end.

(** `writable` *)
Definition writable (r : HttpRequest) : option Reply :=
  if negb (String.prefix "application/json" (toLowerCase (default "" (contentType r))))
  then Some (Failed 415 "UNSUPPORTED_MEDIA_TYPE")
  else if negb (isSameOrigin r) then Some (Failed 403 "CROSS_ORIGIN")
  else None.

(** What the window of an address becomes with one more attempt. *)
Definition next_attempt (address : string) (now : Z) (m : Attempts) : Z * Z :=
  match map_get address m with
  | Some (n, start) => if SESSION_ATTEMPT_WINDOW_MS <=? now - start then (1, now) else (n + 1, start)
  | None => (1, now)
  end.

Definition post_session (r : HttpRequest) (now : Z) (fresh : string) (c : ControlPlane) : Reply * ControlPlane :=
  match writable r with
  | Some reply => (reply, c)
  | None =>
      if negb (configured a) then (Failed 401 "AUTH_NOT_CONFIGURED", c)
      else
        let address := default "unknown" (ip r) in
        let window := next_attempt address now (attempts c) in
        let c1 := set_attempts (map_set address window (attempts c)) c in
        if SESSION_ATTEMPT_MAX <? window.1 then (Failed 429 "RATE_LIMITED", c1)
        else
          match field_of r "token" with
          | Some (V_string token) =>
              if verifyToken sha256 a token
              then
                let c2 := set_attempts (map_delete address (attempts c1)) c1 in
                let '(expiresAt, m) := createSession sha256 a fresh now (sessions c2) in
                (SignedIn (cookie a fresh (https r)) expiresAt (scopes a), set_sessions m c2)
              else (Failed 401 "UNAUTHORIZED", c1)
          | _ => (Failed 401 "UNAUTHORIZED", c1)
          end
  end.

Definition delete_session (r : HttpRequest) (c : ControlPlane) : Reply * ControlPlane :=
  match readCookie (cookies r) SESSION_COOKIE with
  | inl e => (Threw e, c)
  | inr id => (SignedOut (clearedCookie a (https r)), set_sessions (revokeSession sha256 id (sessions c)) c)
  end.

Definition get_session (r : HttpRequest) (now : Z) (c : ControlPlane) : Reply * ControlPlane :=
  match authenticated r now c with
  | (inl e, c') => (Threw e, c')
  | (inr ok, c') => (SessionInfo (configured a) ok (if ok then scopes a else []), c')
  end.

(** A read behind the guard. *)
Definition get_guarded (reply : ControlPlane -> Reply * ControlPlane) (r : HttpRequest) (now : Z) (c : ControlPlane) :
    Reply * ControlPlane :=
  match guard r SCOPE_READ now c with (Some refusal, c') => (refusal, c') | (None, c') => reply c' end.

Definition open_stream (c : ControlPlane) : Reply * ControlPlane :=
  if (MAX_STREAMS <=? streams c)%nat then (Failed 503 "TOO_MANY_STREAMS", c)
  else (StreamOpened, set_streams (S (streams c)) c).

(** A write behind the guard, which comes first. *)
Definition post_guarded (scope : string) (write : ControlPlane -> Reply * ControlPlane) (r : HttpRequest) (now : Z)
    (c : ControlPlane) : Reply * ControlPlane :=
  match guard r scope now c with
  | (Some refusal, c') => (refusal, c')
  | (None, c') => match writable r with Some refusal => (refusal, c') | None => write c' end
  end.

Definition decide_write (r : HttpRequest) (c : ControlPlane) : Reply * ControlPlane :=
  match field_of r "decision" with
  | Some (V_string d) =>
      if streq d "approve" || streq d "reject" then (Failed 503 "APPROVALS_UNAVAILABLE", c)
      else (Failed 400 "VALIDATION_ERROR", c)
  | _ => (Failed 400 "VALIDATION_ERROR", c)
  end.

(** `policyRoute` *)
Definition policy_write (field : string) (apply : bool -> PolicyController -> result PolicyController) (r : HttpRequest)
    (c : ControlPlane) : Reply * ControlPlane :=
  match field_of r field with
  | Some (V_bool v) =>
      match apply v (policy c) with
      | inl code => (Failed 409 code, c)
      | inr p => (PolicyIs (executionEnabled (pc_policy p)) (killSwitch (pc_policy p)) (pc_enforced p), set_controller p c)
      end
  | _ => (Failed 400 "VALIDATION_ERROR", c)
  end.

Definition strategy_write (strategy : string) (r : HttpRequest) (c : ControlPlane) : Reply * ControlPlane :=
  match status_of (field_of r "status") with
  | None => (Failed 400 "VALIDATION_ERROR", c)
  | Some st =>
      match strategies c with
      | None => (Failed 503 "STRATEGIES_UNAVAILABLE", c)
      | Some t =>
          let '(changed, t') := Strategy.setStatus strategy st t in
          if negb changed then (Failed 404 "NOT_FOUND", set_strategies t' c)
          else (StrategyIs strategy st (get_strategy strategy t'), set_strategies t' c)
      end
  end.

(** `sendShell`, of a built dashboard. *)
Definition send_shell (r : HttpRequest) (now : Z) (c : ControlPlane) : Reply * ControlPlane :=
  match authenticated r now c with
  | (inl e, c') => (Threw e, c')
  | (inr ok, c') => (if ok then ShellSent else ToLogin, c')
  end.

Definition handle (route : Route) (r : HttpRequest) (now : Z) (fresh : string) (c : ControlPlane) : Reply * ControlPlane :=
  match route with
  | PostSession => post_session r now fresh c
  | DeleteSession => delete_session r c
  | GetSession => get_session r now c
  | GetSnapshot => get_guarded (fun c => (SnapshotSent, c)) r now c
  | GetSources => get_guarded (fun c => (SourcesSent, c)) r now c
  | GetStream => get_guarded open_stream r now c
  | PostDecide _ => post_guarded SCOPE_APPROVE (decide_write r) r now c
  | PostKillSwitch => post_guarded SCOPE_POLICY (policy_write "engaged" setKillSwitch r) r now c
  | PostExecution => post_guarded SCOPE_POLICY (policy_write "enabled" setExecutionEnabled r) r now c
  | PostStrategyStatus id => post_guarded SCOPE_POLICY (strategy_write id r) r now c
  | GetShell => send_shell r now c
  end.
End Routes.
