(* ===== verification/ConsoleSafety.v ===== *)
(** What the control plane lets a request do, in every run of it. *)
From S2P Require Import Prelude Table Canonical Contracts Defaults Strategy Console.
#[local] Open Scope string_scope.
#[local] Open Scope list_scope.
#[local] Open Scope Z_scope.

(** *** Maps *)

Section Map.
Context {V : Type}.
Implicit Types (m : list (string * V)) (k : string).

Lemma map_get_elem k m v : map_get k m = Some v -> (k, v) ∈ m.
Proof.
  unfold map_get. destruct (List.find _ m) as [[k' v']|] eqn:E; [|done]. intros [= <-]. apply find_some in E as [Hin Hk].
  unfold streq in Hk. cbn in Hk. bool_hyps. subst. by apply list_elem_of_In.
Qed.

Lemma map_delete_elem k m x : x ∈ map_delete k m <-> x ∈ m /\ x.1 <> k.
Proof.
  unfold map_delete. rewrite !list_elem_of_In, filter_In. unfold streq.
  split; intros [H1 H2]; (split; [done|]); [by bool_hyps|by rewrite bool_decide_false].
Qed.

Lemma map_set_elem k v m x : x ∈ map_set k v m -> x = (k, v) \/ x ∈ m /\ x.1 <> k.
Proof.
  unfold map_set. destruct (existsb _ m) eqn:E.
  - intros (y & -> & Hin)%list_elem_of_fmap. unfold streq. case_bool_decide; [by left|by right].
  - intros [Hin| ->%list_elem_of_singleton]%elem_of_app; [|by left]. right. split; [done|]. intros <-.
    assert (existsb (fun y => streq y.1 x.1) m = true) as Ht; [|congruence].
    apply existsb_exists. exists x. split; [by apply list_elem_of_In|]. unfold streq. by rewrite bool_decide_true.
Qed.

Lemma map_set_length k v m : (length (map_set k v m) <= S (length m))%nat.
Proof. unfold map_set. destruct (existsb _ m); [by rewrite length_map; lia|]. rewrite length_app. cbn. lia. Qed.

Lemma filter_length_lt {A} (p : A -> bool) (l : list A) x : x ∈ l -> p x = false -> (length (List.filter p l) < length l)%nat.
Proof.
  induction l as [|y l IH]; intros Hin Hp; [by apply elem_of_nil in Hin|]. cbn.
  apply elem_of_cons in Hin as [<-|Hin]; [rewrite Hp|destruct (p y); cbn; specialize (IH Hin Hp); lia].
  pose proof (filter_length_le p l). lia.
Qed.
End Map.

Lemma oldest_elem m x : oldest m = Some x -> x ∈ m.
Proof.
  revert x. induction m as [|y m IH]; intros x; cbn; [done|]. destruct (oldest m) as [z|]; [|intros [= <-]; by left].
  destruct (y.2 <=? z.2); intros [= <-]; [by left|right; by apply IH].
Qed.

Lemma oldest_Some m : m <> [] -> exists x, oldest m = Some x.
Proof. destruct m as [|y m]; [done|]. intros _. cbn. destruct (oldest m); by eexists. Qed.

(** *** Runs of the control plane *)

Section Runs.
Context (sha256 : string -> string) (url_host : string -> option string) (a : ControlAuth).

(** A request, the end of a stream, the gateway being wired to the policy, and the runner
    changing its table. *)
Inductive Input : Type :=
  | Requested (route : Route) (r : HttpRequest) (now : Z) (fresh : string)
  | StreamClosed
  | Mounted
  | StrategiesRan (t : list DbRow).

Definition input_step (c : ControlPlane) (i : Input) : ControlPlane :=
  match i with
  | Requested route r now fresh => (handle sha256 url_host a route r now fresh c).2
  | StreamClosed => set_streams (pred (streams c)) c
  | Mounted => set_controller (markEnforced (policy c)) c
  | StrategiesRan t => match strategies c with Some _ => set_strategies t c | None => c end
  end.

Definition after (l : list Input) (c : ControlPlane) : ControlPlane := foldl input_step c l.

Definition booted (p : PolicyConfig) (canArm : option bool) (t : option (list DbRow)) : ControlPlane :=
  {| sessions := []; attempts := []; policy := policy_controller p canArm; strategies := t; streams := 0 |}.

Lemma after_snoc l i c : after (l ++ [i]) c = input_step (after l c) i.
Proof. unfold after. by rewrite foldl_app. Qed.

(** *** What a request can do *)

(** A handler that does no more than drop sessions. *)
Definition drops (c c' : ControlPlane) : Prop := exists m, c' = set_sessions m c /\ m ⊆ sessions c.

Lemma drops_refl c : drops c c.
Proof. exists (sessions c). by destruct c. Qed.

Lemma verifySession_drops id now m ok m' : verifySession sha256 id now m = (ok, m') ->
  m' ⊆ m /\ (ok = true -> exists i e, truthy id = Some i /\ (sha256 i, e) ∈ m /\ now < e).
Proof.
  unfold verifySession. destruct (truthy id) as [i|]; [|by intros [= <- <-]].
  destruct (map_get _ m) as [e|] eqn:E; [|by intros [= <- <-]]. apply map_get_elem in E.
  destruct (Z.leb_spec e now); intros [= <- <-]; [split; [|done]; by intros x [Hx _]%map_delete_elem|].
  split; [done|]. intros _. exists i, e. done.
Qed.

(** Who a request is. *)
Definition identified (r : HttpRequest) (now : Z) (c : ControlPlane) : Prop :=
  verifyAuthorizationHeader sha256 a (authorization r) = true \/
  exists header i e, readCookie (cookies r) SESSION_COOKIE = inr header /\ truthy header = Some i /\
    (sha256 i, e) ∈ sessions c /\ now < e.

Lemma authenticated_spec r now c ok c' : authenticated sha256 a r now c = (ok, c') ->
  drops c c' /\ (ok = inr true -> configured a = true /\ identified r now c).
Proof.
  unfold authenticated. destruct (configured a); cbn [negb]; [|intros [= <- <-]; split; [apply drops_refl|done]].
  destruct (verifyAuthorizationHeader _ _ _) eqn:Ev; [intros [= <- <-]; split; [apply drops_refl|]; intros _; split; [done|by left]|].
  destruct (readCookie _ _) as [e|id] eqn:Er; [intros [= <- <-]; split; [apply drops_refl|done]|].
  destruct (verifySession _ _ _ _) as [o m] eqn:Es. intros [= <- <-]. apply verifySession_drops in Es as [Hsub Hok].
  split; [by exists m|]. intros [= ->]. split; [done|]. right. destruct (Hok eq_refl) as (i & e & H1 & H2 & H3).
  by exists id, i, e.
Qed.

Lemma guard_spec r scope now c o c' : guard sha256 a r scope now c = (o, c') ->
  drops c c' /\ (o = None -> configured a = true /\ identified r now c /\ hasScope a scope = true).
Proof.
  unfold guard. destruct (configured a) eqn:Hc; cbn [negb]; [|intros [= <- <-]; split; [apply drops_refl|done]].
  destruct (authenticated _ _ _ _ _) as [[e|[|]] c1] eqn:Ea; apply authenticated_spec in Ea as [Hd Ha];
    [intros [= <- <-]; by split| |intros [= <- <-]; by split].
  destruct (hasScope a scope); cbn [negb]; intros [= <- <-]; split; try done. intros _. destruct (Ha eq_refl). done.
Qed.

(** A write was allowed: who asked, the scope, the media type and the origin. *)
Record allowed_write (scope : string) (r : HttpRequest) (now : Z) (c : ControlPlane) : Prop := {
  aw_configured : configured a = true;
  aw_identified : identified r now c;
  aw_scope : hasScope a scope = true;
  aw_json : String.prefix "application/json" (toLowerCase (default "" (contentType r))) = true;
  aw_origin : isSameOrigin url_host r = true
}.

Lemma post_guarded_spec scope write r now c :
  (exists reply c', post_guarded sha256 url_host a scope write r now c = (reply, c') /\ drops c c') \/
  (exists c', post_guarded sha256 url_host a scope write r now c = write c' /\ drops c c' /\ allowed_write scope r now c).
Proof.
  unfold post_guarded. destruct (guard _ _ _ _ _ _) as [[refusal|] c'] eqn:Eg; apply guard_spec in Eg as [Hd Ha];
    [left; by exists refusal, c'|]. unfold writable.
  destruct (String.prefix _ _) eqn:Ej; cbn [negb]; [|left; by do 2 eexists].
  destruct (isSameOrigin _ _) eqn:Eo; cbn [negb]; [|left; by do 2 eexists].
  right. exists c'. split; [done|]. split; [done|]. destruct (Ha eq_refl) as (H1 & H2 & H3). by split.
Qed.

Lemma get_guarded_drops reply r now c : (forall c0, sessions (reply c0).2 = sessions c0 /\
    policy (reply c0).2 = policy c0 /\ strategies (reply c0).2 = strategies c0) ->
  let c' := (get_guarded sha256 a reply r now c).2 in
  sessions c' ⊆ sessions c /\ policy c' = policy c /\ strategies c' = strategies c.
Proof.
  intros Hr. unfold get_guarded. destruct (guard _ _ _ _ _ _) as [[refusal|] c1] eqn:Eg;
    apply guard_spec in Eg as [(m & -> & Hm) _]; [done|].
  destruct (Hr (set_sessions m c)) as (E1 & E2 & E3). by rewrite E1, E2, E3.
Qed.

Lemma open_stream_keeps c : let c' := (open_stream c).2 in
  sessions c' = sessions c /\ policy c' = policy c /\ strategies c' = strategies c.
Proof. unfold open_stream. by destruct (MAX_STREAMS <=? streams c)%nat. Qed.

Lemma policy_write_keeps field apply r c : let c' := (policy_write field apply r c).2 in
  sessions c' = sessions c /\ streams c' = streams c.
Proof. unfold policy_write. destruct (field_of r field) as [[]|]; try done. by destruct (apply _ _). Qed.

Lemma strategy_write_keeps id r c : let c' := (strategy_write id r c).2 in
  sessions c' = sessions c /\ streams c' = streams c /\ policy c' = policy c.
Proof.
  unfold strategy_write. destruct (status_of _); [|done]. destruct (strategies c); [|done].
  destruct (setStatus _ _ _) as [[|] t']; done.
Qed.

Lemma decide_write_keeps r c : (decide_write r c).2 = c.
Proof. unfold decide_write. destruct (field_of r _) as [[]|]; try done. by destruct (streq _ _ || _). Qed.
(** *** Where sessions come from *)

(** A sign-in that presents the token. *)
Definition mints (x : string * Z) (i : Input) : Prop := exists r t fresh token, i = Requested PostSession r t fresh /\
  field_of r "token" = Some (V_string token) /\ verifyToken sha256 a token = true /\ x = (sha256 fresh, t + ttl a).

(** A sign-out of a session. *)
Definition revokes (x : string * Z) (i : Input) : Prop := exists r t fresh header id, i = Requested DeleteSession r t fresh /\
  readCookie (cookies r) SESSION_COOKIE = inr header /\ truthy header = Some id /\ sha256 id = x.1.

Definition open_session (x : string * Z) (l : list Input) : Prop := exists l1 i l2, l = l1 ++ i :: l2 /\
  mints x i /\ Forall (fun j => ~ revokes x j) l2.

Lemma open_session_minted x l i : mints x i -> open_session x (l ++ [i]).
Proof. intros Hm. by exists l, i, []. Qed.

Lemma open_session_snoc x l i : open_session x l -> ~ revokes x i -> open_session x (l ++ [i]).
Proof.
  intros (l1 & j & l2 & -> & Hm & Hl) Hi. exists l1, j, (l2 ++ [i]). rewrite <- app_assoc. repeat split; [done|].
  apply Forall_app. split; [done|]. by apply Forall_singleton.
Qed.

Lemma not_revoked x i : (forall r t fresh, i <> Requested DeleteSession r t fresh) -> ~ revokes x i.
Proof. intros H (r & t & fresh & _ & _ & -> & _). by apply (H r t fresh). Qed.

Lemma createSession_elem fresh now m x : x ∈ (createSession sha256 a fresh now m).2 ->
  x = (sha256 fresh, now + ttl a) \/ x ∈ m.
Proof.
  unfold createSession, prune. cbn [snd]. intros [->|[Hx _]]%map_set_elem; [by left|right].
  assert (x ∈ List.filter (fun y => negb (y.2 <=? now)) m) as Hf.
  { destruct (_ <=? _)%nat; [|done]. destruct (oldest _); [|done]. by apply map_delete_elem in Hx as [? _]. }
  apply list_elem_of_In, filter_In in Hf as [Hf _]. by apply list_elem_of_In.
Qed.

Lemma post_session_elem r now fresh c x : x ∈ sessions (post_session sha256 url_host a r now fresh c).2 ->
  mints x (Requested PostSession r now fresh) \/ x ∈ sessions c.
Proof.
  unfold post_session. destruct (writable _ _); [by right|]. destruct (negb _); [by right|]. cbv zeta.
  destruct (_ <? _); [by right|]. destruct (field_of r "token") as [[]|] eqn:Ef; try by right.
  destruct (verifyToken _ _ _) eqn:Et; [|by right].
  destruct (createSession _ _ _ _ _) as [e m] eqn:Ec. cbn [sessions set_sessions set_attempts snd].
  intros Hx. assert (x ∈ (e, m).2) as Hm by done. rewrite <- Ec in Hm.
  apply createSession_elem in Hm as [->|Hm]; [left|by right]. by do 4 eexists.
Qed.

Lemma delete_session_elem r now fresh c x : x ∈ sessions (delete_session sha256 a r c).2 ->
  x ∈ sessions c /\ ((exists e, readCookie (cookies r) SESSION_COOKIE = inl e) \/ ~ revokes x (Requested DeleteSession r now fresh)).
Proof.
  unfold delete_session. destruct (readCookie _ _) as [e|header] eqn:Er; [intros Hx; split; [done|left; by exists e]|].
  cbn. unfold revokeSession. destruct (truthy header) as [id|] eqn:Et.
  - intros [Hx Hd]%map_delete_elem. split; [done|right]. intros (r' & t & f & h & i & [= <- <- <-] & E1 & E2 & E3). congruence.
  - intros Hx. split; [done|right]. intros (r' & t & f & h & i & [= <- <- <-] & E1 & E2 & E3). congruence.
Qed.

Lemma post_guarded_sessions scope write r now c : (forall c0, sessions (write c0).2 = sessions c0) ->
  sessions (post_guarded sha256 url_host a scope write r now c).2 ⊆ sessions c.
Proof.
  intros Hw. destruct (post_guarded_spec scope write r now c) as [(reply & c' & -> & m & -> & Hm)|(c' & -> & (m & -> & Hm) & _)];
    [done|]. by rewrite Hw.
Qed.

Lemma step_sessions c i x : x ∈ sessions (input_step c i) -> mints x i \/ x ∈ sessions c /\ ~ revokes x i.
Proof.
  destruct i as [route r now fresh| | |t]; [|by right; split; [done|by apply not_revoked]..|].
  2: { cbn. destruct (strategies c); right; (split; [done|by apply not_revoked]). }
  cbn [input_step]. assert (forall rt, rt <> DeleteSession -> sessions (handle sha256 url_host a rt r now fresh c).2 ⊆ sessions c ->
    x ∈ sessions (handle sha256 url_host a rt r now fresh c).2 ->
    mints x (Requested rt r now fresh) \/ x ∈ sessions c /\ ~ revokes x (Requested rt r now fresh)) as Hother.
  { intros rt Hne Hsub Hx. right. split; [by apply Hsub|]. apply not_revoked. by intros ? ? ? [= E _ _ _]. }
  destruct route.
  3,4,5,6,7,8,9,10,11: apply Hother; [done|cbn [handle]].
  - cbn [handle]. intros [Hm|Hx]%post_session_elem; [by left|right]. split; [done|]. by apply not_revoked.
  - cbn [handle]. intros [Hx [[e He]|Hr]]%(delete_session_elem _ now fresh); right; (split; [done|]); [|done].
    intros (r' & t & f & h & i & [= <- <- <-] & E1 & _). congruence.
  - unfold get_session. destruct (authenticated _ _ _ _ _) as [[e|ok] c'] eqn:Ea; by apply authenticated_spec in Ea as [(m & -> & Hm) _].
  - by apply get_guarded_drops.
  - by apply get_guarded_drops.
  - apply get_guarded_drops, open_stream_keeps.
  - apply post_guarded_sessions. intros c0. by rewrite decide_write_keeps.
  - apply post_guarded_sessions. intros c0. apply policy_write_keeps.
  - apply post_guarded_sessions. intros c0. apply policy_write_keeps.
  - apply post_guarded_sessions. intros c0. apply strategy_write_keeps.
  - unfold send_shell. destruct (authenticated _ _ _ _ _) as [[e|ok] c'] eqn:Ea; by apply authenticated_spec in Ea as [(m & -> & Hm) _].
Qed.

Lemma sessions_opened p k t l x : x ∈ sessions (after l (booted p k t)) -> open_session x l.
Proof.
  induction l as [|i l IH] using rev_ind; [by intros ?%elem_of_nil|]. rewrite after_snoc.
  intros [Hm|[Hx Hr]]%step_sessions; [by apply open_session_minted|]. apply open_session_snoc; [by apply IH|done].
Qed.
(** *** Who changes the policy and the strategies *)

(** The request carries the token, or a cookie an earlier sign-in with the token minted that
    no sign-out has revoked since and that has not expired. *)
Definition trusted (r : HttpRequest) (now : Z) (l : list Input) : Prop :=
  verifyAuthorizationHeader sha256 a (authorization r) = true \/
  exists header i e, readCookie (cookies r) SESSION_COOKIE = inr header /\ truthy header = Some i /\
    open_session (sha256 i, e) l /\ now < e.

Definition changed (c c' : ControlPlane) : Prop := policy c' <> policy c \/ strategies c' <> strategies c.

Lemma drops_unchanged c c' : drops c c' -> ~ changed c c'.
Proof. intros (m & -> & _) [H|H]; by apply H. Qed.

Lemma unchanged c c' : policy c' = policy c -> strategies c' = strategies c -> ~ changed c c'.
Proof. intros H1 H2 [H|H]; by apply H. Qed.

Lemma post_session_keeps r now fresh c : let c' := (post_session sha256 url_host a r now fresh c).2 in
  policy c' = policy c /\ strategies c' = strategies c /\ streams c' = streams c.
Proof.
  unfold post_session. destruct (writable _ _); [done|]. destruct (negb _); [done|]. cbv zeta.
  destruct (_ <? _); [done|]. destruct (field_of r "token") as [[]|]; try done. destruct (verifyToken _ _ _); [|done].
  by destruct (createSession _ _ _ _ _).
Qed.

Lemma delete_session_keeps r c : let c' := (delete_session sha256 a r c).2 in
  policy c' = policy c /\ strategies c' = strategies c /\ streams c' = streams c.
Proof. unfold delete_session. by destruct (readCookie _ _). Qed.

Lemma handle_changed route r now fresh c : changed c (handle sha256 url_host a route r now fresh c).2 ->
  allowed_write SCOPE_POLICY r now c.
Proof.
  assert (forall reply, (forall c0, sessions (reply c0).2 = sessions c0 /\ policy (reply c0).2 = policy c0 /\
    strategies (reply c0).2 = strategies c0) -> ~ changed c (get_guarded sha256 a reply r now c).2) as Hget.
  { intros reply Hr. apply unchanged; by apply get_guarded_drops. }
  assert (forall write, changed c (post_guarded sha256 url_host a SCOPE_POLICY write r now c).2 ->
    allowed_write SCOPE_POLICY r now c) as Hpost.
  { intros write. destruct (post_guarded_spec SCOPE_POLICY write r now c) as [(reply & c' & -> & Hd)|(c' & _ & _ & Ha)]; [|done].
    intros H. by apply drops_unchanged in H. }
  destruct route; cbn [handle]; intros H; try by (exfalso; revert H; by apply Hget).
  - exfalso. revert H. apply unchanged; apply post_session_keeps.
  - exfalso. revert H. apply unchanged; apply delete_session_keeps.
  - exfalso. revert H. unfold get_session. destruct (authenticated _ _ _ _ _) as [[e|ok] c'] eqn:Ea;
      apply authenticated_spec in Ea as [Hd _]; by apply drops_unchanged.
  - exfalso. revert H. apply Hget, open_stream_keeps.
  - exfalso. revert H.
    destruct (post_guarded_spec SCOPE_APPROVE (decide_write r) r now c) as [(reply & c' & -> & Hd)|(c' & -> & Hd & _)];
      [|rewrite decide_write_keeps]; by apply drops_unchanged.
  - by apply Hpost in H.
  - by apply Hpost in H.
  - by apply Hpost in H.
  - exfalso. revert H. unfold send_shell. destruct (authenticated _ _ _ _ _) as [[e|ok] c'] eqn:Ea;
      apply authenticated_spec in Ea as [Hd _]; by apply drops_unchanged.
Qed.

(** C39: from the start of the control plane, whatever requests came before, a request that
    changes the policy or a strategy holds the scope that executes trades, is JSON and of
    the same origin, and carries the configured token or a live session, which is one that
    was minted by presenting that token, that no sign-out has revoked and that has not
    expired. *)
Theorem console_changes_authorized p k t l route r now fresh :
  let c := after l (booted p k t) in
  changed c (handle sha256 url_host a route r now fresh c).2 ->
  configured a = true /\ hasScope a SCOPE_POLICY = true /\ isSameOrigin url_host r = true /\
  String.prefix "application/json" (toLowerCase (default "" (contentType r))) = true /\ trusted r now l.
Proof.
  cbv zeta. intros [Hc Hid Hs Hj Ho]%handle_changed. repeat split; [done..|].
  destruct Hid as [Hb|(header & i & e & H1 & H2 & Hin & He)]; [by left|right].
  exists header, i, e. repeat split; [done..|by apply (sessions_opened p k t)|done].
Qed.

(** *** What the policy can become, and how much is kept *)

(** The policy is the one it was booted with, but for its two flags. *)
Definition bounded (p0 : PolicyConfig) (arm : bool) (p : PolicyController) : Prop := pc_canArm p = arm /\
  exists e k, pc_policy p = with_flags e k p0 /\ (e = true -> executionEnabled p0 || arm = true).

Lemma bounded_kill p0 arm p b p' : bounded p0 arm p -> setKillSwitch b p = inr p' -> bounded p0 arm p'.
Proof.
  intros (Ha & e & k & Hp & He). unfold setKillSwitch, requireEnforced, throw_on.
  destruct b, (pc_enforced p); cbn; intros [= <-]; (split; [done|]); eexists e, _; cbn; by rewrite Hp.
Qed.

Lemma bounded_execution p0 arm p b p' : bounded p0 arm p -> setExecutionEnabled b p = inr p' -> bounded p0 arm p'.
Proof.
  intros (Ha & e & k & Hp & He). unfold setExecutionEnabled, requireEnforced, throw_on. destruct b.
  - destruct (pc_enforced p); [|done]. destruct (pc_canArm p) eqn:Harm; [|done]. intros [= <-].
    split; [by rewrite <- Ha|]. exists true, k. rewrite Hp. split; [done|]. intros _. rewrite <- Ha. by rewrite orb_true_r.
  - intros [= <-]. split; [done|]. exists false, k. by rewrite Hp.
Qed.

(** What the two setters keep, the control plane keeps. *)
Lemma policy_kept (P : PolicyController -> Prop) l c : P (policy c) ->
  (forall b p p', P p -> setKillSwitch b p = inr p' -> P p') ->
  (forall b p p', P p -> setExecutionEnabled b p = inr p' -> P p') ->
  (Mounted ∈ l -> forall p, P p -> P (markEnforced p)) -> P (policy (after l c)).
Proof.
  intros H0 Hk He. induction l as [|i l IH] using rev_ind; [done|]. intros Hm. rewrite after_snoc.
  assert (P (policy (after l c))) as HP.
  { apply IH. intros Hin. apply Hm, elem_of_app. by left. }
  destruct i as [route r now fresh| | |t']; cbn [input_step].
  - assert (forall f apply, (forall b p p', P p -> apply b p = inr p' -> P p') ->
      P (policy (post_guarded sha256 url_host a SCOPE_POLICY (policy_write f apply r) r now (after l c)).2)) as Hw.
    { intros f apply Ha. destruct (post_guarded_spec SCOPE_POLICY (policy_write f apply r) r now (after l c))
        as [(reply & c' & -> & m & -> & _)|(c' & -> & (m & -> & _) & _)]; [done|].
      unfold policy_write. destruct (field_of r f) as [[]|]; try done. cbn [policy set_sessions].
      destruct (apply _ _) eqn:E; [done|]. cbn. by eapply Ha. }
    destruct (decide (route = PostKillSwitch \/ route = PostExecution)) as [[->| ->]|Hne]; [by apply Hw..|].
    enough (policy (handle sha256 url_host a route r now fresh (after l c)).2 = policy (after l c)) as -> by done.
    destruct route; cbn [handle]; try by apply get_guarded_drops.
    + apply post_session_keeps.
    + apply delete_session_keeps.
    + unfold get_session. by destruct (authenticated _ _ _ _ _) as [[e|ok] c'] eqn:Ea;
        apply authenticated_spec in Ea as [(m & -> & _) _].
    + apply get_guarded_drops, open_stream_keeps.
    + by destruct (post_guarded_spec SCOPE_APPROVE (decide_write r) r now (after l c))
        as [(reply & c' & -> & m & -> & _)|(c' & -> & (m & -> & _) & _)]; [|rewrite decide_write_keeps].
    + by exfalso; apply Hne; left.
    + by exfalso; apply Hne; right.
    + destruct (post_guarded_spec SCOPE_POLICY (strategy_write strategy r) r now (after l c))
        as [(reply & c' & -> & m & -> & _)|(c' & -> & (m & -> & _) & _)]; [done|].
      by destruct (strategy_write_keeps strategy r (set_sessions m (after l c))) as (_ & _ & ->).
    + unfold send_shell. by destruct (authenticated _ _ _ _ _) as [[e|ok] c'] eqn:Ea;
        apply authenticated_spec in Ea as [(m & -> & _) _].
  - done.
  - apply Hm; [|done]. apply elem_of_app. right. by apply list_elem_of_singleton.
  - by destruct (strategies (after l c)).
Qed.

(** How many sessions and streams are kept. *)
Definition within (c : ControlPlane) : Prop := (length (sessions c) <= MAX_SESSIONS)%nat /\ (streams c <= MAX_STREAMS)%nat.

Lemma createSession_bound fresh now m : (length m <= MAX_SESSIONS)%nat ->
  (length (createSession sha256 a fresh now m).2 <= MAX_SESSIONS)%nat.
Proof.
  intros Hm. unfold createSession. cbv zeta. cbn [snd].
  assert (length (prune now m) <= MAX_SESSIONS)%nat as Hp by (unfold prune; pose proof (filter_length_le (fun x => negb (x.2 <=? now)) m); lia).
  etrans; [apply map_set_length|]. destruct (Nat.leb_spec MAX_SESSIONS (length (prune now m))); [|lia].
  destruct (oldest_Some (prune now m)) as [x Hx].
  { intros E. rewrite E in H. cbn in H. unfold MAX_SESSIONS in H. lia. }
  rewrite Hx. unfold map_delete.
  pose proof (filter_length_lt (fun y => negb (streq y.1 x.1)) (prune now m) x (oldest_elem _ _ Hx)) as Hlt.
  cbn in Hlt. unfold streq in Hlt at 1. rewrite bool_decide_true in Hlt by done. specialize (Hlt eq_refl). lia.
Qed.

Lemma map_delete_length {V} k (m : list (string * V)) : (length (map_delete k m) <= length m)%nat.
Proof. apply filter_length_le. Qed.

Lemma authenticated_within r now c : within c -> within (authenticated sha256 a r now c).2.
Proof.
  intros H. unfold authenticated. destruct (negb _); [done|]. destruct (verifyAuthorizationHeader _ _ _); [done|].
  destruct (readCookie _ _) as [e|id]; [done|]. unfold verifySession. destruct (truthy id) as [i|]; [|by destruct c].
  destruct (map_get _ _) as [e|]; [|by destruct c]. destruct (e <=? now); [|by destruct c]. destruct H as [H1 H2].
  split; [cbn|done]. pose proof (map_delete_length (sha256 i) (sessions c)). lia.
Qed.

Lemma guard_within r scope now c : within c -> within (guard sha256 a r scope now c).2.
Proof.
  intros H. unfold guard. destruct (negb _); [done|]. apply (authenticated_within r now) in H.
  destruct (authenticated _ _ _ _ _) as [[e|[|]] c']; [done| |done]. by destruct (negb _).
Qed.

Lemma get_guarded_within reply r now c : (forall c0, within c0 -> within (reply c0).2) -> within c ->
  within (get_guarded sha256 a reply r now c).2.
Proof.
  intros Hr H. unfold get_guarded. apply (guard_within r SCOPE_READ now) in H.
  destruct (guard _ _ _ _ _ _) as [[refusal|] c']; [done|by apply Hr].
Qed.

Lemma post_guarded_within scope write r now c : (forall c0, within c0 -> within (write c0).2) -> within c ->
  within (post_guarded sha256 url_host a scope write r now c).2.
Proof.
  intros Hw H. unfold post_guarded. apply (guard_within r scope now) in H.
  destruct (guard _ _ _ _ _ _) as [[refusal|] c']; [done|]. destruct (writable _ _); [done|by apply Hw].
Qed.

Lemma handle_within route r now fresh c : within c -> within (handle sha256 url_host a route r now fresh c).2.
Proof.
  assert (forall c0 c1 : ControlPlane, sessions c1 = sessions c0 -> streams c1 = streams c0 -> within c0 -> within c1) as Hk
    by (unfold within; congruence).
  intros H. destruct route; cbn [handle]; try (apply get_guarded_within; [|done]); try (apply post_guarded_within; [|done]); try done.
  - unfold post_session. destruct (writable _ _); [done|]. destruct (negb _); [done|]. cbv zeta.
    destruct (_ <? _); [done|]. destruct (field_of r "token") as [[]|]; try done. destruct (verifyToken _ _ _); [|done].
    destruct H as [H1 H2]. apply (createSession_bound fresh now) in H1.
    cbn [sessions set_sessions set_attempts]. by destruct (createSession _ _ _ _ _) as [e m].
  - unfold delete_session. destruct (readCookie _ _) as [e|id]; [done|]. unfold revokeSession.
    destruct (truthy id) as [i|]; [|done]. destruct H. split; [cbn|done].
    pose proof (map_delete_length (sha256 i) (sessions c)). lia.
  - unfold get_session. apply (authenticated_within r now) in H. by destruct (authenticated _ _ _ _ _) as [[|] c'].
  - intros c0 [H1 H2]. unfold open_stream. destruct (Nat.leb_spec MAX_STREAMS (streams c0)); [done|]. split; [done|]. cbn. lia.
  - intros c0. by rewrite decide_write_keeps.
  - intros c0. apply Hk; apply policy_write_keeps.
  - intros c0. apply Hk; apply policy_write_keeps.
  - intros c0. apply Hk; apply strategy_write_keeps.
  - unfold send_shell. apply (authenticated_within r now) in H. by destruct (authenticated _ _ _ _ _) as [[|] c'].
Qed.

Lemma after_within l c : within c -> within (after l c).
Proof.
  intros H0. induction l as [|i l IH] using rev_ind; [done|]. rewrite after_snoc.
  destruct i as [route r now fresh| | |t]; cbn [input_step].
  - by apply handle_within.
  - destruct IH as [H1 H2]. split; [done|]. cbn. lia.
  - done.
  - by destruct (strategies (after l c)).
Qed.

Lemma booted_bounded p k t l : bounded p (default (executionEnabled p) k) (policy (after l (booted p k t))).
Proof.
  apply policy_kept.
  - split; [done|]. exists (executionEnabled p), (killSwitch p). split; [by destruct p|]. by intros ->.
  - intros b q q'. apply bounded_kill.
  - intros b q q'. apply bounded_execution.
  - done.
Qed.

(** While no gateway reads the policy, the console can only make it safer. *)
Definition only_safer (p0 : PolicyConfig) (p : PolicyController) : Prop := pc_enforced p = false /\
  (killSwitch p0 = true -> killSwitch (pc_policy p) = true) /\
  (executionEnabled (pc_policy p) = true -> executionEnabled p0 = true).

Lemma booted_only_safer p k t l : Mounted ∉ l -> only_safer p (policy (after l (booted p k t))).
Proof.
  intros Hl. apply policy_kept; [done| | |done].
  - intros b q q' (H1 & H2 & H3). unfold setKillSwitch, requireEnforced. rewrite H1. by destruct b; intros [= <-].
  - intros b q q' (H1 & H2 & H3). unfold setExecutionEnabled, requireEnforced. rewrite H1. by destruct b; intros [= <-].
Qed.

(** In every run of the control plane, the policy is the one it was booted with except
    for the kill switch and the arming of execution; execution is armed only if the process
    was booted so or with the permission to arm; until a gateway reads the policy a kill
    switch stays on and execution that is off stays off; and no more than 64 sessions and 8
    streams are kept. *)
Theorem console_bounded p k t l : let c := after l (booted p k t) in
  (exists armed engaged, pc_policy (policy c) = with_flags armed engaged p /\
     (armed = true -> executionEnabled p || default (executionEnabled p) k = true)) /\
  (Mounted ∉ l -> (killSwitch p = true -> killSwitch (pc_policy (policy c)) = true) /\
     (executionEnabled (pc_policy (policy c)) = true -> executionEnabled p = true)) /\
  (length (sessions c) <= 64)%nat /\ (streams c <= 8)%nat.
Proof.
  split; [apply (booted_bounded p k t l)|]. split; [intros Hl; by apply booted_only_safer|].
  apply after_within. split; cbn; lia.
Qed.

(** A request that is let through engages the stop, whether or not a gateway reads the policy. *)
Lemma stop_always_engages r now fresh c c' : authenticated sha256 a r now c = (inr true, c') ->
  hasScope a SCOPE_POLICY = true -> writable url_host r = None -> field_of r "engaged" = Some (V_bool true) ->
  killSwitch (pc_policy (policy (handle sha256 url_host a PostKillSwitch r now fresh c).2)) = true.
Proof.
  intros Ha Hs Hw Hf. destruct (authenticated_spec r now c _ _ Ha) as [_ Hi]. destruct (Hi eq_refl) as [Hc _].
  cbn [handle]. unfold post_guarded, guard. rewrite Hc, Ha, Hs. cbn [negb]. rewrite Hw. unfold policy_write. by rewrite Hf.
Qed.

(** *** What was found *)

(** The three session routes answer although no credential is configured. *)
Lemma open_without_credential r now fresh c : configured a = false -> cookies r = None ->
  (handle sha256 url_host a GetSession r now fresh c).1 = SessionInfo false false [] /\
  (handle sha256 url_host a DeleteSession r now fresh c).1 = SignedOut (clearedCookie a (https r)).
Proof.
  intros Hc Hk. split; [|cbn [handle]; unfold delete_session; by rewrite Hk].
  cbn [handle]. unfold get_session, authenticated. by rewrite Hc.
Qed.

(** A cookie that is no URI component ends a guarded request with an exception. *)
Lemma malformed_cookie_throws r now fresh c : configured a = true -> authorization r = None ->
  cookies r = Some "ari_session=%" -> (handle sha256 url_host a GetSnapshot r now fresh c).1 = Threw "URIError".
Proof.
  intros Hc Ha Hk. cbn [handle]. unfold get_guarded, guard, authenticated. rewrite Hc, Ha, Hk. done.
Qed.

(** Signing out takes neither JSON nor the same origin. *)
Lemma sign_out_from_anywhere r now fresh c id : readCookie (cookies r) SESSION_COOKIE = inr (Some id) -> id <> "" ->
  sessions (handle sha256 url_host a DeleteSession r now fresh c).2 = map_delete (sha256 id) (sessions c).
Proof.
  intros Hk Hid. cbn [handle]. unfold delete_session. rewrite Hk. cbn [snd sessions set_sessions]. unfold revokeSession.
  by destruct id.
Qed.
End Runs.

(** Stopping and disarming a policy that no gateway reads is not refused. *)
Lemma unenforced_mutations p : pc_enforced p = false ->
  setKillSwitch true p = inr (set_policy (with_flags (executionEnabled (pc_policy p)) true (pc_policy p)) p) /\
  setExecutionEnabled false p = inr (set_policy (with_flags false (killSwitch (pc_policy p)) (pc_policy p)) p).
Proof. done. Qed.

(** *** A session that signs in and presses the stop *)

Definition demo_auth : ControlAuth := control_auth (fun s => s)
  {| bearerToken := Some "token"; bearerTokenSha256 := None; op_scopes := ["agent:read"; "trading:execute"];
     sessionTtlMs := None; op_secureCookies := None |}.

Definition demo_request (c : option string) (b : list (string * value)) : HttpRequest :=
  {| authorization := None; cookies := c; contentType := Some "application/json"; origin := None; host := Some "localhost";
     secFetchSite := Some "same-origin"; https := false; ip := Some "127.0.0.1"; req_body := Some (V_object b) |}.

Definition demo_sign_in : Input := Requested PostSession (demo_request None [("token", V_string "token")]) 1000 "c2Vzc2lvbg".

Definition demo_stop : HttpRequest := demo_request (Some "ari_session=c2Vzc2lvbg") [("engaged", V_bool true)].

Lemma console_changes_authorized_witness :
  let c := after (fun s => s) (fun _ => None) demo_auth [demo_sign_in] (booted defaultPolicy None None) in
  changed c (handle (fun s => s) (fun _ => None) demo_auth PostKillSwitch demo_stop 2000 "" c).2 /\
  trusted (fun s => s) demo_auth demo_stop 2000 [demo_sign_in].
Proof.
  assert (Hc : let c := after (fun s => s) (fun _ => None) demo_auth [demo_sign_in] (booted defaultPolicy None None) in
    changed c (handle (fun s => s) (fun _ => None) demo_auth PostKillSwitch demo_stop 2000 "" c).2)
    by (left; vm_compute; discriminate).
  split; [exact Hc|].
  exact (proj2 (proj2 (proj2 (proj2 (console_changes_authorized (fun s => s) (fun _ => None) demo_auth
    defaultPolicy None None [demo_sign_in] PostKillSwitch demo_stop 2000 "" Hc))))).
Defined.
