(* ===== verification/Agent.v ===== *)
(** The agent loop: `AgentRuntime` of `src/agent/runtime/index.ts`.

    A run is a generator; each `yield` is an effect, and its consumer may stop at any of
    them.  The models, the dispatcher and the two persistence callbacks are effects whose
    answers are free.  A call raced against the abort signal ([Complete], [Dispatch])
    answers what `abortable` does, which rejects once the signal is aborted although the
    call was made.  Time stamps and the usage of a model are left out. *)
From Stdlib Require Import Ascii Qround.
From S2P Require Import Prelude Prog Canonical Money Doubles Schedule.
#[local] Open Scope string_scope.
#[local] Open Scope list_scope.
#[local] Open Scope Z_scope.
#[local] Open Scope prog_scope.

(** *** Data *)

Inductive ToolEffect : Type := read | proposal | write.

#[export] Instance ToolEffect_eq_dec : EqDecision ToolEffect.
Proof. solve_decision. Defined.

(** [tc_arguments] is absent when the field is. *)
Record ToolCall : Type := { tc_id : string; tc_name : string; tc_arguments : option value }.

Inductive AgentMessage : Type :=
  | Given (m : value)
  | Assistant (m : value)
  | ToolMessage (content toolCallId name : string).

Inductive RuntimeErrorCode : Type :=
  | ITERATION_BUDGET_EXCEEDED | TOOL_BUDGET_EXCEEDED | LOOP_DETECTED | DEADLINE_EXCEEDED | MODEL_ERROR | UNSAFE_TOOL
  | NO_TOOL_DISPATCHER | RECONCILIATION_REQUIRED.

(** What is thrown: an `AgentRuntimeError`, or anything else. *)
Inductive Thrown : Type := AgentRuntimeError (code : RuntimeErrorCode) | Other (message : string).

Inductive AgentEvent : Type :=
  | RunStarted
  | IterationStarted (iteration : Z)
  | ModelRequested (provider : string) (iteration : Z)
  | ProviderFailed (provider : string) (error : Thrown)
  | ModelResponded (provider : string) (response : value)
  | ToolStarted (c : ToolCall)
  | ToolCompleted (c : ToolCall) (result : value)
  | RunCompleted (message : value) (iterations toolCalls : Z)
  | RunFailed (code : RuntimeErrorCode)
  | RunCancelled.

Inductive LifecycleStatus : Type := planned | started | succeeded | failed | reconciliation_required.

Record RuntimeOptions : Type := {
  providers : list string; has_tools : bool; maxIterations : Z; maxToolCalls : Z; maxRepeatedToolCalls : Z;
  persistsMessages : bool; persistsLifecycle : bool
}.

Definition positive_integer (x : number) : option Z :=
  match x with Finite q => if num_isInteger x && (0 <? Qfloor q) then Some (Qfloor q) else None | _ => None end.

(** The constructor. *)
Definition agent_runtime (ids : list string) (dispatcher messages lifecycle : bool)
    (iterations toolCalls repeats : option number) : Thrown + RuntimeOptions :=
  match ids with
  | [] => inl (AgentRuntimeError MODEL_ERROR)
  | _ =>
      match positive_integer (default (js_num 8) iterations), positive_integer (default (js_num 16) toolCalls),
        positive_integer (default (js_num 3) repeats) with
      | Some i, Some t, Some r =>
          inr {| providers := ids; has_tools := dispatcher; maxIterations := i; maxToolCalls := t;
                 maxRepeatedToolCalls := r; persistsMessages := messages; persistsLifecycle := lifecycle |}
      | _, _, _ => inl (AgentRuntimeError MODEL_ERROR)
      end
  end.

(** *** Effects *)

Inductive aeff : Type -> Type :=
  | Yield (e : AgentEvent) : aeff unit
  | Aborted : aeff bool
  | TimedOut : aeff bool
  | Complete (provider : string) (messages : list AgentMessage) : aeff (Thrown + value)
  | PersistMessage (m : AgentMessage) : aeff (Thrown + unit)
  | PersistLifecycle (s : LifecycleStatus) (c : ToolCall) (result : option value) : aeff (Thrown + unit)
  (** [None] is any other effect, or none *)
  | Classify (name : string) : aeff (Thrown + option ToolEffect)
  | Dispatch (c : ToolCall) : aeff (Thrown + value).

Definition aprog : Type -> Type := prog aeff Thrown.

Definition acall {R} (e : aeff (Thrown + R)) : aprog R := bind (trigger e) raise.
Definition ado {R} (e : aeff R) : aprog R := trigger e.
Definition yield (e : AgentEvent) : aprog unit := ado (Yield e).
Definition fail_when (b : bool) (code : RuntimeErrorCode) : aprog unit :=
  if b then Throw (AgentRuntimeError code) else Ret tt.

(** *** Names and responses *)

Definition get_field (name : string) (v : value) : option value :=
  match v with V_object fields => snd <$> List.find (fun x => streq x.1 name) fields | _ => None end.

Definition is_blank (s : string) : bool := match trim (String.list_ascii_of_string s) with [] => true | _ => false end.

(** `validateResponse`: the message. *)
Definition validateResponse (response : value) : Thrown + value :=
  match get_field "message" response with
  | Some m =>
      match get_field "role" m, get_field "content" m, get_field "toolCalls" m with
      | Some (V_string role), Some (V_string _), None =>
          if streq role "assistant" then inr m else inl (AgentRuntimeError MODEL_ERROR)
      | Some (V_string role), Some (V_string _), Some (V_array _) =>
          if streq role "assistant" then inr m else inl (AgentRuntimeError MODEL_ERROR)
      | _, _, _ => inl (AgentRuntimeError MODEL_ERROR)
      end
  | None => inl (AgentRuntimeError MODEL_ERROR)
  end.

(** `assistant.toolCalls ?? []` *)
Definition calls_of (m : value) : list value := match get_field "toolCalls" m with Some (V_array l) => l | _ => [] end.

(** A call with an id and a name. *)
Definition call_of (v : value) : option ToolCall :=
  match get_field "id" v, get_field "name" v with
  | Some (V_string id), Some (V_string name) =>
      if is_blank id || is_blank name then None
      else Some {| tc_id := id; tc_name := name; tc_arguments := get_field "arguments" v |}
  | _, _ => None
  end.

Definition to_lower (c : ascii) : ascii :=
  if (65 <=? nat_of_ascii c)%nat && (nat_of_ascii c <=? 90)%nat then ascii_of_nat (nat_of_ascii c + 32) else c.

(** The parts of a name between dots, underscores and hyphens. *)
Fixpoint name_parts (l : list ascii) : list (list ascii) :=
  match l with
  | [] => [[]]
  | c :: l' =>
      if includes [46; 95; 45]%nat (nat_of_ascii c) then [] :: name_parts l'
      else match name_parts l' with p :: ps => (c :: p) :: ps | [] => [[c]] end
  end.

Fixpoint contains (needle l : list ascii) : bool :=
  bool_decide (take (length needle) l = needle) || match l with [] => false | _ :: l' => contains needle l' end.

Definition deniedTool (name : string) : bool :=
  let l := map to_lower (String.list_ascii_of_string name) in
  existsb (fun p => includes ["sign"; "signer"; "send"; "broadcast"; "write"; "execute"] (String.string_of_list_ascii p))
    (name_parts l) || contains (String.list_ascii_of_string "wallet") l.

Section Runtime.
(** [locale_le a b] is `a.localeCompare(b) <= 0`. *)
Context (locale_le : string -> string -> bool).

Fixpoint insert_entry {A} (x : string * A) (l : list (string * A)) : list (string * A) :=
  match l with
  | [] => [x]
  | y :: l' => if locale_le x.1 y.1 then x :: l else y :: insert_entry x l'
  end.

(** `.sort(([a], [b]) => a.localeCompare(b))` *)
Definition sort_entries {A} (l : list (string * A)) : list (string * A) := fold_right insert_entry [] l.

Definition map_ok {A B} (f : A -> B) (r : Thrown + A) : Thrown + B := match r with inr x => inr (f x) | inl e => inl e end.

(** `stableStringify`; a bigint cannot be printed. *)
Fixpoint stable (v : value) : Thrown + string :=
  match v with
  | V_array l =>
      map_ok (fun xs => "[" ++ join xs ++ "]")%string ((fix go l := match l with
        | [] => inr []
        | x :: l' => match stable x, go l' with inr s, inr xs => inr (s :: xs) | inl e, _ | _, inl e => inl e end
        end) l)
  | V_object fs =>
      map_ok (fun xs => "{" ++ join (map (fun f => quoted f.1 ++ ":" ++ f.2)%string (sort_entries xs)) ++ "}")%string
      ((fix go fs := match fs with
        | [] => inr []
        | (k, x) :: fs' => match stable x, go fs' with inr s, inr xs => inr ((k, s) :: xs) | inl e, _ | _, inl e => inl e end
        end) fs)
  | V_bigint _ => inl (Other "TypeError")
  | V_other => inr "undefined"
  | _ => inr (print v)
  end.

Definition stableStringify (v : option value) : Thrown + string :=
  match v with None => inr "undefined" | Some v => stable v end.

Definition signature_of (c : ToolCall) : Thrown + string :=
  map_ok (fun s => tc_name c ++ ":" ++ s)%string (stableStringify (tc_arguments c)).

(** *** A run *)

Record RunState : Type := {
  messages : list AgentMessage; toolCount : Z; sideEffects : bool; activeProvider : nat; repeated : gmap string Z
}.

Definition push (m : AgentMessage) (s : RunState) : RunState :=
  {| messages := messages s ++ [m]; toolCount := toolCount s; sideEffects := sideEffects s;
     activeProvider := activeProvider s; repeated := repeated s |}.

Definition set_active (n : nat) (s : RunState) : RunState :=
  {| messages := messages s; toolCount := toolCount s; sideEffects := sideEffects s; activeProvider := n;
     repeated := repeated s |}.

Definition bump (sg : string) (s : RunState) : RunState :=
  {| messages := messages s; toolCount := toolCount s; sideEffects := sideEffects s; activeProvider := activeProvider s;
     repeated := <[sg := default 0 (repeated s !! sg) + 1]> (repeated s) |}.

Definition executed (effect : ToolEffect) (s : RunState) : RunState :=
  {| messages := messages s; toolCount := toolCount s + 1; sideEffects := sideEffects s || bool_decide (effect = proposal);
     activeProvider := activeProvider s; repeated := repeated s |}.

Context (o : RuntimeOptions).

Definition persist (m : AgentMessage) : aprog unit := if persistsMessages o then acall (PersistMessage m) else Ret tt.

Definition lifecycle (s : LifecycleStatus) (c : ToolCall) (result : option value) : aprog unit :=
  if persistsLifecycle o then acall (PersistLifecycle s c result) else Ret tt.

(** The loop over the providers from the active one on: the message and who gave it. *)
Fixpoint ask_providers (ps : list string) (index : nat) (iteration : Z) (s : RunState) : aprog (option (value * nat)) :=
  match ps with
  | [] => Ret None
  | p :: ps' =>
      yield (ModelRequested p iteration) ;;
      let* out := catch
        (let* response := acall (Complete p (messages s)) in
         let* m := raise (validateResponse response) in
         yield (ModelResponded p response) ;; Ret (Some m))
        (fun e =>
           let* aborted := ado Aborted in
           if aborted then Throw e
           else
             yield (ProviderFailed p e) ;;
             fail_when (sideEffects s || match ps' with [] => true | _ => false end) MODEL_ERROR ;;
             Ret None) in
      match out with Some m => Ret (Some (m, index)) | None => ask_providers ps' (S index) iteration s end
  end.

(** Every call of a response is judged before any is dispatched. *)
Fixpoint validate_calls (calls : list value) (seen : list string) (s : RunState) :
    aprog (list (ToolCall * string * ToolEffect)) :=
  match calls with
  | [] => Ret []
  | v :: calls' =>
      match call_of v with
      | None => Throw (AgentRuntimeError MODEL_ERROR)
      | Some c =>
          fail_when (includes seen (tc_id c)) MODEL_ERROR ;;
          let* sg := raise (signature_of c) in
          fail_when (maxRepeatedToolCalls o <? default 0 (repeated s !! sg) + 1) LOOP_DETECTED ;;
          let* effect := acall (Classify (tc_name c)) in
          match effect with
          | Some e =>
              fail_when (bool_decide (e = write) || deniedTool (tc_name c)) UNSAFE_TOOL ;;
              let* rest := validate_calls calls' (tc_id c :: seen) s in
              Ret ((c, sg, e) :: rest)
          | None => Throw (AgentRuntimeError UNSAFE_TOOL)
          end
      end
  end.

Definition dispatch_one (c : ToolCall) : aprog value :=
  catch (let* result := acall (Dispatch c) in lifecycle succeeded c (Some result) ;; Ret result)
    (fun e => let* aborted := ado Aborted in
              (if aborted then Ret tt else lifecycle failed c None) ;; Throw e).

Fixpoint dispatch_calls (l : list (ToolCall * string * ToolEffect)) (s : RunState) : aprog RunState :=
  match l with
  | [] => Ret s
  | (c, sg, effect) :: l' =>
      lifecycle planned c None ;;
      yield (ToolStarted c) ;;
      lifecycle started c None ;;
      let* result := dispatch_one c in
      yield (ToolCompleted c result) ;;
      let* content := raise (stableStringify (Some result)) in
      let m := ToolMessage content (tc_id c) (tc_name c) in
      catch (persist m)
        (fun e => lifecycle reconciliation_required c (Some result) ;; Throw (AgentRuntimeError RECONCILIATION_REQUIRED)) ;;
      dispatch_calls l' (push m (executed effect (bump sg s)))
  end.

(** The turns that are left, from [iteration] on. *)
Fixpoint iterate (left : nat) (iteration : Z) (s : RunState) : aprog unit :=
  match left with
  | O => Throw (AgentRuntimeError ITERATION_BUDGET_EXCEEDED)
  | S left' =>
      let* aborted := ado Aborted in
      if aborted then Throw (Other "aborted")
      else
        yield (IterationStarted iteration) ;;
        let* answer := ask_providers (drop (activeProvider s) (providers o)) (activeProvider s) iteration s in
        match answer with
        | None => Throw (AgentRuntimeError MODEL_ERROR)
        | Some (m, index) =>
            match calls_of m with
            | [] => persist (Assistant m) ;; yield (RunCompleted m iteration (toolCount s))
            | calls =>
                fail_when (iteration =? maxIterations o) ITERATION_BUDGET_EXCEEDED ;;
                fail_when (maxToolCalls o <? toolCount s + Z.of_nat (length calls)) TOOL_BUDGET_EXCEEDED ;;
                fail_when (negb (has_tools o)) NO_TOOL_DISPATCHER ;;
                let* validated := validate_calls calls [] s in
                persist (Assistant m) ;;
                let* s' := dispatch_calls validated (push (Assistant m) (set_active index s)) in
                iterate left' (iteration + 1) s'
            end
        end
  end.

Definition initial (input : list value) : RunState :=
  {| messages := map Given input; toolCount := 0; sideEffects := false; activeProvider := 0; repeated := ∅ |}.

(** The code a failed run reports. *)
Definition failure_code (e : Thrown) : RuntimeErrorCode :=
  match e with AgentRuntimeError code => code | Other _ => MODEL_ERROR end.

Definition run (input : list value) : aprog unit :=
  yield RunStarted ;;
  catch (iterate (Z.to_nat (maxIterations o)) 1 (initial input))
    (fun e =>
       let* aborted := ado Aborted in
       if aborted
       then let* timedOut := ado TimedOut in
            if timedOut then yield (RunFailed DEADLINE_EXCEEDED) else yield RunCancelled
       else yield (RunFailed (failure_code e))).
End Runtime.
