(* ===== verification/AgentSafety.v ===== *)
(** What a run of the agent loop may do, whatever models, tools and storage answer. *)
From S2P Require Import Prelude Prog Canonical Doubles Agent.
#[local] Open Scope string_scope.
#[local] Open Scope list_scope.
#[local] Open Scope Z_scope.
#[local] Open Scope prog_scope.

Definition agent_history : Type := list (event aeff).

(** *** Reading a history, latest event first *)

Definition terminal (e : AgentEvent) : bool :=
  match e with RunCompleted _ _ _ | RunFailed _ | RunCancelled => true | _ => false end.

Definition is_end (ev : event aeff) : bool := match ev with Event e _ => match e with Yield t => terminal t | _ => false end end.
Definition is_dispatch (ev : event aeff) : bool := match ev with Event e _ => match e with Dispatch _ => true | _ => false end end.

(** The provider an event asked. *)
Definition asked (ev : event aeff) : option string := match ev with Event e _ => match e with Complete p _ => Some p | _ => None end end.

Definition ended (h : agent_history) : bool := existsb is_end h.
Definition dispatched (h : agent_history) : nat := length (List.filter is_dispatch h).
Definition completions (h : agent_history) : list string := omap asked h.

(** A proposal was dispatched: a call that succeeded whose tool was never classified otherwise. *)
Definition proposed (h : agent_history) : Prop := exists c r, Event (Dispatch c) (inr r) ∈ h /\
  forall x, Event (Classify (tc_name c)) x ∈ h -> x = inr (Some proposal).

(** *** Steps that leave what is counted alone *)

Definition quiet R (e : aeff R) : bool :=
  match e with Yield t => negb (terminal t) | Complete _ _ | Dispatch _ => false | _ => true end.

Record same (h h' : agent_history) : Prop := {
  sm_more : h ⊆ h';
  sm_dispatched : dispatched h' = dispatched h;
  sm_completions : completions h' = completions h;
  sm_proposed : proposed h' -> proposed h;
  sm_running : ended h' = false
}.

Lemma same_start h : ended h = false -> same h h.
Proof. by split. Qed.

Lemma same_trans h1 h2 h3 : same h1 h2 -> same h2 h3 -> same h1 h3.
Proof. intros [A1 A2 A3 A4 A5] [B1 B2 B3 B4 B5]. split; [by etrans|congruence..|auto|done]. Qed.

Lemma not_dispatched R (e : aeff R) r c x h : is_dispatch (Event e r) = false ->
  Event (Dispatch c) x ∈ Event e r :: h -> Event (Dispatch c) x ∈ h.
Proof. intros Hd [E|Hin]%elem_of_cons; [|done]. apply (f_equal is_dispatch) in E. by rewrite Hd in E. Qed.

Lemma proposed_step R (e : aeff R) r h : is_dispatch (Event e r) = false -> proposed (Event e r :: h) -> proposed h.
Proof.
  intros Hd (c & x & Hin & Hc). exists c, x. split; [by eapply not_dispatched|]. intros y Hy. apply Hc. by right.
Qed.

Lemma same_step R (e : aeff R) r h h' : quiet R e = true -> same h h' -> same h (Event e r :: h').
Proof.
  intros Hq Hs. apply (same_trans h h'); [done|]. destruct Hs as [_ _ _ _ He]. split; [by right| | | |].
  - by destruct e.
  - by destruct e.
  - apply proposed_step. by destruct e.
  - unfold ended in *. cbn. rewrite He, orb_false_r. unfold is_end. destruct e; try done. cbn in *. by apply negb_true_iff in Hq.
Qed.

Section Runs.
Context (locale_le : string -> string -> bool) (o : RuntimeOptions).

(** *** What must have happened before an effect *)

(** A call of a model's message that was let through. *)
Record cleared (c : ToolCall) (h : agent_history) : Prop := {
  cl_effect : exists effect, Event (Classify (tc_name c)) (inr (Some effect)) ∈ h /\ effect <> write;
  cl_name : deniedTool (tc_name c) = false;
  cl_asked : exists m v, v ∈ calls_of m /\ call_of v = Some c /\
    (persistsMessages o = true -> Event (PersistMessage (Assistant m)) (inr tt) ∈ h);
  cl_recorded : persistsLifecycle o = true -> Event (PersistLifecycle planned c None) (inr tt) ∈ h /\
    Event (PersistLifecycle started c None) (inr tt) ∈ h
}.

Definition agent_pre R (e : aeff R) (h : agent_history) : Prop := ended h = false /\
  match e with
  | Dispatch c => cleared c h /\ Z.of_nat (dispatched h) < maxToolCalls o
  | Complete p _ => Z.of_nat (length (completions h)) < maxIterations o + Z.of_nat (length (providers o)) - 1 /\
      (proposed h -> head (completions h) = Some p)
  | Yield (RunCompleted _ i n) => 1 <= i <= maxIterations o /\ n = Z.of_nat (dispatched h) /\ n <= maxToolCalls o
  | _ => True
  end.

#[local] Abbreviation runs p Q h := (ensures (E := aeff) agent_pre (fun _ _ _ => True) record_event p Q h).

Lemma quiet_pre R (e : aeff R) h : quiet R e = true -> ended h = false -> agent_pre R e h.
Proof. intros Hq He. split; [done|]. destruct e as [[]| | | | | | |]; done. Qed.

Lemma runs_ado R (e : aeff R) (Q : Thrown + R -> agent_history -> Prop) h0 h : quiet R e = true -> same h0 h ->
  (forall r, same h0 (Event e r :: h) -> Q (inr r) (Event e r :: h)) -> runs (ado e) Q h.
Proof.
  intros Hq Hs HQ. split; [apply quiet_pre; [done|by destruct Hs]|]. intros r _. apply HQ. by apply same_step.
Qed.

Lemma runs_acall R (e : aeff (Thrown + R)) (Q : Thrown + R -> agent_history -> Prop) h0 h : quiet _ e = true -> same h0 h ->
  (forall r, same h0 (Event e r :: h) -> Q r (Event e r :: h)) -> runs (acall e) Q h.
Proof.
  intros Hq Hs HQ. split; [apply quiet_pre; [done|by destruct Hs]|]. intros r _.
  specialize (HQ r (same_step _ _ _ _ _ Hq Hs)). by destruct r.
Qed.

Lemma persist_runs m (Q : Thrown + unit -> agent_history -> Prop) h0 h : same h0 h ->
  (forall e h', same h0 h' -> Q (inl e) h') ->
  (forall h', same h0 h' -> h ⊆ h' -> (persistsMessages o = true -> Event (PersistMessage m) (inr tt) ∈ h') -> Q (inr tt) h') ->
  runs (persist o m) Q h.
Proof.
  intros Hs H1 H2. unfold persist. destruct (persistsMessages o); [|by apply H2].
  apply (runs_acall _ _ _ h0); [done..|]. intros [e|[]] Hs'; [by apply H1|]. apply H2; [done|by right|by left].
Qed.

Lemma lifecycle_runs s c x (Q : Thrown + unit -> agent_history -> Prop) h0 h : same h0 h ->
  (forall e h', same h0 h' -> Q (inl e) h') ->
  (forall h', same h0 h' -> h ⊆ h' -> (persistsLifecycle o = true -> Event (PersistLifecycle s c x) (inr tt) ∈ h') -> Q (inr tt) h') ->
  runs (lifecycle o s c x) Q h.
Proof.
  intros Hs H1 H2. unfold lifecycle. destruct (persistsLifecycle o); [|by apply H2].
  apply (runs_acall _ _ _ h0); [done..|]. intros [e|[]] Hs'; [by apply H1|]. apply H2; [done|by right|by left].
Qed.

Lemma fail_when_runs b code (Q : Thrown + unit -> agent_history -> Prop) h :
  (b = true -> Q (inl (AgentRuntimeError code)) h) -> (b = false -> Q (inr tt) h) -> runs (fail_when b code) Q h.
Proof. intros H1 H2. destruct b; [by apply H1|by apply H2]. Qed.

Lemma raise_runs {A} (r : Thrown + A) (Q : Thrown + A -> agent_history -> Prop) h : Q r h -> runs (raise r) Q h.
Proof. by destruct r. Qed.

(** *** Asking the providers *)

(** The step that asks a provider. *)
Lemma same_asked p ms r h : ended h = false -> let h' := Event (Complete p ms) r :: h in
  h ⊆ h' /\ dispatched h' = dispatched h /\ completions h' = p :: completions h /\ (proposed h' -> proposed h) /\ ended h' = false.
Proof. intros He. split_and!; [by right|done..| |by rewrite <- He]. by apply proposed_step. Qed.

Record answered (h : agent_history) (index : nat) (asks : Z) (h' : agent_history) : Prop := {
  an_more : h ⊆ h';
  an_dispatched : dispatched h' = dispatched h;
  an_proposed : proposed h' -> proposed h;
  an_running : ended h' = false;
  an_last : head (completions h') = providers o !! index;
  an_index : (index < length (providers o))%nat;
  an_count : Z.of_nat (length (completions h')) <= asks + Z.of_nat index
}.

Definition asked_as (h : agent_history) (iteration : Z) (r : Thrown + option (value * nat)) (h' : agent_history) : Prop :=
  match r with
  | inl _ | inr None => ended h' = false
  | inr (Some (_, i)) => answered h i iteration h'
  end.

Lemma asked_as_more h h1 iteration r h' : same h h1 -> asked_as h1 iteration r h' -> asked_as h iteration r h'.
Proof.
  intros [A1 A2 A3 A4 A5]. destruct r as [|[[m i]|]]; try done. intros [B1 B2 B3 B4 B5 B6 B7].
  split; [by etrans|congruence|auto|done..].
Qed.

(** What the loop over the providers knows at [index]. *)
Record asking (index : nat) (iteration : Z) (s : RunState) (h : agent_history) : Prop := {
  as_running : ended h = false;
  as_turn : 1 <= iteration <= maxIterations o;
  as_count : Z.of_nat (length (completions h)) <= iteration - 1 + Z.of_nat index;
  as_proposed : proposed h -> sideEffects s = true;
  as_last : sideEffects s = true -> head (completions h) = providers o !! index
}.

Lemma asking_same index iteration s h h' : same h h' -> asking index iteration s h -> asking index iteration s h'.
Proof. intros [A1 A2 A3 A4 A5] [B1 B2 B3 B4 B5]. split; [done|done|by rewrite A3|auto|by rewrite A3]. Qed.

Lemma provider_here (ps : list string) p ps' index : drop index ps = p :: ps' -> ps !! index = Some p /\ drop (S index) ps = ps'.
Proof.
  intros H. assert (ps !! index = Some p) as Hp.
  { rewrite <- (Nat.add_0_r index), <- lookup_drop, H. done. }
  split; [done|]. apply drop_S in Hp. congruence.
Qed.

Lemma complete_pre p ms ps' index iteration s h : drop index (providers o) = p :: ps' -> asking index iteration s h ->
  agent_pre _ (Complete p ms) h.
Proof.
  intros [Hp _]%provider_here [He Ht Hc Hs Hl]. split; [done|]. apply lookup_lt_Some in Hp as Hlt.
  split; [lia|]. intros Hpr. by rewrite Hl, Hp by auto.
Qed.

Lemma ask_failed_runs p (ps' : list string) e s h (Q : Thrown + option value -> agent_history -> Prop) h0 : same h0 h ->
  (forall e' h', same h0 h' -> Q (inl e') h') ->
  (forall h', same h0 h' -> sideEffects s = false -> Q (inr None) h') ->
  runs
    (let* aborted := ado Aborted in
     if aborted then Throw e
     else yield (ProviderFailed p e) ;; fail_when (sideEffects s || match ps' with [] => true | _ => false end) MODEL_ERROR ;;
          Ret None) Q h.
Proof.
  intros Hs H1 H2. apply ensures_bind, (runs_ado _ _ _ h0); [done..|]. intros [|] Hs1; [by apply H1|].
  apply ensures_bind, (runs_ado _ _ _ h0); [done..|]. intros [] Hs2.
  apply ensures_bind, fail_when_runs; [intros _; by apply H1|]. intros Hb. apply H2; [done|]. by destruct (sideEffects s).
Qed.

Lemma ask_providers_runs iteration s ps index h : drop index (providers o) = ps -> asking index iteration s h ->
  runs (ask_providers ps index iteration s) (asked_as h iteration) h.
Proof.
  revert index h. induction ps as [|p ps' IH]; intros index h Hps Ha; [apply Ha|]. cbn [ask_providers].
  apply ensures_bind, (runs_ado _ _ _ h); [done|apply same_start, Ha|]. intros [] Hs1.
  apply (asking_same _ _ _ _ _ Hs1) in Ha. apply ensures_bind, ensures_catch, ensures_bind. unfold acall. cbn [bind trigger ensures].
  split; [by eapply complete_pre|]. intros r _. set (h1 := Event (Yield (ModelRequested p iteration)) tt :: h) in *.
  destruct (same_asked p (messages s) r h1 (as_running _ _ _ _ Ha)) as (M1 & M2 & M3 & M4 & M5).
  set (h2 := Event (Complete p (messages s)) r :: h1) in *.
  assert (forall e, runs
    (let* aborted := ado Aborted in
     if aborted then Throw e
     else yield (ProviderFailed p e) ;; fail_when (sideEffects s || match ps' with [] => true | _ => false end) MODEL_ERROR ;;
          Ret None)
    (fun r g => match r with
      | inl x => asked_as h iteration (inl x) g
      | inr a => runs
          match a with Some m => Ret (Some (m, index)) | None => ask_providers ps' (S index) iteration s end
          (asked_as h iteration) g end) h2) as Hfail.
  { intros e. apply (ask_failed_runs _ _ _ _ _ _ h2); [by apply same_start|by intros ? ? [_ _ _ _ ?]|].
    intros h3 Hs3 Hno. destruct (provider_here _ _ _ _ Hps) as [Hp Hdrop].
    eapply ensures_mono; [apply (IH (S index)); [done|]|].
    - destruct Ha as [B1 B2 B3 B4 B5], Hs3 as [C1 C2 C3 C4 C5]. split; [done|done| |auto|congruence].
      rewrite C3, M3. cbn [length]. lia.
    - intros r' h' H. destruct r' as [|[[m i]|]]; try done. destruct H as [D1 D2 D3 D4 D5 D6 D7], Hs1, Hs3.
      split; [by do 3 (etrans; [done|])|congruence|auto|done..]. }
  destruct r as [e|response]; cbn [raise bind ensures]; [apply Hfail|].
  apply ensures_bind, raise_runs. destruct (validateResponse response) as [e|m]; [apply Hfail|].
  apply ensures_bind, (runs_ado _ _ _ h2); [done|by apply same_start|]. intros [] Hs3. cbn.
  destruct (provider_here _ _ _ _ Hps) as [Hp _], Ha as [B1 B2 B3 B4 B5], Hs3 as [C1 C2 C3 C4 C5], Hs1 as [D1 D2 D3 D4 D5].
  apply lookup_lt_Some in Hp as Hlt. split; [by do 2 (etrans; [done|])|congruence|auto|done|by rewrite C3, M3, Hp|done|].
  rewrite C3, M3. cbn [length]. lia.
Qed.

(** *** Judging the calls *)

Definition passed (calls : list value) (h : agent_history) (x : ToolCall * string * ToolEffect) : Prop :=
  Event (Classify (tc_name x.1.1)) (inr (Some x.2)) ∈ h /\ x.2 <> write /\ deniedTool (tc_name x.1.1) = false /\
  exists v, v ∈ calls /\ call_of v = Some x.1.1.

Lemma passed_more calls calls' h h' x : passed calls h x -> calls ⊆ calls' -> h ⊆ h' -> passed calls' h' x.
Proof. intros (H1 & H2 & H3 & v & Hv & Hc) Hsub Hh. split_and!; [by apply Hh|done..|]. exists v. auto. Qed.

(** A failure leaves what is counted alone, and so does the result. *)
Definition quietly {A} (h : agent_history) (Q : A -> agent_history -> Prop) (r : Thrown + A) (h' : agent_history) : Prop :=
  same h h' /\ match r with inr a => Q a h' | inl _ => True end.

Lemma validate_calls_runs calls seen s h0 h : same h0 h ->
  runs (validate_calls locale_le o calls seen s)
    (quietly h0 (fun l h' => Forall (passed calls h') l /\ length l = length calls /\ h ⊆ h')) h.
Proof.
  revert seen h. induction calls as [|v calls IH]; intros seen h Hs; [by split|]. cbn [validate_calls].
  destruct (call_of v) as [c|] eqn:Hc; [|by split].
  apply ensures_bind, fail_when_runs; intros _; [by split|].
  apply ensures_bind, raise_runs. destruct (signature_of _ c) as [e|sg]; [by split|].
  apply ensures_bind, fail_when_runs; intros _; [by split|].
  apply ensures_bind, (runs_acall _ _ _ h0); [done..|]. intros [e|[effect|]] Hs1; [by split| |by split].
  apply ensures_bind, fail_when_runs; [by split|]. intros [Hw Hd]%orb_false_iff. apply bool_decide_eq_false in Hw.
  apply ensures_bind. eapply ensures_mono; [by apply IH|]. intros r h' [Hs2 Hr].
  destruct r as [e|l]; [by split|]. cbn. split; [done|]. destruct Hr as (Hl & Hlen & Hh). split_and!; [|cbn; by rewrite Hlen|intros x Hx; by apply Hh; right].
  apply Forall_cons. split.
  - split_and!; [apply Hh; by left|done..|]. exists v. split; [by left|done].
  - eapply Forall_impl; [exact Hl|]. intros x Hx. eapply passed_more; [done|by right|done].
Qed.

(** *** Dispatching them *)

(** The invariant of the run, after [n] turns. *)
Record inv (n : Z) (s : RunState) (h : agent_history) : Prop := {
  in_running : ended h = false;
  in_count : Z.of_nat (length (completions h)) <= n + Z.of_nat (activeProvider s);
  in_tools : toolCount s = Z.of_nat (dispatched h);
  in_budget : toolCount s <= maxToolCalls o;
  in_proposed : proposed h -> sideEffects s = true;
  in_last : sideEffects s = true \/ 0 < n -> head (completions h) = providers o !! activeProvider s
}.

Lemma turns_same n s h h' : same h h' -> inv n s h -> inv n s h'.
Proof. intros [A1 A2 A3 A4 A5] [B1 B2 B3 B4 B5 B6]. split; [done|by rewrite A3|by rewrite A2|done|auto|by rewrite A3]. Qed.

Lemma inv_state n s s' h : toolCount s' = toolCount s -> sideEffects s' = sideEffects s -> activeProvider s' = activeProvider s ->
  inv n s h -> inv n s' h.
Proof. intros H1 H2 H3 [A1 A2 A3 A4 A5 A6]. split; by rewrite ?H1, ?H2, ?H3. Qed.

(** A dispatch whose tool was classified as [effect]. *)
Lemma proposed_dispatch c x effect h : Event (Classify (tc_name c)) (inr (Some effect)) ∈ h ->
  proposed (Event (Dispatch c) x :: h) -> effect = proposal \/ proposed h.
Proof.
  intros Hcl (d & r & Hin & Hd). apply elem_of_cons in Hin as [E|Hin].
  - left. assert (tc_name d = tc_name c) as En.
    { pose (f := fun ev : event aeff => match ev with Event e _ => match e with Dispatch c => tc_name c | _ => "" end end).
      by apply (f_equal f) in E. }
    rewrite En in Hd. specialize (Hd _ (list_elem_of_further _ _ _ Hcl)). congruence.
  - right. exists d, r. split; [done|]. intros y Hy. apply Hd. by right.
Qed.

(** A failure leaves the run without an end. *)
Definition still {A} (Q : A -> agent_history -> Prop) (r : Thrown + A) (h : agent_history) : Prop :=
  match r with inr a => Q a h | inl _ => ended h = false end.

Lemma still_failed {A} (Q : A -> agent_history -> Prop) h0 h : same h0 h -> forall e, still Q (inl e) h.
Proof. by intros [_ _ _ _ ?] e. Qed.

(** A dispatch that was answered. *)
Lemma dispatched_inv n s h c effect sg x : 0 < n -> inv n s h -> Event (Classify (tc_name c)) (inr (Some effect)) ∈ h ->
  toolCount s < maxToolCalls o -> inv n (executed effect (bump sg s)) (Event (Dispatch c) (inr x) :: h).
Proof.
  intros Hn [A1 A2 A3 A4 A5 A6] Hcl Hlt. split; cbn [executed bump toolCount sideEffects activeProvider].
  - done.
  - done.
  - rewrite A3. unfold dispatched. cbn. lia.
  - lia.
  - intros [->|Hp]%(proposed_dispatch _ _ _ _ Hcl); [by rewrite bool_decide_true, orb_true_r|by rewrite A5].
  - intros _. apply A6. by right.
Qed.

Lemma dispatch_one_runs c h (Q : Thrown + value -> agent_history -> Prop) : cleared c h -> ended h = false ->
  Z.of_nat (dispatched h) < maxToolCalls o ->
  (forall e h', ended h' = false -> Q (inl e) h') ->
  (forall x h', same (Event (Dispatch c) (inr x) :: h) h' -> Q (inr x) h') ->
  runs (dispatch_one o c) Q h.
Proof.
  intros Hc He Hlt H1 H2. unfold dispatch_one. apply ensures_catch, ensures_bind. unfold acall. cbn [bind trigger ensures].
  split; [by split|]. intros r _. set (h1 := Event (Dispatch c) r :: h).
  assert (forall e h', same h1 h' -> runs
    (let* aborted := ado Aborted in (if aborted then Ret tt else lifecycle o failed c None) ;; Throw e) Q h') as Hfail.
  { intros e h' Hs. apply ensures_bind, (runs_ado _ _ _ h1); [done..|]. intros [|] Hs1; [by apply H1; destruct Hs1|].
    apply ensures_bind, (lifecycle_runs _ _ _ _ h1); [done|by intros e' h'' [_ _ _ _ ?]; apply H1|].
    intros h'' [_ _ _ _ ?] _ _. by apply H1. }
  destruct r as [e|x]; cbn [raise bind ensures]; [by apply Hfail, same_start|].
  apply ensures_bind, (lifecycle_runs _ _ _ _ h1); [by apply same_start|intros e h' Hs; by apply Hfail|].
  intros h' Hs _ _. by apply H2.
Qed.

Lemma dispatch_calls_runs n m l s h : 0 < n -> inv n s h -> Forall (passed (calls_of m) h) l ->
  (persistsMessages o = true -> Event (PersistMessage (Assistant m)) (inr tt) ∈ h) ->
  toolCount s + Z.of_nat (length l) <= maxToolCalls o ->
  runs (dispatch_calls locale_le o l s) (still (inv n)) h.
Proof.
  intros Hn. revert s h. induction l as [|[[c sg] effect] l IH]; intros s h Hinv Hl Hm Hb; [done|]. cbn [dispatch_calls].
  apply Forall_cons in Hl as [Hc Hl]. pose proof (in_running _ _ _ Hinv) as He.
  apply ensures_bind, (lifecycle_runs _ _ _ _ h); [by apply same_start|intros e h' Hs; by eapply still_failed|].
  intros h1 Hs1 Hh1 Hp1. apply ensures_bind, (runs_ado _ _ _ h); [done..|]. intros [] Hs2. set (h2 := _ :: h1) in *.
  apply ensures_bind, (lifecycle_runs _ _ _ _ h); [done|intros e h' Hs; by eapply still_failed|].
  intros h3 Hs3 Hh3 Hp3. destruct Hc as (Hcl & Hw & Hd & v & Hv & Hcall). cbn [fst snd] in *.
  apply (turns_same _ _ _ _ Hs3) in Hinv. pose proof (sm_more _ _ Hs3) as Hsub. cbn [length] in Hb.
  apply ensures_bind, dispatch_one_runs; [| |rewrite <- (in_tools _ _ _ Hinv); lia|done|].
  { split; [by exists effect; auto|done|exists m, v; auto|]. intros Hlc. split; [|by apply Hp3]. apply Hh3. right. by apply Hp1. }
  { apply Hinv. }
  intros x h4 Hs4. apply (dispatched_inv _ _ _ c effect sg x) in Hinv; [|done|by apply Hsub|lia].
  apply (turns_same _ _ _ _ Hs4) in Hinv. assert (h ⊆ h4) as Hsub4 by (intros y Hy; apply (sm_more _ _ Hs4); right; by apply Hsub).
  apply ensures_bind, (runs_ado _ _ _ h4); [done|apply same_start, Hinv|]. intros [] Hs5.
  apply ensures_bind, raise_runs. destruct (stableStringify _ _) as [e|content]; [by eapply still_failed|].
  cbv zeta. apply ensures_bind, ensures_catch, (persist_runs _ _ h4); [done| |].
  - intros e h' Hs. apply ensures_bind, (lifecycle_runs _ _ _ _ h4); [done|intros e' h'' Hs'; by eapply still_failed|].
    intros h'' Hs' _ _. by eapply still_failed.
  - intros h' Hs _ _. apply (turns_same _ _ _ _ Hs) in Hinv. pose proof (sm_more _ _ Hs) as Hsub'. apply IH.
    + by apply (inv_state _ (executed effect (bump sg s))).
    + eapply Forall_impl; [exact Hl|]. intros y Hy. eapply passed_more; [done..|]. by etrans.
    + intros Hpm. by apply Hsub', Hsub4, Hm.
    + cbn. lia.
Qed.

(** *** The turns, and the run *)

(** The run ended, with this event, just now. *)
Definition just_ended (h : agent_history) : Prop := exists e h', h = Event (Yield e) tt :: h' /\ terminal e = true /\ ended h' = false.

Definition turn_post (r : Thrown + unit) (h : agent_history) : Prop :=
  match r with inr _ => just_ended h | inl _ => ended h = false end.

Lemma answered_inv n s h index h' : inv (n - 1) s h -> answered h index n h' -> inv n (set_active index s) h'.
Proof.
  intros [A1 A2 A3 A4 A5 A6] [B1 B2 B3 B4 B5 B6 B7]. split; cbn [set_active activeProvider toolCount sideEffects]; try done.
  - by rewrite B2.
  - auto.
Qed.

Lemma inv_asking n s h : 1 <= n <= maxIterations o -> inv (n - 1) s h -> asking (activeProvider s) n s h.
Proof. intros Hn [A1 A2 A3 A4 A5 A6]. split; auto. Qed.

Lemma completed_runs m n s h h0 : inv n s h0 -> 1 <= n <= maxIterations o -> same h0 h ->
  runs (persist o (Assistant m) ;; yield (RunCompleted m n (toolCount s))) turn_post h.
Proof.
  intros Hinv Hn Hs. apply (turns_same _ _ _ _ Hs) in Hinv.
  apply ensures_bind, (persist_runs _ _ h); [apply same_start, Hinv|by intros e h' [_ _ _ _ ?]|].
  intros h' Hs' _ _. apply (turns_same _ _ _ _ Hs') in Hinv. destruct Hinv as [A1 A2 A3 A4 A5 A6].
  cbn. split; [split; [done|]; split_and!; done || lia|]. intros [] _. exists (RunCompleted m n (toolCount s)), h'. done.
Qed.

Lemma iterate_runs left iteration s h : 1 <= iteration -> iteration + Z.of_nat left = maxIterations o + 1 ->
  inv (iteration - 1) s h -> runs (iterate locale_le o left iteration s) turn_post h.
Proof.
  revert iteration s h. induction left as [|left IH]; intros n s h Hn Hmax Hinv; [apply Hinv|]. cbn [iterate].
  assert (n <= maxIterations o) as Hle by lia.
  apply ensures_bind, (runs_ado _ _ _ h); [done|apply same_start, Hinv|]. intros [|] Hs1; [by destruct Hs1|].
  apply ensures_bind, (runs_ado _ _ _ h); [done..|]. intros [] Hs2. set (h2 := _ :: _) in *. apply (turns_same _ _ _ _ Hs2) in Hinv.
  apply ensures_bind. eapply ensures_mono; [apply ask_providers_runs; [done|by apply inv_asking]|].
  intros [e|[[m index]|]] h3; [done| |done]. intros Hans. apply (answered_inv _ _ _ _ _ Hinv) in Hans as Hinv'.
  pose proof (in_running _ _ _ Hinv') as He. cbn [asked_as] in *.
  destruct (calls_of m) as [|v calls] eqn:Hcalls.
  { eapply (completed_runs m n (set_active index s)); [done..|by apply same_start]. }
  rewrite <- Hcalls. apply ensures_bind, fail_when_runs; intros _; [done|].
  apply ensures_bind, fail_when_runs; [done|]. intros Hb%Z.ltb_ge.
  apply ensures_bind, fail_when_runs; intros _; [done|].
  apply ensures_bind. eapply ensures_mono; [by apply (validate_calls_runs _ _ _ h3), same_start|].
  intros r h4 [Hs4 Hr]. destruct r as [e|l]; [by destruct Hs4|]. destruct Hr as (Hl & Hlen & _).
  apply ensures_bind, (persist_runs _ _ h4); [by apply same_start; destruct Hs4|by intros e h' [_ _ _ _ ?]|].
  intros h5 Hs5 _ Hp5. apply (turns_same _ _ _ _ Hs4), (turns_same _ _ _ _ Hs5) in Hinv'.
  apply ensures_bind. eapply ensures_mono; [apply (dispatch_calls_runs n m); [lia|by apply (inv_state _ (set_active index s))| |done|]|].
  - eapply Forall_impl; [exact Hl|]. intros y Hy. eapply passed_more; [done..|apply Hs5].
  - cbn. rewrite Hlen. done.
  - intros [e|s'] h6; [done|]. cbn. intros Hinv6. apply IH; [lia|lia|by replace (n + 1 - 1) with n by lia].
Qed.

Definition run_post (r : Thrown + unit) (h : agent_history) : Prop := r = inr tt /\ just_ended h.

Lemma end_runs e h : ended h = false -> terminal e = true -> match e with RunCompleted _ _ _ => False | _ => True end ->
  runs (yield e) run_post h.
Proof. intros He Ht Hn. split; [split; [done|by destruct e]|]. intros [] _. split; [done|]. by exists e, h. Qed.

Lemma run_runs input : 1 <= maxIterations o -> 0 <= maxToolCalls o -> runs (run locale_le o input) run_post [].
Proof.
  intros Hi Ht. unfold run. apply ensures_bind, (runs_ado _ _ _ []); [done|by apply same_start|]. intros [] Hs. set (h := [_]) in *.
  apply ensures_catch. eapply ensures_mono; [apply iterate_runs; [lia|lia|]|].
  - split; [done|cbn; lia|done|cbn; lia| |intros [?|?]; [done|lia]].
    intros (c & r & ?%elem_of_nil & _)%(sm_proposed _ _ Hs). done.
  - intros [e|[]] h' Hr; [|done]. cbn in Hr. apply ensures_bind, (runs_ado _ _ _ h'); [done|by apply same_start|].
    intros [|] Hs1; [|by apply end_runs; destruct Hs1].
    apply ensures_bind, (runs_ado _ _ _ h'); [done..|]. intros [|] Hs2; apply end_runs; by destruct Hs2.
Qed.
End Runs.

(** *** Theorems *)

Lemma positive_integer_pos x z : positive_integer x = Some z -> 1 <= z.
Proof.
  unfold positive_integer. destruct x as [| |q]; [done..|]. destruct (num_isInteger _); [|done]. cbn [andb].
  destruct (Z.ltb_spec 0 (Qround.Qfloor q)); [|done]. intros [= <-]. lia.
Qed.

Lemma agent_runtime_limits ids d m lc i t rp o : agent_runtime ids d m lc i t rp = inr o ->
  1 <= maxIterations o /\ 0 <= maxToolCalls o.
Proof.
  unfold agent_runtime. destruct ids as [|p ps]; [done|].
  destruct (positive_integer (default _ i)) eqn:Ei; [|done]. destruct (positive_integer (default _ t)) eqn:Et; [|done].
  destruct (positive_integer (default _ rp)); [|done]. intros [= <-]. cbn.
  apply positive_integer_pos in Ei, Et. lia.
Qed.

(** C25: whatever the models, the tools and the storage answer and whenever the run is
    aborted, a run of the agent loop dispatches only a call of a model's message that was
    persisted before, has the effect of a read or a proposal by the dispatcher's own
    classification, no forbidden name, and is recorded as planned and started; it dispatches
    fewer than `maxToolCalls` calls before each, and asks a model fewer times than
    `maxIterations` and the number of providers, less one, before each question; after a
    proposal was carried out no other provider is asked than the one asked last; and nothing
    happens after the event that ends the run, whose number of calls is the true one. *)
Theorem agent_bounded locale_le ids d m lc i t rp o input l p : agent_runtime ids d m lc i t rp = inr o ->
  traces (run locale_le o input) l p -> forall l1 ev l2, l = l1 ++ ev :: l2 -> allowed (agent_pre o) ev (rev l1).
Proof.
  intros [Hi Ht]%agent_runtime_limits Htr l1 ev l2 ->. eapply history_allowed; [|exact Htr].
  eapply ensures_follows. by apply run_runs.
Qed.

(** A run of the agent loop that is read to its end never throws, and ends with exactly
    one event that says how: completed, failed or cancelled. *)
Theorem agent_ends locale_le ids d m lc i t rp o input l (r : Thrown + unit) : agent_runtime ids d m lc i t rp = inr o ->
  traces (run locale_le o input) l (finished r) ->
  r = inr tt /\ exists l' e, l = l' ++ [Event (Yield e) tt] /\ terminal e = true /\
    forall e', Event (Yield e') tt ∈ l' -> terminal e' = false.
Proof.
  intros [Hi Ht]%agent_runtime_limits Htr. pose proof (run_runs locale_le o input Hi Ht) as He.
  eapply ensures_traces in He; [|exact Htr|apply Forall_forall; by intros []].
  unfold agent_history in He. rewrite ghost_after_history, app_nil_r in He.
  assert (run_post r (rev l)) as [-> (e & h' & Hh & Hterm & Hend)] by (by destruct r). split; [done|].
  exists (rev h'), e. split; [by rewrite <- (rev_involutive l), Hh|]. split; [done|]. intros e' Hin.
  apply not_true_iff_false. intros Htrue. apply not_true_iff_false in Hend. apply Hend. apply existsb_exists.
  exists (Event (Yield e') tt). split; [|done]. by apply in_rev, list_elem_of_In.
Qed.

(** *** Runs worth knowing *)

Definition demo_call (id : string) : value := V_object [("id", V_string id); ("name", V_string "quote"); ("arguments", V_object [])].

Definition demo_response (calls : list value) : value :=
  V_object [("message", V_object [("role", V_string "assistant"); ("content", V_string ""); ("toolCalls", V_array calls)])].

Definition demo_options : RuntimeOptions :=
  {| providers := ["model"]; has_tools := true; maxIterations := 8; maxToolCalls := 16; maxRepeatedToolCalls := 3;
     persistsMessages := true; persistsLifecycle := true |}.

(** An environment: what the model says in turn, what a tool answers, whether the run is
    cancelled after its first call, and whether it is by now. *)
Definition demo_env (result : value) (cancels : bool) R (e : aeff R) (w : list value * bool) : R * (list value * bool) :=
  match e in aeff R return R * (list value * bool) with
  | Yield t => (tt, match t with ToolCompleted _ _ => (w.1, cancels) | _ => w end)
  | Aborted => (w.2, w)
  | TimedOut => (false, w)
  | Complete _ _ => (match w.1 with r :: _ => inr r | [] => inl (Other "down") end, (tail w.1, w.2))
  | PersistMessage _ => (inr tt, w)
  | PersistLifecycle _ _ _ => (inr tt, w)
  | Classify _ => (inr (Some proposal), w)
  | Dispatch _ => (if w.2 then inl (Other "aborted") else inr result, w)
  end.

Definition demo_run (result : value) (cancels : bool) (says : list value) : list (event aeff) :=
  run_trace (demo_env result cancels) (run (fun _ _ => true) demo_options []) (says, false).

(** The statuses and dispatches of a trace, and how it ends. *)
Definition demo_shows (l : list (event aeff)) : list (string * LifecycleStatus) * nat * option AgentEvent :=
  (omap (fun ev => match ev with Event e _ => match e with PersistLifecycle s c _ => Some (tc_id c, s) | _ => None end end) l,
   dispatched l,
   match last l with Some (Event e _) => match e with Yield t => Some t | _ => None end | None => None end).

(** A run that is cancelled between two calls dispatches the second one all the same, and
    leaves it recorded as started. *)
Lemma cancelled_run_dispatches :
  demo_shows (demo_run (V_bool true) true [demo_response [demo_call "1"; demo_call "2"]]) =
  ([("1", planned); ("1", started); ("1", succeeded); ("2", planned); ("2", started)], 2%nat, Some RunCancelled).
Proof. by vm_compute. Qed.

(** The limit on repeated calls is not applied within a response. *)
Lemma batch_of_repeats :
  (demo_shows (demo_run (V_bool true) false [demo_response (map demo_call ["1"; "2"; "3"; "4"; "5"]); demo_response []])).1.2 = 5%nat /\
  maxRepeatedToolCalls demo_options = 3.
Proof. by vm_compute. Qed.

(** A tool whose result holds a bigint, as the intent of a preview does, ends the run as a
    failure of the model after the call was recorded as a success. *)
Lemma bigint_result_fails :
  demo_shows (demo_run (V_object [("amount", V_bigint 5)]) false [demo_response [demo_call "1"]; demo_response []]) =
  ([("1", planned); ("1", started); ("1", succeeded)], 1%nat, Some (RunFailed MODEL_ERROR)).
Proof. by vm_compute. Qed.

(** A run with one call. *)
Definition demo_trace : list (event aeff) := demo_run (V_bool true) false [demo_response [demo_call "1"]; demo_response []].

Definition demo_tool_call : ToolCall := {| tc_id := "1"; tc_name := "quote"; tc_arguments := Some (V_object []) |}.

Lemma agent_bounded_witness :
  demo_trace = take 11 demo_trace ++ Event (Dispatch demo_tool_call) (inr (V_bool true)) :: drop 12 demo_trace /\
  cleared demo_options demo_tool_call (rev (take 11 demo_trace)) /\ Z.of_nat (dispatched (rev (take 11 demo_trace))) < 16.
Proof.
  assert (Heq : demo_trace = take 11 demo_trace ++ Event (Dispatch demo_tool_call) (inr (V_bool true)) :: drop 12 demo_trace)
    by (vm_compute; reflexivity).
  split; [exact Heq|].
  exact (proj2 (agent_bounded (fun _ _ => true) ["model"] true true true None None None demo_options [] demo_trace _
    ltac:(vm_compute; reflexivity)
    (run_traces (demo_env (V_bool true) false) (run (fun _ _ => true) demo_options [])
      ([demo_response [demo_call "1"]; demo_response []], false)) _ _ _ Heq)).
Defined.

Lemma agent_ends_witness : exists l' e, demo_trace = l' ++ [Event (Yield e) tt] /\ terminal e = true.
Proof.
  destruct (agent_ends (fun _ _ => true) ["model"] true true true None None None demo_options [] demo_trace _
    ltac:(vm_compute; reflexivity)
    (run_traces (demo_env (V_bool true) false) (run (fun _ _ => true) demo_options [])
      ([demo_response [demo_call "1"]; demo_response []], false))) as (_ & l' & e & H1 & H2 & _).
  exists l', e. split; [exact H1|exact H2].
Defined.
