(* ===== verification/Tools.v ===== *)
(** The tools of the agent: the registry (`src/agent/tools/registry.ts`), the dispatcher
    over it (`RegistryDispatcher` of `src/app/adapters.ts`) and the adapter that registers
    the kernel's intent tools (`src/tools/intent-bridge.ts`).

    A schema is the function its `safeParse` is, an argument; the body of a tool is
    data of its definition, which the effect [Execute] carries.  Descriptions, JSON schemas
    and messages of errors are left out. *)
From stdpp Require Import pretty.
From S2P Require Import Prelude Prog Canonical Contracts Agent.
#[local] Open Scope string_scope.
#[local] Open Scope list_scope.
#[local] Open Scope Z_scope.
#[local] Open Scope prog_scope.

(** *** Data *)

Inductive RegistryEffect : Type := E_read | E_write | E_trade | E_admin.

#[export] Instance RegistryEffect_eq_dec : EqDecision RegistryEffect.
Proof. solve_decision. Defined.

Inductive ToolErrorCode : Type :=
  | UNKNOWN_TOOL | CAPABILITY_DENIED | UNAVAILABLE | INVALID_INPUT | INVALID_OUTPUT | TIMEOUT | CANCELLED | EXECUTION_ERROR.

Record ToolDefinition {Body : Type} : Type := {
  t_name : string; inputSchema : value -> option value; outputSchema : value -> option value;
  t_capabilities : list string; t_effect : RegistryEffect; parallelSafe : bool; timeoutMs : option Z;
  has_availability : bool; t_body : Body
}.
Arguments ToolDefinition : clear implicits.

Record ToolResult : Type := { tr_invocationId : string; tr_tool : string; tr_outcome : ToolErrorCode + value }.

Record ToolAuditEvent : Type := {
  phase_finish : bool; ae_invocationId : string; ae_tool : string; ae_effect : RegistryEffect; ae_parallelSafe : bool;
  ae_ok : option bool; ae_errorCode : option ToolErrorCode
}.

Record ToolFilter : Type := { f_toolset : option string; f_capabilities : option (list string) }.

Record InvocationContext : Type := { ic_capabilities : list string; ic_invocationId : option string }.

(** What the race of a tool with its deadline and its caller came to. *)
Record Raced : Type := { rc_settled : string + value; rc_aborted : bool; rc_timeout : bool }.

Section Registry.
Context {Body : Type}.
#[local] Abbreviation Tool := (ToolDefinition Body).

Record ToolRegistry : Type := {
  tools : list Tool; toolsets : gmap string (list string); defaultTimeoutMs : Z; sequence : Z
}.

Definition tool_registry (timeout : option Z) : ToolRegistry :=
  {| tools := []; toolsets := ∅; defaultTimeoutMs := default 30000 timeout; sequence := 0 |}.

(** `this.#tools.get(name)` *)
Definition get_tool (name : string) (r : ToolRegistry) : option Tool := List.find (fun t => streq (t_name t) name) (tools r).

Definition register (t : Tool) (r : ToolRegistry) : string + ToolRegistry :=
  match get_tool (t_name t) r with
  | Some _ => inl "Tool already registered"
  | None => inr {| tools := tools r ++ [t]; toolsets := toolsets r; defaultTimeoutMs := defaultTimeoutMs r; sequence := sequence r |}
  end.

Definition defineToolset (name : string) (l : list string) (r : ToolRegistry) : string + ToolRegistry :=
  if forallb (fun n => match get_tool n r with Some _ => true | None => false end) l
  then inr {| tools := tools r; toolsets := <[name := l]> (toolsets r); defaultTimeoutMs := defaultTimeoutMs r;
              sequence := sequence r |}
  else inl "Unknown tool".

Definition granted (capabilities : list string) (t : Tool) : bool := forallb (includes capabilities) (t_capabilities t).

Section Listing.
Context (locale_le : string -> string -> bool).

Definition list_tools (f : ToolFilter) (privileged : bool) (r : ToolRegistry) : list Tool :=
  let names := (fun s => default [] (toolsets r !! s)) <$> truthy (f_toolset f) in
  let capabilities := default [] (f_capabilities f) in
  map snd (sort_entries locale_le (map (fun t => (t_name t, t)) (List.filter (fun t =>
    match names with None => true | Some l => includes l (t_name t) end &&
    (privileged || (negb (bool_decide (capabilities = [])) && granted capabilities t))) (tools r)))).

(** `list` *)
Definition list_granted (f : ToolFilter) (r : ToolRegistry) : list Tool := list_tools f false r.

Definition listPrivileged (toolset : option string) (r : ToolRegistry) : list Tool :=
  list_tools {| f_toolset := toolset; f_capabilities := None |} true r.
End Listing.

Definition classify (name : string) (r : ToolRegistry) : result (RegistryEffect * bool) :=
  match get_tool name r with Some t => inr (t_effect t, parallelSafe t) | None => inl "Unknown tool" end.

(** *** Invocations *)

Inductive teff : Type -> Type :=
  (** whether the tool is available, or what asking threw *)
  | Availability (t : Tool) : teff (string + bool)
  (** what an observer throws is swallowed *)
  | Emit (e : ToolAuditEvent) : teff unit
  | CallerAborted : teff bool
  | Execute (t : Tool) (input : value) (invocationId : string) (capabilities : list string) (timeout : Z) : teff Raced.

Definition tprog : Type -> Type := prog teff string.

Definition tdo {R} (e : teff R) : tprog R := trigger e.

(** The names of the tools that say they are available; the questions are all asked at once. *)
Fixpoint available_of (l : list Tool) : tprog (list string) :=
  match l with
  | [] => Ret []
  | t :: l' =>
      let* answer := if has_availability t then tdo (Availability t) else Ret (inr true) in
      let* rest := available_of l' in
      Ret (match answer with inr true => t_name t :: rest | _ => rest end)
  end.

Definition available (locale_le : string -> string -> bool) (f : ToolFilter) (r : ToolRegistry) : tprog (list string) :=
  available_of (list_granted locale_le f r).

Definition finish_event (invocationId name : string) (effect : RegistryEffect) (parallel : bool) (outcome : ToolErrorCode + value) :
    ToolAuditEvent :=
  {| phase_finish := true; ae_invocationId := invocationId; ae_tool := name; ae_effect := effect; ae_parallelSafe := parallel;
     ae_ok := Some (match outcome with inr _ => true | inl _ => false end);
     ae_errorCode := match outcome with inl c => Some c | inr _ => None end |}.

Definition start_event (invocationId : string) (t : Tool) : ToolAuditEvent :=
  {| phase_finish := false; ae_invocationId := invocationId; ae_tool := t_name t; ae_effect := t_effect t;
     ae_parallelSafe := parallelSafe t; ae_ok := None; ae_errorCode := None |}.

Definition result_of (invocationId name : string) (outcome : ToolErrorCode + value) : ToolResult :=
  {| tr_invocationId := invocationId; tr_tool := name; tr_outcome := outcome |}.

(** `reject` *)
Definition reject_call (invocationId name : string) (metadata : option Tool) (code : ToolErrorCode) : tprog ToolResult :=
  tdo (Emit (finish_event invocationId name (match metadata with Some t => t_effect t | None => E_admin end)
    (match metadata with Some t => parallelSafe t | None => false end) (inl code))) ;;
  Ret (result_of invocationId name (inl code)).

(** What a race makes of an invocation. *)
Definition settle (t : Tool) (x : Raced) : ToolErrorCode + value :=
  match rc_settled x with
  | inr data => match outputSchema t data with Some v => inr v | None => inl INVALID_OUTPUT end
  | inl _ => inl (if rc_aborted x then if rc_timeout x then TIMEOUT else CANCELLED else EXECUTION_ERROR)
  end.

(** `invoke`, its id chosen. *)
Definition invoke_as (invocationId name : string) (input : value) (context : InvocationContext) (r : ToolRegistry) :
    tprog ToolResult :=
  match get_tool name r with
  | None => reject_call invocationId name None UNKNOWN_TOOL
  | Some t =>
      if negb (granted (ic_capabilities context) t) then reject_call invocationId name (Some t) CAPABILITY_DENIED
      else
        let* available := if has_availability t then tdo (Availability t) else Ret (inr true) in
        match available with
        | inl _ | inr false => reject_call invocationId name (Some t) UNAVAILABLE
        | inr true =>
            match inputSchema t input with
            | None => reject_call invocationId name (Some t) INVALID_INPUT
            | Some data =>
                tdo (Emit (start_event invocationId t)) ;;
                let* _aborted := tdo CallerAborted in
                let* x := tdo (Execute t data invocationId (ic_capabilities context) (default (defaultTimeoutMs r) (timeoutMs t))) in
                tdo (Emit (finish_event invocationId name (t_effect t) (parallelSafe t) (settle t x))) ;;
                Ret (result_of invocationId name (settle t x))
            end
        end
  end.

(** The id of an invocation, and the registry with its counter moved on. *)
Definition next_id (context : InvocationContext) (r : ToolRegistry) : string * ToolRegistry :=
  match ic_invocationId context with
  | Some id => (id, r)
  | None => (("tool-" ++ pretty (sequence r + 1))%string,
             {| tools := tools r; toolsets := toolsets r; defaultTimeoutMs := defaultTimeoutMs r; sequence := sequence r + 1 |})
  end.

Definition invoke (name : string) (input : value) (context : InvocationContext) (r : ToolRegistry) :
    tprog ToolResult * ToolRegistry :=
  let '(id, r') := next_id context r in (invoke_as id name input context r', r').

(** The context of the call at [index] of a batch. *)
Definition call_context (context : InvocationContext) (index : nat) : InvocationContext :=
  {| ic_capabilities := ic_capabilities context;
     ic_invocationId := match truthy (ic_invocationId context) with
                        | Some id => Some (id ++ ":" ++ pretty (Z.of_nat index))%string
                        | None => ic_invocationId context
                        end |}.

Fixpoint invoke_all (calls : list (string * value)) (index : nat) (context : InvocationContext) (r : ToolRegistry) :
    list (tprog ToolResult) * ToolRegistry :=
  match calls with
  | [] => ([], r)
  | (name, input) :: calls' =>
      let '(p, r1) := invoke name input (call_context context index) r in
      let '(ps, r2) := invoke_all calls' (S index) context r1 in (p :: ps, r2)
  end.

(** The invocations that run side by side. *)
Definition invokeParallel (calls : list (string * value)) (context : InvocationContext) (r : ToolRegistry) :
    string + (list (tprog ToolResult) * ToolRegistry) :=
  match List.find (fun c => match get_tool c.1 r with Some t => negb (parallelSafe t) | None => true end) calls with
  | Some c => inl (match get_tool c.1 r with None => "Unknown tool" | Some _ => "Tool is not parallel-safe" end)
  | None => inr (invoke_all calls 0 context r)
  end.

(** *** `RegistryDispatcher` *)

Definition dispatcher_classify (name : string) (r : ToolRegistry) : Thrown + option ToolEffect :=
  match classify name r with
  | inl e => inl (Other e)
  | inr (E_read, _) => inr (Some Agent.read)
  | inr (E_trade, _) => inr (Some proposal)
  | inr _ => inr (Some write)
  end.

(** The invocation a dispatch is; a call without arguments has `undefined` for them. *)
Definition dispatcher_dispatch (capabilities : list string) (c : ToolCall) (r : ToolRegistry) : tprog ToolResult * ToolRegistry :=
  invoke (tc_name c) (default V_other (tc_arguments c))
    {| ic_capabilities := capabilities; ic_invocationId := Some (tc_id c) |} r.
End Registry.

(** *** `intent-bridge.ts` *)

Definition MARKET_DATA : string := "trading:market-data".
Definition PORTFOLIO_READ : string := "trading:portfolio-read".
Definition ORDER_SIMULATE : string := "trading:order-simulate".
Definition ORDER_WRITE : string := "trading:order-write".
Definition POSITION_WRITE : string := "trading:position-write".

Record IntentToolDefinition : Type := {
  it_name : string; category : string; it_capabilities : list ToolCapability; idempotent : bool; it_timeoutMs : Z;
  configSchema : value -> option value
}.

Record ToolOutcome : Type := { isError : bool; text : string; outcome_data : option value }.

(** Whether the runtime has a `confirmedByUser`. *)
Record IntentToolRuntime : Type := { confirms : bool }.

Inductive Surface : Type := execute_surface | preview_surface.

Inductive ieff : Type -> Type :=
  | ToolContext : ieff (string + unit)
  | NewKey : ieff string
  | ConfirmedByUser (name : string) (config : value) : ieff (string + value)
  | ToolExecute (t : IntentToolDefinition) (config : value) (idempotencyKey : string) (confirmed : bool) : ieff (string + ToolOutcome)
  | ToolSimulate (t : IntentToolDefinition) (config : value) : ieff (string + value)
  | Clock : ieff Z.

Definition iprog : Type -> Type := prog ieff string.

Definition icall {R} (e : ieff (string + R)) : iprog R := bind (trigger e) raise.
Definition ido {R} (e : ieff R) : iprog R := trigger e.

Definition capabilityFor (t : IntentToolDefinition) (s : Surface) : string :=
  match s with
  | preview_surface => ORDER_SIMULATE
  | execute_surface =>
      if negb (movesValue (it_capabilities t))
      then if includes (it_capabilities t) read_state then PORTFOLIO_READ else MARKET_DATA
      else if streq (category t) "perps" then POSITION_WRITE else ORDER_WRITE
  end.

Definition wrap (source : string) (data : value) (now : Z) : value :=
  V_object [("data", data); ("provenance", V_object [("observedAt", V_number now); ("source", V_string source)])].

(** The schema of what a tool answers; other fields are dropped. *)
Definition envelope (v : value) : option value :=
  match get_field "provenance" v with
  | Some p =>
      match get_field "observedAt" p, get_field "source" p with
      | Some (V_number n), Some (V_string s) =>
          Some (V_object (match get_field "data" v with Some d => [("data", d)] | None => [] end ++
                          [("provenance", V_object [("observedAt", V_number n); ("source", V_string s)])]))
      | _, _ => None
      end
  | None => None
  end.

Section Bridge.
Context (rt : IntentToolRuntime).

Definition is_true (v : value) : bool := match v with V_bool b => b | _ => false end.

Definition execute_body (t : IntentToolDefinition) (config : value) : iprog value :=
  let* _ctx := icall ToolContext in
  let* key := ido NewKey in
  let* confirmed := if confirms rt then icall (ConfirmedByUser (it_name t) config) else Ret V_other in
  let* outcome := icall (ToolExecute t config key (is_true confirmed)) in
  if isError outcome then Throw (text outcome)
  else
    let* now := ido Clock in
    Ret (wrap (it_name t) (V_object (("text", V_string (text outcome)) ::
                                     match outcome_data outcome with Some d => [("result", d)] | None => [] end)) now).

Definition preview_name (t : IntentToolDefinition) : string := (it_name t ++ ".preview")%string.

Definition preview_body (t : IntentToolDefinition) (config : value) : iprog value :=
  let* _ctx := icall ToolContext in
  let* preview := icall (ToolSimulate t config) in
  let* now := ido Clock in
  Ret (wrap (preview_name t) preview now).

Definition execute_definition (t : IntentToolDefinition) : ToolDefinition (value -> iprog value) :=
  let spends := movesValue (it_capabilities t) in
  {| t_name := it_name t; inputSchema := configSchema t; outputSchema := envelope;
     t_capabilities := [capabilityFor t execute_surface]; t_effect := if spends then E_trade else E_read;
     parallelSafe := negb spends && idempotent t; timeoutMs := Some (it_timeoutMs t); has_availability := false;
     t_body := execute_body t |}.

Definition preview_definition (t : IntentToolDefinition) : ToolDefinition (value -> iprog value) :=
  {| t_name := preview_name t; inputSchema := configSchema t; outputSchema := envelope;
     t_capabilities := [capabilityFor t preview_surface]; t_effect := E_read; parallelSafe := true;
     timeoutMs := Some (it_timeoutMs t); has_availability := false; t_body := preview_body t |}.

Definition registerIntentTool (r : ToolRegistry) (t : IntentToolDefinition) : string + ToolRegistry :=
  match register (execute_definition t) r with
  | inl e => inl e
  | inr r' => if movesValue (it_capabilities t) then register (preview_definition t) r' else inr r'
  end.

Fixpoint registerIntentTools (l : list IntentToolDefinition) (r : ToolRegistry) : string + ToolRegistry :=
  match l with
  | [] => inr r
  | t :: l' => match registerIntentTool r t with inl e => inl e | inr r' => registerIntentTools l' r' end
  end.
End Bridge.
