(* ===== verification/ToolsSafety.v ===== *)
(** What an invocation of a tool may do, and what the agent reaches through one. *)
From S2P Require Import Prelude Prog Canonical Contracts Agent AgentSafety Tools.
#[local] Open Scope string_scope.
#[local] Open Scope list_scope.
#[local] Open Scope Z_scope.
#[local] Open Scope prog_scope.

(** *** Invocations *)

Section Invocations.
Context {Body : Type} (id name : string) (input : value) (context : InvocationContext) (r : ToolRegistry (Body := Body)).

Definition tool_history : Type := list (event (teff (Body := Body))).

(** What stands before an execution. *)
Record admitted (t : ToolDefinition Body) (data : value) (h : tool_history) : Prop := {
  ad_registered : get_tool name r = Some t;
  ad_granted : forall c, c ∈ t_capabilities t -> c ∈ ic_capabilities context;
  ad_available : has_availability t = true -> Event (Availability t) (inr true) ∈ h;
  ad_parsed : inputSchema t input = Some data;
  ad_announced : Event (Emit (start_event id t)) tt ∈ h
}.

(** A finish event is the last one, and so is an execution but for it. *)
Definition may_follow R (e : teff (Body := Body) R) (ev : event (teff (Body := Body))) : Prop :=
  match ev with
  | Event e' _ =>
      match e' with
      | Emit a => phase_finish a = false
      | Execute _ _ _ _ _ => match e with Emit a => phase_finish a = true | _ => False end
      | _ => True
      end
  end.

Definition tool_pre R (e : teff (Body := Body) R) (h : tool_history) : Prop := Forall (may_follow R e) h /\
  match e with
  | Execute t data i capabilities _ => admitted t data h /\ i = id /\ capabilities = ic_capabilities context
  | _ => True
  end.

(** The invocation answered, its outcome is in the event it ended with, and a success is
    the parsed answer of the tool. *)
Definition audited (res : string + ToolResult) (h : tool_history) : Prop := exists effect parallel outcome h',
  res = inr (result_of id name outcome) /\ h = Event (Emit (finish_event id name effect parallel outcome)) tt :: h' /\
  (forall v, outcome = inr v -> exists t data cs timeout x d,
     Event (Execute t data id cs timeout) x ∈ h' /\ rc_settled x = inr d /\ outputSchema t d = Some v).

#[local] Abbreviation runs p Q h := (ensures (E := teff (Body := Body)) tool_pre (fun _ _ _ => True) record_event p Q h).

Lemma reject_runs metadata code h : Forall (may_follow unit (Emit (finish_event id name E_admin false (inl code)))) h ->
  runs (reject_call id name metadata code) audited h.
Proof. intros H. split; [by split|]. intros [] _. do 4 eexists. split_and!; [done..|]. by intros v [=]. Qed.

Lemma settle_inr (t : ToolDefinition Body) x v : settle t x = inr v -> exists d, rc_settled x = inr d /\ outputSchema t d = Some v.
Proof.
  unfold settle. destruct (rc_settled x) as [e|d]; [done|]. destruct (outputSchema t d) eqn:E; [|done]. intros [= <-].
  by exists d.
Qed.

(** From the announcement of an execution on. *)
Lemma execution_runs t data timeout h : get_tool name r = Some t -> granted (ic_capabilities context) t = true ->
  inputSchema t input = Some data -> (has_availability t = true -> Event (Availability t) (inr true) ∈ h) ->
  Forall (fun ev => match ev with Event e _ => match e with Availability _ => True | _ => False end end) h ->
  runs (tdo (Emit (start_event id t)) ;;
        let* _aborted := tdo CallerAborted in
        let* x := tdo (Execute t data id (ic_capabilities context) timeout) in
        tdo (Emit (finish_event id name (t_effect t) (parallelSafe t) (settle t x))) ;;
        Ret (result_of id name (settle t x))) audited h.
Proof.
  intros Ht Hg Hd Ha Hh. assert (forall R (e : teff R), Forall (may_follow R e) h) as Hq.
  { intros R e. eapply Forall_impl; [exact Hh|]. by intros [? [] ?]. }
  cbn. split; [by split|]. intros [] _. split; [split; [|done]; by apply Forall_cons|]. intros aborted _.
  split.
  { split; [by repeat (apply Forall_cons; split; [done|])|]. split_and!; [|done..]. split; [done| |intros Hav; by do 2 right; apply Ha|done|by right; left].
    intros c Hc. unfold granted in Hg. rewrite forallb_forall in Hg. apply list_elem_of_In, Hg in Hc. unfold includes in Hc. by bool_hyps. }
  intros x _. split; [split; [|done]; by repeat (apply Forall_cons; split; [done|])|]. intros [] _.
  exists (t_effect t), (parallelSafe t), (settle t x). eexists. split_and!; [done..|].
  intros v (d & Hx & Ho)%settle_inr. exists t, data, (ic_capabilities context), timeout, x, d. split_and!; [by left|done..].
Qed.

Lemma invoke_runs : runs (invoke_as id name input context r) audited [].
Proof.
  unfold invoke_as. destruct (get_tool name r) as [t|] eqn:Ht; [|by apply reject_runs].
  destruct (granted _ t) eqn:Hg; cbn [negb]; [|by apply reject_runs].
  apply ensures_bind. destruct (has_availability t) eqn:Hav.
  - unfold tdo. cbn [bind trigger ensures]. split; [by split|]. intros [e|[|]] _; try (apply reject_runs; by apply Forall_singleton).
    destruct (inputSchema t input) as [data|] eqn:Hd; [|apply reject_runs; by apply Forall_singleton].
    apply execution_runs; [done..|intros _; by left|by apply Forall_singleton].
  - cbn [bind ensures]. destruct (inputSchema t input) as [data|] eqn:Hd; [|by apply reject_runs]. apply execution_runs; try done. by rewrite Hav.
Qed.
End Invocations.

(** An invocation executes only the registered tool of that name, once, with input its
    schema took, when every capability of the tool is granted, the tool, if it can say,
    said it is available, and the execution was announced to the audit before; nothing
    follows the event that reports the end. *)
Theorem invocation_admitted {Body} id name input context (r : ToolRegistry (Body := Body)) l1 R (e : teff R) x l2 p :
  traces (invoke_as id name input context r) (l1 ++ Event e x :: l2) p -> tool_pre id name input context r R e (rev l1).
Proof.
  intros Ht. apply (history_allowed (tool_pre id name input context r)) in Ht; [exact Ht|]. eapply ensures_follows, invoke_runs.
Qed.

(** An invocation never throws; the last thing it does is to report how it ended, and a
    success is what the executed tool answered, as its schema took it. *)
Theorem invocation_audited {Body} id name input context (r : ToolRegistry (Body := Body)) l (res : string + ToolResult) :
  traces (invoke_as id name input context r) l (finished res) -> audited id name res (rev l).
Proof.
  intros Ht. eapply (ensures_traces (tool_pre id name input context r)) in Ht; [|apply invoke_runs|apply Forall_forall; by intros []].
  unfold tool_history in Ht. rewrite ghost_after_history, app_nil_r in Ht. by destruct res.
Qed.

(** *** Intent tools *)

Section Bridge.
Context (rt : IntentToolRuntime).

(** What stands before a tool's `execute`, when the tool is [t]. *)
Definition intent_pre (t : IntentToolDefinition) (config : value) R (e : ieff R) (h : list (event ieff)) : Prop :=
  match e with
  | ToolExecute t' config' key byUser => t' = t /\ config' = config /\ Event NewKey key ∈ h /\
      (byUser = true -> Event (ConfirmedByUser (it_name t) config) (inr (V_bool true)) ∈ h) /\
      Forall (fun ev => match ev with Event e _ => match e with ToolExecute _ _ _ _ => False | _ => True end end) h
  | _ => True
  end.

Lemma execute_body_follows t config : follows (intent_pre t config) (fun _ _ _ => True) record_event (execute_body rt t config) [].
Proof.
  assert (forall o h, follows (intent_pre t config) (fun _ _ _ => True) record_event
    (if isError o then Throw (text o) else let* now := ido Clock in
     Ret (wrap (it_name t) (V_object (("text", V_string (text o)) ::
       match outcome_data o with Some d => [("result", d)] | None => [] end)) now)) h) as Htail.
  { intros o h. destruct (isError o); [done|]. by split. }
  unfold execute_body, icall, ido. cbn [bind trigger follows]. split; [done|]. intros [e|[]] _; [done|]. cbn [raise bind trigger follows].
  split; [done|]. intros key _. destruct (confirms rt); cbn [bind trigger follows].
  - split; [done|]. intros [e|v] _; [done|]. cbn [raise bind trigger follows]. split.
    + split_and!; [done|done|by right; left| |by repeat (apply Forall_cons; split; [done|])].
      destruct v as [|[|]| | | | | |]; try done. intros _. by left.
    + intros [e|o] _; [done|apply Htail].
  - split; [split_and!; [done|done|by left|done|by repeat (apply Forall_cons; split; [done|])]|].
    intros [e|o] _; [done|apply Htail].
Qed.

Lemma preview_body_follows t config :
  follows (fun R (e : ieff R) (_ : list (event ieff)) => match e with ToolExecute _ _ _ _ => False | _ => True end)
    (fun _ _ _ => True) record_event (preview_body t config) [].
Proof.
  unfold preview_body, icall, ido. cbn [bind trigger follows]. split; [done|]. intros [e|[]] _; [done|]. cbn [raise bind trigger follows].
  split; [done|]. intros [e|v] _; [done|]. by split.
Qed.

(** A registration of an intent tool. *)
Inductive registered_as : ToolDefinition (value -> iprog value) -> Prop :=
  | as_tool t : registered_as (execute_definition rt t)
  | as_preview t : movesValue (it_capabilities t) = true -> registered_as (preview_definition t).

Lemma register_tools t (r r' : ToolRegistry (Body := value -> iprog value)) : register t r = inr r' -> tools r' = tools r ++ [t].
Proof. unfold register. destruct (get_tool _ _); [done|]. by intros [= <-]. Qed.

Lemma registered_intents l r r' : registerIntentTools rt l r = inr r' -> Forall registered_as (tools r) -> Forall registered_as (tools r').
Proof.
  revert r. induction l as [|t l IH]; intros r; [by intros [= <-]|]. cbn [registerIntentTools].
  unfold registerIntentTool. destruct (register _ r) as [e|r1] eqn:E1; [done|]. apply register_tools in E1.
  intros H Hr. assert (Forall registered_as (tools r1)) as Hr1.
  { rewrite E1. apply Forall_app. split; [done|]. apply Forall_singleton. constructor. }
  destruct (movesValue (it_capabilities t)) eqn:Hm; [|by eapply IH].
  destruct (register _ r1) as [e|r2] eqn:E2; [done|]. apply register_tools in E2. eapply IH; [exact H|].
  rewrite E2. apply Forall_app. split; [done|]. apply Forall_singleton. by constructor.
Qed.
End Bridge.

Lemma get_tool_elem {Body} name (r : ToolRegistry (Body := Body)) t : get_tool name r = Some t -> t ∈ tools r.
Proof. intros [H _]%find_some. by apply list_elem_of_In. Qed.

(** C33: in a registry of intent tools, the `execute` of a tool is reached by no preview; it
    gets the input of the invocation as its schema took it and a fresh idempotency key,
    never one of the caller; a tool that signs or spends is reached only if the invocation
    was granted the capability to write orders or positions; and it is told that the user
    confirmed only if the runtime answered so for this very input. *)
Theorem intent_tools_guarded rt l d r id name input context l1 t data i cs timeout x l2 p :
  registerIntentTools rt l (tool_registry d) = inr r ->
  traces (invoke_as id name input context r) (l1 ++ Event (Execute t data i cs timeout) x :: l2) p ->
  forall l3 it config key byUser y l4 q,
    traces (t_body t data) (l3 ++ Event (ToolExecute it config key byUser) y :: l4) q ->
    inputSchema t input = Some config /\ t_name t = it_name it /\ Event NewKey key ∈ l3 /\
    (movesValue (it_capabilities it) = true ->
       ORDER_WRITE ∈ ic_capabilities context \/ POSITION_WRITE ∈ ic_capabilities context) /\
    (byUser = true -> Event (ConfirmedByUser (it_name it) config) (inr (V_bool true)) ∈ l3).
Proof.
  intros Hr Hinv l3 it config key byUser y l4 q Hbody.
  apply (history_allowed (tool_pre id name input context r)) in Hinv as [_ [[Hreg Hg _ Hp _] _]];
    [|eapply ensures_follows, invoke_runs].
  apply get_tool_elem in Hreg. apply registered_intents in Hr; [|by constructor].
  rewrite Forall_forall in Hr. apply Hr in Hreg. destruct Hreg as [u|u Hm].
  - apply (history_allowed (intent_pre u data)) in Hbody as (-> & -> & H3 & H4 & _); [|apply execute_body_follows].
    split_and!; [done|done|by apply list_elem_of_In, in_rev, list_elem_of_In| |].
    + intros Hm. specialize (Hg _ (list_elem_of_here _ _)). unfold capabilityFor in Hg. rewrite Hm in Hg. cbn [negb] in Hg.
      destruct (streq _ _); [by right|by left].
    + intros Hc. apply H4 in Hc. by apply list_elem_of_In, in_rev, list_elem_of_In.
  - by apply (history_allowed (fun R (e : ieff R) _ => match e with ToolExecute _ _ _ _ => False | _ => True end)) in Hbody;
      [|apply preview_body_follows].
Qed.

(** *** The agent over the registry *)

Lemma dispatcher_allows {Body} name (r : ToolRegistry (Body := Body)) effect :
  dispatcher_classify name r = inr (Some effect) -> effect <> write ->
  exists t, get_tool name r = Some t /\ (t_effect t = E_read \/ t_effect t = E_trade).
Proof.
  unfold dispatcher_classify, classify. destruct (get_tool name r) as [t|]; [|done]. intros H Hw. exists t. split; [done|].
  destruct (t_effect t); auto; congruence.
Qed.

(** An agent whose dispatcher is the registry's dispatches only calls of registered tools
    that read or trade. *)
Theorem agent_reaches {Body} locale_le ids d m lc i t rp o input l p (r : ToolRegistry (Body := Body)) :
  agent_runtime ids d m lc i t rp = inr o -> traces (run locale_le o input) l p ->
  (forall name x, Event (Classify name) x ∈ l -> x = dispatcher_classify name r) ->
  forall c x, Event (Dispatch c) x ∈ l ->
  exists tool, get_tool (tc_name c) r = Some tool /\ (t_effect tool = E_read \/ t_effect tool = E_trade).
Proof.
  intros [Hi Hb]%agent_runtime_limits Ht Hcl c x (l1 & l2 & ->)%list_elem_of_split.
  apply (history_allowed (agent_pre o)) in Ht as [_ [[(effect & Hin & Hw) _ _ _] _]];
    [|eapply ensures_follows; by apply run_runs].
  apply list_elem_of_In, in_rev, list_elem_of_In in Hin. eapply dispatcher_allows; [|exact Hw]. symmetry. apply Hcl.
  apply elem_of_app. by left.
Qed.

(** *** Examples and findings *)

Definition demo_intent_tool : IntentToolDefinition :=
  {| it_name := "swap_jupiter"; category := "swap"; it_capabilities := [sign; spend]; idempotent := false; it_timeoutMs := 30000;
     configSchema := Some |}.

Definition demo_runtime : IntentToolRuntime := {| confirms := true |}.

Definition demo_registry : ToolRegistry :=
  match registerIntentTools demo_runtime [demo_intent_tool] (tool_registry None) with inr r => r | inl _ => tool_registry None end.

Definition demo_context : InvocationContext := {| ic_capabilities := [ORDER_WRITE]; ic_invocationId := Some "call" |}.

Definition demo_answer (v : value) {Body} R (e : teff (Body := Body) R) (u : unit) : R * unit :=
  (match e in teff R return R with
   | Availability _ => inr true
   | Emit _ => tt
   | CallerAborted => true
   | Execute _ _ _ _ _ => {| rc_settled := inr v; rc_aborted := true; rc_timeout := false |}
   end, u).

Definition demo_invocation : list (event teff) :=
  run_trace (demo_answer V_null) (invoke_as "call" "swap_jupiter" (V_bool true) demo_context demo_registry) tt.

Definition demo_execution : event teff :=
  Event (Execute (execute_definition demo_runtime demo_intent_tool) (V_bool true) "call" [ORDER_WRITE] 30000)
    {| rc_settled := inr V_null; rc_aborted := true; rc_timeout := false |}.

Lemma demo_invocation_trace : demo_invocation = take 2 demo_invocation ++ demo_execution :: drop 3 demo_invocation.
Proof. vm_compute. reflexivity. Qed.

Lemma demo_invocation_traces : traces (invoke_as "call" "swap_jupiter" (V_bool true) demo_context demo_registry)
  (take 2 demo_invocation ++ demo_execution :: drop 3 demo_invocation)
  (finished (Prog.run (demo_answer V_null) (invoke_as "call" "swap_jupiter" (V_bool true) demo_context demo_registry) tt).1).
Proof. rewrite <- demo_invocation_trace. apply run_traces. Qed.

(** An invocation whose caller has aborted already executes the tool all the same. *)
Lemma aborted_call_executes : Event CallerAborted true ∈ take 2 demo_invocation /\ demo_execution ∈ demo_invocation.
Proof.
  rewrite demo_invocation_trace. split; [vm_compute; by right; left|]. apply elem_of_app. right. by left.
Qed.

Lemma invocation_admitted_witness : admitted "call" "swap_jupiter" (V_bool true) demo_context demo_registry
  (execute_definition demo_runtime demo_intent_tool) (V_bool true) (rev (take 2 demo_invocation)).
Proof. exact (proj1 (proj2 (invocation_admitted _ _ _ _ _ _ _ _ _ _ _ demo_invocation_traces))). Defined.

Lemma invocation_audited_witness : exists outcome l, tr_outcome (result_of "call" "swap_jupiter" outcome) = inl INVALID_OUTPUT /\
  audited (Body := value -> iprog value) "call" "swap_jupiter" (inr (result_of "call" "swap_jupiter" outcome)) l.
Proof.
  exists (inl INVALID_OUTPUT), (rev (take 2 demo_invocation ++ demo_execution :: drop 3 demo_invocation)). split; [reflexivity|].
  exact (invocation_audited "call" "swap_jupiter" (V_bool true) demo_context demo_registry _ _ demo_invocation_traces).
Defined.

(** What the tool's `execute` and the runtime answer, the user having confirmed. *)
Definition demo_intents R (e : ieff R) (u : unit) : R * unit :=
  (match e in ieff R return R with
   | ToolContext => inr tt
   | NewKey => "key"
   | ConfirmedByUser _ _ => inr (V_bool true)
   | ToolExecute _ _ _ _ => inr {| isError := false; text := "done"; outcome_data := None |}
   | ToolSimulate _ _ => inr V_null
   | Clock => 1
   end, u).

Lemma intent_tools_guarded_witness : exists l3 y l4,
  run_trace demo_intents (execute_body demo_runtime demo_intent_tool (V_bool true)) tt =
    l3 ++ Event (ToolExecute demo_intent_tool (V_bool true) "key" true) y :: l4 /\
  Event (ConfirmedByUser "swap_jupiter" (V_bool true)) (inr (V_bool true)) ∈ l3 /\
  (ORDER_WRITE ∈ ic_capabilities demo_context \/ POSITION_WRITE ∈ ic_capabilities demo_context).
Proof.
  eexists [_; _; _], _, [_]. split; [reflexivity|].
  destruct (intent_tools_guarded demo_runtime [demo_intent_tool] None demo_registry _ _ _ _ _ _ _ _ _ _ _ _ _
    ltac:(vm_compute; reflexivity) demo_invocation_traces [_; _; _] demo_intent_tool (V_bool true) "key" true _ [_] _
    (run_traces demo_intents (execute_body demo_runtime demo_intent_tool (V_bool true)) tt)) as (_ & _ & _ & H1 & H2).
  split; [apply H2; reflexivity|apply H1; reflexivity].
Defined.
