(* ===== verification/Telegram.v ===== *)
(** The Telegram channel: `src/gateway/channels/index.ts`.

    Texts are ASCII.  An update is the record its type declares; the callback that
    authorizes and the request to Telegram are effects. *)
From Stdlib Require Import Ascii.
From stdpp Require Import pretty.
From S2P Require Import Prelude Prog Money.
#[local] Open Scope string_scope.
#[local] Open Scope list_scope.
#[local] Open Scope Z_scope.
#[local] Open Scope prog_scope.

(** *** Splitting a text *)

Definition newline : ascii := ascii_of_nat 10.

(** `rest.lastIndexOf("\n", max)`, which is at most [max]. *)
Fixpoint last_newline (l : list ascii) (max : nat) : option nat :=
  match l with
  | [] => None
  | c :: l' =>
      let here := if Ascii.eqb c newline then Some 0%nat else None in
      match max with
      | O => here
      | S max' => match last_newline l' max' with Some i => Some (S i) | None => here end
      end
  end.

(** Where the first chunk of a text longer than [max] ends. *)
Definition cut_of (max : nat) (rest : list ascii) : nat :=
  match last_newline rest max with Some (S i) => S (S i) | _ => max end.

Fixpoint chunks (fuel max : nat) (rest : list ascii) : list (list ascii) :=
  match fuel with
  | O => []
  | S fuel' =>
      match rest with
      | [] => []
      | _ =>
          if (length rest <=? max)%nat then [rest]
          else take (cut_of max rest) rest :: chunks fuel' max (drop (cut_of max rest) rest)
      end
  end.

(** Every turn takes a character at least. *)
Definition chunkTelegramText (text : list ascii) (max : Z) : result (list (list ascii)) :=
  if max <? 1 then inl "Invalid message length" else inr (chunks (length text) (Z.to_nat max) text).

(** *** Data *)

(** A number or a text. *)
Inductive Id : Type := IdNumber (z : Z) | IdText (s : string).

Definition id_text (x : Id) : string := match x with IdNumber z => pretty z | IdText s => s end.

Record TelegramUser : Type := { us_id : Id; us_username : option string }.

Record TelegramMessage : Type := {
  date : Z; m_text : option string; message_thread_id : option Z; chat : Id; from : option TelegramUser
}.

Record TelegramUpdate : Type := {
  update_id : number; message : option TelegramMessage; edited_message : option TelegramMessage
}.

Record ReplyRoute : Type := { chatId : string; threadId : option string }.

Inductive ApprovalAction : Type := approve | reject.

Record ApprovalCommand : Type := { action : ApprovalAction; approvalId : string }.

Record InboundEnvelope : Type := {
  in_id : string; in_channel : string; in_text : string; in_sessionKey : string; replyTo : ReplyRoute;
  actor : string; actor_username : option string; receivedAt : Z; command : option ApprovalCommand
}.

Record OutboundEnvelope : Type := { out_channel : string; route : ReplyRoute; out_text : string }.

Definition sessionKey (channel conversationId : string) (thread : option string) : string :=
  match thread with
  | Some t => (channel ++ ":" ++ conversationId ++ ":" ++ t)%string
  | None => (channel ++ ":" ++ conversationId)%string
  end.

(** *** Commands *)

Definition is_letter (c : ascii) : bool :=
  let n := nat_of_ascii c in ((65 <=? n)%nat && (n <=? 90)%nat) || ((97 <=? n)%nat && (n <=? 122)%nat).

Definition is_id_char (c : ascii) : bool := is_letter c || is_digit c || includes [95; 45]%nat (nat_of_ascii c).

(** The text after a prefix. *)
Fixpoint strip (p l : list ascii) : option (list ascii) :=
  match p, l with
  | [], _ => Some l
  | x :: p', y :: l' => if Ascii.eqb x y then strip p' l' else None
  | _ :: _, [] => None
  end.

(** `\s+([A-Za-z][A-Za-z0-9_-]{2,127})$` *)
Definition spaced_id (l : list ascii) : option string :=
  match l with
  | c :: _ =>
      if is_space c then
        match drop_spaces l with
        | x :: id =>
            if is_letter x && forallb is_id_char id && (2 <=? length id)%nat && (length id <=? 127)%nat
            then Some (String.string_of_list_ascii (x :: id)) else None
        | [] => None
        end
      else None
  | [] => None
  end.

(** The command a message is. *)
Definition command_of (text : string) : option ApprovalCommand :=
  let l := trim (String.list_ascii_of_string text) in
  match strip (String.list_ascii_of_string "/approve") l, strip (String.list_ascii_of_string "/reject") l with
  | Some rest, _ => (fun i => {| action := approve; approvalId := i |}) <$> spaced_id rest
  | None, Some rest => (fun i => {| action := reject; approvalId := i |}) <$> spaced_id rest
  | None, None => None
  end.

(** *** The channel *)

Inductive ceff : Type -> Type :=
  | Authorize (userId chat : string) (username : option string) : ceff (string + bool)
  (** whether the request was answered with success *)
  | SendMessage (chat : string) (thread : option string) (text : list ascii) : ceff (string + bool).

Definition cprog : Type -> Type := prog ceff string.

Definition ccall {R} (e : ceff (string + R)) : cprog R := bind (trigger e) raise.

(** `Number.isSafeInteger(update_id)`: the id. *)
Definition safe_id (x : number) : option Z :=
  match x with
  | Finite q => if QArith_base.Qeq_bool q (QArith_base.inject_Z (Qround.Qfloor q)) && (Z.abs (Qround.Qfloor q) <=? 9007199254740991)
                then Some (Qround.Qfloor q) else None
  | _ => None
  end.

(** What is said of an update that is let through. *)
Definition envelope_of (id : Z) (m : TelegramMessage) (u : TelegramUser) (text : string) : InboundEnvelope :=
  let thread := pretty <$> message_thread_id m in
  {| in_id := ("telegram:" ++ pretty id)%string; in_channel := "telegram"; in_text := text;
     in_sessionKey := sessionKey "telegram" (id_text (chat m)) thread;
     replyTo := {| chatId := id_text (chat m); threadId := thread |};
     actor := id_text (us_id u); actor_username := us_username u; receivedAt := date m * 1000; command := command_of text |}.

(** The part of `receive` behind the marking of the update. *)
Definition receive_new (id : Z) (u : TelegramUpdate) : cprog (option InboundEnvelope) :=
  match match message u with Some m => Some m | None => edited_message u end with
  | None => Ret None
  | Some m =>
      match truthy (m_text m), from m with
      | Some text, Some user =>
          let* ok := ccall (Authorize (id_text (us_id user)) (id_text (chat m)) (us_username user)) in
          Ret (if ok then Some (envelope_of id m user text) else None)
      | _, _ => Ret None
      end
  end.

(** `receive`: the ids seen, which are marked before anything is awaited, and the rest. *)
Definition receive (u : option TelegramUpdate) (seen : list Z) : list Z * cprog (option InboundEnvelope) :=
  match u with
  | None => (seen, Ret None)
  | Some u =>
      match safe_id (update_id u) with
      | None => (seen, Ret None)
      | Some id => if includes seen id then (seen, Ret None) else (id :: seen, receive_new id u)
      end
  end.

Fixpoint send_all (chat : string) (thread : option string) (l : list (list ascii)) : cprog unit :=
  match l with
  | [] => Ret tt
  | text :: l' =>
      let* ok := ccall (SendMessage chat thread text) in
      if ok then send_all chat thread l' else Throw "Telegram send failed"
  end.

(** `send` *)
Definition send_text (o : OutboundEnvelope) (max : Z) : cprog unit :=
  if negb (streq (out_channel o) "telegram") then Throw "Invalid outbound channel"
  else
    let* l := raise (chunkTelegramText (String.list_ascii_of_string (out_text o)) max) in
    send_all (chatId (route o)) (threadId (route o)) l.

(** *** Splitting loses nothing *)

Lemma last_newline_bound l max i : last_newline l max = Some i -> (i <= max)%nat /\ l !! i = Some newline.
Proof.
  revert max i. induction l as [|c l IH]; intros max i; [done|]. cbn [last_newline].
  assert ((if Ascii.eqb c newline then Some 0%nat else None) = Some i -> (i <= max)%nat /\ (c :: l) !! i = Some newline) as Hhere.
  { destruct (Ascii.eqb_spec c newline) as [->|]; [|done]. intros [= <-]. split; [lia|done]. }
  destruct max as [|max']; [done|]. destruct (last_newline l max') as [j|] eqn:E; [|done].
  intros [= <-]. apply IH in E as [H1 H2]. split; [lia|done].
Qed.

Lemma cut_of_bounds max rest : (1 <= max)%nat -> (max < length rest)%nat ->
  (1 <= cut_of max rest <= S max)%nat /\ (cut_of max rest = S max -> rest !! max = Some newline).
Proof.
  intros Hm Hl. unfold cut_of. destruct (last_newline rest max) as [[|i]|] eqn:E; [split; [lia|intros; lia]| |split; [lia|intros; lia]].
  apply last_newline_bound in E as [H1 H2]. split; [lia|]. intros [= <-]. done.
Qed.

(** What is true of every chunk. *)
Definition chunk_ok (max : nat) (c : list ascii) : Prop :=
  c <> [] /\ ((length c <= max)%nat \/ length c = S max /\ last c = Some newline).

Lemma last_take {A} (l : list A) n x : l !! n = Some x -> last (take (S n) l) = Some x.
Proof. intros H. rewrite (take_S_r _ _ x) by done. by rewrite last_snoc. Qed.

Lemma chunks_ok fuel max rest : (1 <= max)%nat -> (length rest <= fuel)%nat ->
  List.concat (chunks fuel max rest) = rest /\ Forall (chunk_ok max) (chunks fuel max rest).
Proof.
  intros Hm. revert rest. induction fuel as [|fuel IH]; intros rest Hf; [destruct rest; [done|cbn in Hf; lia]|].
  cbn [chunks]. destruct rest as [|c rest']; [done|]. set (rest := c :: rest') in *.
  destruct (Nat.leb_spec (length rest) max).
  { split; [apply app_nil_r|]. apply Forall_singleton. split; [done|by left]. }
  destruct (cut_of_bounds max rest Hm ltac:(lia)) as [Hc Hn]. destruct (IH (drop (cut_of max rest) rest)) as [I1 I2]; [rewrite length_drop; lia|].
  split; [cbn [List.concat]; by rewrite I1, take_drop|]. apply Forall_cons. split; [|done]. split.
  - intros E. apply (f_equal length) in E. rewrite length_take in E. cbn [length] in E. lia.
  - rewrite length_take. destruct (decide (cut_of max rest = S max)) as [E|E]; [|left; lia]. right.
    split; [lia|]. rewrite E. apply last_take. by apply Hn.
Qed.

(** The chunks a text is sent in give the text when they are put together, none is
    empty, and none is longer than the maximum but for a line break that may follow. *)
Theorem chunks_join text max l : chunkTelegramText text max = inr l ->
  List.concat l = text /\ Forall (fun c => c <> [] /\
    (Z.of_nat (length c) <= max \/ Z.of_nat (length c) = max + 1 /\ last c = Some newline)) l.
Proof.
  unfold chunkTelegramText. destruct (Z.ltb_spec max 1); [done|]. intros [= <-].
  destruct (chunks_ok (length text) (Z.to_nat max) text) as [H1 H2]; [lia|done|]. split; [done|].
  eapply Forall_impl; [exact H2|]. intros c [Hc [Hl|[Hl Hn]]]; (split; [done|]); [left|right]; (split || idtac); lia || done.
Qed.

(** What a send that succeeded sent. *)
Definition sent (l : list (Prog.event ceff)) : list (list ascii) :=
  omap (fun ev => match ev with Event e _ => match e with SendMessage _ _ text => Some text | _ => None end end) l.

#[local] Abbreviation runs p Q h :=
  (ensures (E := ceff) (fun _ _ _ => True) (fun _ _ _ => True) record_event p Q h).

Lemma send_all_runs chat thread l h :
  runs (send_all chat thread l) (fun r h' => r = inr tt -> sent (rev h') = sent (rev h) ++ l) h.
Proof.
  revert h. induction l as [|text l IH]; intros h; cbn [send_all]; [intros _; by rewrite app_nil_r|].
  unfold ccall. cbn [bind trigger ensures]. split; [done|]. intros [e|[|]] _; cbn [raise bind]; [by cbn| |by cbn].
  eapply ensures_mono; [apply IH|]. intros r h' H Hr. rewrite (H Hr). unfold record_event. cbn [rev].
  unfold sent at 1. rewrite omap_app. cbn. by rewrite <- app_assoc.
Qed.

(** A text that was sent without an error went out whole and in order: what was
    answered with success put together is the text. *)
Theorem sent_whole o max tr : traces (send_text o max) tr (Ret tt) ->
  out_channel o = "telegram" /\ List.concat (sent tr) = String.list_ascii_of_string (out_text o).
Proof.
  intros H. assert (runs (send_text o max) (fun r h => r = inr tt -> out_channel o = "telegram" /\
    List.concat (sent (rev h)) = String.list_ascii_of_string (out_text o)) []) as Hr.
  { unfold send_text. unfold streq. case_bool_decide as Hc; cbn [negb]; [|by cbn].
    destruct (chunkTelegramText _ _) as [e|l] eqn:El; cbn [raise bind]; [by cbn|].
    eapply ensures_mono; [apply send_all_runs|]. intros r h Hs Hr. split; [done|]. rewrite (Hs Hr). change (sent (rev []) ++ l) with l.
    by apply chunks_join in El as [-> _]. }
  eapply history_result in Hr; [|exact H]. rewrite rev_involutive in Hr. by apply Hr.
Qed.

(** *** Receiving *)

Lemma receive_new_runs id u h : runs (receive_new id u) (fun r h' => match r with
  | inr (Some env) => exists m user text, from m = Some user /\ env = envelope_of id m user text /\
      Event (Authorize (actor env) (chatId (replyTo env)) (actor_username env)) (inr true) ∈ h'
  | _ => True end) h.
Proof.
  unfold receive_new. destruct (match message u with Some m => Some m | None => edited_message u end) as [m|]; [|done].
  destruct (truthy (m_text m)) as [text|]; [|done]. destruct (from m) as [user|] eqn:Hu; [|done].
  unfold ccall. cbn [bind trigger ensures]. split; [done|]. intros [e|[|]] _; cbn; [done| |done].
  exists m, user, text. split_and!; [done..|by left].
Qed.

(** A message reaches the agent, and with it an approval command, only if the channel
    was told that its user may write in its chat, and no update is taken twice. *)
Theorem received_authorized u seen tr env : traces (receive u seen).2 tr (Ret (Some env)) ->
  (exists id, id ∉ seen /\ (receive u seen).1 = id :: seen /\ in_id env = ("telegram:" ++ pretty id)%string) /\
  Event (Authorize (actor env) (chatId (replyTo env)) (actor_username env)) (inr true) ∈ tr.
Proof.
  unfold receive. destruct u as [u|]; [|by intros H; inversion H]. destruct (safe_id (update_id u)) as [id|]; [|by intros H; inversion H].
  unfold includes. case_bool_decide as Hin; [by intros H; inversion H|]. cbn [fst snd]. intros H.
  eapply history_result in H; [|apply receive_new_runs]. destruct H as (m & user & text & Hu & -> & Ha). split.
  - by exists id.
  - by apply list_elem_of_In, in_rev, list_elem_of_In in Ha.
Qed.

(** *** Examples and findings *)

(** A line break right behind the maximum makes a chunk one longer than the maximum. *)
Lemma chunk_too_long : chunkTelegramText (String.list_ascii_of_string ("abc" ++ String newline "d")%string) 3 =
  inr [String.list_ascii_of_string ("abc" ++ String newline "")%string; String.list_ascii_of_string "d"].
Proof. reflexivity. Qed.

(** An update whose authorization throws is marked all the same: delivered again, it is dropped. *)
Lemma failed_update_lost u id seen : safe_id (update_id u) = Some id ->
  receive (Some u) (receive (Some u) seen).1 = ((receive (Some u) seen).1, Ret None).
Proof.
  intros H. unfold receive at 2 3. rewrite H. unfold includes. case_bool_decide as Hin; cbn [fst];
    unfold receive; rewrite H; unfold includes; by rewrite bool_decide_true by (done || by left).
Qed.

Lemma chunks_join_witness : exists l, chunkTelegramText (String.list_ascii_of_string "hello") 2 = inr l /\
  List.concat l = String.list_ascii_of_string "hello" /\ length l = 3%nat.
Proof.
  eexists. split; [vm_compute; reflexivity|]. split; [|vm_compute; reflexivity].
  exact (proj1 (chunks_join (String.list_ascii_of_string "hello") 2 _ ltac:(vm_compute; reflexivity))).
Defined.
