(* ===== verification/GatewayCore.v ===== *)
(** The message gateway: `src/gateway/core/index.ts`.

    The verifier, the pairing store and the registered handlers are effects, and so are
    the reads and writes of the maps an interleaving could tell apart.  A raw request is
    its size and what it parses to.  The response's own schema, which a response to a
    parsed request satisfies, and `health` are left out. *)
From Stdlib Require Import Ascii.
From S2P Require Import Prelude Prog Canonical Money Agent.
#[local] Open Scope string_scope.
#[local] Open Scope list_scope.
#[local] Open Scope Z_scope.
#[local] Open Scope result_scope.
#[local] Open Scope prog_scope.

(** *** Frames *)

Definition id_char (c : ascii) : bool :=
  let n := nat_of_ascii c in
  is_digit c || ((65 <=? n)%nat && (n <=? 90)%nat) || ((97 <=? n)%nat && (n <=? 122)%nat) || includes [46; 95; 58; 45]%nat n.

Definition identifier (s : string) : bool :=
  let l := String.list_ascii_of_string s in
  (1 <=? length l)%nat && (length l <=? 128)%nat && forallb id_char l.

(** `^\d+\.\d+$` *)
Definition version_ok (s : string) : bool :=
  match split_dot (String.list_ascii_of_string s) with
  | (x, Some y) => negb (bool_decide (x = [])) && negb (bool_decide (y = [])) && forallb is_digit x && forallb is_digit y
  | _ => false
  end.

Record RequestFrame : Type := {
  rf_version : string; rf_id : string; rf_method : string; idempotencyKey : string; rf_sessionId : option string;
  rf_runId : option string; params : option value
}.

(** A text that may be absent; [None] is anything else. *)
Definition optional_string (v : option value) : option (option string) :=
  match v with None => Some None | Some (V_string s) => Some (Some s) | _ => None end.

Definition FRAME_KEYS : list string := ["version"; "id"; "kind"; "method"; "idempotencyKey"; "sessionId"; "runId"; "params"].

(** `requestFrameSchema.safeParse` *)
Definition requestFrame (v : value) : option RequestFrame :=
  match v with
  | V_object fields =>
      if forallb (fun f => includes FRAME_KEYS f.1) fields then
        match get_field "version" v, get_field "id" v, get_field "kind" v, get_field "method" v, get_field "idempotencyKey" v,
          optional_string (get_field "sessionId" v), optional_string (get_field "runId" v) with
        | Some (V_string ver), Some (V_string id), Some (V_string kind), Some (V_string method), Some (V_string key),
          Some session, Some run =>
            if version_ok ver && identifier id && streq kind "request" && identifier method && identifier key
            then Some {| rf_version := ver; rf_id := id; rf_method := method; idempotencyKey := key; rf_sessionId := session;
                         rf_runId := run; params := get_field "params" v |}
            else None
        | _, _, _, _, _, _, _ => None
        end
      else None
  | _ => None
  end.

Record ResponseFrame : Type := { rs_version : string; rs_id : string; rs_result : option value }.

(** *** Principals and devices *)

Record Principal : Type := { p_id : string; roles : list string; p_scopes : list string; capabilities : list string }.

Inductive PairingState : Type := pending | paired | revoked.

#[export] Instance PairingState_eq_dec : EqDecision PairingState.
Proof. solve_decision. Defined.

Record PairingRecord : Type := { deviceId : string; pr_principalId : string; pr_state : PairingState }.

Record AuthInput : Type := { credential : string; ai_deviceId : option string }.

Record GatewayContext : Type := { principal : Principal; device : option PairingRecord }.

Record AuthorizationRequirement : Type := {
  rq_roles : option (list string); rq_scopes : option (list string); rq_capabilities : option (list string)
}.

(** A requirement that lists something the principal lacks. *)
Definition lacks (field : option (list string)) (actual : list string) : bool :=
  match field with Some l => existsb (fun x => negb (includes actual x)) l | None => false end.

Definition authorize (c : GatewayContext) (q : AuthorizationRequirement) : result unit :=
  throw_on (lacks (rq_roles q) (roles (principal c)) || lacks (rq_scopes q) (p_scopes (principal c)) ||
            lacks (rq_capabilities q) (capabilities (principal c))) "FORBIDDEN".

(** *** Canonical ids and routes *)

Definition upper (c : ascii) : ascii :=
  if (97 <=? nat_of_ascii c)%nat && (nat_of_ascii c <=? 122)%nat then ascii_of_nat (nat_of_ascii c - 32) else c.

(** The Crockford alphabet: digits and capitals but I, L, O and U. *)
Definition crockford (c : ascii) : bool :=
  let n := nat_of_ascii c in
  is_digit c || ((65 <=? n)%nat && (n <=? 90)%nat && negb (includes [73; 76; 79; 85]%nat n)).

(** The text after a prefix, or all of it. *)
Fixpoint without (prefix l : list ascii) : option (list ascii) :=
  match prefix, l with
  | [], _ => Some l
  | x :: prefix', y :: l' => if Ascii.eqb x y then without prefix' l' else None
  | _, [] => None
  end.

(** `canonical`; [prefix] is in small letters. *)
Definition canonical (prefix v : string) : result string :=
  let l := map upper (String.list_ascii_of_string v) in
  let raw := default l (without (map upper (String.list_ascii_of_string prefix) ++ ["_"%char]) l) in
  if (length raw =? 26)%nat && forallb crockford raw then inr (prefix ++ "_" ++ String.string_of_list_ascii raw)%string
  else inl "INVALID_ID".

(** [fresh] is the random text taken without a value. *)
Definition canonicalRunId (v : option string) (fresh : string) : result string := canonical "run" (default fresh v).
Definition canonicalSessionId (v : option string) (fresh : string) : result string := canonical "ses" (default fresh v).

Record ChannelRoute : Type := { agentId : option string; rt_accountId : option string; peerId : option string; rt_threadId : option string }.

Fixpoint first_route (l : list (string * option string)) : result string :=
  match l with
  | [] => inl "INVALID_ROUTE"
  | (kind, v) :: l' =>
      match truthy v with
      | Some x => if identifier x then inr (kind ++ ":" ++ x)%string else inl "ZodError"
      | None => first_route l'
      end
  end.

Definition routingKey (r : ChannelRoute) : result string :=
  first_route [("thread", rt_threadId r); ("peer", peerId r); ("account", rt_accountId r); ("agent", agentId r)].

(** *** Sessions *)

Record SessionOwner : Type := { so_principalId : string; so_accountId : string }.

#[export] Instance SessionOwner_eq_dec : EqDecision SessionOwner.
Proof. solve_decision. Defined.

Definition owner_of (c : GatewayContext) (accountId : string) : SessionOwner :=
  {| so_principalId := p_id (principal c); so_accountId := accountId |}.

Definition claimSession (c : GatewayContext) (sessionId accountId : string) (m : gmap string SessionOwner) :
    result (gmap string SessionOwner) :=
  let? id := canonicalSessionId (Some sessionId) "" in
  match m !! id with
  | Some owner => if bool_decide (owner = owner_of c accountId) then inr (<[id := owner_of c accountId]> m) else inl "SESSION_ISOLATED"
  | None => inr (<[id := owner_of c accountId]> m)
  end.

Definition assertSessionAccess (c : GatewayContext) (sessionId accountId : string) (m : gmap string SessionOwner) : result unit :=
  let? id := canonicalSessionId (Some sessionId) "" in
  throw_on (negb (bool_decide (m !! id = Some (owner_of c accountId)))) "SESSION_ISOLATED".

(** *** Handling a request *)

Record GatewayConfig : Type := { supportedVersions : list string; maxRequestBytes : Z }.

(** The constructor. *)
Definition gateway_core (c : GatewayConfig) : result GatewayConfig :=
  if bool_decide (supportedVersions c = []) || (maxRequestBytes c <? 1) then inl "invalid gateway configuration" else inr c.

Definition negotiate (c : GatewayConfig) (offered : list string) : result string :=
  match List.find (includes offered) (supportedVersions c) with Some v => inr v | None => inl "VERSION_NOT_SUPPORTED" end.

(** `register`: the methods known and one more. *)
Definition register_method (method : string) (known : list string) : result (list string) :=
  if includes known method then inl "duplicate gateway method" else if identifier method then inr (known ++ [method]) else inl "ZodError".

(** A text with its size, or a value with the size of its text if it has one. *)
Inductive Raw : Type := RawText (bytes : Z) (parsed : option value) | RawValue (bytes : option Z) (v : value).

Record Remembered : Type := { rm_hash : string; rm_response : ResponseFrame }.

Inductive geff : Type -> Type :=
  | VerifyCredential (credential : string) : geff (string + option Principal)
  | GetDevice (deviceId : string) : geff (string + option PairingRecord)
  | HasHandler (method : string) : geff bool
  | CallHandler (r : RequestFrame) (c : GatewayContext) : geff (string + option value)
  | Recall (key : string) : geff (option Remembered)
  | Remember (key : string) (x : Remembered) : geff unit.

Definition gprog : Type -> Type := prog geff string.

Definition gcall {R} (e : geff (string + R)) : gprog R := bind (trigger e) raise.
Definition gdo {R} (e : geff R) : gprog R := trigger e.
Definition gthrow_if (b : bool) (code : string) : gprog unit := if b then Throw code else Ret tt.

Definition authenticate (i : AuthInput) : gprog GatewayContext :=
  let* p := gcall (VerifyCredential (credential i)) in
  match p with
  | None => Throw "UNAUTHENTICATED"
  | Some p =>
      match truthy (ai_deviceId i) with
      | None => Ret {| principal := p; device := None |}
      | Some d =>
          let* r := gcall (GetDevice d) in
          match r with
          | Some r =>
              if bool_decide (pr_state r = paired) && streq (pr_principalId r) (p_id p)
              then Ret {| principal := p; device := Some r |} else Throw "DEVICE_NOT_PAIRED"
          | None => Throw "DEVICE_NOT_PAIRED"
          end
      end
  end.

Section Handle.
Context (sha256 : string -> string) (cfg : GatewayConfig).

(** The frame of a raw request. *)
Definition frame_of (raw : Raw) : result RequestFrame :=
  let? v := match raw with
            | RawText bytes parsed =>
                if maxRequestBytes cfg <? bytes then inl "REQUEST_TOO_LARGE"
                else match parsed with Some v => inr v | None => inl "INVALID_FRAME" end
            | RawValue None _ => inl "INVALID_FRAME"
            | RawValue (Some bytes) v => if maxRequestBytes cfg <? bytes then inl "REQUEST_TOO_LARGE" else inr v
            end in
  match requestFrame v with
  | None => inl "INVALID_FRAME"
  | Some r => if includes (supportedVersions cfg) (rf_version r) then inr r else inl "VERSION_NOT_SUPPORTED"
  end.

Definition opt_entry (name : string) (v : option value) : list (string * value) := match v with Some x => [(name, x)] | None => [] end.

Definition request_hash (r : RequestFrame) : string :=
  sha256 (print (V_object ([("method", V_string (rf_method r))] ++ opt_entry "params" (params r) ++
    opt_entry "sessionId" (V_string <$> rf_sessionId r) ++ opt_entry "runId" (V_string <$> rf_runId r)))).

Definition request_key (p : Principal) (r : RequestFrame) : string :=
  (p_id p ++ ":" ++ default "-" (rf_sessionId r) ++ ":" ++ idempotencyKey r)%string.

Definition response_to (r : RequestFrame) (x : option value) : ResponseFrame :=
  {| rs_version := rf_version r; rs_id := rf_id r; rs_result := x |}.

(** `handle`, of a request that was parsed, on behalf of a principal. *)
Definition handle_as (r : RequestFrame) (c : GatewayContext) : gprog ResponseFrame :=
  let* known := gdo (HasHandler (rf_method r)) in
  gthrow_if (negb known) "METHOD_NOT_FOUND" ;;
  let key := request_key (principal c) r in
  let* prior := gdo (Recall key) in
  match prior with
  | Some x => if streq (rm_hash x) (request_hash r) then Ret (rm_response x) else Throw "IDEMPOTENCY_CONFLICT"
  | None =>
      let* answer := gcall (CallHandler r c) in
      gdo (Remember key {| rm_hash := request_hash r; rm_response := response_to r answer |}) ;;
      Ret (response_to r answer)
  end.

Definition handle_request (raw : Raw) (auth : AuthInput) : gprog ResponseFrame :=
  let* r := raise (frame_of raw) in
  let* c := authenticate auth in
  handle_as r c.
End Handle.

(** *** What precedes a handler *)

Section HandleSafety.
Context (sha256 : string -> string) (cfg : GatewayConfig).

Definition gateway_history : Type := list (event geff).

(** Who a context says is calling, as the verifier and the pairing store said. *)
Definition vouched (i : AuthInput) (c : GatewayContext) (h : gateway_history) : Prop :=
  Event (VerifyCredential (credential i)) (inr (Some (principal c))) ∈ h /\
  forall d, truthy (ai_deviceId i) = Some d -> exists x, Event (GetDevice d) (inr (Some x)) ∈ h /\ device c = Some x /\
    pr_state x = paired /\ pr_principalId x = p_id (principal c).

Definition no_call (ev : event geff) : Prop := match ev with Event e _ => match e with CallHandler _ _ => False | _ => True end end.

Definition gateway_pre (raw : Raw) (i : AuthInput) R (e : geff R) (h : gateway_history) : Prop :=
  match e with
  | CallHandler r c => frame_of cfg raw = inr r /\ vouched i c h /\ Event (HasHandler (rf_method r)) true ∈ h /\
      Event (Recall (request_key (principal c) r)) None ∈ h /\ Forall no_call h
  | _ => True
  end.

#[local] Abbreviation runs raw i p Q h := (ensures (E := geff) (gateway_pre raw i) (fun _ _ _ => True) record_event p Q h).

Lemma authenticate_runs raw i (Q : string + GatewayContext -> gateway_history -> Prop) :
  (forall e h, Q (inl e) h) -> (forall c h, vouched i c h -> Forall no_call h -> Q (inr c) h) -> runs raw i (authenticate i) Q [].
Proof.
  intros He Hc. unfold authenticate, gcall. cbn [bind trigger ensures]. split; [done|]. intros [e|[p|]] _; cbn [raise bind]; [apply He| |apply He].
  destruct (truthy (ai_deviceId i)) as [d|] eqn:Hd.
  - cbn [bind trigger ensures]. split; [done|]. intros [e|[x|]] _; cbn [raise bind]; [apply He| |apply He].
    destruct (bool_decide _ && _) eqn:E; [|apply He]. bool_hyps. apply Hc; [|by repeat (apply Forall_cons; split; [done|])].
    split; [by right; left|]. rewrite Hd. intros d' [= <-]. exists x. split; [by left|]. done.
  - apply Hc; [|by repeat (apply Forall_cons; split; [done|])]. split; [by left|]. by rewrite Hd.
Qed.

Lemma handle_as_runs raw i r c h : frame_of cfg raw = inr r -> vouched i c h -> Forall no_call h ->
  runs raw i (handle_as sha256 r c) (fun _ _ => True) h.
Proof.
  intros Hr [Hv Hd] Hn. unfold handle_as, gdo. cbn [bind trigger ensures]. split; [done|]. intros [|] _; cbn [negb gthrow_if bind trigger ensures]; [|done].
  split; [done|]. intros [x|] _; [by destruct (streq _ _)|]. unfold gcall. cbn [bind trigger ensures]. split.
  - split; [done|]. split_and!; [|by right; left|by left|by repeat (apply Forall_cons; split; [done|])].
    split; [by do 2 right|]. intros d Hx. destruct (Hd d Hx) as (x & Hin & Hrest). exists x. split; [by do 2 right|done].
  - intros [e|v] _; cbn [raise bind trigger ensures]; [done|]. by split.
Qed.

(** A handler is called only for a request within the size limit that parses, of a
    version the gateway supports, for the principal the verifier gave for the credential,
    whose device, if one was named, is paired to that principal; for a registered method,
    under a key no response is remembered for, and at most once. *)
Theorem handler_called_for raw i l1 r c x l2 p :
  traces (handle_request sha256 cfg raw i) (l1 ++ Event (CallHandler r c) x :: l2) p ->
  frame_of cfg raw = inr r /\ vouched i c (rev l1) /\ Event (HasHandler (rf_method r)) true ∈ l1 /\
  Event (Recall (request_key (principal c) r)) None ∈ l1 /\ Forall no_call l1.
Proof.
  intros Ht. apply (history_allowed (gateway_pre raw i)) in Ht as (H1 & H2 & H3 & H4 & H5).
  - assert (forall ev, ev ∈ rev l1 -> ev ∈ l1) as Hrev by (intros ev; rewrite !list_elem_of_In; apply in_rev).
    split_and!; [done..|by apply Hrev|by apply Hrev|]. rewrite Forall_forall in H5 |- *. intros ev Hev. apply H5.
    rewrite list_elem_of_In in Hev |- *. by apply in_rev in Hev.
  - apply (ensures_follows _ _ _ _ (fun _ _ => True)). unfold handle_request. apply ensures_bind. destruct (frame_of cfg raw) as [e|f] eqn:Hf; [done|].
    cbn [raise ensures]. apply ensures_bind, authenticate_runs; [done|]. intros c' h Hv Hn. by apply handle_as_runs.
Qed.

(** *** Remembered responses *)

(** What the gateway's map answers. *)
Definition gexec R (e : geff R) : gmap string Remembered -> R -> gmap string Remembered -> Prop :=
  match e in geff R return gmap string Remembered -> R -> gmap string Remembered -> Prop with
  | Recall key => fun m r m' => r = m !! key /\ m' = m
  | Remember key x => fun m _ m' => m' = <[key := x]> m
  | _ => fun m _ m' => m' = m
  end.

Lemma execs_remember l m m' key : execs gexec l m m' -> is_Some (m !! key) -> is_Some (m' !! key).
Proof.
  revert m. induction l as [|[R e r] l IH]; intros m; cbn; [by intros ->|]. intros (m1 & He & Hl) Hk. apply (IH m1 Hl).
  destruct e; cbn in He; subst; try done; [by destruct He as [_ ->]|]. destruct (decide (key0 = key)) as [->|Hne].
  - by rewrite lookup_insert_eq.
  - by rewrite lookup_insert_ne.
Qed.

(** A task that returned has remembered its response, or found one. *)
Lemma answered_remembered r c l m m' resp : traces (handle_as sha256 r c) l (Ret resp) -> execs gexec l m m' ->
  is_Some (m' !! request_key (principal c) r).
Proof.
  intros Ht He. assert (wp gexec (handle_as sha256 r c) (fun res m' => match res with
    | inr _ => is_Some (m' !! request_key (principal c) r) | inl _ => True end) m) as Hw.
  { unfold handle_as, gdo, gcall. cbn [bind trigger wp]. intros known s ->. destruct known; cbn [negb gthrow_if bind trigger wp]; [|done].
    intros prior s1 [-> ->]. destruct (m !! _) as [x|] eqn:Hx.
    - destruct (streq _ _); [|done]. cbn [wp]. by rewrite Hx.
    - cbn [bind trigger wp]. intros [e|v] s2 ->; [done|]. cbn [raise bind trigger wp]. intros [] s3 ->. by rewrite lookup_insert_eq. }
  exact (wp_traces gexec _ _ _ _ _ _ Hw Ht He).
Qed.

(** A read of this key finds something. *)
Definition recall_ans (key : string) R (e : geff R) : R -> Prop :=
  match e in geff R return R -> Prop with Recall k => fun r => k = key -> is_Some r | _ => fun _ => True end.

Lemma execs_recall l m m' key : execs gexec l m m' -> is_Some (m !! key) -> expected (recall_ans key) l.
Proof.
  revert m. induction l as [|[R e r] l IH]; intros m He Hk; [by apply Forall_nil|]. pose proof He as (m1 & He1 & Hl).
  apply Forall_cons. split.
  - destruct e; try done. destruct He1 as [-> _]. intros ->. exact Hk.
  - apply (IH m1); [done|]. apply (execs_remember [Event e r] m m1); [|done]. by exists m1.
Qed.

(** A task that finds its key calls nothing. *)
Lemma remembered_calls_nothing r c l m m' q : traces (handle_as sha256 r c) l q -> execs gexec l m m' ->
  is_Some (m !! request_key (principal c) r) -> Forall no_call l.
Proof.
  intros Ht He Hk. pose proof (execs_recall _ _ _ _ He Hk) as Hexp.
  apply Forall_forall. intros ev (l1 & l2 & ->)%list_elem_of_split. apply Forall_app in Hexp as [Hexp _].
  assert (follows (G := unit) (fun R (e : geff R) _ => match e with CallHandler _ _ => False | _ => True end)
    (recall_ans (request_key (principal c) r)) (fun _ _ _ g => g) (handle_as sha256 r c) tt) as Hf.
  { unfold handle_as, gdo. cbn [bind trigger follows]. split; [done|]. intros [|] _; cbn [negb gthrow_if bind trigger follows]; [|done].
    split; [done|]. intros prior Hp. destruct (Hp eq_refl) as [x ->]. by destruct (streq _ _). }
  apply (follows_allowed _ _ _ _ _ _ _ _ _ Hf Ht) in Hexp. by destruct ev as [R [] x].
Qed.

(** Once a request was answered, whatever the gateway handles in between, no later
    request under the same key of the same principal and session calls a handler. *)
Theorem answered_for_good r c l1 l2 l3 m m1 m2 m3 resp r' q :
  traces (handle_as sha256 r c) l1 (Ret resp) -> execs gexec l1 m m1 -> execs gexec l2 m1 m2 ->
  traces (handle_as sha256 r' c) l3 q -> execs gexec l3 m2 m3 ->
  rf_sessionId r' = rf_sessionId r -> idempotencyKey r' = idempotencyKey r -> Forall no_call l3.
Proof.
  intros Ht1 He1 He2 Ht3 He3 Hs Hk. eapply remembered_calls_nothing; [done..|].
  unfold request_key. rewrite Hs, Hk. eapply execs_remember; [done|]. by eapply answered_remembered.
Qed.
End HandleSafety.

(** *** Isolation of sessions *)

(** Claims one after another; one that throws changes nothing. *)
Definition claim (m : gmap string SessionOwner) (x : GatewayContext * string * string) : gmap string SessionOwner :=
  match claimSession x.1.1 x.1.2 x.2 m with inr m' => m' | inl _ => m end.

Definition claims (l : list (GatewayContext * string * string)) (m : gmap string SessionOwner) : gmap string SessionOwner :=
  foldl claim m l.

Lemma claim_keeps m x id owner : m !! id = Some owner -> claim m x !! id = Some owner.
Proof.
  intros Ho. unfold claim, claimSession. destruct (canonicalSessionId _ _) as [e|id']; [done|]. cbn [rbind].
  destruct (decide (id' = id)) as [->|Hne].
  - rewrite Ho. case_bool_decide as Hd; [|done]. by rewrite lookup_insert_eq, Hd.
  - destruct (m !! id') as [o|]; [case_bool_decide; [|done]|]; by rewrite lookup_insert_ne.
Qed.

Lemma claims_keep l m id owner : m !! id = Some owner -> claims l m !! id = Some owner.
Proof. revert m. induction l as [|x l IH]; intros m Ho; [done|]. apply IH. by apply claim_keeps. Qed.

(** After any claims that follow, a session that was claimed is open to the principal
    and account that claimed it first, under every spelling of its id, and to nobody else. *)
Theorem sessions_isolated l c sessionId accountId m m' :
  (forall id, canonicalSessionId (Some sessionId) "" = inr id -> m !! id = None) ->
  claimSession c sessionId accountId m = inr m' ->
  forall c' spelling accountId', canonicalSessionId (Some spelling) "" = canonicalSessionId (Some sessionId) "" ->
    assertSessionAccess c' spelling accountId' (claims l m') = inr tt <->
    p_id (principal c') = p_id (principal c) /\ accountId' = accountId.
Proof.
  unfold claimSession, assertSessionAccess. destruct (canonicalSessionId (Some sessionId) "") as [e|id]; [done|]. cbn [rbind].
  intros Hnone. rewrite (Hnone id eq_refl). intros [= <-] c' spelling accountId' ->. cbn [rbind].
  rewrite (claims_keep l _ id (owner_of c accountId)) by apply lookup_insert_eq. unfold throw_on, owner_of.
  case_bool_decide as Hd; cbn [negb].
  - injection Hd as Hd1 Hd2. done.
  - split; [done|]. intros [H1 H2]. exfalso. apply Hd. congruence.
Qed.

(** A canonical id is its own canonical id. *)
Example canonical_demo : canonicalSessionId (Some "ses_0123456789abcdefghjkmnpqrs") "" = inr "ses_0123456789ABCDEFGHJKMNPQRS" /\
  canonicalSessionId (Some "ses_0123456789ABCDEFGHJKMNPQRS") "" = inr "ses_0123456789ABCDEFGHJKMNPQRS" /\
  canonicalSessionId (Some "0123456789ABCDEFGHJKMNPQRS") "" = inr "ses_0123456789ABCDEFGHJKMNPQRS".
Proof. vm_compute. done. Qed.

(** *** Examples and findings *)

Definition demo_principal (id : string) : Principal := {| p_id := id; roles := []; p_scopes := []; capabilities := [] |}.

Definition demo_frame (key : string) (session : option string) : RequestFrame :=
  {| rf_version := "1.0"; rf_id := "id"; rf_method := "run"; idempotencyKey := key; rf_sessionId := session; rf_runId := None;
     params := None |}.

(** The key of a request runs its parts together: two principals whose ids differ share the
    keys of one session, and with them the responses, as the hash leaves the principal out. *)
Lemma keys_run_together sha256 : request_key (demo_principal "p") (demo_frame "x:s:k" (Some "s")) =
    request_key (demo_principal "p:s:x") (demo_frame "k" (Some "s")) /\
  request_hash sha256 (demo_frame "x:s:k" (Some "s")) = request_hash sha256 (demo_frame "k" (Some "s")).
Proof. done. Qed.

(** A request without a session and one whose session is called "-" share a key. *)
Lemma no_session_is_a_session p : request_key p (demo_frame "k" None) = request_key p (demo_frame "k" (Some "-")).
Proof. done. Qed.

Definition demo_gateway_context (id : string) : GatewayContext := {| principal := demo_principal id; device := None |}.

Definition demo_steps (r : RequestFrame) (c : GatewayContext) : list (event geff) :=
  [Event (HasHandler (rf_method r)) true; Event (Recall (request_key (principal c) r)) None].

(** The same request twice, before the first is answered, calls the handler twice. *)
Lemma concurrent_requests_both_run sha256 : let r := demo_frame "k" None in let c := demo_gateway_context "p" in
  let called := demo_steps r c ++ [Event (CallHandler r c) (inr None)] in
  (exists q, traces (handle_as sha256 r c) called q) /\
  execs gexec (demo_steps r c ++ called ++ [Event (CallHandler r c) (inr None)]) ∅ ∅.
Proof.
  cbv zeta. split.
  - eexists. unfold handle_as, gdo, gcall. cbn [bind trigger]. repeat constructor.
  - cbn. repeat (eexists; split; [done|]). done.
Qed.

(** *** Witnesses *)

Definition demo_gateway : GatewayConfig := {| supportedVersions := ["1.0"]; maxRequestBytes := 1024 |}.

Definition demo_raw : Raw := RawText 100 (Some (V_object [("version", V_string "1.0"); ("id", V_string "id");
  ("kind", V_string "request"); ("method", V_string "run"); ("idempotencyKey", V_string "k")])).

Definition demo_gateway_env (m : gmap string Remembered) R (e : geff R) (w : unit) : R * unit :=
  (match e in geff R return R with
   | VerifyCredential _ => inr (Some (demo_principal "p"))
   | GetDevice _ => inr None
   | HasHandler _ => true
   | CallHandler _ _ => inr (Some (V_bool true))
   | Recall k => m !! k
   | Remember _ _ => tt
   end, w).

Definition demo_auth_input : AuthInput := {| credential := "token"; ai_deviceId := None |}.

Definition demo_request_trace : list (event geff) :=
  run_trace (demo_gateway_env ∅) (handle_request (fun s => s) demo_gateway demo_raw demo_auth_input) tt.

Lemma handler_called_for_witness : demo_request_trace = take 3 demo_request_trace ++
    Event (CallHandler (demo_frame "k" None) (demo_gateway_context "p")) (inr (Some (V_bool true))) :: drop 4 demo_request_trace /\
  vouched demo_auth_input (demo_gateway_context "p") (rev (take 3 demo_request_trace)).
Proof.
  assert (Heq : demo_request_trace = take 3 demo_request_trace ++
    Event (CallHandler (demo_frame "k" None) (demo_gateway_context "p")) (inr (Some (V_bool true))) :: drop 4 demo_request_trace)
    by (vm_compute; reflexivity).
  split; [exact Heq|].
  refine (proj1 (proj2 (handler_called_for (fun s => s) demo_gateway demo_raw demo_auth_input _ _ _ _ _ _ _))).
  rewrite <- Heq. apply (run_traces (demo_gateway_env ∅) (handle_request (fun s => s) demo_gateway demo_raw demo_auth_input) tt).
Defined.

Definition demo_answered : ResponseFrame := {| rs_version := "1.0"; rs_id := "id"; rs_result := Some (V_bool true) |}.

Definition demo_memory : gmap string Remembered :=
  <[request_key (demo_principal "p") (demo_frame "k" None) :=
    {| rm_hash := request_hash (fun s => s) (demo_frame "k" None); rm_response := demo_answered |}]> ∅.

Definition demo_handled (m : gmap string Remembered) : list (event geff) :=
  run_trace (demo_gateway_env m) (handle_as (fun s => s) (demo_frame "k" None) (demo_gateway_context "p")) tt.

Lemma demo_first : execs gexec (demo_handled ∅) ∅ demo_memory.
Proof. exists ∅. split; [done|]. exists ∅. split; [done|]. exists ∅. split; [done|]. exists demo_memory. done. Qed.

Lemma demo_second : execs gexec (demo_handled demo_memory) demo_memory demo_memory.
Proof. exists demo_memory. split; [done|]. exists demo_memory. done. Qed.

Lemma answered_for_good_witness : length (demo_handled demo_memory) = 2%nat /\ Forall no_call (demo_handled demo_memory).
Proof.
  split; [vm_compute; reflexivity|].
  exact (answered_for_good (fun s => s) (demo_frame "k" None) (demo_gateway_context "p") (demo_handled ∅) [] (demo_handled demo_memory)
    ∅ demo_memory demo_memory demo_memory demo_answered (demo_frame "k" None) _
    (run_traces (demo_gateway_env ∅) (handle_as (fun s => s) (demo_frame "k" None) (demo_gateway_context "p")) tt)
    demo_first eq_refl
    (run_traces (demo_gateway_env demo_memory) (handle_as (fun s => s) (demo_frame "k" None) (demo_gateway_context "p")) tt)
    demo_second eq_refl eq_refl).
Defined.
