(* ===== verification/Models.v ===== *)
(** The model router: `RateLimitHealthTracker`, `classifyModelError` and `ModelRouter` of
    `src/agent/models/index.ts`, and how its transport numbers tool calls.

    Transports, the clock, the random jitter and the tracker's map, which concurrent
    requests share, are effects.  Window sizes and costs are exact rationals.  The HTTP
    transport itself is left out. *)
From Stdlib Require Import QArith Qround Sorted.
From stdpp Require Import pretty.
From S2P Require Import Prelude Prog Agent.
#[local] Open Scope string_scope.
#[local] Open Scope list_scope.
#[local] Open Scope Z_scope.
#[local] Open Scope prog_scope.

(** *** Data *)

Record ModelCandidate : Type := {
  mc_id : string; mc_provider : string; mc_model : string; transport : string; contextWindow : number;
  supportedTools : list string; inputCostPerMillion : number; outputCostPerMillion : number
}.

(** The fields of a request the router reads; [tools] are names. *)
Record ModelRequest : Type := {
  rq_tools : option (list string); requiredTools : option (list string); contextTokens : option Q; maxOutputTokens : option Q;
  body : string
}.

Record ModelResponse : Type := { mr_provider : string; mr_model : string; mr_content : string }.

Inductive ErrorKind : Type := SyntaxError | ZodError | TypeError | ModelHttpError (retryAfterMs : option Q) | PlainError.

(** An error: whether it is an abort, its status if it has one, its class. *)
Record ModelError : Type := { is_abort : bool; err_status : option Z; err_kind : ErrorKind }.

Definition plain_error : ModelError := {| is_abort := false; err_status := None; err_kind := PlainError |}.
Definition abort_error : ModelError := {| is_abort := true; err_status := None; err_kind := PlainError |}.

Record ErrorClassification : Type := { retryable : bool; fallback : bool; rateLimited : bool }.

Definition classification (r f l : bool) : ErrorClassification := {| retryable := r; fallback := f; rateLimited := l |}.

Definition classifyModelError (e : ModelError) : ErrorClassification :=
  if is_abort e then classification false false false
  else
    let by_kind :=
      match err_kind e with
      | SyntaxError | ZodError => classification false true false
      | TypeError => classification true true false
      | _ => classification false false false
      end in
    match err_status e with
    | Some s => if s =? 429 then classification true true true
                else if (s =? 408) || (s =? 425) || (500 <=? s) then classification true true false
                else by_kind
    | None => by_kind
    end.

(** *** The health tracker *)

(** When an id may be asked again. *)
Definition Health : Type := gmap string Q.

Definition recordRateLimit (id : string) (retryAt : Q) (h : Health) : Health := <[id := retryAt]> h.
Definition recordSuccess (id : string) (h : Health) : Health := delete id h.
Definition isHealthy (id : string) (now : Q) (h : Health) : bool := Qle_bool (default 0%Q (h !! id)) now.

(** *** The router *)

Record ModelRouter : Type := { candidates : list ModelCandidate; transports : list string; maxRetries : Z }.

Definition non_negative (x : number) : bool := match x with Finite q => Qle_bool 0 q | _ => false end.
Definition positive (x : number) : bool := match x with Finite q => negb (Qle_bool q 0) | _ => false end.

(** The checks of the constructor on the candidates, the ids seen before being given. *)
Fixpoint candidates_ok (seen : list string) (l : list ModelCandidate) : bool :=
  match l with
  | [] => true
  | c :: l' =>
      negb (includes seen (mc_id c)) && positive (contextWindow c) && non_negative (inputCostPerMillion c) &&
      non_negative (outputCostPerMillion c) && candidates_ok (mc_id c :: seen) l'
  end.

(** The constructor. *)
Definition model_router (l : list ModelCandidate) (ts : list string) (retries : option number) : result ModelRouter :=
  match retries with
  | None => if candidates_ok [] l then inr {| candidates := l; transports := ts; maxRetries := 0 |} else inl "invalid candidate"
  | Some (Finite q) =>
      if Qeq_bool q (inject_Z (Qfloor q)) && (0 <=? Qfloor q)
      then if candidates_ok [] l then inr {| candidates := l; transports := ts; maxRetries := Qfloor q |} else inl "invalid candidate"
      else inl "maxRetries must be a non-negative integer"
  | Some _ => inl "maxRetries must be a non-negative integer"
  end.

Definition rational (x : number) : Q := match x with Finite q => q | _ => 0%Q end.

Definition cost_of (q : ModelRequest) (c : ModelCandidate) : Q :=
  (rational (inputCostPerMillion c) * default 0%Q (contextTokens q) + rational (outputCostPerMillion c) * default 0%Q (maxOutputTokens q))%Q.

(** A candidate whose window and tools are enough. *)
Definition satisfies (q : ModelRequest) (c : ModelCandidate) : bool :=
  Qle_bool (default 0%Q (contextTokens q) + default 0%Q (maxOutputTokens q))%Q (rational (contextWindow c)) &&
  forallb (includes (supportedTools c)) (match requiredTools q with Some l => l | None => default [] (rq_tools q) end).

Fixpoint insert_candidate (q : ModelRequest) (x : ModelCandidate) (l : list ModelCandidate) : list ModelCandidate :=
  match l with
  | [] => [x]
  | y :: l' => if Qle_bool (cost_of q x) (cost_of q y) then x :: l else y :: insert_candidate q x l'
  end.

(** The stable sort by cost. *)
Definition by_cost (q : ModelRequest) (l : list ModelCandidate) : list ModelCandidate := fold_right (insert_candidate q) [] l.

(** `eligible`, [healthy] being what the tracker says. *)
Definition eligible (r : ModelRouter) (healthy : string -> bool) (q : ModelRequest) : list ModelCandidate :=
  by_cost q (List.filter (fun c => satisfies q c && healthy (mc_id c)) (candidates r)).

Definition route (r : ModelRouter) (healthy : string -> bool) (q : ModelRequest) : result ModelCandidate :=
  match eligible r healthy q with
  | c :: _ => inr c
  | [] => inl "No healthy model satisfies required tools and context/output requirements"
  end.

Inductive meff : Type -> Type :=
  | SignalAborted : meff bool
  (** what the tracker says of every candidate, read at once *)
  | ReadHealth : meff (string -> bool)
  | CallTransport (c : ModelCandidate) (attempt : Z) (q : ModelRequest) : meff (ModelError + ModelResponse)
  | RecordSuccess (id : string) : meff unit
  (** until the delay from now has passed *)
  | RecordRateLimit (id : string) (delay : Q) : meff unit
  (** the jitter is drawn, then the router sleeps *)
  | Sleep (base : Z) : meff unit.

Definition mprog : Type -> Type := prog meff ModelError.
Definition mdo {R} (e : meff R) : mprog R := trigger e.

Definition rate_limit_delay (e : ModelError) : Q :=
  match err_kind e with ModelHttpError (Some d) => if Qle_bool 0 d then d else 0%Q | _ => inject_Z 60000 end.

Section Complete.
Context (r : ModelRouter) (q : ModelRequest).

(** The attempts that are left: the response, or the error the candidate is given up with. *)
Fixpoint attempts (left : nat) (attempt : Z) (c : ModelCandidate) (last : option ModelError) :
    mprog (option ModelError + ModelResponse) :=
  match left with
  | O => Ret (inl last)
  | S left' =>
      let* aborted := mdo SignalAborted in
      if aborted then Throw abort_error
      else
        let* answer := mdo (CallTransport c attempt q) in
        match answer with
        | inr x =>
            mdo (RecordSuccess (mc_id c)) ;;
            Ret (inr {| mr_provider := mc_provider c; mr_model := mc_model c; mr_content := mr_content x |})
        | inl e =>
            let* now_aborted := mdo SignalAborted in
            if is_abort e || now_aborted then Throw e
            else if rateLimited (classifyModelError e)
            then mdo (RecordRateLimit (mc_id c) (rate_limit_delay e)) ;; Ret (inl (Some e))
            else if negb (retryable (classifyModelError e)) || (attempt =? maxRetries r) then Ret (inl (Some e))
            else mdo (Sleep (250 * 2 ^ attempt)) ;; attempts left' (attempt + 1) c (Some e)
        end
  end.

(** The loop over the eligible candidates. *)
Fixpoint try_candidates (l : list ModelCandidate) (last : option ModelError) : mprog ModelResponse :=
  match l with
  | [] => Throw (default plain_error last)
  | c :: l' =>
      if negb (includes (transports r) (transport c)) then try_candidates l' (Some plain_error)
      else
        let* out := attempts (S (Z.to_nat (maxRetries r))) 0 c last in
        match out with
        | inr x => Ret x
        | inl last' =>
            if fallback (classifyModelError (default plain_error last')) then try_candidates l' last'
            else Throw (default plain_error last')
        end
  end.

Definition complete : mprog ModelResponse :=
  let* aborted := mdo SignalAborted in
  if aborted then Throw abort_error
  else let* healthy := mdo ReadHealth in try_candidates (eligible r healthy q) None.
End Complete.

(** *** Ids of tool calls *)

(** The ids the calls of a response get: their own, or their position. *)
Fixpoint call_ids (index : nat) (seen : list string) (l : list (option string)) : result (list string) :=
  match l with
  | [] => inr []
  | x :: l' =>
      let id := default ("call_" ++ pretty (Z.of_nat index))%string x in
      if includes seen id then inl "Duplicate tool call ID"
      else match call_ids (S index) (id :: seen) l' with inr ids => inr (id :: ids) | inl e => inl e end
  end.

(** *** The order of the candidates *)

Section Order.
Context (q : ModelRequest).

Definition cheaper (x y : ModelCandidate) : Prop := (cost_of q x <= cost_of q y)%Q.

Lemma insert_candidate_elem x y l : y ∈ insert_candidate q x l <-> y = x \/ y ∈ l.
Proof.
  induction l as [|z l IH]; cbn; [by rewrite list_elem_of_singleton, elem_of_nil; tauto|].
  destruct (Qle_bool _ _); rewrite !elem_of_cons; [done|]. rewrite IH. tauto.
Qed.

Lemma by_cost_elem y l : y ∈ by_cost q l <-> y ∈ l.
Proof. induction l as [|x l IH]; [done|]. cbn. rewrite insert_candidate_elem, IH, elem_of_cons. done. Qed.

Lemma insert_candidate_length x l : length (insert_candidate q x l) = S (length l).
Proof. induction l as [|y l IH]; [done|]. cbn. destruct (Qle_bool _ _); cbn; [done|]. by rewrite IH. Qed.

Lemma by_cost_length l : length (by_cost q l) = length l.
Proof.
  induction l as [|x l IH]; [done|]. change (by_cost q (x :: l)) with (insert_candidate q x (by_cost q l)).
  by rewrite insert_candidate_length, IH.
Qed.

Lemma insert_candidate_sorted x l : StronglySorted cheaper l -> StronglySorted cheaper (insert_candidate q x l).
Proof.
  induction 1 as [|y l Hs IH Hy]; cbn; [by repeat constructor|]. destruct (Qle_bool _ _) eqn:E.
  - apply Qle_bool_iff in E. constructor; [by constructor|]. constructor; [done|].
    eapply Forall_impl; [exact Hy|]. intros z Hz. unfold cheaper in *. by eapply Qle_trans.
  - constructor; [done|]. rewrite Forall_forall in Hy |- *. intros z [->|Hz]%insert_candidate_elem; [|by apply Hy].
    unfold cheaper. destruct (Qlt_le_dec (cost_of q y) (cost_of q x)) as [Hlt|Hle]; [by apply Qlt_le_weak|].
    apply Qle_bool_iff in Hle. congruence.
Qed.

Lemma by_cost_sorted l : StronglySorted cheaper (by_cost q l).
Proof. induction l as [|x l IH]; [constructor|]. by apply insert_candidate_sorted. Qed.
End Order.

Lemma eligible_elem r healthy q c : c ∈ eligible r healthy q <-> c ∈ candidates r /\ satisfies q c = true /\ healthy (mc_id c) = true.
Proof. unfold eligible. rewrite by_cost_elem, !list_elem_of_In, filter_In, andb_true_iff. done. Qed.

(** `route` gives a cheapest candidate that is healthy and satisfies the request. *)
Theorem route_cheapest r healthy q c : route r healthy q = inr c ->
  (c ∈ candidates r /\ satisfies q c = true /\ healthy (mc_id c) = true) /\
  forall d, d ∈ candidates r -> satisfies q d = true -> healthy (mc_id d) = true -> (cost_of q c <= cost_of q d)%Q.
Proof.
  unfold route. intros H. assert (forall d, d ∈ eligible r healthy q -> (cost_of q c <= cost_of q d)%Q /\ c ∈ eligible r healthy q) as Hd.
  { pose proof (by_cost_sorted q (List.filter (fun c => satisfies q c && healthy (mc_id c)) (candidates r))) as Hs.
    change (by_cost q _) with (eligible r healthy q) in Hs. destruct Hs as [|x l Hs Hx]; [done|]. injection H as ->.
    rewrite Forall_forall in Hx. intros d [->|Hin]%elem_of_cons; (split; [|by left]); [apply Qle_refl|by apply Hx]. }
  split.
  - apply eligible_elem. destruct (eligible r healthy q) as [|x l]; [done|]. by apply (Hd x); left.
  - intros d H1 H2 H3. apply Hd. by apply eligible_elem.
Qed.

(** *** Asking the candidates *)

Section Asking.
Context (r : ModelRouter) (q : ModelRequest).

Definition model_history : Type := list (event meff).

(** The last candidate that was asked, and what it answered. *)
Definition asked_last (ev : event meff) : option (ModelCandidate * (ModelError + ModelResponse)) :=
  match ev with Event e x => match e in meff R return R -> _ with CallTransport c _ _ => fun x => Some (c, x) | _ => fun _ => None end x end.

Definition answers (h : model_history) : list (ModelCandidate * (ModelError + ModelResponse)) :=
  List.concat (map (fun ev => match asked_last ev with Some x => [x] | None => [] end) h).

Lemma answers_cons ev h : answers (ev :: h) = match asked_last ev with Some x => [x] | None => [] end ++ answers h.
Proof. done. Qed.

(** When another question may follow the answers so far: to the same candidate after an
    error that may be retried, to another one after an error it may stand in for. *)
Definition may_ask (attempt : Z) (h : model_history) : Prop :=
  match answers h with
  | [] => attempt = 0
  | (_, inl e) :: _ => is_abort e = false /\
      if attempt =? 0 then fallback (classifyModelError e) = true
      else retryable (classifyModelError e) = true /\ rateLimited (classifyModelError e) = false
  | (_, inr _) :: _ => False
  end.

Definition router_pre R (e : meff R) (h : model_history) : Prop :=
  match e with
  | CallTransport c attempt q' => q' = q /\ c ∈ candidates r /\ satisfies q c = true /\ transport c ∈ transports r /\
      (exists healthy, Event ReadHealth healthy ∈ h /\ healthy (mc_id c) = true) /\ 0 <= attempt <= maxRetries r /\
      Z.of_nat (length (answers h)) < (maxRetries r + 1) * Z.of_nat (length (candidates r)) /\ may_ask attempt h
  | _ => True
  end.

#[local] Abbreviation runs p Q h := (ensures (E := meff) router_pre (fun _ _ _ => True) record_event p Q h).

(** What is known of a candidate that may be asked. *)
Record askable (c : ModelCandidate) (h : model_history) : Prop := {
  ak_candidate : c ∈ candidates r;
  ak_satisfies : satisfies q c = true;
  ak_transport : transport c ∈ transports r;
  ak_healthy : exists healthy, Event ReadHealth healthy ∈ h /\ healthy (mc_id c) = true
}.

Ltac later := intros ev Hev; unfold record_event; repeat first [exact Hev|right].
Ltac count := unfold record_event; rewrite ?answers_cons; cbn [asked_last app length]; lia.

Lemma askable_more c ev h : askable c h -> askable c (ev :: h).
Proof. intros [H1 H2 H3 (f & H4 & H5)]. split; [done..|]. exists f. split; [by right|done]. Qed.

(** How an error that gave a candidate up stands in the history. *)
Definition given_up (n : Z) (out : option ModelError + ModelResponse) (h0 h : model_history) : Prop :=
  Z.of_nat (length (answers h)) <= Z.of_nat (length (answers h0)) + n /\ (forall ev, ev ∈ h0 -> ev ∈ h) /\
  match out with
  | inl (Some e) => is_abort e = false /\ exists c, head (answers h) = Some (c, inl e)
  | inl None => False
  | inr x => exists c y, head (answers h) = Some (c, inr y) /\ askable c h /\
      x = {| mr_provider := mc_provider c; mr_model := mc_model c; mr_content := mr_content y |}
  end.

Definition attempted (n : Z) (h0 : model_history) (out : ModelError + (option ModelError + ModelResponse)) (h : model_history) : Prop :=
  match out with inr x => given_up n x h0 h | inl _ => True end.

Lemma given_up_more n n' out h0 h1 h : Z.of_nat (length (answers h1)) <= Z.of_nat (length (answers h0)) + n' ->
  (forall ev, ev ∈ h0 -> ev ∈ h1) -> given_up n out h1 h -> given_up (n + n') out h0 h.
Proof. intros H1 H2 (H3 & H4 & H5). split; [lia|]. split; [auto|done]. Qed.

Lemma attempts_runs left attempt c last h : askable c h -> 0 <= attempt -> (0 < left)%nat ->
  attempt + Z.of_nat left = maxRetries r + 1 -> may_ask attempt h ->
  Z.of_nat (length (answers h)) + Z.of_nat left <= (maxRetries r + 1) * Z.of_nat (length (candidates r)) ->
  runs (attempts r q left attempt c last) (attempted (Z.of_nat left) h) h.
Proof.
  revert attempt last h. induction left as [|left IH]; intros attempt last h Hc Ha Hl Hsum Hmay Hcount; [lia|].
  cbn [attempts]. unfold mdo. cbn [bind trigger ensures]. split; [done|]. intros [|] _; [done|]. cbn [bind trigger ensures].
  pose proof (askable_more _ (Event SignalAborted false) _ Hc) as Hc1. split.
  { destruct Hc1 as [H1 H2 H3 H4]. split_and!; try done; [lia|count]. }
  intros [e|x] _; cbn [bind trigger ensures]; (split; [done|]).
  2: { intros [] _. cbn [attempted]. split; [count|]. split; [later|]. exists c, x. split; [done|]. split; [by do 2 apply askable_more|done]. }
  intros aborted _. destruct (is_abort e) eqn:Hab; [done|]. destruct aborted; [done|]. cbn [orb].
  destruct (rateLimited _) eqn:Hrl; cbn [bind trigger ensures].
  { split; [done|]. intros [] _. cbn [attempted]. split; [count|]. split; [later|]. split; [done|]. by exists c. }
  destruct (negb _ || _) eqn:Hstop.
  { cbn [attempted]. split; [count|]. split; [later|]. split; [done|]. by exists c. }
  apply orb_false_iff in Hstop as [Hr Hne]. apply negb_false_iff in Hr. apply Z.eqb_neq in Hne. cbn [bind trigger ensures].
  split; [done|]. intros [] _. set (h2 := record_event _ (Sleep _) _ _).
  assert (length (answers h2) = S (length (answers h))) as Hlen by done.
  eapply ensures_mono; [apply IH; [|lia|lia|lia| |]|].
  - by do 3 apply askable_more.
  - unfold may_ask. cbn. split; [done|]. destruct (Z.eqb_spec (attempt + 1) 0); [lia|done].
  - rewrite Hlen. lia.
  - intros [?|out] h' H; [done|]. cbn. replace (Z.of_nat (S left)) with (Z.of_nat left + 1) by lia.
    apply (given_up_more _ 1 _ _ h2); [|subst h2; later|exact H]. rewrite Hlen. lia.
Qed.

(** What is known of an eligible candidate. *)
Record offered (c : ModelCandidate) (h : model_history) : Prop := {
  of_candidate : c ∈ candidates r;
  of_satisfies : satisfies q c = true;
  of_healthy : exists healthy, Event ReadHealth healthy ∈ h /\ healthy (mc_id c) = true
}.

Definition answered_by (x : ModelResponse) (h : model_history) : Prop := exists c y, head (answers h) = Some (c, inr y) /\
  askable c h /\ x = {| mr_provider := mc_provider c; mr_model := mc_model c; mr_content := mr_content y |}.

Definition completed_as (out : ModelError + ModelResponse) (h : model_history) : Prop :=
  match out with inr x => answered_by x h | inl _ => True end.

Lemma try_candidates_runs l last h : 0 <= maxRetries r -> Forall (fun c => offered c h) l -> may_ask 0 h ->
  Z.of_nat (length (answers h)) + (maxRetries r + 1) * Z.of_nat (length l) <= (maxRetries r + 1) * Z.of_nat (length (candidates r)) ->
  runs (try_candidates r q l last) completed_as h.
Proof.
  intros HM. revert last h. induction l as [|c l IH]; intros last h Hl Hmay Hcount; [done|]. cbn [try_candidates].
  apply Forall_cons in Hl as [[H1 H2 H3] Hl]. cbn [length] in Hcount. unfold includes. case_bool_decide as Ht; cbn [negb].
  2: { apply IH; [done..|]. lia. }
  apply ensures_bind. eapply ensures_mono; [apply attempts_runs; [done|lia|lia|lia|done|]|].
  { rewrite Nat2Z.inj_succ, Z2Nat.id by done. nia. }
  intros [e|out] h'; [done|]. cbn [attempted]. rewrite Nat2Z.inj_succ, Z2Nat.id by done. intros (Hn & Hsub & Hout).
  destruct out as [[e|]|x]; [|done|exact Hout]. destruct Hout as [Hab (c' & Hhead)]. change (default plain_error (Some e)) with e.
  destruct (fallback (classifyModelError e)) eqn:Hf; [|exact I]. apply IH.
  - eapply Forall_impl; [exact Hl|]. intros d [D1 D2 (f & D3 & D4)]. split; [done..|]. exists f. split; [by apply Hsub|done].
  - unfold may_ask. destruct (answers h') as [|x l']; [done|]. injection Hhead as ->. by split.
  - nia.
Qed.

Lemma complete_runs : 0 <= maxRetries r -> runs (complete r q) completed_as [].
Proof.
  intros HM. unfold complete, mdo. cbn [bind trigger ensures]. split; [done|]. intros [|] _; [done|]. cbn [bind trigger ensures].
  split; [done|]. intros healthy _. apply try_candidates_runs; [done| |done|].
  - apply Forall_forall. intros c (H1 & H2 & H3)%eligible_elem. split; [done..|]. exists healthy. split; [by left|done].
  - cbn [answers map List.concat length app asked_last record_event]. unfold eligible. rewrite by_cost_length.
    pose proof (filter_length_le (fun c => satisfies q c && healthy (mc_id c)) (candidates r)). cbn. nia.
Qed.
End Asking.

Lemma model_router_retries l ts n r : model_router l ts n = inr r -> 0 <= maxRetries r.
Proof.
  unfold model_router. destruct n as [[| |x]|]; try done.
  - destruct (Qeq_bool _ _ && _) eqn:E; [|done]. apply andb_true_iff in E as [_ E]. destruct (candidates_ok _ _); [|done].
    intros [= <-]. cbn. lia.
  - destruct (candidates_ok _ _); [|done]. by intros [= <-].
Qed.

(** The router asks only a candidate that was healthy when the request came in, whose
    window and tools are enough and whose transport is configured; the first question to a
    candidate follows an error that another model may stand in for, a further one an error
    that may be retried; there are at most `maxRetries + 1` questions for every candidate,
    and none after an answer or an abort.  A response names the candidate that gave it. *)
Theorem router_bounded l ts n r q :
  model_router l ts n = inr r ->
  (forall l1 R (e : meff R) x l2 p, traces (complete r q) (l1 ++ Event e x :: l2) p -> router_pre r q R e (rev l1)) /\
  (forall tr x, traces (complete r q) tr (Ret x) -> answered_by r q x (rev tr)).
Proof.
  intros HM%model_router_retries. pose proof (complete_runs r q HM) as Hr. split.
  - intros l1 R e x l2 p Ht. apply (history_allowed (router_pre r q)) in Ht; [exact Ht|]. by eapply ensures_follows.
  - intros tr x Ht. exact (history_result _ _ _ _ _ Hr Ht).
Qed.

(** A call without an id gets the id of its position, also when another call has it: the
    response is then refused for a duplicate the server did not send. *)
Lemma synthesized_duplicate : call_ids 0 [] [Some "call_1"; None] = inl "Duplicate tool call ID".
Proof. reflexivity. Qed.

(** *** A request that falls back *)

Definition demo_candidate (id : string) (cost : Z) : ModelCandidate :=
  {| mc_id := id; mc_provider := id; mc_model := "model"; transport := "http"; contextWindow := js_num 4096; supportedTools := [];
     inputCostPerMillion := js_num cost; outputCostPerMillion := js_num 0 |}.

Definition demo_router : ModelRouter :=
  {| candidates := [demo_candidate "dear" 2; demo_candidate "cheap" 1]; transports := ["http"]; maxRetries := 1 |}.

Definition demo_request : ModelRequest :=
  {| rq_tools := None; requiredTools := None; contextTokens := Some 100%Q; maxOutputTokens := None; body := "" |}.

Definition demo_models R (e : meff R) (w : unit) : R * unit :=
  (match e in meff R return R with
   | SignalAborted => false
   | ReadHealth => fun _ => true
   | CallTransport c _ _ => if streq (mc_id c) "cheap"
                            then inl {| is_abort := false; err_status := Some 503; err_kind := PlainError |}
                            else inr {| mr_provider := ""; mr_model := ""; mr_content := "hello" |}
   | RecordSuccess _ => tt
   | RecordRateLimit _ _ => tt
   | Sleep _ => tt
   end, w).

Lemma router_bounded_witness : (Prog.run demo_models (complete demo_router demo_request) tt).1 =
    inr {| mr_provider := "dear"; mr_model := "model"; mr_content := "hello" |} /\
  answered_by demo_router demo_request {| mr_provider := "dear"; mr_model := "model"; mr_content := "hello" |}
    (rev (run_trace demo_models (complete demo_router demo_request) tt)).
Proof.
  split; [vm_compute; reflexivity|].
  refine (proj2 (router_bounded [demo_candidate "dear" 2; demo_candidate "cheap" 1] ["http"] (Some (js_num 1)) demo_router
    demo_request ltac:(vm_compute; reflexivity)) _ _ _).
  exact (run_traces demo_models (complete demo_router demo_request) tt).
Defined.
