(* ===== verification/Context.v ===== *)
(** The context compiler: `compileContext` of `src/cognition/context/index.ts`.

    Texts are ASCII.  The summarizer, raced with its deadline, is an effect, whose answer
    is the ids it refers to; what is redacted of the messages it gets is left out.  An
    estimate is a function of the message. *)
From Stdlib Require Import Ascii Qround.
From S2P Require Import Prelude Prog Canonical Money Doubles.
#[local] Open Scope string_scope.
#[local] Open Scope list_scope.
#[local] Open Scope Z_scope.
#[local] Open Scope result_scope.
#[local] Open Scope prog_scope.

(** *** Data *)

Inductive ContextRole : Type := system | user | assistant | tool.

#[export] Instance ContextRole_eq_dec : EqDecision ContextRole.
Proof. solve_decision. Defined.

Record ContextToolCall : Type := { tc_id : string; tc_name : string; tc_arguments : value }.

Record ContextMessage : Type := {
  cm_id : string; role : ContextRole; content : string; name : option string; toolCallId : option string;
  toolCalls : option (list ContextToolCall); kind : option string; evidenceRef : option string
}.

Record SummaryReference : Type := { messageId : string; description : string; sr_evidenceRef : option string }.

Record HandoffSummary : Type := { overview : string; references : list SummaryReference }.

Record CompileOptions : Type := {
  maxTokens : number; headMessages : option Z; tailMessages : option Z; summarizes : bool
}.

Record ContextDiagnostics : Type := {
  initialTokens : Z; finalTokens : Z; prunedMessageIds : list string; protectedMessageIds : list string;
  evidenceReferences : list string; overBudget : bool; summarized : bool
}.

Record CompiledContext : Type := { messages : list ContextMessage; summary : option HandoffSummary; diagnostics : ContextDiagnostics }.

Definition financialKinds : list string := ["approval"; "policy"; "simulation"; "transaction"; "receipt"].
Definition TRUSTED_OVERVIEW : string :=
  "Pruned context is available only through the listed message and evidence references.".

Definition role_text (r : ContextRole) : string :=
  match r with system => "system" | user => "user" | assistant => "assistant" | tool => "tool" end.

(** *** Estimates *)

Definition opt_field (n : string) (v : option value) : list (string * value) := match v with Some x => [(n, x)] | None => [] end.

Definition call_value (c : ContextToolCall) : value :=
  V_object [("id", V_string (tc_id c)); ("name", V_string (tc_name c)); ("arguments", tc_arguments c)].

(** `defaultEstimate`: the length of the printed message, in words of four, and eight. *)
Definition defaultEstimate (m : ContextMessage) : number :=
  let text := print (V_object ([("role", V_string (role_text (role m))); ("id", V_string (cm_id m)); ("content", V_string (content m))] ++
    opt_field "name" (V_string <$> name m) ++ opt_field "toolCallId" (V_string <$> toolCallId m) ++
    opt_field "toolCalls" ((fun l => V_array (map call_value l)) <$> toolCalls m) ++ opt_field "kind" (V_string <$> kind m) ++
    opt_field "evidenceRef" (V_string <$> evidenceRef m))) in
  js_num ((Z.of_nat (String.length text) + 3) / 4 + 8).

(** A whole number that is not negative. *)
Definition whole (x : number) : option Z :=
  match x with Finite q => if num_isInteger x && (0 <=? Qfloor q) then Some (Qfloor q) else None | _ => None end.

(** `validatedEstimate`; [None] is an estimate that threw. *)
Definition validatedEstimate (estimate : ContextMessage -> option number) (m : ContextMessage) : result Z :=
  match estimate m with
  | None => inl "estimateTokens threw"
  | Some x => match whole x with Some n => inr n | None => inl "estimateTokens must return a finite non-negative integer" end
  end.

(** *** Evidence *)

(** `[A-Za-z0-9._~!$&'()*+,;=:@%/-]` *)
Definition ref_char (c : ascii) : bool :=
  let n := nat_of_ascii c in
  is_digit c || ((65 <=? n)%nat && (n <=? 90)%nat) || ((97 <=? n)%nat && (n <=? 122)%nat) ||
  includes [46; 95; 126; 33; 36; 38; 39; 40; 41; 42; 43; 44; 59; 61; 58; 64; 37; 47; 45]%nat n.

Definition safeEvidenceRef (v : option string) : bool :=
  match v with
  | Some s =>
      String.prefix "evidence://" s &&
      let rest := drop 11 (String.list_ascii_of_string s) in
      negb (bool_decide (rest = [])) && forallb ref_char rest && (String.length s <=? 512)%nat
  | None => false
  end.

(** *** Units *)

Definition calls_of (m : ContextMessage) : list ContextToolCall :=
  match role m with assistant => default [] (toolCalls m) | _ => [] end.

(** The result of a call. *)
Definition answers (id : string) (m : ContextMessage) : bool := bool_decide (role m = tool) && bool_decide (toolCallId m = Some id).

Fixpoint all_answer (ids : list string) (l : list ContextMessage) : bool :=
  match ids, l with
  | [], _ => true
  | id :: ids', m :: l' => answers id m && all_answer ids' l'
  | _, [] => false
  end.

Fixpoint distinct (l : list string) : bool := match l with [] => true | x :: l' => negb (includes l' x) && distinct l' end.

(** Whether a message is a plain answer of the assistant. *)
Definition plain_reply (m : option ContextMessage) : bool :=
  match m with Some m => bool_decide (role m = assistant) && bool_decide (calls_of m = []) | None => false end.

Fixpoint build_units (fuel i : nat) (l : list ContextMessage) : result (list (list nat)) :=
  match fuel with
  | O => inr []
  | S fuel' =>
      match l with
      | [] => inr []
      | m :: l' =>
          check bool_decide (role m = tool) else "Invalid tool exchange: orphan or delayed result";
          match calls_of m with
          | [] =>
              if bool_decide (role m = user) && plain_reply (head l')
              then let? us := build_units fuel' (i + 2) (tail l') in inr ([i; S i] :: us)
              else let? us := build_units fuel' (S i) l' in inr ([i] :: us)
          | calls =>
              let ids := map tc_id calls in
              check existsb (fun x => streq x "") ids || negb (distinct ids) else "Invalid tool exchange: duplicate or empty call id";
              check negb (all_answer ids l') else "Invalid tool exchange: missing, delayed, or reordered result";
              check match l' !! length ids with Some m => bool_decide (role m = tool) | None => false end
                else "Invalid tool exchange: duplicate or orphan result";
              let? us := build_units fuel' (i + S (length ids)) (drop (length ids) l') in
              inr (seq i (S (length ids)) :: us)
          end
      end
  end.

(** Every turn takes a message at least. *)
Definition buildUnits (l : list ContextMessage) : result (list (list nat)) := build_units (length l) 0 l.

(** *** Pruning *)

Section Compile.
Context (estimate : ContextMessage -> option number) (input : list ContextMessage) (o : CompileOptions) (max : Z).

Definition head_count : nat := Z.to_nat (Z.max 0 (default 1 (headMessages o))).
Definition tail_count : nat := Z.to_nat (Z.max 0 (default 4 (tailMessages o))).

Definition protected_index (i : nat) : bool :=
  (i <? head_count)%nat || (Nat.max head_count (length input - tail_count) <=? i)%nat ||
  match input !! i with
  | Some m => match kind m with Some k => includes financialKinds k | None => false end ||
              (bool_decide (role m = tool) && match truthy (evidenceRef m) with Some _ => negb (safeEvidenceRef (evidenceRef m)) | None => false end)
  | None => false
  end.

Definition protected_unit (u : list nat) : bool := existsb protected_index u.

Definition estimate_at (estimates : list Z) (i : nat) : Z := default 0 (estimates !! i).

(** The loop over the units, oldest first: the indices that are removed and the tokens left. *)
Fixpoint prune (estimates : list Z) (us : list (list nat)) (tokens : Z) : list nat * Z :=
  match us with
  | [] => ([], tokens)
  | u :: us' =>
      if tokens <=? max then ([], tokens)
      else if protected_unit u then prune estimates us' tokens
      else let '(removed, rest) := prune estimates us' (tokens - sum_by (estimate_at estimates) u) in (u ++ removed, rest)
  end.

(** The messages at the indices a test selects. *)
Definition select {A} (p : nat -> bool) (l : list A) : list A :=
  map snd (List.filter (fun x => p x.1) (combine (seq 0 (length l)) l)).

Definition reference_value (r : SummaryReference) : value :=
  V_object ([("messageId", V_string (messageId r)); ("description", V_string (description r))] ++
            opt_field "evidenceRef" (V_string <$> sr_evidenceRef r)).

Definition summary_message (s : HandoffSummary) : ContextMessage :=
  {| cm_id := "context-handoff-summary"; role := system;
     content := ("TRUSTED_CONTEXT_REFERENCE_V1" ++ String (ascii_of_nat 10)
       (print (V_object [("version", V_number 1); ("overview", V_string (overview s));
                         ("references", V_array (map reference_value (references s)))])))%string;
     name := None; toolCallId := None; toolCalls := None; kind := Some "handoff-summary"; evidenceRef := None |}.

(** The references to evidence that is pruned. *)
Definition required_of (pruned : list ContextMessage) : list SummaryReference :=
  map (fun m => {| messageId := cm_id m; description := "Evidence reference"; sr_evidenceRef := evidenceRef m |})
    (List.filter (fun m => bool_decide (role m = tool) && safeEvidenceRef (evidenceRef m)) pruned).

(** The references the summarizer adds: ids of pruned messages, each once. *)
Fixpoint optional_of (allowed used : list string) (l : list (option string)) : list SummaryReference :=
  match l with
  | [] => []
  | Some id :: l' =>
      if includes allowed id && negb (includes used id)
      then {| messageId := id; description := "Archived message reference"; sr_evidenceRef := None |} :: optional_of allowed (id :: used) l'
      else optional_of allowed used l'
  | None :: l' => optional_of allowed used l'
  end.

Definition summary_of (pruned : list ContextMessage) (ids : list (option string)) : HandoffSummary :=
  {| overview := TRUSTED_OVERVIEW;
     references := required_of pruned ++ optional_of (map cm_id pruned) (map messageId (required_of pruned)) ids |}.

(** `[...new Set(l)]` *)
Fixpoint unique (seen l : list string) : list string :=
  match l with [] => [] | x :: l' => if includes seen x then unique seen l' else x :: unique (x :: seen) l' end.

Inductive xeff : Type -> Type :=
  (** what the summary refers to; [None] when it failed, came late or is malformed *)
  | Summarize (pruned : list ContextMessage) (required : list SummaryReference) : xeff (option (list (option string))).

Fixpoint all_estimates (l : list ContextMessage) : result (list Z) :=
  match l with [] => inr [] | m :: l' => let? n := validatedEstimate estimate m in let? ns := all_estimates l' in inr (n :: ns) end.

Definition evidence_of (l : list ContextMessage) : list string :=
  omap (fun m => if safeEvidenceRef (evidenceRef m) then evidenceRef m else None) l.

(** The end of `compileContext`: what is kept, with the summary if it fits. *)
Definition finish (us : list (list nat)) (removed : list nat) (initial tokens : Z) (s : option HandoffSummary) : result CompiledContext :=
  let gone := fun i => includes removed i in
  let pruned := select gone input in
  let kept := select (fun i => negb (gone i)) input in
  let? fitted := match s with
                 | None => inr None
                 | Some s => let? n := validatedEstimate estimate (summary_message s) in
                             inr (if tokens + n <=? max then Some s else None)
                 end in
  let compiled := match fitted with
                  | Some s => let at_ := Nat.min head_count (length kept) in take at_ kept ++ summary_message s :: drop at_ kept
                  | None => kept
                  end in
  let? finals := all_estimates compiled in
  let final := sum_by (fun n => n) finals in
  inr {| messages := compiled; summary := fitted;
         diagnostics := {| initialTokens := initial; finalTokens := final; prunedMessageIds := map cm_id pruned;
                           protectedMessageIds := map cm_id (select (includes (List.concat (List.filter protected_unit us))) input);
                           evidenceReferences := unique [] (evidence_of (List.filter (fun m => bool_decide (role m = tool)) pruned) ++
                                                            evidence_of kept); overBudget := max <? final;
                           summarized := match fitted with Some _ => true | None => false end |} |}.
End Compile.

Definition ask_summary (pruned : list ContextMessage) : prog xeff string (option HandoffSummary) :=
  bind (trigger (Summarize pruned (required_of pruned)))
    (fun raw : option (list (option string)) => Ret (option_map (summary_of pruned) raw)).

Definition compileContext (estimate : ContextMessage -> option number) (input : list ContextMessage) (o : CompileOptions) :
    prog xeff string CompiledContext :=
  match whole (maxTokens o) with
  | None => Throw "maxTokens must be a non-negative integer"
  | Some max =>
      if existsb (fun m => streq (cm_id m) "") input || negb (distinct (map cm_id input))
      then Throw "Message id must be non-empty and unique"
      else
        let* us := raise (buildUnits input) in
        let* estimates := raise (all_estimates estimate input) in
        let initial := sum_by (fun n => n) estimates in
        let cut := prune input o max estimates us initial in
        let pruned := select (includes cut.1) input in
        let* s := if summarizes o && negb (bool_decide (map cm_id pruned = []))
                  then ask_summary pruned
                  else Ret None in
        raise (finish estimate input o max us cut.1 initial cut.2 s)
  end.

(** *** Units *)

Lemma all_answer_spec ids l k id : all_answer ids l = true -> ids !! k = Some id -> exists m, l !! k = Some m /\ answers id m = true.
Proof.
  revert l k. induction ids as [|x ids IH]; intros l k; [done|]. destruct l as [|m l]; [done|].
  cbn. intros [H1 H2]%andb_true_iff. destruct k as [|k]; cbn; [intros [= <-]; by exists m|by apply IH].
Qed.

Lemma all_answer_length ids l : all_answer ids l = true -> (length ids <= length l)%nat.
Proof.
  revert l. induction ids as [|x ids IH]; intros l; cbn; [lia|]. destruct l as [|m l]; [done|].
  intros [_ H]%andb_true_iff. apply IH in H. cbn. lia.
Qed.

Lemma answers_tool id m : answers id m = true -> role m = tool.
Proof. unfold answers. intros [H _]%andb_true_iff. by apply bool_decide_eq_true in H. Qed.

Lemma tool_calls_nothing m : role m = tool -> calls_of m = [].
Proof. unfold calls_of. by intros ->. Qed.

(** An assistant's calls and their results, as a unit of the list. *)
Definition exchange (i j : nat) (m : ContextMessage) (l : list ContextMessage) (us : list (list nat)) : Prop :=
  seq (i + j) (S (length (calls_of m))) ∈ us /\
  forall k c, calls_of m !! k = Some c -> exists x, l !! (j + S k)%nat = Some x /\ answers (tc_id c) x = true.

Lemma exchange_drop i j n m l us u : (n <= j)%nat -> exchange (i + n) (j - n) m (drop n l) us -> exchange i j m l (u :: us).
Proof.
  intros Hn [H1 H2]. split; [right; by replace (i + j)%nat with (i + n + (j - n))%nat by lia|].
  intros k c Hk. destruct (H2 k c Hk) as (x & Hx & Ha). exists x. split; [|done]. rewrite lookup_drop in Hx.
  by replace (n + (j - n + S k))%nat with (j + S k)%nat in Hx by lia.
Qed.

Lemma build_units_spec fuel i l us : (length l <= fuel)%nat -> build_units fuel i l = inr us ->
  List.concat us = seq i (length l) /\
  forall j m, l !! j = Some m -> calls_of m <> [] -> exchange i j m l us.
Proof.
  revert i l us. induction fuel as [|fuel IH]; intros i l us Hf; [destruct l; [|cbn in Hf; lia]; intros [= <-]; done|].
  cbn [build_units]. destruct l as [|m l']; [intros [= <-]; done|]. cbn [length] in Hf. intros H. open_result H.
  destruct (calls_of m) as [|c0 calls] eqn:Hcalls.
  - destruct (bool_decide _ && _) eqn:Hpair.
    + apply andb_true_iff in Hpair as [_ Hreply]. destruct l' as [|y l'']; [done|]. open_result H. injection H as <-. cbn [tail length] in *.
      apply IH in Ha as [I1 I2]; [|lia]. split; [cbn [List.concat app seq]; by rewrite I1, Nat.add_comm|].
      intros [|[|j]] mm; cbn [lookup list_lookup]; [by intros [= <-] ?|intros [= <-] Hx|intros Hx Hne].
      * unfold plain_reply in Hreply. cbn in Hreply. bool_hyps. done.
      * apply (exchange_drop _ _ 2); [lia|]. cbn [drop]. replace (S (S j) - 2)%nat with j by lia. by apply I2.
    + open_result H. injection H as <-. apply IH in Ha as [I1 I2]; [|lia]. split; [cbn [List.concat app seq]; by rewrite I1|].
      intros [|j] mm; cbn [lookup list_lookup]; [by intros [= <-] ?|intros Hx Hne].
      apply (exchange_drop _ _ 1); [lia|]. cbn [drop]. rewrite Nat.add_1_r. replace (S j - 1)%nat with j by lia. by apply I2.
  - set (ids := map tc_id (c0 :: calls)) in *. open_result H. injection H as <-. bool_hyps.
    assert (length ids = length (calls_of m)) as Hids by (unfold ids; by rewrite length_map, Hcalls).
    assert (all_answer ids l' = true) as Hall by (by destruct (all_answer ids l')).
    pose proof (all_answer_length _ _ Hall) as Hle.
    match goal with Hu : build_units fuel _ _ = inr _ |- _ => apply IH in Hu as [I1 I2]; [|rewrite length_drop; lia] end.
    split.
    { cbn [List.concat length]. rewrite I1, length_drop.
      replace (S (length l')) with (S (length ids) + (length l' - length ids))%nat by lia. by rewrite seq_app. }
    intros j mm Hj Hne. destruct (decide (j <= length ids)%nat) as [Hin|Hout].
    + destruct j as [|j]; [injection Hj as <-|].
      * split; [rewrite <- Hids, Nat.add_0_r; by left|]. intros k c Hk.
        destruct (all_answer_spec ids l' k (tc_id c) Hall) as (res & Hx & Hans); [unfold ids; by rewrite <- Hcalls, list_lookup_fmap, Hk|].
        by exists res.
      * exfalso. change (l' !! j = Some mm) in Hj. destruct (ids !! j) as [id|] eqn:Hid; [|apply lookup_ge_None in Hid; lia].
        destruct (all_answer_spec ids l' j id Hall Hid) as (res & Hx & Hans). rewrite Hj in Hx. injection Hx as <-.
        by apply Hne, tool_calls_nothing, (answers_tool id).
    + apply (exchange_drop _ _ (S (length ids))); [lia|]. cbn [drop]. apply I2; [|done].
      rewrite lookup_drop. destruct j as [|j]; [lia|]. change (l' !! j = Some mm) in Hj. rewrite <- Hj. f_equal. lia.
Qed.

(** *** Pruning *)

Section Prune.
Context (input : list ContextMessage) (o : CompileOptions) (max : Z) (estimates : list Z).
#[local] Abbreviation est := (estimate_at estimates).
#[local] Abbreviation keeps := (protected_unit input o).

(** The units before some point that are not protected are removed, and none behind it; the
    point is the first one at which the rest is within the budget. *)
Lemma prune_spec us tokens removed left : prune input o max estimates us tokens = (removed, left) ->
  exists us1 us2, us = us1 ++ us2 /\ removed = List.concat (List.filter (fun u => negb (keeps u)) us1) /\
    left = tokens - sum_by est removed /\ (us2 = [] \/ left <= max) /\
    (removed <> [] -> max < tokens).
Proof.
  revert tokens removed left. induction us as [|u us IH]; intros tokens removed left; cbn [prune].
  { intros [= <- <-]. exists [], []. split_and!; try done; [cbn; lia|by left]. }
  destruct (Z.leb_spec tokens max).
  { intros [= <- <-]. exists [], (u :: us). split_and!; try done; [cbn; lia|by right]. }
  destruct (keeps u) eqn:Hk.
  - intros (us1 & us2 & -> & -> & -> & H4 & H5)%IH. exists (u :: us1), us2. cbn. rewrite Hk. cbn. split_and!; done.
  - destruct (prune _ _ _ _ us _) as [rest left'] eqn:E. intros [= <- <-].
    apply IH in E as (us1 & us2 & -> & -> & -> & H4 & H5). exists (u :: us1), us2. cbn. rewrite Hk. cbn.
    split_and!; [done|done|rewrite sum_by_app; lia|done|done].
Qed.
End Prune.

(** *** Sums over what is selected *)

Definition selected {A} (p : nat -> bool) (i : nat) (l : list A) : list A :=
  map snd (List.filter (fun x => p x.1) (combine (seq i (length l)) l)).

Lemma selected_cons {A} (p : nat -> bool) i (x : A) l :
  selected p i (x :: l) = (if p i then [x] else []) ++ selected p (S i) l.
Proof. unfold selected. cbn. by destruct (p i). Qed.

Lemma selected_elem {A} (p : nat -> bool) i (l : list A) j x : l !! j = Some x -> p (i + j)%nat = true -> x ∈ selected p i l.
Proof.
  revert i j. induction l as [|y l IH]; intros i j; [done|]. rewrite selected_cons. destruct j as [|j].
  - intros [= <-]. rewrite Nat.add_0_r. intros ->. by left.
  - intros Hj Hp. apply elem_of_app. right. apply (IH (S i) j Hj). by rewrite Nat.add_succ_l, <- Nat.add_succ_r.
Qed.

Lemma all_estimates_app estimate l1 l2 n1 n2 : all_estimates estimate l1 = inr n1 -> all_estimates estimate l2 = inr n2 ->
  all_estimates estimate (l1 ++ l2) = inr (n1 ++ n2).
Proof.
  revert n1. induction l1 as [|m l1 IH]; intros n1; cbn; [by intros [= <-]|]. intros H H2. open_result H. injection H as <-.
  rewrite Ha. cbn. by rewrite (IH _ Ha0 H2).
Qed.

Lemma all_estimates_selected estimate p i l ns : all_estimates estimate l = inr ns ->
  all_estimates estimate (selected p i l) = inr (selected p i ns) /\ length ns = length l.
Proof.
  revert i ns. induction l as [|m l IH]; intros i ns H; [injection H as <-; done|]. cbn in H. open_result H. injection H as <-.
  rewrite !selected_cons. destruct (IH (S i) _ Ha0) as [H1 H2]. split; [|cbn; by rewrite H2]. destruct (p i); [|done].
  cbn. by rewrite Ha; cbn; rewrite H1.
Qed.

Lemma sum_selected p i (ns : list Z) : sum_by (fun n => n) (selected p i ns) =
  sum_by (fun j => if p j then default 0 (ns !! (j - i)%nat) else 0) (seq i (length ns)).
Proof.
  revert i. induction ns as [|n ns IH]; intros i; [done|]. rewrite selected_cons. cbn [length seq].
  rewrite sum_by_app, sum_by_cons, IH, Nat.sub_diag. cbn [lookup list_lookup default].
  assert (sum_by (fun j => if p j then default 0 (ns !! (j - S i)%nat) else 0) (seq (S i) (length ns)) =
          sum_by (fun j => if p j then default 0 ((n :: ns) !! (j - i)%nat) else 0) (seq (S i) (length ns))) as ->.
  { apply sum_by_ext. intros j Hj%elem_of_seq. replace (j - i)%nat with (S (j - S i)) by lia. done. }
  destruct (p i); [|done]. rewrite sum_by_cons, sum_by_nil. cbn. lia.
Qed.

(** What is not removed sums to the rest. *)
Lemma sum_kept (ns : list Z) removed rest : seq 0 (length ns) ≡ₚ removed ++ rest ->
  sum_by (fun n => n) (selected (fun i => negb (includes removed i)) 0 ns) =
  sum_by (fun n => n) ns - sum_by (estimate_at ns) removed.
Proof.
  intros Hp. assert (sum_by (fun n => n) ns = sum_by (estimate_at ns) (seq 0 (length ns))) as ->.
  { pose proof (sum_selected (fun _ => true) 0 ns) as Hs.
    assert (forall i, selected (fun _ => true) i ns = ns) as Ht.
    { induction ns as [|n l IH]; intros i; [done|]. rewrite selected_cons. cbn [app]. f_equal. clear -IH.
      unfold selected in *. clear IH. revert i. induction l as [|x l IH]; intros i; [done|]. cbn. f_equal. apply IH. }
    rewrite Ht in Hs. rewrite Hs. apply sum_by_ext. intros j _. by rewrite Nat.sub_0_r. }
  rewrite sum_selected. rewrite !(sum_by_perm _ _ _ Hp), !sum_by_app.
  assert (NoDup (removed ++ rest)) as (_ & Hdis & _)%NoDup_app by (rewrite <- Hp; apply NoDup_seq).
  assert (sum_by (fun j => if negb (includes removed j) then default 0 (ns !! (j - 0)%nat) else 0) removed = 0) as ->.
  { transitivity (sum_by (fun _ : nat => 0) removed).
    - apply sum_by_ext. intros j Hj. unfold includes. by rewrite bool_decide_true.
    - clear. induction removed as [|x l IH]; [done|]. rewrite sum_by_cons. lia. }
  assert (sum_by (fun j => if negb (includes removed j) then default 0 (ns !! (j - 0)%nat) else 0) rest = sum_by (estimate_at ns) rest) as ->.
  { apply sum_by_ext. intros j Hj. unfold includes. rewrite bool_decide_false; [by rewrite Nat.sub_0_r|].
    intros Hin. by apply (Hdis j). }
  lia.
Qed.

(** *** Theorem *)

Lemma concat_elem {A} (x : A) (ll : list (list A)) : x ∈ List.concat ll <-> exists l, x ∈ l /\ l ∈ ll.
Proof.
  rewrite list_elem_of_In, in_concat. split; intros (l & H1 & H2); exists l; rewrite !list_elem_of_In in *; done.
Qed.

Lemma concat_unique {A} (ll : list (list A)) l l' x : NoDup (List.concat ll) -> l ∈ ll -> l' ∈ ll -> x ∈ l -> x ∈ l' -> l = l'.
Proof.
  induction ll as [|y ll IH]; intros Hn Hl Hl' Hx Hx'; [by apply elem_of_nil in Hl|]. cbn in Hn. apply NoDup_app in Hn as (_ & Hd & Hn).
  apply elem_of_cons in Hl as [->|Hl], Hl' as [->|Hl']; [done| | |by apply IH]; exfalso; eapply Hd; [eassumption| |eassumption|];
    apply concat_elem; eauto.
Qed.

Lemma concat_filter {A} (q : list A -> bool) ll : List.concat ll ≡ₚ
  List.concat (List.filter q ll) ++ List.concat (List.filter (fun l => negb (q l)) ll).
Proof.
  induction ll as [|l ll IH]; [done|]. cbn. destruct (q l); cbn.
  - by rewrite IH, app_assoc.
  - rewrite IH, !app_assoc. f_equiv. apply Permutation_app_comm.
Qed.

Record compiled (input : list ContextMessage) (o : CompileOptions) (r : CompiledContext) (max : Z) (removed : list nat) : Prop := {
  co_kept : let kept := select (fun i => negb (includes removed i)) input in
    summary r = None /\ messages r = kept \/
    exists s n, summary r = Some s /\ messages r = take n kept ++ summary_message s :: drop n kept /\
      finalTokens (diagnostics r) <= max;
  co_pruned : prunedMessageIds (diagnostics r) = map cm_id (select (includes removed) input);
  co_protected : forall i, protected_index input o i = true -> i ∉ removed;
  co_exchange : forall j m, input !! j = Some m -> calls_of m <> [] ->
    (forall k c, calls_of m !! k = Some c -> exists x, input !! (j + S k)%nat = Some x /\ answers (tc_id c) x = true) /\
    (forall k, (k <= length (calls_of m))%nat -> (j + k)%nat ∈ removed <-> j ∈ removed);
  co_needed : removed <> [] -> max < initialTokens (diagnostics r);
  co_over : overBudget (diagnostics r) = true <-> max < finalTokens (diagnostics r);
  co_enough : max < finalTokens (diagnostics r) -> forall i, (i < length input)%nat -> i ∉ removed ->
    exists us u, buildUnits input = inr us /\ u ∈ us /\ i ∈ u /\ protected_unit input o u = true
}.

Section Cut.
Context (input : list ContextMessage) (o : CompileOptions) (us us1 us2 : list (list nat)).
Hypothesis (Hus : buildUnits input = inr us) (Hsplit : us = us1 ++ us2).

Definition cut_of : list nat := List.concat (List.filter (fun u => negb (protected_unit input o u)) us1).

Lemma units_once : NoDup (List.concat us) /\ List.concat us = seq 0 (length input).
Proof. apply build_units_spec in Hus as [H _]; [|done]. rewrite H. split; [apply NoDup_seq|done]. Qed.

Lemma cut_elem i : i ∈ cut_of <-> exists u, i ∈ u /\ u ∈ us1 /\ protected_unit input o u = false.
Proof.
  unfold cut_of. rewrite concat_elem. split; intros (u & H1 & H2); exists u; (split; [done|]).
  - apply list_elem_of_In, filter_In in H2 as [H2 H3]. rewrite list_elem_of_In. split; [done|by apply negb_true_iff].
  - apply list_elem_of_In, filter_In. rewrite <- list_elem_of_In. by rewrite negb_true_iff.
Qed.

Lemma cut_perm : exists rest, seq 0 (length input) ≡ₚ cut_of ++ rest.
Proof.
  eexists. rewrite <- (proj2 units_once), Hsplit, concat_app, (concat_filter (fun u => negb (protected_unit input o u)) us1), <- app_assoc.
  reflexivity.
Qed.

Lemma cut_protected i : protected_index input o i = true -> i ∉ cut_of.
Proof.
  intros Hi (u & H1 & H2 & H3)%cut_elem. unfold protected_unit in H3.
  assert (existsb (protected_index input o) u = true) as Ht; [|congruence]. apply existsb_exists. exists i. split; [by apply list_elem_of_In|done].
Qed.

Lemma cut_exchange j m : input !! j = Some m -> calls_of m <> [] ->
  (forall k c, calls_of m !! k = Some c -> exists x, input !! (j + S k)%nat = Some x /\ answers (tc_id c) x = true) /\
  (forall k, (k <= length (calls_of m))%nat -> (j + k)%nat ∈ cut_of <-> j ∈ cut_of).
Proof.
  intros Hj Hne. pose proof (build_units_spec _ _ _ _ (le_n _) Hus) as [_ Hex]. destruct (Hex j m Hj Hne) as [Hu Hans].
  split; [exact Hans|]. cbn [Nat.add] in Hu.
  assert (forall a b, a ∈ seq j (S (length (calls_of m))) -> b ∈ seq j (S (length (calls_of m))) -> a ∈ cut_of -> b ∈ cut_of) as Hall.
  { intros a b Ha Hb (u & H1 & H2 & H3)%cut_elem. apply cut_elem. exists u. split; [|done].
    assert (seq j (S (length (calls_of m))) = u) as <-; [|done].
    apply (concat_unique us _ _ a); [apply units_once|done|rewrite Hsplit; apply elem_of_app; by left|done..]. }
  intros k Hk. split; apply Hall; apply elem_of_seq; lia.
Qed.

Lemma cut_complete i : us2 = [] -> (i < length input)%nat -> i ∉ cut_of -> exists u, u ∈ us /\ i ∈ u /\ protected_unit input o u = true.
Proof.
  intros -> Hi Hn. assert (i ∈ List.concat us) as (u & H1 & H2)%concat_elem by (rewrite (proj2 units_once); apply elem_of_seq; lia).
  exists u. split_and!; [done..|]. apply not_false_iff_true. intros Hf. apply Hn, cut_elem. exists u. rewrite Hsplit, app_nil_r in H2. done.
Qed.
End Cut.

(** The estimate of a message, where it has one. *)
Definition weight (estimate : ContextMessage -> option number) (m : ContextMessage) : Z :=
  match validatedEstimate estimate m with inr n => n | inl _ => 0 end.

Lemma all_estimates_weight estimate l ns : all_estimates estimate l = inr ns -> sum_by (fun n => n) ns = sum_by (weight estimate) l.
Proof.
  revert ns. induction l as [|m l IH]; intros ns; [intros [= <-]; reflexivity|]. cbn [all_estimates]. intros H. open_result H. injection H as <-.
  rewrite !sum_by_cons, (IH _ Ha0). unfold weight. by rewrite Ha.
Qed.

Lemma finish_compiled estimate input o max us us1 us2 ns tokens s r :
  buildUnits input = inr us -> us = us1 ++ us2 -> all_estimates estimate input = inr ns ->
  tokens = sum_by (fun n => n) ns - sum_by (estimate_at ns) (cut_of input o us1) ->
  us2 = [] \/ tokens <= max -> (cut_of input o us1 <> [] -> max < sum_by (fun n => n) ns) ->
  finish estimate input o max us (cut_of input o us1) (sum_by (fun n => n) ns) tokens s = inr r ->
  compiled input o r max (cut_of input o us1).
Proof.
  intros Hus Hsplit Hns Htok Hstop Hneed H. set (removed := cut_of input o us1) in *. unfold finish in H.
  set (kept := select (fun i => negb (includes removed i)) input) in H.
  destruct (all_estimates_selected estimate (fun i => negb (includes removed i)) 0 input ns Hns) as [Hk Hlen].
  change (selected _ 0 input) with kept in Hk.
  assert (sum_by (weight estimate) kept = tokens) as Hsum.
  { rewrite <- (all_estimates_weight _ _ _ Hk), Htok. destruct (cut_perm input o us us1 us2 Hus Hsplit) as [rest Hp].
    rewrite <- Hlen in Hp. by apply (sum_kept ns removed rest). }
  apply rbind_inr in H as (fitted & Hfit & H). apply rbind_inr in H as (finals & Hfin & H). injection H as <-.
  apply all_estimates_weight in Hfin.
  assert (fitted = None /\ sum_by (fun n => n) finals = tokens \/ exists s', fitted = Some s' /\ sum_by (fun n => n) finals <= max) as Hcase.
  { destruct s as [s|]; [|injection Hfit as <-; left; by rewrite Hfin, Hsum]. apply rbind_inr in Hfit as (n & Hn & Hfit).
    destruct (Z.leb_spec (tokens + n) max); injection Hfit as <-; [right|left; by rewrite Hfin, Hsum].
    exists s. split; [done|]. rewrite Hfin, sum_by_app, sum_by_cons. unfold weight at 2. rewrite Hn.
    rewrite <- (take_drop (Nat.min (head_count o) (length kept)) kept), sum_by_app in Hsum. lia. }
  split; cbn.
  - destruct Hcase as [[-> _]|(s' & -> & Hle)]; [by left|right]. exists s', (Nat.min (head_count o) (length kept)). done.
  - done.
  - intros i. by apply (cut_protected input o us1).
  - intros j m. by apply (cut_exchange input o us us1 us2).
  - done.
  - apply Z.ltb_lt.
  - intros Hover i Hi Hn. destruct Hcase as [[_ Heq]|(s' & _ & Hle)]; [|lia].
    destruct Hstop as [Hnil|?]; [|lia]. destruct (cut_complete input o us us1 us2 Hus Hsplit i Hnil Hi Hn) as (u & Hu).
    by exists us, u.
Qed.

(** What `compileContext` keeps are the messages of its input in order, with the
    summary between them if there is one; nothing protected is removed (the head, the tail,
    messages about money, evidence whose reference is not safe); a message that calls tools
    is kept or removed together with the results of its calls; something is removed only
    if the input was over the budget; the result is reported over the budget exactly when
    it is, and then every message that is left belongs to a protected unit; a summary never
    takes it over the budget. *)
Theorem context_compiled estimate input o tr r : traces (compileContext estimate input o) tr (Ret r) ->
  exists max removed, whole (maxTokens o) = Some max /\ compiled input o r max removed.
Proof.
  intros Ht. enough (ensures (E := xeff) (fun _ _ _ => True) (fun _ _ _ => True) record_event (compileContext estimate input o)
    (fun out _ => match out with inr r => exists max removed, whole (maxTokens o) = Some max /\ compiled input o r max removed | _ => True end) [])
    as He by exact (history_result _ _ _ _ _ He Ht).
  unfold compileContext. destruct (whole (maxTokens o)) as [max|] eqn:Hmax; [|done]. destruct (_ || _); [done|].
  apply ensures_bind. destruct (buildUnits input) as [e|us] eqn:Hus; [done|]. cbn [raise ensures].
  apply ensures_bind. destruct (all_estimates estimate input) as [e|ns] eqn:Hns; [done|]. cbn [raise ensures]. cbv zeta.
  destruct (prune input o max ns us _) as [removed tokens] eqn:Hp. apply prune_spec in Hp as (us1 & us2 & Hsplit & -> & Htok & Hstop & Hneed).
  cbn [fst snd]. change (List.concat _) with (cut_of input o us1) in *.
  assert (forall s h, ensures (E := xeff) (fun _ _ _ => True) (fun _ _ _ => True) record_event
    (raise (finish estimate input o max us (cut_of input o us1) (sum_by (fun n => n) ns) tokens s))
    (fun out _ => match out with inr r => exists max' removed, Some max = Some max' /\ compiled input o r max' removed | _ => True end) h) as Hfin.
  { intros s h. destruct (finish _ _ _ _ _ _ _ _ s) as [e|r'] eqn:Hf; [done|]. exists max, (cut_of input o us1). split; [done|].
    by eapply finish_compiled. }
  apply ensures_bind. destruct (summarizes o && _); [|apply Hfin]. unfold ask_summary. cbn [bind trigger ensures].
  split; [done|]. intros raw _. apply Hfin.
Qed.


(** *** A context that is cut *)

Definition demo_message (id : string) (r : ContextRole) (calls : option (list ContextToolCall)) (result : option string) : ContextMessage :=
  {| cm_id := id; role := r; content := "text"; name := None; toolCallId := result; toolCalls := calls; kind := None; evidenceRef := None |}.

(** A question whose answer calls a tool, between a head and a tail. *)
Definition demo_input : list ContextMessage :=
  [demo_message "1" system None None; demo_message "2" user None None;
   demo_message "3" assistant (Some [{| tc_id := "c"; tc_name := "quote"; tc_arguments := V_null |}]) None;
   demo_message "4" tool None (Some "c"); demo_message "5" user None None; demo_message "6" assistant None None].

Definition demo_options : CompileOptions :=
  {| maxTokens := js_num 30; headMessages := Some 1; tailMessages := Some 2; summarizes := false |}.

Definition demo_compile : prog xeff string CompiledContext := compileContext (fun _ => Some (js_num 10)) demo_input demo_options.

Definition demo_summaries R (e : xeff R) (w : unit) : R * unit :=
  (match e in xeff R return R with Summarize _ _ => None end, w).

Lemma context_compiled_witness : exists r max removed, (Prog.run demo_summaries demo_compile tt).1 = inr r /\
  map cm_id (messages r) = ["1"; "5"; "6"] /\ compiled demo_input demo_options r max removed.
Proof.
  destruct (Prog.run demo_summaries demo_compile tt).1 as [e|r] eqn:Hr; [vm_compute in Hr; discriminate|].
  destruct (context_compiled (fun _ => Some (js_num 10)) demo_input demo_options (run_trace demo_summaries demo_compile tt) r
    ltac:(change (Ret r) with (finished (E := xeff) (X := string) (inr r)); rewrite <- Hr; apply run_traces)) as (max & removed & _ & Hc).
  exists r, max, removed. split; [reflexivity|]. split; [|exact Hc]. vm_compute in Hr. injection Hr as <-. reflexivity.
Defined.
