(* ===== verification/Sessions.v ===== *)
(** `src/storage/session-store.ts`: sessions, their branches, messages, runs, tool
    calls and financial evidence.

    The store is its tables; a statement with ON CONFLICT DO NOTHING leaves the
    table as it is when a unique column is taken, and throws when a CHECK or a
    foreign key fails.  A JSON column holds the parsed value.  The full-text index
    is a parameter of [search]; migrations are left out. *)
From S2P Require Import Prelude Table Canonical.
From stdpp Require Import sorting.
#[local] Open Scope string_scope.
#[local] Open Scope list_scope.
#[local] Open Scope Z_scope.
#[local] Open Scope result_scope.

(** *** Data *)

Inductive MessageRole : Type := R_user | R_assistant | R_system | R_tool.
Inductive RunStatus : Type := S_running | S_completed | S_failed | S_cancelled.

#[export] Instance MessageRole_eq_dec : EqDecision MessageRole.
Proof. solve_decision. Defined.
#[export] Instance RunStatus_eq_dec : EqDecision RunStatus.
Proof. solve_decision. Defined.

Record Session : Type := {
  ss_id : string; ss_title : option string; ss_parentSessionId : option string;
  ss_parentMessageId : option string; ss_createdAt : Z
}.

Record Message : Type := {
  mg_id : string; mg_sessionId : string; mg_role : MessageRole; mg_content : string; mg_createdAt : Z;
  mg_sequence : Z
}.

Record Run : Type := {
  rn_id : string; rn_sessionId : string; rn_status : RunStatus; rn_startedAt : Z; rn_finishedAt : option Z
}.

Record ToolCall : Type := {
  tc_id : string; tc_sessionId : string; tc_messageId : string; tc_toolName : string; tc_arguments : value;
  tc_createdAt : Z
}.

Record ToolResult : Type := {
  tr_id : string; tr_toolCallId : string; tr_output : value; tr_createdAt : Z; tr_evidenceRef : option string
}.

Record FinancialEvidence : Type := { fe_id : string; fe_payload : value; fe_sha256 : string; fe_createdAt : Z }.

(** [last_sequence] is the row of `sqlite_sequence` that numbers the messages. *)
Record SessionStore : Type := {
  sessions : list Session; messages : list Message; last_sequence : Z; runs : list Run; tool_calls : list ToolCall;
  financial_evidence : list FinancialEvidence; tool_results : list ToolResult
}.

Definition empty_sessions : SessionStore :=
  {| sessions := []; messages := []; last_sequence := 0; runs := []; tool_calls := []; financial_evidence := []; tool_results := [] |}.

Definition set_sessions (t : list Session) (s : SessionStore) : SessionStore :=
  {| sessions := t; messages := messages s; last_sequence := last_sequence s; runs := runs s; tool_calls := tool_calls s;
     financial_evidence := financial_evidence s; tool_results := tool_results s |}.
(** The messages after an INSERT, which used a number up. *)
Definition set_messages (t : list Message) (s : SessionStore) : SessionStore :=
  {| sessions := sessions s; messages := t; last_sequence := last_sequence s + 1; runs := runs s;
     tool_calls := tool_calls s; financial_evidence := financial_evidence s; tool_results := tool_results s |}.
Definition set_runs (t : list Run) (s : SessionStore) : SessionStore :=
  {| sessions := sessions s; messages := messages s; last_sequence := last_sequence s; runs := t; tool_calls := tool_calls s;
     financial_evidence := financial_evidence s; tool_results := tool_results s |}.
Definition set_calls (t : list ToolCall) (s : SessionStore) : SessionStore :=
  {| sessions := sessions s; messages := messages s; last_sequence := last_sequence s; runs := runs s; tool_calls := t;
     financial_evidence := financial_evidence s; tool_results := tool_results s |}.
Definition set_evidence (t : list FinancialEvidence) (s : SessionStore) : SessionStore :=
  {| sessions := sessions s; messages := messages s; last_sequence := last_sequence s; runs := runs s; tool_calls := tool_calls s;
     financial_evidence := t; tool_results := tool_results s |}.
Definition set_results (t : list ToolResult) (s : SessionStore) : SessionStore :=
  {| sessions := sessions s; messages := messages s; last_sequence := last_sequence s; runs := runs s; tool_calls := tool_calls s;
     financial_evidence := financial_evidence s; tool_results := t |}.

Definition answer (A : Type) : Type := (result A * SessionStore)%type.

(** *** Sessions and messages *)

Definition getSession (id : string) (s : SessionStore) : option Session := get ss_id id (sessions s).

(** The foreign key (session_id, id) of messages. *)
Definition message_of (session id : string) (s : SessionStore) : bool :=
  existsb (fun m => streq (mg_sessionId m) session && streq (mg_id m) id) (messages s).

(** The INSERT of `createSession`. *)
Definition insert_session (x : Session) (s : SessionStore) : answer unit :=
  match ss_parentSessionId x, ss_parentMessageId x with
  | Some _, None | None, Some _ => (inl "CHECK constraint failed", s)
  | parent, message =>
      if has ss_id (ss_id x) (sessions s) then (inr tt, s)
      else
        match parent, message with
        | Some p, Some m =>
            if message_of p m s then (inr tt, set_sessions (sessions s ++ [x]) s)
            else (inl "FOREIGN KEY constraint failed", s)
        | _, _ => (inr tt, set_sessions (sessions s ++ [x]) s)
        end
  end.

Record SessionInput : Type := {
  si_id : string; si_title : option string; si_parentSessionId : option string;
  si_parentMessageId : option string; si_createdAt : option Z
}.

Definition session_row (i : SessionInput) (now : Z) : Session :=
  {| ss_id := si_id i; ss_title := si_title i; ss_parentSessionId := si_parentSessionId i;
     ss_parentMessageId := si_parentMessageId i; ss_createdAt := default now (si_createdAt i) |}.

#[export] Instance Session_eq_dec : EqDecision Session.
Proof. solve_decision. Defined.

(** `createSession`, and `branchSession` *)
Definition createSession (i : SessionInput) (now : Z) (s : SessionStore) : answer Session :=
  let x := session_row i now in
  match insert_session x s with
  | (inl e, s') => (inl e, s')
  | (inr _, s') =>
      match getSession (ss_id x) s' with
      | Some y => if bool_decide (y = x) then (inr y, s') else (inl "Session id conflict", s')
      | None => (inl "Session id conflict", s')
      end
  end.

(** AUTOINCREMENT *)
Definition next_sequence (s : SessionStore) : Z := last_sequence s + 1.

Record MessageInput : Type := {
  mi_id : string; mi_sessionId : string; mi_role : MessageRole; mi_content : string; mi_createdAt : Z
}.

Definition message_row (i : MessageInput) (n : Z) : Message :=
  {| mg_id := mi_id i; mg_sessionId := mi_sessionId i; mg_role := mi_role i; mg_content := mi_content i;
     mg_createdAt := mi_createdAt i; mg_sequence := n |}.

Definition same_message (m : Message) (i : MessageInput) : bool :=
  streq (mg_sessionId m) (mi_sessionId i) && bool_decide (mg_role m = mi_role i) &&
  streq (mg_content m) (mi_content i) && (mg_createdAt m =? mi_createdAt i).

(** `appendMessage`; an INSERT that does nothing, on a conflict, leaves a gap in the
    numbers. *)
Definition appendMessage (i : MessageInput) (s : SessionStore) : answer Message :=
  let inserted :=
    if has mg_id (mi_id i) (messages s) then (inr tt, set_messages (messages s) s)
    else if has ss_id (mi_sessionId i) (sessions s)
         then (inr tt, set_messages (messages s ++ [message_row i (next_sequence s)]) s)
         else (inl "FOREIGN KEY constraint failed", s) in
  match inserted : answer unit with
  | (inl e, s') => (inl e, s')
  | (inr _, s') =>
      match get mg_id (mi_id i) (messages s') with
      | Some m => if same_message m i then (inr m, s') else (inl "Message id conflict", s')
      | None => (inl "Message id conflict", s')
      end
  end.

(** `getMessages(id)`: ORDER BY sequence is the order of insertion. *)
Definition own_messages (id : string) (s : SessionStore) : list Message :=
  select (fun m => streq (mg_sessionId m) id) (messages s).

(** The loop over the parents, the oldest first. *)
Fixpoint lineage (fuel : nat) (seen : list string) (line : list Session) (x : Session) (s : SessionStore) :
    result (list Session) :=
  match fuel with
  | O => inl "out of fuel"
  | S fuel' =>
      check includes seen (ss_id x) else "Session lineage cycle";
      match truthy (ss_parentSessionId x) ≫= fun p => getSession p s with
      | Some y => lineage fuel' (ss_id x :: seen) (x :: line) y s
      | None => inr (x :: line)
      end
  end.

(** `rows.slice(0, p + 1)` for the index of the branch point. *)
Fixpoint upto (cut : string) (rows : list Message) : option (list Message) :=
  match rows with
  | [] => None
  | m :: rows' => if streq (mg_id m) cut then Some [m] else (fun l => m :: l) <$> upto cut rows'
  end.

Fixpoint collect (line : list Session) (s : SessionStore) : result (list Message) :=
  match line with
  | [] => inr []
  | x :: rest =>
      let rows := own_messages (ss_id x) s in
      match head rest ≫= fun y => truthy (ss_parentMessageId y) with
      | Some cut =>
          match upto cut rows with
          | None => inl "Missing branch point"
          | Some l => let? out := collect rest s in inr (l ++ out)
          end
      | None => let? out := collect rest s in inr (rows ++ out)
      end
  end.

(** `getMessages` *)
Definition getMessages (id : string) (includeAncestors : bool) (s : SessionStore) : result (list Message) :=
  if negb includeAncestors then inr (own_messages id s)
  else
    match getSession id s with
    | None => inr []
    | Some x => let? line := lineage (S (length (sessions s))) [] [] x s in collect line s
    end.

(** *** Runs *)

Record RunInput : Type := { ri_id : string; ri_sessionId : string; ri_status : RunStatus; ri_startedAt : Z }.

Definition getRun (id : string) (s : SessionStore) : option Run := get rn_id id (runs s).

(** `createRun`: the row has no end, which the CHECK allows a running run only. *)
Definition createRun (i : RunInput) (s : SessionStore) : answer Run :=
  let inserted :=
    if negb (bool_decide (ri_status i = S_running)) then (inl "CHECK constraint failed", s)
    else if has rn_id (ri_id i) (runs s) then (inr tt, s)
    else if has ss_id (ri_sessionId i) (sessions s)
         then (inr tt, set_runs (runs s ++ [{| rn_id := ri_id i; rn_sessionId := ri_sessionId i;
                 rn_status := ri_status i; rn_startedAt := ri_startedAt i; rn_finishedAt := None |}]) s)
         else (inl "FOREIGN KEY constraint failed", s) in
  match inserted : answer unit with
  | (inl e, s') => (inl e, s')
  | (inr _, s') =>
      match getRun (ri_id i) s' with
      | Some r => if streq (rn_sessionId r) (ri_sessionId i) && bool_decide (rn_status r = ri_status i) &&
                     (rn_startedAt r =? ri_startedAt i)
                  then (inr r, s') else (inl "Run id conflict", s')
      | None => (inl "Run id conflict", s')
      end
  end.

Definition finished_run (st : RunStatus) (at_ : Z) (r : Run) : Run :=
  {| rn_id := rn_id r; rn_sessionId := rn_sessionId r; rn_status := st; rn_startedAt := rn_startedAt r;
     rn_finishedAt := Some at_ |}.

(** `finishRun`; the type excludes `running`. *)
Definition finishRun (id : string) (st : RunStatus) (at_ : Z) (s : SessionStore) : answer Run :=
  match getRun id s with
  | None => (inl "Unknown run", s)
  | Some old =>
      match rn_finishedAt old with
      | Some f =>
          if negb (bool_decide (rn_status old = st)) || negb (f =? at_) then (inl "Run completion conflict", s)
          else (inr old, s)
      | None =>
          let open r := streq (rn_id r) id && match rn_finishedAt r with None => true | Some _ => false end in
          let s' := set_runs (update_where open (finished_run st at_) (runs s)) s in
          match getRun id s' with Some r => (inr r, s') | None => (inl "TypeError", s') end
      end
  end.

Definition started_le (a b : Run) : Prop := rn_startedAt a <= rn_startedAt b.

#[export] Instance started_le_dec : RelDecision started_le.
Proof. intros a b. unfold started_le. apply _. Defined.

(** `listUnfinishedRuns` *)
Definition listUnfinishedRuns (s : SessionStore) : list Run :=
  merge_sort started_le (select (fun r => match rn_finishedAt r with None => true | Some _ => false end) (runs s)).

(** `getRecoveryState` *)
Definition getRecoveryState (id : string) (s : SessionStore) : result (Run * option Session * list Message) :=
  match getRun id s with
  | None => inl "Unknown run"
  | Some r => let? ms := getMessages (rn_sessionId r) true s in inr (r, getSession (rn_sessionId r) s, ms)
  end.

(** *** Evidence, tool calls and results *)

Section Records.
Context (sha256 : string -> string).

(** `canonical(v)`; the column then holds what that text parses to. *)
Definition json (v : value) : result (string * value) :=
  match canonicalSerialize v with Some t => inr (t, sorted v) | None => inl "Invalid JSON value" end.

(** `recordFinancialEvidence`: the hash is unique, too. *)
Definition recordFinancialEvidence (id : string) (payload : value) (createdAt : Z) (s : SessionStore) :
    answer FinancialEvidence :=
  match json payload with
  | inl e => (inl e, s)
  | inr (p, v) =>
      let x := {| fe_id := id; fe_payload := v; fe_sha256 := sha256 p; fe_createdAt := createdAt |} in
      let s' := if has fe_id id (financial_evidence s) || has fe_sha256 (sha256 p) (financial_evidence s) then s
                else set_evidence (financial_evidence s ++ [x]) s in
      match get fe_id id (financial_evidence s') with
      | Some r =>
          if negb (streq (print (fe_payload r)) p) || negb (fe_createdAt r =? createdAt)
          then (inl "Evidence id conflict", s') else (inr x, s')
      | None => (inl "Evidence id conflict", s')
      end
  end.

Definition getToolExchange (id : string) (s : SessionStore) : option (ToolCall * option ToolResult) :=
  (fun c => (c, get tr_toolCallId id (tool_results s))) <$> get tc_id id (tool_calls s).

(** `recordToolCall` *)
Definition recordToolCall (i : ToolCall) (s : SessionStore) : answer ToolCall :=
  match json (tc_arguments i) with
  | inl e => (inl e, s)
  | inr (a, v) =>
      let row := {| tc_id := tc_id i; tc_sessionId := tc_sessionId i; tc_messageId := tc_messageId i;
                    tc_toolName := tc_toolName i; tc_arguments := v; tc_createdAt := tc_createdAt i |} in
      let inserted :=
        if has tc_id (tc_id i) (tool_calls s) then (inr tt, s)
        else if message_of (tc_sessionId i) (tc_messageId i) s then (inr tt, set_calls (tool_calls s ++ [row]) s)
        else (inl "FOREIGN KEY constraint failed", s) in
      match inserted : answer unit with
      | (inl e, s') => (inl e, s')
      | (inr _, s') =>
          match get tc_id (tc_id i) (tool_calls s') with
          | Some c =>
              if streq (tc_sessionId c) (tc_sessionId i) && streq (tc_messageId c) (tc_messageId i) &&
                 streq (tc_toolName c) (tc_toolName i) && bool_decide (canonicalSerialize (tc_arguments c) = Some a) &&
                 (tc_createdAt c =? tc_createdAt i)
              then (inr c, s') else (inl "Tool call id conflict", s')
          | None => (inl "Tool call id conflict", s')
          end
      end
  end.

Definition evidence_exists (ref : option string) (s : SessionStore) : bool :=
  match ref with Some e => has fe_id e (financial_evidence s) | None => true end.

(** `recordToolResult` *)
Definition recordToolResult (i : ToolResult) (s : SessionStore) : answer ToolResult :=
  match json (tr_output i) with
  | inl e => (inl e, s)
  | inr (o, v) =>
      let row := {| tr_id := tr_id i; tr_toolCallId := tr_toolCallId i; tr_output := v;
                    tr_createdAt := tr_createdAt i; tr_evidenceRef := tr_evidenceRef i |} in
      let inserted :=
        if has tr_id (tr_id i) (tool_results s) || has tr_toolCallId (tr_toolCallId i) (tool_results s) then (inr tt, s)
        else if has tc_id (tr_toolCallId i) (tool_calls s) && evidence_exists (tr_evidenceRef i) s
             then (inr tt, set_results (tool_results s ++ [row]) s)
             else (inl "FOREIGN KEY constraint failed", s) in
      match inserted : answer unit with
      | (inl e, s') => (inl e, s')
      | (inr _, s') =>
          match getToolExchange (tr_toolCallId i) s' ≫= snd with
          | Some r =>
              if streq (tr_id r) (tr_id i) && bool_decide (canonicalSerialize (tr_output r) = Some o) &&
                 (tr_createdAt r =? tr_createdAt i) && bool_decide (tr_evidenceRef r = tr_evidenceRef i)
              then (inr r, s') else (inl "Tool result conflict", s')
          | None => (inl "Tool result conflict", s')
          end
      end
  end.

(** *** Transactions and search *)

(** `transaction(fn)`, nested or not: what fails leaves the store as it was.
    [thenable] says whether the result is a promise. *)
Definition transaction {A} (thenable : A -> bool) (fn : SessionStore -> answer A) (s : SessionStore) : answer A :=
  match fn s with
  | (inl e, _) => (inl e, s)
  | (inr v, s') => if thenable v then (inl "Async transactions are not supported", s) else (inr v, s')
  end.

Record SearchHit : Type := { sh_message : Message; sh_context : list Message }.

(** The index of a message by its id, -1 when there is none. *)
Fixpoint index_from (n : Z) (id : string) (l : list Message) : Z :=
  match l with
  | [] => -1
  | m :: l' => if streq (mg_id m) id then n else index_from (n + 1) id l'
  end.

(** `all.slice(a, b)` of non-negative bounds. *)
Definition slice {A} (a b : Z) (l : list A) : list A := drop (Z.to_nat a) (take (Z.to_nat b) l).

Fixpoint hits (before after : Z) (rows : list Message) (s : SessionStore) : result (list SearchHit) :=
  match rows with
  | [] => inr []
  | m :: rows' =>
      let? all := getMessages (mg_sessionId m) true s in
      let i := index_from 0 (mg_id m) all in
      let? rest := hits before after rows' s in
      inr ({| sh_message := m; sh_context := slice (Z.max 0 (i - before)) (i + after + 1) all |} :: rest)
  end.

(** `search`: [found] is what the index or LIKE gives for the query, its order and limit. *)
Definition search (found : SessionStore -> result (list Message)) (contextBefore contextAfter : option Z)
    (s : SessionStore) : result (list SearchHit) :=
  match found s with
  | inl _ => inl "Invalid search query"
  | inr rows => hits (Z.max 0 (default 0 contextBefore)) (Z.max 0 (default 0 contextAfter)) rows s
  end.

(** *** Any sequence of calls *)

Inductive Call : Type :=
  | C_createSession (i : SessionInput) (now : Z)
  | C_appendMessage (i : MessageInput)
  | C_createRun (i : RunInput)
  | C_finishRun (id : string) (st : RunStatus) (at_ : Z)
  | C_evidence (id : string) (payload : value) (createdAt : Z)
  | C_toolCall (i : ToolCall)
  | C_toolResult (i : ToolResult)
  (** a transaction whose body makes these calls, an error ending it *)
  | C_transaction (body : list Call).

Definition quiet {A} (a : answer A) : answer unit :=
  (match a.1 with inl e => inl e | inr _ => inr tt end, a.2).

Fixpoint call (c : Call) (s : SessionStore) : answer unit :=
  match c with
  | C_createSession i now => quiet (createSession i now s)
  | C_appendMessage i => quiet (appendMessage i s)
  | C_createRun i => quiet (createRun i s)
  | C_finishRun id st at_ => quiet (finishRun id st at_ s)
  | C_evidence id p t => quiet (recordFinancialEvidence id p t s)
  | C_toolCall i => quiet (recordToolCall i s)
  | C_toolResult i => quiet (recordToolResult i s)
  | C_transaction body =>
      transaction (fun _ => false) (fun s0 =>
        (fix go (l : list Call) (s : SessionStore) : answer unit :=
           match l with
           | [] => (inr tt, s)
           | c :: l' => match call c s with (inl e, s') => (inl e, s') | (inr _, s') => go l' s' end
           end) body s0) s
  end.

Definition calls (l : list Call) (s : SessionStore) : SessionStore := foldl (fun s c => (call c s).2) s l.
End Records.
