(* ===== verification/SessionHistory.v ===== *)
(** What the session store guarantees: the history of a session, over its
    branches, always reads, is ordered and only grows at its end; evidence is never
    changed. *)
From S2P Require Import Prelude Table Canonical Sessions.
From stdpp Require Import sorting.
#[local] Open Scope string_scope.
#[local] Open Scope list_scope.
#[local] Open Scope Z_scope.

(** *** The invariant *)

Definition before (a b : Message) : Prop := mg_sequence a < mg_sequence b.

(** The branch point of [x], among earlier sessions [l1]: every message of [x] is
    younger. *)
Definition branch_point (l1 : list Session) (x : Session) (s : SessionStore) : Prop :=
  match ss_parentSessionId x, ss_parentMessageId x with
  | Some p, Some c => (exists y, y ∈ l1 /\ ss_id y = p) /\
      exists m, m ∈ messages s /\ mg_sessionId m = p /\ mg_id m = c /\
        forall m', m' ∈ messages s -> mg_sessionId m' = ss_id x -> before m m'
  | None, None => True
  | _, _ => False
  end.

Record inv (s : SessionStore) : Prop := {
  iv_sessions : keyed ss_id (sessions s);
  iv_messages : keyed mg_id (messages s);
  iv_sorted : StronglySorted before (messages s);
  iv_sequence : forall m, m ∈ messages s -> mg_sequence m <= last_sequence s;
  iv_owner : forall m, m ∈ messages s -> has ss_id (mg_sessionId m) (sessions s) = true;
  iv_branch : forall l1 x l2, sessions s = l1 ++ x :: l2 -> branch_point l1 x s
}.

(** Rows are only added: to the sessions, the messages and the evidence. *)
Definition grows (s s' : SessionStore) : Prop :=
  (exists a, sessions s' = sessions s ++ a) /\ (exists b, messages s' = messages s ++ b) /\
  (exists c, financial_evidence s' = financial_evidence s ++ c).

Lemma history_grows_refl s : grows s s.
Proof. split_and!; exists []; by rewrite app_nil_r. Qed.

Lemma history_grows_trans s1 s2 s3 : grows s1 s2 -> grows s2 s3 -> grows s1 s3.
Proof.
  intros ([a1 H1] & [b1 H2] & [c1 H3]) ([a2 H4] & [b2 H5] & [c2 H6]).
  split_and!; [exists (a1 ++ a2); rewrite H4, H1|exists (b1 ++ b2); rewrite H5, H2|exists (c1 ++ c2); rewrite H6, H3];
    by rewrite app_assoc.
Qed.

Definition good (s s' : SessionStore) : Prop := inv s' /\ grows s s'.

Lemma session_good_refl s : inv s -> good s s.
Proof. split; [done|apply history_grows_refl]. Qed.

Lemma good_same s s' : inv s -> sessions s' = sessions s -> messages s' = messages s ->
  last_sequence s <= last_sequence s' ->
  (exists c, financial_evidence s' = financial_evidence s ++ c) -> good s s'.
Proof.
  intros [H1 H2 H3 Hq H4 H5] Es Em El Ef. split.
  - split; rewrite ?Es, ?Em; try done; [intros m Hm; specialize (Hq m Hm); lia|]. unfold branch_point in *. by rewrite Em.
  - split_and!; [exists []|exists []|done]; by rewrite app_nil_r.
Qed.

Lemma next_above m s : inv s -> m ∈ messages s -> mg_sequence m < next_sequence s.
Proof. intros Hi Hm. pose proof (iv_sequence s Hi m Hm). unfold next_sequence. lia. Qed.

Lemma message_of_spec p c s : message_of p c s = true <-> exists m, m ∈ messages s /\ mg_sessionId m = p /\ mg_id m = c.
Proof.
  unfold message_of. rewrite existsb_exists. split.
  - intros (m & Hm & H). bool_hyps. exists m. by rewrite list_elem_of_In.
  - intros (m & Hm & <- & <-). exists m. by rewrite <- list_elem_of_In, !streq_refl.
Qed.

Lemma app_snoc_split {A} (l : list A) x l1 y l2 :
  l ++ [x] = l1 ++ y :: l2 -> (l2 = [] /\ l1 = l /\ y = x) \/ exists l2', l2 = l2' ++ [x] /\ l = l1 ++ y :: l2'.
Proof.
  destruct l2 as [|z l2] using rev_ind.
  - intros [-> [= ->]]%app_inj_tail. by left.
  - clear IHl2. rewrite app_comm_cons, app_assoc. intros [-> <-]%app_inj_tail. right. by exists l2.
Qed.

Lemma good_session x s s' u : inv s -> insert_session x s = (inr u, s') -> good s s'.
Proof.
  intros Hi H. pose proof Hi as [H1 H2 H3 Hq H4 H5]. unfold insert_session in H.
  assert (forall p c, ss_parentSessionId x = p -> ss_parentMessageId x = c -> has ss_id (ss_id x) (sessions s) = false ->
    (match p, c with Some p, Some c => message_of p c s = true | None, None => True | _, _ => False end) ->
    good s (set_sessions (sessions s ++ [x]) s)) as Hadd.
  { intros p c Ep Ec Hn Hfk. assert (Table.insert ss_id x (sessions s) = Some (sessions s ++ [x])) as Hins
      by (unfold Table.insert; by rewrite Hn).
    split; [|split_and!; [by exists [x]|exists []|exists []]; by rewrite app_nil_r].
    split; cbn [set_sessions sessions messages]; try done.
    - by eapply insert_keyed.
    - intros m Hm. specialize (H4 m Hm). apply has_spec in H4 as [y Hy]. apply has_spec. exists y. by rewrite get_app, Hy.
    - intros l1 y l2 [(-> & -> & ->)|(l2' & -> & E)]%app_snoc_split.
      + unfold branch_point. rewrite Ep, Ec. destruct p as [p|], c as [c|]; try done. cbn [set_sessions messages].
        apply message_of_spec in Hfk as (m & Hm & Hs & Hid). split.
        * specialize (H4 m Hm). apply has_spec in H4 as [y Hy]. apply get_Some in Hy as [? ?]. exists y. split; congruence.
        * exists m. split_and!; try done. intros m' Hm' Hx. specialize (H4 m' Hm'). congruence.
      + by apply (H5 l1 y l2'). }
  destruct (ss_parentSessionId x) as [p|] eqn:Ep, (ss_parentMessageId x) as [c|] eqn:Ec; try done;
    destruct (has ss_id (ss_id x) (sessions s)) eqn:Eh; try (injection H as _ <-; by apply session_good_refl).
  - destruct (message_of p c s) eqn:Em; [|done]. injection H as _ <-. by apply (Hadd (Some p) (Some c)).
  - injection H as _ <-. by apply (Hadd None None).
Qed.

Lemma good_message i s : inv s -> has mg_id (mi_id i) (messages s) = false -> has ss_id (mi_sessionId i) (sessions s) = true ->
  good s (set_messages (messages s ++ [message_row i (next_sequence s)]) s).
Proof.
  intros Hi Hn Hs. pose proof Hi as [H1 H2 H3 Hq H4 H5]. set (r := message_row i (next_sequence s)).
  split; [|split_and!; [exists []|by exists [r]|exists []]; by rewrite app_nil_r].
  split; cbn [set_messages sessions messages last_sequence]; [done| | | | |].
  - apply (insert_keyed mg_id r (messages s)); [unfold Table.insert; cbn; by rewrite Hn|done].
  - apply sorted_snoc; [done|]. intros y Hy. unfold before. by apply next_above.
  - intros m [Hm| ->%list_elem_of_singleton]%elem_of_app; [specialize (Hq m Hm); lia|cbn; unfold next_sequence; lia].
  - intros m [Hm| ->%list_elem_of_singleton]%elem_of_app; [by apply H4|done].
  - intros l1 x l2 E. specialize (H5 l1 x l2 E). unfold branch_point in *. cbn [set_messages messages].
    destruct (ss_parentSessionId x) as [p|], (ss_parentMessageId x) as [c|]; try done.
    destruct H5 as [Hy (m & Hm & Hp & Hc & Hb)]. split; [done|]. exists m. split_and!; try done.
    + apply elem_of_app. by left.
    + intros m' [Hm'| ->%list_elem_of_singleton]%elem_of_app Hx; [by apply Hb|]. unfold before. by apply next_above.
Qed.

(** *** Every call keeps it *)

Section Calls.
Context (sha256 : string -> string).

Lemma same_good s s' : inv s -> sessions s' = sessions s -> messages s' = messages s ->
  last_sequence s <= last_sequence s' -> financial_evidence s' = financial_evidence s -> good s s'.
Proof. intros Hi Es Em El Ef. apply good_same; [done..|]. exists []. by rewrite Ef, app_nil_r. Qed.

Lemma createSession_good i now s : inv s -> good s (createSession i now s).2.
Proof.
  intros Hi. unfold createSession. destruct (insert_session (session_row i now) s) as [[e|u] s'] eqn:E; cbn.
  - unfold insert_session in E. repeat case_match; simplify_eq/=; by apply session_good_refl.
  - pose proof (good_session _ _ _ _ Hi E) as Hg. by repeat case_match.
Qed.

Lemma appendMessage_good i s : inv s -> good s (appendMessage i s).2.
Proof.
  intros Hi. unfold appendMessage. destruct (has mg_id (mi_id i) (messages s)) eqn:Eh.
  - assert (good s (set_messages (messages s) s)) as Hg by (apply same_good; [done..|simpl; lia|done]).
    by repeat case_match.
  - destruct (has ss_id (mi_sessionId i) (sessions s)) eqn:Es; [|by apply session_good_refl].
    pose proof (good_message i s Hi Eh Es) as Hg. by repeat case_match.
Qed.

Lemma createRun_good i s : inv s -> good s (createRun i s).2.
Proof. intros Hi. unfold createRun. repeat case_match; simplify_eq/=; first [by apply session_good_refl | by apply same_good; first [done | cbn; lia]]. Qed.

Lemma finishRun_good id st a s : inv s -> good s (finishRun id st a s).2.
Proof. intros Hi. unfold finishRun. repeat case_match; simplify_eq/=; first [by apply session_good_refl | by apply same_good; first [done | cbn; lia]]. Qed.

Lemma evidence_good id p t s : inv s -> good s (recordFinancialEvidence sha256 id p t s).2.
Proof.
  intros Hi. unfold recordFinancialEvidence. destruct (json p) as [e|[x v]]; [by apply session_good_refl|]. cbv zeta.
  destruct (_ || _).
  - repeat case_match; by apply session_good_refl.
  - match goal with |- context [set_evidence ?t s] => assert (good s (set_evidence t s)) as Hg
      by (apply good_same; [done..|cbn; lia|by eexists]) end.
    by repeat case_match.
Qed.

Lemma toolCall_good i s : inv s -> good s (recordToolCall i s).2.
Proof. intros Hi. unfold recordToolCall. repeat case_match; simplify_eq/=; first [by apply session_good_refl | by apply same_good; first [done | cbn; lia]]. Qed.

Lemma toolResult_good i s : inv s -> good s (recordToolResult i s).2.
Proof. intros Hi. unfold recordToolResult. repeat case_match; simplify_eq/=; first [by apply session_good_refl | by apply same_good; first [done | cbn; lia]]. Qed.

Lemma call_good c s : inv s -> good s (call sha256 c s).2.
Proof.
  revert s. revert c. fix IH 1. intros c s Hi.
  destruct c as [i now|i|i|id st a|id p t|i|i|body]; cbn [call quiet snd].
  - by apply createSession_good.
  - by apply appendMessage_good.
  - by apply createRun_good.
  - by apply finishRun_good.
  - by apply evidence_good.
  - by apply toolCall_good.
  - by apply toolResult_good.
  - unfold transaction.
    assert (forall s0, inv s0 -> good s0 ((fix go (l : list Call) (s : SessionStore) : answer unit :=
           match l with
           | [] => (inr tt, s)
           | c :: l' => match call sha256 c s with (inl e, s') => (inl e, s') | (inr _, s') => go l' s' end
           end) body s0).2) as Hbody.
    { induction body as [|c body IHb]; intros s0 H0; [by apply session_good_refl|].
      pose proof (IH c s0 H0) as Hc. destruct (call sha256 c s0) as [[e|u] s1]; [done|]. cbn [snd] in Hc.
      destruct Hc as [Hi1 Hg1]. destruct (IHb s1 Hi1) as [Hi2 Hg2]. split; [done|by eapply history_grows_trans]. }
    specialize (Hbody s Hi). destruct ((fix go (l : list Call) (s : SessionStore) : answer unit := _) body s) as [[e|u] s'];
      [by apply session_good_refl|done].
Qed.

Lemma calls_good l s : inv s -> good s (calls sha256 l s).
Proof.
  unfold calls. revert s. induction l as [|c l IH]; intros s Hi; [by apply session_good_refl|]. cbn.
  destruct (call_good c s Hi) as [H1 H2]. destruct (IH _ H1) as [H3 H4]. split; [done|by eapply history_grows_trans].
Qed.
End Calls.

Lemma inv_empty_sessions : inv empty_sessions.
Proof.
  split; cbn; try apply NoDup_nil_2; [constructor| | |].
  - by intros m ?%elem_of_nil.
  - by intros m ?%elem_of_nil.
  - by intros [|] ? ?.
Qed.

(** *** Histories *)

Lemma own_app id s s' b : messages s' = messages s ++ b ->
  own_messages id s' = own_messages id s ++ select (fun m => streq (mg_sessionId m) id) b.
Proof. intros E. unfold own_messages, select. by rewrite E, List.filter_app. Qed.

Lemma own_elem m id s : m ∈ own_messages id s <-> m ∈ messages s /\ mg_sessionId m = id.
Proof. unfold own_messages. rewrite select_elem. by rewrite streq_spec. Qed.

Lemma upto_found c rows : (exists m, m ∈ rows /\ mg_id m = c) ->
  exists l m r, rows = l ++ m :: r /\ mg_id m = c /\ forall more, upto c (rows ++ more) = Some (l ++ [m]).
Proof.
  intros (m0 & Hm & <-). induction rows as [|x rows IH]; [by apply elem_of_nil in Hm|].
  destruct (streq (mg_id x) (mg_id m0)) eqn:E.
  - exists [], x, rows. bool_hyps. split_and!; [done|done|]. intros more. cbn. by rewrite E, streq_refl.
  - apply elem_of_cons in Hm as [->|Hm]; [by rewrite streq_refl in E|].
    destruct (IH Hm) as (l & m & r & -> & Hid & Hu). exists (x :: l), m, r. split_and!; [done|done|].
    intros more. cbn. rewrite E. change ((l ++ m :: r) ++ more) with ((l ++ m :: r) ++ more). by rewrite Hu.
Qed.

(** The history of [x] before its own messages. *)
Inductive ancestors (s : SessionStore) : Session -> list Message -> Prop :=
  | an_root x : truthy (ss_parentSessionId x) = None -> ancestors s x []
  | an_branch x p c y a l : truthy (ss_parentSessionId x) = Some p -> truthy (ss_parentMessageId x) = Some c ->
      getSession p s = Some y -> ancestors s y a -> upto c (own_messages p s) = Some l -> ancestors s x (a ++ l).

(** No message has the empty id, which the code would not follow. *)
Definition named (s : SessionStore) : Prop := forall m, m ∈ messages s -> mg_id m <> "".

Lemma getSession_split s l1 x l2 : inv s -> sessions s = l1 ++ x :: l2 -> getSession (ss_id x) s = Some x.
Proof. intros Hi E. apply (keyed_get ss_id); [apply Hi|]. rewrite E. apply elem_of_app. right. left. Qed.

Lemma in_ids x l : x ∈ l -> ss_id x ∈ map ss_id l.
Proof. intros H. apply list_elem_of_In, in_map. by apply list_elem_of_In. Qed.

Lemma ids_before k1 y k2 id : id ∈ map ss_id (k1 ++ [y]) -> id ∈ map ss_id (k1 ++ y :: k2).
Proof.
  intros H. change (k1 ++ y :: k2) with (k1 ++ [y] ++ k2). rewrite app_assoc, map_app. apply elem_of_app. by left.
Qed.

Lemma split_fresh s l1 x l2 : inv s -> sessions s = l1 ++ x :: l2 -> ss_id x ∉ map ss_id l1.
Proof.
  intros Hi E Hin. pose proof (iv_sessions s Hi) as Hk. unfold keyed in Hk. rewrite E, map_app in Hk.
  apply NoDup_app in Hk as (_ & Hk & _). apply (Hk _ Hin). left.
Qed.

(** A session and its branch point, as the code looks them up. *)
Lemma branch_spec s l1 x l2 : inv s -> named s -> sessions s = l1 ++ x :: l2 ->
  truthy (ss_parentSessionId x) = None \/
  exists p c y k1 k2 m, truthy (ss_parentSessionId x) = Some p /\ truthy (ss_parentMessageId x) = Some c /\
    getSession p s = Some y /\ l1 = k1 ++ y :: k2 /\ m ∈ own_messages p s /\ mg_id m = c /\
    (forall m', m' ∈ own_messages (ss_id x) s -> before m m').
Proof.
  intros Hi Hn E. pose proof (iv_branch s Hi _ _ _ E) as Hb. unfold branch_point in Hb.
  destruct (ss_parentSessionId x) as [p|], (ss_parentMessageId x) as [c|]; try done; [|by left].
  cbn. destruct (streq p "") eqn:Ep; [by left|right].
  destruct Hb as [(y & Hy & Hp) (m & Hm & Hms & Hc & Hlt)]. apply list_elem_of_split in Hy as (k1 & k2 & ->).
  exists p, c, y, k1, k2, m. split_and!; try done.
  - specialize (Hn m Hm). rewrite Hc in Hn. by rewrite (proj2 (streq_false _ _) Hn).
  - rewrite <- Hp. eapply (getSession_split s k1 y (k2 ++ x :: l2)); [done|]. by rewrite E, <- app_assoc.
  - by apply own_elem.
  - intros m' [Hm' Hx]%own_elem. by apply Hlt.
Qed.

Lemma lineage_reads s : inv s -> named s -> forall n l1 x l2, (length l1 <= n)%nat -> sessions s = l1 ++ x :: l2 ->
  exists a, ancestors s x a /\ forall fuel seen line, (length l1 < fuel)%nat ->
    (forall id, id ∈ seen -> id ∉ map ss_id (l1 ++ [x])) ->
    exists c, lineage fuel seen line x s = inr (c ++ x :: line) /\
      forall line', collect (c ++ x :: line') s = rbind (collect (x :: line') s) (fun out => inr (a ++ out)).
Proof.
  intros Hi Hn. induction n as [|n IH]; intros l1 x l2 Hlen E.
  all: destruct (branch_spec s l1 x l2 Hi Hn E) as [Hroot|(p & c & y & k1 & k2 & m & Hp & Hc & Hy & -> & Hm & Hmc & _)].
  2: { rewrite length_app in Hlen. cbn in Hlen. lia. }
  1, 2: exists []; split; [apply an_root; exact Hroot|]; intros [|fuel] seen line Hf Hs; [lia|]; exists []; cbn [lineage app];
    rewrite (proj2 (includes_false _ _)); [|intros Hin; apply (Hs _ Hin), in_ids, elem_of_app; right; left]; cbn [throw_on rbind]; rewrite Hroot; split; [done|];
    intros line'; by destruct (collect (x :: line') s).
  rewrite length_app in Hlen. cbn in Hlen.
  assert (sessions s = k1 ++ y :: (k2 ++ x :: l2)) as Ey by (by rewrite E, <- app_assoc).
  destruct (IH k1 y _ ltac:(lia) Ey) as (a & Ha & Hrec).
  destruct (upto_found c (own_messages p s) ltac:(by exists m)) as (l & m1 & r & _ & _ & Hu).
  specialize (Hu []). rewrite app_nil_r in Hu.
  exists (a ++ (l ++ [m1])). split; [by eapply an_branch|]. intros [|fuel] seen line Hf Hs; [lia|].
  cbn [lineage]. rewrite (proj2 (includes_false _ _)).
  2: { intros Hin. apply (Hs _ Hin), in_ids, elem_of_app. right. left. }
  cbn [throw_on rbind]. rewrite Hp. cbn [mbind option_bind]. rewrite Hy.
  destruct (Hrec fuel (ss_id x :: seen) (x :: line)) as (c' & Hl & Hcol).
  { rewrite length_app in Hf. cbn in Hf. lia. }
  { intros id [->|Hin]%elem_of_cons Hid.
    - by apply (split_fresh s _ x l2 Hi E), ids_before.
    - apply (Hs _ Hin). rewrite map_app. apply elem_of_app. left. by apply ids_before. }
  exists (c' ++ [y]). rewrite <- app_assoc. split; [done|]. intros line'. rewrite <- app_assoc. cbn [app]. rewrite Hcol.
  cbn [collect head mbind option_bind]. rewrite Hc.
  assert (ss_id y = p) as -> by (by apply get_Some in Hy as [_ ?]). rewrite Hu.
  destruct (collect (x :: line') s) as [e|out] eqn:Eo; cbn [collect] in Eo |- *; rewrite Eo; cbn [rbind]; [done|].
  by rewrite !app_assoc.
Qed.

Lemma history_reads s x : inv s -> named s -> x ∈ sessions s ->
  exists a, ancestors s x a /\ getMessages (ss_id x) true s = inr (a ++ own_messages (ss_id x) s).
Proof.
  intros Hi Hn (l1 & l2 & E)%list_elem_of_split. destruct (lineage_reads s Hi Hn _ l1 x l2 (le_n _) E) as (a & Ha & H).
  exists a. split; [done|]. destruct (H (S (length (sessions s))) [] []) as (c & Hl & Hc).
  { rewrite E, length_app. cbn. lia. }
  { by intros id ?%elem_of_nil. }
  unfold getMessages. cbn [negb]. rewrite (getSession_split s l1 x l2 Hi E), Hl. cbn [rbind]. rewrite Hc. cbn.
  by rewrite app_nil_r.
Qed.

Lemma getSession_grows s s' id x : grows s s' -> getSession id s = Some x -> getSession id s' = Some x.
Proof. intros ([a E] & _) H. unfold getSession in *. by rewrite E, get_app, H. Qed.

Lemma upto_grows c rows more l : upto c rows = Some l -> upto c (rows ++ more) = Some l.
Proof.
  revert l. induction rows as [|m rows IH]; intros l; [done|]. cbn. destruct (streq (mg_id m) c); [done|].
  destruct (upto c rows) as [l0|] eqn:E; [|done]. intros [= <-]. by rewrite (IH l0 eq_refl).
Qed.

Lemma ancestors_grow s s' x a : grows s s' -> ancestors s x a -> ancestors s' x a.
Proof.
  intros Hg H. induction H as [x Hr|x p c y a l Hp Hc Hy Ha IH Hl]; [by constructor|].
  eapply an_branch; [done|done|by eapply getSession_grows|done|]. destruct Hg as (_ & [b E] & _).
  rewrite (own_app p s s' b E). by apply upto_grows.
Qed.

Lemma ancestors_unique s x a b : ancestors s x a -> ancestors s x b -> a = b.
Proof.
  intros H. revert b. induction H as [x Hr|x p c y a l Hp Hc Hy Ha IH Hl]; intros b Hb; inversion Hb as [|? p' c' y' a' l' Hp' Hc' Hy' Ha' Hl']; subst;
    [done|congruence|congruence|].
  simplify_eq. by rewrite (IH a' Ha').
Qed.

Lemma upto_prefix c rows l : upto c rows = Some l -> exists l0 m r, l = l0 ++ [m] /\ mg_id m = c /\ rows = l ++ r.
Proof.
  revert l. induction rows as [|m rows IH]; intros l; [done|]. cbn. destruct (streq (mg_id m) c) eqn:E.
  - intros [= <-]. exists [], m, rows. bool_hyps. done.
  - destruct (upto c rows) as [l1|] eqn:El; [|done]. intros [= <-]. destruct (IH l1 eq_refl) as (l0 & m1 & r & -> & Hm & ->).
    exists (m :: l0), m1, r. done.
Qed.

Lemma own_sorted id s : inv s -> StronglySorted before (own_messages id s).
Proof. intros Hi. apply strongly_sorted_filter, Hi. Qed.

(** The whole history of a session is in the order of the sequence. *)
Lemma history_sorted s x a : inv s -> named s -> x ∈ sessions s -> ancestors s x a ->
  StronglySorted before (a ++ own_messages (ss_id x) s).
Proof.
  intros Hi Hn Hx Ha. induction Ha as [x Hr|x p c y a l Hp Hc Hy Ha IH Hl]; [by apply own_sorted|].
  pose proof (get_Some _ _ _ _ Hy) as [Hyin Hyp]. specialize (IH Hyin). rewrite Hyp in IH.
  pose proof (upto_prefix _ _ _ Hl) as (l0 & m & r & El & Hm & Er). rewrite Er, app_assoc in IH.
  pose proof (StronglySorted_app_1_l _ _ _ IH) as Hal. apply StronglySorted_app_2; [|done|by apply own_sorted].
  apply list_elem_of_split in Hx as (l1 & l2 & E).
  destruct (branch_spec s l1 x l2 Hi Hn E) as [Hroot|(p' & c' & y' & k1 & k2 & m' & Hp' & Hc' & Hy' & _ & Hm' & Hmc & Hlt)];
    [congruence|]. simplify_eq.
  assert (m' = m) as ->.
  { assert (m ∈ own_messages (ss_id y) s) as Hin by (rewrite Er; apply elem_of_app; left; apply elem_of_app; right; left).
    apply own_elem in Hin as [Hin _]. apply own_elem in Hm' as [Hm' _].
    by apply (keyed_same mg_id (messages s)); [apply Hi|..]. }
  intros u v Hu Hv. specialize (Hlt v Hv). rewrite app_assoc in Hal, Hu.
  apply elem_of_app in Hu as [Hu| ->%list_elem_of_singleton]; [|done].
  assert (before u m) as Hum.
  { apply (StronglySorted_app_1_elem_of _ _ _ _ _ Hal); [done|left]. }
  unfold before in *. lia.
Qed.

(** C24: whatever calls are made, in transactions that fail or not, the history of
    a session with all its ancestors can be read (there is no cycle of parents, and
    no branch point is missing); it is in the order in which its messages were
    written; and later calls only add to its end: what a branch took over from its
    parents, and what was said in it, never changes. *)
Theorem history_grows sha256 l1 l2 id
    (Hx : getSession id (calls sha256 l1 empty_sessions) <> None)
    (Hn : named (calls sha256 l2 (calls sha256 l1 empty_sessions))) :
  exists old new, getMessages id true (calls sha256 l1 empty_sessions) = inr old /\
    getMessages id true (calls sha256 l2 (calls sha256 l1 empty_sessions)) = inr (old ++ new) /\
    StronglySorted before (old ++ new).
Proof.
  destruct (calls_good sha256 l1 _ inv_empty_sessions) as [Hi1 _]. set (s1 := calls sha256 l1 empty_sessions) in *.
  destruct (calls_good sha256 l2 s1 Hi1) as [Hi2 Hg]. set (s2 := calls sha256 l2 s1) in *.
  destruct (getSession id s1) as [x|] eqn:E; [|done]. pose proof (get_Some _ _ _ _ E) as [Hin1 <-].
  pose proof (getSession_grows _ _ _ _ Hg E) as E2. pose proof (get_Some _ _ _ _ E2) as [Hin2 _].
  assert (named s1) as Hn1.
  { destruct Hg as (_ & [b Eb] & _). intros m Hm. apply Hn. rewrite Eb. apply elem_of_app. by left. }
  destruct (history_reads s1 x Hi1 Hn1 Hin1) as (a1 & Ha1 & H1).
  destruct (history_reads s2 x Hi2 Hn Hin2) as (a2 & Ha2 & H2).
  assert (a2 = a1) as -> by (eapply ancestors_unique; [done|by eapply ancestors_grow]).
  pose proof (history_sorted s2 x a1 Hi2 Hn Hin2 Ha2) as Hsort.
  destruct Hg as (_ & [b Eb] & _). rewrite (own_app _ _ _ _ Eb), app_assoc in H2, Hsort. by eexists _, _.
Qed.

(** Evidence that was recorded is there, under its id and with its payload, in
    every later store. *)
Lemma evidence_kept sha256 id payload t s e s' l :
  inv s -> recordFinancialEvidence sha256 id payload t s = (inr e, s') ->
  exists r text, get fe_id id (financial_evidence (calls sha256 l s')) = Some r /\
    canonicalSerialize payload = Some text /\ print (fe_payload r) = text /\ fe_createdAt r = t /\
    fe_sha256 e = sha256 text.
Proof.
  intros Hi H. pose proof (evidence_good sha256 id payload t s Hi) as [Hi' _]. rewrite H in Hi'. cbn in Hi'.
  destruct (calls_good sha256 l s' Hi') as [_ (_ & _ & [c Ec])]. revert H.
  unfold recordFinancialEvidence, json. destruct (canonicalSerialize payload) as [text|]; [|done]. cbv zeta.
  match goal with |- context [get fe_id id (financial_evidence ?x)] => destruct (get fe_id id (financial_evidence x)) as [r|] eqn:Er; [|done] end.
  destruct (negb _ || _) eqn:Eb; [done|]. intros [= <- <-]. bool_hyps. exists r, text.
  split_and!; [by rewrite Ec, get_app, Er|done..].
Qed.

(** *** A branch *)

Definition demo_session (id : string) (parent : option (string * string)) : Call :=
  C_createSession {| si_id := id; si_title := None; si_parentSessionId := fst <$> parent;
    si_parentMessageId := snd <$> parent; si_createdAt := Some 1 |} 1.

Definition demo_message (session id : string) : Call :=
  C_appendMessage {| mi_id := id; mi_sessionId := session; mi_role := R_user; mi_content := "text"; mi_createdAt := 2 |}.

Definition demo_before : list Call :=
  [demo_session "a" None; demo_message "a" "m1"; demo_message "a" "m2"; demo_message "a" "m3";
   demo_session "b" (Some ("a", "m2")); demo_message "b" "b1"].

Definition demo_after : list Call :=
  [demo_message "a" "m4"; C_transaction [demo_message "b" "lost"; demo_session "c" (Some ("a", "missing"))];
   demo_message "b" "b2"].

#[local] Abbreviation demo_1 := (calls (fun x => x) demo_before empty_sessions).
#[local] Abbreviation demo_2 := (calls (fun x => x) demo_after demo_1).

Lemma history_grows_witness :
  exists old new, getMessages "b" true demo_1 = inr old /\ getMessages "b" true demo_2 = inr (old ++ new) /\
    map mg_id (old ++ new) = ["m1"; "m2"; "b1"; "b2"].
Proof.
  destruct (history_grows (fun x => x) demo_before demo_after "b") as (old & new & H1 & H2 & _).
  - vm_compute. discriminate.
  - intros m Hm. vm_compute in Hm. repeat (apply elem_of_cons in Hm as [->|Hm]; [discriminate|]). by apply elem_of_nil in Hm.
  - exists old, new. split; [exact H1|]. split; [exact H2|]. 
    transitivity (match getMessages "b" true demo_2 with inr l => map mg_id l | inl _ => [] end);
      [by rewrite H2|vm_compute; reflexivity].
Defined.

(** The same payload under another id is refused: the hash is unique, so nothing is
    inserted, and what is not found counts as a conflict. *)
Lemma same_payload_refused :
  exists s, recordFinancialEvidence (fun x => x) "e1" (V_string "fill") 1 empty_sessions = 
      (inr {| fe_id := "e1"; fe_payload := V_string "fill"; fe_sha256 := print (V_string "fill"); fe_createdAt := 1 |}, s) /\
    recordFinancialEvidence (fun x => x) "e2" (V_string "fill") 2 s = (inl "Evidence id conflict", s).
Proof. eexists. split; vm_compute; reflexivity. Qed.

(** Creating a session again with the defaults is a conflict as soon as the clock
    moved. *)
Lemma default_time_conflicts :
  let i := {| si_id := "a"; si_title := None; si_parentSessionId := None; si_parentMessageId := None; si_createdAt := None |} in
  (createSession i 2 (createSession i 1 empty_sessions).2).1 = inl "Session id conflict".
Proof. vm_compute. reflexivity. Qed.
