(* ===== verification/RunStore.v ===== *)
(** `src/storage/run-store.ts`: runs of the API and the events they emit.

    A JSON column holds the parsed value.  The theorem compares the event log with
    its specification: the last events, numbered from one. *)
From S2P Require Import Prelude Table Canonical.
From stdpp Require Import sorting.
#[local] Open Scope string_scope.
#[local] Open Scope list_scope.
#[local] Open Scope Z_scope.

Inductive DurableStatus : Type := D_running | D_completed | D_failed | D_cancelled.

#[export] Instance DurableStatus_eq_dec : EqDecision DurableStatus.
Proof. solve_decision. Defined.

Record DurableEvent : Type := { de_id : Z; de_type : string; de_data : value }.

Record DurableRun : Type := {
  dr_id : string; dr_tenantId : string; dr_subject : option string; dr_sessionId : string; dr_status : DurableStatus;
  dr_createdAt : Z; dr_events : list DurableEvent
}.

Record RunRow : Type := {
  rw_id : string; rw_tenant : string; rw_session : string; rw_status : DurableStatus; rw_created : Z
}.

Record EventRow : Type := { ew_run : string; ew_event : DurableEvent }.

Record RunTables : Type := {
  t_runs : list RunRow; t_idempotency : list (string * string * string); t_events : list EventRow
}.

Definition set_status (st : DurableStatus) (r : RunRow) : RunRow :=
  {| rw_id := rw_id r; rw_tenant := rw_tenant r; rw_session := rw_session r; rw_status := st; rw_created := rw_created r |}.

Definition events_of (id : string) (s : RunTables) : list EventRow := select (fun e => streq (ew_run e) id) (t_events s).

Definition event_le (a b : EventRow) : Prop := de_id (ew_event a) <= de_id (ew_event b).

#[export] Instance event_le_dec : RelDecision event_le.
Proof. intros a b. unfold event_le. apply _. Defined.

(** `get` *)
Definition get_run (id tenant : string) (s : RunTables) : option DurableRun :=
  (fun r => {| dr_id := rw_id r; dr_tenantId := rw_tenant r; dr_subject := None; dr_sessionId := rw_session r;
               dr_status := rw_status r; dr_createdAt := rw_created r; dr_events := map ew_event (merge_sort event_le (events_of id s)) |}) <$>
  List.find (fun r => streq (rw_id r) id && streq (rw_tenant r) tenant) (t_runs s).

(** INSERT OR IGNORE of an event: its key is the run and the sequence. *)
Definition ignore_event (run : string) (s : RunTables) (e : DurableEvent) : RunTables :=
  if existsb (fun x => streq (ew_run x) run && (de_id (ew_event x) =? de_id e)) (t_events s) then s
  else {| t_runs := t_runs s; t_idempotency := t_idempotency s; t_events := t_events s ++ [{| ew_run := run; ew_event := e |}] |}.

(** `create`; an empty key is no key. *)
Definition create_run (r : DurableRun) (key : option string) (s : RunTables) : option DurableRun * RunTables :=
  let s1 := if has rw_id (dr_id r) (t_runs s) then s
            else {| t_runs := t_runs s ++ [{| rw_id := dr_id r; rw_tenant := dr_tenantId r; rw_session := dr_sessionId r;
                                              rw_status := dr_status r; rw_created := dr_createdAt r |}];
                    t_idempotency := t_idempotency s; t_events := t_events s |} in
  let s2 := match truthy key with
            | None => s1
            | Some k =>
                if existsb (fun x => streq x.1.1 (dr_tenantId r) && streq x.1.2 k) (t_idempotency s1) then s1
                else {| t_runs := t_runs s1; t_idempotency := t_idempotency s1 ++ [(dr_tenantId r, k, dr_id r)];
                        t_events := t_events s1 |}
            end in
  let s3 := foldl (ignore_event (dr_id r)) s2 (dr_events r) in
  (get_run (dr_id r) (dr_tenantId r) s3, s3).

(** `idempotent` *)
Definition idempotent (tenant key : string) (s : RunTables) : option DurableRun :=
  List.find (fun x => streq x.1.1 tenant && streq x.1.2 key) (t_idempotency s) ≫= fun x => get_run x.2 tenant s.

(** COALESCE(MAX(sequence),0) *)
Definition max_sequence (l : list EventRow) : Z :=
  match l with
  | [] => 0
  | e :: l' => foldr (fun x n => Z.max (de_id (ew_event x)) n) (de_id (ew_event e)) l'
  end.

(** `emit` *)
Definition emit (retention : Z) (id type : string) (data : value) (s : RunTables) : result DurableEvent * RunTables :=
  let e := {| de_id := max_sequence (events_of id s) + 1; de_type := type; de_data := data |} in
  if negb (has rw_id id (t_runs s)) then (inl "FOREIGN KEY constraint failed", s)
  else
    let s1 := {| t_runs := t_runs s; t_idempotency := t_idempotency s; t_events := t_events s ++ [{| ew_run := id; ew_event := e |}] |} in
    let last := max_sequence (events_of id s1) - retention in
    (inr e, {| t_runs := t_runs s1; t_idempotency := t_idempotency s1;
               t_events := delete_where (fun x => streq (ew_run x) id && (de_id (ew_event x) <=? last)) (t_events s1) |}).

(** `active` *)
Definition active_runs (tenant : string) (s : RunTables) : nat :=
  changes (fun r => streq (rw_tenant r) tenant && bool_decide (rw_status r = D_running)) (t_runs s).

(** `setStatus` *)
Definition setStatus (id : string) (st : DurableStatus) (s : RunTables) : RunTables :=
  {| t_runs := update_where (fun r => streq (rw_id r) id) (set_status st) (t_runs s);
     t_idempotency := t_idempotency s; t_events := t_events s |}.

(** *** The log is the last events, numbered *)

(** One emission: the run, the type and the data. *)
Definition Emission : Type := (string * string * value)%type.

Definition emits (retention : Z) (l : list Emission) (s : RunTables) : RunTables :=
  foldl (fun s e => (emit retention e.1.1 e.1.2 e.2 s).2) s l.

Fixpoint numbered (run : string) (n : Z) (l : list Emission) : list EventRow :=
  match l with
  | [] => []
  | e :: l' => {| ew_run := run; ew_event := {| de_id := n; de_type := e.1.2; de_data := e.2 |} |} :: numbered run (n + 1) l'
  end.

Definition of_run (run : string) (l : list Emission) : list Emission := List.filter (fun e => streq e.1.1 run) l.

(** The specification: the last [retention] of a run's emissions, by their numbers. *)
Definition retained (retention : Z) (run : string) (l : list Emission) : list EventRow :=
  drop (length (of_run run l) - Z.to_nat retention) (numbered run 1 (of_run run l)).

Lemma length_numbered run n l : length (numbered run n l) = length l.
Proof. revert n. induction l as [|e l IH]; intros n; cbn; [done|by rewrite IH]. Qed.

Lemma numbered_app run n l1 l2 : numbered run n (l1 ++ l2) = numbered run n l1 ++ numbered run (n + Z.of_nat (length l1)) l2.
Proof.
  revert n. induction l1 as [|e l1 IH]; intros n; cbn [numbered app length]; [f_equal; lia|]. rewrite IH.
  cbn. do 3 f_equal. lia.
Qed.

Lemma drop_numbered run n l k : drop k (numbered run n l) = numbered run (n + Z.of_nat k) (drop k l).
Proof.
  revert n l. induction k as [|k IH]; intros n [|e l]; cbn [drop numbered]; [done|by rewrite Z.add_0_r|done|].
  rewrite IH. f_equal. lia.
Qed.

Lemma numbered_bounds run n l e : e ∈ numbered run n l -> n <= de_id (ew_event e) < n + Z.of_nat (length l).
Proof.
  revert n. induction l as [|x l IH]; intros n H; cbn [numbered] in H; [by apply elem_of_nil in H|].
  cbn [length]. rewrite Nat2Z.inj_succ. apply elem_of_cons in H as [->|H]; [cbn; lia|]. specialize (IH _ H). lia.
Qed.

Lemma numbered_run run n l e : e ∈ numbered run n l -> ew_run e = run.
Proof.
  revert n. induction l as [|x l IH]; intros n H; cbn [numbered] in H; [by apply elem_of_nil in H|].
  apply elem_of_cons in H as [->|H]; [done|]. by apply (IH (n + 1)).
Qed.

Lemma fold_max_bounds m l :
  m <= foldr (fun x n => Z.max (de_id (ew_event x)) n) m l /\
  (forall e, e ∈ l -> de_id (ew_event e) <= foldr (fun x n => Z.max (de_id (ew_event x)) n) m l) /\
  (foldr (fun x n => Z.max (de_id (ew_event x)) n) m l = m \/
   exists e, e ∈ l /\ foldr (fun x n => Z.max (de_id (ew_event x)) n) m l = de_id (ew_event e)).
Proof.
  induction l as [|x l (H1 & H2 & H3)]; cbn [foldr].
  - split_and!; [lia| |by left]. intros e H. by apply elem_of_nil in H.
  - split_and!; [lia| |].
    + intros e [->|H]%elem_of_cons; [lia|]. specialize (H2 _ H). lia.
    + destruct (Z.max_spec (de_id (ew_event x)) (foldr (fun x n => Z.max (de_id (ew_event x)) n) m l)) as [[_ ->]|[_ ->]].
      * destruct H3 as [H3|(e & He & H3)]; [by left|right; exists e; split; [by right|done]].
      * right. exists x. split; [by left|done].
Qed.

(** The largest number is the one that bounds the others and is taken. *)
Lemma max_sequence_is l m :
  (forall e, e ∈ l -> de_id (ew_event e) <= m) -> (exists e, e ∈ l /\ de_id (ew_event e) = m) -> max_sequence l = m.
Proof.
  intros Hb (e & He & Hm). destruct l as [|x l]; [by apply elem_of_nil in He|]. cbn [max_sequence].
  destruct (fold_max_bounds (de_id (ew_event x)) l) as (H1 & H2 & H3).
  assert (de_id (ew_event x) <= m) as Hx by (apply Hb; by left).
  apply elem_of_cons in He as [->|He].
  - destruct H3 as [H3|(y & Hy & H3)]; [lia|]. assert (de_id (ew_event y) <= m) by (apply Hb; by right). lia.
  - specialize (H2 _ He). destruct H3 as [H3|(y & Hy & H3)]; [lia|].
    assert (de_id (ew_event y) <= m) by (apply Hb; by right). lia.
Qed.

Lemma max_numbered run n l : l <> [] -> max_sequence (numbered run n l) = n + Z.of_nat (length l) - 1.
Proof.
  intros Hl. apply max_sequence_is.
  - intros e H%numbered_bounds. lia.
  - destruct l as [|e l _] using rev_ind; [done|]. rewrite numbered_app, length_app. eexists. split.
    + apply elem_of_app. right. cbn [numbered]. by left.
    + cbn. lia.
Qed.

(** Deleting below the first number deletes nothing. *)
Lemma delete_numbered_none run n l c :
  c < n -> delete_where (fun x => streq (ew_run x) run && (de_id (ew_event x) <=? c)) (numbered run n l) = numbered run n l.
Proof.
  unfold delete_where. revert n. induction l as [|e l IH]; intros n Hn; [done|]. cbn [numbered List.filter ew_run ew_event de_id].
  destruct (Z.leb_spec n c); [lia|]. rewrite andb_false_r. cbn [negb]. by rewrite IH by lia.
Qed.

(** Deleting up to a number drops a prefix. *)
Lemma delete_numbered run n l c :
  n - 1 <= c ->
  delete_where (fun x => streq (ew_run x) run && (de_id (ew_event x) <=? c)) (numbered run n l) =
  numbered run (c + 1) (drop (Z.to_nat (c + 1 - n)) l).
Proof.
  revert n. induction l as [|e l IH]; intros n Hc; [by rewrite drop_nil|].
  unfold delete_where in *. cbn [numbered List.filter ew_run ew_event de_id]. unfold streq.
  rewrite bool_decide_true by done. cbn [andb].
  destruct (n <=? c) eqn:E; cbn [negb].
  - unfold streq in IH. rewrite IH by lia. replace (Z.to_nat (c + 1 - n)) with (S (Z.to_nat (c + 1 - (n + 1)))) by lia. done.
  - replace c with (n - 1) by lia. replace (Z.to_nat (n - 1 + 1 - n)) with 0%nat by lia. cbn [drop numbered].
    replace (n - 1 + 1) with n by lia. f_equal.
    apply (delete_numbered_none run (n + 1) l (n - 1)). lia.
Qed.

Lemma numbered_elem run n l i e :
  l !! i = Some e ->
  {| ew_run := run; ew_event := {| de_id := n + Z.of_nat i; de_type := e.1.2; de_data := e.2 |} |} ∈ numbered run n l.
Proof.
  revert n i. induction l as [|x l IH]; intros n [|i] H; cbn in H; [done|done| |].
  - simplify_eq. cbn [numbered]. rewrite Z.add_0_r. by left.
  - cbn [numbered]. right. replace (n + Z.of_nat (S i)) with (n + 1 + Z.of_nat i) by lia. by apply IH.
Qed.

Lemma numbered_sorted run n l : StronglySorted event_le (numbered run n l).
Proof.
  revert n. induction l as [|e l IH]; intros n; cbn [numbered]; constructor; [apply IH|].
  apply List.Forall_forall. intros x Hx%list_elem_of_In%numbered_bounds. unfold event_le. cbn. lia.
Qed.

Lemma numbered_inj run n l x y :
  x ∈ numbered run n l -> y ∈ numbered run n l -> event_le x y -> event_le y x -> x = y.
Proof.
  unfold event_le. revert n. induction l as [|e l IH]; intros n Hx Hy H1 H2; cbn [numbered] in *; [by apply elem_of_nil in Hx|].
  apply elem_of_cons in Hx as [->|Hx], Hy as [->|Hy]; [done| | |by apply (IH (n + 1))].
  - apply numbered_bounds in Hy. cbn in *. lia.
  - apply numbered_bounds in Hx. cbn in *. lia.
Qed.

(** A numbered log is read in the order of its numbers. *)
Lemma sort_numbered run n l : merge_sort event_le (numbered run n l) = numbered run n l.
Proof.
  pose proof (merge_sort_Permutation event_le (numbered run n l)) as Hp.
  apply (StronglySorted_unique_strong event_le); [|apply StronglySorted_merge_sort|apply numbered_sorted|done].
  - intros x y Hx Hy. apply (numbered_inj run n l); [by rewrite <- Hp|done].
  - intros a b c. unfold event_le. lia.
  - intros a b. unfold event_le. lia.
Qed.

Lemma retained_numbered ret run l :
  retained ret run l =
  numbered run (1 + Z.of_nat (length (of_run run l) - Z.to_nat ret)) (drop (length (of_run run l) - Z.to_nat ret) (of_run run l)).
Proof. apply drop_numbered. Qed.

Lemma of_run_snoc run l e : of_run run (l ++ [e]) = of_run run l ++ (if streq e.1.1 run then [e] else []).
Proof. unfold of_run. rewrite List.filter_app. cbn. by destruct (streq _ _). Qed.

Lemma events_delete_other id run c t :
  streq id run = false ->
  select (fun e => streq (ew_run e) run) (delete_where (fun x => streq (ew_run x) id && (de_id (ew_event x) <=? c)) t) =
  select (fun e => streq (ew_run e) run) t.
Proof.
  intros Hne. unfold select, delete_where. induction t as [|x t IH]; [done|]. cbn.
  destruct (streq (ew_run x) id && _) eqn:E; cbn; destruct (streq (ew_run x) run) eqn:Er; try (by rewrite IH).
  apply andb_prop in E as [E _]. unfold streq in *. bool_hyps. congruence.
Qed.

Lemma events_delete_own run c t :
  select (fun e => streq (ew_run e) run) (delete_where (fun x => streq (ew_run x) run && (de_id (ew_event x) <=? c)) t) =
  delete_where (fun x => streq (ew_run x) run && (de_id (ew_event x) <=? c)) (select (fun e => streq (ew_run e) run) t).
Proof.
  unfold select, delete_where. induction t as [|x t IH]; [done|]. cbn.
  destruct (streq (ew_run x) run) eqn:Er; cbn; rewrite ?Er; cbn; [|done].
  destruct (_ <=? _); cbn; rewrite ?Er; cbn; by rewrite IH.
Qed.

Lemma emit_runs ret id ty d s : t_runs (emit ret id ty d s).2 = t_runs s.
Proof. unfold emit. by destruct (has rw_id id (t_runs s)). Qed.

Lemma emits_snoc ret l e s : emits ret (l ++ [e]) s = (emit ret e.1.1 e.1.2 e.2 (emits ret l s)).2.
Proof. unfold emits. by rewrite foldl_app. Qed.

Lemma emits_runs ret l s : t_runs (emits ret l s) = t_runs s.
Proof. induction l as [|e l IH] using rev_ind; [done|]. by rewrite emits_snoc, emit_runs. Qed.

(** An emission of another run leaves the log of this one. *)
Lemma emit_other ret id run ty d s : streq id run = false -> events_of run (emit ret id ty d s).2 = events_of run s.
Proof.
  intros Hne. unfold emit. destruct (has rw_id id (t_runs s)); [|done].
  cbn [negb snd]. unfold events_of at 1. cbn [t_events].
  rewrite (events_delete_other _ _ _ _ Hne). unfold events_of, select. rewrite List.filter_app. cbn. rewrite Hne. by rewrite app_nil_r.
Qed.

(** An emission of the run appends the next number and drops the oldest. *)
Lemma emit_own ret run ty d s k l :
  0 < ret -> has rw_id run (t_runs s) = true ->
  length l = Nat.min k (Z.to_nat ret) ->
  events_of run s = numbered run (1 + Z.of_nat k - Z.of_nat (length l)) l ->
  events_of run (emit ret run ty d s).2 =
  numbered run (2 + Z.of_nat k - Z.of_nat (Nat.min (S k) (Z.to_nat ret)))
    (drop (S (length l) - Nat.min (S k) (Z.to_nat ret)) (l ++ [(run, ty, d)])).
Proof.
  intros Hret Hrun Hlen Hev.
  assert (max_sequence (events_of run s) = Z.of_nat k) as Hmax.
  { rewrite Hev. destruct l as [|x l]; [cbn [length] in Hlen; cbn; lia|].
    rewrite max_numbered by done. lia. }
  unfold emit. rewrite Hrun. cbn [negb snd]. rewrite Hmax.
  set (e := {| de_id := Z.of_nat k + 1; de_type := ty; de_data := d |}).
  assert (select (fun x => streq (ew_run x) run) (t_events s ++ [{| ew_run := run; ew_event := e |}]) =
          numbered run (1 + Z.of_nat k - Z.of_nat (length l)) (l ++ [(run, ty, d)])) as Hall.
  { rewrite numbered_app, <- Hev. unfold events_of, select. rewrite List.filter_app. cbn [List.filter ew_run].
    unfold streq at 2. rewrite bool_decide_true by done. cbn [numbered]. do 4 f_equal. lia. }
  unfold events_of. cbn [t_events]. rewrite events_delete_own, Hall, max_numbered by (by destruct l).
  rewrite length_app. cbn [length].
  replace (1 + Z.of_nat k - Z.of_nat (length l) + Z.of_nat (length l + 1) - 1 - ret) with (Z.of_nat k + 1 - ret) by lia.
  destruct (decide (Z.of_nat k + 1 <= ret)) as [Hk|Hk].
  - rewrite delete_numbered_none by lia. replace (S (length l) - Nat.min (S k) (Z.to_nat ret))%nat with 0%nat by lia.
    cbn [drop]. f_equal. lia.
  - rewrite delete_numbered by lia. f_equal; [lia|]. f_equal. lia.
Qed.

Lemma emits_log ret run l s :
  0 < ret -> has rw_id run (t_runs s) = true -> events_of run s = [] -> events_of run (emits ret l s) = retained ret run l.
Proof.
  intros Hret Hrun H0. induction l as [|e l IH] using rev_ind; [done|]. destruct e as [[id ty] d].
  rewrite emits_snoc, retained_numbered, of_run_snoc. cbn [fst snd].
  destruct (streq id run) eqn:Hid.
  - unfold streq in Hid. bool_hyps. subst id. rewrite retained_numbered in IH.
    set (L := of_run run l) in *. rewrite length_app. cbn [length].
    rewrite (emit_own ret run ty d _ (length L) (drop (length L - Z.to_nat ret) L) Hret);
      [|by rewrite emits_runs|rewrite length_drop; lia|rewrite IH, length_drop; f_equal; lia].
    rewrite length_drop. f_equal; [lia|].
    destruct (decide (length L < Z.to_nat ret)%nat) as [Hk|Hk].
    + replace (length L - Z.to_nat ret)%nat with 0%nat by lia. rewrite drop_0. f_equal; lia.
    + rewrite <- (drop_app_le L) by lia. rewrite drop_drop. f_equal. lia.
  - rewrite emit_other by done. by rewrite IH, app_nil_r, <- retained_numbered.
Qed.

Definition with_events (l : list EventRow) (r : DurableRun) : DurableRun :=
  {| dr_id := dr_id r; dr_tenantId := dr_tenantId r; dr_subject := dr_subject r; dr_sessionId := dr_sessionId r;
     dr_status := dr_status r; dr_createdAt := dr_createdAt r; dr_events := map ew_event l |}.

(** Reading a run back gives exactly the last [retention] of its own emissions,
    in order, numbered from one without a gap; the emissions of other runs, however
    interleaved, and the retention deletes change neither its numbers nor its row. *)
Theorem log_is_retained (ret : Z) (run tenant : string) (l : list Emission) (s : RunTables) :
  0 < ret -> events_of run s = [] ->
  get_run run tenant (emits ret l s) = with_events (retained ret run l) <$> get_run run tenant s.
Proof.
  intros Hret H0. unfold get_run. rewrite emits_runs.
  destruct (List.find _ (t_runs s)) as [r|] eqn:Hf; [|done]. cbn.
  assert (has rw_id run (t_runs s) = true) as Hrun.
  { apply find_some in Hf as [Hin Hk]. bool_hyps. unfold streq in *. bool_hyps. subst run.
    destruct (has rw_id (rw_id r) (t_runs s)) eqn:E; [done|]. unfold has in E.
    destruct (get rw_id (rw_id r) (t_runs s)) eqn:Eg; [done|].
    exfalso. eapply (proj1 (get_None _ _ _) Eg r); [by apply list_elem_of_In|done]. }
  rewrite (emits_log _ _ _ _ Hret Hrun H0), retained_numbered, sort_numbered. done.
Qed.

(** *** Witness and findings *)

Definition demo_run (tenant : string) (subject : option string) : DurableRun :=
  {| dr_id := "run-1"; dr_tenantId := tenant; dr_subject := subject; dr_sessionId := "s"; dr_status := D_running;
     dr_createdAt := 5; dr_events := [] |}.

Definition demo_tables : RunTables :=
  (create_run (demo_run "a" None) (Some "key")
     {| t_runs := [{| rw_id := "run-2"; rw_tenant := "a"; rw_session := "s"; rw_status := D_running; rw_created := 4 |}];
        t_idempotency := []; t_events := [] |}).2.

Definition demo_emissions : list Emission :=
  [("run-1", "delta", V_string "a"); ("run-2", "delta", V_string "x"); ("run-1", "delta", V_string "b"); ("run-1", "done", V_string "c")].

Lemma log_is_retained_witness :
  0 < 2 /\ events_of "run-1" demo_tables = [] /\
  get_run "run-1" "a" (emits 2 demo_emissions demo_tables) =
  with_events (retained 2 "run-1" demo_emissions) <$> get_run "run-1" "a" demo_tables /\
  option_map (fun r => map de_id (dr_events r)) (get_run "run-1" "a" (emits 2 demo_emissions demo_tables)) = Some [2; 3].
Proof.
  split_and!; [lia|reflexivity| |reflexivity].
  apply (log_is_retained 2 "run-1" "a" demo_emissions demo_tables); [lia|reflexivity].
Defined.

(** A run's subject is a field of the record and no column of the table: it is lost. *)
Lemma subject_not_stored :
  option_map dr_subject (create_run (demo_run "a" (Some "alice")) None {| t_runs := []; t_idempotency := []; t_events := [] |}).1 =
  Some None.
Proof. reflexivity. Qed.

(** An identifier another tenant has: `create` hands back nothing, though its type promises a run. *)
Lemma taken_id_gives_nothing : (create_run (demo_run "b" None) None demo_tables).1 = None.
Proof. reflexivity. Qed.

(** With a retention of zero every number is the first. *)
Lemma no_retention_no_numbers (id ty : string) (d : value) (s : RunTables) :
  has rw_id id (t_runs s) = true -> events_of id s = [] -> events_of id (emit 0 id ty d s).2 = [].
Proof.
  intros Hrun H0. unfold emit. rewrite Hrun, H0. cbn [negb snd]. unfold events_of at 1. cbn [t_events].
  rewrite events_delete_own. unfold events_of in *. cbn [t_events]. unfold select in *. rewrite List.filter_app, H0. cbn.
  unfold streq. cbn. unfold delete_where. case_bool_decide; [|done]. cbn. by rewrite bool_decide_true.
Qed.
