(* ===== verification/Curve.v ===== *)
(** `src/pools/pumpfun/math.ts`: the integer arithmetic of the bonding curve.

    `bigint` division truncates, [Z.quot].  The display numbers of a quote (spot
    price and price impact, doubles) and the two display helpers at the end of the
    file are left out. *)
From S2P Require Import Prelude.
From Stdlib Require Import QArith Qround.
#[local] Open Scope string_scope.
#[local] Open Scope Z_scope.
#[local] Open Scope result_scope.

Record CurveReserves : Type := {
  virtualSolReserves : Z; virtualTokenReserves : Z; realSolReserves : Z; realTokenReserves : Z;
  tokenTotalSupply : Z; complete : bool
}.

Record Fees : Type := { lpFeeBps : Z; protocolFeeBps : Z; creatorFeeBps : Z }.
Record FeeTier : Type := { marketCapLamportsThreshold : Z; fees : Fees }.

(** `assertPositive`; the message without the value. *)
Definition assertPositive (name : string) (v : Z) : result unit :=
  throw_on (v <=? 0) (String.append name " must be positive").

Definition bondingCurveMarketCap (mintSupply virtualSol virtualToken : Z) : result Z :=
  let? _u := assertPositive "virtualTokenReserves" virtualToken in
  inr (Z.quot (virtualSol * mintSupply) virtualToken).

(** The loop from the last tier down to the first. *)
Fixpoint last_tier (tiers : list FeeTier) (cap : Z) : option Fees :=
  match tiers with
  | [] => None
  | t :: ts => if marketCapLamportsThreshold t <=? cap then Some (fees t) else last_tier ts cap
  end.

Definition calculateFeeTier (feeTiers : list FeeTier) (cap : Z) : result Fees :=
  match feeTiers with
  | [] => inl "fee tier table is empty"
  | first :: _ =>
      if cap <? marketCapLamportsThreshold first then inr (fees first)
      else inr (default (fees first) (last_tier (rev feeTiers) cap))
  end.

Definition curveFeeBps (f : Fees) : Z := protocolFeeBps f + creatorFeeBps f.

(** *** Quotes *)

Definition assert_reserves (r : CurveReserves) : result unit :=
  let? _u := assertPositive "virtualSolReserves" (virtualSolReserves r) in
  assertPositive "virtualTokenReserves" (virtualTokenReserves r).

Definition tokensForSol (r : CurveReserves) (solIn : Z) : result Z :=
  let? _u := assert_reserves r in
  if solIn <=? 0 then inr 0
  else
    let k := virtualSolReserves r * virtualTokenReserves r in
    let newSol := virtualSolReserves r + solIn in
    let newTokens := Z.quot k newSol + 1 in
    let out := if newTokens <? virtualTokenReserves r then virtualTokenReserves r - newTokens else 0 in
    inr (if out <? realTokenReserves r then out else realTokenReserves r).

Definition solCostForTokens (r : CurveReserves) (tokenAmount : Z) : result Z :=
  let? _u := assert_reserves r in
  if tokenAmount <=? 0 then inr 0
  else
    check virtualTokenReserves r <=? tokenAmount else "token amount would drain the virtual token reserve";
    let k := virtualSolReserves r * virtualTokenReserves r in
    let newSol := Z.quot k (virtualTokenReserves r - tokenAmount) + 1 in
    inr (newSol - virtualSolReserves r).

Definition solForTokens (r : CurveReserves) (tokenAmount : Z) : result Z :=
  let? _u := assert_reserves r in
  if tokenAmount <=? 0 then inr 0
  else inr (Z.quot (tokenAmount * virtualSolReserves r) (virtualTokenReserves r + tokenAmount)).

(** `BigInt(Math.round(x))` of a finite number. *)
Definition round_number (x : number) : Z := match x with Finite q => Qfloor (q + (1 # 2))%Q | _ => 0 end.

Definition check_slippage (slippageBps : number) : result unit :=
  throw_on (negb (isFinite slippageBps) || num_ltb slippageBps 0) "slippageBps must be finite and non-negative".

Record BuyQuote : Type := {
  bq_tokenAmount : Z; bq_solCostLamports : Z; bq_feeLamports : Z; bq_totalLamports : Z;
  bq_maxSolCostLamports : Z; bq_feeBps : Z
}.

Definition quoteBuyForSolBudget (r : CurveReserves) (budget feeBps : Z) (slippageBps : number) : result BuyQuote :=
  check budget <=? 0 else "sol budget must be positive";
  check feeBps <? 0 else "feeBps must be non-negative";
  let? _u := check_slippage slippageBps in
  check complete r else "curve has completed: it no longer accepts buys";
  let curveBudget := Z.quot (budget * 10000) (10000 + feeBps) in
  let? tokenAmount := tokensForSol r curveBudget in
  check tokenAmount <=? 0 else "budget too small to buy a single token unit";
  let? cost := solCostForTokens r tokenAmount in
  let fee := Z.quot (cost * feeBps) 10000 in
  let total := cost + fee in
  inr {| bq_tokenAmount := tokenAmount; bq_solCostLamports := cost; bq_feeLamports := fee;
         bq_totalLamports := total;
         bq_maxSolCostLamports := Z.quot (total * (10000 + round_number slippageBps)) 10000;
         bq_feeBps := feeBps |}.

Record SellQuote : Type := {
  sq_tokenAmount : Z; sq_grossSolLamports : Z; sq_feeLamports : Z; sq_netSolLamports : Z;
  sq_minSolOutputLamports : Z; sq_feeBps : Z
}.

Definition quoteSell (r : CurveReserves) (tokenAmount feeBps : Z) (slippageBps : number) : result SellQuote :=
  check tokenAmount <=? 0 else "token amount must be positive";
  check feeBps <? 0 else "feeBps must be non-negative";
  let? _u := check_slippage slippageBps in
  check negb (num_ltb slippageBps 10000) else "slippageBps must be below 100%";
  check complete r else "curve has completed: it no longer accepts sells";
  let? gross := solForTokens r tokenAmount in
  let fee := Z.quot (gross * feeBps) 10000 in
  let net := gross - fee in
  inr {| sq_tokenAmount := tokenAmount; sq_grossSolLamports := gross; sq_feeLamports := fee;
         sq_netSolLamports := net;
         sq_minSolOutputLamports := Z.quot (net * (10000 - round_number slippageBps)) 10000;
         sq_feeBps := feeBps |}.

(** *** Arithmetic *)

(** Truncated division of a non-negative number is the floor. *)
Lemma quot_bounds a b : 0 <= a -> 0 < b -> b * Z.quot a b <= a < b * (Z.quot a b + 1) /\ 0 <= Z.quot a b.
Proof.
  intros Ha Hb. rewrite Z.quot_div_nonneg by lia. pose proof (Z.mul_div_le a b Hb).
  pose proof (Z.mul_succ_div_gt a b Hb). pose proof (Z.div_pos a b Ha Hb). lia.
Qed.

Lemma round_number_nonneg x : isFinite x = true -> num_ltb x 0 = false -> 0 <= round_number x.
Proof.
  destruct x as [| |q]; try done. unfold num_ltb, round_number. intros _ H.
  apply negb_false_iff, Qle_bool_iff in H. rewrite <- (Qfloor_Z 0). apply Qfloor_resp_le.
  apply (Qle_trans _ q); [done|]. rewrite <- (Qplus_0_r q) at 1. by apply Qplus_le_r.
Qed.

Lemma round_number_le x z : isFinite x = true -> num_ltb x z = true -> round_number x <= z.
Proof.
  destruct x as [| |q]; try done. unfold num_ltb, round_number. intros _ H. apply negb_true_iff in H.
  assert (q < inject_Z z)%Q as Hq by (apply Qnot_le_lt; intros Hle%Qle_bool_iff; congruence).
  apply Z.lt_succ_r. rewrite Zlt_Qlt. apply (Qle_lt_trans _ (q + (1 # 2))); [apply Qfloor_le|].
  apply (Qlt_trans _ (inject_Z z + (1 # 2))).
  - by apply Qplus_lt_l.
  - unfold Z.succ. rewrite inject_Z_plus. by apply Qplus_lt_r.
Qed.

Lemma check_slippage_inr x u : check_slippage x = inr u -> isFinite x = true /\ num_ltb x 0 = false.
Proof. unfold check_slippage. intros H%throw_on_inr. by bool_hyps. Qed.

Lemma assert_reserves_inr r u :
  assert_reserves r = inr u -> 0 < virtualSolReserves r /\ 0 < virtualTokenReserves r.
Proof.
  unfold assert_reserves, assertPositive. intros (? & H1%throw_on_inr & H2%throw_on_inr)%rbind_inr. bool_hyps. lia.
Qed.

(** *** The curve *)

Section Trades.
Context (r : CurveReserves).

(** The tokens a buy may ask for: never more than the curve holds, and the curve
    leaves at least one virtual token. *)
Lemma tokensForSol_spec solIn out :
  tokensForSol r solIn = inr out -> 0 < out ->
  0 < solIn /\ out <= realTokenReserves r /\ out < virtualTokenReserves r /\
  virtualSolReserves r * virtualTokenReserves r < (virtualTokenReserves r - out) * (virtualSolReserves r + solIn).
Proof.
  unfold tokensForSol. intros H Hout. apply rbind_inr in H as (? & [Hs Ht]%assert_reserves_inr & H).
  destruct (Z.leb_spec solIn 0); [by simplify_eq|].
  pose proof (quot_bounds (virtualSolReserves r * virtualTokenReserves r) (virtualSolReserves r + solIn)
    ltac:(lia) ltac:(lia)) as [Hq Hq0].
  set (n := Z.quot _ _) in *.
  assert (out <= realTokenReserves r /\ n + 1 <= virtualTokenReserves r - out) as [Hr Hn]
    by (destruct (Z.ltb_spec (n + 1) (virtualTokenReserves r)), (Z.ltb_spec 0 (realTokenReserves r));
        split_ifs_in H; bool_hyps; injection H as <-; lia).
  pose proof (Z.mul_le_mono_nonneg_r _ _ (virtualSolReserves r + solIn) ltac:(lia) Hn). split_and!; lia.
Qed.

Lemma solCostForTokens_spec amount cost :
  solCostForTokens r amount = inr cost -> 0 < amount ->
  amount < virtualTokenReserves r /\ 0 < cost /\
  (virtualSolReserves r + cost - 1) * (virtualTokenReserves r - amount) <=
    virtualSolReserves r * virtualTokenReserves r <
    (virtualSolReserves r + cost) * (virtualTokenReserves r - amount).
Proof.
  unfold solCostForTokens. intros H Ha. apply rbind_inr in H as (? & [Hs Ht]%assert_reserves_inr & H).
  destruct (Z.leb_spec amount 0); [lia|]. open_result H. injection H as <-. bool_hyps.
  pose proof (quot_bounds (virtualSolReserves r * virtualTokenReserves r) (virtualTokenReserves r - amount)
    ltac:(nia) ltac:(lia)) as [Hq Hq0].
  set (n := Z.quot _ _) in *. split_and!; nia.
Qed.

(** The tokens bought with a sum of lamports never cost more than it. *)
Lemma cost_within_budget solIn out cost :
  tokensForSol r solIn = inr out -> 0 < out -> solCostForTokens r out = inr cost -> cost <= solIn.
Proof.
  intros Ht Hout Hc. apply tokensForSol_spec in Ht as (H1 & H2 & H3 & H4); [|done].
  apply solCostForTokens_spec in Hc as (H5 & H6 & H7 & _); [|done]. nia.
Qed.

Lemma tokensForSol_cost solIn out :
  tokensForSol r solIn = inr out -> 0 < out -> exists cost, solCostForTokens r out = inr cost.
Proof.
  intros Ht Hout. pose proof Ht as (H1 & H2 & H3 & H4)%tokensForSol_spec; [|done].
  unfold tokensForSol in Ht. apply rbind_inr in Ht as (u & Hu & _). unfold solCostForTokens. rewrite Hu. simpl.
  destruct (Z.leb_spec out 0); [lia|]. rewrite (proj2 (Z.leb_gt _ _) H3). simpl. eauto.
Qed.

(** One token more than what is asked for would cost more than the lamports given,
    unless the curve has no more tokens. *)
Lemma tokensForSol_most solIn out cost :
  tokensForSol r solIn = inr out -> 0 < out < realTokenReserves r ->
  solCostForTokens r (out + 1) = inr cost -> solIn < cost.
Proof.
  unfold tokensForSol. intros H Hout Hc. apply rbind_inr in H as (? & [Hs Ht]%assert_reserves_inr & H).
  destruct (Z.leb_spec solIn 0); [by simplify_eq; lia|].
  pose proof (quot_bounds (virtualSolReserves r * virtualTokenReserves r) (virtualSolReserves r + solIn)
    ltac:(lia) ltac:(lia)) as [Hq Hq0].
  apply solCostForTokens_spec in Hc as (H1 & H2 & _ & H4); [|lia].
  set (n := Z.quot _ _) in *. cbv zeta in H. split_ifs_in H; bool_hyps; injection H as H; nia.
Qed.
End Trades.

(** [q] is [a / b] rounded down. *)
Definition floor_of (a b q : Z) : Prop := b * q <= a < b * (q + 1).

(** The reserves of the program once a buy filled at its quote. *)
Definition after_buy (r : CurveReserves) (out cost : Z) : CurveReserves :=
  {| virtualSolReserves := virtualSolReserves r + cost; virtualTokenReserves := virtualTokenReserves r - out;
     realSolReserves := realSolReserves r + cost; realTokenReserves := realTokenReserves r - out;
     tokenTotalSupply := tokenTotalSupply r; complete := complete r |}.

(** *** What the quotes promise *)

Section Quotes.
Context (r : CurveReserves) (feeBps : Z) (slippageBps : number).

Lemma buy_amounts budget q :
  quoteBuyForSolBudget r budget feeBps slippageBps = inr q ->
  0 < bq_tokenAmount q <= realTokenReserves r /\ 0 < bq_solCostLamports q /\ 0 <= bq_feeLamports q /\
  bq_totalLamports q = bq_solCostLamports q + bq_feeLamports q /\ bq_totalLamports q <= budget /\
  bq_totalLamports q <= bq_maxSolCostLamports q /\
  solCostForTokens r (bq_tokenAmount q) = inr (bq_solCostLamports q) /\
  floor_of (bq_solCostLamports q * feeBps) 10000 (bq_feeLamports q) /\
  floor_of (bq_totalLamports q * (10000 + round_number slippageBps)) 10000 (bq_maxSolCostLamports q) /\
  (bq_tokenAmount q < realTokenReserves r -> forall c, solCostForTokens r (bq_tokenAmount q + 1) = inr c ->
     budget * 10000 < c * (10000 + feeBps)).
Proof.
  unfold quoteBuyForSolBudget. intros H. open_result H. injection H as <-. cbn -[Z.mul Z.add]. bool_hyps.
  match goal with H : check_slippage _ = _ |- _ => apply check_slippage_inr in H as [Hfin Hneg] end.
  match goal with H : tokensForSol _ _ = inr ?t, H' : solCostForTokens _ ?t = inr ?c |- _ =>
    rename H into Ht; rename H' into Hc; rename t into out; rename c into cost end.
  pose proof (round_number_nonneg _ Hfin Hneg) as Hround.
  pose proof (cost_within_budget r _ _ _ Ht ltac:(lia) Hc) as Hle.
  pose proof Ht as (_ & Hreal & _ & _)%tokensForSol_spec; [|lia].
  pose proof Hc as (_ & Hpos & _)%solCostForTokens_spec; [|lia].
  pose proof (quot_bounds (budget * 10000) (10000 + feeBps) ltac:(lia) ltac:(lia)) as [Hbud _].
  pose proof (quot_bounds (cost * feeBps) 10000 ltac:(nia) ltac:(lia)) as [Hf Hf0].
  set (fee := Z.quot (cost * feeBps) 10000) in *. set (cb := Z.quot (budget * 10000) _) in *.
  pose proof (quot_bounds ((cost + fee) * (10000 + round_number slippageBps)) 10000 ltac:(nia) ltac:(lia)) as [Hm _].
  set (mx := Z.quot _ 10000) in *. unfold floor_of.
  assert (cost * (10000 + feeBps) <= cb * (10000 + feeBps)) by (apply Z.mul_le_mono_nonneg_r; lia).
  assert ((cost + fee) * 10000 <= (cost + fee) * (10000 + round_number slippageBps))
    by (apply Z.mul_le_mono_nonneg_l; lia).
  assert (out < realTokenReserves r -> forall c, solCostForTokens r (out + 1) = inr c -> budget * 10000 < c * (10000 + feeBps)).
  { intros Hr c Hc'. pose proof (tokensForSol_most r _ _ _ Ht ltac:(lia) Hc') as Hlt.
    assert ((cb + 1) * (10000 + feeBps) <= c * (10000 + feeBps)) by (apply Z.mul_le_mono_nonneg_r; lia). lia. }
  split_and!; try lia; try done.
Qed.

(** Selling at once what was bought gives back less than it cost, fees aside. *)
Lemma buy_then_sell out cost gross :
  0 < out -> solCostForTokens r out = inr cost -> solForTokens (after_buy r out cost) out = inr gross -> gross < cost.
Proof.
  intros Hout Hc Hg. apply solCostForTokens_spec in Hc as (H1 & H2 & H3 & H4); [|done].
  unfold solForTokens in Hg. apply rbind_inr in Hg as (u & [Hs Ht]%assert_reserves_inr & Hg).
  destruct (Z.leb_spec out 0); [lia|]. injection Hg as <-. cbn in *.
  pose proof (quot_bounds (out * (virtualSolReserves r + cost)) (virtualTokenReserves r - out + out) ltac:(nia) ltac:(lia)) as [Hq _].
  set (g := Z.quot _ _) in *. apply Z.nle_gt. intros Hle.
  assert (virtualTokenReserves r * cost <= virtualTokenReserves r * g) by (apply Z.mul_le_mono_nonneg_l; lia). nia.
Qed.

Lemma sell_amounts amount q :
  quoteSell r amount feeBps slippageBps = inr q -> feeBps <= 10000 ->
  sq_tokenAmount q = amount /\ 0 <= sq_minSolOutputLamports q <= sq_netSolLamports q /\
  sq_netSolLamports q = sq_grossSolLamports q - sq_feeLamports q /\ 0 <= sq_feeLamports q /\
  0 <= sq_grossSolLamports q < virtualSolReserves r /\
  virtualSolReserves r * virtualTokenReserves r <=
    (virtualSolReserves r - sq_grossSolLamports q) * (virtualTokenReserves r + amount) /\
  floor_of (amount * virtualSolReserves r) (virtualTokenReserves r + amount) (sq_grossSolLamports q) /\
  floor_of (sq_grossSolLamports q * feeBps) 10000 (sq_feeLamports q) /\
  floor_of (sq_netSolLamports q * (10000 - round_number slippageBps)) 10000 (sq_minSolOutputLamports q).
Proof.
  unfold quoteSell. intros H Hfee. open_result H. injection H as <-. cbn -[Z.mul Z.add Z.sub]. bool_hyps.
  match goal with H : check_slippage _ = _ |- _ => apply check_slippage_inr in H as [Hfin Hneg] end.
  match goal with H : solForTokens _ _ = inr ?g |- _ => rename H into Hg; rename g into gross end.
  match goal with H : num_ltb _ 10000 = true |- _ => rename H into Hlt end.
  pose proof (round_number_nonneg _ Hfin Hneg) as Hround. pose proof (round_number_le _ _ Hfin Hlt) as Hround'.
  unfold solForTokens in Hg. apply rbind_inr in Hg as (u & [Hs Ht]%assert_reserves_inr & Hg).
  destruct (Z.leb_spec amount 0); [lia|]. injection Hg as <-.
  pose proof (quot_bounds (amount * virtualSolReserves r) (virtualTokenReserves r + amount) ltac:(nia) ltac:(lia)) as [Hq Hq0].
  set (g := Z.quot (amount * _) _) in *.
  pose proof (quot_bounds (g * feeBps) 10000 ltac:(nia) ltac:(lia)) as [Hf Hf0]. set (fee := Z.quot (g * feeBps) _) in *.
  assert (fee <= g) by nia.
  pose proof (quot_bounds ((g - fee) * (10000 - round_number slippageBps)) 10000 ltac:(nia) ltac:(lia)) as [Hm Hm0].
  set (mn := Z.quot _ 10000) in *. unfold floor_of. split_and!; try done; try nia.
Qed.
End Quotes.


(** The reserves of a new curve. *)
Definition demo_curve : CurveReserves :=
  {| virtualSolReserves := 30000000000; virtualTokenReserves := 1073000000000000; realSolReserves := 0;
     realTokenReserves := 793100000000000; tokenTotalSupply := 1000000000000000; complete := false |}.

Definition demo_buy : BuyQuote :=
  match quoteBuyForSolBudget demo_curve 1000000000 100 (js_num 300) with
  | inr q => q
  | inl _ => {| bq_tokenAmount := 0; bq_solCostLamports := 0; bq_feeLamports := 0; bq_totalLamports := 0;
                bq_maxSolCostLamports := 0; bq_feeBps := 0 |}
  end.


(** A slippage just below 100% passes the guard and leaves no minimum at all. *)
Example sell_without_minimum :
  match quoteSell demo_curve 1000000 100 (Finite (19999 # 2)) with
  | inr q => sq_netSolLamports q = 27 /\ sq_minSolOutputLamports q = 0
  | inl _ => False
  end.
Proof. by vm_compute. Qed.
