(* ===== verification/PumpCurve.v ===== *)
(** `src/pools/pumpfun/curve.ts`: the addresses of pump.fun's accounts and the decoding
    of their bytes.

    [Web3] is what the file uses of the web3 library: keys, their texts and program
    addresses.  A buffer is a list of bytes; a field that is read past the end throws
    ([Bytes.read_le]), one sliced past the end is short. *)
From Stdlib Require Import Ascii.
From S2P Require Import Prelude Bytes Curve.
#[local] Open Scope string_scope.
#[local] Open Scope list_scope.
#[local] Open Scope Z_scope.
#[local] Open Scope result_scope.

(** Keys: [key_of_bytes] is the constructor on 32 bytes, [key_of_text] on a base58 text,
    which throws when it names no key. *)
Class Web3 : Type := {
  PublicKey : Type;
  key_of_bytes : list Z -> PublicKey;
  key_of_text : string -> result PublicKey;
  key_const : string -> PublicKey;
  toBuffer : PublicKey -> list Z;
  toBase58 : PublicKey -> string;
  findProgramAddress : list (list Z) -> PublicKey -> PublicKey
}.

Definition bytes_of_text (s : string) : list Z := map code (String.list_ascii_of_string s).

Section Curve.
Context `{Web3}.

Definition PUMP_PROGRAM_ID : PublicKey := key_const "6EF8rrecthR5Dkzon8Nwu78hRvfCKubJ14M5uBEwF6P".
Definition PUMP_FEE_PROGRAM_ID : PublicKey := key_const "pfeeUxB6jkeY1Hxd7CsFCAjcbHA9rWtchMGdZ6VojVZ".
Definition TOKEN_PROGRAM_ID : PublicKey := key_const "TokenkegQfeZyiNwAJbNbGKPFXCWuBvf9Ss623VQ5DA".
Definition ASSOCIATED_TOKEN_PROGRAM_ID : PublicKey := key_const "ATokenGPvbdGVxr1b2hvZbsiqW5xWH25efTNsLJA8knL".

Definition BONDING_CURVE_DISCRIMINATOR : list Z := [23; 183; 248; 55; 96; 216; 172; 96].
Definition GLOBAL_DISCRIMINATOR : list Z := [167; 232; 232; 177; 200; 108; 114; 127].

Definition globalPda (program : PublicKey) : PublicKey := findProgramAddress [bytes_of_text "global"] program.

Definition bondingCurvePda (mint program : PublicKey) : PublicKey :=
  findProgramAddress [bytes_of_text "bonding-curve"; toBuffer mint] program.

Definition creatorVaultPda (creator program : PublicKey) : PublicKey :=
  findProgramAddress [bytes_of_text "creator-vault"; toBuffer creator] program.

Definition eventAuthorityPda (program : PublicKey) : PublicKey :=
  findProgramAddress [bytes_of_text "__event_authority"] program.

Definition globalVolumeAccumulatorPda (program : PublicKey) : PublicKey :=
  findProgramAddress [bytes_of_text "global_volume_accumulator"] program.

Definition userVolumeAccumulatorPda (user program : PublicKey) : PublicKey :=
  findProgramAddress [bytes_of_text "user_volume_accumulator"; toBuffer user] program.

Definition feeConfigPda (pumpProgram feeProgram : PublicKey) : PublicKey :=
  findProgramAddress [bytes_of_text "fee_config"; toBuffer pumpProgram] feeProgram.

(** `associatedTokenAddress` of `chains/solana/spl.ts`; `associatedBondingCurve` and
    `associatedTokenAccount` call it with the curve and with the user. *)
Definition associatedTokenAddress (mint owner tokenProgram : PublicKey) : PublicKey :=
  findProgramAddress [toBuffer owner; toBuffer tokenProgram; toBuffer mint] ASSOCIATED_TOKEN_PROGRAM_ID.

(** *** Decoding *)

Definition discriminatorMatches (buf expected : list Z) : bool :=
  (length expected <=? length buf)%nat && bool_decide (take (length expected) buf = expected).

(** `readU128LE`; the two halves do not overlap, so `|` is the sum. *)
Definition readU128LE (buf : list Z) (offset : nat) : result Z :=
  let? lo := read_le 8 offset buf in
  let? hi := read_le 8 (offset + 8) buf in
  inr (Z.lor (Z.shiftl hi 64) lo).

Definition flag (buf : list Z) (offset : nat) : result bool :=
  let? b := read_le 1 offset buf in inr (negb (b =? 0)).

(** The text of the 32 bytes at an offset. *)
Definition key_at (buf : list Z) (offset : nat) : string := toBase58 (key_of_bytes (subarray offset (offset + 32) buf)).

(** A field the account may be too short for. *)
Definition if_long {A} (buf : list Z) (n : nat) (r : result A) : result (option A) :=
  if (n <=? length buf)%nat then let? x := r in inr (Some x) else inr None.

Record BondingCurveAccount : Type := {
  ba_reserves : CurveReserves; ba_creator : option string; ba_isMayhemMode : option bool;
  ba_isCashbackCoin : option bool; ba_quoteMint : option string; rawLength : Z
}.

Definition SOL_PAIRED_SENTINEL : string := toBase58 (key_of_bytes (replicate 32 0)).

Definition decodeBondingCurve (buf : list Z) : result BondingCurveAccount :=
  check negb (discriminatorMatches buf BONDING_CURVE_DISCRIMINATOR) else "account is not a pump.fun BondingCurve";
  check (length buf <? 49)%nat else "BondingCurve too short";
  let? vt := read_le 8 8 buf in
  let? vs := read_le 8 16 buf in
  let? rt := read_le 8 24 buf in
  let? rs := read_le 8 32 buf in
  let? supply := read_le 8 40 buf in
  let? done := flag buf 48 in
  let? creator := if_long buf 81 (inr (key_at buf 49)) in
  let? mayhem := if_long buf 82 (flag buf 81) in
  let? cashback := if_long buf 83 (flag buf 82) in
  let? quote := if_long buf 115 (inr (key_at buf 83)) in
  inr {| ba_reserves := {| virtualSolReserves := vs; virtualTokenReserves := vt; realSolReserves := rs;
           realTokenReserves := rt; tokenTotalSupply := supply; complete := done |};
         ba_creator := creator; ba_isMayhemMode := mayhem; ba_isCashbackCoin := cashback; ba_quoteMint := quote;
         rawLength := Z.of_nat (length buf) |}.

Definition isSolPaired (c : BondingCurveAccount) : bool :=
  match ba_quoteMint c with None => true | Some q => streq q SOL_PAIRED_SENTINEL end.

Record GlobalAccount : Type := {
  authority : string; feeRecipient : string; initialVirtualTokenReserves : Z; initialVirtualSolReserves : Z;
  initialRealTokenReserves : Z; gl_tokenTotalSupply : Z; feeBasisPoints : Z; creatorFeeBasisPoints : option Z;
  feeRecipients : list string
}.

(** The seven rotating recipients, without the empty ones. *)
Definition recipients (buf : list Z) : list string :=
  if (162 + 7 * 32 <=? length buf)%nat
  then List.filter (fun k => negb (streq k SOL_PAIRED_SENTINEL)) (map (fun i => key_at buf (162 + i * 32)) (seq 0 7))
  else [].

Definition decodeGlobal (buf : list Z) : result GlobalAccount :=
  check negb (discriminatorMatches buf GLOBAL_DISCRIMINATOR) else "account is not a pump.fun Global";
  check (length buf <? 105 + 8)%nat else "Global too short";
  let? vt := read_le 8 73 buf in
  let? vs := read_le 8 81 buf in
  let? rt := read_le 8 89 buf in
  let? supply := read_le 8 97 buf in
  let? fee := read_le 8 105 buf in
  let? creatorFee := if_long buf (154 + 8) (read_le 8 154 buf) in
  inr {| authority := key_at buf 9; feeRecipient := key_at buf 41; initialVirtualTokenReserves := vt;
         initialVirtualSolReserves := vs; initialRealTokenReserves := rt; gl_tokenTotalSupply := supply;
         feeBasisPoints := fee; creatorFeeBasisPoints := creatorFee; feeRecipients := recipients buf |}.

Record FeeConfigAccount : Type := { flatFees : Fees; feeTiers : list FeeTier }.

Definition readFees (buf : list Z) (offset : nat) : result Fees :=
  let? lp := read_le 8 offset buf in
  let? protocol := read_le 8 (offset + 8) buf in
  let? creator := read_le 8 (offset + 16) buf in
  inr {| lpFeeBps := lp; protocolFeeBps := protocol; creatorFeeBps := creator |}.

(** The loop over the tiers, which stops where the account ends; a turn takes 40 bytes,
    so there are no more turns than bytes. *)
Fixpoint read_tiers (fuel : nat) (count i : Z) (off : nat) (buf : list Z) : result (list FeeTier) :=
  match fuel with
  | O => inr []
  | S fuel' =>
      if i <? count then
        if (length buf <? off + 40)%nat then inr []
        else
          let? threshold := readU128LE buf off in
          let? f := readFees buf (off + 16) in
          let? rest := read_tiers fuel' count (i + 1) (off + 40) buf in
          inr ({| marketCapLamportsThreshold := threshold; fees := f |} :: rest)
      else inr []
  end.

Definition decodeFeeConfig (buf : list Z) : result FeeConfigAccount :=
  check (length buf <? 65 + 4)%nat else "FeeConfig too short";
  let? flat := readFees buf 41 in
  let? count := read_le 4 65 buf in
  let? tiers := read_tiers (length buf) count 0 69 buf in
  inr {| flatFees := flat; feeTiers := tiers |}.
End Curve.

(** *** No read leaves the buffer *)

Lemma read_le_ok n i buf : (i + n <= length buf)%nat -> exists v, read_le n i buf = inr v.
Proof. intros H. eexists. by apply read_le_within. Qed.

(** Step over the reads of a decoder that are within the buffer. *)
Ltac step_reads :=
  repeat match goal with
  | |- context [rbind (read_le ?n ?i ?b) _] =>
      let v := fresh "v" in let E := fresh "E" in
      destruct (read_le_ok n i b) as [v E]; [lia|]; rewrite E; cbn [rbind]
  end.

Section Within.
Context `{Web3} (buf : list Z).

Lemma if_long_ok {A} n (r : result A) :
  ((n <= length buf)%nat -> exists x, r = inr x) -> exists o, if_long buf n r = inr o.
Proof.
  unfold if_long. intros Hr. destruct (Nat.leb_spec n (length buf)) as [Hn|Hn]; [|by eexists].
  destruct (Hr Hn) as [x ->]. by eexists.
Qed.

Lemma flag_ok i : (i < length buf)%nat -> exists b, flag buf i = inr b.
Proof. intros Hi. unfold flag. step_reads. by eexists. Qed.

Lemma readFees_ok i : (i + 24 <= length buf)%nat -> exists f, readFees buf i = inr f.
Proof. intros Hi. unfold readFees. step_reads. by eexists. Qed.

Lemma readU128LE_ok i : (i + 16 <= length buf)%nat -> exists v, readU128LE buf i = inr v.
Proof. intros Hi. unfold readU128LE. step_reads. by eexists. Qed.

(** With fuel for the bytes left, the tiers read are those the count announces and the
    account holds. *)
Lemma read_tiers_spec fuel count i off :
  (length buf < off + 40 * fuel)%nat ->
  exists l, read_tiers fuel count i off buf = inr l /\
    Z.of_nat (length l) = Z.min (Z.max 0 (count - i)) (Z.of_nat ((length buf - off) / 40)).
Proof.
  revert i off. induction fuel as [|fuel IH]; intros i off Hf; cbn [read_tiers].
  - exists []. split; [done|]. rewrite Nat.div_small by lia. cbn. lia.
  - destruct (Z.ltb_spec i count) as [Hi|Hi]; [|exists []; split; [done|cbn; lia]].
    destruct (Nat.ltb_spec (length buf) (off + 40)) as [Hl|Hl].
    + exists []. split; [done|]. rewrite Nat.div_small by lia. cbn. lia.
    + destruct (readU128LE_ok off ltac:(lia)) as [t ->]. destruct (readFees_ok (off + 16) ltac:(lia)) as [f ->].
      destruct (IH (i + 1) (off + 40)%nat ltac:(lia)) as (l & -> & Hlen). cbn [rbind]. eexists. split; [done|].
      cbn [length]. replace (length buf - off)%nat with ((length buf - (off + 40)) + 1 * 40)%nat by lia.
      rewrite Nat.div_add by lia. lia.
Qed.

(** Whatever the bytes of an account, the decoders answer: a value, or one of their own
    errors; none reads past the end, and the tier table has as many rows as announced
    unless the account ends before. *)
Theorem decoders_stay_inside :
  (forall e, decodeBondingCurve buf = inl e -> e <> "RangeError") /\
  (forall e, decodeGlobal buf = inl e -> e <> "RangeError") /\
  (forall e, decodeFeeConfig buf = inl e -> e <> "RangeError") /\
  (forall c count, decodeFeeConfig buf = inr c -> read_le 4 65 buf = inr count -> 0 <= count ->
     Z.of_nat (length (feeTiers c)) = Z.min count (Z.of_nat ((length buf - 69) / 40))).
Proof.
  split_and!.
  - unfold decodeBondingCurve. destruct (discriminatorMatches _ _); cbn [negb throw_on rbind]; [|by intros ? [= <-]].
    destruct (Nat.ltb_spec (length buf) 49); cbn [throw_on rbind]; [by intros ? [= <-]|]. step_reads.
    destruct (flag_ok 48 ltac:(lia)) as [b ->].
    destruct (if_long_ok 81 (inr (key_at buf 49)) ltac:(by eexists)) as [? ->].
    destruct (if_long_ok 82 (flag buf 81) ltac:(intros; apply flag_ok; lia)) as [? ->].
    destruct (if_long_ok 83 (flag buf 82) ltac:(intros; apply flag_ok; lia)) as [? ->].
    destruct (if_long_ok 115 (inr (key_at buf 83)) ltac:(by eexists)) as [? ->]. done.
  - unfold decodeGlobal. destruct (discriminatorMatches _ _); cbn [negb throw_on rbind]; [|by intros ? [= <-]].
    destruct (Nat.ltb_spec (length buf) (105 + 8)); cbn [throw_on rbind]; [by intros ? [= <-]|]. step_reads.
    destruct (if_long_ok (154 + 8) (read_le 8 154 buf) ltac:(intros; apply read_le_ok; lia)) as [? ->]. done.
  - unfold decodeFeeConfig. destruct (Nat.ltb_spec (length buf) (65 + 4)); cbn [throw_on rbind]; [by intros ? [= <-]|].
    destruct (readFees_ok 41 ltac:(lia)) as [f ->]. step_reads. cbn [rbind].
    destruct (read_tiers_spec (length buf) v 0 69 ltac:(lia)) as (l & -> & _). done.
  - intros c count Hc Hn H0. unfold decodeFeeConfig in Hc. open_result Hc. injection Hc as <-. cbn [feeTiers].
    apply Nat.ltb_ge in Hb. replace a0 with count in Ha1 by congruence.
    destruct (read_tiers_spec (length buf) count 0 69 ltac:(lia)) as (l & Hl & Hlen). rewrite Hl in Ha1. injection Ha1 as <-. lia.
Qed.
End Within.

(** *** Reading an account back, at any of its historical lengths *)

Section ReadBack.
Context `{Web3}.

Definition bit (b : bool) : Z := if b then 1 else 0.

(** The layout of a curve account, the keys as their 32 bytes. *)
Definition curve_bytes (r : CurveReserves) (creator quote : list Z) (mayhem cashback : bool) : list Z :=
  BONDING_CURVE_DISCRIMINATOR ++ le_bytes 8 (virtualTokenReserves r) ++ le_bytes 8 (virtualSolReserves r) ++
  le_bytes 8 (realTokenReserves r) ++ le_bytes 8 (realSolReserves r) ++ le_bytes 8 (tokenTotalSupply r) ++
  [bit (complete r)] ++ creator ++ [bit mayhem] ++ [bit cashback] ++ quote.

Definition reserves_u64 (r : CurveReserves) : Prop :=
  Forall (fun v => 0 <= v < 2 ^ 64)
    [virtualSolReserves r; virtualTokenReserves r; realSolReserves r; realTokenReserves r; tokenTotalSupply r].

(** The fields that end within [n] bytes. *)
Definition curve_fields (n : nat) (r : CurveReserves) (creator quote : list Z) (mayhem cashback : bool) :
    BondingCurveAccount :=
  let within {A} (m : nat) (x : A) : option A := if (m <=? n)%nat then Some x else None in
  {| ba_reserves := r; ba_creator := within 81%nat (toBase58 (key_of_bytes creator)); ba_isMayhemMode := within 82%nat mayhem;
     ba_isCashbackCoin := within 83%nat cashback; ba_quoteMint := within 115%nat (toBase58 (key_of_bytes quote));
     rawLength := Z.of_nat n |}.

Lemma subarray_take m a b buf : (b <= m)%nat -> subarray a b (take m buf) = subarray a b buf.
Proof. intros Hb. unfold subarray. rewrite skipn_firstn_comm, take_take. f_equal. lia. Qed.

Lemma read_le_take m n i buf : (i + n <= m)%nat -> (m <= length buf)%nat -> read_le n i (take m buf) = read_le n i buf.
Proof. intros Hn Hm. rewrite !read_le_within by (rewrite ?length_take; lia). by rewrite subarray_take. Qed.

Lemma subarray_skip l a b buf : (length l <= a)%nat -> subarray a b (l ++ buf) = subarray (a - length l) (b - length l) buf.
Proof. intros Ha. unfold subarray. rewrite drop_app_ge by done. f_equal. lia. Qed.

Lemma read_le_skip n l i buf : (length l <= i)%nat -> read_le n i (l ++ buf) = read_le n (i - length l) buf.
Proof.
  intros Hi. unfold read_le. rewrite length_app, subarray_skip by done.
  replace (i + n - length l)%nat with (i - length l + n)%nat by lia.
  destruct (Nat.ltb_spec (length l + length buf) (i + n)), (Nat.ltb_spec (length buf) (i - length l + n)); try lia; done.
Qed.

Lemma read_le_here n z buf : 0 <= z < 256 ^ Z.of_nat n -> read_le n 0 (le_bytes n z ++ buf) = inr z.
Proof. intros Hz. by apply (read_le_middle [] n z buf). Qed.

Lemma read_bit_here b buf : read_le 1 0 (bit b :: buf) = inr (bit b).
Proof. unfold read_le. cbn. by destruct b. Qed.

Lemma flag_bit b : negb (bit b =? 0) = b.
Proof. by destruct b. Qed.

(** Skip the parts of the layout before a field. *)
Ltac seek :=
  unfold curve_bytes; repeat (rewrite read_le_skip by (rewrite ?length_le_bytes; cbn; lia));
  rewrite ?length_le_bytes; cbn [length Nat.sub BONDING_CURVE_DISCRIMINATOR].

(** The same for a slice. *)
Ltac seek_part :=
  unfold curve_bytes; repeat (rewrite subarray_skip by (rewrite ?length_le_bytes; cbn; lia));
  rewrite ?length_le_bytes; cbn [length Nat.sub BONDING_CURVE_DISCRIMINATOR].

(** An account written in the program's layout and cut to any length from its
    oldest one on reads back: the reserves and the completion flag as they are, and each
    later field exactly when it is whole, never as a default. *)
Theorem curve_reads_back n r creator quote mayhem cashback :
  reserves_u64 r -> length creator = 32%nat -> length quote = 32%nat -> (49 <= n <= 115)%nat ->
  decodeBondingCurve (take n (curve_bytes r creator quote mayhem cashback)) =
  inr (curve_fields n r creator quote mayhem cashback).
Proof.
  intros Hr Hc Hq Hn. unfold reserves_u64 in Hr. rewrite !Forall_cons in Hr. destruct Hr as (H1 & H2 & H3 & H4 & H5 & _).
  assert (length (curve_bytes r creator quote mayhem cashback) = 115%nat) as Hlen
    by (unfold curve_bytes; rewrite !length_app, !length_le_bytes; cbn; lia).
  assert (length (take n (curve_bytes r creator quote mayhem cashback)) = n) as Htake by (rewrite length_take; lia).
  unfold decodeBondingCurve, discriminatorMatches, flag, if_long, key_at. rewrite Htake.
  rewrite (proj2 (Nat.leb_le (length BONDING_CURVE_DISCRIMINATOR) n)) by (cbn; lia).
  rewrite take_take, Nat.min_l by (cbn; lia). rewrite bool_decide_true by done. cbn [andb negb throw_on rbind].
  rewrite (proj2 (Nat.ltb_ge n 49)) by lia. cbn [throw_on rbind].
  assert (forall i, (i <= 40)%nat -> read_le 8 i (take n (curve_bytes r creator quote mayhem cashback)) =
    read_le 8 i (curve_bytes r creator quote mayhem cashback)) as Hread by (intros i Hi; apply read_le_take; lia).
  rewrite !Hread by lia. rewrite (read_le_take n 1 48) by lia.
  replace (read_le 8 8 _) with (inr (virtualTokenReserves r) : result Z) by (symmetry; seek; by apply read_le_here).
  replace (read_le 8 16 _) with (inr (virtualSolReserves r) : result Z) by (symmetry; seek; by apply read_le_here).
  replace (read_le 8 24 _) with (inr (realTokenReserves r) : result Z) by (symmetry; seek; by apply read_le_here).
  replace (read_le 8 32 _) with (inr (realSolReserves r) : result Z) by (symmetry; seek; by apply read_le_here).
  replace (read_le 8 40 _) with (inr (tokenTotalSupply r) : result Z) by (symmetry; seek; by apply read_le_here).
  replace (read_le 1 48 _) with (inr (bit (complete r)) : result Z) by (symmetry; seek; by apply read_bit_here).
  cbn [rbind]. rewrite flag_bit.
  assert (subarray 49 81 (curve_bytes r creator quote mayhem cashback) = creator) as Hcreator.
  { seek_part. cbn [Nat.sub]. rewrite <- Hc. apply (subarray_middle []). }
  assert (subarray 83 115 (curve_bytes r creator quote mayhem cashback) = quote) as Hquote.
  { seek_part. rewrite Hc. unfold subarray. apply take_ge. cbn [length Nat.sub drop]. lia. }
  assert (read_le 1 81 (curve_bytes r creator quote mayhem cashback) = inr (bit mayhem)) as Hmayhem.
  { seek. rewrite Hc. apply read_bit_here. }
  assert (read_le 1 82 (curve_bytes r creator quote mayhem cashback) = inr (bit cashback)) as Hcashback.
  { seek. rewrite Hc. apply read_bit_here. }
  unfold curve_fields.
  destruct (Nat.leb_spec 81 n); cbn [rbind];
    [rewrite (subarray_take n 49 81), Hcreator by lia|rewrite !(proj2 (Nat.leb_gt _ _)) by lia; by destruct r].
  destruct (Nat.leb_spec 82 n); cbn [rbind];
    [rewrite (read_le_take n 1 81), Hmayhem by lia; cbn [rbind]; rewrite flag_bit|rewrite !(proj2 (Nat.leb_gt _ _)) by lia; by destruct r].
  destruct (Nat.leb_spec 83 n); cbn [rbind];
    [rewrite (read_le_take n 1 82), Hcashback by lia; cbn [rbind]; rewrite flag_bit|rewrite !(proj2 (Nat.leb_gt _ _)) by lia; by destruct r].
  destruct (Nat.leb_spec 115 n); cbn [rbind];
    [rewrite (subarray_take n 83 115), Hquote by lia|]; by destruct r.
Qed.
End ReadBack.

(** *** Witness *)

(** Keys as their bytes, texts as their characters. *)
Definition demo_web3 : Web3 := {|
  PublicKey := list Z; key_of_bytes := fun l => l; key_of_text := fun s => inr (bytes_of_text s); key_const := bytes_of_text;
  toBuffer := fun l => l; toBase58 := fun l => String.string_of_list_ascii (map (fun b => ascii_of_nat (Z.to_nat b)) l);
  findProgramAddress := fun seeds program => List.concat seeds ++ program |}.

(** An account of the length before the mayhem flag. *)
Lemma curve_reads_back_witness :
  reserves_u64 demo_curve /\
  @decodeBondingCurve demo_web3 (take 81 (curve_bytes demo_curve (replicate 32 65) (replicate 32 0) true true)) =
  inr (@curve_fields demo_web3 81 demo_curve (replicate 32 65) (replicate 32 0) true true).
Proof.
  assert (reserves_u64 demo_curve) as Hr by (unfold reserves_u64; repeat (constructor; [cbn; lia|]); constructor).
  split; [exact Hr|].
  apply (@curve_reads_back demo_web3 81 demo_curve (replicate 32 65) (replicate 32 0) true true Hr eq_refl eq_refl). lia.
Defined.
