(* ===== verification/Bins.v ===== *)
(** `src/pools/meteora/bins.ts`: bin ranges and the split of a deposit over bins.

    Bin ids are [Z]: a `number` that is no integer is refused by `assertBinId`.
    Weights are exact rationals where the code has doubles, and `Math.exp` is a
    parameter; what the split promises holds for any weights.  The UI price of a
    bin, shown with its amount, is left out, not the checks it makes. *)
From stdpp Require Import sorting.
From S2P Require Import Prelude Doubles.
From Stdlib Require Import QArith Qround.
#[local] Open Scope string_scope.
#[local] Open Scope list_scope.
#[local] Open Scope Z_scope.
#[local] Open Scope result_scope.

Definition MAX_BIN_PER_POSITION : Z := 70.
Definition MAX_BIN_PER_ARRAY : Z := 70.
Definition MAX_BIN_STEP : Z := 400.
Definition MAX_BIN_ID : Z := 351639.
Definition MIN_BIN_ID : Z := -351639.

Definition assertBinStep (binStep : Z) : result unit :=
  throw_on ((binStep <=? 0) || (MAX_BIN_STEP <? binStep)) "binStep must be an integer in 1..400".

Definition assertBinId (binId : Z) : result unit :=
  throw_on ((binId <? MIN_BIN_ID) || (MAX_BIN_ID <? binId)) "binId out of range".

Definition binSpan (lowerBinId upperBinId : Z) : Z := upperBinId - lowerBinId + 1.

Record BinRange : Type := { lowerBinId : Z; upperBinId : Z }.

(** *** Ranges *)

(** The loop that shrinks the wider side; [fuel] the sum of the sides is enough. *)
Fixpoint shrink (fuel : nat) (cap lo hi : Z) : Z * Z :=
  match fuel with
  | O => (lo, hi)
  | S fuel' =>
      if cap <? lo + hi + 1 then
        if hi <=? lo then shrink fuel' cap (lo - 1) hi else shrink fuel' cap lo (hi - 1)
      else (lo, hi)
  end.

Definition rangeAroundActive (activeBinId below above maxSpan : Z) : result BinRange :=
  let? _u := assertBinId activeBinId in
  check (below <? 0) || (above <? 0) else "below/above must be non-negative integers";
  let cap := Z.max 1 (Z.min maxSpan MAX_BIN_PER_POSITION) in
  let '(lo, hi) := shrink (Z.to_nat (below + above)) cap below above in
  inr {| lowerBinId := Z.max MIN_BIN_ID (activeBinId - lo); upperBinId := Z.min MAX_BIN_ID (activeBinId + hi) |}.

Definition isActiveInRange (range : BinRange) (activeBinId : Z) : bool :=
  (lowerBinId range <=? activeBinId) && (activeBinId <=? upperBinId range).

Definition binDrift (range : BinRange) (activeBinId : Z) : Z :=
  if upperBinId range <? activeBinId then activeBinId - upperBinId range
  else if activeBinId <? lowerBinId range then activeBinId - lowerBinId range
  else 0.

Definition activePositionInRange (range : BinRange) (activeBinId : Z) : option number :=
  if isActiveInRange range activeBinId then
    let span := binSpan (lowerBinId range) (upperBinId range) in
    if span <=? 1 then Some (Finite (1 # 2))
    else Some (num_div (js_num (activeBinId - lowerBinId range)) (js_num (span - 1)))
  else None.

Definition binArrayIndicesFor (range : BinRange) : list Z :=
  let first := lowerBinId range / MAX_BIN_PER_ARRAY in
  let last := upperBinId range / MAX_BIN_PER_ARRAY in
  seqZ first (last - first + 1).

(** *** Weights *)

Inductive LiquidityShape : Type := spot | curve | bidask.

Section Shapes.
(** `Math.exp` *)
Context (exp : Q -> Q).

Definition shapeWeights (shape : LiquidityShape) (range : BinRange) (activeBinId : Z) : result (list Q) :=
  let span := binSpan (lowerBinId range) (upperBinId range) in
  check span <=? 0 else "empty range";
  let centre := Z.min (Z.max activeBinId (lowerBinId range)) (upperBinId range) in
  let offsets := map (fun i => lowerBinId range + Z.of_nat i - centre) (seq 0 (Z.to_nat span)) in
  match shape with
  | spot => inr (replicate (Z.to_nat span) 1%Q)
  | curve =>
      let sigma := if Qle_bool (inject_Z span / 4) (1 # 2) then (1 # 2)%Q else (inject_Z span / 4)%Q in
      inr (map (fun d => let z := (inject_Z d / sigma)%Q in (exp (- (1 # 2) * z * z) + (1 # 1000000000))%Q) offsets)
  | bidask =>
      let reach := Z.max (Z.max (centre - lowerBinId range) (upperBinId range - centre)) 1 in
      inr (map (fun d => (inject_Z (Z.abs d) / inject_Z reach + (1 # 20))%Q) offsets)
  end.
End Shapes.

(** *** Splitting an amount *)

Definition WEIGHT_SCALE : Z := 1000000000.

(** `weights.reduce((a, b) => a + b, 0)` *)
Definition weight_sum (weights : list Q) : Q := fold_left Qplus weights 0%Q.

(** `BigInt(Math.round((w / floatSum) * Number(WEIGHT_SCALE)))` *)
Definition scale (sum w : Q) : Z := Qfloor (w / sum * inject_Z WEIGHT_SCALE + (1 # 2))%Q.

Fixpoint scale_all (sum : Q) (weights : list Q) : result (list Z) :=
  match weights with
  | [] => inr []
  | w :: ws =>
      check negb (Qle_bool 0 w) else "weight must be finite and non-negative";
      let? rest := scale_all sum ws in
      inr (scale sum w :: rest)
  end.

(** The order of `remainders.sort(...)`: the larger first, then by position. *)
Definition rem_le (a b : Z * nat) : Prop := b.1 < a.1 \/ (b.1 = a.1 /\ (a.2 <= b.2)%nat).

#[export] Instance rem_le_dec : RelDecision rem_le.
Proof. intros a b. unfold rem_le. apply _. Defined.

(** `while (assigned < total && k < remainders.length)` *)
Fixpoint hand_out (order : list nat) (assigned total : Z) (out : list Z) : list Z :=
  match order with
  | [] => out
  | i :: rest => if assigned <? total then hand_out rest (assigned + 1) total (alter Z.succ i out) else out
  end.

(** The integer part of `distributeAmount`, on the scaled weights. *)
Definition apportion (total : Z) (scaled : list Z) : list Z :=
  let weightSum := sum_by id scaled in
  let out := map (fun s => Z.quot (total * s) weightSum) scaled in
  let rems := imap (fun i s => (Z.rem (total * s) weightSum, i)) scaled in
  hand_out (map snd (merge_sort rem_le rems)) (sum_by id out) total out.

Definition distributeAmount (total : Z) (weights : list Q) : result (list Z) :=
  check negb (0 <? Z.of_nat (length weights)) else "cannot distribute across zero bins";
  check total <? 0 else "total must be non-negative";
  check Qle_bool (weight_sum weights) 0 else "weights must sum to a finite positive number";
  if total =? 0 then inr (map (fun _ => 0) weights)
  else
    let? scaled := scale_all (weight_sum weights) weights in
    check sum_by id scaled <=? 0 else "weights round to zero at the working precision";
    inr (apportion total scaled).

Inductive Side : Type := base | quote.

Record BinAllocation : Type := { binId : Z; al_amount : Z }.

(** The bins of a range that the side funds. *)
Definition funded_bins (range : BinRange) (activeBinId : Z) (side : Side) : list Z :=
  List.filter (fun b => match side with quote => b <=? activeBinId | base => activeBinId <=? b end)
    (seqZ (lowerBinId range) (binSpan (lowerBinId range) (upperBinId range))).

Fixpoint allocations (binStep : Z) (bins amounts : list Z) : result (list BinAllocation) :=
  match bins, amounts with
  | b :: bs, a :: ams =>
      let? _u := assertBinStep binStep in
      let? _u := assertBinId b in
      let? rest := allocations binStep bs ams in
      inr ({| binId := b; al_amount := a |} :: rest)
  | _, _ => inr []
  end.

Definition planDeposit (exp : Q -> Q) (range : BinRange) (activeBinId binStep : Z) (shape : LiquidityShape)
    (amount : Z) (side : Side) : result (list BinAllocation) :=
  match funded_bins range activeBinId side with
  | [] => inr []
  | b :: bs =>
      let subRange := {| lowerBinId := b; upperBinId := List.last bs b |} in
      let? weights := shapeWeights exp shape subRange activeBinId in
      let? amounts := distributeAmount amount weights in
      allocations binStep (b :: bs) amounts
  end.

Example apportion_thirds : apportion 100 [1; 1; 1] = [34; 33; 33].
Proof. by vm_compute. Qed.

Example shrink_wide : rangeAroundActive 10 60 40 70 = inr {| lowerBinId := -24; upperBinId := 45 |}.
Proof. by vm_compute. Qed.

(** *** Ranges *)

Lemma shrink_fits fuel cap lo hi :
  1 <= cap -> 0 <= lo -> 0 <= hi -> lo + hi <= Z.of_nat fuel ->
  let '(lo', hi') := shrink fuel cap lo hi in
  0 <= lo' <= lo /\ 0 <= hi' <= hi /\ lo' + hi' + 1 <= cap /\ (lo + hi + 1 <= cap -> lo' = lo /\ hi' = hi).
Proof.
  intros Hcap. revert lo hi. induction fuel as [|fuel IH]; intros lo hi Hlo Hhi Hf; cbn [shrink]; [lia|].
  destruct (Z.ltb_spec cap (lo + hi + 1)); [|lia]. destruct (Z.leb_spec hi lo).
  - specialize (IH (lo - 1) hi). destruct (shrink fuel cap (lo - 1) hi). lia.
  - specialize (IH lo (hi - 1)). destruct (shrink fuel cap lo (hi - 1)). lia.
Qed.

(** A range around the active bin contains it, fits a position, and is the one
    asked for when that fits. *)
Lemma rangeAroundActive_spec active below above maxSpan r :
  rangeAroundActive active below above maxSpan = inr r ->
  isActiveInRange r active = true /\ binDrift r active = 0 /\
  1 <= binSpan (lowerBinId r) (upperBinId r) <= MAX_BIN_PER_POSITION /\
  MIN_BIN_ID <= lowerBinId r /\ upperBinId r <= MAX_BIN_ID /\
  active - below <= lowerBinId r /\ upperBinId r <= active + above.
Proof.
  unfold rangeAroundActive. intros H. open_result H. unfold assertBinId in Ha. apply throw_on_inr in Ha. bool_hyps.
  pose proof (shrink_fits (Z.to_nat (below + above)) (Z.max 1 (Z.min maxSpan MAX_BIN_PER_POSITION)) below above) as Hs.
  destruct (shrink _ _ _ _) as [lo hi]. injection H as <-. unfold isActiveInRange, binDrift, binSpan. simpl.
  unfold MAX_BIN_PER_POSITION, MIN_BIN_ID, MAX_BIN_ID in *.
  destruct Hs as (? & ? & ? & _); try lia. rewrite andb_true_iff, !Z.leb_le.
  destruct (Z.ltb_spec (Z.min 351639 (active + hi)) active); [lia|].
  destruct (Z.ltb_spec active (Z.max (-351639) (active - lo))); lia.
Qed.

(** *** Splitting *)

Section HandOut.
Implicit Types (order : list nat) (out : list Z).

Lemma sum_alter i out : (i < length out)%nat -> sum_by id (alter Z.succ i out) = sum_by id out + 1.
Proof.
  revert i. induction out as [|x out IH]; intros i Hi; simpl in Hi; [lia|]. destruct i as [|i].
  - change (alter Z.succ 0%nat (x :: out)) with (Z.succ x :: out). rewrite !sum_by_cons. unfold id. lia.
  - change (alter Z.succ (S i) (x :: out)) with (x :: alter Z.succ i out). rewrite !sum_by_cons, IH by lia. lia.
Qed.

(** Every index gets at most one more, while there is something to hand out. *)
Lemma hand_out_spec order assigned total out :
  NoDup order -> (forall i, i ∈ order -> (i < length out)%nat) -> assigned <= total ->
  total - assigned <= Z.of_nat (length order) ->
  length (hand_out order assigned total out) = length out /\
  sum_by id (hand_out order assigned total out) = sum_by id out + (total - assigned) /\
  forall j x, out !! j = Some x ->
    hand_out order assigned total out !! j =
      Some (if bool_decide (j ∈ take (Z.to_nat (total - assigned)) order) then x + 1 else x).
Proof.
  revert assigned out. induction order as [|i order IH]; intros assigned out Hnd Hin Hle Hlen; cbn [hand_out].
  - simpl in Hlen. split_and!; [done|lia|]. intros j x Hj. by rewrite take_nil.
  - apply NoDup_cons in Hnd as [Hni Hnd]. destruct (Z.ltb_spec assigned total).
    + assert ((i < length out)%nat) as Hi by (apply Hin; left).
      destruct (IH (assigned + 1) (alter Z.succ i out)) as (Lh & Sh & P); try done; try lia.
      { intros k Hk. rewrite length_alter. apply Hin. by right. }
      { simpl in Hlen. lia. }
      rewrite Lh, Sh, length_alter, sum_alter by done. split_and!; [done|lia|]. intros j x Hj.
      replace (Z.to_nat (total - assigned)) with (S (Z.to_nat (total - (assigned + 1)))) by lia. simpl.
      destruct (decide (j = i)) as [-> |Hne].
      * rewrite (P i (x + 1)) by (by rewrite list_lookup_alter_eq, Hj).
        rewrite bool_decide_false by (intros Hk; apply Hni; by apply elem_of_take in Hk as (? & ?%list_elem_of_lookup_2 & _)).
        by rewrite bool_decide_true by (left).
      * rewrite (P j x) by (by rewrite list_lookup_alter_ne). f_equal.
        rewrite (bool_decide_ext (j ∈ take _ order) (j ∈ i :: take (Z.to_nat (total - (assigned + 1))) order)); [done|].
        rewrite elem_of_cons. split; [by right|]. by intros [?|?].
    + replace (total - assigned) with 0 by lia. split_and!; [done|lia|]. intros j x Hj. done.
Qed.
End HandOut.

Lemma sum_fst_imap (f : Z -> Z) l : sum_by fst (imap (fun i s => (f s, i)) l) = sum_by f l.
Proof. induction l as [|s l IH] using rev_ind; [done|]. by rewrite imap_app, !sum_by_app, IH. Qed.

Lemma sum_by_bound {A} (f : A -> Z) b l : (forall x, x ∈ l -> f x <= b) -> sum_by f l <= b * Z.of_nat (length l).
Proof.
  induction l as [|x l IH]; intros H; [unfold sum_by; simpl; lia|]. rewrite sum_by_cons. simpl.
  pose proof (H x (list_elem_of_here _ _)). specialize (IH (fun y Hy => H y (list_elem_of_further _ _ _ Hy))). lia.
Qed.

Section Apportion.
Context (total : Z) (scaled : list Z) (Htotal : 0 <= total) (Hscaled : forall s, s ∈ scaled -> 0 <= s)
        (Hsum : 0 < sum_by id scaled).

Let W : Z := sum_by id scaled.
Let share (s : Z) : Z := Z.quot (total * s) W.
Let rem (s : Z) : Z := Z.rem (total * s) W.
Let rems : list (Z * nat) := imap (fun i s => (rem s, i)) scaled.
Let order : list nat := map snd (merge_sort rem_le rems).

Lemma share_rem s : 0 <= s -> W * share s + rem s = total * s /\ 0 <= rem s < W /\ 0 <= share s.
Proof.
  intros Hs. unfold share, rem. pose proof (Z.quot_rem' (total * s) W). pose proof (Z.rem_bound_pos (total * s) W).
  pose proof (Z.quot_pos (total * s) W). fold W in Hsum. nia.
Qed.

Lemma rems_elem x i : (x, i) ∈ rems <-> exists s, scaled !! i = Some s /\ x = rem s.
Proof.
  unfold rems. rewrite elem_of_lookup_imap. split.
  - intros (j & s & [= -> ->] & Hj). eauto.
  - intros (s & Hs & ->). eauto.
Qed.

Lemma rems_bound p : p ∈ rems -> 0 <= p.1 < W.
Proof.
  destruct p as [x i]. intros (s & Hs & ->)%rems_elem. apply share_rem, Hscaled. by eapply list_elem_of_lookup_2.
Qed.

Lemma rems_indices : map snd rems = seq 0 (length scaled).
Proof.
  change (snd <$> imap (fun i s => (rem s, i)) scaled = seq 0 (length scaled)).
  rewrite fmap_imap, <- (list_fmap_id (seq 0 _)), <- (imap_seq_0 scaled id). by apply imap_ext.
Qed.

Lemma order_perm : order ≡ₚ seq 0 (length scaled).
Proof. unfold order. rewrite <- rems_indices. apply Permutation_map, merge_sort_Permutation. Qed.

(** What the floors leave over, times the sum of the weights. *)
Lemma remainder_sum : W * (total - sum_by share scaled) = sum_by rem scaled.
Proof.
  assert (forall l, (forall s, s ∈ l -> 0 <= s) -> W * sum_by share l + sum_by rem l = total * sum_by id l) as H.
  { induction l as [|s l IH]; intros Hl; [unfold sum_by; simpl; lia|]. rewrite !sum_by_cons. change (id s) with s.
    destruct (share_rem s) as [E _]; [apply Hl; left|]. specialize (IH (fun x Hx => Hl x (list_elem_of_further _ _ _ Hx))). lia. }
  specialize (H scaled Hscaled). fold W in H. lia.
Qed.

Lemma remainder_bounds : 0 <= sum_by rem scaled <= (W - 1) * Z.of_nat (length scaled).
Proof.
  split.
  - apply sum_by_nonneg. intros s Hs. apply share_rem. by apply Hscaled.
  - apply sum_by_bound. intros s Hs. pose proof (share_rem s (Hscaled s Hs)). lia.
Qed.

Lemma shortfall_bounds : 0 <= total - sum_by share scaled <= Z.of_nat (length scaled).
Proof. pose proof remainder_sum. pose proof remainder_bounds. fold W in Hsum. nia. Qed.

#[local] Instance rem_le_trans : Transitive rem_le.
Proof. intros a b c. unfold rem_le. lia. Qed.

#[local] Instance rem_le_total : Total rem_le.
Proof. intros a b. unfold rem_le. lia. Qed.

(** A share without a remainder gets nothing more. *)
Lemma handed_positive j s :
  scaled !! j = Some s -> j ∈ take (Z.to_nat (total - sum_by share scaled)) order -> 0 < rem s.
Proof.
  intros Hj (p & Hp & Hlt)%elem_of_take. set (d := total - sum_by share scaled) in *.
  unfold order in Hp. change map with (@fmap list list_fmap) in Hp.
  assert ((snd <$> merge_sort rem_le rems) !! p = Some j) as Hp' by exact Hp. clear Hp.
  apply list_lookup_fmap_Some in Hp' as ([x i] & Hji & Hx). simpl in Hji. subst i.
  pose proof (merge_sort_Permutation rem_le rems) as Hperm.
  assert ((x, j) ∈ rems) as Hin by (rewrite <- Hperm; by eapply list_elem_of_lookup_2).
  apply rems_elem in Hin as (s' & Hs' & ->). rewrite Hj in Hs'. injection Hs' as <-.
  assert (0 <= rem s) by (apply share_rem, Hscaled; by eapply list_elem_of_lookup_2).
  apply Z.nle_gt. intros Hle. assert (rem s = 0) as Hz by lia. rewrite Hz in Hx.
  pose proof (StronglySorted_merge_sort rem_le rems) as Hsorted.
  rewrite <- (take_drop_middle _ _ _ Hx) in Hsorted, Hperm.
  set (pre := take p _) in *. set (post := drop (S p) _) in *.
  assert (forall y, y ∈ post -> y.1 <= 0) as Hpost.
  { intros y Hy. apply StronglySorted_app_1_r in Hsorted. apply StronglySorted_inv in Hsorted as [_ Hall].
    rewrite Forall_forall in Hall. specialize (Hall y Hy). unfold rem_le in Hall. simpl in Hall. lia. }
  assert (forall y, y ∈ pre -> y.1 <= W - 1) as Hpre.
  { intros y Hy. assert (y ∈ rems) as Hin by (rewrite <- Hperm; apply elem_of_app; by left). pose proof (rems_bound y Hin). lia. }
  pose proof (sum_by_perm fst _ _ Hperm) as Hfst. rewrite sum_by_app, sum_by_cons in Hfst. simpl in Hfst.
  unfold rems in Hfst. rewrite sum_fst_imap in Hfst.
  pose proof (sum_by_bound fst (W - 1) pre Hpre). pose proof (sum_by_bound fst 0 post Hpost).
  assert (Z.of_nat (length pre) <= Z.of_nat p) by (unfold pre; rewrite length_take; lia).
  pose proof remainder_sum as Hr. fold d in Hr. fold W in Hsum.
  assert (Z.of_nat p < d) by lia. nia.
Qed.

(** Nothing is lost or invented, and every bin gets its share to within one unit. *)
Lemma apportion_exact :
  let out := apportion total scaled in
  length out = length scaled /\ sum_by id out = total /\
  forall i s a, scaled !! i = Some s -> out !! i = Some a -> 0 <= a /\ Z.abs (a * W - total * s) < W.
Proof.
  unfold apportion. fold W. change (map (fun s => Z.quot (total * s) W) scaled) with (map share scaled).
  change (imap _ scaled) with rems. change (map snd (merge_sort rem_le rems)) with order.
  rewrite sum_by_map. change (sum_by (fun x => id (share x)) scaled) with (sum_by share scaled).
  pose proof shortfall_bounds as Hd. pose proof order_perm as Hperm.
  assert (length order = length scaled) as Hlen by (by rewrite Hperm, length_seq).
  destruct (hand_out_spec order (sum_by share scaled) total (map share scaled)) as (Lh & Sh & Ph).
  - rewrite Hperm. apply NoDup_seq.
  - intros i. rewrite Hperm, elem_of_seq, length_map. lia.
  - lia.
  - lia.
  - split_and!.
    + by rewrite Lh, length_map.
    + rewrite Sh, sum_by_map. change (sum_by (fun x => id (share x)) scaled) with (sum_by share scaled). lia.
    + intros i s a Hs Ha. assert (map share scaled !! i = Some (share s)) as Hi
        by (change (map share scaled) with (share <$> scaled); by rewrite list_lookup_fmap, Hs).
      rewrite (Ph i _ Hi) in Ha. pose proof (share_rem s (Hscaled s (list_elem_of_lookup_2 _ _ _ Hs))).
      case_bool_decide as Hb; injection Ha as <-; [|lia]. pose proof (handed_positive i s Hs Hb). lia.
Qed.
End Apportion.

(** *** Deposits *)

Lemma scale_nonneg sum w : (0 < sum)%Q -> (0 <= w)%Q -> 0 <= scale sum w.
Proof.
  intros Hs Hw. unfold scale. rewrite <- (Qfloor_Z 0). apply Qfloor_resp_le. change (inject_Z 0) with 0%Q.
  rewrite <- (Qplus_0_r 0). apply Qplus_le_compat; [|done]. apply Qmult_le_0_compat; [|done].
  by apply Qle_shift_div_l; [done|rewrite Qmult_0_l].
Qed.

Lemma scale_all_spec sum ws sc :
  (0 < sum)%Q -> scale_all sum ws = inr sc -> sc = map (scale sum) ws /\ forall s, s ∈ sc -> 0 <= s.
Proof.
  intros Hs. revert sc. induction ws as [|w ws IH]; intros sc H; cbn [scale_all] in H.
  - injection H as <-. split; [done|]. by intros s ?%elem_of_nil.
  - open_result H. injection H as <-. destruct (IH _ Ha) as [-> Hn]. bool_hyps. split; [done|].
    intros s [-> |Hin]%elem_of_cons; [|by apply Hn]. apply scale_nonneg; [done|]. by apply Qle_bool_iff.
Qed.

(** The fixed-point weights a split is computed with. *)
Definition scaled_weights (weights : list Q) : list Z := map (scale (weight_sum weights)) weights.

(** `distributeAmount` splits the whole amount, each bin within one unit of its part. *)
Lemma distribute_spec total weights out :
  distributeAmount total weights = inr out ->
  length out = length weights /\ sum_by id out = total /\
  forall i s a, scaled_weights weights !! i = Some s -> out !! i = Some a ->
    0 <= a /\ (0 < total -> Z.abs (a * sum_by id (scaled_weights weights) - total * s) < sum_by id (scaled_weights weights)).
Proof.
  unfold distributeAmount. intros H. open_result H. bool_hyps. destruct (Z.eqb_spec total 0) as [-> |Hne].
  - injection H as <-. split_and!; [by rewrite length_map| |].
    + rewrite sum_by_map. clear. induction weights as [|w ws IH]; [done|]. by rewrite sum_by_cons, IH.
    + intros i s a _ Ha. change (map (fun _ => 0) weights) with ((fun _ : Q => 0) <$> weights) in Ha.
      apply list_lookup_fmap_Some in Ha as (w & -> & _). lia.
  - assert (0 < weight_sum weights)%Q as Hw by (apply Qnot_le_lt; intros Hle%Qle_bool_iff; congruence).
    open_result H. injection H as <-. bool_hyps. destruct (scale_all_spec _ _ _ Hw Ha) as [E Hn].
    fold (scaled_weights weights) in E. subst a. destruct (apportion_exact total (scaled_weights weights)) as (L & S & P); try done; try lia.
    split_and!; [by rewrite L; unfold scaled_weights; rewrite length_map|done|].
    intros i s a Hs Hi. destruct (P i s a Hs Hi). split; [done|]. intros _. done.
Qed.

Lemma filter_below l n a :
  List.filter (fun b => b <=? a) (seqZ l (Z.of_nat n)) = seqZ l (Z.of_nat (Z.to_nat (Z.min (Z.of_nat n) (a - l + 1)))).
Proof.
  induction n as [|n IH]; [by replace (Z.to_nat _) with 0%nat by lia|].
  rewrite seqZ_S, List.filter_app, IH. simpl. destruct (Z.leb_spec (l + Z.of_nat n) a).
  - replace (Z.to_nat (Z.min (Z.of_nat (S n)) (a - l + 1))) with (S n) by lia.
    replace (Z.to_nat (Z.min (Z.of_nat n) (a - l + 1))) with n by lia. by rewrite seqZ_S.
  - rewrite app_nil_r. do 2 f_equal. lia.
Qed.

Lemma filter_above l n a :
  List.filter (fun b => a <=? b) (seqZ l (Z.of_nat n)) =
  seqZ (Z.max l a) (Z.of_nat (Z.to_nat (l + Z.of_nat n - Z.max l a))).
Proof.
  induction n as [|n IH]; [by replace (Z.to_nat _) with 0%nat by lia|].
  rewrite seqZ_S, List.filter_app, IH. simpl. destruct (Z.leb_spec a (l + Z.of_nat n)).
  - replace (Z.to_nat (l + Z.of_nat (S n) - Z.max l a)) with (S (Z.to_nat (l + Z.of_nat n - Z.max l a))) by lia.
    rewrite seqZ_S. do 2 f_equal. lia.
  - rewrite app_nil_r. f_equal. lia.
Qed.

(** The funded bins are a run of bins. *)
Lemma funded_run range active side : exists lo n, funded_bins range active side = seqZ lo (Z.of_nat n).
Proof.
  unfold funded_bins. set (span := binSpan _ _).
  assert (seqZ (lowerBinId range) span = seqZ (lowerBinId range) (Z.of_nat (Z.to_nat span))) as ->
    by (unfold seqZ; by rewrite Nat2Z.id).
  destruct side; rewrite ?filter_above, ?filter_below; eauto.
Qed.

Lemma run_last lo n b bs : b :: bs = seqZ lo (Z.of_nat n) -> binSpan b (List.last bs b) = Z.of_nat n.
Proof.
  destruct n as [|n]; [done|]. intros E. assert (List.last (b :: bs) b = lo + Z.of_nat n) as Hl by (by rewrite E, seqZ_S, last_last).
  assert (b = lo) as Hb.
  { rewrite seqZ_cons in E by lia. by injection E. }
  unfold binSpan. destruct bs as [|c bs]; simpl in *; lia.
Qed.

Lemma shape_length exp shape range active ws :
  shapeWeights exp shape range active = inr ws -> Z.of_nat (length ws) = binSpan (lowerBinId range) (upperBinId range).
Proof.
  unfold shapeWeights. intros H. open_result H. bool_hyps.
  destruct shape; injection H as <-; rewrite ?length_replicate, ?length_map, ?length_seq; lia.
Qed.

Lemma allocations_spec step bins amounts plan :
  length amounts = length bins -> allocations step bins amounts = inr plan ->
  map binId plan = bins /\ map al_amount plan = amounts.
Proof.
  revert amounts plan. induction bins as [|b bins IH]; intros [|a amounts] plan Hl H; cbn [allocations] in H; try done.
  - by injection H as <-.
  - open_result H. injection H as <-. injection Hl as Hl. destruct (IH _ _ Hl Ha1) as [E1 E2]. simpl. by rewrite E1, E2.
Qed.

(** A planned deposit spends exactly the amount: when the range has a bin the
    side funds, the plan lists exactly those bins in order (quote at or below the
    active bin, base at or above it), its amounts are not negative and sum to the
    amount, and each is within one base unit of the part its fixed-point weight
    gives. *)
Theorem deposit_exact exp range active step shape amount side plan :
  planDeposit exp range active step shape amount side = inr plan ->
  map binId plan = funded_bins range active side /\
  (forall b, b ∈ map binId plan -> lowerBinId range <= b <= upperBinId range /\
     match side with quote => b <= active | base => active <= b end) /\
  (plan <> [] ->
   sum_by al_amount plan = amount /\
   exists weights, length weights = length plan /\
     let W := sum_by id (scaled_weights weights) in
     forall i s al, scaled_weights weights !! i = Some s -> plan !! i = Some al ->
       0 <= al_amount al /\ (0 < amount -> Z.abs (al_amount al * W - amount * s) < W)).
Proof.
  unfold planDeposit. intros H. destruct (funded_run range active side) as (lo & n & E).
  assert (forall b, b ∈ funded_bins range active side -> lowerBinId range <= b <= upperBinId range /\
     match side with quote => b <= active | base => active <= b end) as Hin.
  { intros b [Hb%list_elem_of_In%elem_of_seqZ Hs]%list_elem_of_In%filter_In. unfold binSpan in Hb. split; [lia|].
    destruct side; bool_hyps; lia. }
  destruct (funded_bins range active side) as [|b bs] eqn:Ef.
  { injection H as <-. split_and!; try done. }
  open_result H. pose proof (distribute_spec _ _ _ Ha0) as (L & S & P).
  pose proof (shape_length _ _ _ _ _ Ha) as Hlen. cbn [lowerBinId upperBinId] in Hlen. rewrite (run_last lo n) in Hlen by done.
  assert (length (b :: bs) = n) as Hn by (rewrite E, length_seqZ; lia).
  assert (length a0 = length (b :: bs)) as Hab by lia.
  destruct (allocations_spec _ _ _ _ Hab H) as [E1 E2]. rewrite E1. split_and!; [done|exact Hin|].
  intros _. split.
  - rewrite <- S, <- E2, sum_by_map. done.
  - exists a. split.
    + assert (length (map al_amount plan) = length a0) as Hp by (by rewrite E2). rewrite length_map in Hp. lia.
    + intros i s al Hs Hal. apply (P i s (al_amount al) Hs). rewrite <- E2.
      change (map al_amount plan) with (al_amount <$> plan). by rewrite list_lookup_fmap, Hal.
Qed.

Definition demo_range : BinRange := {| lowerBinId := 100; upperBinId := 102 |}.

Definition demo_plan : list BinAllocation :=
  [{| binId := 100; al_amount := 34 |}; {| binId := 101; al_amount := 33 |}; {| binId := 102; al_amount := 33 |}].

Lemma deposit_exact_witness : map binId demo_plan = funded_bins demo_range 105 quote /\ sum_by al_amount demo_plan = 100.
Proof.
  destruct (deposit_exact (fun _ => 1%Q) demo_range 105 20 spot 100 quote demo_plan eq_refl) as (H1 & _ & H3).
  split; [exact H1|]. apply H3. discriminate.
Defined.
