(* ===== verification/Events.v ===== *)
(** `src/autonomy/events/index.ts`: event envelopes, the buses and the market
    triggers.

    Calls on a bus are made one at a time: a handler that publishes, or a publish
    while another handler waits, is not modelled.  A handler is a function of the
    event and of the tables of its own ([U]); what it did is undone when it
    throws, as the transaction it runs in is rolled back.  The callbacks of the
    configuration (schemas, filters) are functions.  A payload is a [value] whose
    numbers are integers. *)
From stdpp Require Import gmap sets pretty.
From S2P Require Import Prelude Money Canonical Schedule.
From Stdlib Require Import Ascii.
#[local] Open Scope string_scope.
#[local] Open Scope list_scope.
#[local] Open Scope Z_scope.
#[local] Open Scope result_scope.

(** *** Envelopes *)

Inductive Finality : Type := unsafe | safe | finalized.

Record ChainPosition : Type := { cp_number : Z; cp_hash : string; cp_parentHash : string; cp_finality : Finality }.

Record EventEnvelope : Type := {
  ev_id : string; ev_type : string; ev_version : Z; ev_source : string; ev_correlationId : string;
  ev_causationId : option string; ev_occurredAt : string; ev_block : option ChainPosition;
  ev_provenance : option value; ev_payload : value
}.

Record EnvelopeInput : Type := {
  in_type : string; in_payload : value; in_source : string; in_version : option Z;
  in_correlationId : option string; in_causationId : option string; in_block : option ChainPosition;
  in_provenance : option value
}.

Definition nonempty_text (s : string) : bool := nonempty (trim (String.list_ascii_of_string s)).

Definition position_invalid (p : ChainPosition) : bool :=
  negb (nonempty_text (cp_hash p)) || negb (nonempty_text (cp_parentHash p)) || (cp_number p <? 0).

(** [id] and [occurredAt] are what `input.id`, or the random one, and the clock give. *)
Definition createEnvelope (i : EnvelopeInput) (id occurredAt : string) : result EventEnvelope :=
  let version := default 1 (in_version i) in
  check negb (nonempty_text (in_type i)) || negb (nonempty_text (in_source i)) || negb (isSafeInteger version) ||
        (version <? 1) else "invalid event envelope";
  check match in_block i with Some p => position_invalid p | None => false end else "invalid chain position";
  inr {| ev_id := id; ev_type := in_type i; ev_version := version; ev_source := in_source i;
         ev_correlationId := default id (in_correlationId i); ev_causationId := truthy (in_causationId i);
         ev_occurredAt := occurredAt; ev_block := in_block i; ev_provenance := in_provenance i;
         ev_payload := in_payload i |}.

Section Reorg.
(** `createHash("sha256")`, in hexadecimal. *)
Context (sha256 : string -> string).

Definition reorgCorrection (original : EventEnvelope) (canonical : ChainPosition) (occurredAt : string) :
    result EventEnvelope :=
  match ev_block original with
  | None => inl "cannot correct an event without a block"
  | Some b =>
      createEnvelope
        {| in_type := "chain.reorg.correction"; in_source := "chain"; in_version := None;
           in_correlationId := Some (ev_correlationId original); in_causationId := Some (ev_id original);
           in_block := Some canonical; in_provenance := None;
           in_payload := V_object [("orphanedEventId", V_string (ev_id original));
                                   ("orphanedBlockHash", V_string (cp_hash b));
                                   ("canonicalBlockHash", V_string (cp_hash canonical));
                                   ("canonicalBlockNumber", V_bigint (cp_number canonical));
                                   ("reversal", V_bool true)] |}
        (sha256 (String.append (ev_id original) (String.append ":" (cp_hash canonical)))) occurredAt
  end.
End Reorg.

(** *** Stored payloads *)

(** `JSON.stringify(envelope, encode)` then `JSON.parse(text, decode)`: a bigint
    travels as an object with the one key `$bigint`; so does an object of that
    shape, which comes back as a bigint, or not at all. *)
Definition parse_bigint (s : string) : option Z :=
  match trim (String.list_ascii_of_string s) with
  | [] => Some 0
  | "0"%char :: x :: l =>
      if Ascii.eqb x "x" || Ascii.eqb x "X" then radix_integer 16 l
      else if Ascii.eqb x "o" || Ascii.eqb x "O" then radix_integer 8 l
      else if Ascii.eqb x "b" || Ascii.eqb x "B" then radix_integer 2 l
      else if forallb is_digit ("0"%char :: x :: l) then Some (digits_value ("0"%char :: x :: l)) else None
  | l =>
      let '(neg, d) := signed l in
      if nonempty d && forallb is_digit d then Some (if neg then - digits_value d else digits_value d) else None
  end.

Fixpoint encode (v : value) : value :=
  match v with
  | V_bigint z => V_object [("$bigint", V_string (pretty z))]
  | V_array l => V_array (map encode l)
  | V_object fs => V_object (map (fun f => (fst f, encode (snd f))) fs)
  | _ => v
  end.

(** The reviver on an object whose fields were revived. *)
Definition decode_object (fs : list (string * value)) : option value :=
  match fs with
  | [(k, V_string s)] => if streq k "$bigint" then V_bigint <$> parse_bigint s else Some (V_object fs)
  | _ => Some (V_object fs)
  end.

Fixpoint decode (v : value) : option value :=
  match v with
  | V_array l =>
      V_array <$> (fix go l := match l with
                   | [] => Some []
                   | x :: l' => match decode x, go l' with Some y, Some ys => Some (y :: ys) | _, _ => None end
                   end) l
  | V_object fs =>
      match (fix go fs := match fs with
             | [] => Some []
             | (k, x) :: fs' => match decode x, go fs' with Some y, Some ys => Some ((k, y) :: ys) | _, _ => None end
             end) fs with
      | Some fs' => decode_object fs'
      | None => None
      end
  | _ => Some v
  end.

Definition with_data (p : value) (pr : option value) (e : EventEnvelope) : EventEnvelope :=
  {| ev_id := ev_id e; ev_type := ev_type e; ev_version := ev_version e; ev_source := ev_source e;
     ev_correlationId := ev_correlationId e; ev_causationId := ev_causationId e; ev_occurredAt := ev_occurredAt e;
     ev_block := ev_block e; ev_provenance := pr; ev_payload := p |}.

(** The envelope a stored row reads back as. *)
Definition reread (e : EventEnvelope) : option EventEnvelope :=
  match decode (encode (ev_payload e)), ev_provenance e with
  | Some p, None => Some (with_data p None e)
  | Some p, Some pr => (fun pr' => with_data p (Some pr') e) <$> decode (encode pr)
  | None, _ => None
  end.

(** *** The durable bus *)

Record EventSchema : Type := {
  latest : Z; validate : value -> bool; upcast : option (value -> Z -> value)
}.

Record Options : Type := {
  opt_types : option (list string); opt_filter : option (EventEnvelope -> bool); opt_filterText : option string;
  opt_subscriptionVersion : option string
}.

Definition matches_options (e : EventEnvelope) (o : Options) : bool :=
  match opt_types o with Some ts => includes ts (ev_type e) | None => true end &&
  match opt_filter o with Some f => f e | None => true end.

(** The text stored for a subscription, by what it is made of. *)
Definition definition_of (o : Options) : option (list string) * string * option string :=
  (opt_types o, default "1" (opt_subscriptionVersion o), opt_filterText o).

Record StoredEvent : Type := { st_cursor : Z; st_envelope : EventEnvelope }.

Section Bus.
(** The handlers' own tables. *)
Context {U : Type}.

Definition Handler : Type := EventEnvelope -> U -> result U.

Record Sub : Type := { sub_name : string; sub_handler : Handler; sub_options : Options }.

(** The tables of a bus and the subscriptions of its process; [sequence] is the
    row of `sqlite_sequence` that numbers the outbox.  [runs] is a ghost: the
    handler runs that were committed, by consumer and cursor. *)
Record SqliteEventBus : Type := {
  outbox : list StoredEvent; sequence : Z; inbox : gset (string * string); consumer_offsets : gmap string Z;
  retries : gmap (string * Z) (Z * string); dead_letters : gmap (string * Z) (string * string);
  subscriptions : gmap string (option (list string) * string * option string);
  user : U; subs : list Sub; runs : list (string * Z)
}.

Context (schemas : string -> option EventSchema) (maxAttempts batchSize : Z).

Definition normalize (e : EventEnvelope) : result EventEnvelope :=
  match schemas (ev_type e) with
  | None => inr e
  | Some sc =>
      check latest sc <? ev_version e else "unsupported schema version";
      let payload := if ev_version e <? latest sc
                     then match upcast sc with Some up => up (ev_payload e) (ev_version e) | None => ev_payload e end
                     else ev_payload e in
      check negb (validate sc payload) else "schema validation failed";
      inr {| ev_id := ev_id e; ev_type := ev_type e; ev_version := latest sc; ev_source := ev_source e;
             ev_correlationId := ev_correlationId e; ev_causationId := ev_causationId e;
             ev_occurredAt := ev_occurredAt e; ev_block := ev_block e; ev_provenance := ev_provenance e;
             ev_payload := payload |}
  end.

Definition has_sub (name : string) (b : SqliteEventBus) : bool := existsb (fun s => streq (sub_name s) name) (subs b).

Definition set_subs (l : list Sub) (b : SqliteEventBus) : SqliteEventBus :=
  {| outbox := outbox b; sequence := sequence b; inbox := inbox b; consumer_offsets := consumer_offsets b;
     retries := retries b; dead_letters := dead_letters b; subscriptions := subscriptions b; user := user b; subs := l; runs := runs b |}.

Definition subscribe (s : Sub) (b : SqliteEventBus) : result unit * SqliteEventBus :=
  let def := definition_of (sub_options s) in
  if has_sub (sub_name s) b then (inl "duplicate consumer", b)
  else match subscriptions b !! sub_name s with
       | Some old => if bool_decide (old = def) then (inr tt, set_subs (subs b ++ [s]) b)
                     else (inl "subscription definition changed", b)
       | None =>
           (inr tt, {| outbox := outbox b; sequence := sequence b; inbox := inbox b; consumer_offsets := consumer_offsets b;
                       retries := retries b; dead_letters := dead_letters b;
                       subscriptions := <[sub_name s := def]> (subscriptions b); user := user b;
                       subs := subs b ++ [s]; runs := runs b |})
       end.

(** The function `subscribe` returns. *)
Definition unsubscribe (name : string) (b : SqliteEventBus) : SqliteEventBus :=
  set_subs (List.filter (fun s => negb (streq (sub_name s) name)) (subs b)) b.

Definition offset (c : string) (b : SqliteEventBus) : Z := default 0 (consumer_offsets b !! c).

(** The transaction of `process` that commits a handled event; [u] the tables
    after the handler, [ran] whether it ran. *)
Definition acknowledge (s : Sub) (x : StoredEvent) (u : U) (ran : bool) (b : SqliteEventBus) : SqliteEventBus :=
  {| outbox := outbox b; sequence := sequence b; inbox := {[(sub_name s, ev_id (st_envelope x))]} ∪ inbox b;
     consumer_offsets := <[sub_name s := st_cursor x]> (consumer_offsets b);
     retries := delete (sub_name s, st_cursor x) (retries b); dead_letters := dead_letters b;
     subscriptions := subscriptions b; user := u; subs := subs b;
     runs := if ran then runs b ++ [(sub_name s, st_cursor x)] else runs b |}.

(** `INSERT INTO retries ... ON CONFLICT DO UPDATE` *)
Definition count_attempt (s : Sub) (x : StoredEvent) (msg : string) (b : SqliteEventBus) : SqliteEventBus :=
  let k := (sub_name s, st_cursor x) in
  {| outbox := outbox b; sequence := sequence b; inbox := inbox b; consumer_offsets := consumer_offsets b;
     retries := <[k := (match retries b !! k with Some (n, _) => n + 1 | None => 1 end, msg)]> (retries b);
     dead_letters := dead_letters b; subscriptions := subscriptions b; user := user b; subs := subs b;
     runs := runs b |}.

(** The transaction that gives an event up. *)
Definition dead_letter (s : Sub) (x : StoredEvent) (msg : string) (b : SqliteEventBus) : SqliteEventBus :=
  let k := (sub_name s, st_cursor x) in
  {| outbox := outbox b; sequence := sequence b; inbox := inbox b;
     consumer_offsets := <[sub_name s := st_cursor x]> (consumer_offsets b); retries := retries b;
     dead_letters := match dead_letters b !! k with
                     | Some _ => dead_letters b
                     | None => <[k := (ev_id (st_envelope x), msg)]> (dead_letters b)
                     end;
     subscriptions := subscriptions b; user := user b; subs := subs b; runs := runs b |}.

Definition attempts_made (s : Sub) (x : StoredEvent) (b : SqliteEventBus) : Z :=
  match retries b !! (sub_name s, st_cursor x) with Some (n, _) => n | None => 0 end.

Definition process (s : Sub) (x : StoredEvent) (b : SqliteEventBus) : result unit * SqliteEventBus :=
  if st_cursor x <=? offset (sub_name s) b then (inr tt, b)
  else
    let m := matches_options (st_envelope x) (sub_options s) in
    match (if m then sub_handler s (st_envelope x) (user b) else inr (user b)) with
    | inr u => (inr tt, acknowledge s x u m b)
    | inl msg =>
        let b1 := count_attempt s x msg b in
        if maxAttempts <=? attempts_made s x b1 then (inr tt, dead_letter s x msg b1) else (inl msg, b1)
    end.

Definition has_id (id : string) (x : StoredEvent) : bool := streq (ev_id (st_envelope x)) id.

(** `INSERT OR IGNORE INTO outbox`: the AUTOINCREMENT column takes the next number
    of the table, also when the row is ignored because its id is there, so a
    repeated publish leaves a gap in the cursors. *)
Definition insert_event (e : EventEnvelope) (b : SqliteEventBus) : SqliteEventBus :=
  let cursor := sequence b + 1 in
  {| outbox := if existsb (has_id (ev_id e)) (outbox b) then outbox b
               else outbox b ++ [{| st_cursor := cursor; st_envelope := e |}];
     sequence := cursor; inbox := inbox b; consumer_offsets := consumer_offsets b; retries := retries b;
     dead_letters := dead_letters b; subscriptions := subscriptions b; user := user b; subs := subs b;
     runs := runs b |}.

(** The loop over the subscriptions of `publish`, which swallows errors. *)
Definition offer_all (ss : list Sub) (x : StoredEvent) (b : SqliteEventBus) : SqliteEventBus :=
  fold_left (fun b s => snd (process s x b)) ss b.

Definition publish (input : EventEnvelope) (b : SqliteEventBus) : result StoredEvent * SqliteEventBus :=
  match normalize input with
  | inl e => (inl e, b)
  | inr envelope =>
      let b1 := insert_event envelope b in
      match List.find (has_id (ev_id envelope)) (outbox b1) with
      | None => (inl "row missing", b1)
      | Some row =>
          let stored := {| st_cursor := st_cursor row; st_envelope := envelope |} in
          (inr stored, offer_all (subs b1) stored b1)
      end
  end.

(** A row of `replay`, nothing when it is malformed. *)
Definition readable (x : StoredEvent) : option StoredEvent :=
  match reread (st_envelope x) with
  | Some e => match normalize e with
              | inr e' => Some {| st_cursor := st_cursor x; st_envelope := e' |}
              | inl _ => None
              end
  | None => None
  end.

Definition replay (cursor : Z) (o : Options) (limit : option Z) (b : SqliteEventBus) : list StoredEvent :=
  let n := Z.max 1 (Z.min (default batchSize limit) 1000) in
  let rows := firstn (Z.to_nat n) (List.filter (fun x => cursor <? st_cursor x) (outbox b)) in
  List.filter (fun x => matches_options (st_envelope x) o) (omap readable rows).

Definition no_options : Options :=
  {| opt_types := None; opt_filter := None; opt_filterText := None; opt_subscriptionVersion := None |}.

Fixpoint process_all (s : Sub) (rows : list StoredEvent) (b : SqliteEventBus) : result unit * SqliteEventBus :=
  match rows with
  | [] => (inr tt, b)
  | x :: rows' =>
      match process s x b with
      | (inl e, b1) => (inl e, b1)
      | (inr _, b1) => process_all s rows' b1
      end
  end.

(** The loop of `deliver` for one consumer; every turn passes a row of the outbox,
    so the number of rows and one is enough [fuel]. *)
Fixpoint deliver_batches (fuel : nat) (s : Sub) (b : SqliteEventBus) : result unit * SqliteEventBus :=
  match fuel with
  | O => (inl "out of fuel", b)
  | S fuel' =>
      let rows := replay (offset (sub_name s) b) no_options (Some batchSize) b in
      match rows with
      | [] => (inr tt, b)
      | _ =>
          match process_all s rows b with
          | (inl e, b1) => (inl e, b1)
          | (inr _, b1) =>
              if Z.of_nat (length rows) <? batchSize then (inr tt, b1) else deliver_batches fuel' s b1
          end
      end
  end.

Fixpoint deliver_to (ss : list Sub) (b : SqliteEventBus) : result unit * SqliteEventBus :=
  match ss with
  | [] => (inr tt, b)
  | s :: ss' =>
      match deliver_batches (S (length (outbox b))) s b with
      | (inl e, b1) => (inl e, b1)
      | (inr _, b1) => deliver_to ss' b1
      end
  end.

Definition deliver (b : SqliteEventBus) : result unit * SqliteEventBus := deliver_to (subs b) b.

(** A new process on the same database. *)
Definition reopen (b : SqliteEventBus) : SqliteEventBus := set_subs [] b.
End Bus.

Arguments Sub : clear implicits.
Arguments SqliteEventBus : clear implicits.

(** *** The bus in memory *)

Section Memory.
(** What the handlers act on; a handler that throws has acted. *)
Context {W : Type}.

Record MemorySub : Type := {
  ms_name : string; ms_handler : EventEnvelope -> W -> result unit * W; ms_options : Options
}.

Record InMemoryEventBus : Type := {
  m_events : list StoredEvent; m_subscriptions : list MemorySub; m_offsets : gmap string Z; world : W
}.

Definition m_offset (c : string) (b : InMemoryEventBus) : Z := default 0 (m_offsets b !! c).

Definition m_subscribe (s : MemorySub) (b : InMemoryEventBus) : result unit * InMemoryEventBus :=
  if existsb (fun t => streq (ms_name t) (ms_name s)) (m_subscriptions b) then (inl "duplicate consumer", b)
  else (inr tt, {| m_events := m_events b; m_subscriptions := m_subscriptions b ++ [s]; m_offsets := m_offsets b;
                   world := world b |}).

Definition m_process (s : MemorySub) (x : StoredEvent) (b : InMemoryEventBus) : result unit * InMemoryEventBus :=
  if st_cursor x <=? m_offset (ms_name s) b then (inr tt, b)
  else
    let '(r, w) := if matches_options (st_envelope x) (ms_options s) then ms_handler s (st_envelope x) (world b)
                   else (inr tt, world b) in
    match r with
    | inl e => (inl e, {| m_events := m_events b; m_subscriptions := m_subscriptions b; m_offsets := m_offsets b; world := w |})
    | inr _ => (inr tt, {| m_events := m_events b; m_subscriptions := m_subscriptions b;
                           m_offsets := <[ms_name s := st_cursor x]> (m_offsets b); world := w |})
    end.

Definition m_publish (envelope : EventEnvelope) (b : InMemoryEventBus) : StoredEvent * InMemoryEventBus :=
  let stored := {| st_cursor := Z.of_nat (length (m_events b)) + 1; st_envelope := envelope |} in
  (stored, fold_left (fun b s => snd (m_process s stored b)) (m_subscriptions b)
             {| m_events := m_events b ++ [stored]; m_subscriptions := m_subscriptions b; m_offsets := m_offsets b;
                world := world b |}).

Fixpoint m_process_all (s : MemorySub) (xs : list StoredEvent) (b : InMemoryEventBus) : result unit * InMemoryEventBus :=
  match xs with
  | [] => (inr tt, b)
  | x :: xs' => match m_process s x b with (inl e, b1) => (inl e, b1) | (inr _, b1) => m_process_all s xs' b1 end
  end.

Fixpoint m_deliver_to (ss : list MemorySub) (b : InMemoryEventBus) : result unit * InMemoryEventBus :=
  match ss with
  | [] => (inr tt, b)
  | s :: ss' => match m_process_all s (m_events b) b with (inl e, b1) => (inl e, b1) | (inr _, b1) => m_deliver_to ss' b1 end
  end.

Definition m_deliver (b : InMemoryEventBus) : result unit * InMemoryEventBus := m_deliver_to (m_subscriptions b) b.

Definition m_replay (cursor : Z) (o : Options) (limit : option Z) (b : InMemoryEventBus) : list StoredEvent :=
  firstn (Z.to_nat (default 1000 limit))
    (List.filter (fun x => (cursor <? st_cursor x) && matches_options (st_envelope x) o) (m_events b)).
End Memory.

(** *** Market triggers *)

(** The configuration; an absent threshold is infinite. *)
Record TriggerConfig : Type := {
  cooldownMs : Z; debounceMs : Z; priceAbove : option Z; volumeAbove : option Z; liquidityAbove : option Z
}.

Definition config_invalid (c : TriggerConfig) : bool :=
  let bad x := match x with Some n => n <? 0 | None => false end in
  (cooldownMs c <? 0) || (debounceMs c <? 0) || bad (priceAbove c) || bad (volumeAbove c) || bad (liquidityAbove c).

Record Pending : Type := { p_start : Z; p_event : EventEnvelope; p_type : string; p_key : string }.

(** The state, in memory or in its three tables. *)
Record MarketTriggerEngine : Type := { seen_ids : gset string; pending : list Pending; fired : gmap string Z }.

(** `p[name]` of a payload; on null the access throws. *)
Definition field_of (p : value) (name : string) : option value :=
  match p with
  | V_object fs => snd <$> List.find (fun f => streq (fst f) name) fs
  | _ => None
  end.

(** `String(v)` *)
Fixpoint js_string (v : value) : string :=
  match v with
  | V_null => "null"
  | V_bool true => "true"
  | V_bool false => "false"
  | V_string s => s
  | V_number z | V_bigint z => pretty z
  | V_array l => join (map (fun x => match x with V_null => "" | _ => js_string x end) l)
  | V_object _ => "[object Object]"
  | V_other => "undefined"
  end.

(** `a ?? b` *)
Definition coalesce (a b : option value) : option value :=
  match a with Some V_null | None => b | Some _ => a end.

Definition above (limit : option Z) (v : option value) : bool :=
  match limit, v with Some l, Some (V_number z) => l <=? z | _, _ => false end.

(** The type of the trigger an event sets off. *)
Definition trigger_type (c : TriggerConfig) (e : EventEnvelope) : option string :=
  let p := ev_payload e in
  if streq (ev_type e) "market.token.launch" &&
     match field_of p "token" with Some (V_string s) => negb (streq s "") | _ => false end
  then Some "trigger.token.launch"
  else if streq (ev_type e) "market.liquidity" && above (liquidityAbove c) (field_of p "value")
  then Some "trigger.liquidity.threshold"
  else if streq (ev_type e) "market.price" && above (priceAbove c) (field_of p "value")
  then Some "trigger.price.threshold"
  else if streq (ev_type e) "market.volume" && above (volumeAbove c) (field_of p "value")
  then Some "trigger.volume.threshold"
  else if streq (ev_type e) "risk.alert" then Some "trigger.risk.alert"
  else if streq (ev_type e) "policy.alert" then Some "trigger.policy.alert"
  else None.

Definition trigger_key (type : string) (p : value) : string :=
  String.append type (String.append ":"
    match coalesce (field_of p "symbol") (field_of p "token") with
    | Some V_null | None => ""
    | Some v => js_string v
    end).

(** Whether the event is of a type for which the payload is read. *)
Definition reads_payload (e : EventEnvelope) : bool :=
  includes ["market.token.launch"; "market.liquidity"; "market.price"; "market.volume"; "risk.alert"; "policy.alert"]
    (ev_type e).

Section Triggers.
(** [now] is the clock during a call, [occurredAt] its text, [uuid] the random ids. *)
Context (c : TriggerConfig) (now : Z) (occurredAt : string) (uuid : nat -> string).

(** `emit`, the [n]th of the call. *)
Definition emit (n : nat) (p : Pending) (s : MarketTriggerEngine) : list EventEnvelope * MarketTriggerEngine :=
  let cooling := match fired s !! p_key p with Some last => now - last <? cooldownMs c | None => false end in
  if cooling then ([], s)
  else
    let s1 := {| seen_ids := seen_ids s; pending := pending s; fired := <[p_key p := now]> (fired s) |} in
    match createEnvelope
            {| in_type := p_type p; in_source := "market-trigger"; in_version := None;
               in_correlationId := Some (ev_correlationId (p_event p)); in_causationId := Some (ev_id (p_event p));
               in_block := None; in_provenance := None;
               in_payload := V_object [("trigger", V_string (ev_type (p_event p))); ("input", ev_payload (p_event p))] |}
            (uuid n) occurredAt with
    | inr e => ([e], s1)
    | inl _ => ([], s1)
    end.

Fixpoint emit_all (n : nat) (ps : list Pending) (s : MarketTriggerEngine) : list EventEnvelope * MarketTriggerEngine :=
  match ps with
  | [] => ([], s)
  | p :: ps' =>
      let '(es, s1) := emit n p s in
      let '(es', s2) := emit_all (S n) ps' s1 in
      (es ++ es', s2)
  end.

Definition due (p : Pending) : bool := debounceMs c <=? now - p_start p.

Definition flush (s : MarketTriggerEngine) : list EventEnvelope * MarketTriggerEngine :=
  emit_all 0 (List.filter due (pending s))
    {| seen_ids := seen_ids s; pending := List.filter (fun p => negb (due p)) (pending s); fired := fired s |}.

Definition evaluate (e : EventEnvelope) (s : MarketTriggerEngine) : result (list EventEnvelope) * MarketTriggerEngine :=
  if bool_decide (ev_id e ∈ seen_ids s) then (inr [], s)
  else
    let s1 := {| seen_ids := {[ev_id e]} ∪ seen_ids s; pending := pending s; fired := fired s |} in
    if reads_payload e && match ev_payload e with V_null | V_other => true | _ => false end
    then (inl "TypeError", s1)
    else match trigger_type c e with
         | None => (inr [], s1)
         | Some type =>
             let key := trigger_key type (ev_payload e) in
             let item := {| p_start := now; p_event := e; p_type := type; p_key := key |} in
             if 0 <? debounceMs c then
               let s2 := {| seen_ids := seen_ids s1;
                            pending := if existsb (fun p => streq (p_key p) key) (pending s1) then pending s1
                                       else pending s1 ++ [item];
                            fired := fired s1 |} in
               let '(es, s3) := flush s2 in (inr es, s3)
             else let '(es, s2) := emit 0 item s1 in (inr es, s2)
         end.
End Triggers.

(** A trigger of a key that fired less than the cooldown ago is not emitted again. *)
Lemma emit_cooldown c now at_ uuid n p s e es s' :
  emit c now at_ uuid n p s = (e :: es, s') ->
  es = [] /\ ev_type e = p_type p /\ fired s' !! p_key p = Some now /\
  forall last, fired s !! p_key p = Some last -> cooldownMs c <= now - last.
Proof.
  unfold emit. destruct (fired s !! p_key p) as [last|].
  - destruct (Z.ltb_spec (now - last) (cooldownMs c)); [done|]. destruct (createEnvelope _ _ _) as [?|x] eqn:E; [done|].
    intros [= <- <- <-]. unfold createEnvelope in E. open_result E. injection E as <-. cbn [ev_type in_type fired].
    rewrite lookup_insert_eq. split_and!; try done. by intros last' [= <-].
  - destruct (createEnvelope _ _ _) as [?|x] eqn:E; [done|].
    intros [= <- <- <-]. unfold createEnvelope in E. open_result E. injection E as <-. cbn [ev_type in_type fired].
    by rewrite lookup_insert_eq.
Qed.

(** An event sets a trigger off at most once. *)
Lemma evaluate_once c now at_ uuid now' at' uuid' e s :
  evaluate c now' at' uuid' e (snd (evaluate c now at_ uuid e s)) = (inr [], snd (evaluate c now at_ uuid e s)).
Proof.
  assert (ev_id e ∈ seen_ids (snd (evaluate c now at_ uuid e s))) as Hin.
  { assert (forall n p t, seen_ids (snd (emit c now at_ uuid n p t)) = seen_ids t) as Hemit.
    { intros n p t. unfold emit. destruct (fired t !! p_key p); [case_match; [done|]|]; by destruct (createEnvelope _ _ _). }
    assert (forall ps n t, seen_ids (snd (emit_all c now at_ uuid n ps t)) = seen_ids t) as Hall.
    { induction ps as [|p ps IH]; intros n t; cbn [emit_all]; [done|]. specialize (Hemit n p t).
      destruct (emit c now at_ uuid n p t) as [es t1]. specialize (IH (S n) t1).
      destruct (emit_all c now at_ uuid (S n) ps t1) as [es' t2]. simpl in *. congruence. }
    unfold evaluate. case_bool_decide as Hseen; [done|].
    destruct (_ && _); [apply elem_of_union; left; by apply elem_of_singleton|].
    destruct (trigger_type c e) as [type|]; [|apply elem_of_union; left; by apply elem_of_singleton].
    destruct (0 <? debounceMs c).
    - unfold flush. match goal with |- context [emit_all c now at_ uuid 0 ?ps ?t] => specialize (Hall ps 0%nat t);
        destruct (emit_all c now at_ uuid 0 ps t) as [es t1] end.
      cbn [snd seen_ids] in *. rewrite Hall. apply elem_of_union. left. by apply elem_of_singleton.
    - match goal with |- context [emit c now at_ uuid 0 ?p ?t] => specialize (Hemit 0%nat p t);
        destruct (emit c now at_ uuid 0 p t) as [es t1] end.
      cbn [snd seen_ids] in *. rewrite Hemit. apply elem_of_union. left. by apply elem_of_singleton. }
  unfold evaluate at 1. by rewrite bool_decide_true.
Qed.
