(* ===== verification/EventDelivery.v ===== *)
(** What the durable event bus guarantees (`src/autonomy/events/index.ts`): a
    consumer's handler commits at most once per event and in order, and a delivery
    that ends without an error leaves no readable event behind.  The example at the
    end shows the event that publishing skips. *)
From stdpp Require Import gmap sets sorting.
From S2P Require Import Prelude Table Canonical Events.
#[local] Open Scope string_scope.
#[local] Open Scope list_scope.
#[local] Open Scope Z_scope.

Section Delivery.
Context {U : Type} (schemas : string -> option EventSchema) (maxAttempts batchSize : Z).
Implicit Types (b : SqliteEventBus U) (s : Sub U) (x : StoredEvent).


(** The cursors a consumer's handler committed, in order. *)
Definition runs_of (c : string) b : list Z := map snd (List.filter (fun r => streq (fst r) c) (runs b)).

Definition precedes x y : Prop := st_cursor x < st_cursor y.

Record bus_ok b : Prop := {
  bo_sorted_rows : StronglySorted precedes (outbox b);
  bo_cursors : forall r, r ∈ outbox b -> 1 <= st_cursor r <= sequence b;
  bo_sequence : 0 <= sequence b;
  bo_ids : NoDup (map (fun x => ev_id (st_envelope x)) (outbox b));
  bo_subs : NoDup (map sub_name (subs b));
  bo_offset : forall c, 0 <= offset c b <= sequence b;
  bo_sorted : forall c, StronglySorted Z.lt (runs_of c b);
  bo_runs : forall c k, (c, k) ∈ runs b -> 1 <= k <= offset c b;
  bo_run_rows : forall c k, (c, k) ∈ runs b -> exists r, r ∈ outbox b /\ st_cursor r = k;
  bo_inbox : forall c id, (c, id) ∈ inbox b ->
    exists x, x ∈ outbox b /\ ev_id (st_envelope x) = id /\ st_cursor x <= offset c b;
  bo_dead : forall c k d, dead_letters b !! (c, k) = Some d -> k <= offset c b /\ (c, k) ∉ runs b;
  bo_retries : forall c k n m, retries b !! (c, k) = Some (n, m) -> 1 <= n /\ (offset c b < k -> n < maxAttempts)
}.

(** What a bus keeps: events, committed runs and dead letters stay, offsets only grow. *)
Definition grows b b' : Prop :=
  outbox b `prefix_of` outbox b' /\ runs b `prefix_of` runs b' /\ (forall c, offset c b <= offset c b') /\
  (forall k d, dead_letters b !! k = Some d -> dead_letters b' !! k = Some d).

Lemma grows_refl b : grows b b.
Proof. by split_and!. Qed.

Lemma grows_trans b1 b2 b3 : grows b1 b2 -> grows b2 b3 -> grows b1 b3.
Proof.
  intros (H1 & H2 & H3 & H4) (G1 & G2 & G3 & G4). split_and!; [by etrans|by etrans| |auto].
  intros c. specialize (H3 c). specialize (G3 c). lia.
Qed.

Lemma runs_of_elem c k b : k ∈ runs_of c b <-> (c, k) ∈ runs b.
Proof.
  unfold runs_of. rewrite list_elem_of_In, in_map_iff. split.
  - intros ([c' k'] & <- & [Hin Heq]%filter_In). simpl in *. bool_hyps. subst. by apply list_elem_of_In.
  - intros Hin. exists (c, k). split; [done|]. apply filter_In. split; [by apply list_elem_of_In|]. by apply streq_refl.
Qed.

(** A run of increasing cursors has no cursor twice. *)
Lemma sorted_NoDup (l : list Z) : StronglySorted Z.lt l -> NoDup l.
Proof.
  induction 1 as [|k l Hs IH Hall]; [apply NoDup_nil_2|]. apply NoDup_cons. split; [|done]. intros Hin.
  rewrite List.Forall_forall in Hall. specialize (Hall k (proj1 (list_elem_of_In _ _) Hin)). lia.
Qed.

(** An event that is offered: a row of the outbox has its cursor and its id. *)
Definition stored_as x b : Prop :=
  exists r, r ∈ outbox b /\ st_cursor r = st_cursor x /\ ev_id (st_envelope r) = ev_id (st_envelope x).

Lemma offset_acknowledge s x u ran b c :
  offset c (acknowledge s x u ran b) = if decide (c = sub_name s) then st_cursor x else offset c b.
Proof. unfold offset, acknowledge. simpl. case_decide; subst; by rewrite ?lookup_insert_eq, ?lookup_insert_ne by done. Qed.

Lemma offset_dead s x msg b c :
  offset c (dead_letter s x msg b) = if decide (c = sub_name s) then st_cursor x else offset c b.
Proof. unfold offset, dead_letter. simpl. case_decide; subst; by rewrite ?lookup_insert_eq, ?lookup_insert_ne by done. Qed.

Section Step.
Context b (Hok : bus_ok b) s x (Hst : stored_as x b) (Hnew : offset (sub_name s) b < st_cursor x).

Lemma cursor_bounds : 1 <= st_cursor x <= sequence b.
Proof. destruct Hst as (r & Hr & <- & _). by apply bo_cursors. Qed.

Lemma offset_moves b' c :
  (forall c, offset c b' = if decide (c = sub_name s) then st_cursor x else offset c b) -> offset c b <= offset c b'.
Proof. intros ->. case_decide; subst; lia. Qed.

Lemma acknowledge_ok u ran : bus_ok (acknowledge s x u ran b) /\ grows b (acknowledge s x u ran b).
Proof.
  pose proof cursor_bounds as Hcb. pose proof (offset_acknowledge s x u ran b) as Hoff.
  assert (forall c, offset c b <= offset c (acknowledge s x u ran b)) as Hle by (intros c; by apply offset_moves).
  assert (forall j, j ∈ runs_of (sub_name s) b -> j < st_cursor x) as Hbelow.
  { intros j Hj%runs_of_elem. pose proof (bo_runs b Hok _ _ Hj). lia. }
  split; [split|split_and!; [done| |done|done]]; simpl.
  - apply (bo_sorted_rows b Hok).
  - apply (bo_cursors b Hok).
  - apply (bo_sequence b Hok).
  - apply (bo_ids b Hok).
  - apply (bo_subs b Hok).
  - intros c. rewrite Hoff. case_decide; [lia|]. apply (bo_offset b Hok).
  - intros c. unfold runs_of. simpl. destruct ran; [|apply (bo_sorted b Hok)].
    rewrite List.filter_app, map_app. simpl. destruct (streq (sub_name s) c) eqn:E; simpl.
    + bool_hyps. subst c. apply sorted_snoc; [apply (bo_sorted b Hok)|done].
    + rewrite app_nil_r. apply (bo_sorted b Hok).
  - intros c k Hk. assert ((c, k) ∈ runs b \/ (c = sub_name s /\ k = st_cursor x)) as [Hin|[-> ->]].
    { destruct ran; [|by left]. apply elem_of_app in Hk as [?|Hk%list_elem_of_singleton]; [by left|right]. by simplify_eq. }
    + pose proof (bo_runs b Hok _ _ Hin). specialize (Hle c). lia.
    + rewrite Hoff, decide_True by done. lia.
  - intros c k Hk. assert ((c, k) ∈ runs b \/ k = st_cursor x) as [Hin| ->].
    { destruct ran; [|by left]. apply elem_of_app in Hk as [?|Hk%list_elem_of_singleton]; [by left|right]. by simplify_eq. }
    + by apply (bo_run_rows b Hok c).
    + destruct Hst as (r & Hr & E & _). by exists r.
  - intros c id [Hin|Hin]%elem_of_union.
    + apply elem_of_singleton in Hin as [= -> ->]. destruct Hst as (r & Hr & E1 & E2). exists r.
      rewrite Hoff, decide_True by done. split_and!; [done|done|lia].
    + destruct (bo_inbox b Hok _ _ Hin) as (r & Hr & E1 & E2). exists r. specialize (Hle c). split_and!; [done|done|lia].
  - intros c k d Hd. destruct (bo_dead b Hok _ _ _ Hd) as [H1 H2]. specialize (Hle c). split; [lia|].
    destruct ran; [|done]. intros [?|Hk%list_elem_of_singleton]%elem_of_app; [done|]. simplify_eq. lia.
  - intros c k n m Hr. apply lookup_delete_Some in Hr as [_ Hr]. destruct (bo_retries b Hok _ _ _ _ Hr) as [H1 H2].
    split; [done|]. intros Hlt. apply H2. specialize (Hle c). lia.
  - destruct ran; [by apply prefix_app_r|done].
Qed.

(** A failed attempt is counted; the last one gives the event up. *)
Lemma failed_ok msg :
  let b1 := count_attempt s x msg b in
  let b' := if maxAttempts <=? attempts_made s x b1 then dead_letter s x msg b1 else b1 in
  bus_ok b' /\ grows b b'.
Proof.
  intros b1. pose proof cursor_bounds as Hcb. set (k0 := (sub_name s, st_cursor x)).
  assert (attempts_made s x b1 = match retries b !! k0 with Some (n, _) => n + 1 | None => 1 end) as Hatt.
  { unfold attempts_made, b1, count_attempt. simpl. by rewrite lookup_insert_eq. }
  assert (1 <= attempts_made s x b1) as Hpos.
  { rewrite Hatt. destruct (retries b !! k0) as [[n m]|] eqn:E; [|lia]. pose proof (bo_retries b Hok _ _ _ _ E). lia. }
  destruct (Z.leb_spec maxAttempts (attempts_made s x b1)) as [Hmax|Hmore]; intros b'; subst b'.
  - pose proof (offset_dead s x msg b1) as Hoff.
    assert (forall c, offset c b <= offset c (dead_letter s x msg b1)) as Hle.
    { intros c. rewrite Hoff. change (offset c b1) with (offset c b). case_decide; subst; lia. }
    assert (dead_letters b !! k0 = None) as Hfree.
    { destruct (dead_letters b !! k0) eqn:E; [|done]. pose proof (bo_dead b Hok _ _ _ E). lia. }
    assert (forall k d, dead_letters b !! k = Some d -> dead_letters (dead_letter s x msg b1) !! k = Some d) as Hkeep.
    { intros k d Hd. simpl. fold k0. rewrite Hfree. rewrite lookup_insert_ne; [done|]. congruence. }
    split; [split|split_and!; done]; simpl.
    + apply (bo_sorted_rows b Hok).
    + apply (bo_cursors b Hok).
    + apply (bo_sequence b Hok).
    + apply (bo_ids b Hok).
    + apply (bo_subs b Hok).
    + intros c. rewrite Hoff. change (offset c b1) with (offset c b).
      case_decide; [lia|]. apply (bo_offset b Hok).
    + apply (bo_sorted b Hok).
    + intros c k Hk. pose proof (bo_runs b Hok _ _ Hk). specialize (Hle c). lia.
    + apply (bo_run_rows b Hok).
    + intros c id Hin. destruct (bo_inbox b Hok _ _ Hin) as (r & Hr & E1 & E2). exists r. specialize (Hle c).
      split_and!; [done|done|lia].
    + intros c k d. fold k0. rewrite Hfree. intros [[E1 E2]|[E1 E2]]%lookup_insert_Some.
      * unfold k0 in E1. simplify_eq. split; [by rewrite Hoff, decide_True by done; lia|]. intros Hk.
        pose proof (bo_runs b Hok _ _ Hk). lia.
      * destruct (bo_dead b Hok _ _ _ E2) as [H1 H2]. specialize (Hle c). split; [lia|done].
    + intros c k n m. intros [[E1 E2]|[E1 E2]]%lookup_insert_Some.
      * assert (n = attempts_made s x b1) as -> by (rewrite Hatt; by injection E2). injection E1 as <- <-.
        split; [lia|]. rewrite Hoff, decide_True by done. lia.
      * destruct (bo_retries b Hok _ _ _ _ E2) as [H1 H2]. split; [done|]. intros Hlt. apply H2. specialize (Hle c). lia.
  - split; [|by split_and!]. destruct Hok. split; try done.
    intros c k n m Hr. unfold b1, count_attempt in Hr. cbn [retries] in Hr.
    apply lookup_insert_Some in Hr as [[E1 E2]|[E1 E2]]; [|by eapply bo_retries0].
    assert (n = attempts_made s x b1) as -> by (rewrite Hatt; by injection E2). by split.
Qed.
End Step.

(** *** Processing *)

(** The answer of a consumer to an event: it committed, or the event was given up. *)
Definition settled s x b : Prop :=
  st_cursor x <= offset (sub_name s) b /\
  (matches_options (st_envelope x) (sub_options s) = true ->
   (sub_name s, st_cursor x) ∈ runs b \/ is_Some (dead_letters b !! (sub_name s, st_cursor x))).

Lemma process_ok b s x :
  bus_ok b -> stored_as x b ->
  let '(r, b') := process maxAttempts s x b in
  bus_ok b' /\ grows b b' /\ outbox b' = outbox b /\ subs b' = subs b /\
  (forall c, c <> sub_name s -> offset c b' = offset c b) /\
  match r with
  | inr _ => offset (sub_name s) b' = Z.max (offset (sub_name s) b) (st_cursor x) /\
             (offset (sub_name s) b < st_cursor x -> settled s x b')
  | inl e => sub_handler s (st_envelope x) (user b) = inl e /\ offset (sub_name s) b' = offset (sub_name s) b
  end.
Proof.
  intros Hok Hst. unfold process. destruct (Z.leb_spec (st_cursor x) (offset (sub_name s) b)) as [Hold|Hnew].
  { split_and!; auto using grows_refl; lia. }
  set (m := matches_options (st_envelope x) (sub_options s)).
  destruct (if m then _ else _) as [msg|u] eqn:Eh.
  - destruct (failed_ok b Hok s x Hst Hnew msg) as [Hok' Hg].
    pose proof (offset_dead s x msg (count_attempt s x msg b)) as Hoff.
    destruct (maxAttempts <=? attempts_made s x (count_attempt s x msg b)).
    + split_and!; try done.
      * intros c Hc. rewrite Hoff, decide_False by done. done.
      * rewrite Hoff, decide_True by done. lia.
      * intros _. split; [by rewrite Hoff, decide_True by done|]. intros _. right. simpl. destruct (dead_letters b !! _) as [d|] eqn:E; [by exists d|].
        rewrite lookup_insert_eq. by eexists.
    + split_and!; try done. by destruct m.
  - destruct (acknowledge_ok b Hok s x Hst Hnew u m) as [Hok' Hg]. pose proof (offset_acknowledge s x u m b) as Hoff.
    split_and!; try done.
    + intros c Hc. by rewrite Hoff, decide_False by done.
    + rewrite Hoff, decide_True by done. lia.
    + intros _. split; [by rewrite Hoff, decide_True by done|]. fold m. intros Hm. left. simpl. rewrite Hm. apply elem_of_app. right. apply list_elem_of_here.
Qed.

Lemma stored_same x b b' : outbox b' = outbox b -> stored_as x b -> stored_as x b'.
Proof. unfold stored_as. by intros ->. Qed.

Lemma offer_all_ok ss x b :
  bus_ok b -> stored_as x b -> bus_ok (offer_all maxAttempts ss x b) /\ grows b (offer_all maxAttempts ss x b).
Proof.
  revert b. induction ss as [|s ss IH]; intros b Hok Hst; [by auto using grows_refl|].
  change (offer_all maxAttempts (s :: ss) x b) with (offer_all maxAttempts ss x (snd (process maxAttempts s x b))).
  pose proof (process_ok b s x Hok Hst) as H. destruct (process maxAttempts s x b) as [r b1]. simpl.
  destruct H as (Hok1 & Hg1 & Ho & _). destruct (IH b1 Hok1 (stored_same _ _ _ Ho Hst)) as [Hok2 Hg2].
  split; [done|]. by eapply grows_trans.
Qed.

Lemma insert_event_ok e b :
  bus_ok b -> bus_ok (insert_event e b) /\ grows b (insert_event e b).
Proof.
  intros Hok. pose proof (bo_sequence b Hok) as Hseq.
  assert (forall r, r ∈ outbox b -> 1 <= st_cursor r <= sequence b + 1) as Hcur
    by (intros r Hr; pose proof (bo_cursors b Hok r Hr); lia).
  assert (outbox b `prefix_of` outbox (insert_event e b)) as Hpre by (simpl; case_match; [done|by apply prefix_app_r]).
  assert (forall r, r ∈ outbox b -> r ∈ outbox (insert_event e b)) as Hrows
    by (intros r Hr; destruct Hpre as [l Hl]; rewrite Hl; apply elem_of_app; by left).
  split; [|by split_and!]. split; cbn [outbox sequence inbox subs insert_event]; try by destruct Hok.
  - case_match; [apply (bo_sorted_rows b Hok)|]. apply sorted_snoc; [apply (bo_sorted_rows b Hok)|].
    intros r Hr. unfold precedes. simpl. pose proof (bo_cursors b Hok r Hr). lia.
  - case_match; [done|]. intros r [Hr| ->%list_elem_of_singleton]%elem_of_app; [auto|simpl; lia].
  - lia.
  - destruct (existsb _ _) eqn:E; [apply (bo_ids b Hok)|].
    rewrite map_app. apply NoDup_app. split_and!; [apply (bo_ids b Hok)| |apply NoDup_singleton].
    intros id Hin ->%list_elem_of_singleton. apply list_elem_of_fmap in Hin as (y & Hid & Hy).
    apply not_true_iff_false in E. apply E, existsb_exists. exists y. split; [by apply list_elem_of_In|].
    unfold has_id. apply streq_spec. simpl in Hid. congruence.
  - intros c. pose proof (bo_offset b Hok c). change (offset c _) with (offset c b). lia.
  - intros c k Hk. destruct (bo_run_rows b Hok c k Hk) as (r & Hr & E). exists r. split; [by apply Hrows|done].
  - intros c id Hin. destruct (bo_inbox b Hok _ _ Hin) as (y & Hy & E1 & E2). exists y. split_and!; [by apply Hrows|done|done].
Qed.

Lemma normalize_id e e' : normalize schemas e = inr e' -> ev_id e' = ev_id e /\ ev_type e' = ev_type e.
Proof.
  unfold normalize. destruct (schemas (ev_type e)) as [sc|]; [|by intros [= ->]]. intros H. open_result H. by injection H as <-.
Qed.

Lemma publish_ok e b :
  bus_ok b -> bus_ok (snd (publish schemas maxAttempts e b)) /\ grows b (snd (publish schemas maxAttempts e b)).
Proof.
  intros Hok. unfold publish. destruct (normalize schemas e) as [err|env]; [by auto using grows_refl|].
  destruct (insert_event_ok env b Hok) as [Hok1 Hg1]. destruct (List.find _ _) as [row|] eqn:E; [|done]. simpl.
  apply find_some in E as [Hrow%list_elem_of_In Hid]. unfold has_id in Hid. bool_hyps.
  destruct (offer_all_ok (subs (insert_event env b)) {| st_cursor := st_cursor row; st_envelope := env |} _ Hok1) as [Hok2 Hg2].
  - by exists row.
  - split; [done|]. by eapply grows_trans.
Qed.

(** *** Deliveries *)

Lemma readable_row r x : readable schemas r = Some x -> st_cursor x = st_cursor r /\ ev_id (st_envelope x) = ev_id (st_envelope r).
Proof.
  unfold readable, reread. intros H.
  destruct (decode (encode (ev_payload (st_envelope r)))) as [p|]; [|done].
  destruct (ev_provenance (st_envelope r)) as [pr|]; [destruct (decode (encode pr)) as [pr'|]; [|done]|]; simpl in H.
  all: destruct (normalize schemas _) as [?|e'] eqn:E; [done|]; injection H as <-; apply normalize_id in E as [E _]; done.
Qed.

(** The rows `deliver` reads: the next ones after the offset. *)
Definition pending_rows c b : list StoredEvent := List.filter (fun r => c <? st_cursor r) (outbox b).

Lemma pending_rows_elem c b r : r ∈ pending_rows c b <-> r ∈ outbox b /\ c < st_cursor r.
Proof. unfold pending_rows. by rewrite !list_elem_of_In, filter_In, Z.ltb_lt. Qed.

Lemma pending_rows_length c b : (length (pending_rows c b) < S (length (outbox b)))%nat.
Proof. pose proof (List.filter_length_le (fun r => c <? st_cursor r) (outbox b)). unfold pending_rows. lia. Qed.

(** A larger offset leaves fewer rows, when it passes one. *)
Lemma pending_rows_shrink c c' b r :
  c <= c' -> r ∈ outbox b -> c < st_cursor r <= c' -> (length (pending_rows c' b) < length (pending_rows c b))%nat.
Proof.
  intros Hc Hr Hrow. unfold pending_rows. revert Hr. generalize (outbox b) as l.
  assert (forall l : list StoredEvent, (length (List.filter (fun r => (c' <? st_cursor r)%Z) l) <=
                                         length (List.filter (fun r => (c <? st_cursor r)%Z) l))%nat) as Hle.
  { induction l as [|x l IH]; [done|]. simpl. destruct (Z.ltb_spec c' (st_cursor x)), (Z.ltb_spec c (st_cursor x)); simpl; lia. }
  induction l as [|x l IH]; [by intros ?%elem_of_nil|]. specialize (Hle l). simpl. intros [-> |Hr]%elem_of_cons.
  - destruct (Z.ltb_spec c' (st_cursor x)), (Z.ltb_spec c (st_cursor x)); simpl; lia.
  - specialize (IH Hr). destruct (Z.ltb_spec c' (st_cursor x)), (Z.ltb_spec c (st_cursor x)); simpl; lia.
Qed.

Lemma replay_stored b c o limit x :
  x ∈ replay schemas batchSize c o limit b -> stored_as x b /\ c < st_cursor x.
Proof.
  unfold replay. intros [Hx _]%list_elem_of_In%filter_In. apply list_elem_of_In, list_elem_of_omap in Hx as (r & Hr & E).
  apply elem_of_take in Hr as (i & Hr%list_elem_of_lookup_2 & _). apply list_elem_of_In, filter_In in Hr as [Hr Hc].
  apply list_elem_of_In in Hr. destruct (readable_row r x E) as [E1 E2]. bool_hyps. split; [by exists r|lia].
Qed.

(** A batch settles its events, or stops at the first that fails. *)
Lemma process_all_ok s rows b :
  bus_ok b -> (forall x, x ∈ rows -> stored_as x b) ->
  let '(r, b') := process_all maxAttempts s rows b in
  bus_ok b' /\ grows b b' /\ outbox b' = outbox b /\ subs b' = subs b /\
  (forall c, c <> sub_name s -> offset c b' = offset c b) /\
  match r with
  | inr _ => (forall x, x ∈ rows -> st_cursor x <= offset (sub_name s) b') /\
             (StronglySorted precedes rows ->
              (forall x, x ∈ rows -> offset (sub_name s) b < st_cursor x) -> forall x, x ∈ rows -> settled s x b')
  | inl e => exists x u, x ∈ rows /\ sub_handler s (st_envelope x) u = inl e
  end.
Proof.
  revert b. induction rows as [|x rows IH]; intros b Hok Hst; cbn [process_all].
  { split_and!; auto using grows_refl; [by intros y ?%elem_of_nil|]. by intros _ _ y ?%elem_of_nil. }
  pose proof (process_ok b s x Hok (Hst x (list_elem_of_here _ _))) as H.
  destruct (process maxAttempts s x b) as [[e|[]] b1]; destruct H as (Hok1 & Hg1 & Ho1 & Hs1 & Hc1 & H).
  { split_and!; try done. exists x, (user b). split; [left|apply H]. }
  destruct H as [Hoff Hset]. specialize (IH b1 Hok1).
  destruct (process_all maxAttempts s rows b1) as [[e|[]] b2].
  all: destruct IH as (Hok2 & Hg2 & Ho2 & Hs2 & Hc2 & H); [intros y Hy; apply (stored_same y b); [done|]; apply Hst; by right|].
  all: split_and!; try done; try (by eapply grows_trans); try congruence; try (intros c Hc; rewrite Hc2, Hc1; done).
  { destruct H as (y & u & Hy & Hu). exists y, u. split; [by right|done]. }
  - destruct H as [H _]. intros y [-> |Hy]%elem_of_cons; [|by apply H].
    destruct Hg2 as (_ & _ & Hle & _). specialize (Hle (sub_name s)). lia.
  - destruct H as [_ H]. intros Hsort Hnew. apply StronglySorted_inv in Hsort as [Hsort Hall].
    rewrite List.Forall_forall in Hall. intros y [-> |Hy]%elem_of_cons.
    + destruct Hg2 as (_ & [l Hruns] & Hle & Hdead). specialize (Hle (sub_name s)).
      destruct (Hset (Hnew _ (list_elem_of_here _ _))) as [H1 H2]. split; [lia|]. intros Hm.
      destruct (H2 Hm) as [Hr|[d Hd]]; [left|right].
      * rewrite Hruns. apply elem_of_app. by left.
      * exists d. by apply Hdead.
    + apply H; [done| |done]. intros z Hz. specialize (Hall z (proj1 (list_elem_of_In _ _) Hz)). unfold precedes in Hall.
      rewrite Hoff. pose proof (Hnew _ (list_elem_of_here _ _)). lia.
Qed.

(** *** Batches *)

(** Every stored event reads back and passes its schema. *)
Definition all_readable b : Prop := forall r, r ∈ outbox b -> is_Some (readable schemas r).

Lemma omap_all {A B} (f : A -> option B) (l : list A) :
  (forall a : A, a ∈ l -> is_Some (f a)) -> length (omap f l) = length l.
Proof.
  induction l as [|a l IH]; intros H; csimpl; [done|]. destruct (H a (list_elem_of_here _ _)) as [y ->].
  csimpl. f_equal. apply IH. intros z Hz. apply H. by right.
Qed.

(** What is read has the cursors of the rows, so their order. *)
Lemma readable_sorted (l : list StoredEvent) : StronglySorted precedes l -> StronglySorted precedes (omap (readable schemas) l).
Proof.
  induction 1 as [|r l Hl IH Hr]; csimpl; [constructor|]. destruct (readable schemas r) as [x|] eqn:E; csimpl; [|done].
  constructor; [done|]. rewrite List.Forall_forall in *. intros y Hy%list_elem_of_In%list_elem_of_omap.
  destruct Hy as (r' & Hr' & E'). unfold precedes in *. destruct (readable_row r x E) as [-> _], (readable_row r' y E') as [-> _].
  by apply Hr, list_elem_of_In.
Qed.

Section Batch.
Context b (Hok : bus_ok b) (Hall : all_readable b) (off : Z) (Hbatch : 1 <= batchSize <= 1000).

Let rows : list StoredEvent := replay schemas batchSize off no_options (Some batchSize) b.
Let window : list StoredEvent := take (Z.to_nat batchSize) (pending_rows off b).
Let rest : list StoredEvent := drop (Z.to_nat batchSize) (pending_rows off b).

Lemma rows_window : rows = omap (readable schemas) window.
Proof.
  unfold rows, replay, window. replace (Z.max 1 (Z.min (default batchSize (Some batchSize)) 1000)) with batchSize by (simpl; lia).
  change (List.filter _ (outbox b)) with (pending_rows off b).
  generalize (omap (readable schemas) (take (Z.to_nat batchSize) (pending_rows off b))) as l.
  induction l as [|x l IH]; [done|]. cbn [List.filter]. by rewrite IH.
Qed.

Lemma window_rest r : r ∈ outbox b -> off < st_cursor r -> r ∈ window \/ r ∈ rest.
Proof. intros Hr Hc. apply elem_of_app. unfold window, rest. rewrite take_drop. by apply pending_rows_elem. Qed.

Lemma window_pending r : r ∈ window -> r ∈ outbox b /\ off < st_cursor r.
Proof. intros Hr. apply pending_rows_elem. unfold window in Hr. by eapply subseteq_take. Qed.

Lemma pending_sorted : StronglySorted precedes (window ++ rest).
Proof. unfold window, rest. rewrite take_drop. apply strongly_sorted_filter, (bo_sorted_rows b Hok). Qed.

Lemma rows_sorted : StronglySorted precedes rows.
Proof. rewrite rows_window. apply readable_sorted. pose proof pending_sorted as H. by apply StronglySorted_app_1_l in H. Qed.

Lemma rows_cover r x : r ∈ window -> readable schemas r = Some x -> x ∈ rows.
Proof. intros Hr Hx. rewrite rows_window. apply list_elem_of_omap. by exists r. Qed.

Lemma rows_length : length rows = length window.
Proof. rewrite rows_window. apply omap_all. intros r Hr. by apply Hall, window_pending. Qed.

(** A row the batch leaves is after all of a full batch. *)
Lemma rest_later r : r ∈ rest -> Z.of_nat (length rows) = batchSize /\ forall x, x ∈ rows -> st_cursor x < st_cursor r.
Proof.
  intros Hr. split.
  - rewrite rows_length. unfold window. rewrite length_take.
    enough (0 < length rest)%nat as Hl by (unfold rest in Hl; rewrite length_drop in Hl; lia).
    destruct rest; [by apply elem_of_nil in Hr|simpl; lia].
  - intros x Hx. rewrite rows_window in Hx. apply list_elem_of_omap in Hx as (r' & Hr' & E).
    destruct (readable_row r' x E) as [-> _]. pose proof pending_sorted as H. by eapply StronglySorted_app_1_elem_of in H.
Qed.
End Batch.

Lemma settled_grows s x b b' : settled s x b -> grows b b' -> settled s x b'.
Proof.
  intros [H1 H2] (_ & [l Hruns] & Hle & Hdead). specialize (Hle (sub_name s)). split; [lia|]. intros Hm.
  destruct (H2 Hm) as [Hr|[d Hd]]; [left; rewrite Hruns; apply elem_of_app; by left|right; exists d; by apply Hdead].
Qed.

Lemma process_all_bound s rows b bound :
  bus_ok b -> (forall x, x ∈ rows -> stored_as x b /\ st_cursor x <= bound) -> offset (sub_name s) b <= bound ->
  offset (sub_name s) (snd (process_all maxAttempts s rows b)) <= bound.
Proof.
  revert b. induction rows as [|x rows IH]; intros b Hok Hx Hb; cbn [process_all]; [done|].
  destruct (Hx x (list_elem_of_here _ _)) as [Hst Hxb]. pose proof (process_ok b s x Hok Hst) as H.
  destruct (process maxAttempts s x b) as [[e|[]] b1]; destruct H as (Hok1 & _ & Ho1 & _ & _ & H); [simpl; lia|].
  destruct H as [Hoff _]. apply IH; [done| |lia].
  intros y Hy. destruct (Hx y) as [? ?]; [by right|]. split; [by apply (stored_same y b)|done].
Qed.

Lemma deliver_batches_safe fuel s b :
  bus_ok b -> let b' := snd (deliver_batches schemas maxAttempts batchSize fuel s b) in
  bus_ok b' /\ grows b b' /\ outbox b' = outbox b /\ subs b' = subs b /\
  (forall c, c <> sub_name s -> offset c b' = offset c b).
Proof.
  revert b. induction fuel as [|fuel IH]; intros b Hok; cbn [deliver_batches]; [by auto using grows_refl|].
  set (rows := replay _ _ _ _ _ _). destruct rows as [|x rows'] eqn:E; [by auto using grows_refl|]. rewrite <- E.
  pose proof (process_all_ok s rows b Hok (fun y Hy => proj1 (replay_stored b _ _ _ y Hy))) as H.
  destruct (process_all maxAttempts s rows b) as [[e|[]] b1]; destruct H as (Hok1 & Hg1 & Ho1 & Hs1 & Hc1 & _); [done|].
  destruct (_ <? _); [done|]. destruct (IH b1 Hok1) as (Hok2 & Hg2 & Ho2 & Hs2 & Hc2).
  split_and!; [done|by eapply grows_trans|congruence|congruence|]. intros c Hc. by rewrite Hc2, Hc1.
Qed.

(** A delivery to a consumer ends with every event settled, unless a handler failed. *)
Lemma deliver_batches_complete fuel s b :
  bus_ok b -> all_readable b -> 1 <= batchSize <= 1000 -> (length (pending_rows (offset (sub_name s) b) b) < fuel)%nat ->
  let '(r, b') := deliver_batches schemas maxAttempts batchSize fuel s b in
  match r with
  | inr _ => forall r0 x, r0 ∈ outbox b -> readable schemas r0 = Some x -> offset (sub_name s) b < st_cursor r0 -> settled s x b'
  | inl e => exists x u, sub_handler s (st_envelope x) u = inl e
  end.
Proof.
  revert b. induction fuel as [|fuel IH]; intros b Hok Hall Hbatch Hfuel; [lia|].
  cbn [deliver_batches]. set (off := offset (sub_name s) b) in *. set (rows := replay _ _ _ _ _ _).
  assert (forall x, x ∈ rows -> stored_as x b /\ off < st_cursor x) as Hrows
    by (intros x Hx; by apply (replay_stored b off no_options (Some batchSize))).
  pose proof (fun r0 x Hw => rows_cover b off Hbatch r0 x Hw : _ -> x ∈ rows) as Hcover.
  pose proof (fun r0 Hr => rest_later b Hok Hall off Hbatch r0 Hr) as Hrest. fold rows in Hrest.
  pose proof (fun r0 Hr Hc => window_rest b off r0 Hr Hc) as Hsplit.
  destruct rows as [|x0 rows'] eqn:E.
  { intros r0 x Hr Hx Hc. destruct (Hsplit r0 Hr Hc) as [Hw|[Hl _]%Hrest]; [|simpl in Hl; lia].
    specialize (Hcover r0 x Hw Hx). by apply elem_of_nil in Hcover. }
  rewrite <- E in *. assert (x0 ∈ rows) as Hx0 by (rewrite E; left). clear rows' E.
  pose proof (process_all_ok s rows b Hok (fun y Hy => proj1 (Hrows y Hy))) as H.
  pose proof (fun bound => process_all_bound s rows b bound Hok) as Hb.
  destruct (process_all maxAttempts s rows b) as [[e|[]] b1]; destruct H as (Hok1 & Hg1 & Ho1 & Hs1 & _ & H).
  { destruct H as (x & u & _ & Hu). eauto. }
  destruct H as [Hat Hset].
  assert (forall x, x ∈ rows -> settled s x b1) as Hset1.
  { apply Hset; [apply (rows_sorted b Hok off Hbatch)|]. intros x Hx. by apply Hrows. }
  destruct (Z.ltb_spec (Z.of_nat (length rows)) batchSize) as [Hlast|Hmore].
  - intros r0 x Hr Hx Hc. apply Hset1. destruct (Hsplit r0 Hr Hc) as [Hw|[Hl _]%Hrest]; [by apply (Hcover r0)|lia].
  - destruct (Hrows x0 Hx0) as [(rx & Hrx & Erx & _) Hx0off]. pose proof (Hat x0 Hx0) as Hat0.
    specialize (IH b1 Hok1). unfold all_readable, pending_rows in IH. rewrite Ho1 in IH.
    assert (length (pending_rows (offset (sub_name s) b1) b) < length (pending_rows off b))%nat as Hless
      by (apply (pending_rows_shrink _ _ b rx); [lia|done|lia]).
    specialize (IH Hall Hbatch ltac:(unfold pending_rows in *; lia)).
    pose proof (deliver_batches_safe fuel s b1 Hok1) as (_ & Hg2 & _).
    destruct (deliver_batches schemas maxAttempts batchSize fuel s b1) as [[e|[]] b2]; [done|].
    intros r0 x Hr Hx Hc. destruct (Hsplit r0 Hr Hc) as [Hw|[_ Hlater]%Hrest].
    + apply (settled_grows s x b1 b2); [|done]. by apply Hset1, (Hcover r0).
    + apply (IH r0); [done|done|]. simpl in Hb. specialize (Hb (st_cursor r0 - 1)).
      enough (offset (sub_name s) b1 <= st_cursor r0 - 1) by lia. apply Hb; [|fold off; lia].
      intros y Hy. specialize (Hlater y Hy). destruct (Hrows y Hy). split; [done|lia].
Qed.

Lemma deliver_to_safe ss b :
  bus_ok b -> let b' := snd (deliver_to schemas maxAttempts batchSize ss b) in
  bus_ok b' /\ grows b b' /\ outbox b' = outbox b /\ subs b' = subs b.
Proof.
  revert b. induction ss as [|s ss IH]; intros b Hok; [by auto using grows_refl|]. cbn [deliver_to].
  pose proof (deliver_batches_safe (S (length (outbox b))) s b Hok) as H.
  destruct (deliver_batches schemas maxAttempts batchSize (S (length (outbox b))) s b) as [[e|[]] b1]; simpl in H; [tauto|].
  destruct H as (Hok1 & Hg1 & Ho1 & Hs1 & _). destruct (IH b1 Hok1) as (Hok2 & Hg2 & Ho2 & Hs2).
  split_and!; [done|by eapply grows_trans|congruence|congruence].
Qed.

(** After a delivery to a list of consumers each event is settled for each. *)
Lemma deliver_to_complete ss b :
  bus_ok b -> all_readable b -> 1 <= batchSize <= 1000 -> NoDup (map sub_name ss) ->
  match deliver_to schemas maxAttempts batchSize ss b with
  | (inr _, b') => forall s r0 x, s ∈ ss -> r0 ∈ outbox b -> readable schemas r0 = Some x ->
      offset (sub_name s) b < st_cursor r0 -> settled s x b'
  | (inl e, _) => exists s x u, s ∈ ss /\ sub_handler s (st_envelope x) u = inl e
  end.
Proof.
  revert b. induction ss as [|s ss IH]; intros b Hok Hall Hbatch Hnd; cbn [deliver_to].
  { by intros s r0 x ?%elem_of_nil. }
  apply NoDup_cons in Hnd as [Hni Hnd].
  pose proof (deliver_batches_complete (S (length (outbox b))) s b Hok Hall Hbatch (pending_rows_length _ b)) as Hc.
  pose proof (deliver_batches_safe (S (length (outbox b))) s b Hok) as H.
  destruct (deliver_batches schemas maxAttempts batchSize (S (length (outbox b))) s b) as [[e|[]] b1]; simpl in H.
  { destruct Hc as (x & u & Hu). exists s, x, u. split; [left|done]. }
  destruct H as (Hok1 & Hg1 & Ho1 & Hs1 & Hother). specialize (IH b1 Hok1). unfold all_readable in IH. rewrite Ho1 in IH.
  specialize (IH Hall Hbatch Hnd). pose proof (deliver_to_safe ss b1 Hok1) as (_ & Hg2 & _).
  destruct (deliver_to schemas maxAttempts batchSize ss b1) as [[e|[]] b2].
  { destruct IH as (s' & x & u & Hin & Hu). exists s', x, u. split; [by right|done]. }
  intros s' r0 x [-> |Hin]%elem_of_cons Hr Hx Hlt.
  - apply (settled_grows s x b1 b2); [|done]. by apply (Hc r0).
  - apply (IH s' r0 x Hin Hr Hx). rewrite Hother; [done|]. intros E. apply Hni. rewrite <- E.
    by apply list_elem_of_fmap_2.
Qed.

(** *** Calls *)

(** What is done with a bus; [C_reopen] is a new process on the database. *)
Inductive BusCall : Type :=
  | C_subscribe (s : Sub U)
  | C_unsubscribe (name : string)
  | C_publish (e : EventEnvelope)
  | C_deliver
  | C_reopen.

Definition perform (c : BusCall) b : SqliteEventBus U :=
  match c with
  | C_subscribe s => snd (subscribe s b)
  | C_unsubscribe name => unsubscribe name b
  | C_publish e => snd (publish schemas maxAttempts e b)
  | C_deliver => snd (deliver schemas maxAttempts batchSize b)
  | C_reopen => reopen b
  end.

Definition perform_all (cs : list BusCall) b : SqliteEventBus U := fold_left (fun b c => perform c b) cs b.

(** The bus of a new database. *)
Definition new_bus (u : U) : SqliteEventBus U :=
  {| outbox := []; sequence := 0; inbox := ∅; consumer_offsets := ∅; retries := ∅; dead_letters := ∅; subscriptions := ∅;
     user := u; subs := []; runs := [] |}.

Lemma new_bus_ok u : bus_ok (new_bus u).
Proof.
  split; simpl; [constructor|by intros r ?%elem_of_nil|done|apply NoDup_nil_2|apply NoDup_nil_2| | | | | | |].
  - intros c. unfold offset. simpl. by rewrite lookup_empty.
  - intros c. constructor.
  - by intros c k ?%elem_of_nil.
  - by intros c k ?%elem_of_nil.
  - by intros c id ?%elem_of_empty.
  - by intros c k d.
  - by intros c k n m.
Qed.

Lemma set_subs_ok l b : bus_ok b -> NoDup (map sub_name l) -> bus_ok (set_subs l b).
Proof. intros [] Hl. by split. Qed.

Lemma subscribe_ok s b : bus_ok b -> bus_ok (snd (subscribe s b)) /\ grows b (snd (subscribe s b)).
Proof.
  intros Hok. unfold subscribe. destruct (has_sub (sub_name s) b) eqn:E; [by auto using grows_refl|].
  assert (NoDup (map sub_name (subs b ++ [s]))) as Hnd.
  { rewrite map_app. apply NoDup_app. split_and!; [apply (bo_subs b Hok)| |apply NoDup_singleton].
    intros n (y & -> & Hy)%list_elem_of_fmap Hn%list_elem_of_singleton. apply not_true_iff_false in E.
    apply E, existsb_exists. exists y. split; [by apply list_elem_of_In|]. by apply streq_spec. }
  pose proof (set_subs_ok (subs b ++ [s]) b Hok Hnd) as Hok'. destruct (subscriptions b !! sub_name s).
  - case_bool_decide; [by split|by auto using grows_refl].
  - split; [|done]. destruct Hok' as [H1 H2 H3 H4 H5 H6 H7 H8 H9 H10 H11 H12].
    split; [exact H1|exact H2|exact H3|exact H4|exact H5|exact H6|exact H7|exact H8|exact H9|exact H10|exact H11|exact H12].
Qed.

Lemma unsubscribe_ok name b : bus_ok b -> bus_ok (unsubscribe name b).
Proof.
  intros Hok. apply set_subs_ok; [done|]. pose proof (bo_subs b Hok) as Hnd. revert Hnd. clear. generalize (subs b) as l.
  induction l as [|s l IH]; intros Hnd; [done|]. apply NoDup_cons in Hnd as [Hni Hnd]. simpl.
  destruct (negb _); [|by apply IH]. simpl. apply NoDup_cons. split; [|by apply IH].
  intros (y & E & [Hy _]%list_elem_of_In%filter_In)%list_elem_of_fmap. apply Hni. rewrite E.
  apply list_elem_of_fmap_2. by apply list_elem_of_In.
Qed.

Lemma call_ok c b : bus_ok b -> bus_ok (perform c b) /\ grows b (perform c b).
Proof.
  intros Hok. destruct c; simpl.
  - by apply subscribe_ok.
  - split; [by apply unsubscribe_ok|done].
  - by apply publish_ok.
  - by destruct (deliver_to_safe (subs b) b Hok) as (? & ? & _).
  - split; [apply set_subs_ok; [done|apply NoDup_nil_2]|done].
Qed.

Lemma calls_ok cs b : bus_ok b -> bus_ok (perform_all cs b) /\ grows b (perform_all cs b).
Proof.
  revert b. induction cs as [|c cs IH]; intros b Hok; [by auto using grows_refl|].
  destruct (call_ok c b Hok) as [Hok1 Hg1]. destruct (IH (perform c b) Hok1) as [Hok2 Hg2].
  split; [done|]. by eapply grows_trans.
Qed.

(** *** What every operation preserves *)

Section Preserve.
Context (P : SqliteEventBus U -> Prop).
Context (Hprocess : forall s x b, bus_ok b -> stored_as x b -> s ∈ subs b -> P b -> P (snd (process maxAttempts s x b))).

Lemma offer_all_preserves ss x b :
  bus_ok b -> stored_as x b -> ss ⊆ subs b -> P b -> P (offer_all maxAttempts ss x b).
Proof.
  revert b. induction ss as [|s ss IH]; intros b Hok Hst Hss Hb; [done|].
  change (offer_all maxAttempts (s :: ss) x b) with (offer_all maxAttempts ss x (snd (process maxAttempts s x b))).
  pose proof (process_ok b s x Hok Hst) as H. pose proof (Hprocess s x b Hok Hst (Hss s (list_elem_of_here _ _)) Hb) as Hp.
  destruct (process maxAttempts s x b) as [r b1]. destruct H as (Hok1 & _ & Ho & Hs & _). simpl in *.
  apply IH; [done|by apply (stored_same x b)| |done]. rewrite Hs. intros y Hy. apply Hss. by right.
Qed.

Lemma process_all_preserves s rows b :
  bus_ok b -> (forall x, x ∈ rows -> stored_as x b) -> s ∈ subs b -> P b -> P (snd (process_all maxAttempts s rows b)).
Proof.
  revert b. induction rows as [|x rows IH]; intros b Hok Hst Hin Hb; cbn [process_all]; [done|].
  pose proof (process_ok b s x Hok (Hst x (list_elem_of_here _ _))) as H.
  pose proof (Hprocess s x b Hok (Hst x (list_elem_of_here _ _)) Hin Hb) as Hp.
  destruct (process maxAttempts s x b) as [[e|[]] b1]; [done|]. destruct H as (Hok1 & _ & Ho & Hs & _).
  apply IH; [done| |by rewrite Hs|done]. intros y Hy. apply (stored_same y b); [done|]. apply Hst. by right.
Qed.

Lemma deliver_batches_preserves fuel s b :
  bus_ok b -> s ∈ subs b -> P b -> P (snd (deliver_batches schemas maxAttempts batchSize fuel s b)).
Proof.
  revert b. induction fuel as [|fuel IH]; intros b Hok Hin Hb; cbn [deliver_batches]; [done|].
  set (rows := replay _ _ _ _ _ _). destruct rows as [|x rows'] eqn:E; [done|]. rewrite <- E.
  assert (forall y, y ∈ rows -> stored_as y b) as Hst by (intros y Hy; by apply (replay_stored b _ _ _ y Hy)).
  pose proof (process_all_ok s rows b Hok Hst) as H. pose proof (process_all_preserves s rows b Hok Hst Hin Hb) as Hp.
  destruct (process_all maxAttempts s rows b) as [[e|[]] b1]; [done|]. destruct H as (Hok1 & _ & _ & Hs & _).
  destruct (_ <? _); [done|]. apply IH; [done|by rewrite Hs|done].
Qed.

Lemma deliver_to_preserves ss b :
  bus_ok b -> ss ⊆ subs b -> P b -> P (snd (deliver_to schemas maxAttempts batchSize ss b)).
Proof.
  revert b. induction ss as [|s ss IH]; intros b Hok Hss Hb; cbn [deliver_to]; [done|].
  pose proof (deliver_batches_safe (S (length (outbox b))) s b Hok) as H.
  pose proof (deliver_batches_preserves (S (length (outbox b))) s b Hok (Hss s (list_elem_of_here _ _)) Hb) as Hp.
  destruct (deliver_batches schemas maxAttempts batchSize (S (length (outbox b))) s b) as [[e|[]] b1]; [done|].
  simpl in *. destruct H as (Hok1 & _ & _ & Hs & _). apply IH; [done| |done]. rewrite Hs. intros y Hy. apply Hss. by right.
Qed.

Context (Hinsert : forall e b, bus_ok b -> P b -> P (insert_event e b)).

Lemma publish_preserves e b : bus_ok b -> P b -> P (snd (publish schemas maxAttempts e b)).
Proof.
  intros Hok Hb. unfold publish. destruct (normalize schemas e) as [err|env]; [done|].
  destruct (insert_event_ok env b Hok) as [Hok1 _]. pose proof (Hinsert env b Hok Hb) as Hb1.
  destruct (List.find _ _) as [row|] eqn:E; [|done]. simpl.
  apply find_some in E as [Hrow%list_elem_of_In Hid]. unfold has_id in Hid. bool_hyps.
  apply offer_all_preserves; [done|by exists row|done|done].
Qed.
End Preserve.
End Delivery.

Arguments BusCall : clear implicits.
