(* ===== verification/EventEffects.v ===== *)
(** The effects of event handlers (`src/autonomy/events/index.ts`): each consumer's
    effect is in the tables once per event, a delivery settles every event, and an
    event whose handler failed is skipped by the next publish. *)
From stdpp Require Import gmap sets sorting.
From S2P Require Import Prelude Canonical Events EventDelivery.
#[local] Open Scope string_scope.
#[local] Open Scope list_scope.
#[local] Open Scope Z_scope.

(** *** Effects *)

(** A handler that writes one row, who handled what, to its table. *)
Definition writes_row (s : Sub (list (string * string))) : Prop :=
  forall e u u', sub_handler s e u = inr u' -> u' = u ++ [(sub_name s, ev_id e)].

Section Effects.
Context (schemas : string -> option EventSchema) (maxAttempts batchSize : Z).
Implicit Types (b : SqliteEventBus (list (string * string))) (s : Sub (list (string * string))).

(** The id of the event at a cursor. *)
Definition id_at b (k : Z) : string :=
  match List.find (fun r => st_cursor r =? k) (outbox b) with Some r => ev_id (st_envelope r) | None => "" end.

(** The table holds a row for each committed run, in their order. *)
Definition table_ok b : Prop :=
  (forall s, s ∈ subs b -> writes_row s) /\ user b = map (fun r => (r.1, id_at b r.2)) (runs b).

(** A cursor is of one row. *)
Lemma id_at_row b r : bus_ok maxAttempts b -> r ∈ outbox b -> id_at b (st_cursor r) = ev_id (st_envelope r).
Proof.
  intros Hok Hr. unfold id_at. enough (List.find (fun x => st_cursor x =? st_cursor r) (outbox b) = Some r) as -> by done.
  pose proof (bo_sorted_rows _ b Hok) as Hs. revert Hr. induction Hs as [|x l Hl IH Hx]; [by intros ?%elem_of_nil|].
  rewrite List.Forall_forall in Hx. intros [-> |Hr]%elem_of_cons; simpl; [by rewrite Z.eqb_refl|].
  specialize (Hx r (proj1 (list_elem_of_In _ _) Hr)). unfold precedes in Hx.
  destruct (Z.eqb_spec (st_cursor x) (st_cursor r)); [lia|by apply IH].
Qed.

Lemma process_table s x b :
  bus_ok maxAttempts b -> stored_as x b -> s ∈ subs b -> table_ok b -> table_ok (snd (process maxAttempts s x b)).
Proof.
  intros Hok Hst Hin [Hs Hu]. unfold process. destruct (_ <=? _); [done|].
  destruct (matches_options _ _); [destruct (sub_handler _ _ _) as [msg|u] eqn:Eh|].
  - by destruct (maxAttempts <=? _).
  - split; [done|]. simpl. rewrite (Hs s Hin _ _ _ Eh), map_app, Hu. simpl. do 3 f_equal.
    destruct Hst as (r & Hr & E1 & E2). rewrite <- E1, <- E2. symmetry. by apply (id_at_row b).
  - done.
Qed.

Lemma find_app_none {A} (f : A -> bool) (l : list A) x : f x = false -> List.find f (l ++ [x]) = List.find f l.
Proof. intros Hx. induction l as [|y l IH]; simpl; [by rewrite Hx|]. by rewrite IH. Qed.

Lemma insert_table e b : bus_ok maxAttempts b -> table_ok b -> table_ok (insert_event e b).
Proof.
  intros Hok [Hs Hu]. split; [done|]. simpl. rewrite Hu.
  apply map_ext_in. intros [c k] Hk%list_elem_of_In. simpl. f_equal. unfold id_at. simpl. destruct (existsb _ _); [done|].
  pose proof (bo_runs _ b Hok c k Hk). pose proof (bo_offset _ b Hok c).
  rewrite find_app_none; [done|]. simpl. lia.
Qed.

Lemma perform_table c b :
  (match c with C_subscribe s => writes_row s | _ => True end) ->
  bus_ok maxAttempts b -> table_ok b -> table_ok (perform schemas maxAttempts batchSize c b).
Proof.
  intros Hc Hok Hb. destruct c as [s|name|e| |]; simpl.
  - unfold subscribe. assert (forall t, t ∈ subs b ++ [s] -> writes_row t) as Ht.
    { intros t [Ht|Ht%list_elem_of_singleton]%elem_of_app; [by apply (proj1 Hb)|by subst]. }
    destruct (has_sub _ _); [done|]. destruct (subscriptions b !! _); [case_bool_decide; [|done]|];
      (split; [done|apply Hb]).
  - split; [|apply Hb]. intros s [Hs _]%list_elem_of_In%filter_In. apply (proj1 Hb). by apply list_elem_of_In.
  - apply publish_preserves; [exact process_table|exact insert_table|done|done].
  - unfold deliver. apply deliver_to_preserves; [exact process_table|done|done|done].
  - split; [|apply Hb]. by intros s ?%elem_of_nil.
Qed.

Lemma perform_all_table cs b :
  (forall s, C_subscribe s ∈ cs -> writes_row s) -> bus_ok maxAttempts b -> table_ok b ->
  table_ok (perform_all schemas maxAttempts batchSize cs b).
Proof.
  revert b. induction cs as [|c cs IH]; intros b Hcs Hok Hb; [done|].
  apply (IH (perform schemas maxAttempts batchSize c b)).
  - intros s Hs. apply Hcs. by right.
  - by apply call_ok.
  - apply perform_table; [|done|done]. destruct c; try done. apply Hcs. left.
Qed.

Lemma runs_NoDup b : bus_ok maxAttempts b -> NoDup (runs b).
Proof.
  intros Hok. assert (forall c, NoDup (map snd (List.filter (fun r => streq (fst r) c) (runs b)))) as H
    by (intros c; apply sorted_NoDup, (bo_sorted _ b Hok)).
  revert H. generalize (runs b) as l. clear. induction l as [|[c k] l IH]; intros H; [apply NoDup_nil_2|].
  apply NoDup_cons. split.
  - intros Hin. specialize (H c). simpl in H. rewrite streq_refl in H. simpl in H. apply NoDup_cons in H as [Hni _].
    apply Hni. change k with (snd (c, k)). apply list_elem_of_fmap_2. apply list_elem_of_In, filter_In.
    split; [by apply list_elem_of_In|]. by apply streq_refl.
  - apply IH. intros c'. specialize (H c'). simpl in H. destruct (streq c c'); [|done]. by apply NoDup_cons in H as [_ ?].
Qed.

Lemma NoDup_map_eq {A B} (f : A -> B) (l : list A) x y :
  NoDup (map f l) -> x ∈ l -> y ∈ l -> f x = f y -> x = y.
Proof.
  intros Hnd (i & Hi)%list_elem_of_lookup_1 (j & Hj)%list_elem_of_lookup_1 E.
  enough (i = j) as ->; [congruence|].
  apply (NoDup_lookup (f <$> l) i j (f x)); [exact Hnd| |]; rewrite list_lookup_fmap, ?Hi, ?Hj; simpl; by rewrite ?E.
Qed.

(** A table that follows the runs has no row twice. *)
Lemma table_NoDup b : bus_ok maxAttempts b -> table_ok b -> NoDup (user b).
Proof.
  intros Hok [_ ->]. apply (NoDup_fmap_2_strong (fun r => (r.1, id_at b r.2))); [|by apply runs_NoDup].
  intros [c k] [c' k'] Hk Hk' E. simpl in E. injection E as -> E. f_equal.
  destruct (bo_run_rows _ b Hok _ _ Hk) as (r & Hr & <-), (bo_run_rows _ b Hok _ _ Hk') as (r' & Hr' & <-).
  rewrite !id_at_row in E by done. by rewrite (NoDup_map_eq (fun x => ev_id (st_envelope x)) (outbox b) r r' (bo_ids _ b Hok) Hr Hr' E).
Qed.
End Effects.

(** *** The properties *)

(** A bus that calls reached from a new database whose other tables hold [u]. *)
Definition reached_bus {U} (schemas : string -> option EventSchema) (maxAttempts batchSize : Z)
    (cs : list (BusCall U)) (u : U) : SqliteEventBus U := perform_all schemas maxAttempts batchSize cs (new_bus u).

(** C35: whatever is subscribed, published, delivered and reopened, a durable bus
    keeps its tables consistent, and a handler's effect is in its tables at most
    once: when each handler writes a row with its name and the event's id, no row
    is there twice, although events are offered again after failures, by publishes
    and by deliveries.  The events have distinct ids and strictly growing cursors
    (with gaps: a publish of an id that is there uses a number up), each consumer
    commits its events in the order of their cursors and at most once, and an event
    that was given up was not handled. *)
Theorem effects_once schemas maxAttempts batchSize cs :
  (forall s, C_subscribe s ∈ cs -> writes_row s) ->
  let b := reached_bus schemas maxAttempts batchSize cs [] in
  NoDup (user b) /\ bus_ok maxAttempts b.
Proof.
  intros Hcs b. pose proof (new_bus_ok maxAttempts ([] : list (string * string))) as Hnew.
  assert (bus_ok maxAttempts b) as Hok by (by apply calls_ok). split; [|done].
  apply (table_NoDup maxAttempts); [done|]. apply perform_all_table; [done|done|]. split; [by intros s ?%elem_of_nil|done].
Qed.

(** A delivery on a durable bus ends, and when it ends without an error every
    stored event after a consumer's offset was handled by it, given up after
    [maxAttempts], or not of its kind, and its offset is past it; an error is one a
    handler raised.  The batch size is one the replay can read at once, and every
    stored event reads back. *)
Theorem delivery_settles {U} schemas maxAttempts batchSize cs (u : U) :
  let b := reached_bus schemas maxAttempts batchSize cs u in
  1 <= batchSize <= 1000 -> all_readable schemas b ->
  match deliver schemas maxAttempts batchSize b with
  | (inr _, b') => forall s r x, s ∈ subs b -> r ∈ outbox b -> readable schemas r = Some x ->
      offset (sub_name s) b < st_cursor r -> settled s x b'
  | (inl e, _) => exists s x v, s ∈ subs b /\ sub_handler s (st_envelope x) v = inl e
  end.
Proof.
  intros b Hbatch Hall. assert (bus_ok maxAttempts b) as Hok by (apply calls_ok, new_bus_ok).
  apply deliver_to_complete; [done|done|done|]. apply (bo_subs _ b Hok).
Qed.

(** *** Witnesses *)

Definition demo_event (id : string) : EventEnvelope :=
  {| ev_id := id; ev_type := "market.price"; ev_version := 1; ev_source := "feed"; ev_correlationId := id;
     ev_causationId := None; ev_occurredAt := ""; ev_block := None; ev_provenance := None;
     ev_payload := V_object [("value", V_bigint 7)] |}.

Definition demo_sub : Sub (list (string * string)) :=
  {| sub_name := "ledger"; sub_handler := fun e u => inr (u ++ [("ledger", ev_id e)]); sub_options := no_options |}.

(** A handler that fails on its first event while its table is empty. *)
Definition flaky_sub : Sub (list (string * string)) :=
  {| sub_name := "ledger";
     sub_handler := fun e u => if streq (ev_id e) "a" then inl "busy" else inr (u ++ [("ledger", ev_id e)]);
     sub_options := no_options |}.

Definition demo_calls : list (BusCall (list (string * string))) :=
  [C_subscribe demo_sub; C_publish (demo_event "a"); C_publish (demo_event "b"); C_publish (demo_event "a"); C_deliver].

Definition no_schemas (type : string) : option EventSchema := None.

Lemma effects_once_witness : NoDup (user (reached_bus no_schemas 5 100 demo_calls [])).
Proof.
  apply (effects_once no_schemas 5 100 demo_calls). intros s Hs.
  assert (s = demo_sub) as ->.
  { unfold demo_calls in Hs. repeat (apply elem_of_cons in Hs as [Hs|Hs]; [first [discriminate Hs|by injection Hs]|]).
    by apply elem_of_nil in Hs. }
  intros e u u' [= <-]. reflexivity.
Defined.

Lemma delivery_settles_witness :
  match deliver no_schemas 5 100 (reached_bus no_schemas 5 100 [C_publish (demo_event "a"); C_subscribe demo_sub] []) with
  | (inr _, b') => settled demo_sub {| st_cursor := 1; st_envelope := demo_event "a" |} b'
  | (inl _, _) => True
  end.
Proof.
  pose proof (delivery_settles no_schemas 5 100 [C_publish (demo_event "a"); C_subscribe demo_sub] []) as H.
  cbv zeta in H. specialize (H ltac:(split; discriminate)).
  destruct (deliver no_schemas 5 100 _) as [[e|[]] b']; [exact I|].
  apply (H ltac:(intros r Hr; apply list_elem_of_singleton in Hr as ->; by eexists)
           demo_sub {| st_cursor := 1; st_envelope := demo_event "a" |}); [left|left|reflexivity|reflexivity].
Defined.

(** An id that is published again uses a cursor up. *)
Example republish_leaves_gap :
  let b := perform_all no_schemas 5 100
             (map (fun id => C_publish (demo_event id)) ["a"; "a"; "a"; "b"]) (new_bus (tt : unit)) in
  map (fun r => (ev_id (st_envelope r), st_cursor r)) (outbox b) = [("a", 1); ("b", 4)].
Proof. by vm_compute. Qed.

(** The event "a" failed once; publishing "b" moves the offset past it, so it is
    neither handled nor given up, and no delivery offers it again. *)
Lemma publish_skips_failed :
  let b := perform_all no_schemas 5 100 [C_subscribe flaky_sub; C_publish (demo_event "a"); C_publish (demo_event "b")] (new_bus []) in
  offset "ledger" b = 2 /\ user b = [("ledger", "b")] /\ dead_letters b = ∅ /\
  retries b !! ("ledger", 1) = Some (1, "busy") /\ deliver no_schemas 5 100 b = (inr tt, b).
Proof. by vm_compute. Qed.
