(* ===== verification/Delegation.v ===== *)
(** `src/autonomy/delegation/index.ts`: child runs with limits and attenuated
    capabilities.

    The manager is a state machine: its synchronous methods, and one operation for
    each point where `#run` or `#finish` goes on after an `await`, with what was
    awaited as an argument.  An entry's [phase] says where its run waits.  The
    operations may come in any order.  Cloning and freezing are left out: values
    are immutable here.  Limits on counts are integers. *)
From stdpp Require Import gmap pretty.
From S2P Require Import Prelude Table Canonical Money Schedule Events.
From Stdlib Require Import QArith.
#[local] Open Scope string_scope.
#[local] Open Scope list_scope.
#[local] Open Scope Z_scope.
#[local] Open Scope result_scope.

Inductive DelegationStatus : Type := D_queued | D_running | D_completed | D_failed | D_cancelled.

#[export] Instance DelegationStatus_eq_dec : EqDecision DelegationStatus.
Proof. solve_decision. Defined.

Inductive CapabilityEffect : Type := read | write | execute | network.

#[export] Instance CapabilityEffect_eq_dec : EqDecision CapabilityEffect.
Proof. solve_decision. Defined.

Record CapabilityGrant : Type := { cg_name : string; cg_effect : CapabilityEffect }.

(** What a child runtime returns; a field of the wrong type is [None]. *)
Record ChildRuntimeResult : Type := {
  cr_summary : option string; cr_iterations : option Z; cr_costUsd : number; cr_details : option value
}.

Record SpawnRequest : Type := {
  sr_task : string; sr_parentSessionId : string; sr_parentCapabilities : list string;
  sr_requestedCapabilities : list string; sr_depth : option Z; sr_context : option value; sr_model : option value
}.

Record DelegationResult : Type := {
  dr_status : DelegationStatus; dr_summary : option string; dr_details : option value;
  dr_iterations : option Z; dr_costUsd : option number; dr_error : option string;
  dr_announced : bool; dr_archived : bool
}.

Record DelegationLimits : Type := {
  maxDepth : Z; maxChildren : Z; maxIterations : Z; deadlineMs : Z; maxCostUsd : Q; concurrency : Z
}.

Definition defaults : DelegationLimits :=
  {| maxDepth := 2; maxChildren := 4; maxIterations := 8; deadlineMs := 30000; maxCostUsd := 1; concurrency := 2 |}.

Definition defaultCapabilities : list CapabilityGrant := [{| cg_name := "market:read"; cg_effect := read |}].

(** Where the run of an entry waits: [Finishing] and the end of `#finish`, from the
    run or from a cancelled entry that never ran. *)
Inductive Phase : Type :=
  | Waiting
  | Racing
  | Verifying (raw : ChildRuntimeResult)
  | Finishing (from_run : bool)
  | Done.

Record Entry : Type := {
  en_request : SpawnRequest; en_id : string; en_depth : Z; en_status : DelegationStatus;
  en_abort : option string; en_settled : bool; en_counted : bool; en_phase : Phase;
  en_result : option DelegationResult
}.

Record DelegationManager : Type := {
  queue : list string; entries : list Entry; counts : gmap string Z; active : Z; sequence : Z
}.

Definition terminal (s : DelegationStatus) : bool :=
  match s with D_completed | D_failed | D_cancelled => true | _ => false end.

(** What `structuredClone` accepts: [V_other] is a function or a symbol. *)
Fixpoint cloneable (v : value) : bool :=
  match v with
  | V_array l => forallb cloneable l
  | V_object fs => forallb (fun f => cloneable (snd f)) fs
  | V_other => false
  | _ => true
  end.

(** `boundary`: a value that cannot be cloned is refused. *)
Definition boundary (v : option value) (label : string) : result unit :=
  match v with
  | Some x => throw_on (negb (cloneable x)) (String.append label " must be cloneable")
  | None => inr tt
  end.

Section Manager.
(** The options: the limits, the granted names, and the callbacks that are there. *)
Context (limits : DelegationLimits) (allowed : list string) (enforcer : option (string -> string -> string -> bool))
        (verifies : bool).

Definition count (p : string) (m : DelegationManager) : Z := default 0 (counts m !! p).

Definition child_id (parent : string) (n : Z) : string := String.append parent (String.append ":child:" (pretty n)).

Definition permitted (r : SpawnRequest) : list string :=
  List.filter (fun c => includes (sr_parentCapabilities r) c && includes allowed c) (sr_requestedCapabilities r).

Definition spawn (r : SpawnRequest) (m : DelegationManager) : result string * DelegationManager :=
  let depth := default 0 (sr_depth r) + 1 in
  let n := count (sr_parentSessionId r) m in
  let capabilities := permitted r in
  match (check maxDepth limits <? depth else "maximum delegation depth exceeded";
         check maxChildren limits <=? n else "maximum children exceeded";
         check negb (nonempty capabilities) else "no permitted read-only capabilities";
         let? _u := boundary (sr_context r) "context" in
         boundary (sr_model r) "model") with
  | inl e => (inl e, m)
  | inr _ =>
      let id := child_id (sr_parentSessionId r) (sequence m + 1) in
      let entry := {| en_request := {| sr_task := sr_task r; sr_parentSessionId := sr_parentSessionId r;
                                       sr_parentCapabilities := sr_parentCapabilities r;
                                       sr_requestedCapabilities := capabilities; sr_depth := sr_depth r;
                                       sr_context := sr_context r; sr_model := sr_model r |};
                      en_id := id; en_depth := depth; en_status := D_queued; en_abort := None; en_settled := false;
                      en_counted := true; en_phase := Waiting; en_result := None |} in
      (inr id, {| queue := queue m ++ [id]; entries := entries m ++ [entry];
                  counts := <[sr_parentSessionId r := n + 1]> (counts m); active := active m; sequence := sequence m + 1 |})
  end.

(** *** Changes of one entry *)

Definition set_entry (id : string) (f : Entry -> Entry) (m : DelegationManager) : DelegationManager :=
  {| queue := queue m; entries := update_where (fun e => streq (en_id e) id) f (entries m); counts := counts m;
     active := active m; sequence := sequence m |}.

(** `controller.abort(reason)`: the first reason stays. *)
Definition abort_entry (reason : string) (e : Entry) : Entry :=
  {| en_request := en_request e; en_id := en_id e; en_depth := en_depth e; en_status := en_status e;
     en_abort := Some (default reason (en_abort e)); en_settled := en_settled e; en_counted := en_counted e;
     en_phase := en_phase e; en_result := en_result e |}.

(** The part of a result its caller gives. *)
Definition partial_result (st : DelegationStatus) (error : option string) (raw : option ChildRuntimeResult) :
    DelegationResult :=
  {| dr_status := st; dr_summary := match raw with Some r => cr_summary r | None => None end;
     dr_details := match raw with Some r => cr_details r | None => None end;
     dr_iterations := match raw with Some r => cr_iterations r | None => None end;
     dr_costUsd := match raw with Some r => Some (cr_costUsd r) | None => None end;
     dr_error := error; dr_announced := false; dr_archived := false |}.

(** `#finish` up to its first `await`: the entry, and what it does to the counts. *)
Definition settle_entry (res : DelegationResult) (ph : Phase) (e : Entry) : Entry :=
  if en_settled e then
    {| en_request := en_request e; en_id := en_id e; en_depth := en_depth e; en_status := en_status e;
       en_abort := en_abort e; en_settled := true; en_counted := en_counted e; en_phase := ph; en_result := en_result e |}
  else
    {| en_request := en_request e; en_id := en_id e; en_depth := en_depth e; en_status := dr_status res;
       en_abort := en_abort e; en_settled := true; en_counted := false; en_phase := ph; en_result := Some res |}.

Definition finish (e : Entry) (res : DelegationResult) (ph : Phase) (m : DelegationManager) : DelegationManager :=
  let m1 := set_entry (en_id e) (settle_entry res ph) m in
  if negb (en_settled e) && en_counted e then
    let p := sr_parentSessionId (en_request e) in
    {| queue := queue m1; entries := entries m1;
       counts := <[p := Z.max 0 (default 1 (counts m1 !! p) - 1)]> (counts m1); active := active m1;
       sequence := sequence m1 |}
  else m1.

Definition find_entry (id : string) (m : DelegationManager) : option Entry := get en_id id (entries m).

(** *** Cancellation *)

(** `#cancel`; [reason] is the text of the reason. *)
Definition cancel (id reason : string) (m : DelegationManager) : DelegationManager :=
  match find_entry id m with
  | None => m
  | Some e =>
      if terminal (en_status e) then m
      else
        let m1 := set_entry id (abort_entry reason) m in
        if bool_decide (en_status e = D_queued) then
          let m2 := {| queue := List.filter (fun x => negb (streq x id)) (queue m1); entries := entries m1;
                       counts := counts m1; active := active m1; sequence := sequence m1 |} in
          finish e (partial_result D_cancelled (Some reason) None) (Finishing false) m2
        else m1
  end.

(** `visit` of `cancelParent`; an id is longer than its parent's, so [fuel] the
    number of entries and one is enough. *)
Fixpoint visit (fuel : nat) (p reason : string) (m : DelegationManager) : DelegationManager :=
  match fuel with
  | O => m
  | S fuel' =>
      fold_left (fun m id =>
        match find_entry id m with
        | Some e =>
            if streq (sr_parentSessionId (en_request e)) p && negb (terminal (en_status e))
            then cancel id reason (visit fuel' id reason m) else m
        | None => m
        end) (map en_id (entries m)) m
  end.

Definition cancelParent (p reason : string) (m : DelegationManager) : DelegationManager :=
  visit (S (length (entries m))) p reason m.

(** *** Runs *)

Definition set_phase (st : DelegationStatus) (ph : Phase) (e : Entry) : Entry :=
  {| en_request := en_request e; en_id := en_id e; en_depth := en_depth e; en_status := st; en_abort := en_abort e;
     en_settled := en_settled e; en_counted := en_counted e; en_phase := ph; en_result := en_result e |}.

(** `#run` up to its first `await`; [factory] is what `runtimeFactory` throws for an
    entry. *)
Definition start_run (factory : string -> option string) (e : Entry) (m : DelegationManager) : DelegationManager :=
  let m1 := set_entry (en_id e) (set_phase D_running Racing) m in
  let m2 := {| queue := queue m1; entries := entries m1; counts := counts m1; active := active m1 + 1;
               sequence := sequence m1 |} in
  match factory (en_id e) with
  | None => m2
  | Some err => finish (set_phase D_running Racing e) (partial_result D_failed (Some err) None) (Finishing true) m2
  end.

(** The loop of `#drain`; every turn takes an id off the queue, so [fuel] its
    length is enough. *)
Fixpoint drain_loop (fuel : nat) (factory : string -> option string) (m : DelegationManager) : DelegationManager :=
  match fuel with
  | O => m
  | S fuel' =>
      if active m <? concurrency limits then
        match queue m with
        | [] => m
        | id :: rest =>
            let m1 := {| queue := rest; entries := entries m; counts := counts m; active := active m;
                         sequence := sequence m |} in
            match find_entry id m1 with
            | Some e => if bool_decide (en_status e = D_queued)
                        then drain_loop fuel' factory (start_run factory e m1) else drain_loop fuel' factory m1
            | None => drain_loop fuel' factory m1
            end
        end
      else m
  end.

Definition drain (factory : string -> option string) (m : DelegationManager) : DelegationManager :=
  drain_loop (length (queue m)) factory m.

(** The timer of a run. *)
Definition deadline (id : string) (m : DelegationManager) : DelegationManager :=
  match find_entry id m with
  | Some e => match en_phase e with
              | Racing | Verifying _ | Finishing true => set_entry id (abort_entry "deadline exceeded") m
              | _ => m
              end
  | None => m
  end.

Definition raw_invalid (r : ChildRuntimeResult) : bool :=
  match cr_summary r with Some s => negb (nonempty_text s) | None => true end ||
  match cr_iterations r with Some n => n <? 0 | None => true end ||
  match cr_costUsd r with Finite q => negb (Qle_bool 0 q) | _ => true end.

Definition over_budget (r : ChildRuntimeResult) : bool :=
  match cr_iterations r with Some n => maxIterations limits <? n | None => false end ||
  match cr_costUsd r with Finite q => negb (Qle_bool q (maxCostUsd limits)) | _ => false end.

(** What `#run` does with the outcome of the race: an error, or what the runtime
    gave, which may be nothing. *)
Definition race_settled (id : string) (outcome : result (option ChildRuntimeResult)) (m : DelegationManager) :
    DelegationManager :=
  match find_entry id m with
  | None => m
  | Some e =>
      match en_phase e with
      | Racing =>
          let fail err := finish e (partial_result D_failed (Some err) None) (Finishing true) m in
          match en_abort e with
          | Some reason => finish e (partial_result D_cancelled (Some reason) None) (Finishing true) m
          | None =>
              match outcome with
              | inl err => fail err
              | inr None => fail "invalid runtime result"
              | inr (Some raw) =>
                  if raw_invalid raw then fail "invalid runtime result"
                  else if over_budget raw then fail "budget exceeded"
                  else match boundary (cr_details raw) "runtime result" with
                       | inl err => fail err
                       | inr _ =>
                           if verifies then set_entry id (set_phase D_running (Verifying raw)) m
                           else finish e (partial_result D_completed None (Some raw)) (Finishing true) m
                       end
              end
          end
      | _ => m
      end
  end.

(** The answer of the verifier, or its error. *)
Definition verified (id : string) (answer : result bool) (m : DelegationManager) : DelegationManager :=
  match find_entry id m with
  | None => m
  | Some e =>
      match en_phase e with
      | Verifying raw =>
          match answer with
          | inr true => finish e (partial_result D_completed None (Some raw)) (Finishing true) m
          | inr false => finish e (partial_result D_failed (Some "result verification failed") None) (Finishing true) m
          | inl err => finish e (partial_result D_failed (Some (String.append "verifier error: " err)) None) (Finishing true) m
          end
      | _ => m
      end
  end.

(** `[...].filter(Boolean).join("; ")` *)
Fixpoint join_errors (l : list string) : string :=
  match l with
  | [] => ""
  | [x] => x
  | x :: l' => String.append x (String.append "; " (join_errors l'))
  end.

Definition final_result (announce archive : option string) (r : DelegationResult) : DelegationResult :=
  let announces := bool_decide (dr_status r = D_completed) in
  let errors := (if announces then match announce with Some e => [e] | None => [] end else []) ++
                match archive with Some e => [e] | None => [] end in
  {| dr_status := dr_status r; dr_summary := dr_summary r; dr_details := dr_details r;
     dr_iterations := dr_iterations r; dr_costUsd := dr_costUsd r;
     dr_error := if nonempty errors
                 then Some (join_errors (List.filter (fun s => negb (streq s ""))
                        (match dr_error r with Some e => e :: errors | None => errors end)))
                 else dr_error r;
     dr_announced := announces && match announce with None => true | Some _ => false end;
     dr_archived := match archive with None => true | Some _ => false end |}.

Definition resolve_entry (announce archive : option string) (e : Entry) : Entry :=
  {| en_request := en_request e; en_id := en_id e; en_depth := en_depth e; en_status := en_status e;
     en_abort := en_abort e; en_settled := en_settled e; en_counted := en_counted e; en_phase := Done;
     en_result := final_result announce archive <$> en_result e |}.

(** The end of `#finish`, with the errors of `announce` and `archive`, and the
    `finally` of the run. *)
Definition finished (id : string) (announce archive : option string) (factory : string -> option string)
    (m : DelegationManager) : DelegationManager :=
  match find_entry id m with
  | None => m
  | Some e =>
      match en_phase e with
      | Finishing from_run =>
          let m1 := set_entry id (resolve_entry announce archive) m in
          if from_run then
            drain factory {| queue := queue m1; entries := entries m1; counts := counts m1; active := active m1 - 1;
                             sequence := sequence m1 |}
          else m1
      | _ => m
      end
  end.

Definition authorizeDispatch (sessionId capability : string) (m : DelegationManager) : bool :=
  match find_entry sessionId m with
  | None => false
  | Some e =>
      includes (sr_requestedCapabilities (en_request e)) capability && includes allowed capability &&
      match enforcer with Some f => f capability sessionId (sr_parentSessionId (en_request e)) | None => true end
  end.
End Manager.

(** The checks of the constructor; the granted names. *)
Definition construct (limits : DelegationLimits) (grants : list CapabilityGrant) : result (list string) :=
  check maxDepth limits <=? 0 else "maxDepth must be positive";
  check maxChildren limits <=? 0 else "maxChildren must be positive";
  check maxIterations limits <=? 0 else "maxIterations must be positive";
  check deadlineMs limits <=? 0 else "deadlineMs must be positive";
  check Qle_bool (maxCostUsd limits) 0 else "maxCostUsd must be positive";
  check concurrency limits <=? 0 else "concurrency must be positive";
  check existsb (fun g => negb (bool_decide (cg_effect g = read))) grants
    else "delegated capabilities must be read-only";
  inr (map cg_name grants).

Definition new_manager : DelegationManager :=
  {| queue := []; entries := []; counts := ∅; active := 0; sequence := 0 |}.
