(* ===== verification/DelegationSafety.v ===== *)
(** What child runs can do (`src/autonomy/delegation/index.ts`).

    The invariant every operation of the manager keeps, in any order: the limits on
    depth, children, concurrency and budget hold, and a child has only capabilities
    its parent asked for and had.  That a settled child never changes again, and
    that cancelling a parent reaches every live descendant. *)
From stdpp Require Import gmap pretty.
From S2P Require Import Prelude Table Canonical Money Schedule Events Delegation.
From Stdlib Require Import Ascii QArith.
#[local] Open Scope string_scope.
#[local] Open Scope list_scope.
#[local] Open Scope Z_scope.

(** *** Ids *)

(** What follows the last colon of a text. *)
Fixpoint after_colon (s : string) : option string :=
  match s with
  | "" => None
  | String c s' => match after_colon s' with
                   | Some t => Some t
                   | None => if (nat_of_ascii c =? 58)%nat then Some s' else None
                   end
  end.

Lemma after_colon_numeral s : all_chars numeral s = true -> after_colon s = None.
Proof.
  induction s as [|c s IH]; [done|]. simpl. intros H. bool_hyps. rewrite IH by done.
  by destruct c as [[] [] [] [] [] [] [] []].
Qed.

Lemma after_colon_app a s t : after_colon s = Some t -> after_colon (String.append a s) = Some t.
Proof. intros H. induction a as [|c a IH]; [done|]. simpl. by rewrite IH. Qed.

Lemma after_colon_child p n : after_colon (child_id p n) = Some (pretty n).
Proof.
  unfold child_id. apply after_colon_app. simpl.
  by rewrite after_colon_numeral by apply pretty_Z_numeral.
Qed.

Lemma child_id_inj p q n k : child_id p n = child_id q k -> n = k.
Proof.
  intros E. pose proof (after_colon_child p n) as H. rewrite E, after_colon_child in H. by simplify_eq.
Qed.

Lemma append_length a b : String.length (String.append a b) = (String.length a + String.length b)%nat.
Proof. induction a as [|c a IH]; [done|]. simpl. by rewrite IH. Qed.

Lemma child_id_longer p n : (String.length p < String.length (child_id p n))%nat.
Proof. unfold child_id. rewrite !append_length. simpl. lia. Qed.

(** *** The invariant *)

Definition queued (e : Entry) : bool := bool_decide (en_status e = D_queued).

(** An entry whose run has started and not ended. *)
Definition busy (e : Entry) : bool :=
  match en_phase e with Racing | Verifying _ | Finishing true => true | _ => false end.

Definition open_child (p : string) (e : Entry) : bool :=
  streq (sr_parentSessionId (en_request e)) p && negb (en_settled e).

(** The ids that wait, the oldest first. *)
Definition waiting (l : list Entry) : list string := map en_id (List.filter queued l).

Section Safety.
Context (limits : DelegationLimits) (allowed : list string) (verifies : bool).

(** What a child may report of itself. *)
Definition within_budget (r : DelegationResult) : Prop :=
  (exists s, dr_summary r = Some s /\ nonempty_text s = true) /\
  (exists n, dr_iterations r = Some n /\ 0 <= n <= maxIterations limits) /\
  (exists q, dr_costUsd r = Some (Finite q) /\ (0 <= q <= maxCostUsd limits)%Q).

Definition status_of_phase (e : Entry) : Prop :=
  match en_phase e with
  | Waiting => en_status e = D_queued
  | Racing | Verifying _ => en_status e = D_running
  | Finishing _ | Done => terminal (en_status e) = true
  end.

Record entry_ok (n : Z) (e : Entry) : Prop := {
  eo_id : exists k, 1 <= k <= n /\ en_id e = child_id (sr_parentSessionId (en_request e)) k;
  eo_depth : en_depth e = default 0 (sr_depth (en_request e)) + 1 /\ en_depth e <= maxDepth limits;
  eo_some : sr_requestedCapabilities (en_request e) <> [];
  eo_capabilities : forall c, c ∈ sr_requestedCapabilities (en_request e) ->
    c ∈ sr_parentCapabilities (en_request e) /\ c ∈ allowed;
  eo_phase : status_of_phase e;
  eo_settled : en_settled e = terminal (en_status e);
  eo_counted : en_counted e = negb (en_settled e);
  eo_result : forall r, en_result e = Some r ->
    en_settled e = true /\ dr_status r = en_status e /\ (en_status e = D_completed -> within_budget r);
  eo_has_result : en_settled e = true -> en_result e <> None;
  eo_raw : forall raw, en_phase e = Verifying raw ->
    raw_invalid raw = false /\ over_budget limits raw = false
}.

Record manager_ok (m : DelegationManager) : Prop := {
  mo_sequence : 0 <= sequence m;
  mo_keyed : keyed en_id (entries m);
  mo_queue : queue m = waiting (entries m);
  mo_entries : forall e, e ∈ entries m -> entry_ok (sequence m) e;
  mo_active : active m = Z.of_nat (length (List.filter busy (entries m)));
  mo_concurrency : active m <= Z.max 0 (concurrency limits);
  mo_counts : forall p, count p m = Z.of_nat (length (List.filter (open_child p) (entries m)));
  mo_children : forall p, count p m <= Z.max 0 (maxChildren limits)
}.

(** *** One entry changes *)

Lemma find_split id m e : manager_ok m -> find_entry id m = Some e ->
  en_id e = id /\ e ∈ entries m /\ exists l1 l2, entries m = l1 ++ e :: l2 /\
  forall f, entries (set_entry id f m) = l1 ++ f e :: l2.
Proof.
  intros Hm Hg. apply get_Some in Hg as [Hin Hid]. split_and!; try done.
  pose proof (mo_keyed _ Hm) as Hk. apply list_elem_of_split in Hin as (l1 & l2 & E).
  exists l1, l2. split; [done|]. intros f. unfold set_entry. cbn [entries]. unfold keyed in Hk.
  rewrite E in *. rewrite map_app in Hk. cbn in Hk. apply NoDup_app in Hk as (_ & H1 & H2).
  apply NoDup_cons in H2 as [H2 _].
  assert (forall l, (forall x, x ∈ l -> en_id x <> id) -> update_where (fun x => streq (en_id x) id) f l = l) as Hsame.
  { intros l Hl. apply update_where_none. intros x Hx. apply streq_false. auto. }
  unfold update_where in *. rewrite map_app. cbn. rewrite (proj2 (streq_spec _ _) Hid), !Hsame; [done| |].
  - intros x Hx <-. apply H2. rewrite Hid. apply list_elem_of_fmap. eauto.
  - intros x Hx <-. apply (H1 (en_id x)); [apply list_elem_of_fmap; eauto|]. rewrite <- Hid. left.
Qed.

Lemma waiting_app l1 l2 : waiting (l1 ++ l2) = waiting l1 ++ waiting l2.
Proof. unfold waiting. by rewrite List.filter_app, map_app. Qed.

Lemma waiting_cons e l : waiting (e :: l) = if queued e then en_id e :: waiting l else waiting l.
Proof. unfold waiting. simpl. by destruct (queued e). Qed.

Lemma waiting_elem l x : x ∈ waiting l -> exists e, e ∈ l /\ en_id e = x /\ en_status e = D_queued.
Proof.
  intros (e & -> & [Hin Hq]%list_elem_of_In%filter_In)%list_elem_of_fmap.
  unfold queued in Hq. bool_hyps. exists e. by rewrite list_elem_of_In.
Qed.

(** The ids but one. *)
Definition without (id : string) (l : list string) : list string := List.filter (fun x => negb (streq x id)) l.

Lemma without_absent id l : id ∉ l -> without id l = l.
Proof.
  intros H. unfold without. apply forallb_filter_id. apply forallb_forall. intros x Hx%list_elem_of_In.
  apply negb_true_iff, streq_false. by intros ->.
Qed.

Lemma waiting_without l1 e l2 e' : keyed en_id (l1 ++ e :: l2) -> en_id e' = en_id e -> queued e' = false ->
  waiting (l1 ++ e' :: l2) = without (en_id e) (waiting (l1 ++ e :: l2)).
Proof.
  unfold keyed. rewrite map_app. cbn. intros (_ & H1 & [H2 _]%NoDup_cons)%NoDup_app Hid Hq.
  assert (forall l, en_id e ∉ map en_id l -> without (en_id e) (waiting l) = waiting l) as Hsame.
  { intros l Hl. apply without_absent. intros (x & Hx & Ex & _)%waiting_elem. apply Hl.
    rewrite <- Ex. apply list_elem_of_fmap. eauto. }
  rewrite !waiting_app, !waiting_cons, Hq. unfold without in *. rewrite List.filter_app, Hsame.
  - f_equal. destruct (queued e); cbn; [rewrite streq_refl; cbn|]; by rewrite Hsame.
  - intros Hx. apply (H1 (en_id e)); [done|left].
Qed.

Lemma filter_one_length {A} (f : A -> bool) l1 x l2 :
  Z.of_nat (length (List.filter f (l1 ++ x :: l2))) =
  Z.of_nat (length (List.filter f (l1 ++ l2))) + (if f x then 1 else 0).
Proof. rewrite !List.filter_app, !length_app. cbn. destruct (f x); cbn; lia. Qed.

(** The entry [e] becomes [e']; the run count, the counts and the queue follow. *)
Lemma replace_ok m m' l1 e l2 e' :
  manager_ok m -> entries m = l1 ++ e :: l2 -> entries m' = l1 ++ e' :: l2 -> sequence m' = sequence m ->
  en_id e' = en_id e -> en_request e' = en_request e -> entry_ok (sequence m) e' ->
  queue m' = (if queued e' then queue m else without (en_id e) (queue m)) -> (queued e' = true -> queued e = true) ->
  active m' = active m + (if busy e' then 1 else 0) - (if busy e then 1 else 0) ->
  active m' <= Z.max 0 (concurrency limits) ->
  (en_settled e = true -> en_settled e' = true) ->
  (forall p, count p m' = count p m + (if open_child p e' then 1 else 0) - (if open_child p e then 1 else 0)) ->
  manager_ok m'.
Proof.
  intros Hm E E' Hs Hid Hreq Hok Hq Hq' Ha Hc Hset Hcount.
  assert (keyed en_id (entries m')) as Hk.
  { pose proof (mo_keyed _ Hm) as Hk. unfold keyed in *. rewrite E, E', !map_app in *. cbn in *. by rewrite Hid. }
  split; try done.
  - rewrite Hs. apply (mo_sequence _ Hm).
  - rewrite Hq, (mo_queue _ Hm), E, E'. destruct (queued e') eqn:Q.
    + rewrite !waiting_app, !waiting_cons, Q, Hq', Hid; done.
    + symmetry. apply waiting_without; try done. rewrite <- E. apply (mo_keyed _ Hm).
  - intros x Hx. rewrite Hs. rewrite E' in Hx. apply elem_of_app in Hx as [Hx|[->|Hx]%elem_of_cons]; [|done|];
      apply (mo_entries _ Hm); rewrite E; set_solver.
  - rewrite Ha, (mo_active _ Hm), E, E', !filter_one_length. lia.
  - intros p. rewrite Hcount, (mo_counts _ Hm), E, E', !filter_one_length. lia.
  - intros p. rewrite Hcount. pose proof (mo_children _ Hm p). unfold open_child. rewrite Hreq.
    destruct (streq _ p); cbn; [|lia]. destruct (en_settled e), (en_settled e'); cbn; lia.
Qed.

Lemma find_ok m id e : manager_ok m -> find_entry id m = Some e -> entry_ok (sequence m) e.
Proof. intros Hm (_ & Hin & _)%(find_split _ _ _ Hm). by apply (mo_entries _ Hm). Qed.

Lemma queue_absent m id e : manager_ok m -> find_entry id m = Some e -> queued e = false ->
  without id (queue m) = queue m.
Proof.
  intros Hm Hg Hq. destruct (find_split _ _ _ Hm Hg) as (Eid & Hin & _). apply without_absent.
  rewrite (mo_queue _ Hm). intros (x & Hx & Ex & Hst)%waiting_elem.
  assert (x = e) as -> by (eapply keyed_same; [apply (mo_keyed _ Hm)|by rewrite ?Eid..]).
  unfold queued in Hq. by bool_hyps.
Qed.

(** A change that keeps the status, the run and the count of an entry. *)
Lemma set_ok m id e f :
  manager_ok m -> find_entry id m = Some e -> en_id (f e) = en_id e -> en_request (f e) = en_request e ->
  en_status (f e) = en_status e -> en_settled (f e) = en_settled e -> busy (f e) = busy e ->
  entry_ok (sequence m) (f e) -> manager_ok (set_entry id f m).
Proof.
  intros Hm Hg Hid Hreq Hst Hse Hb Hok.
  destruct (find_split _ _ _ Hm Hg) as (Eid & Hin & l1 & l2 & E & E').
  assert (queued (f e) = queued e) as Q by (unfold queued; by rewrite Hst).
  eapply replace_ok with (m := m) (e := e) (e' := f e); eauto; rewrite ?Q, ?Hb, ?Hse; cbn.
  - destruct (queued e) eqn:Eq; [done|]. rewrite Eid. symmetry. by eapply queue_absent.
  - lia.
  - apply (mo_concurrency _ Hm).
  - intros p. unfold open_child, count. cbn. rewrite Hreq, Hse. lia.
Qed.

(** *** The end of a run *)

Definition result_ok (r : DelegationResult) : Prop :=
  terminal (dr_status r) = true /\ (dr_status r = D_completed -> within_budget r).

Lemma failure_ok st err raw : st = D_failed \/ st = D_cancelled -> result_ok (partial_result st err raw).
Proof. by intros [-> | ->]. Qed.

Lemma completed_ok raw : raw_invalid raw = false -> over_budget limits raw = false ->
  result_ok (partial_result D_completed None (Some raw)).
Proof.
  unfold raw_invalid, over_budget. intros H1 H2. split; [done|]. intros _. unfold within_budget. cbn.
  destruct (cr_summary raw), (cr_iterations raw), (cr_costUsd raw); try done; bool_hyps; try done.
  split_and!; eexists; (split; [done|]); [done|lia|].
  split; by apply Qle_bool_iff.
Qed.

Lemma settle_ok n e res b : entry_ok n e -> en_settled e = false -> result_ok res ->
  entry_ok n (settle_entry res (Finishing b) e).
Proof.
  intros H Hs [Ht Hw]. unfold settle_entry. rewrite Hs.
  split; cbn; try done; try apply H; unfold status_of_phase; cbn; try done.
  intros r [= <-]. done.
Qed.

Lemma settle_fields res b e : result_ok res -> en_settled e = false ->
  let e' := settle_entry res (Finishing b) e in
  en_id e' = en_id e /\ en_request e' = en_request e /\ en_settled e' = true /\ queued e' = false /\ busy e' = b.
Proof.
  intros [Ht _] Hs. unfold settle_entry. rewrite Hs. cbn. split_and!; try done; [|by destruct b].
  apply bool_decide_eq_false. cbn. intros X. by rewrite X in Ht.
Qed.

Lemma finish_fields e res ph m : en_settled e = false -> en_counted e = true ->
  entries (finish e res ph m) = entries (set_entry (en_id e) (settle_entry res ph) m) /\
  queue (finish e res ph m) = queue m /\ active (finish e res ph m) = active m /\
  sequence (finish e res ph m) = sequence m /\
  forall p, 1 <= count (sr_parentSessionId (en_request e)) m ->
    count p (finish e res ph m) = count p m - (if open_child p e then 1 else 0).
Proof.
  intros Hs Hc. unfold finish. rewrite Hs, Hc. cbn. split_and!; try done. intros p Hp.
  unfold count, open_child in *. rewrite Hs. cbn. destruct (streq _ p) eqn:E; bool_hyps; cbn.
  - subst p. rewrite lookup_insert_eq. cbn. destruct (counts m !! _); cbn in *; lia.
  - rewrite lookup_insert_ne by done. lia.
Qed.

Lemma open_counted m id e : manager_ok m -> find_entry id m = Some e -> en_settled e = false ->
  1 <= count (sr_parentSessionId (en_request e)) m.
Proof.
  intros Hm Hg Hs. destruct (find_split _ _ _ Hm Hg) as (_ & _ & l1 & l2 & E & _).
  rewrite (mo_counts _ Hm), E, filter_one_length. unfold open_child at 2. rewrite streq_refl, Hs. cbn. lia.
Qed.

Lemma set_entry_twice id f g m : (forall e, en_id (f e) = en_id e) ->
  entries (set_entry id g (set_entry id f m)) = entries (set_entry id (fun e => g (f e)) m).
Proof.
  intros Hf. cbn. unfold update_where. rewrite map_map. apply map_ext. intros e.
  destruct (streq (en_id e) id) eqn:E; rewrite ?Hf, E; done.
Qed.

Lemma set_entry_id id m : entries (set_entry id (fun e => e) m) = entries m.
Proof. cbn. unfold update_where. rewrite <- map_id. apply map_ext. intros e. by destruct (streq _ _). Qed.

(** An entry ends, after a change [f] that keeps what `#finish` reads of it. *)
Lemma finish_entry_ok m m1 id e f res :
  manager_ok m -> find_entry id m = Some e -> en_settled e = false -> result_ok res ->
  (forall x, en_id (f x) = en_id x) -> en_request (f e) = en_request e -> en_settled (f e) = false ->
  entry_ok (sequence m) (f e) ->
  entries m1 = entries (set_entry id f m) -> queue m1 = (if queued e then without id (queue m) else queue m) ->
  counts m1 = counts m -> active m1 = active m -> sequence m1 = sequence m ->
  manager_ok (finish e res (Finishing (busy e)) m1).
Proof.
  intros Hm Hg Hs Hr Hid Hreq Hfs Hok He1 Hq1 Hc1 Ha1 Hs1.
  destruct (find_split _ _ _ Hm Hg) as (Eid & Hin & l1 & l2 & E & E').
  pose proof (find_ok _ _ _ Hm Hg) as He. pose proof (eo_counted _ _ He) as Hc. rewrite Hs in Hc. cbn in Hc.
  destruct (finish_fields e res (Finishing (busy e)) m1 Hs Hc) as (F1 & F2 & F3 & F4 & F5).
  set (e' := settle_entry res (Finishing (busy e)) (f e)).
  assert (entries (finish e res (Finishing (busy e)) m1) = l1 ++ e' :: l2) as El.
  { rewrite F1. unfold set_entry at 1. cbn [entries]. rewrite He1, Eid.
    etransitivity; [apply (set_entry_twice id f (settle_entry res (Finishing (busy e))) m Hid)|]. apply E'. }
  destruct (settle_fields res (busy e) (f e) Hr Hfs) as (I & R & S' & Q & B). fold e' in I, R, S', Q, B.
  rewrite Hid in I. rewrite Hreq in R.
  eapply replace_ok with (m := m) (e := e) (e' := e'); try done.
  - by rewrite F4.
  - by apply settle_ok.
  - rewrite F2, Hq1, Q, Eid. destruct (queued e) eqn:Eq; [done|]. symmetry. by eapply queue_absent.
  - by rewrite Q.
  - rewrite F3, Ha1, B. lia.
  - rewrite F3, Ha1. apply (mo_concurrency _ Hm).
  - intros p. rewrite F5.
    + assert (open_child p e' = false) as -> by (unfold open_child; by rewrite S', andb_false_r).
      unfold count. rewrite Hc1. lia.
    + unfold count. rewrite Hc1. by apply (open_counted _ _ _ Hm Hg Hs).
Qed.

(** *** The operations keep the invariant *)

Lemma abort_ok n reason e : entry_ok n e -> entry_ok n (abort_entry reason e).
Proof. intros H. split; try apply H. Qed.

Lemma cancel_ok id reason m : manager_ok m -> manager_ok (cancel id reason m).
Proof.
  intros Hm. unfold cancel. destruct (find_entry id m) as [e|] eqn:Hg; [|done].
  destruct (terminal (en_status e)) eqn:Ht; [done|]. pose proof (find_ok _ _ _ Hm Hg) as He.
  assert (entry_ok (sequence m) (abort_entry reason e)) as Ha by by apply abort_ok.
  case_bool_decide as Hq; [|by eapply set_ok].
  assert (en_phase e = Waiting) as Hp.
  { pose proof (eo_phase _ _ He) as Hp. unfold status_of_phase in Hp. rewrite Hq in Hp. by destruct (en_phase e). }
  assert (busy e = false) as Hb by (unfold busy; by rewrite Hp).
  rewrite <- Hb. eapply (finish_entry_ok m _ id e (abort_entry reason)); try done.
  - by rewrite (eo_settled _ _ He).
  - cbn. by rewrite (eo_settled _ _ He).
  - cbn. unfold queued. by rewrite (bool_decide_eq_true_2 _ Hq).
Qed.

Lemma visit_keeps (P : DelegationManager -> Prop) reason : (forall id m, P m -> P (cancel id reason m)) ->
  forall fuel p m, P m -> P (visit fuel p reason m).
Proof.
  intros HP. induction fuel as [|fuel IH]; intros p m Hm; [done|]. cbn [visit].
  generalize (map en_id (entries m)). intros ids. revert m Hm.
  induction ids as [|id ids IHl]; intros m Hm; [done|]. cbn [fold_left]. apply IHl.
  destruct (find_entry id m); [|done]. destruct (_ && _); auto.
Qed.

Lemma start_ok n e : entry_ok n e -> en_status e = D_queued -> entry_ok n (set_phase D_running Racing e).
Proof.
  intros H Hq. split; try apply H; cbn; try done.
  - by rewrite (eo_settled _ _ H), Hq.
  - intros r Hr. apply (eo_result _ _ H) in Hr as (Hs & _). rewrite (eo_settled _ _ H), Hq in Hs. done.
Qed.

Lemma waiting_nodup l : keyed en_id l -> NoDup (waiting l).
Proof. unfold waiting. apply select_keyed. Qed.

Lemma find_start m e : manager_ok m -> find_entry (en_id e) m = Some e ->
  find_entry (en_id e) (set_entry (en_id e) (set_phase D_running Racing) m) = Some (set_phase D_running Racing e).
Proof.
  intros Hm Hg. unfold find_entry, set_entry in *. cbn [entries].
  rewrite update_get, Hg by done. cbn. by rewrite streq_refl.
Qed.

(** The head of the queue starts to run. *)
Lemma start_run_ok factory m m1 e rest :
  manager_ok m -> queue m = en_id e :: rest -> find_entry (en_id e) m = Some e -> en_status e = D_queued ->
  active m < concurrency limits ->
  m1 = {| queue := rest; entries := entries m; counts := counts m; active := active m; sequence := sequence m |} ->
  manager_ok (start_run factory e m1).
Proof.
  intros Hm Hq Hg Hst Hc ->. pose proof (find_ok _ _ _ Hm Hg) as He.
  set (m2 := set_entry (en_id e) (set_phase D_running Racing) m).
  assert (manager_ok {| queue := rest; entries := entries m2; counts := counts m; active := active m + 1;
                        sequence := sequence m |}) as H2.
  { destruct (find_split _ _ _ Hm Hg) as (Eid & Hin & l1 & l2 & E & E').
    assert (queued e = true) as Q by by apply bool_decide_eq_true_2.
    pose proof (eo_phase _ _ He) as Hp. unfold status_of_phase in Hp. rewrite Hst in Hp.
    assert (busy e = false) as B by (unfold busy; destruct (en_phase e); done).
    eapply replace_ok with (m := m) (e := e) (e' := set_phase D_running Racing e); try done; try apply E';
      cbn [active busy en_phase set_phase]; rewrite ?B; try lia.
    - by apply start_ok.
    - pose proof (waiting_nodup _ (mo_keyed _ Hm)) as Hnd. rewrite <- (mo_queue _ Hm), Hq in Hnd.
      apply NoDup_cons in Hnd as [Hnd _]. cbn. rewrite Hq. unfold without. cbn. rewrite streq_refl. cbn.
      symmetry. by apply without_absent.
    - intros p. unfold open_child, count. cbn. lia. }
  unfold start_run. cbn [queue entries counts active sequence]. destruct (factory (en_id e)) as [err|]; [|apply H2].
  pose proof (find_start _ _ Hm Hg) as Hg2. fold m2 in Hg2.
  change (Finishing true) with (Finishing (busy (set_phase D_running Racing e))).
  eapply (finish_entry_ok _ _ (en_id e) (set_phase D_running Racing e) (fun x => x)); [exact H2|exact Hg2|..]; try done.
  - cbn. by rewrite (eo_settled _ _ He), Hst.
  - cbn. by rewrite (eo_settled _ _ He), Hst.
  - by apply start_ok.
  - by rewrite set_entry_id.
Qed.

Lemma queue_head m id rest : manager_ok m -> queue m = id :: rest ->
  exists e, find_entry id m = Some e /\ en_id e = id /\ en_status e = D_queued.
Proof.
  intros Hm Hq. assert (id ∈ waiting (entries m)) as (e & Hin & <- & Hst)%waiting_elem.
  { rewrite <- (mo_queue _ Hm), Hq. left. }
  exists e. split_and!; try done. apply keyed_get; [apply (mo_keyed _ Hm)|done].
Qed.

Lemma drain_ok factory m : manager_ok m -> manager_ok (drain limits factory m).
Proof.
  unfold drain. generalize (length (queue m)) as fuel. intros fuel. revert m.
  induction fuel as [|fuel IH]; intros m Hm; [done|]. cbn [drain_loop].
  destruct (active m <? concurrency limits) eqn:Hc; [|done]. bool_hyps. destruct (queue m) as [|id rest] eqn:Hq; [done|].
  destruct (queue_head _ _ _ Hm Hq) as (e & Hg & <- & Hst).
  change (find_entry (en_id e) {| queue := rest; entries := entries m; counts := counts m; active := active m;
    sequence := sequence m |}) with (find_entry (en_id e) m).
  rewrite Hg, bool_decide_eq_true_2 by done. apply IH. by eapply start_run_ok.
Qed.

Lemma deadline_ok id m : manager_ok m -> manager_ok (deadline id m).
Proof.
  intros Hm. unfold deadline. destruct (find_entry id m) as [e|] eqn:Hg; [|done].
  assert (manager_ok (set_entry id (abort_entry "deadline exceeded") m)).
  { eapply set_ok; try done. apply abort_ok. by eapply find_ok. }
  by destruct (en_phase e) as [| | |[]|].
Qed.

(** A running entry ends. *)
Lemma finish_now m id e res :
  manager_ok m -> find_entry id m = Some e -> en_status e = D_running -> busy e = true -> result_ok res ->
  manager_ok (finish e res (Finishing true) m).
Proof.
  intros Hm Hg Hst Hb Hr. pose proof (find_ok _ _ _ Hm Hg) as He.
  assert (en_settled e = false) as Hs by by rewrite (eo_settled _ _ He), Hst.
  rewrite <- Hb. eapply (finish_entry_ok m m id e (fun x => x)); try done.
  - by rewrite set_entry_id.
  - unfold queued. by rewrite Hst.
Qed.

Lemma running_phase m id e : manager_ok m -> find_entry id m = Some e ->
  match en_phase e with Racing | Verifying _ => en_status e = D_running /\ busy e = true | _ => True end.
Proof.
  intros Hm Hg. pose proof (eo_phase _ _ (find_ok _ _ _ Hm Hg)) as Hp. unfold status_of_phase in Hp. unfold busy.
  by destruct (en_phase e).
Qed.

Lemma race_ok id outcome m : manager_ok m -> manager_ok (race_settled limits verifies id outcome m).
Proof.
  intros Hm. unfold race_settled. destruct (find_entry id m) as [e|] eqn:Hg; [|done].
  pose proof (running_phase _ _ _ Hm Hg) as Hr. pose proof (find_ok _ _ _ Hm Hg) as He.
  destruct (en_phase e) eqn:Hp; try done. destruct Hr as [Hst Hb].
  assert (forall st err, st = D_failed \/ st = D_cancelled ->
    manager_ok (finish e (partial_result st (Some err) None) (Finishing true) m)) as Hfail.
  { intros st err Hs. by eapply finish_now, failure_ok. }
  destruct (en_abort e); [auto|]. destruct outcome as [err|[raw|]]; [auto| |auto].
  destruct (raw_invalid raw) eqn:Hi; [auto|]. destruct (over_budget limits raw) eqn:Ho; [auto|].
  destruct (boundary _ _); [auto|]. destruct verifies; [|by eapply finish_now, completed_ok].
  eapply set_ok; try done; unfold busy; cbn; rewrite ?Hp; try done.
  split; try apply He; cbn; try done.
  - by rewrite (eo_settled _ _ He), Hst.
  - intros r Hr. apply (eo_result _ _ He) in Hr as (Hs & _). by rewrite (eo_settled _ _ He), Hst in Hs.
  - by intros ? [= <-].
Qed.

Lemma verified_ok id answer m : manager_ok m -> manager_ok (verified id answer m).
Proof.
  intros Hm. unfold verified. destruct (find_entry id m) as [e|] eqn:Hg; [|done].
  pose proof (running_phase _ _ _ Hm Hg) as Hr. pose proof (find_ok _ _ _ Hm Hg) as He.
  destruct (en_phase e) eqn:Hp; try done. destruct Hr as [Hst Hb].
  destruct (eo_raw _ _ He _ Hp) as [Hi Ho].
  destruct answer as [err|[]]; eapply finish_now; eauto using failure_ok, completed_ok.
Qed.

Lemma resolve_ok n announce archive e b : entry_ok n e -> en_phase e = Finishing b ->
  entry_ok n (resolve_entry announce archive e).
Proof.
  intros He Hp. pose proof (eo_phase _ _ He) as Hs. unfold status_of_phase in Hs. rewrite Hp in Hs.
  split; try apply He; cbn; try done.
  - intros r (r' & Hr & ->)%fmap_Some. apply (eo_result _ _ He) in Hr as (H1 & H2 & H3). split_and!; done.
  - intros Hse. apply (eo_has_result _ _ He) in Hse. by destruct (en_result e).
Qed.

Lemma finished_ok id announce archive factory m : manager_ok m ->
  manager_ok (finished limits id announce archive factory m).
Proof.
  intros Hm. unfold finished. destruct (find_entry id m) as [e|] eqn:Hg; [|done].
  pose proof (find_ok _ _ _ Hm Hg) as He. destruct (en_phase e) as [| | |b|] eqn:Hp; try done.
  pose proof (resolve_ok _ announce archive _ _ He Hp) as Hr.
  pose proof (eo_phase _ _ He) as Hs. unfold status_of_phase in Hs. rewrite Hp in Hs.
  destruct b; [|eapply set_ok; try done; unfold busy; cbn; by rewrite Hp]. apply drain_ok.
  destruct (find_split _ _ _ Hm Hg) as (Eid & Hin & l1 & l2 & E & E').
  assert (queued e = false) as Q by (apply bool_decide_eq_false; intros X; by rewrite X in Hs).
  eapply replace_ok with (m := m) (e := e) (e' := resolve_entry announce archive e); try done; try apply E';
    unfold busy; cbn [active en_phase resolve_entry set_entry]; rewrite ?Hp; try lia.
  - unfold queued in *. cbn. rewrite Q, Eid. symmetry. by eapply queue_absent.
  - pose proof (mo_concurrency _ Hm). lia.
  - intros p. unfold open_child, count. cbn. lia.
Qed.

Lemma entry_ok_later n k e : n <= k -> entry_ok n e -> entry_ok k e.
Proof. intros H He. split; try apply He. destruct (eo_id _ _ He) as (j & Hj & E). exists j. split; [lia|done]. Qed.

Lemma spawn_inr r m id m' : spawn limits allowed r m = (inr id, m') ->
  default 0 (sr_depth r) + 1 <= maxDepth limits /\ count (sr_parentSessionId r) m < maxChildren limits /\
  permitted allowed r <> [] /\ id = child_id (sr_parentSessionId r) (sequence m + 1).
Proof.
  unfold spawn. destruct (rbind _ _) eqn:E; [done|]. intros [= <- _].
  open_result E. bool_hyps. split_and!; try lia; try done. intros X. by rewrite X in *.
Qed.

Lemma spawn_ok r m : manager_ok m -> manager_ok (snd (spawn limits allowed r m)).
Proof.
  intros Hm. destruct (spawn limits allowed r m) as [res m'] eqn:Hsp.
  destruct res as [err|id]; [by unfold spawn in Hsp; destruct (rbind _ _); simplify_eq|].
  destruct (spawn_inr _ _ _ _ Hsp) as (Hd & Hn & Hc & ->). unfold spawn in Hsp.
  destruct (rbind _ _); [done|]. injection Hsp as <-. cbn [snd].
  split; cbn [entries queue active sequence].
  - pose proof (mo_sequence _ Hm). lia.
  - unfold keyed. rewrite map_app. apply NoDup_app. split_and!; [apply (mo_keyed _ Hm)| |apply NoDup_singleton].
    intros x (e & -> & Hin)%list_elem_of_fmap Hx. apply list_elem_of_singleton in Hx. cbn in Hx.
    destruct (eo_id _ _ (mo_entries _ Hm _ Hin)) as (k & Hk & E). rewrite E in Hx. apply child_id_inj in Hx. lia.
  - rewrite waiting_app, (mo_queue _ Hm). done.
  - intros e [Hin| ->%list_elem_of_singleton]%elem_of_app.
    + apply (entry_ok_later (sequence m)); [lia|]. by apply (mo_entries _ Hm).
    + split; cbn; try done.
      * exists (sequence m + 1). split; [|done]. pose proof (mo_sequence _ Hm). lia.
      * intros c [H1 H2]%list_elem_of_In%filter_In. bool_hyps. done.
  - rewrite (mo_active _ Hm), List.filter_app. cbn. by rewrite app_nil_r.
  - apply (mo_concurrency _ Hm).
  - intros p. rewrite filter_one_length, app_nil_r, <- (mo_counts _ Hm). unfold count, open_child. cbn.
    destruct (streq _ p) eqn:E; bool_hyps; cbn.
    + subst p. by rewrite lookup_insert_eq.
    + rewrite lookup_insert_ne by done. lia.
  - intros p. unfold count in *. cbn. pose proof (mo_children _ Hm p) as H. unfold count in H.
    destruct (decide (p = sr_parentSessionId r)) as [->|].
    + rewrite lookup_insert_eq. cbn. lia.
    + by rewrite lookup_insert_ne.
Qed.

(** *** Any sequence of operations *)

(** What happens to a manager: the calls of its methods, and the points where its
    runs go on. *)
Inductive op : Type :=
  | Spawn (r : SpawnRequest)
  | Cancel (id reason : string)
  | CancelParent (p reason : string)
  | Drain (factory : string -> option string)
  | Deadline (id : string)
  | Race (id : string) (outcome : result (option ChildRuntimeResult))
  | Verified (id : string) (answer : result bool)
  | Finished (id : string) (announce archive : option string) (factory : string -> option string).

Definition step (o : op) (m : DelegationManager) : DelegationManager :=
  match o with
  | Spawn r => snd (spawn limits allowed r m)
  | Cancel id reason => cancel id reason m
  | CancelParent p reason => cancelParent p reason m
  | Drain factory => drain limits factory m
  | Deadline id => deadline id m
  | Race id outcome => race_settled limits verifies id outcome m
  | Verified id answer => verified id answer m
  | Finished id announce archive factory => finished limits id announce archive factory m
  end.

Definition run (os : list op) (m : DelegationManager) : DelegationManager := fold_left (fun m o => step o m) os m.

Lemma step_ok o m : manager_ok m -> manager_ok (step o m).
Proof.
  destruct o; cbn [step]; auto using spawn_ok, cancel_ok, drain_ok, deadline_ok, race_ok, verified_ok, finished_ok.
  intros Hm. unfold cancelParent. apply (visit_keeps manager_ok); auto using cancel_ok.
Qed.

Lemma run_ok os m : manager_ok m -> manager_ok (run os m).
Proof. revert m. induction os as [|o os IH]; intros m Hm; [done|]. apply IH. by apply step_ok. Qed.

Lemma new_ok : manager_ok new_manager.
Proof.
  split; try done.
  - constructor.
  - intros e H. by apply elem_of_nil in H.
  - cbn. lia.
  - intros p. unfold count. cbn. rewrite lookup_empty. cbn. lia.
Qed.
End Safety.

Lemma construct_inr limits grants allowed : construct limits grants = inr allowed ->
  0 < maxChildren limits /\ 0 < concurrency limits /\ allowed = map cg_name grants /\
  (forall g, g ∈ grants -> cg_effect g = read).
Proof.
  unfold construct. intros H. open_result H. bool_hyps. simplify_eq. split_and!; try lia; [done|].
  intros g Hg. destruct (decide (cg_effect g = read)); [done|].
  match goal with E : existsb _ _ = false |- _ => apply not_true_iff_false in E as [] end.
  apply existsb_exists. exists g. rewrite <- list_elem_of_In, bool_decide_eq_false_2 by done. done.
Qed.

(** Whatever is called in whatever order: at most [concurrency] children run, no
    session has more than [maxChildren] open children, none is deeper than
    [maxDepth], what a completed child reports is within the budget, and a child is
    let through only for a capability that was granted as read-only and that its
    parent had. *)
Theorem children_limited limits grants allowed enforcer verifies os :
  construct limits grants = inr allowed ->
  let m := run limits allowed verifies os new_manager in
  Z.of_nat (length (List.filter busy (entries m))) <= concurrency limits /\
  (forall p, Z.of_nat (length (List.filter (open_child p) (entries m))) <= maxChildren limits) /\
  (forall e, e ∈ entries m ->
    en_depth e <= maxDepth limits /\
    (forall r, en_result e = Some r -> en_status e = D_completed -> within_budget limits r)) /\
  (forall s c, authorizeDispatch allowed enforcer s c m = true ->
    exists e g, find_entry s m = Some e /\ c ∈ sr_parentCapabilities (en_request e) /\
                g ∈ grants /\ cg_name g = c /\ cg_effect g = read).
Proof.
  intros Hc m. destruct (construct_inr _ _ _ Hc) as (Hch & Hcc & -> & Hread).
  assert (manager_ok limits (map cg_name grants) m) as Hm by apply run_ok, new_ok. split_and!.
  - rewrite <- (mo_active _ _ _ Hm). pose proof (mo_concurrency _ _ _ Hm). lia.
  - intros p. rewrite <- (mo_counts _ _ _ Hm). pose proof (mo_children _ _ _ Hm p). lia.
  - intros e He%(mo_entries _ _ _ Hm). split; [apply (eo_depth _ _ _ _ He)|].
    intros r Hr Hs. by apply (eo_result _ _ _ _ He).
  - intros s c Ha. unfold authorizeDispatch in Ha. destruct (find_entry s m) as [e|] eqn:Hg; [|done]. bool_hyps.
    pose proof (find_ok _ _ _ _ _ Hm Hg) as He. destruct (eo_capabilities _ _ _ _ He c) as [Hpar Hall]; [done|].
    apply list_elem_of_fmap in Hall as (g & -> & Hin). exists e, g. split_and!; auto.
Qed.

(** *** A concrete run *)

Definition demo_request (parent : string) (depth : option Z) : SpawnRequest :=
  {| sr_task := "look"; sr_parentSessionId := parent; sr_parentCapabilities := ["market:read"; "wallet:sign"];
     sr_requestedCapabilities := ["wallet:sign"; "market:read"]; sr_depth := depth; sr_context := None;
     sr_model := None |}.

Definition demo_result : ChildRuntimeResult :=
  {| cr_summary := Some "done"; cr_iterations := Some 3; cr_costUsd := Finite (1 # 2); cr_details := None |}.

(** Three children of one session and a grandchild; the first one completes. *)
Definition demo_ops : list op :=
  [Spawn (demo_request "s" None); Spawn (demo_request "s" None); Drain (fun _ => None);
   Spawn (demo_request "s" None); Spawn (demo_request "s:child:2" (Some 1)); Spawn (demo_request "s:child:2" (Some 2));
   Race "s:child:1" (inr (Some demo_result)); Finished "s:child:1" None None (fun _ => None)].

Definition demo : DelegationManager := run defaults ["market:read"] false demo_ops new_manager.

Lemma children_limited_witness :
  map en_status (entries demo) = [D_completed; D_running; D_running; D_queued] /\
  map dr_announced (omap en_result (entries demo)) = [true] /\
  authorizeDispatch ["market:read"] None "s:child:2" "market:read" demo = true /\
  Z.of_nat (length (List.filter busy (entries demo))) <= 2 /\
  exists e g, find_entry "s:child:2" demo = Some e /\ "market:read" ∈ sr_parentCapabilities (en_request e) /\
              g ∈ defaultCapabilities /\ cg_name g = "market:read" /\ cg_effect g = read.
Proof.
  pose proof (children_limited defaults defaultCapabilities ["market:read"] None false demo_ops eq_refl) as (H1 & _ & _ & H4).
  split_and!; [by vm_compute..|exact H1|]. apply H4. by vm_compute.
Defined.
