(* ===== verification/DelegationCancel.v ===== *)
(** Cancelling a tree of child runs (`src/autonomy/delegation/index.ts`).

    `cancelParent` visits the live children of a session, each before it is
    cancelled, and theirs before that.  It reaches every live descendant and touches
    nothing else, and the fuel of [visit] is enough: the id of a child is longer
    than its parent's. *)
From stdpp Require Import gmap pretty.
From S2P Require Import Prelude Table Canonical Money Schedule Events Delegation DelegationSafety.
#[local] Open Scope string_scope.
#[local] Open Scope list_scope.
#[local] Open Scope Z_scope.

Definition live (e : Entry) : bool := negb (terminal (en_status e)).

Definition parent_of (e : Entry) : string := sr_parentSessionId (en_request e).

(** [below m p x]: [x] is a live child of [p], or [below] one. *)
Inductive below (m : DelegationManager) : string -> string -> Prop :=
  | below_child p id e : find_entry id m = Some e -> parent_of e = p -> live e = true -> below m p id
  | below_deeper p id e x :
      find_entry id m = Some e -> parent_of e = p -> live e = true -> below m id x -> below m p x.

(** What cancellations may do to an entry. *)
Definition cut (e e' : Entry) : Prop :=
  en_id e' = en_id e /\ en_request e' = en_request e /\ (terminal (en_status e) = true -> e' = e) /\
  (en_status e = D_queued -> en_status e' = D_queued \/ en_status e' = D_cancelled) /\
  (en_status e = D_running -> en_status e' = D_running /\ (en_abort e <> None -> en_abort e' <> None)).

Lemma cut_refl e : cut e e.
Proof. unfold cut. split_and!; auto. Qed.

Lemma cut_trans a b c : cut a b -> cut b c -> cut a c.
Proof.
  intros (I1 & R1 & T1 & Q1 & N1) (I2 & R2 & T2 & Q2 & N2). split_and!; try congruence.
  - intros Ht. pose proof (T1 Ht). subst b. auto.
  - intros [H|H]%Q1; [auto|]. rewrite T2; [auto|by rewrite H].
  - intros [H1 H2]%N1. destruct (N2 H1) as [H3 H4]. auto.
Qed.

(** The entries of [m'] are those of [m], some cut. *)
Definition cuts (m m' : DelegationManager) : Prop :=
  map en_id (entries m') = map en_id (entries m) /\
  forall x e, find_entry x m = Some e -> exists e', find_entry x m' = Some e' /\ cut e e'.

Lemma cuts_refl m : cuts m m.
Proof. split; [done|]. intros x e H. eauto using cut_refl. Qed.

Lemma cuts_trans a b c : cuts a b -> cuts b c -> cuts a c.
Proof.
  intros [E1 H1] [E2 H2]. split; [congruence|]. intros x e (e1 & Hg1 & C1)%H1.
  destruct (H2 _ _ Hg1) as (e2 & Hg2 & C2). eauto using cut_trans.
Qed.

Lemma cuts_back m m' x e' : cuts m m' -> find_entry x m' = Some e' -> exists e, find_entry x m = Some e /\ cut e e'.
Proof.
  intros [Hk Hc] Hg. destruct (find_entry x m) as [e|] eqn:E.
  - destruct (Hc _ _ E) as (e1 & H1 & C). exists e. by simplify_eq.
  - pose proof (proj1 (get_None en_id x (entries m)) E) as Hn. apply get_Some in Hg as [Hin <-].
    assert (en_id e' ∈ map en_id (entries m)) as (y & Ey & Hy)%list_elem_of_fmap.
    { rewrite <- Hk. apply list_elem_of_fmap. eauto. }
    by destruct (Hn y Hy).
Qed.

Lemma set_entry_find id f m x : (forall e, en_id (f e) = en_id e) ->
  find_entry x (set_entry id f m) = (fun e => if streq (en_id e) id then f e else e) <$> find_entry x m.
Proof. intros Hf. unfold find_entry, set_entry. cbn [entries]. by apply update_get. Qed.

Lemma finish_entries e res ph m :
  entries (finish e res ph m) = entries (set_entry (en_id e) (settle_entry res ph) m).
Proof. unfold finish. by destruct (_ && _). Qed.

Lemma settle_id res ph e : en_id (settle_entry res ph e) = en_id e.
Proof. unfold settle_entry. by destruct (en_settled e). Qed.

(** What `#cancel` makes of its entry. *)
Definition cancelled (reason : string) (e : Entry) : Entry :=
  if terminal (en_status e) then e
  else if bool_decide (en_status e = D_queued)
       then settle_entry (partial_result D_cancelled (Some reason) None) (Finishing false) (abort_entry reason e)
       else abort_entry reason e.

Lemma find_same m m' x : entries m' = entries m -> find_entry x m' = find_entry x m.
Proof. unfold find_entry. by intros ->. Qed.

(** [cancelled] is the change of the entry with that id, so for the found entry any
    change that agrees with it is. *)
Lemma cancelled_change id reason m x e (f : Entry -> Entry) : find_entry id m = Some e -> f e = cancelled reason e ->
  (fun y => if streq (en_id y) id then f y else y) <$> find_entry x m =
  (fun y => if streq (en_id y) id then cancelled reason y else y) <$> find_entry x m.
Proof.
  intros Hg Hf. destruct (find_entry x m) as [y|] eqn:Hy; [|done]. cbn. f_equal.
  destruct (streq (en_id y) id) eqn:Ey; [|done]. apply streq_spec in Ey.
  pose proof Hy as [_ Hx]%get_Some. congruence.
Qed.

Lemma cancel_find id reason m x :
  find_entry x (cancel id reason m) =
  (fun e => if streq (en_id e) id then cancelled reason e else e) <$> find_entry x m.
Proof.
  unfold cancel. destruct (find_entry id m) as [e|] eqn:Hg.
  - destruct (terminal (en_status e)) eqn:Ht; [|case_bool_decide as Hq].
    + rewrite <- (cancelled_change _ _ _ _ e (fun y => y) Hg); [|unfold cancelled; by rewrite Ht].
      destruct (find_entry x m); [|done]. cbn. by destruct (streq _ _).
    + pose proof Hg as [_ Eid]%get_Some.
      set (g := settle_entry (partial_result D_cancelled (Some reason) None) (Finishing false)).
      rewrite (find_same (set_entry id (fun y => g (abort_entry reason y)) m));
        [|rewrite finish_entries, Eid; by apply (set_entry_twice id (abort_entry reason) g m)].
      rewrite set_entry_find by (intros; unfold g; by rewrite settle_id).
      apply (cancelled_change _ _ _ _ e); [done|]. unfold cancelled. by rewrite Ht, bool_decide_eq_true_2.
    + rewrite set_entry_find by done. apply (cancelled_change _ _ _ _ e); [done|].
      unfold cancelled. by rewrite Ht, bool_decide_eq_false_2.
  - destruct (find_entry x m) as [y|] eqn:Hy; [|done]. cbn. destruct (streq (en_id y) id) eqn:Ey; [|done].
    apply streq_spec in Ey. pose proof Hy as [_ Hx]%get_Some. congruence.
Qed.

Lemma cancel_ids id reason m : map en_id (entries (cancel id reason m)) = map en_id (entries m).
Proof.
  unfold cancel. destruct (find_entry id m) as [e|]; [|done]. destruct (terminal _); [done|].
  case_bool_decide; [rewrite finish_entries|]; unfold set_entry; cbn [entries];
    rewrite !update_keys by (intros; by rewrite ?settle_id); done.
Qed.

Lemma cancelled_cut n limits allowed reason e : entry_ok limits allowed n e -> cut e (cancelled reason e).
Proof.
  intros He. unfold cancelled. destruct (terminal (en_status e)) eqn:Ht; [apply cut_refl|].
  case_bool_decide as Hq; unfold cut, settle_entry; cbn; [|split_and!; auto; congruence].
  rewrite (eo_settled _ _ _ _ He), Ht. cbn. split_and!; auto; congruence.
Qed.

Lemma cancelled_done n limits allowed reason e : entry_ok limits allowed n e ->
  (en_status e = D_queued \/ en_status e = D_cancelled -> en_status (cancelled reason e) = D_cancelled) /\
  (en_status e = D_running -> en_status (cancelled reason e) = D_running /\ en_abort (cancelled reason e) <> None).
Proof.
  intros He. unfold cancelled, settle_entry. cbn. rewrite (eo_settled _ _ _ _ He). split.
  - by intros [H|H]; rewrite H.
  - intros H. by rewrite H.
Qed.

(** *** The visit *)

Section Visit.
Context (limits : DelegationLimits) (allowed : list string) (reason : string) (m0 : DelegationManager).

#[local] Abbreviation ok := (manager_ok limits allowed).

Lemma cancel_cuts id m : ok m -> cuts m (cancel id reason m).
Proof.
  intros Hm. split; [apply cancel_ids|]. intros x e Hg. rewrite cancel_find, Hg. cbn. eexists. split; [done|].
  destruct (streq _ _); [|apply cut_refl]. eapply cancelled_cut, find_ok; eauto.
Qed.

(** A descendant is done: cancelled where it waited, told to stop where it runs. *)
Definition done_with (m : DelegationManager) (x : string) : Prop :=
  exists e0 e, find_entry x m0 = Some e0 /\ find_entry x m = Some e /\
    (en_status e0 = D_queued -> en_status e = D_cancelled) /\
    (en_status e0 = D_running -> en_status e = D_running /\ en_abort e <> None).

Lemma done_cuts m m' x : done_with m x -> cuts m m' -> done_with m' x.
Proof.
  intros (e0 & e & H0 & H & Hq & Hr) [_ Hc]. destruct (Hc _ _ H) as (e' & H' & C). exists e0, e'. split_and!; try done.
  - intros Hs. destruct C as (_ & _ & Ht & _). rewrite Ht; [auto|by rewrite Hq].
  - intros Hs. destruct C as (_ & _ & _ & _ & Hn). destruct (Hr Hs) as [H1 H2]. destruct (Hn H1). auto.
Qed.

(** A state of the visit: a cancelled entry leaves nothing undone below it. *)
Record visiting (m : DelegationManager) : Prop := {
  vi_ok : ok m;
  vi_cuts : cuts m0 m;
  vi_closed : forall x e0 e, find_entry x m0 = Some e0 -> live e0 = true -> find_entry x m = Some e -> live e = false ->
    done_with m x /\ forall y, below m0 x y -> done_with m y
}.

(** What a visit of [p] does. *)
Definition visited (p : string) (m m' : DelegationManager) : Prop :=
  visiting m' /\ cuts m m' /\ (forall y, below m0 p y -> done_with m' y) /\
  (forall x, below m0 p x \/ find_entry x m' = find_entry x m).

(** One child. *)
Lemma cancel_visiting id m e0 : visiting m -> find_entry id m0 = Some e0 -> live e0 = true ->
  (forall y, below m0 id y -> done_with m y) ->
  visiting (cancel id reason m) /\ done_with (cancel id reason m) id.
Proof.
  intros V Hg0 Hl Hb. pose proof (cancel_cuts id m (vi_ok _ V)) as Hc.
  assert (done_with (cancel id reason m) id) as Hd.
  { destruct (vi_cuts _ V) as [_ Hm]. destruct (Hm _ _ Hg0) as (e & Hg & _ & _ & _ & Hq & Hn).
    pose proof Hg as [_ Eid]%get_Some.
    destruct (cancelled_done _ _ _ reason _ (find_ok _ _ _ _ _ (vi_ok _ V) Hg)) as [Cq Cr].
    exists e0, (cancelled reason e). split_and!; [done| | |].
    - rewrite cancel_find, Hg. cbn. by rewrite Eid, streq_refl.
    - intros Hs. apply Cq. auto.
    - intros Hs. apply Cr. by apply Hn. }
  split; [|done]. split; [by apply cancel_ok, V|by eapply cuts_trans; [apply V|]|].
  intros x e1 e Hg1 Hl1 Hg' Hd'. rewrite cancel_find in Hg'. apply fmap_Some in Hg' as (e2 & Hg2 & ->).
  pose proof Hg2 as [_ Ex]%get_Some. destruct (streq (en_id e2) id) eqn:E.
  - apply streq_spec in E. assert (x = id) as -> by congruence. split; [done|]. intros y Hy. eapply done_cuts; eauto.
  - destruct (vi_closed _ V _ _ _ Hg1 Hl1 Hg2 Hd') as [H1 H2]. split; [|intros y Hy]; eapply done_cuts; eauto.
Qed.

(** The entries with a longer id: none of them is left for a leaf. *)
Definition measure (p : string) : nat :=
  length (List.filter (fun x => (String.length p <? String.length x)%nat) (map en_id (entries m0))).

Lemma filter_fewer {A} (f g : A -> bool) l a : (forall x, f x = true -> g x = true) -> a ∈ l -> f a = false -> g a = true ->
  (length (List.filter f l) < length (List.filter g l))%nat.
Proof.
  intros Hfg Ha Hf Hg. rewrite (filter_filter_same f g) by done.
  assert (a ∈ List.filter g l) as Hin by (apply list_elem_of_In, filter_In; by rewrite <- list_elem_of_In).
  apply list_elem_of_split in Hin as (l1 & l2 & ->). rewrite List.filter_app, !length_app. cbn. rewrite Hf.
  pose proof (filter_length_le f l1). pose proof (filter_length_le f l2). lia.
Qed.

Hypothesis m0_ok : ok m0.

Lemma measure_child p id e : find_entry id m0 = Some e -> parent_of e = p -> (measure id < measure p)%nat.
Proof.
  intros Hg <-. pose proof (eo_id _ _ _ _ (find_ok _ _ _ _ _ m0_ok Hg)) as (k & _ & E).
  apply get_Some in Hg as [Hin Eid]. pose proof (child_id_longer (parent_of e) k) as Hlt.
  fold (parent_of e) in E. rewrite <- E, Eid in Hlt. unfold measure.
  apply (filter_fewer _ _ _ id); [|rewrite <- Eid; apply list_elem_of_fmap; eauto|apply Nat.ltb_irrefl|by apply Nat.ltb_lt].
  intros x Hx%Nat.ltb_lt. apply Nat.ltb_lt. lia.
Qed.

(** One turn of the loop of [visit]. *)
Definition turn (fuel : nat) (p : string) (m : DelegationManager) (id : string) : DelegationManager :=
  match find_entry id m with
  | Some e => if streq (parent_of e) p && live e then cancel id reason (visit fuel id reason m) else m
  | None => m
  end.

(** The child [id] of [p] and what is below it are done. *)
Definition branch_done (p : string) (m : DelegationManager) (id : string) : Prop :=
  forall e0, find_entry id m0 = Some e0 -> parent_of e0 = p -> live e0 = true ->
  done_with m id /\ forall y, below m0 id y -> done_with m y.

Lemma branch_cuts p m m' id : branch_done p m id -> cuts m m' -> branch_done p m' id.
Proof. intros H Hc e0 H1 H2 H3. destruct (H e0 H1 H2 H3) as [D B]. split; [|intros y Hy]; eapply done_cuts; eauto. Qed.

Lemma turn_visited fuel p m id :
  (forall q m, visiting m -> (measure q < fuel)%nat -> visited q m (visit fuel q reason m)) ->
  (measure p < S fuel)%nat -> visiting m ->
  let m' := turn fuel p m id in
  visiting m' /\ cuts m m' /\ branch_done p m' id /\ (forall x, below m0 p x \/ find_entry x m' = find_entry x m).
Proof.
  intros IH Hf V. unfold turn. destruct (find_entry id m) as [e|] eqn:Hg.
  2: { split_and!; [done|apply cuts_refl| |auto]. intros e0 H0 _ _.
       destruct (vi_cuts _ V) as [_ Hc]. destruct (Hc _ _ H0) as (e & He & _). congruence. }
  destruct (cuts_back _ _ _ _ (vi_cuts _ V) Hg) as (e0 & Hg0 & C). pose proof C as (_ & Hr & Ht & _ & _).
  assert (parent_of e = parent_of e0) as Hp by (unfold parent_of; by rewrite Hr).
  destruct (streq (parent_of e) p && live e) eqn:Hb; bool_hyps.
  - assert (live e0 = true) as Hl0.
    { unfold live in *. destruct (terminal (en_status e0)) eqn:T; [|done]. rewrite (Ht eq_refl) in *. by rewrite T in *. }
    assert (parent_of e0 = p) as Hp0 by congruence.
    destruct (IH id m V) as (V2 & C2 & B2 & F2); [pose proof (measure_child _ _ _ Hg0 Hp0); lia|].
    destruct (cancel_visiting _ _ _ V2 Hg0 Hl0 B2) as [V3 D3]. pose proof (cancel_cuts id _ (vi_ok _ V2)) as C3.
    split_and!; [done|by eapply cuts_trans| |].
    + intros e1 H1 _ _. split; [done|]. intros y Hy. eapply done_cuts; eauto.
    + intros x. destruct (F2 x) as [Hx|Hx]; [left; eapply below_deeper; eauto|].
      rewrite cancel_find, Hx. destruct (find_entry x m) as [ex|] eqn:Hgx; [|auto]. cbn.
      pose proof Hgx as [_ Ex]%get_Some. destruct (streq (en_id ex) id) eqn:E; [|auto].
      apply streq_spec in E. left. assert (x = id) as -> by congruence. eapply below_child; eauto.
  - split_and!; [done|apply cuts_refl| |auto]. intros e1 H1 Hp1 Hl1. assert (e1 = e0) as -> by congruence.
    eapply (vi_closed _ V); eauto. by rewrite Hp, Hp1, streq_refl in Hb.
Qed.

Lemma turns_visited fuel p ids :
  (forall q m, visiting m -> (measure q < fuel)%nat -> visited q m (visit fuel q reason m)) ->
  (measure p < S fuel)%nat -> forall m, visiting m ->
  let m' := fold_left (turn fuel p) ids m in
  visiting m' /\ cuts m m' /\ (forall id, id ∈ ids -> branch_done p m' id) /\
  (forall x, below m0 p x \/ find_entry x m' = find_entry x m).
Proof.
  intros IH Hf. induction ids as [|id ids IHl]; intros m V; cbn [fold_left].
  - split_and!; [done|apply cuts_refl|intros id H; by apply elem_of_nil in H|auto].
  - destruct (turn_visited _ _ _ id IH Hf V) as (V1 & C1 & B1 & F1).
    destruct (IHl _ V1) as (V2 & C2 & B2 & F2). split_and!; [done|by eapply cuts_trans| |].
    + intros x [->|Hx]%elem_of_cons; [by eapply branch_cuts|auto].
    + intros x. destruct (F1 x) as [H1|H1]; [auto|]. destruct (F2 x) as [H2|H2]; [auto|]. right. congruence.
Qed.

Lemma visit_visited fuel : forall p m, visiting m -> (measure p < fuel)%nat -> visited p m (visit fuel p reason m).
Proof.
  induction fuel as [|fuel IH]; intros p m V Hf; [lia|].
  change (visit (S fuel) p reason m) with (fold_left (turn fuel p) (map en_id (entries m)) m).
  destruct (turns_visited fuel p (map en_id (entries m)) IH Hf m V) as (V' & C & B & F).
  assert (forall id e, find_entry id m0 = Some e -> id ∈ map en_id (entries m)) as Hin.
  { intros id e [Hin <-]%get_Some. rewrite (proj1 (vi_cuts _ V)). apply list_elem_of_fmap. eauto. }
  split_and!; try done. intros y Hy. destruct Hy as [p id e Hg Hp Hl|p id e y Hg Hp Hl Hy];
    destruct (B id (Hin _ _ Hg) _ Hg Hp Hl); auto.
Qed.
End Visit.

(** `cancelParent` reaches every live descendant of a session, however deep: a
    child that waits is cancelled and leaves the queue, one that runs is told to
    stop.  Every other entry stays as it is. *)
Theorem cancel_reaches limits grants allowed verifies os p reason :
  construct limits grants = inr allowed ->
  let m := run limits allowed verifies os new_manager in
  let m' := cancelParent p reason m in
  (forall x, below m p x -> exists e e', find_entry x m = Some e /\ find_entry x m' = Some e' /\
    (en_status e = D_queued -> en_status e' = D_cancelled /\ x ∉ queue m') /\
    (en_status e = D_running -> en_status e' = D_running /\ en_abort e' <> None)) /\
  (forall x, below m p x \/ find_entry x m' = find_entry x m).
Proof.
  intros Hc m m'. assert (manager_ok limits allowed m) as Hm by apply run_ok, new_ok.
  assert (visiting limits allowed m m) as V.
  { split; [done|apply cuts_refl|]. intros x e0 e H0 Hl H Hd. congruence. }
  destruct (visit_visited limits allowed reason m Hm (S (length (entries m))) p m V) as (V' & C & B & F).
  { unfold measure. pose proof (filter_length_le (fun x => (String.length p <? String.length x)%nat) (map en_id (entries m))).
    rewrite length_map in *. lia. }
  split; [|done]. intros x (e & e' & H & H' & Hq & Hr)%B. exists e, e'. split_and!; [done|done| |done].
  intros Hs. split; [auto|]. pose proof (vi_ok _ _ _ _ V') as Hm'. unfold m', cancelParent.
  rewrite (mo_queue _ _ _ Hm'). intros (y & Hy & Ey & Hst)%waiting_elem.
  apply (keyed_get en_id _ _ (mo_keyed _ _ _ Hm')) in Hy. rewrite Ey in Hy.
  change (find_entry x (visit (S (length (entries m))) p reason m) = Some y) in Hy. specialize (Hq Hs). congruence.
Qed.

(** In the concrete run the session is cancelled: the children that run are told to
    stop, and the grandchild that waits is cancelled. *)
Lemma cancel_reaches_witness :
  let m' := cancelParent "s" "stop" demo in
  map en_status (entries m') = [D_completed; D_running; D_running; D_cancelled] /\
  map en_abort (entries m') = [None; Some "stop"; Some "stop"; Some "stop"] /\
  exists e e', find_entry "s:child:2:child:4" demo = Some e /\ find_entry "s:child:2:child:4" m' = Some e' /\
    (en_status e = D_queued -> en_status e' = D_cancelled /\ "s:child:2:child:4" ∉ queue m') /\
    (en_status e = D_running -> en_status e' = D_running /\ en_abort e' <> None).
Proof.
  pose proof (cancel_reaches defaults defaultCapabilities ["market:read"] false demo_ops "s" "stop" eq_refl) as [H _].
  split_and!; [by vm_compute..|]. apply H.
  eapply (below_deeper _ "s" "s:child:2"); [vm_compute; reflexivity|done|done|]. eapply below_child; [vm_compute; reflexivity|done|done].
Defined.

(** A cancellation that comes while the result is verified is lost: `#run` does not
    look at the signal again, so the child completes and is announced. *)
Lemma cancel_lost_in_verification :
  let m := run defaults ["market:read"] true
    [Spawn (demo_request "s" None); Drain (fun _ => None); Race "s:child:1" (inr (Some demo_result));
     CancelParent "s" "stop"; Verified "s:child:1" (inr true); Finished "s:child:1" None None (fun _ => None)] new_manager in
  exists e r, entries m = [e] /\ en_abort e = Some "stop" /\ en_status e = D_completed /\
              en_result e = Some r /\ dr_status r = D_completed /\ dr_announced r = true.
Proof. eexists _, _. split; [vm_compute; reflexivity|]. by repeat split. Qed.
