(* ===== verification/Perps.v ===== *)
(** Perpetual futures: policy, liquidation arithmetic and exposure
    (`src/perps/policy.ts`, `liquidation.ts`, `exposure.ts`, `types.ts`).

    Prices, ratios and basis points are doubles ([number], computed by [Doubles]);
    amounts are integers in the base units of the collateral. *)
From S2P Require Import Prelude Money Contracts Doubles.
From Stdlib Require Import Ascii QArith Qround.
#[local] Open Scope string_scope.
#[local] Open Scope list_scope.
#[local] Open Scope Z_scope.

(** *** `types.ts` *)

Definition oppositeSide (s : Side) : Side := match s with long => short | short => long end.

#[export] Instance Side_eq_dec : EqDecision Side.
Proof. solve_decision. Defined.

Inductive PerpMarketStatus : Type := M_active | M_reduce_only | M_halted | M_unknown.

Record PerpPosition : Type := {
  pos_venue : string; pos_symbol : string; pos_side : Side; pos_baseAmount : Z; pos_baseDecimals : nat;
  pos_entryPrice : number; pos_markPrice : number; pos_notional : TokenAmount; pos_collateral : TokenAmount;
  pos_unrealizedPnl : Z; pos_liquidationPrice : option number; pos_leverage : number
}.

(** *** `policy.ts` *)

Record PerpsCaps : Type := { maxCollateralPerPosition : Z; maxNotionalPerPosition : Z; maxPortfolioNotional : Z }.

Record PerpsPolicy : Type := {
  perpsEnabled : bool; windDownOnly : bool; maxLeverage : number; minLiquidationDistanceBps : number;
  maxFundingRateBpsPerHour : number; maxAdverseFundingBpsPerHour : number; pp_maxSlippageBps : number;
  maxOracleDivergenceBps : number; liquidationToleranceBps : number; maxOpenPositions : number;
  pp_capsSol : PerpsCaps; pp_capsUsdc : PerpsCaps; marketAllowlist : option (list string);
  marketDenylist : list string; allowedCollateralMints : list string; allowAccountCreation : bool
}.

Definition capsFor (policy : PerpsPolicy) (bucket : QuoteBucket) : PerpsCaps :=
  match bucket with sol => pp_capsSol policy | usdc => pp_capsUsdc policy end.

Definition defaultPerpsPolicy : PerpsPolicy := {|
  perpsEnabled := false; windDownOnly := false; maxLeverage := js_num 3; minLiquidationDistanceBps := js_num 2000;
  maxFundingRateBpsPerHour := js_num 5; maxAdverseFundingBpsPerHour := js_num 2; pp_maxSlippageBps := js_num 100;
  maxOracleDivergenceBps := js_num 100; liquidationToleranceBps := js_num 500; maxOpenPositions := js_num 3;
  pp_capsSol := {| maxCollateralPerPosition := 1 * LAMPORTS_PER_SOL; maxNotionalPerPosition := 3 * LAMPORTS_PER_SOL;
                   maxPortfolioNotional := 10 * LAMPORTS_PER_SOL |};
  pp_capsUsdc := {| maxCollateralPerPosition := 200 * 10 ^ 6; maxNotionalPerPosition := 600 * 10 ^ 6;
                    maxPortfolioNotional := 2000 * 10 ^ 6 |};
  marketAllowlist := None; marketDenylist := []; allowedCollateralMints := [USDC_MINT; WSOL_MINT];
  allowAccountCreation := false
|}.

Record PerpsPolicyOverrides : Type := {
  po_perpsEnabled : option bool; po_windDownOnly : option bool; po_maxLeverage : option number;
  po_minLiquidationDistanceBps : option number; po_maxFundingRateBpsPerHour : option number;
  po_maxAdverseFundingBpsPerHour : option number; po_maxSlippageBps : option number;
  po_maxOracleDivergenceBps : option number; po_liquidationToleranceBps : option number;
  po_maxOpenPositions : option number; solCollateralPerPosition : option number;
  solNotionalPerPosition : option number; solPortfolioNotional : option number;
  usdcCollateralPerPosition : option number; usdcNotionalPerPosition : option number;
  usdcPortfolioNotional : option number; po_marketAllowlist : option (option (list string));
  po_marketDenylist : option (list string); po_allowedCollateralMints : option (list string);
  po_allowAccountCreation : option bool
}.

(** A UI amount in base units, when it is given; `toBaseUnits` may throw. *)
Definition amount_override (o : option number) (decimals : nat) (b : Z) : option Z :=
  match o with Some x => toBaseUnits_number x decimals | None => Some b end.

Definition perps_caps_override (collateral notional portfolio : option number) (decimals : nat) (b : PerpsCaps) :
    option PerpsCaps :=
  c ← amount_override collateral decimals (maxCollateralPerPosition b);
  n ← amount_override notional decimals (maxNotionalPerPosition b);
  t ← amount_override portfolio decimals (maxPortfolioNotional b);
  Some {| maxCollateralPerPosition := c; maxNotionalPerPosition := n; maxPortfolioNotional := t |}.

(** [None] where `toBaseUnits` throws. *)
Definition applyPerpsPolicyOverrides (base : PerpsPolicy) (o : PerpsPolicyOverrides) : option PerpsPolicy :=
  cs ← perps_caps_override (solCollateralPerPosition o) (solNotionalPerPosition o) (solPortfolioNotional o) SOL_DECIMALS
         (pp_capsSol base);
  cu ← perps_caps_override (usdcCollateralPerPosition o) (usdcNotionalPerPosition o) (usdcPortfolioNotional o)
         USDC_DECIMALS (pp_capsUsdc base);
  Some {|
    perpsEnabled := default (perpsEnabled base) (po_perpsEnabled o);
    windDownOnly := default (windDownOnly base) (po_windDownOnly o);
    maxLeverage := default (maxLeverage base) (po_maxLeverage o);
    minLiquidationDistanceBps := default (minLiquidationDistanceBps base) (po_minLiquidationDistanceBps o);
    maxFundingRateBpsPerHour := default (maxFundingRateBpsPerHour base) (po_maxFundingRateBpsPerHour o);
    maxAdverseFundingBpsPerHour := default (maxAdverseFundingBpsPerHour base) (po_maxAdverseFundingBpsPerHour o);
    pp_maxSlippageBps := default (pp_maxSlippageBps base) (po_maxSlippageBps o);
    maxOracleDivergenceBps := default (maxOracleDivergenceBps base) (po_maxOracleDivergenceBps o);
    liquidationToleranceBps := default (liquidationToleranceBps base) (po_liquidationToleranceBps o);
    maxOpenPositions := default (maxOpenPositions base) (po_maxOpenPositions o);
    pp_capsSol := cs;
    pp_capsUsdc := cu;
    marketAllowlist := default (marketAllowlist base) (po_marketAllowlist o);
    marketDenylist := default (marketDenylist base) (po_marketDenylist o);
    allowedCollateralMints := default (allowedCollateralMints base) (po_allowedCollateralMints o);
    allowAccountCreation := default (allowAccountCreation base) (po_allowAccountCreation o)
  |}.

(** The integer a finite [number] without a fraction is. *)
Definition integer_of (x : number) : option Z := match x with Finite q => Some (Qfloor q) | _ => None end.

(** `leverageToBps`: [Infinite false] when the product overflows. *)
Definition leverageToBps (leverage : number) : option number :=
  if negb (isFinite leverage) || num_le leverage (js_num 0) then None
  else let bps := num_round (num_mul leverage (js_num 10000)) in
       if num_gt bps (js_num 0) then Some bps else None.

(** `notionalFromCollateral`: [inl tt] where `BigInt` throws a RangeError. *)
Definition notionalFromCollateral (collateral : Z) (leverage : number) : unit + option Z :=
  match leverageToBps leverage with
  | None => inr None
  | Some bps =>
      if collateral <? 0 then inr None
      else match integer_of bps with
           | None => inl tt
           | Some n => inr (Some (Z.quot (collateral * n) 10000))
           end
  end.

(** *** `liquidation.ts` *)

Definition isUsablePrice (x : number) : bool := isFinite x && num_gt x (js_num 0).

Definition modelLiquidationPrice (sd : Side) (entryPrice leverage m : number) : option number :=
  let one := js_num 1 in
  if negb (isUsablePrice entryPrice) then None
  else if negb (isFinite leverage) || num_le leverage (js_num 0) then None
  else if negb (isFinite m) || num_lt m (js_num 0) || num_le one m then None
  else
    let price := match sd with
                 | long => num_div (num_mul entryPrice (num_sub one (num_div one leverage))) (num_sub one m)
                 | short => num_div (num_mul entryPrice (num_add one (num_div one leverage))) (num_add one m)
                 end in
    if negb (isFinite price) || num_lt price (js_num 0) then None else Some price.

Definition liquidationDistanceBps (sd : Side) (referencePrice liquidationPrice : number) : option number :=
  if negb (isUsablePrice referencePrice) then None
  else if negb (isFinite liquidationPrice) || num_lt liquidationPrice (js_num 0) then None
  else
    let signedGap := match sd with
                     | long => num_sub referencePrice liquidationPrice
                     | short => num_sub liquidationPrice referencePrice
                     end in
    if num_lt signedGap (js_num 0) then None
    else let bps := num_mul (num_div signedGap referencePrice) (js_num 10000) in
         if negb (isFinite bps) then None else Some (num_floor bps).

Definition maxLeverageForDistance (minDistanceBps : number) (sd : Side) (m : number) : option number :=
  let one := js_num 1 in
  if negb (isFinite minDistanceBps) || num_lt minDistanceBps (js_num 0) || num_le (js_num 10000) minDistanceBps then None
  else if negb (isFinite m) || num_lt m (js_num 0) || num_le one m then None
  else
    let d := num_div minDistanceBps (js_num 10000) in
    let denom := match sd with
                 | long => num_sub one (num_mul (num_sub one d) (num_sub one m))
                 | short => num_sub (num_mul (num_add one d) (num_add one m)) one
                 end in
    if num_le denom (js_num 0) then None
    else let l := num_div one denom in
         if isFinite l && num_gt l (js_num 0) then Some l else None.

Inductive LiquidationSource : Type := L_venue | L_model.

Record ReconciledLiquidation : Type := {
  rl_liquidationPrice : option number; rl_distanceBps : option number; rl_source : LiquidationSource;
  ambiguity : option string; disagreementBps : option number; disagrees : bool
}.

Definition no_liquidation (why : string) : ReconciledLiquidation :=
  {| rl_liquidationPrice := None; rl_distanceBps := None; rl_source := L_model; ambiguity := Some why;
     disagreementBps := None; disagrees := false |}.

Definition reconcileLiquidation (sd : Side) (referencePrice : number) (venuePrice modelPrice : option number)
    (toleranceBps : number) : ReconciledLiquidation :=
  if negb (isUsablePrice referencePrice) then no_liquidation "reference price is missing or non-positive"
  else
    let venueDist := venuePrice ≫= liquidationDistanceBps sd referencePrice in
    let modelDist := modelPrice ≫= liquidationDistanceBps sd referencePrice in
    match venueDist, modelDist with
    | None, None => no_liquidation "neither the venue nor the model produced a usable liquidation price"
    | Some v, Some m =>
        let gap := num_abs (num_sub v m) in
        let useVenue := num_le v m in
        {| rl_liquidationPrice := if useVenue then venuePrice else modelPrice;
           rl_distanceBps := Some (if useVenue then v else m); rl_source := if useVenue then L_venue else L_model;
           ambiguity := None; disagreementBps := Some gap; disagrees := num_gt gap toleranceBps |}
    | Some v, None =>
        {| rl_liquidationPrice := venuePrice; rl_distanceBps := Some v; rl_source := L_venue; ambiguity := None;
           disagreementBps := None; disagrees := false |}
    | None, Some m =>
        {| rl_liquidationPrice := modelPrice; rl_distanceBps := Some m; rl_source := L_model; ambiguity := None;
           disagreementBps := None; disagrees := false |}
    end.

Definition oracleDivergenceBps (markPrice oraclePrice : number) : option number :=
  if negb (isUsablePrice markPrice) || negb (isUsablePrice oraclePrice) then None
  else Some (num_floor (num_mul (num_div (num_abs (num_sub markPrice oraclePrice)) oraclePrice) (js_num 10000))).

(** *** `exposure.ts` *)

(** `Record<QuoteBucket, bigint>` *)
Record ByBucket : Type := { in_sol : Z; in_usdc : Z }.

Definition ZERO : ByBucket := {| in_sol := 0; in_usdc := 0 |}.

Definition in_bucket (b : QuoteBucket) (t : ByBucket) : Z := match b with sol => in_sol t | usdc => in_usdc t end.

Definition add_to (b : QuoteBucket) (x : Z) (t : ByBucket) : ByBucket :=
  match b with
  | sol => {| in_sol := in_sol t + x; in_usdc := in_usdc t |}
  | usdc => {| in_sol := in_sol t; in_usdc := in_usdc t + x |}
  end.

Record PortfolioExposure : Type := {
  openPositions : Z; notionalByBucket : ByBucket; collateralByBucket : ByBucket; stale : bool; unbucketed : Z
}.

Definition staleExposure : PortfolioExposure :=
  {| openPositions := 0; notionalByBucket := ZERO; collateralByBucket := ZERO; stale := true; unbucketed := 0 |}.

Definition emptyExposure : PortfolioExposure :=
  {| openPositions := 0; notionalByBucket := ZERO; collateralByBucket := ZERO; stale := false; unbucketed := 0 |}.

(** One turn of the loop of `exposureFrom`, on the two sums and the count. *)
Definition add_position (t : ByBucket * ByBucket * Z) (p : PerpPosition) : ByBucket * ByBucket * Z :=
  let '(n, c, u) := t in
  match quoteBucketFor (mint (pos_notional p)), quoteBucketFor (mint (pos_collateral p)) with
  | Some b, Some cb => (add_to b (Z.abs (amount (pos_notional p))) n, add_to cb (Z.abs (amount (pos_collateral p))) c, u)
  | _, _ => (n, c, u + 1)
  end.

Definition exposureFrom (positions : list PerpPosition) : PortfolioExposure :=
  let '(n, c, u) := fold_left add_position positions (ZERO, ZERO, 0) in
  {| openPositions := Z.of_nat (length positions); notionalByBucket := n; collateralByBucket := c; stale := 0 <? u;
     unbucketed := u |}.

(** `toUpperCase` of an ASCII text. *)
Definition upper_char (c : ascii) : ascii :=
  let n := nat_of_ascii c in if ((97 <=? n) && (n <=? 122))%nat then ascii_of_nat (n - 32) else c.

Fixpoint toUpperCase (s : string) : string :=
  match s with "" => "" | String c s' => String (upper_char c) (toUpperCase s') end.

Definition trim_text (s : string) : string := String.string_of_list_ascii (trim (String.list_ascii_of_string s)).

Definition positionIn (positions : list PerpPosition) (symbol : string) : option PerpPosition :=
  List.find (fun p => streq (toUpperCase (pos_symbol p)) (toUpperCase (trim_text symbol))) positions.
