(* ===== verification/PerpsGuards.v ===== *)
(** Perpetual futures: intents and guards (`src/perps/intent.ts`, `guards.ts`,
    `errors.ts`).

    A rule is a function of the intent and its context that names a violation,
    or throws where `BigInt` meets an infinity.  A violation is its code; the texts
    and details are not modelled. *)
From S2P Require Import Prelude Money Contracts Doubles Perps.
From Stdlib Require Import QArith.
#[local] Open Scope string_scope.
#[local] Open Scope list_scope.
#[local] Open Scope Z_scope.

(** *** `errors.ts` *)

Inductive PerpGuardCode : Type :=
  | P_PERPS_DISABLED | P_KILL_SWITCH | P_WIND_DOWN_ONLY | P_INVALID_PERP_INTENT | P_MARKET_DENIED
  | P_MARKET_NOT_TRADEABLE | P_COLLATERAL_MINT_DENIED | P_COLLATERAL_NOT_CAPPABLE | P_LEVERAGE_EXCEEDED
  | P_COLLATERAL_CAP_EXCEEDED | P_NOTIONAL_CAP_EXCEEDED | P_PORTFOLIO_EXPOSURE_EXCEEDED | P_POSITION_COUNT_EXCEEDED
  | P_EXPOSURE_UNKNOWN | P_LIQUIDATION_TOO_CLOSE | P_LIQUIDATION_UNKNOWN | P_FUNDING_RATE_UNSANE
  | P_FUNDING_RATE_ADVERSE | P_FUNDING_RATE_UNKNOWN | P_ORACLE_DIVERGENCE | P_SLIPPAGE_EXCEEDED
  | P_REDUCE_ONLY_VIOLATION | P_NO_POSITION | P_POSITION_SIDE_MISMATCH | P_SIZE_EXCEEDS_POSITION
  | P_ACCOUNT_NOT_INITIALIZED | P_ACCOUNT_CREATION_DISABLED.

Definition kernelCodeFor (c : PerpGuardCode) : GuardCode :=
  match c with
  | P_PERPS_DISABLED | P_WIND_DOWN_ONLY | P_ACCOUNT_CREATION_DISABLED => EXECUTION_DISABLED
  | P_KILL_SWITCH => KILL_SWITCH
  | P_MARKET_DENIED | P_COLLATERAL_MINT_DENIED => MINT_DENIED
  | P_LEVERAGE_EXCEEDED | P_COLLATERAL_CAP_EXCEEDED | P_NOTIONAL_CAP_EXCEEDED | P_PORTFOLIO_EXPOSURE_EXCEEDED
  | P_POSITION_COUNT_EXCEEDED => CAP_EXCEEDED
  | P_SLIPPAGE_EXCEEDED => SLIPPAGE_EXCEEDED
  | _ => INVALID_INTENT
  end.

(** *** `intent.ts` *)

Inductive PerpIntentKind : Type := perp_open | perp_increase | perp_reduce | perp_close.

#[export] Instance PerpIntentKind_eq_dec : EqDecision PerpIntentKind.
Proof. solve_decision. Defined.

Definition kind_text (k : PerpIntentKind) : string :=
  match k with
  | perp_open => "perp_open" | perp_increase => "perp_increase" | perp_reduce => "perp_reduce" | perp_close => "perp_close"
  end.

Definition isReducingKind (k : PerpIntentKind) : bool := match k with perp_reduce | perp_close => true | _ => false end.

Definition isOpeningKind (k : PerpIntentKind) : bool := match k with perp_open | perp_increase => true | _ => false end.

Inductive PerpOrderType : Type := O_market | O_limit.

Record PerpLeg : Type := {
  pl_venue : string; pl_market : string; pl_venueMarketIndex : Z; pl_accountSubId : Z; pl_side : Side;
  pl_orderType : PerpOrderType; pl_limitPrice : option number; pl_reduceOnly : bool; pl_leverage : number;
  pl_slippageBps : number; pl_baseDecimals : nat; pl_expectedBaseAmount : Z; pl_minBaseAmount : Z;
  pl_collateral : TokenAmount; pl_notional : TokenAmount; pl_entryPrice : number; pl_markPrice : number;
  pl_oraclePrice : number; pl_maintenanceMarginRatio : number; pl_marketStatus : PerpMarketStatus;
  pl_venueLiquidationPrice : option number; pl_fundingBpsPerHour : option number
}.

(** `Omit<TradeIntent, "kind">` with its kind and its leg. *)
Record PerpIntent : Type := {
  pi_kind : PerpIntentKind; pi_source : string; pi_input : TokenAmount; pi_output : MintRef;
  pi_inputProvenance : MintProvenance; pi_outputProvenance : MintProvenance; pi_unsignedTxBase64 : string;
  pi_recentBlockhash : string; pi_lastValidBlockHeight : Z; pi_landMode : LandMode; pi_landHandle : option string;
  pi_priorityFeeLamports : number; pi_quote : QuoteSummary; pi_summary : string; pi_perp : PerpLeg
}.

(** The values `assertPerpIntentShape` refuses; a value of the wrong type is not a
    [PerpIntent]. *)
Definition shape_bad (i : PerpIntent) : bool :=
  let p := pi_perp i in
  let usable x := isFinite x && num_gt x (js_num 0) in
  streq (pi_source i) "" || streq (pi_unsignedTxBase64 i) "" || streq (pi_recentBlockhash i) "" ||
  (pi_lastValidBlockHeight i <=? 0) ||
  negb (isFinite (pi_priorityFeeLamports i)) || num_lt (pi_priorityFeeLamports i) (js_num 0) ||
  streq (mint (pi_input i)) "" || (amount (pi_input i) <? 0) ||
  streq (pl_venue p) "" || streq (pl_market p) "" ||
  negb (usable (pl_leverage p)) ||
  negb (num_isInteger (pl_slippageBps p)) || num_lt (pl_slippageBps p) (js_num 0) ||
  (pl_expectedBaseAmount p <=? 0) || (pl_minBaseAmount p <? 0) || (pl_expectedBaseAmount p <? pl_minBaseAmount p) ||
  negb (streq (mint (pl_collateral p)) (mint (pi_input i))) ||
  negb (amount (pl_collateral p) =? amount (pi_input i)) ||
  (amount (pl_notional p) <? 0) || negb (streq (mint (pl_notional p)) (mint (pi_input i))) ||
  negb (usable (pl_entryPrice p)) || negb (usable (pl_markPrice p)) || negb (usable (pl_oraclePrice p)) ||
  negb (isFinite (pl_maintenanceMarginRatio p)) || num_lt (pl_maintenanceMarginRatio p) (js_num 0) ||
  num_le (js_num 1) (pl_maintenanceMarginRatio p) ||
  match pl_orderType p with
  | O_limit => match pl_limitPrice p with Some x => negb (usable x) | None => true end
  | O_market => false
  end ||
  negb (Bool.eqb (pl_reduceOnly p) (isReducingKind (pi_kind i))).

(** What a perp guard throws. *)
Inductive perp_exn : Type := PerpGuardError (c : PerpGuardCode) | RangeError.

Definition assertPerpIntentShape (i : PerpIntent) : perp_exn + unit :=
  if shape_bad i then inl (PerpGuardError P_INVALID_PERP_INTENT) else inr tt.

(** The intent as the kernel reads it. *)
Definition trade_of (i : PerpIntent) : TradeIntent :=
  let p := pi_perp i in
  {| kind := kind_text (pi_kind i); source := pi_source i; input := pi_input i; output := pi_output i;
     inputProvenance := pi_inputProvenance i; outputProvenance := pi_outputProvenance i;
     unsignedTxBase64 := pi_unsignedTxBase64 i; recentBlockhash := pi_recentBlockhash i;
     lastValidBlockHeight := pi_lastValidBlockHeight i; landMode := pi_landMode i; landHandle := pi_landHandle i;
     priorityFeeLamports := pi_priorityFeeLamports i; quote := pi_quote i;
     perp := Some {| venue := pl_venue p; market := pl_market p; accountSubId := pl_accountSubId p; side := pl_side p;
                     baseDecimals := pl_baseDecimals p; expectedBaseAmount := pl_expectedBaseAmount p;
                     minBaseAmount := pl_minBaseAmount p |};
     summary := pi_summary i |}.

Definition asTradeIntent (i : PerpIntent) : perp_exn + TradeIntent :=
  match assertPerpIntentShape i with inl e => inl e | inr _ => inr (trade_of i) end.

(** *** `guards.ts` *)

Record PerpGuardContext : Type := {
  gc_policy : PerpsPolicy; gc_killSwitch : bool; gc_executionEnabled : bool; gc_exposure : PortfolioExposure;
  gc_position : option PerpPosition; gc_accountInitialized : bool; gc_dryRun : bool
}.

Definition verdict : Type := (perp_exn + option PerpGuardCode)%type.

Definition rule : Type := PerpIntent -> PerpGuardContext -> verdict.

Definition pass : verdict := inr None.

Definition refuse (c : PerpGuardCode) : verdict := inr (Some c).

Definition armState : rule := fun i ctx =>
  if gc_killSwitch ctx && isOpeningKind (pi_kind i) then refuse P_KILL_SWITCH
  else if negb (gc_dryRun ctx) && negb (gc_executionEnabled ctx) then refuse P_PERPS_DISABLED
  else if negb (perpsEnabled (gc_policy ctx)) && isOpeningKind (pi_kind i) then refuse P_PERPS_DISABLED
  else if windDownOnly (gc_policy ctx) && isOpeningKind (pi_kind i) then refuse P_WIND_DOWN_ONLY
  else pass.

Definition accountReady : rule := fun i ctx =>
  if gc_accountInitialized ctx then pass else refuse P_ACCOUNT_NOT_INITIALIZED.

(** `list.some((m) => m.toUpperCase() === market)` *)
Definition names_market (l : list string) (market : string) : bool :=
  existsb (fun m => streq (toUpperCase m) (toUpperCase market)) l.

Definition marketAllowed : rule := fun i ctx =>
  if names_market (marketDenylist (gc_policy ctx)) (pl_market (pi_perp i)) then refuse P_MARKET_DENIED
  else match marketAllowlist (gc_policy ctx) with
       | Some allow => if negb (names_market allow (pl_market (pi_perp i))) then refuse P_MARKET_DENIED else pass
       | None => pass
       end.

Definition marketTradeable : rule := fun i ctx =>
  match pl_marketStatus (pi_perp i) with
  | M_active => pass
  | M_reduce_only => if isReducingKind (pi_kind i) then pass else refuse P_MARKET_NOT_TRADEABLE
  | _ => refuse P_MARKET_NOT_TRADEABLE
  end.

Definition collateralAllowed : rule := fun i ctx =>
  if negb (includes (allowedCollateralMints (gc_policy ctx)) (mint (pl_collateral (pi_perp i))))
  then refuse P_COLLATERAL_MINT_DENIED else pass.

Definition bucketOf (i : PerpIntent) : option QuoteBucket := quoteBucketFor (mint (pl_collateral (pi_perp i))).

Definition collateralCappable : rule := fun i ctx =>
  match bucketOf i with Some _ => pass | None => refuse P_COLLATERAL_NOT_CAPPABLE end.

Definition slippageWithinClamp : rule := fun i ctx =>
  if num_le (pl_slippageBps (pi_perp i)) (pp_maxSlippageBps (gc_policy ctx)) then pass else refuse P_SLIPPAGE_EXCEEDED.

Definition reduceIsAReduction : rule := fun i ctx =>
  if negb (isReducingKind (pi_kind i)) then pass
  else match gc_position ctx with
       | None => refuse P_NO_POSITION
       | Some pos =>
           if negb (streq (toUpperCase (pos_symbol pos)) (toUpperCase (pl_market (pi_perp i))))
           then refuse P_POSITION_SIDE_MISMATCH
           else if bool_decide (pos_side pos = pl_side (pi_perp i)) then refuse P_POSITION_SIDE_MISMATCH
           else if pos_baseAmount pos <? pl_expectedBaseAmount (pi_perp i) then refuse P_SIZE_EXCEEDS_POSITION
           else pass
       end.

Definition increaseMatchesPosition : rule := fun i ctx =>
  if negb (bool_decide (pi_kind i = perp_increase)) then pass
  else match gc_position ctx with
       | None => refuse P_NO_POSITION
       | Some pos => if negb (bool_decide (pos_side pos = pl_side (pi_perp i))) then refuse P_POSITION_SIDE_MISMATCH
                     else pass
       end.

Definition leverageWithinCap : rule := fun i ctx =>
  if negb (isOpeningKind (pi_kind i)) then pass
  else if num_gt (pl_leverage (pi_perp i)) (maxLeverage (gc_policy ctx)) then refuse P_LEVERAGE_EXCEEDED else pass.

Definition collateralWithinCap : rule := fun i ctx =>
  match bucketOf i with
  | None => pass
  | Some bucket =>
      let a := amount (pl_collateral (pi_perp i)) in
      if a =? 0 then pass
      else if maxCollateralPerPosition (capsFor (gc_policy ctx) bucket) <? a then refuse P_COLLATERAL_CAP_EXCEEDED
      else pass
  end.

Definition notionalWithinCap : rule := fun i ctx =>
  if negb (isOpeningKind (pi_kind i)) then pass
  else match bucketOf i with
  | None => pass
  | Some bucket =>
      match notionalFromCollateral (amount (pl_collateral (pi_perp i))) (pl_leverage (pi_perp i)) with
      | inl _ => inl RangeError
      | inr None => refuse P_NOTIONAL_CAP_EXCEEDED
      | inr (Some derived) =>
          let claimed := amount (pl_notional (pi_perp i)) in
          let effective := if derived <? claimed then claimed else derived in
          if maxNotionalPerPosition (capsFor (gc_policy ctx) bucket) <? effective then refuse P_NOTIONAL_CAP_EXCEEDED
          else pass
      end
  end.

Definition portfolioWithinCap : rule := fun i ctx =>
  if negb (isOpeningKind (pi_kind i)) then pass
  else match bucketOf i with
  | None => pass
  | Some bucket =>
      if stale (gc_exposure ctx) then refuse P_EXPOSURE_UNKNOWN
      else match notionalFromCollateral (amount (pl_collateral (pi_perp i))) (pl_leverage (pi_perp i)) with
      | inl _ => inl RangeError
      | inr o =>
          let claimed := amount (pl_notional (pi_perp i)) in
          let derived := default claimed o in
          let add := if derived <? claimed then claimed else derived in
          let current := in_bucket bucket (notionalByBucket (gc_exposure ctx)) in
          if maxPortfolioNotional (capsFor (gc_policy ctx) bucket) <? current + add
          then refuse P_PORTFOLIO_EXPOSURE_EXCEEDED else pass
      end
  end.

Definition positionCountWithinCap : rule := fun i ctx =>
  if negb (bool_decide (pi_kind i = perp_open)) then pass
  else if stale (gc_exposure ctx) then refuse P_EXPOSURE_UNKNOWN
  else match gc_position ctx with
       | Some _ => pass
       | None => if num_le (maxOpenPositions (gc_policy ctx)) (js_num (openPositions (gc_exposure ctx)))
                 then refuse P_POSITION_COUNT_EXCEEDED else pass
       end.

Definition liquidationDistanceOk : rule := fun i ctx =>
  if negb (isOpeningKind (pi_kind i)) then pass
  else
    let p := pi_perp i in
    let model := modelLiquidationPrice (pl_side p) (pl_entryPrice p) (pl_leverage p) (pl_maintenanceMarginRatio p) in
    let r := reconcileLiquidation (pl_side p) (pl_entryPrice p) (pl_venueLiquidationPrice p) model
               (liquidationToleranceBps (gc_policy ctx)) in
    match ambiguity r, rl_distanceBps r with
    | None, Some d => if num_lt d (minLiquidationDistanceBps (gc_policy ctx)) then refuse P_LIQUIDATION_TOO_CLOSE else pass
    | _, _ => refuse P_LIQUIDATION_UNKNOWN
    end.

Definition oracleAgreesWithMark : rule := fun i ctx =>
  if negb (isOpeningKind (pi_kind i)) then pass
  else match oracleDivergenceBps (pl_markPrice (pi_perp i)) (pl_oraclePrice (pi_perp i)) with
       | None => refuse P_ORACLE_DIVERGENCE
       | Some div => if num_gt div (maxOracleDivergenceBps (gc_policy ctx)) then refuse P_ORACLE_DIVERGENCE else pass
       end.

Definition fundingSane : rule := fun i ctx =>
  if negb (isOpeningKind (pi_kind i)) then pass
  else match pl_fundingBpsPerHour (pi_perp i) with
  | None => refuse P_FUNDING_RATE_UNKNOWN
  | Some f =>
      if negb (isFinite f) then refuse P_FUNDING_RATE_UNKNOWN
      else if num_gt (num_abs f) (maxFundingRateBpsPerHour (gc_policy ctx)) then refuse P_FUNDING_RATE_UNSANE
      else
        let adverse := match pl_side (pi_perp i) with long => f | short => num_neg f end in
        if num_gt adverse (maxAdverseFundingBpsPerHour (gc_policy ctx)) then refuse P_FUNDING_RATE_ADVERSE else pass
  end.

Definition PERP_RULES : list rule :=
  [armState; accountReady; marketAllowed; marketTradeable; collateralAllowed; collateralCappable; slippageWithinClamp;
   reduceIsAReduction; increaseMatchesPosition; leverageWithinCap; collateralWithinCap; notionalWithinCap;
   portfolioWithinCap; positionCountWithinCap; liquidationDistanceOk; oracleAgreesWithMark; fundingSane].

(** The loop of `perpGuards`. *)
Fixpoint enforce (rs : list rule) (i : PerpIntent) (ctx : PerpGuardContext) : perp_exn + unit :=
  match rs with
  | [] => inr tt
  | r :: rs' => match r i ctx with
                | inl e => inl e
                | inr (Some c) => inl (PerpGuardError c)
                | inr None => enforce rs' i ctx
                end
  end.

Definition perpGuards (i : PerpIntent) (ctx : PerpGuardContext) : perp_exn + unit :=
  match assertPerpIntentShape i with inl e => inl e | inr _ => enforce PERP_RULES i ctx end.

(** The loop of `evaluatePerpGuards`: the violations, in the order of the rules. *)
Fixpoint collect (rs : list rule) (i : PerpIntent) (ctx : PerpGuardContext) : perp_exn + list PerpGuardCode :=
  match rs with
  | [] => inr []
  | r :: rs' => match r i ctx with
                | inl e => inl e
                | inr o => match collect rs' i ctx with
                           | inl e => inl e
                           | inr l => inr (match o with Some c => c :: l | None => l end)
                           end
                end
  end.

(** `ok`, and the violations. *)
Definition evaluatePerpGuards (i : PerpIntent) (ctx : PerpGuardContext) : perp_exn + (bool * list PerpGuardCode) :=
  match assertPerpIntentShape i with
  | inl (PerpGuardError c) => inr (false, [c])
  | inl RangeError => inr (false, [P_INVALID_PERP_INTENT])
  | inr _ => match collect PERP_RULES i ctx with inl e => inl e | inr l => inr (bool_decide (l = []), l) end
  end.

Definition positionLiquidationDistanceBps (p : PerpPosition) : option number :=
  match pos_liquidationPrice p with
  | None => None
  | Some l => liquidationDistanceBps (pos_side p) (pos_markPrice p) l
  end.

(** *** `tools/deps.ts` *)

Record PerpsSnapshot : Type := {
  sn_positions : list PerpPosition; sn_exposure : PortfolioExposure; sn_accountInitialized : bool
}.

(** `readSnapshot`, with what the venue answers: [None] where it throws. *)
Definition readSnapshot (positions : option (list PerpPosition)) (initialized : option bool) : PerpsSnapshot :=
  {| sn_positions := default [] positions;
     sn_exposure := match positions with Some l => exposureFrom l | None => staleExposure end;
     sn_accountInitialized := default false initialized |}.

Definition guardContext (policy : PerpsPolicy) (killSwitch executionEnabled : bool) (s : PerpsSnapshot)
    (market : string) (dryRun : bool) : PerpGuardContext :=
  {| gc_policy := policy; gc_killSwitch := killSwitch; gc_executionEnabled := executionEnabled;
     gc_exposure := sn_exposure s; gc_position := positionIn (sn_positions s) market;
     gc_accountInitialized := sn_accountInitialized s; gc_dryRun := dryRun |}.
