(* ===== verification/PerpsSafety.v ===== *)
(** What the perp guards admit (`src/perps/guards.ts`).

    Enforcement and advice agree; an intent is admitted exactly when it is
    admissible, where what opens or increases a position has conditions that what
    reduces or closes one has not; and what is opened stays within the caps of the
    portfolio the venue reported. *)
From S2P Require Import Prelude Money Contracts Doubles Perps PerpsGuards.
From Stdlib Require Import QArith Qround.
#[local] Open Scope string_scope.
#[local] Open Scope list_scope.
#[local] Open Scope Z_scope.

(** *** The two paths *)

Lemma enforce_ok rs i ctx : enforce rs i ctx = inr tt <-> Forall (fun r : rule => r i ctx = pass) rs.
Proof.
  induction rs as [|r rs IH]; cbn; [by rewrite Forall_nil|]. rewrite Forall_cons. unfold pass.
  destruct (r i ctx) as [e|[c|]]; [split; [done|by intros [? _]]..|]. rewrite IH. tauto.
Qed.

(** Where no rule throws, enforcement stops at the first violation collected. *)
Lemma collect_enforce rs i ctx l : collect rs i ctx = inr l ->
  enforce rs i ctx = match l with [] => inr tt | c :: _ => inl (PerpGuardError c) end.
Proof.
  revert l. induction rs as [|r rs IH]; cbn; intros l H; [by simplify_eq|].
  destruct (r i ctx) as [e|o]; [done|]. destruct (collect rs i ctx) as [e|l'] eqn:E; [done|]. simplify_eq.
  destruct o; [done|]. by apply IH.
Qed.

Lemma collect_throws rs i ctx e : collect rs i ctx = inl e ->
  e = RangeError -> enforce rs i ctx <> inr tt.
Proof.
  revert e. induction rs as [|r rs IH]; cbn; intros e H He; [done|].
  destruct (r i ctx) as [e'|o]; [done|]. destruct (collect rs i ctx) as [e'|l'] eqn:E; [|done]. simplify_eq.
  destruct o; [done|]. by eapply IH.
Qed.

(** The rules that may throw do when the leverage in basis points overflows. *)
Definition leverage_overflows (i : PerpIntent) : Prop := exists s, leverageToBps (pl_leverage (pi_perp i)) = Some (Infinite s).

Lemma leverageToBps_not_nan x : leverageToBps x <> Some NaN.
Proof. unfold leverageToBps. destruct (_ || _); [done|]. destruct (num_round _); try done; by case_match. Qed.

Lemma notional_throws i c u : notionalFromCollateral c (pl_leverage (pi_perp i)) = inl u -> leverage_overflows i.
Proof.
  unfold notionalFromCollateral, leverage_overflows. pose proof (leverageToBps_not_nan (pl_leverage (pi_perp i))) as Hn.
  destruct (leverageToBps _) as [[|s|q]|]; [congruence|eauto| |done]. cbn. by destruct (c <? 0).
Qed.

Lemma rules_total i ctx r e : r ∈ PERP_RULES -> r i ctx = inl e -> e = RangeError /\ leverage_overflows i.
Proof.
  intros Hr H. repeat (apply elem_of_cons in Hr as [->|Hr]); try by apply elem_of_nil in Hr.
  all: unfold armState, accountReady, marketAllowed, marketTradeable, collateralAllowed, collateralCappable,
    slippageWithinClamp, reduceIsAReduction, increaseMatchesPosition, leverageWithinCap, collateralWithinCap,
    notionalWithinCap, portfolioWithinCap, positionCountWithinCap, liquidationDistanceOk, oracleAgreesWithMark,
    fundingSane, pass, refuse in H.
  all: repeat first [ progress cbn zeta in H | case_match ]; try done; simplify_eq; split; eauto using notional_throws.
Qed.

Lemma collect_total rs i ctx e : (forall r, r ∈ rs -> r ∈ PERP_RULES) -> collect rs i ctx = inl e ->
  e = RangeError /\ leverage_overflows i.
Proof.
  induction rs as [|r rs IH]; cbn; intros Hin H; [done|]. destruct (r i ctx) as [e'|o] eqn:E.
  - simplify_eq. eapply rules_total; [apply Hin; left|done].
  - destruct (collect rs i ctx) as [e'|l] eqn:Ec; [|done]. simplify_eq. apply IH; [|done]. intros r' Hr'. apply Hin. by right.
Qed.

(** Advice and enforcement agree: `evaluatePerpGuards` answers ok exactly when
    `perpGuards` returns, and otherwise lists first the violation `perpGuards`
    throws.  It fails to answer only when the leverage in basis points is no double,
    and then `perpGuards` refuses too. *)
Theorem guards_agree i ctx :
  match evaluatePerpGuards i ctx with
  | inr (ok, violations) =>
      perpGuards i ctx = match violations with [] => inr tt | c :: _ => inl (PerpGuardError c) end /\
      ok = bool_decide (violations = [])
  | inl e => e = RangeError /\ leverage_overflows i /\ exists e', perpGuards i ctx = inl e'
  end.
Proof.
  unfold evaluatePerpGuards, perpGuards, assertPerpIntentShape. destruct (shape_bad i); [done|].
  destruct (collect PERP_RULES i ctx) as [e|l] eqn:E.
  - destruct (collect_total _ _ _ _ (fun r H => H) E) as [He Ho]. split_and!; [done|done|].
    pose proof (collect_throws _ _ _ _ E He) as Hne. destruct (enforce _ _ _) as [e'|[]]; [eauto|done].
  - split; [by apply collect_enforce|done].
Qed.

(** *** What is admissible *)

(** A policy with numbers: a bound that is NaN bounds nothing. *)
Record policy_finite (p : PerpsPolicy) : Prop := {
  pf_leverage : isFinite (maxLeverage p) = true;
  pf_distance : isFinite (minLiquidationDistanceBps p) = true;
  pf_funding : isFinite (maxFundingRateBpsPerHour p) = true;
  pf_adverse : isFinite (maxAdverseFundingBpsPerHour p) = true;
  pf_divergence : isFinite (maxOracleDivergenceBps p) = true;
  pf_positions : isFinite (maxOpenPositions p) = true
}.

(** What every intent needs. *)
Record common_ok (i : PerpIntent) (ctx : PerpGuardContext) : Prop := {
  co_armed : gc_dryRun ctx = true \/ gc_executionEnabled ctx = true;
  co_account : gc_accountInitialized ctx = true;
  co_denied : forall m, m ∈ marketDenylist (gc_policy ctx) -> toUpperCase m <> toUpperCase (pl_market (pi_perp i));
  co_allowed : forall l, marketAllowlist (gc_policy ctx) = Some l ->
    exists m, m ∈ l /\ toUpperCase m = toUpperCase (pl_market (pi_perp i));
  co_mint : mint (pl_collateral (pi_perp i)) ∈ allowedCollateralMints (gc_policy ctx);
  co_slippage : num_le (pl_slippageBps (pi_perp i)) (pp_maxSlippageBps (gc_policy ctx)) = true;
  co_collateral : exists b, quoteBucketFor (mint (pl_collateral (pi_perp i))) = Some b /\
    (amount (pl_collateral (pi_perp i)) = 0 \/
     amount (pl_collateral (pi_perp i)) <= maxCollateralPerPosition (capsFor (gc_policy ctx) b))
}.

(** An order that reduces faces its position, and is no larger. *)
Record reducing_ok (i : PerpIntent) (ctx : PerpGuardContext) : Prop := {
  ro_market : pl_marketStatus (pi_perp i) = M_active \/ pl_marketStatus (pi_perp i) = M_reduce_only;
  ro_position : exists pos, gc_position ctx = Some pos /\
    toUpperCase (pos_symbol pos) = toUpperCase (pl_market (pi_perp i)) /\
    pos_side pos = oppositeSide (pl_side (pi_perp i)) /\ pl_expectedBaseAmount (pi_perp i) <= pos_baseAmount pos
}.

(** The usable estimates of how far an entry is from liquidation, the venue's and the
    model's. *)
Inductive estimate (p : PerpLeg) : number -> Prop :=
  | venue_estimate l d : pl_venueLiquidationPrice p = Some l ->
      liquidationDistanceBps (pl_side p) (pl_entryPrice p) l = Some d -> estimate p d
  | model_estimate l d :
      modelLiquidationPrice (pl_side p) (pl_entryPrice p) (pl_leverage p) (pl_maintenanceMarginRatio p) = Some l ->
      liquidationDistanceBps (pl_side p) (pl_entryPrice p) l = Some d -> estimate p d.

(** What an order that adds risk needs besides. *)
Record opening_ok (i : PerpIntent) (ctx : PerpGuardContext) : Prop := {
  oo_armed : gc_killSwitch ctx = false /\ perpsEnabled (gc_policy ctx) = true /\ windDownOnly (gc_policy ctx) = false;
  oo_market : pl_marketStatus (pi_perp i) = M_active;
  oo_slot : match pi_kind i with
            | perp_increase => exists pos, gc_position ctx = Some pos /\ pos_side pos = pl_side (pi_perp i)
            | _ => gc_position ctx <> None \/
                   num_lt (js_num (openPositions (gc_exposure ctx))) (maxOpenPositions (gc_policy ctx)) = true
            end;
  oo_leverage : num_le (pl_leverage (pi_perp i)) (maxLeverage (gc_policy ctx)) = true;
  oo_notional : exists b derived, quoteBucketFor (mint (pl_collateral (pi_perp i))) = Some b /\
    notionalFromCollateral (amount (pl_collateral (pi_perp i))) (pl_leverage (pi_perp i)) = inr (Some derived) /\
    stale (gc_exposure ctx) = false /\
    let added := Z.max derived (amount (pl_notional (pi_perp i))) in
    added <= maxNotionalPerPosition (capsFor (gc_policy ctx) b) /\
    in_bucket b (notionalByBucket (gc_exposure ctx)) + added <= maxPortfolioNotional (capsFor (gc_policy ctx) b);
  oo_liquidation : (exists d, estimate (pi_perp i) d) /\
    forall d, estimate (pi_perp i) d -> num_le (minLiquidationDistanceBps (gc_policy ctx)) d = true;
  oo_oracle : exists d, oracleDivergenceBps (pl_markPrice (pi_perp i)) (pl_oraclePrice (pi_perp i)) = Some d /\
    num_le d (maxOracleDivergenceBps (gc_policy ctx)) = true;
  oo_funding : exists f, pl_fundingBpsPerHour (pi_perp i) = Some f /\ isFinite f = true /\
    num_le (num_abs f) (maxFundingRateBpsPerHour (gc_policy ctx)) = true /\
    num_le (match pl_side (pi_perp i) with long => f | short => num_neg f end)
           (maxAdverseFundingBpsPerHour (gc_policy ctx)) = true
}.

(** *** The rules *)

Section Rules.
Context (i : PerpIntent) (ctx : PerpGuardContext).
#[local] Abbreviation p := (pi_perp i).
#[local] Abbreviation policy := (gc_policy ctx).
#[local] Abbreviation opening := (isOpeningKind (pi_kind i)).

Lemma armState_pass : armState i ctx = pass <->
  (gc_dryRun ctx = true \/ gc_executionEnabled ctx = true) /\
  (opening = true -> gc_killSwitch ctx = false /\ perpsEnabled policy = true /\ windDownOnly policy = false).
Proof.
  unfold armState, pass, refuse.
  destruct (gc_killSwitch ctx), opening, (gc_dryRun ctx), (gc_executionEnabled ctx), (perpsEnabled policy), (windDownOnly policy);
    cbn; intuition congruence.
Qed.

Lemma names_market_spec l m : names_market l m = true <-> exists x, x ∈ l /\ toUpperCase x = toUpperCase m.
Proof.
  unfold names_market. rewrite existsb_exists. setoid_rewrite streq_spec. setoid_rewrite <- list_elem_of_In. done.
Qed.

Lemma marketAllowed_pass : marketAllowed i ctx = pass <->
  (forall m, m ∈ marketDenylist policy -> toUpperCase m <> toUpperCase (pl_market p)) /\
  (forall l, marketAllowlist policy = Some l -> exists m, m ∈ l /\ toUpperCase m = toUpperCase (pl_market p)).
Proof.
  unfold marketAllowed, pass, refuse. pose proof (names_market_spec (marketDenylist policy) (pl_market p)) as Hd.
  destruct (names_market (marketDenylist policy) _).
  - split; [done|]. intros [H _]. destruct (proj1 Hd eq_refl) as (x & Hx & E). by destruct (H x).
  - assert (forall m, m ∈ marketDenylist policy -> toUpperCase m <> toUpperCase (pl_market p)) as H1.
    { intros m Hm E. by assert (false = true) by (apply Hd; eauto). }
    destruct (marketAllowlist policy) as [l|]; [|split; [split; [done|by intros ? [=]]|done]].
    pose proof (names_market_spec l (pl_market p)) as Ha. destruct (names_market l _); cbn; split; try done.
    + intros _. split; [done|]. intros l' [= <-]. by apply Ha.
    + intros [_ H]. by assert (false = true) by (apply Ha; auto).
Qed.

Lemma marketTradeable_pass : marketTradeable i ctx = pass <->
  pl_marketStatus p = M_active \/ (opening = false /\ pl_marketStatus p = M_reduce_only).
Proof. unfold marketTradeable, pass, refuse. destruct (pl_marketStatus p), (pi_kind i); cbn; intuition congruence. Qed.

Lemma collateral_pass :
  collateralAllowed i ctx = pass /\ collateralCappable i ctx = pass /\ collateralWithinCap i ctx = pass <->
  mint (pl_collateral p) ∈ allowedCollateralMints policy /\
  exists b, quoteBucketFor (mint (pl_collateral p)) = Some b /\
    (amount (pl_collateral p) = 0 \/ amount (pl_collateral p) <= maxCollateralPerPosition (capsFor policy b)).
Proof.
  unfold collateralAllowed, collateralCappable, collateralWithinCap, bucketOf, pass, refuse.
  destruct (includes _ _) eqn:Hm; cbn; bool_hyps; [|naive_solver].
  destruct (quoteBucketFor _) as [b|]; [|naive_solver].
  destruct (_ =? 0) eqn:H0; bool_hyps; [naive_solver|]. destruct (_ <? _) eqn:Hc; bool_hyps.
  - split; [naive_solver|]. intros (_ & b' & [= <-] & [H|H]); lia.
  - split; [|done]. intros _. split; [done|]. exists b. auto.
Qed.

Lemma reduceIsAReduction_pass : reduceIsAReduction i ctx = pass <->
  (opening = false -> exists pos, gc_position ctx = Some pos /\ toUpperCase (pos_symbol pos) = toUpperCase (pl_market p) /\
     pos_side pos = oppositeSide (pl_side p) /\ pl_expectedBaseAmount p <= pos_baseAmount pos).
Proof.
  unfold reduceIsAReduction, pass, refuse.
  assert (isReducingKind (pi_kind i) = negb opening) as -> by by destruct (pi_kind i).
  destruct opening; cbn; [naive_solver|]. destruct (gc_position ctx) as [pos|]; [|naive_solver].
  assert (pos_side pos = oppositeSide (pl_side p) <-> pos_side pos <> pl_side p) as Hs.
  { by destruct (pos_side pos), (pl_side p). }
  destruct (streq _ _) eqn:E; cbn; bool_hyps; [|naive_solver]. case_bool_decide as Hd; [naive_solver|].
  destruct (_ <? _) eqn:Hz; bool_hyps.
  - split; [done|]. intros H. destruct (H eq_refl) as (pos' & [= <-] & _ & _ & Hle). lia.
  - split; [|done]. intros _ _. exists pos. split_and!; try done. by apply Hs.
Qed.

Lemma increase_pass : increaseMatchesPosition i ctx = pass <->
  (pi_kind i = perp_increase -> exists pos, gc_position ctx = Some pos /\ pos_side pos = pl_side p).
Proof.
  unfold increaseMatchesPosition, pass, refuse. case_bool_decide as Hk; cbn; [|naive_solver].
  destruct (gc_position ctx) as [pos|]; [|naive_solver]. case_bool_decide; cbn; naive_solver.
Qed.

Lemma slot_pass : isFinite (maxOpenPositions policy) = true -> stale (gc_exposure ctx) = false ->
  positionCountWithinCap i ctx = pass <->
  (pi_kind i = perp_open -> gc_position ctx <> None \/
     num_lt (js_num (openPositions (gc_exposure ctx))) (maxOpenPositions policy) = true).
Proof.
  intros Hf Hs. unfold positionCountWithinCap, pass, refuse. rewrite Hs.
  case_bool_decide as Hk; cbn; [|naive_solver]. destruct (gc_position ctx); [naive_solver|].
  unfold num_lt, js_num. destruct (maxOpenPositions policy) as [| |q]; try done.
  destruct (num_le _ _); cbn; naive_solver.
Qed.

Lemma leverage_pass : isFinite (maxLeverage policy) = true -> isFinite (pl_leverage p) = true ->
  leverageWithinCap i ctx = pass <-> (opening = true -> num_le (pl_leverage p) (maxLeverage policy) = true).
Proof.
  intros Hm Hl. unfold leverageWithinCap, pass, refuse. destruct opening; cbn; [|naive_solver].
  destruct (num_gt _ _) eqn:E; split; try done.
  - intros H. rewrite num_le_not_gt in E by auto. done.
  - intros _ _. apply num_not_gt; [by intros X; rewrite X in Hl|done|done].
Qed.

Lemma notional_pass b : opening = true -> bucketOf i = Some b ->
  notionalWithinCap i ctx = pass /\ portfolioWithinCap i ctx = pass <->
  exists derived, notionalFromCollateral (amount (pl_collateral p)) (pl_leverage p) = inr (Some derived) /\
    stale (gc_exposure ctx) = false /\
    let added := Z.max derived (amount (pl_notional p)) in
    added <= maxNotionalPerPosition (capsFor policy b) /\
    in_bucket b (notionalByBucket (gc_exposure ctx)) + added <= maxPortfolioNotional (capsFor policy b).
Proof.
  intros Ho Hb. unfold notionalWithinCap, portfolioWithinCap, pass, refuse. rewrite Ho, Hb. cbn.
  destruct (notionalFromCollateral _ _) as [u|[d|]]; [naive_solver| |naive_solver]. cbn.
  assert ((if d <? amount (pl_notional p) then amount (pl_notional p) else d) = Z.max d (amount (pl_notional p))) as ->.
  { destruct (_ <? _) eqn:E; bool_hyps; lia. }
  destruct (stale _); [naive_solver|].
  destruct (maxNotionalPerPosition _ <? _) eqn:E1; bool_hyps.
  - split; [naive_solver|]. intros (d' & [= <-] & _ & H & _). lia.
  - destruct (maxPortfolioNotional _ <? _) eqn:E2; bool_hyps.
    + split; [naive_solver|]. intros (d' & [= <-] & _ & _ & H). lia.
    + split; [|done]. intros _. exists d. auto.
Qed.

(** The distance of `reconcileLiquidation` is the smallest estimate. *)
Lemma distance_finite sd r l d : liquidationDistanceBps sd r l = Some d -> exists q, d = Finite q.
Proof.
  unfold liquidationDistanceBps. destruct (negb (isUsablePrice r)); [done|]. destruct (_ || _); [done|].
  destruct (num_lt _ _); [done|]. destruct (num_mul _ _) as [| |q]; try done. intros [= <-]. by eexists.
Qed.

Definition model_price : option number :=
  modelLiquidationPrice (pl_side p) (pl_entryPrice p) (pl_leverage p) (pl_maintenanceMarginRatio p).

Definition reconciled : ReconciledLiquidation :=
  reconcileLiquidation (pl_side p) (pl_entryPrice p) (pl_venueLiquidationPrice p) model_price (liquidationToleranceBps policy).

Lemma estimate_spec d : estimate p d <->
  (pl_venueLiquidationPrice p ≫= liquidationDistanceBps (pl_side p) (pl_entryPrice p)) = Some d \/
  (model_price ≫= liquidationDistanceBps (pl_side p) (pl_entryPrice p)) = Some d.
Proof.
  split.
  - intros [l d' Hl Hd|l d' Hl Hd]; [left; by rewrite Hl|right]. unfold model_price. by rewrite Hl.
  - intros [H|H]; apply bind_Some in H as (l & Hl & Hd); [eapply venue_estimate|eapply model_estimate]; eauto.
Qed.

Lemma reconciled_smallest : isUsablePrice (pl_entryPrice p) = true ->
  match ambiguity reconciled, rl_distanceBps reconciled with
  | None, Some d => estimate p d /\ forall d', estimate p d' -> num_le d d' = true
  | _, _ => forall d, ~ estimate p d
  end.
Proof.
  intros Hu. unfold reconciled, reconcileLiquidation. rewrite Hu. cbn [negb]. pose proof estimate_spec as Hes.
  assert (forall (o : option number) d, (o ≫= liquidationDistanceBps (pl_side p) (pl_entryPrice p)) = Some d ->
    num_le d d = true) as Hrefl.
  { intros o d H. apply bind_Some in H as (l & _ & Hd). apply distance_finite in Hd as [q ->]. apply Qle_bool_iff, Qle_refl. }
  pose proof (Hrefl (pl_venueLiquidationPrice p)) as Hv. pose proof (Hrefl model_price) as Hm.
  assert (forall d m, (pl_venueLiquidationPrice p ≫= liquidationDistanceBps (pl_side p) (pl_entryPrice p)) = Some d ->
    (model_price ≫= liquidationDistanceBps (pl_side p) (pl_entryPrice p)) = Some m ->
    num_le d m = false -> num_le m d = true) as Htot.
  { intros d m H1 H2. apply bind_Some in H1 as (l1 & _ & H1), H2 as (l2 & _ & H2).
    apply distance_finite in H1 as [q ->], H2 as [r ->]. cbn. intros Hle. apply Qle_bool_iff.
    destruct (Qlt_le_dec q r) as [Hlt|]; [|done]. apply Qlt_le_weak, Qle_bool_iff in Hlt. congruence. }
  destruct (pl_venueLiquidationPrice p ≫= _) as [d|], (model_price ≫= _) as [m|]; cbn; setoid_rewrite Hes;
    [|naive_solver..].
  specialize (Htot d m eq_refl eq_refl). specialize (Hv d eq_refl). specialize (Hm m eq_refl).
  destruct (num_le d m) eqn:E; split; auto; intros d' [[= <-]|[= <-]]; auto.
Qed.

Lemma liquidation_pass : opening = true -> isUsablePrice (pl_entryPrice p) = true ->
  isFinite (minLiquidationDistanceBps policy) = true ->
  liquidationDistanceOk i ctx = pass <->
  (exists d, estimate p d) /\ forall d, estimate p d -> num_le (minLiquidationDistanceBps policy) d = true.
Proof.
  intros Ho Hu Hf. unfold liquidationDistanceOk, pass, refuse. rewrite Ho. cbn [negb].
  pose proof (reconciled_smallest Hu) as H. unfold reconciled, model_price in H.
  destruct (ambiguity _); [|destruct (rl_distanceBps _) as [d|]];
    [split; [done|intros [[d Hd] _]; by apply H in Hd]| |split; [done|intros [[d Hd] _]; by apply H in Hd]].
  destruct H as [Hd Hmin]. assert (isFinite d = true) as Hfd.
  { apply estimate_spec in Hd as [Hd|Hd]; apply bind_Some in Hd as (l & _ & Hd); by apply distance_finite in Hd as [q ->]. }
  destruct (num_lt d _) eqn:E; split; try done.
  - intros [_ H]. apply num_lt_le in E. by rewrite H in E.
  - intros _. split; [eauto|]. intros d' Hd'. eapply num_le_trans; [|by apply Hmin]. by apply num_not_lt.
Qed.

Lemma divergence_not_nan x y d : oracleDivergenceBps x y = Some d -> d <> NaN.
Proof.
  unfold oracleDivergenceBps. destruct (isUsablePrice x) eqn:Hx; [|done]. destruct (isUsablePrice y) eqn:Hy; [|done].
  cbn [negb orb]. unfold isUsablePrice in *. destruct x as [| |a]; try done. destruct y as [| |b]; try done.
  cbn [isFinite andb] in *. intros [= <-].
  assert (is_zero b = false) as Hb.
  { unfold is_zero. destruct (Qeq_bool b 0) eqn:E; [|done]. apply Qeq_bool_iff in E.
    unfold num_gt, num_lt in Hy. apply negb_true_iff in Hy.
    assert (num_le (Finite b) (js_num 0) = true) as H by (apply Qle_bool_iff; by rewrite E). congruence. }
  assert (forall z, num_mul z (js_num 10000) = NaN -> z = NaN) as Hmul.
  { intros [| |z]; try done. intros H. by apply round_double_not_nan in H. }
  assert (forall z, num_div z (Finite b) = NaN -> z = NaN) as Hdiv.
  { intros [| |z]; try done. cbn. rewrite Hb. intros H. by apply round_double_not_nan in H. }
  assert (num_abs (num_sub (Finite a) (Finite b)) <> NaN) as Habs.
  { cbn. pose proof (round_double_not_nan (a + - b)). by destruct (round_double _). }
  intros H. apply Habs, Hdiv, Hmul. by destruct (num_mul _ _).
Qed.

Lemma oracle_pass : opening = true -> isFinite (maxOracleDivergenceBps policy) = true ->
  oracleAgreesWithMark i ctx = pass <->
  exists d, oracleDivergenceBps (pl_markPrice p) (pl_oraclePrice p) = Some d /\
            num_le d (maxOracleDivergenceBps policy) = true.
Proof.
  intros Ho Hf. unfold oracleAgreesWithMark, pass, refuse. rewrite Ho. cbn [negb].
  destruct (oracleDivergenceBps _ _) as [d|] eqn:Ed; [|naive_solver]. destruct (num_gt d _) eqn:E; split; try done.
  - intros (d' & [= <-] & H). by rewrite num_le_not_gt in E.
  - intros _. exists d. split; [done|]. apply num_not_gt; [|done|done].
    by eapply divergence_not_nan.
Qed.

Lemma funding_pass : opening = true -> isFinite (maxFundingRateBpsPerHour policy) = true ->
  isFinite (maxAdverseFundingBpsPerHour policy) = true ->
  fundingSane i ctx = pass <->
  exists f, pl_fundingBpsPerHour p = Some f /\ isFinite f = true /\
    num_le (num_abs f) (maxFundingRateBpsPerHour policy) = true /\
    num_le (match pl_side p with long => f | short => num_neg f end) (maxAdverseFundingBpsPerHour policy) = true.
Proof.
  intros Ho Hm Ha. unfold fundingSane, pass, refuse. rewrite Ho. cbn [negb].
  destruct (pl_fundingBpsPerHour p) as [f|]; [|by split; [|intros (f & [=] & _)]].
  destruct (isFinite f) eqn:Hf; cbn [negb];
    [|by split; [|intros (f' & [= <-] & Hf' & _); congruence]].
  assert (forall x y, isFinite y = true -> x <> NaN -> num_gt x y = negb (num_le x y)) as Hgt.
  { intros x y Hy Hx. destruct (num_gt x y) eqn:E; [|by rewrite num_not_gt].
    destruct (num_le x y) eqn:E'; [|done]. by rewrite num_le_not_gt in E. }
  cbn zeta. rewrite (Hgt (num_abs f)), (Hgt (match pl_side p with long => f | short => num_neg f end));
    [|done|by destruct f, (pl_side p)|done|by destruct f].
  destruct (num_le (num_abs f) _) eqn:E1; cbn [negb];
    [|by split; [|intros (f' & [= <-] & _ & H & _); congruence]].
  destruct (num_le (match pl_side p with long => f | short => num_neg f end) (maxAdverseFundingBpsPerHour policy)) eqn:E2; cbn [negb].
  - split; [|done]. intros _. by exists f.
  - by split; [|intros (f' & [= <-] & _ & _ & H); congruence].
Qed.
End Rules.

(** *** Admission *)

Lemma shape_facts i : shape_bad i = false ->
  isFinite (pl_leverage (pi_perp i)) = true /\ isUsablePrice (pl_entryPrice (pi_perp i)) = true /\
  mint (pl_collateral (pi_perp i)) = mint (pi_input i) /\ amount (pl_collateral (pi_perp i)) = amount (pi_input i) /\
  0 <= amount (pi_input i).
Proof. unfold shape_bad, isUsablePrice. intros H. bool_hyps. split_and!; try done. by apply andb_true_iff. Qed.

Lemma common_pass i ctx :
  armState i ctx = pass /\ accountReady i ctx = pass /\ marketAllowed i ctx = pass /\
  (collateralAllowed i ctx = pass /\ collateralCappable i ctx = pass /\ collateralWithinCap i ctx = pass) /\
  slippageWithinClamp i ctx = pass <->
  common_ok i ctx /\ (isOpeningKind (pi_kind i) = true ->
    gc_killSwitch ctx = false /\ perpsEnabled (gc_policy ctx) = true /\ windDownOnly (gc_policy ctx) = false).
Proof.
  rewrite armState_pass, marketAllowed_pass, collateral_pass.
  assert (accountReady i ctx = pass <-> gc_accountInitialized ctx = true) as ->.
  { unfold accountReady, pass, refuse. by destruct (gc_accountInitialized ctx). }
  assert (slippageWithinClamp i ctx = pass <->
    num_le (pl_slippageBps (pi_perp i)) (pp_maxSlippageBps (gc_policy ctx)) = true) as ->.
  { unfold slippageWithinClamp, pass, refuse. by destruct (num_le _ _). }
  split.
  - intros ((H1 & H2) & H3 & (H4 & H5) & (H6 & H7) & H8). split; [by split|done].
  - intros [[] Ho]. auto 10.
Qed.

(** Rules that ask nothing of an order that reduces. *)
Lemma reducing_exempt i ctx : isOpeningKind (pi_kind i) = false ->
  Forall (fun r : rule => r i ctx = pass)
    [increaseMatchesPosition; leverageWithinCap; notionalWithinCap; portfolioWithinCap; positionCountWithinCap;
     liquidationDistanceOk; oracleAgreesWithMark; fundingSane].
Proof.
  intros H. unfold increaseMatchesPosition, leverageWithinCap, notionalWithinCap, portfolioWithinCap, positionCountWithinCap,
    liquidationDistanceOk, oracleAgreesWithMark, fundingSane. rewrite !Forall_cons, H.
  destruct (pi_kind i); try done; split_and!; done.
Qed.

Lemma reducing_pass i ctx : isOpeningKind (pi_kind i) = false ->
  Forall (fun r : rule => r i ctx = pass) PERP_RULES <-> common_ok i ctx /\ reducing_ok i ctx.
Proof.
  intros Ho. pose proof (reducing_exempt i ctx Ho) as He. unfold PERP_RULES. rewrite !Forall_cons in *.
  pose proof (common_pass i ctx) as Hc. rewrite Ho in Hc.
  rewrite marketTradeable_pass, reduceIsAReduction_pass, Ho. split.
  - intros (H1 & H2 & H3 & H4 & H5 & H6 & H7 & H8 & _ & _ & H9 & _).
    split; [by apply Hc; auto 10|]. split; [naive_solver|auto].
  - intros [H1 [H2 H3]]. destruct (proj2 Hc) as (A & B & C & (D1 & D2 & D3) & F); [by split|]. naive_solver.
Qed.

Lemma opening_pass i ctx : isOpeningKind (pi_kind i) = true -> shape_bad i = false -> policy_finite (gc_policy ctx) ->
  Forall (fun r : rule => r i ctx = pass) PERP_RULES <-> common_ok i ctx /\ opening_ok i ctx.
Proof.
  intros Ho Hs Hf. destruct (shape_facts i Hs) as (Hlev & Hent & _). destruct Hf as [F1 F2 F3 F4 F5 F6].
  unfold PERP_RULES. rewrite !Forall_cons, Forall_nil. pose proof (common_pass i ctx) as Hc. rewrite Ho in Hc.
  rewrite marketTradeable_pass, reduceIsAReduction_pass, Ho, increase_pass, leverage_pass, liquidation_pass, oracle_pass,
    funding_pass by done.
  split.
  - intros (H1 & H2 & H3 & H4 & H5 & H6 & H7 & H8 & H9 & H10 & H11 & H12 & H13 & H14 & H15 & H16 & H17 & _).
    destruct (proj1 Hc) as [Hco Harm]; [by auto 10|]. split; [done|].
    destruct (co_collateral _ _ Hco) as (b & Hb & _).
    destruct (proj1 (notional_pass i ctx b Ho Hb)) as (d & Hd & Hst & Hcap); [done|].
    split; auto; [naive_solver| |by exists b, d].
    rewrite slot_pass in H14 by done. destruct (pi_kind i); auto; done.
  - intros [Hco Hoo]. destruct (proj2 Hc) as (A & B & C & (D1 & D2 & D3) & F); [split; [done|intros _; apply Hoo]|].
    destruct (oo_notional _ _ Hoo) as (b & d & Hb & Hn).
    destruct (proj2 (notional_pass i ctx b Ho Hb)) as [N1 N2]; [by exists d|].
    assert (stale (gc_exposure ctx) = false) as Hst by apply Hn.
    rewrite slot_pass by done. pose proof (oo_slot _ _ Hoo) as Hsl.
    split_and!; try done; try apply Hoo; auto; try (left; apply Hoo);
      first [by intros _; apply Hoo|by intros Hk; rewrite Hk in Hsl].
Qed.

Lemma guards_pass i ctx :
  perpGuards i ctx = inr tt <-> shape_bad i = false /\ Forall (fun r : rule => r i ctx = pass) PERP_RULES.
Proof. unfold perpGuards, assertPerpIntentShape. destruct (shape_bad i); [naive_solver|]. rewrite enforce_ok. tauto. Qed.

(** A well-formed intent is admitted exactly when it is admissible.  Every
    intent needs an armed engine (or a dry run), an account, an allowed market and
    collateral, and a slippage within the clamp.  One that reduces needs only a
    position it faces and does not exceed: the kill switch, wind-down, leverage,
    caps on exposure, liquidation, oracle and funding do not keep an agent from
    getting flat.  One that opens also needs all of those: both the notional the
    venue claims and the one derived from the collateral within the caps, a known
    portfolio, a free slot, and every usable estimate of the liquidation distance,
    of which there must be one, at or above the floor. *)
Theorem perps_admitted i ctx :
  policy_finite (gc_policy ctx) ->
  perpGuards i ctx = inr tt <->
  shape_bad i = false /\ common_ok i ctx /\ if isOpeningKind (pi_kind i) then opening_ok i ctx else reducing_ok i ctx.
Proof.
  intros Hf. rewrite guards_pass. destruct (shape_bad i) eqn:Hs; [naive_solver|].
  destruct (isOpeningKind (pi_kind i)) eqn:Ho; [rewrite opening_pass|rewrite reducing_pass]; tauto.
Qed.

(** *** The portfolio *)

(** The notional of the positions of a bucket. *)
Definition notional_in (b : QuoteBucket) (ps : list PerpPosition) : Z :=
  sum_by (fun q => if bool_decide (quoteBucketFor (mint (pos_notional q)) = Some b) then Z.abs (amount (pos_notional q)) else 0) ps.

Definition bucketed (q : PerpPosition) : Prop :=
  quoteBucketFor (mint (pos_notional q)) <> None /\ quoteBucketFor (mint (pos_collateral q)) <> None.

Lemma in_bucket_add b b' x t : in_bucket b (add_to b' x t) = in_bucket b t + if bool_decide (b' = b) then x else 0.
Proof. case_bool_decide; destruct b, b'; simplify_eq; cbn; lia. Qed.

Lemma exposure_fold b ps : forall n c u,
  let '(n', c', u') := fold_left add_position ps (n, c, u) in
  u <= u' /\ (u' = u -> Forall bucketed ps /\ in_bucket b n' = in_bucket b n + notional_in b ps).
Proof.
  unfold notional_in. induction ps as [|q ps IH]; intros n c u; cbn [fold_left].
  - split; [lia|]. intros _. split; [done|]. rewrite sum_by_nil. lia.
  - unfold add_position at 2. rewrite sum_by_cons.
    destruct (quoteBucketFor (mint (pos_notional q))) as [b1|] eqn:E1,
      (quoteBucketFor (mint (pos_collateral q))) as [b2|] eqn:E2;
      match goal with |- context [fold_left add_position ps (?n1, ?c1, ?u1)] => specialize (IH n1 c1 u1) end;
      destruct (fold_left add_position ps _) as [[n' c'] u']; destruct IH as [H1 H2]; (split; [lia|]); intros Hu; try lia.
    destruct (H2 Hu) as [H3 H4]. split.
    + constructor; [|done]. unfold bucketed. by rewrite E1, E2.
    + rewrite H4, in_bucket_add. destruct (decide (b1 = b)) as [->|].
      * rewrite !bool_decide_eq_true_2 by done. lia.
      * rewrite !bool_decide_eq_false_2 by congruence. lia.
Qed.

Lemma exposure_known b ps : stale (exposureFrom ps) = false ->
  Forall bucketed ps /\ in_bucket b (notionalByBucket (exposureFrom ps)) = notional_in b ps.
Proof.
  unfold exposureFrom. pose proof (exposure_fold b ps ZERO ZERO 0) as H.
  destruct (fold_left add_position ps _) as [[n c] u]. cbn. intros Hu%Z.ltb_ge. destruct H as [H1 H2].
  destruct H2 as [H2 H3]; [lia|]. split; [done|]. rewrite H3. by destruct b.
Qed.

(** An order that opens is admitted only against a portfolio the venue reported
    whole, in assets with a bucket, and with an account; what the bucket holds and
    the larger of the claimed and the derived notional stay within the portfolio
    cap, a new position has a free slot, and the input leg the kernel reserves is
    the collateral, within the cap of a position. *)
Theorem open_within_portfolio policy ks ee answer initialized dry i :
  policy_finite policy -> isOpeningKind (pi_kind i) = true ->
  perpGuards i (guardContext policy ks ee (readSnapshot answer initialized) (pl_market (pi_perp i)) dry) = inr tt ->
  exists ps b derived, answer = Some ps /\ initialized = Some true /\ Forall bucketed ps /\
    asTradeIntent i = inr (trade_of i) /\ quoteBucketFor (mint (input (trade_of i))) = Some b /\
    (0 < amount (input (trade_of i)) -> amount (input (trade_of i)) <= maxCollateralPerPosition (capsFor policy b)) /\
    notionalFromCollateral (amount (input (trade_of i))) (pl_leverage (pi_perp i)) = inr (Some derived) /\
    notional_in b ps + Z.max derived (amount (pl_notional (pi_perp i))) <= maxPortfolioNotional (capsFor policy b) /\
    (pi_kind i = perp_open -> positionIn ps (pl_market (pi_perp i)) = None ->
       num_lt (js_num (Z.of_nat (length ps))) (maxOpenPositions policy) = true).
Proof.
  set (ctx := guardContext _ _ _ _ _ _). intros Hf Ho H. assert (policy_finite (gc_policy ctx)) as Hf' by done.
  apply guards_pass in H as (Hs & (Hc & Hoo)%opening_pass); [|done..].
  destruct (shape_facts i Hs) as (_ & _ & Hm & Ha & _).
  destruct (co_collateral _ _ Hc) as (b & Hb & Hcap). destruct (oo_notional _ _ Hoo) as (b' & d & Hb' & Hd & Hst & _ & Hp).
  assert (b' = b) as -> by congruence. pose proof (co_account _ _ Hc) as Hi. pose proof (oo_slot _ _ Hoo) as Hsl.
  cbn [ctx guardContext readSnapshot gc_exposure sn_exposure gc_accountInitialized sn_accountInitialized gc_position
       sn_positions gc_policy] in *.
  destruct answer as [ps|]; [|done]. destruct initialized as [[]|]; try done.
  destruct (exposure_known b ps Hst) as [Hall Hsum]. exists ps, b, d. cbn [default] in *.
  unfold asTradeIntent, assertPerpIntentShape, trade_of. rewrite Hs. cbn [input]. rewrite <- Hm, <- Ha.
  split_and!; try done; [lia|by rewrite <- Hsum|]. intros Hk Hn. rewrite Hk in Hsl.
  destruct Hsl as [Hx|Hx]; [by destruct (Hx Hn)|]. unfold exposureFrom in Hx.
  by destruct (fold_left add_position ps _) as [[? ?] ?].
Qed.

(** *** Concrete orders *)

Definition demo_policy (lev : number) : PerpsPolicy :=
  match applyPerpsPolicyOverrides defaultPerpsPolicy
    {| po_perpsEnabled := Some true; po_windDownOnly := None; po_maxLeverage := Some lev;
       po_minLiquidationDistanceBps := None; po_maxFundingRateBpsPerHour := None; po_maxAdverseFundingBpsPerHour := None;
       po_maxSlippageBps := None; po_maxOracleDivergenceBps := None; po_liquidationToleranceBps := None;
       po_maxOpenPositions := None; solCollateralPerPosition := None; solNotionalPerPosition := None;
       solPortfolioNotional := None; usdcCollateralPerPosition := None; usdcNotionalPerPosition := Some (js_num 500);
       usdcPortfolioNotional := None; po_marketAllowlist := Some (Some ["sol-perp"]); po_marketDenylist := None;
       po_allowedCollateralMints := None; po_allowAccountCreation := None |}
  with Some p => p | None => defaultPerpsPolicy end.

Definition usdc_amount (n : Z) : TokenAmount := {| mint := USDC_MINT; amount := n * 10 ^ 6; decimals := 6 |}.

(** An order for [collateral] USDC at a leverage, entry at 150, the venue's liquidation
    price at 80. *)
Definition demo_intent (k : PerpIntentKind) (sd : Side) (collateral : Z) (lev : number) : PerpIntent := {|
  pi_kind := k; pi_source := "perps"; pi_input := usdc_amount collateral;
  pi_output := {| out_mint := USDC_MINT; out_decimals := 6 |}; pi_inputProvenance := user; pi_outputProvenance := user;
  pi_unsignedTxBase64 := "tx"; pi_recentBlockhash := "hash"; pi_lastValidBlockHeight := 1000; pi_landMode := self_rpc;
  pi_landHandle := None; pi_priorityFeeLamports := js_num 5000;
  pi_quote := {| inAmount := collateral * 10 ^ 6; outAmount := 0; minOutAmount := 0; priceImpactPct := js_num 0;
                 routeLabel := "drift:SOL-PERP"; slippage_bps := 50; contextSlot := None |};
  pi_summary := "order";
  pi_perp := {|
    pl_venue := "drift"; pl_market := "SOL-PERP"; pl_venueMarketIndex := 0; pl_accountSubId := 0; pl_side := sd;
    pl_orderType := O_market; pl_limitPrice := None; pl_reduceOnly := isReducingKind k; pl_leverage := lev;
    pl_slippageBps := js_num 50; pl_baseDecimals := 9; pl_expectedBaseAmount := 10 ^ 9; pl_minBaseAmount := 9 * 10 ^ 8;
    pl_collateral := usdc_amount collateral; pl_notional := usdc_amount collateral; pl_entryPrice := js_num 150;
    pl_markPrice := js_num 150; pl_oraclePrice := round_double (1499 # 10);
    pl_maintenanceMarginRatio := round_double (3 # 100); pl_marketStatus := M_active;
    pl_venueLiquidationPrice := Some (js_num 80); pl_fundingBpsPerHour := Some (round_double (1 # 10)) |}
|}.

Definition demo_position : PerpPosition := {|
  pos_venue := "drift"; pos_symbol := "SOL-PERP"; pos_side := long; pos_baseAmount := 2 * 10 ^ 9; pos_baseDecimals := 9;
  pos_entryPrice := js_num 150; pos_markPrice := js_num 150; pos_notional := usdc_amount (- 300);
  pos_collateral := usdc_amount 100; pos_unrealizedPnl := 0; pos_liquidationPrice := Some (js_num 80);
  pos_leverage := js_num 3 |}.

Definition demo_ctx (policy : PerpsPolicy) (ks : bool) : PerpGuardContext :=
  guardContext policy ks true (readSnapshot (Some [demo_position]) (Some true)) "SOL-PERP" false.

Lemma demo_policy_finite n : policy_finite (demo_policy (js_num n)).
Proof. by split. Qed.

(** A long of 100 USDC at two times is admitted; under the kill switch it is not, but
    the position may still be reduced. *)
Lemma perps_admitted_witness :
  perpGuards (demo_intent perp_reduce short 0 (js_num 2)) (demo_ctx (demo_policy (js_num 3)) true) = inr tt /\
  perpGuards (demo_intent perp_increase long 100 (js_num 2)) (demo_ctx (demo_policy (js_num 3)) true) =
    inl (PerpGuardError P_KILL_SWITCH) /\
  (shape_bad (demo_intent perp_increase long 100 (js_num 2)) = false /\
   common_ok (demo_intent perp_increase long 100 (js_num 2)) (demo_ctx (demo_policy (js_num 3)) false) /\
   opening_ok (demo_intent perp_increase long 100 (js_num 2)) (demo_ctx (demo_policy (js_num 3)) false)).
Proof.
  split; [by vm_compute|]. split; [by vm_compute|].
  apply (perps_admitted (demo_intent perp_increase long 100 (js_num 2)) (demo_ctx (demo_policy (js_num 3)) false)
    (demo_policy_finite 3)). by vm_compute.
Defined.

Lemma open_within_portfolio_witness :
  exists ps b derived, Some [demo_position] = Some ps /\ Some true = Some true /\ Forall bucketed ps /\
    asTradeIntent (demo_intent perp_increase long 100 (js_num 2)) = inr (trade_of (demo_intent perp_increase long 100 (js_num 2))) /\
    quoteBucketFor (mint (input (trade_of (demo_intent perp_increase long 100 (js_num 2))))) = Some b /\
    (0 < amount (input (trade_of (demo_intent perp_increase long 100 (js_num 2)))) ->
     amount (input (trade_of (demo_intent perp_increase long 100 (js_num 2)))) <=
       maxCollateralPerPosition (capsFor (demo_policy (js_num 3)) b)) /\
    notionalFromCollateral (amount (input (trade_of (demo_intent perp_increase long 100 (js_num 2))))) (js_num 2) =
      inr (Some derived) /\
    notional_in b ps + Z.max derived (100 * 10 ^ 6) <= maxPortfolioNotional (capsFor (demo_policy (js_num 3)) b) /\
    (perp_increase = perp_open -> positionIn ps "SOL-PERP" = None ->
       num_lt (js_num (Z.of_nat (length ps))) (maxOpenPositions (demo_policy (js_num 3))) = true).
Proof.
  apply (open_within_portfolio (demo_policy (js_num 3)) false true (Some [demo_position]) (Some true) false
    (demo_intent perp_increase long 100 (js_num 2)) (demo_policy_finite 3) eq_refl). by vm_compute.
Defined.

(** *** What the guards miss *)

(** At forty times and a maintenance margin of 3% the model puts liquidation above the
    entry of a long: the order is liquidated as it opens.  Its distance is undefined,
    so the venue's estimate counts alone and the order is admitted. *)
Lemma underwater_model_ignored :
  let i := demo_intent perp_increase long 10 (js_num 40) in
  exists l, modelLiquidationPrice long (js_num 150) (js_num 40) (round_double (3 # 100)) = Some l /\
  num_lt (js_num 150) l = true /\ perpGuards i (demo_ctx (demo_policy (js_num 50)) false) = inr tt.
Proof. eexists. split; [by vm_compute|]. by vm_compute. Qed.

(** A bound that is not a number bounds nothing. *)
Lemma nan_bounds_nothing :
  perpGuards (demo_intent perp_increase long 10 (js_num 40)) (demo_ctx (demo_policy NaN) false) = inr tt.
Proof. by vm_compute. Qed.

(** The advisory path throws where the leverage in basis points overflows, which
    enforcement refuses before. *)
Lemma advice_throws :
  let i := demo_intent perp_increase long 10 (round_double (inject_Z (10 ^ 305))) in
  evaluatePerpGuards i (demo_ctx (demo_policy (js_num 3)) false) = inl RangeError /\
  perpGuards i (demo_ctx (demo_policy (js_num 3)) false) = inl (PerpGuardError P_LEVERAGE_EXCEEDED).
Proof. by vm_compute. Qed.

(** The amounts of the default policy are those `toBaseUnits` gives. *)
Lemma default_amounts :
  toBaseUnits_number (js_num 3) SOL_DECIMALS = Some (maxNotionalPerPosition (pp_capsSol defaultPerpsPolicy)) /\
  toBaseUnits_number (js_num 200) USDC_DECIMALS = Some (maxCollateralPerPosition (pp_capsUsdc defaultPerpsPolicy)) /\
  toBaseUnits_number (js_num 2000) USDC_DECIMALS = Some (maxPortfolioNotional (pp_capsUsdc defaultPerpsPolicy)).
Proof. by vm_compute. Qed.
