(* ===== verification/Rebalance.v ===== *)
(** The rebalance decision and its history (`src/pools/rebalance/decide.ts`,
    `ledger.ts`).

    Times, bins and counts are integers; fractions, prices and horizons are doubles
    ([Doubles]).  `**` is a parameter: the language leaves its rounding to the
    implementation. *)
From stdpp Require Import gmap.
From stdpp Require Import gmap sorting.
From S2P Require Import Prelude Doubles Table Bins.
From Stdlib Require Import QArith Qround.
From Stdlib Require Import QArith.
#[local] Open Scope string_scope.
#[local] Open Scope list_scope.
#[local] Open Scope Z_scope.
#[local] Open Scope result_scope.

(** *** `ledger.ts` *)

Record RebalanceHistory : Type := { lastAt : option Z; countInWindow : Z }.

Definition EMPTY_HISTORY : RebalanceHistory := {| lastAt := None; countInWindow := 0 |}.

Definition DAY_MS : Z := 86400000.

Record RebalanceLedger : Type := { windowMs : Z; byPosition : gmap string (list Z) }.

Definition new_ledger (window : Z) : RebalanceLedger := {| windowMs := Z.max 1 window; byPosition := ∅ |}.

(** `#prune`: times before the cutoff leave the head of the list. *)
Fixpoint drop_before (cutoff : Z) (l : list Z) : list Z :=
  match l with
  | [] => []
  | t :: l' => if t <? cutoff then drop_before cutoff l' else l
  end.

Definition prune (window now : Z) (l : list Z) : list Z := drop_before (now - window) l.

Definition record (p : string) (at_ : Z) (g : RebalanceLedger) : RebalanceLedger :=
  {| windowMs := windowMs g;
     byPosition := <[p := prune (windowMs g) at_ (default [] (byPosition g !! p) ++ [at_])]> (byPosition g) |}.

(** `Math.max(...list)` of a list that is not empty. *)
Definition latest (t : Z) (l : list Z) : Z := fold_left Z.max l t.

(** `history` prunes the list it reads, which stays in the map. *)
Definition history (p : string) (now : Z) (g : RebalanceLedger) : RebalanceHistory * RebalanceLedger :=
  match byPosition g !! p with
  | None | Some [] => (EMPTY_HISTORY, g)
  | Some l =>
      let l' := prune (windowMs g) now l in
      (match l' with
       | [] => EMPTY_HISTORY
       | t :: r => {| lastAt := Some (latest t r); countInWindow := Z.of_nat (length l') |}
       end, {| windowMs := windowMs g; byPosition := <[p := l']> (byPosition g) |})
  end.

(** *** `decide.ts` *)

Record RebalancePolicy : Type := {
  driftBins : Z; edgeTriggerPct : number; minIntervalMs : Z; maxPerDay : Z; horizonMs : number;
  requireIlRecovery : bool; minNetBenefitQuote : Z; targetBelowBins : Z; targetAboveBins : Z; rp_shape : LiquidityShape
}.

Definition defaultRebalancePolicy : RebalancePolicy := {|
  driftBins := 2; edgeTriggerPct := round_double (1 # 10); minIntervalMs := 3600000; maxPerDay := 4;
  horizonMs := js_num 86400000; requireIlRecovery := true; minNetBenefitQuote := 0; targetBelowBins := 10;
  targetAboveBins := 10; rp_shape := spot |}.

Record RebalanceEconomics : Type := {
  projectedFeesPerDayQuote : option Z; txCostQuote : option Z; inventorySwapCostQuote : option Z;
  positionNotionalQuote : option Z; entryUiPrice : option number; claimableFeesQuote : Z
}.

Record EconomicsBreakdown : Type := {
  eb_projectedFeesQuote : Z; eb_cashCostQuote : Z; eb_divergenceCostQuote : Z; eb_netBenefitQuote : Z;
  eb_claimableFeesQuote : Z; eb_divergenceLossPct : option number
}.

Inductive RebalanceCode : Type :=
  | REBALANCE_OK | POOL_RANGE_INVALID | POOL_VENUE_ERROR | REBALANCE_NOT_DRIFTED | REBALANCE_TOO_SOON
  | REBALANCE_DAILY_CAP | REBALANCE_UNECONOMIC.

(** [rd_targetRange] is there exactly when the action is `rebalance`. *)
Record RebalanceDecision : Type := {
  rd_code : RebalanceCode; rd_targetRange : option BinRange; rd_currentRange : BinRange; rd_drift : Z;
  rd_rangeFraction : option number; rd_economics : option EconomicsBreakdown
}.

(** The position and the pool, as far as the decision reads them. *)
Record RebalanceSubject : Type := {
  rs_poolAddress : string; rs_lowerLevel : Z; rs_upperLevel : Z;
  pool_address : string; pool_activeLevel : Z; pool_levelStepBps : Z; pool_baseDecimals : Z; pool_quoteDecimals : Z;
  rs_policy : RebalancePolicy; rs_economics : RebalanceEconomics; rs_history : option RebalanceHistory; rs_now : Z
}.

Definition hold (c : RebalanceCode) (r : BinRange) (drift : Z) (fraction : option number)
    (e : option EconomicsBreakdown) : RebalanceDecision :=
  {| rd_code := c; rd_targetRange := None; rd_currentRange := r; rd_drift := drift; rd_rangeFraction := fraction;
     rd_economics := e |}.

Section Decide.
(** `x ** n` *)
Context (pow : number -> Z -> number).

(** `priceOfBin`, `uiPriceOfBin` and `divergenceLossPct` of `meteora/bins.ts`. *)
Definition priceOfBin (binId binStep : Z) : result number :=
  let? _u := assertBinStep binStep in
  let? _v := assertBinId binId in
  inr (pow (num_add (js_num 1) (num_div (js_num binStep) (js_num 10000))) binId).

Definition uiPriceOfBin (binId binStep baseDecimals quoteDecimals : Z) : result number :=
  let? p := priceOfBin binId binStep in
  inr (num_mul p (pow (js_num 10) (baseDecimals - quoteDecimals))).

Definition divergenceLossPct (priceRatio : number) : result number :=
  check negb (isFinite priceRatio) || num_le priceRatio (js_num 0) else "priceRatio must be finite and positive";
  inr (num_mul (num_sub (num_div (num_mul (js_num 2) (num_sqrt priceRatio)) (num_add (js_num 1) priceRatio)) (js_num 1))
               (js_num 100)).

(** `BigInt(x)` of an integral `number`. *)
Definition to_bigint (x : number) : result Z :=
  match x with Finite q => inr (Qfloor q) | _ => inl "RangeError" end.

(** `Math.max(0, x)` *)
Definition num_max0 (x : number) : number :=
  match x with NaN => NaN | _ => if num_lt x (js_num 0) then js_num 0 else x end.

(** The divergence term: [None] where an input is missing or unusable, else its cost
    and the loss in percent. *)
Definition divergence_cost (s : RebalanceSubject) : result (option (Z * option number)) :=
  let e := rs_economics s in
  if negb (requireIlRecovery (rs_policy s)) then inr (Some (0, None))
  else match positionNotionalQuote e, entryUiPrice e with
  | Some notional, Some entry =>
      if (notional <? 0) || negb (isFinite entry) || num_le entry (js_num 0) then inr None
      else
        let? nowPrice := uiPriceOfBin (pool_activeLevel s) (pool_levelStepBps s) (pool_baseDecimals s) (pool_quoteDecimals s) in
        let? il := divergenceLossPct (num_div nowPrice entry) in
        let? lossBps := to_bigint (num_round (num_mul (num_abs il) (js_num 100))) in
        inr (Some (Z.quot (notional * lossBps) 10000, Some il))
  | _, _ => inr None
  end.

Definition fees_over_horizon (perDay : Z) (s : RebalanceSubject) (target : BinRange) : result Z :=
  let targetSpan := binSpan (lowerBinId target) (upperBinId target) in
  let currentSpan := binSpan (rs_lowerLevel s) (rs_upperLevel s) in
  let concentration := if (0 <? currentSpan) && (0 <? targetSpan)
                       then num_div (js_num currentSpan) (js_num targetSpan) else js_num 1 in
  let horizonDays := num_div (horizonMs (rs_policy s)) (js_num 86400000) in
  let? factor := to_bigint (num_max0 (num_round (num_mul (num_mul horizonDays concentration) (js_num 1000000)))) in
  inr (Z.quot (perDay * factor) 1000000).

Definition computeEconomics (s : RebalanceSubject) (target : BinRange) : result (option EconomicsBreakdown) :=
  let e := rs_economics s in
  match projectedFeesPerDayQuote e, txCostQuote e, inventorySwapCostQuote e with
  | Some perDay, Some tx, Some swap =>
      if (perDay <? 0) || (tx <? 0) || (swap <? 0) then inr None
      else if negb (isFinite (horizonMs (rs_policy s))) || num_le (horizonMs (rs_policy s)) (js_num 0) then inr None
      else
        let? fees := fees_over_horizon perDay s target in
        let? d := divergence_cost s in
        match d with
        | None => inr None
        | Some (cost, pct) =>
            inr (Some {| eb_projectedFeesQuote := fees; eb_cashCostQuote := tx + swap; eb_divergenceCostQuote := cost;
                         eb_netBenefitQuote := fees - (tx + swap) - cost; eb_claimableFeesQuote := claimableFeesQuote e;
                         eb_divergenceLossPct := pct |})
        end
  | _, _, _ => inr None
  end.

(** The active bin has left the range by more than the drift, or is near an edge. *)
Definition moved (s : RebalanceSubject) (r : BinRange) : bool :=
  let pct := edgeTriggerPct (rs_policy s) in
  (driftBins (rs_policy s) <? Z.abs (binDrift r (pool_activeLevel s))) ||
  match activePositionInRange r (pool_activeLevel s) with
  | Some f => num_gt pct (js_num 0) && (1 <? binSpan (lowerBinId r) (upperBinId r)) &&
              (num_le f pct || num_le (num_sub (js_num 1) pct) f)
  | None => false
  end.

Definition decideRebalance (s : RebalanceSubject) : result RebalanceDecision :=
  let h := default EMPTY_HISTORY (rs_history s) in
  let r := {| lowerBinId := rs_lowerLevel s; upperBinId := rs_upperLevel s |} in
  let drift := binDrift r (pool_activeLevel s) in
  let fraction := activePositionInRange r (pool_activeLevel s) in
  let stay c e := inr (hold c r drift fraction e) in
  if upperBinId r <? lowerBinId r then inr (hold POOL_RANGE_INVALID r 0 None None)
  else if negb (streq (rs_poolAddress s) (pool_address s)) then inr (hold POOL_VENUE_ERROR r 0 None None)
  else if negb (moved s r) then stay REBALANCE_NOT_DRIFTED None
  else if match lastAt h with Some t => rs_now s - t <? minIntervalMs (rs_policy s) | None => false end
  then stay REBALANCE_TOO_SOON None
  else if maxPerDay (rs_policy s) <=? countInWindow h then stay REBALANCE_DAILY_CAP None
  else
    let? target := rangeAroundActive (pool_activeLevel s) (targetBelowBins (rs_policy s)) (targetAboveBins (rs_policy s))
                     MAX_BIN_PER_POSITION in
    if (lowerBinId target =? lowerBinId r) && (upperBinId target =? upperBinId r) then stay REBALANCE_NOT_DRIFTED None
    else
      let? econ := computeEconomics s target in
      match econ with
      | None => stay REBALANCE_UNECONOMIC None
      | Some e =>
          if (eb_netBenefitQuote e <=? 0) || (eb_netBenefitQuote e <? minNetBenefitQuote (rs_policy s))
          then stay REBALANCE_UNECONOMIC (Some e)
          else inr {| rd_code := REBALANCE_OK; rd_targetRange := Some target; rd_currentRange := r; rd_drift := drift;
                      rd_rangeFraction := fraction; rd_economics := Some e |}
      end.
End Decide.

(** ** What limits rebalancing

    The history the ledger keeps is enough for both brakes: over any sequence of
    decisions at most the daily number of rebalances falls into any window, and two
    are the minimum interval apart (or more than a window).  A rebalance that is
    decided pays for itself and covers the active bin. *)

(** *** One attempt *)

(** An attempt: its subject, when it was recorded, and whether it was executed. *)
Record Attempt : Type := { at_subject : RebalanceSubject; at_done : Z; at_executed : bool }.

Definition with_history (h : RebalanceHistory) (s : RebalanceSubject) : RebalanceSubject :=
  {| rs_poolAddress := rs_poolAddress s; rs_lowerLevel := rs_lowerLevel s; rs_upperLevel := rs_upperLevel s;
     pool_address := pool_address s; pool_activeLevel := pool_activeLevel s; pool_levelStepBps := pool_levelStepBps s;
     pool_baseDecimals := pool_baseDecimals s; pool_quoteDecimals := pool_quoteDecimals s; rs_policy := rs_policy s;
     rs_economics := rs_economics s; rs_history := Some h; rs_now := rs_now s |}.

Section Churn.
Context (pow : number -> Z -> number) (p : string).

(** `decide` of the `pools_rebalance` tool with the ledger, and the record its `execute`
    makes. *)
Definition attempt (a : Attempt) (g : RebalanceLedger) : option Z * RebalanceLedger :=
  let s := at_subject a in
  let '(h, g') := history p (rs_now s) g in
  match decideRebalance pow (with_history h s) with
  | inr d => match rd_targetRange d with
             | Some _ => if at_executed a then (Some (at_done a), record p (at_done a) g') else (None, g')
             | None => (None, g')
             end
  | inl _ => (None, g')
  end.

(** The times of the rebalances executed. *)
Fixpoint rebalances (l : list Attempt) (g : RebalanceLedger) : list Z :=
  match l with
  | [] => []
  | a :: l' => let '(o, g') := attempt a g in
               match o with Some t => t :: rebalances l' g' | None => rebalances l' g' end
  end.

(** Attempts one after the other, from the time [t] on. *)
Fixpoint timeline (t : Z) (l : list Attempt) : Prop :=
  match l with
  | [] => True
  | a :: l' => t <= rs_now (at_subject a) <= at_done a /\ timeline (at_done a) l'
  end.

(** *** Sorted histories *)

Definition since (c : Z) (l : list Z) : list Z := List.filter (fun t => c <=? t) l.

Lemma drop_before_since c l : StronglySorted Z.le l -> drop_before c l = since c l.
Proof.
  induction 1 as [|t l Hl IH Ht]; [done|]. unfold since in *. cbn. destruct (t <? c) eqn:E; bool_hyps.
  - rewrite IH. by rewrite (proj2 (Z.leb_gt c t)).
  - rewrite (proj2 (Z.leb_le c t)) by lia. f_equal. symmetry. apply forallb_filter_id. apply forallb_forall.
    intros x Hx%list_elem_of_In. apply Z.leb_le. pose proof (proj1 (Forall_forall _ _) Ht x Hx). lia.
Qed.

Lemma since_since b c l : b <= c -> since c (since b l) = since c l.
Proof. intros H. unfold since. symmetry. apply filter_filter_same. intros x Hx%Z.leb_le. apply Z.leb_le. lia. Qed.

Lemma sorted_filter f l : StronglySorted Z.le l -> StronglySorted Z.le (List.filter f l).
Proof.
  induction 1 as [|t l Hl IH Ht]; [constructor|]. cbn. destruct (f t); [|done]. constructor; [done|].
  apply Forall_forall. intros x [Hx _]%list_elem_of_In%filter_In. rewrite <- list_elem_of_In in Hx.
  by apply (proj1 (Forall_forall _ _) Ht).
Qed.

Lemma latest_bound t l : t <= latest t l /\ forall x, x ∈ l -> x <= latest t l.
Proof.
  unfold latest. revert t. induction l as [|y l IH]; intros t; cbn.
  - split; [lia|]. intros x H. by apply elem_of_nil in H.
  - destruct (IH (Z.max t y)) as [H1 H2]. split; [lia|]. intros x [->|Hx]%elem_of_cons; [lia|auto].
Qed.

(** *** The ledger and the past *)

(** What a ledger knows of the past [log] at the time [t]: it may have forgotten what
    left the window. *)
Record remembers (w t : Z) (log : list Z) (g : RebalanceLedger) : Prop := {
  re_window : windowMs g = w;
  re_sorted : StronglySorted Z.le log;
  re_past : forall x, x ∈ log -> x <= t;
  re_list : exists c, c <= t - w /\ default [] (byPosition g !! p) = since c log
}.

Lemma history_remembers w t now log g : 0 <= w -> remembers w t log g -> t <= now ->
  let '(h, g') := history p now g in
  remembers w now log g' /\ countInWindow h = Z.of_nat (length (since (now - w) log)) /\
  (forall x, x ∈ since (now - w) log -> exists l, lastAt h = Some l /\ x <= l).
Proof.
  intros Hw [W S P (c & Hc & E)] Hn. unfold history.
  assert (forall c', c <= c' -> since c' (default [] (byPosition g !! p)) = since c' log) as Hs.
  { intros c' Hc'. rewrite E. by apply since_since. }
  specialize (Hs (now - w)). destruct (byPosition g !! p) as [[|y l]|] eqn:Eg; cbn [default id] in *.
  - rewrite <- Hs by lia. cbn. split_and!; [|done|intros x H; by apply elem_of_nil in H].
    split; [done|done|intros x Hx; apply P in Hx; lia|]. exists (now - w). split; [lia|]. rewrite Eg. cbn. by rewrite <- Hs by lia.
  - unfold prune. rewrite W, drop_before_since, Hs by (try lia; rewrite E; by apply sorted_filter). split_and!.
    + split; [done|done|intros x Hx; apply P in Hx; lia|]. exists (now - w). split; [lia|]. cbn. by rewrite lookup_insert_eq.
    + by destruct (since (now - w) log).
    + intros x Hx. destruct (since (now - w) log) as [|z r]; [by apply elem_of_nil in Hx|].
      exists (latest z r). split; [done|]. destruct (latest_bound z r) as [H1 H2].
      apply elem_of_cons in Hx as [->|Hx]; auto.
  - rewrite <- Hs by lia. cbn. split_and!; [|done|intros x H; by apply elem_of_nil in H].
    split; [done|done|intros x Hx; apply P in Hx; lia|]. exists (now - w). split; [lia|]. rewrite Eg. cbn. by rewrite <- Hs by lia.
Qed.

Lemma record_remembers w t now log g : 0 <= w -> remembers w t log g -> t <= now ->
  remembers w now (log ++ [now]) (record p now g).
Proof.
  intros Hw [W S P (c & Hc & E)] Hn.
  assert (StronglySorted Z.le (log ++ [now])) as S'.
  { apply sorted_snoc; [done|]. intros y Hy. apply P in Hy. lia. }
  split; [done|done| |].
  - intros x [Hx|Hx]%elem_of_app; [apply P in Hx; lia|]. apply list_elem_of_singleton in Hx. lia.
  - exists (now - w). split; [lia|]. unfold record. cbn [byPosition]. rewrite lookup_insert_eq. cbn [default id].
    unfold prune. rewrite W, drop_before_since.
    + rewrite E. unfold since. rewrite !List.filter_app. f_equal. apply since_since. lia.
    + apply sorted_snoc; [rewrite E; by apply sorted_filter|]. rewrite E. intros y [Hy _]%list_elem_of_In%filter_In.
      rewrite <- list_elem_of_In in Hy. apply P in Hy. lia.
Qed.

(** *** The brakes *)

Lemma decide_brakes s d : decideRebalance pow s = inr d -> rd_targetRange d <> None ->
  countInWindow (default EMPTY_HISTORY (rs_history s)) < maxPerDay (rs_policy s) /\
  (forall t, lastAt (default EMPTY_HISTORY (rs_history s)) = Some t -> minIntervalMs (rs_policy s) <= rs_now s - t).
Proof.
  unfold decideRebalance, hold. intros H Hd.
  repeat match type of H with (if ?b then _ else _) = _ => destruct b eqn:?; [by simplify_eq|] end.
  bool_hyps. split; [done|]. intros t Ht. rewrite Ht in *. by bool_hyps.
Qed.

(** Two rebalances are far enough apart. *)
Definition apart (w interval a b : Z) : Prop := interval <= b - a \/ w < b - a.

Definition in_window (w x : Z) (l : list Z) : list Z := List.filter (fun t => (x - w <=? t) && (t <=? x)) l.

Record limited (w interval perDay : Z) (log : list Z) : Prop := {
  li_day : forall x, Z.of_nat (length (in_window w x log)) <= Z.max 0 perDay;
  li_apart : StronglySorted (apart w interval) log
}.

Lemma limited_snoc w interval perDay log now t :
  0 <= w -> limited w interval perDay log -> (forall x, x ∈ log -> x <= now) -> now <= t ->
  Z.of_nat (length (since (now - w) log)) < perDay ->
  (forall x, x ∈ since (now - w) log -> interval <= now - x) -> limited w interval perDay (log ++ [t]).
Proof.
  intros Hw [Hd Ha] Hp Ht Hn Hi. split.
  - intros x. unfold in_window. rewrite List.filter_app, length_app. cbn. destruct ((x - w <=? t) && (t <=? x)) eqn:E.
    + bool_hyps. cbn. assert (length (in_window w x log) <= length (since (now - w) log))%nat as Hle.
      { unfold in_window, since. rewrite (filter_filter_same _ (fun y => now - w <=? y)); [apply filter_length_le|].
        intros y Hy. bool_hyps. apply Z.leb_le. lia. }
      unfold in_window in Hle. lia.
    + cbn. specialize (Hd x). unfold in_window in Hd. lia.
  - apply sorted_snoc; [done|]. intros y Hy. unfold apart. destruct (decide (now - w <= y)) as [Hyw|]; [|lia].
    left. specialize (Hi y). assert (interval <= now - y); [|lia]. apply Hi. unfold since.
    apply list_elem_of_In, filter_In. rewrite <- list_elem_of_In. split; [done|]. by apply Z.leb_le.
Qed.

Lemma attempt_limited w t log g a : 0 <= w -> remembers w t log g -> t <= rs_now (at_subject a) <= at_done a ->
  let policy := rs_policy (at_subject a) in
  limited w (minIntervalMs policy) (maxPerDay policy) log ->
  let '(o, g') := attempt a g in
  let log' := match o with Some x => log ++ [x] | None => log end in
  remembers w (at_done a) log' g' /\ limited w (minIntervalMs policy) (maxPerDay policy) log'.
Proof.
  intros Hw Hr Ht policy Hl. unfold attempt. pose proof (history_remembers w t (rs_now (at_subject a)) log g Hw Hr ltac:(lia)) as H.
  destruct (history p _ g) as [h g']. destruct H as (Hr' & Hcount & Hlast).
  assert (remembers w (at_done a) log g') as Hr2.
  { destruct Hr' as [W S P (c & Hc & E)]. split; [done|done|intros x Hx; apply P in Hx; lia|]. exists c. split; [lia|done]. }
  destruct (decideRebalance pow _) as [e|d] eqn:Ed; [done|]. destruct (rd_targetRange d) eqn:Er; [|done].
  destruct (at_executed a); [|done]. destruct (decide_brakes _ _ Ed) as [B1 B2]; [by rewrite Er|]. cbn in B1, B2.
  split; [by eapply record_remembers; [|exact Hr'|lia]|].
  eapply limited_snoc; [done|done|intros x Hx; by apply (re_past _ _ _ _ Hr')|lia| |].
  - by rewrite <- Hcount.
  - intros x Hx. destruct (Hlast x Hx) as (l & E & Hle). specialize (B2 l E). fold policy in B2. lia.
Qed.

Lemma rebalances_limited w policy l : 0 <= w -> forall t log g,
  remembers w t log g -> limited w (minIntervalMs policy) (maxPerDay policy) log -> timeline t l ->
  (forall a, a ∈ l -> rs_policy (at_subject a) = policy) ->
  limited w (minIntervalMs policy) (maxPerDay policy) (log ++ rebalances l g) /\
  StronglySorted Z.le (log ++ rebalances l g).
Proof.
  intros Hw. induction l as [|a l IH]; intros t log g Hr Hl Ht Hp; cbn [rebalances].
  - rewrite app_nil_r. split; [done|apply Hr].
  - destruct Ht as [Ht Hrest]. pose proof (attempt_limited w t log g a Hw Hr Ht) as H.
    rewrite (Hp a) in H by left. specialize (H Hl). destruct (attempt a g) as [o g']. destruct H as [Hr' Hl'].
    assert (forall b, b ∈ l -> rs_policy (at_subject b) = policy) as Hp' by (intros b Hb; apply Hp; by right).
    destruct (IH _ _ _ Hr' Hl' Hrest Hp') as [H1 H2]. destruct o as [x|]; [|done].
    by rewrite <- app_assoc in H1, H2.
Qed.
End Churn.

Lemma sorted_and {A} (R S : A -> A -> Prop) l :
  StronglySorted R l -> StronglySorted S l -> StronglySorted (fun a b => R a b /\ S a b) l.
Proof.
  induction 1 as [|x l Hl IH Hx]; intros HS; [constructor|]. apply StronglySorted_inv in HS as [HS Hs].
  constructor; [auto|]. apply Forall_and. done.
Qed.

(** The churn limits hold whatever is decided: over any sequence of attempts to
    rebalance a position, one after the other, from an empty ledger, no window (24
    hours, unless another is set) holds more than the daily number of executed
    rebalances, and any two are the minimum interval apart, or more than a window
    where the interval is longer. *)
Theorem churn_limited pow p window policy t0 l :
  timeline t0 l -> (forall a, a ∈ l -> rs_policy (at_subject a) = policy) ->
  let log := rebalances pow p l (new_ledger window) in
  (forall x, Z.of_nat (length (in_window (Z.max 1 window) x log)) <= Z.max 0 (maxPerDay policy)) /\
  StronglySorted (fun a b => a <= b /\ (minIntervalMs policy <= b - a \/ Z.max 1 window < b - a)) log.
Proof.
  intros Ht Hp log. assert (0 <= Z.max 1 window) as Hw by lia.
  destruct (rebalances_limited pow p (Z.max 1 window) policy l Hw t0 [] (new_ledger window)) as [[H1 H2] H3]; try done.
  - split; [done|constructor|intros x Hx; by apply elem_of_nil in Hx|]. exists (t0 - Z.max 1 window). split; [lia|].
    cbn. by rewrite lookup_empty.
  - split; [intros x; cbn; lia|constructor].
  - cbn [app] in *. split; [done|]. by apply sorted_and.
Qed.

Lemma computeEconomics_inv pow s r' e : computeEconomics pow s r' = inr (Some e) ->
  exists fees perDay tx swap, fees_over_horizon perDay s r' = inr fees /\
    projectedFeesPerDayQuote (rs_economics s) = Some perDay /\ txCostQuote (rs_economics s) = Some tx /\
    inventorySwapCostQuote (rs_economics s) = Some swap /\
    eb_netBenefitQuote e = fees - (tx + swap) - eb_divergenceCostQuote e /\
    exists pct, divergence_cost pow s = inr (Some (eb_divergenceCostQuote e, pct)).
Proof.
  unfold computeEconomics. destruct (projectedFeesPerDayQuote _) as [perDay|], (txCostQuote _) as [tx|],
    (inventorySwapCostQuote _) as [swap|]; try done. intros H.
  destruct (_ || _ || _); [done|]. destruct (_ || _); [done|].
  apply rbind_inr in H as (fees & Hf & H). apply rbind_inr in H as ([[cost pct]|] & Hdiv & H); [|done]. simplify_eq.
  exists fees, perDay, tx, swap. split_and!; try done. by exists pct.
Qed.

(** A rebalance is decided only when the position is known and its pool is the
    one given, the active bin has moved, and it pays: the fees of the horizon exceed
    the cash cost and the divergence by the floor, with fees that could be claimed
    without moving left out; the range it moves to is another one, contains the
    active bin and fits a position. *)
Theorem rebalance_sound pow s d r' :
  decideRebalance pow s = inr d -> rd_targetRange d = Some r' ->
  rs_lowerLevel s <= rs_upperLevel s /\ rs_poolAddress s = pool_address s /\
  moved s (rd_currentRange d) = true /\
  isActiveInRange r' (pool_activeLevel s) = true /\
  1 <= binSpan (lowerBinId r') (upperBinId r') <= MAX_BIN_PER_POSITION /\ r' <> rd_currentRange d /\
  exists e fees perDay tx swap, rd_economics d = Some e /\ fees_over_horizon perDay s r' = inr fees /\
    projectedFeesPerDayQuote (rs_economics s) = Some perDay /\ txCostQuote (rs_economics s) = Some tx /\
    inventorySwapCostQuote (rs_economics s) = Some swap /\
    0 < fees - (tx + swap) - eb_divergenceCostQuote e /\
    minNetBenefitQuote (rs_policy s) <= fees - (tx + swap) - eb_divergenceCostQuote e /\
    exists pct, divergence_cost pow s = inr (Some (eb_divergenceCostQuote e, pct)).
Proof.
  unfold decideRebalance, hold. intros H Hd.
  repeat match type of H with (if ?b then _ else _) = _ => destruct b eqn:?; [by simplify_eq|] end.
  apply rbind_inr in H as (target & Ht & H). destruct (_ && _) eqn:Hne; [by simplify_eq|].
  apply rbind_inr in H as ([e|] & He & H); [|by simplify_eq].
  destruct (_ || _) eqn:Hnet in H; [by simplify_eq|]. simplify_eq. cbn in *. simplify_eq. bool_hyps.
  destruct (rangeAroundActive_spec _ _ _ _ _ Ht) as (H1 & _ & H2 & _).
  destruct (computeEconomics_inv _ _ _ _ He) as (fees & perDay & tx & swap & Hf & Hp & Htx & Hs & Hn & pct & Hdiv).
  destruct H2 as [H2 H3]. split_and!; try done.
  - intros ->. cbn in Hne. by rewrite !Z.eqb_refl in Hne.
  - exists e, fees, perDay, tx, swap. split_and!; try done; [lia|lia|by exists pct].
Qed.

(** The range moved to is the one around the active bin. *)
Lemma decided_target pow s d r' : decideRebalance pow s = inr d -> rd_targetRange d = Some r' ->
  rangeAroundActive (pool_activeLevel s) (targetBelowBins (rs_policy s)) (targetAboveBins (rs_policy s)) MAX_BIN_PER_POSITION = inr r'.
Proof.
  unfold decideRebalance, hold. intros H Hd.
  repeat match type of H with (if ?b then _ else _) = _ => destruct b; [by simplify_eq|] end.
  apply rbind_inr in H as (target & Ht & H). destruct (_ && _) in H; [by simplify_eq|].
  apply rbind_inr in H as ([e|] & _ & H); [|by simplify_eq]. destruct (_ || _) in H; simplify_eq; cbn in *; by simplify_eq.
Qed.

(** *** Concrete runs *)

(** An exact power, rounded once. *)
Definition demo_pow (x : number) (n : Z) : number := match x with Finite q => round_double (Qpower q n) | _ => x end.

Definition demo_rebalance_policy (interval : Z) : RebalancePolicy := {|
  driftBins := 2; edgeTriggerPct := round_double (1 # 10); minIntervalMs := interval; maxPerDay := 2;
  horizonMs := js_num 86400000; requireIlRecovery := true; minNetBenefitQuote := 1; targetBelowBins := 10;
  targetAboveBins := 10; rp_shape := spot |}.

(** A position on the bins -10 to 10, and the pool at 13. *)
Definition demo_subject (interval now : Z) : RebalanceSubject := {|
  rs_poolAddress := "pool"; rs_lowerLevel := -10; rs_upperLevel := 10; pool_address := "pool"; pool_activeLevel := 13;
  pool_levelStepBps := 20; pool_baseDecimals := 9; pool_quoteDecimals := 9; rs_policy := demo_rebalance_policy interval;
  rs_economics := {| projectedFeesPerDayQuote := Some 10000; txCostQuote := Some 400; inventorySwapCostQuote := Some 50;
                     positionNotionalQuote := Some 1000000; entryUiPrice := Some (js_num 1); claimableFeesQuote := 77 |};
  rs_history := None; rs_now := now |}.

Definition demo_attempts (interval : Z) (times : list Z) : list Attempt :=
  map (fun t => {| at_subject := demo_subject interval t; at_done := t + 10; at_executed := true |}) times.

(** Five attempts in a day: the second comes too soon, the fourth exceeds the two of
    the day, and the last one finds the window open again. *)
Definition demo_log : list Z :=
  rebalances demo_pow "position" (demo_attempts 3600000 [0; 1000; 3600010; 40000000; 86400011]) (new_ledger DAY_MS).

Lemma churn_limited_witness :
  demo_log = [10; 3600020; 86400021] /\
  StronglySorted (fun a b => a <= b /\ (3600000 <= b - a \/ Z.max 1 DAY_MS < b - a)) demo_log.
Proof.
  split; [by vm_compute|].
  apply (churn_limited demo_pow "position" DAY_MS (demo_rebalance_policy 3600000) 0
    (demo_attempts 3600000 [0; 1000; 3600010; 40000000; 86400011])).
  - by vm_compute.
  - intros a Ha. repeat (apply elem_of_cons in Ha as [->|Ha]; [done|]). by apply elem_of_nil in Ha.
Defined.

Lemma rebalance_sound_witness :
  exists d r', decideRebalance demo_pow (demo_subject 3600000 0) = inr d /\ rd_targetRange d = Some r' /\
    lowerBinId r' = 3 /\ upperBinId r' = 23 /\ isActiveInRange r' 13 = true.
Proof.
  assert (exists d r', decideRebalance demo_pow (demo_subject 3600000 0) = inr d /\ rd_targetRange d = Some r' /\
    lowerBinId r' = 3 /\ upperBinId r' = 23) as (d & r' & E & Er & Hl & Hu).
  { eexists _, _. split; [vm_compute; reflexivity|]. split; [reflexivity|]. split; reflexivity. }
  pose proof (rebalance_sound demo_pow (demo_subject 3600000 0) d r' E Er) as (_ & _ & _ & H & _).
  exists d, r'. repeat split; assumption.
Defined.

(** A minimum interval beyond the window is not kept: the ledger has forgotten the
    last rebalance by then. *)
Lemma long_interval_forgotten :
  rebalances demo_pow "position" (demo_attempts (2 * DAY_MS) [0; 90000000]) (new_ledger DAY_MS) = [10; 90000010].
Proof. by vm_compute. Qed.
