(* ===== verification/PoolGuards.v ===== *)
(** Liquidity and bonding-curve guards, and the intents they admit
    (`src/pools/guards.ts`, `intent.ts`).

    A guard names the code of its refusal, [None] when it passes; one may throw, where
    `BigInt` meets a number that is not finite.  Texts and details are not modelled. *)
From S2P Require Import Prelude Doubles Money Contracts Bins.
From Stdlib Require Import QArith Qround.
#[local] Open Scope string_scope.
#[local] Open Scope list_scope.
#[local] Open Scope Z_scope.
#[local] Open Scope result_scope.

Inductive PoolGuardCode : Type :=
  | G_SPEND_CAP | G_POSITION_CAP | G_MAX_POSITIONS | G_BASE_LEG_CAP | G_MINT_AUTHORITY | G_FREEZE_AUTHORITY
  | G_TOKEN2022 | G_RUG_HEAT | G_LIQUIDITY_FLOOR | G_SLIPPAGE | G_RANGE_INVALID | G_MIGRATED | G_EXTRA_SIGNER
  | G_VENUE_ERROR | G_UNSUPPORTED_CURVE.

Record QuoteLimits : Type := { maxSpendPerAction : Z; maxLpPositionQuote : Z; minPoolLiquidityQuote : Z }.

Record PoolGuardConfig : Type := {
  pg_sol : QuoteLimits; pg_usdc : QuoteLimits; maxConcurrentPositions : number; maxBaseLegPctOfHoldings : number;
  maxRugHeat : number; maxCurveSlippageBps : number; minCurveRealSolLamports : Z; authorityAllowlist : list string;
  pg_allowToken2022 : bool; maxLevelSpan : number
}.

Definition MAX_LEVELS_PER_POSITION : Z := 70.

Definition defaultPoolGuardConfig : PoolGuardConfig := {|
  pg_sol := {| maxSpendPerAction := 5 * 10 ^ 8; maxLpPositionQuote := 2 * 10 ^ 9; minPoolLiquidityQuote := 50 * 10 ^ 9 |};
  pg_usdc := {| maxSpendPerAction := 100 * 10 ^ 6; maxLpPositionQuote := 400 * 10 ^ 6;
                minPoolLiquidityQuote := 10000 * 10 ^ 6 |};
  maxConcurrentPositions := js_num 5; maxBaseLegPctOfHoldings := js_num 25; maxRugHeat := js_num 60;
  maxCurveSlippageBps := js_num 300; minCurveRealSolLamports := 2 * 10 ^ 9; authorityAllowlist := [];
  pg_allowToken2022 := false; maxLevelSpan := js_num MAX_LEVELS_PER_POSITION |}.

Definition limitsFor (cfg : PoolGuardConfig) (m : string) : option QuoteLimits :=
  match quoteBucketFor m with Some sol => Some (pg_sol cfg) | Some usdc => Some (pg_usdc cfg) | None => None end.

Definition check_code : Type := option PoolGuardCode.

Definition guardSpend (cfg : PoolGuardConfig) (input : TokenAmount) : check_code :=
  if amount input <=? 0 then Some G_SPEND_CAP
  else match limitsFor cfg (mint input) with
       | None => None
       | Some l => if maxSpendPerAction l <? amount input then Some G_SPEND_CAP else None
       end.

(** A text that is there and not empty. *)
Definition live (o : option string) : bool := match o with Some s => negb (streq s "") | None => false end.

Definition guardMint (cfg : PoolGuardConfig) (o : option MintInfo) : check_code :=
  match o with
  | None => Some G_MINT_AUTHORITY
  | Some info =>
      if negb (pg_allowToken2022 cfg) && isToken2022 info then Some G_TOKEN2022
      else if includes (authorityAllowlist cfg) (info_mint info) then None
      else if live (mintAuthority info) then Some G_MINT_AUTHORITY
      else if live (freezeAuthority info) then Some G_FREEZE_AUTHORITY
      else None
  end.

(** The first refusal of a list. *)
Fixpoint first (l : list check_code) : check_code :=
  match l with [] => None | Some c :: _ => Some c | None :: l' => first l' end.

Definition guardTokenAuthorities (cfg : PoolGuardConfig) (mints : list (option MintInfo)) : check_code :=
  match mints with [] => Some G_MINT_AUTHORITY | _ => first (map (guardMint cfg) mints) end.

(** The score of a reading, if there is one. *)
Definition guardRugHeat (cfg : PoolGuardConfig) (heat : option number) : check_code :=
  match heat with
  | None => Some G_RUG_HEAT
  | Some score => if negb (isFinite score) then Some G_RUG_HEAT
                  else if num_le (maxRugHeat cfg) score then Some G_RUG_HEAT else None
  end.

(** A pool, as far as the guards read it. *)
Record PoolSummary : Type := { ps_quoteMint : string; ps_activeLevel : number; ps_liquidityQuote : option Z }.

Definition guardPoolLiquidity (cfg : PoolGuardConfig) (pool : PoolSummary) : check_code :=
  match limitsFor cfg (ps_quoteMint pool) with
  | None => Some G_LIQUIDITY_FLOOR
  | Some l => match ps_liquidityQuote pool with
              | None => Some G_LIQUIDITY_FLOOR
              | Some tvl => if tvl <? minPoolLiquidityQuote l then Some G_LIQUIDITY_FLOOR else None
              end
  end.

(** [openPositions] is the number of positions open. *)
Record LpSizingSubject : Type := {
  ls_pool : PoolSummary; addQuote : Z; existingPositionQuote : Z; openPositions : Z; isNewPosition : bool
}.

Definition guardLpSizing (cfg : PoolGuardConfig) (s : LpSizingSubject) : check_code :=
  match limitsFor cfg (ps_quoteMint (ls_pool s)) with
  | None => Some G_POSITION_CAP
  | Some l =>
      if (addQuote s <? 0) || (existingPositionQuote s <? 0) then Some G_POSITION_CAP
      else if maxLpPositionQuote l <? existingPositionQuote s + addQuote s then Some G_POSITION_CAP
      else if isNewPosition s && num_le (maxConcurrentPositions cfg) (js_num (openPositions s)) then Some G_MAX_POSITIONS
      else None
  end.

Definition guardBaseLeg (cfg : PoolGuardConfig) (baseAmount : Z) (baseHoldings : option Z) : result check_code :=
  if baseAmount <=? 0 then inr None
  else if num_le (maxBaseLegPctOfHoldings cfg) (js_num 0) then inr (Some G_BASE_LEG_CAP)
  else match baseHoldings with
  | None => inr (Some G_BASE_LEG_CAP)
  | Some h =>
      if h <=? 0 then inr (Some G_BASE_LEG_CAP)
      else match num_floor (maxBaseLegPctOfHoldings cfg) with
           | Finite pct => if Z.quot (h * Qfloor pct) 100 <? baseAmount then inr (Some G_BASE_LEG_CAP) else inr None
           | _ => inl "RangeError"
           end
  end.

(** `Math.min(x, y)` *)
Definition num_min (x y : number) : number :=
  match x, y with NaN, _ | _, NaN => NaN | _, _ => if num_le x y then x else y end.

Definition guardLevelRange (cfg : PoolGuardConfig) (lowerLevel upperLevel activeLevel : number) : check_code :=
  if negb (num_isInteger lowerLevel) || negb (num_isInteger upperLevel) || negb (num_isInteger activeLevel)
  then Some G_RANGE_INVALID
  else if num_lt upperLevel lowerLevel then Some G_RANGE_INVALID
  else if num_gt (num_add (num_sub upperLevel lowerLevel) (js_num 1))
                 (num_min (maxLevelSpan cfg) (js_num MAX_LEVELS_PER_POSITION))
  then Some G_RANGE_INVALID
  else None.

Definition guardCurveSlippage (cfg : PoolGuardConfig) (bps : number) : check_code :=
  if negb (isFinite bps) || num_lt bps (js_num 0) then Some G_SLIPPAGE
  else if num_gt bps (maxCurveSlippageBps cfg) then Some G_SLIPPAGE else None.

Record CurveReading : Type := { realSolReserves : option Z; complete : bool }.

Definition guardCurveLiquidity (cfg : PoolGuardConfig) (curve : CurveReading) : check_code :=
  if complete curve then Some G_MIGRATED
  else match realSolReserves curve with
       | None => Some G_LIQUIDITY_FLOOR
       | Some r => if r <? minCurveRealSolLamports cfg then Some G_LIQUIDITY_FLOOR else None
       end.

(** *** Composites *)

Record LpOpenSubject : Type := {
  lo_sizing : LpSizingSubject; lo_input : TokenAmount; lo_baseAmount : Z; lo_baseHoldings : option Z;
  lo_mints : list (option MintInfo); lo_rugHeat : option number; lo_lowerLevel : number; lo_upperLevel : number
}.

(** All checks are made, then the first refusal is returned. *)
Definition guardLpOpen (cfg : PoolGuardConfig) (s : LpOpenSubject) : result check_code :=
  let? base := guardBaseLeg cfg (lo_baseAmount s) (lo_baseHoldings s) in
  inr (first [guardTokenAuthorities cfg (lo_mints s); guardRugHeat cfg (lo_rugHeat s);
              guardPoolLiquidity cfg (ls_pool (lo_sizing s)); guardSpend cfg (lo_input s); guardLpSizing cfg (lo_sizing s);
              base; guardLevelRange cfg (lo_lowerLevel s) (lo_upperLevel s) (ps_activeLevel (ls_pool (lo_sizing s)))]).

Record CurveTradeSubject : Type := {
  ct_input : TokenAmount; ct_slippageBps : number; ct_curve : CurveReading; ct_mints : list (option MintInfo);
  ct_rugHeat : option number
}.

Definition guardCurveBuy (cfg : PoolGuardConfig) (s : CurveTradeSubject) : check_code :=
  first [guardTokenAuthorities cfg (ct_mints s); guardRugHeat cfg (ct_rugHeat s); guardCurveLiquidity cfg (ct_curve s);
         guardCurveSlippage cfg (ct_slippageBps s); guardSpend cfg (ct_input s)].

Definition guardCurveSell (cfg : PoolGuardConfig) (input : TokenAmount) (bps : number) (complete : bool) : check_code :=
  if complete then Some G_MIGRATED else first [guardCurveSlippage cfg bps; guardSpend cfg input].

(** *** `intent.ts` *)

Definition BASE_FEE_LAMPORTS : Z := 5000.

(** `withdrawInputLeg`, with an integer number of signatures. *)
Definition withdrawInputLeg (priorityFee : number) (signatures rentAllowance : option Z) : result TokenAmount :=
  let sigs := Z.max 1 (default 1 signatures) in
  match priorityFee with
  | Finite q => let a := Z.max 0 (Qfloor q) + BASE_FEE_LAMPORTS * sigs + default 0 rentAllowance in
                inr {| mint := WSOL_MINT; amount := if 0 <? a then a else 1; decimals := SOL_DECIMALS |}
  | Infinite true => let a := BASE_FEE_LAMPORTS * sigs + default 0 rentAllowance in
                     inr {| mint := WSOL_MINT; amount := if 0 <? a then a else 1; decimals := SOL_DECIMALS |}
  | _ => inl "RangeError"
  end.

Record IntentDraft : Type := {
  dr_kind : string; dr_source : string; dr_input : TokenAmount; dr_output : MintRef;
  dr_inputProvenance : option MintProvenance; dr_outputProvenance : option MintProvenance;
  dr_unsignedTxBase64 : string; dr_recentBlockhash : string; dr_lastValidBlockHeight : Z;
  dr_priorityFeeLamports : number; dr_summary : string; expectedOut : Z; minOut : Z; dr_slippageBps : Z;
  dr_routeLabel : string; dr_priceImpactPct : option number
}.

(** The slippage of a draft is an integer, which `Math.round` keeps. *)
Definition toTradeIntent (d : IntentDraft) : PoolGuardCode + TradeIntent :=
  if amount (dr_input d) <=? 0 then inl G_SPEND_CAP
  else if expectedOut d <? minOut d then inl G_SLIPPAGE
  else if streq (dr_unsignedTxBase64 d) "" then inl G_VENUE_ERROR
  else if negb (isFinite (dr_priorityFeeLamports d)) || num_lt (dr_priorityFeeLamports d) (js_num 0)
  then inl G_VENUE_ERROR
  else inr {|
    kind := dr_kind d; source := dr_source d; input := dr_input d; output := dr_output d;
    inputProvenance := default user (dr_inputProvenance d);
    outputProvenance := default untrusted (dr_outputProvenance d);
    unsignedTxBase64 := dr_unsignedTxBase64 d; recentBlockhash := dr_recentBlockhash d;
    lastValidBlockHeight := dr_lastValidBlockHeight d; landMode := self_rpc; landHandle := None;
    priorityFeeLamports := num_floor (dr_priorityFeeLamports d);
    Contracts.quote := {| inAmount := amount (dr_input d); outAmount := expectedOut d; minOutAmount := minOut d;
                priceImpactPct := default (js_num 0) (dr_priceImpactPct d); routeLabel := dr_routeLabel d;
                slippage_bps := dr_slippageBps d; contextSlot := None |};
    perp := None; summary := dr_summary d |}.

(** A draft only the wallet signs. *)
Definition assertWalletSignableAlone (extraSigners : list string) : check_code :=
  match extraSigners with [] => None | _ => Some G_EXTRA_SIGNER end.

(** *** What passes *)

Lemma first_None l : first l = None <-> Forall (fun c => c = None) l.
Proof.
  induction l as [|[c|] l IH]; cbn; [by rewrite Forall_nil| |]; rewrite Forall_cons; [by split; [|intros [? _]]|].
  rewrite IH. tauto.
Qed.

(** A mint that was read, is no Token-2022 mint unless those are let in, and has no live
    authority unless it is on the list. *)
Definition mint_ok (cfg : PoolGuardConfig) (o : option MintInfo) : Prop :=
  exists info, o = Some info /\ (isToken2022 info = true -> pg_allowToken2022 cfg = true) /\
    (info_mint info ∈ authorityAllowlist cfg \/ (live (mintAuthority info) = false /\ live (freezeAuthority info) = false)).

Lemma guardMint_pass cfg o : guardMint cfg o = None <-> mint_ok cfg o.
Proof.
  unfold guardMint, mint_ok. destruct o as [info|]; [|by split; [|intros (? & [=] & _)]]. split.
  - destruct (negb (pg_allowToken2022 cfg) && isToken2022 info) eqn:E; [done|]. intros H. exists info. split; [done|]. split.
    + intros Ht. rewrite Ht in E. by destruct (pg_allowToken2022 cfg).
    + destruct (includes _ _) eqn:Hin; bool_hyps; [by left|]. right. by destruct (live (mintAuthority info)), (live (freezeAuthority info)).
  - intros (i & [= <-] & H1 & H2). destruct (isToken2022 info); [rewrite H1 by done|]; rewrite ?andb_false_r; cbn;
      destruct (includes _ _) eqn:Hin; bool_hyps; try done; destruct H2 as [H2|[-> ->]]; done.
Qed.

Lemma authorities_pass cfg mints : guardTokenAuthorities cfg mints = None <-> mints <> [] /\ Forall (mint_ok cfg) mints.
Proof.
  unfold guardTokenAuthorities. destruct mints as [|o l]; [by split; [|intros [? _]]|].
  rewrite first_None, Forall_map. split.
  - intros H. split; [done|]. eapply Forall_impl; [done|]. intros x Hx. by apply guardMint_pass.
  - intros [_ H]. eapply Forall_impl; [done|]. intros x Hx. by apply guardMint_pass.
Qed.

(** What opening or adding liquidity needs. *)
Record lp_open_ok (cfg : PoolGuardConfig) (s : LpOpenSubject) : Prop := {
  ok_mints : lo_mints s <> [] /\ Forall (mint_ok cfg) (lo_mints s);
  ok_heat : exists h, lo_rugHeat s = Some (Finite h) /\ num_lt (Finite h) (maxRugHeat cfg) = true;
  ok_input : 0 < amount (lo_input s) /\
    forall l, limitsFor cfg (mint (lo_input s)) = Some l -> amount (lo_input s) <= maxSpendPerAction l;
  ok_pool : exists l tvl, limitsFor cfg (ps_quoteMint (ls_pool (lo_sizing s))) = Some l /\
    ps_liquidityQuote (ls_pool (lo_sizing s)) = Some tvl /\ minPoolLiquidityQuote l <= tvl /\
    0 <= addQuote (lo_sizing s) /\ 0 <= existingPositionQuote (lo_sizing s) /\
    existingPositionQuote (lo_sizing s) + addQuote (lo_sizing s) <= maxLpPositionQuote l;
  ok_slot : isNewPosition (lo_sizing s) = true ->
    num_lt (js_num (openPositions (lo_sizing s))) (maxConcurrentPositions cfg) = true;
  ok_base : 0 < lo_baseAmount s -> exists h pct, lo_baseHoldings s = Some h /\ 0 < h /\
    maxBaseLegPctOfHoldings cfg = Finite pct /\ (0 < pct)%Q /\ lo_baseAmount s * 100 <= h * Qfloor pct;
  ok_range : guardLevelRange cfg (lo_lowerLevel s) (lo_upperLevel s) (ps_activeLevel (ls_pool (lo_sizing s))) = None
}.

Lemma num_not_le x y : isFinite x = true -> isFinite y = true -> num_le y x = negb (num_lt x y).
Proof. unfold num_lt. destruct x, y; try done. intros _ _. by rewrite negb_involutive. Qed.

Lemma heat_pass cfg h : isFinite (maxRugHeat cfg) = true ->
  guardRugHeat cfg h = None <-> exists q, h = Some (Finite q) /\ num_lt (Finite q) (maxRugHeat cfg) = true.
Proof.
  intros Hf. unfold guardRugHeat. destruct h as [[| |q]|]; cbn [isFinite negb];
    try (by split; [|intros (? & [=] & _)]). rewrite num_not_le by done.
  destruct (num_lt _ _) eqn:E; cbn [negb]; split; try done; [by exists q|]. intros (x & [= <-] & H). congruence.
Qed.

Lemma pool_pass cfg p s : ls_pool s = p -> isFinite (maxConcurrentPositions cfg) = true ->
  guardPoolLiquidity cfg p = None /\ guardLpSizing cfg s = None <->
  (exists l tvl, limitsFor cfg (ps_quoteMint p) = Some l /\ ps_liquidityQuote p = Some tvl /\
    minPoolLiquidityQuote l <= tvl /\ 0 <= addQuote s /\ 0 <= existingPositionQuote s /\
    existingPositionQuote s + addQuote s <= maxLpPositionQuote l) /\
  (isNewPosition s = true -> num_lt (js_num (openPositions s)) (maxConcurrentPositions cfg) = true).
Proof.
  intros <- Hf. unfold guardPoolLiquidity, guardLpSizing. rewrite num_not_le by done.
  destruct (limitsFor _ _) as [l|]; [|by split; [intros [[=] _]|intros [(? & ? & [=] & _) _]]].
  destruct (ps_liquidityQuote _) as [tvl|]; [|by split; [intros [[=] _]|intros [(? & ? & _ & [=] & _) _]]].
  split.
  - intros [A B]. destruct (tvl <? _) eqn:E1; [done|]. destruct ((addQuote s <? 0) || _) eqn:E2; [done|].
    destruct (maxLpPositionQuote l <? _) eqn:E3; [done|]. destruct (isNewPosition s && _) eqn:E4; [done|]. bool_hyps.
    split; [exists l, tvl; auto 10|]. intros Hn. rewrite Hn in E4. by destruct (num_lt _ _).
  - intros [(l' & t' & [= <-] & [= <-] & H1 & H2 & H3 & H4) H5].
    rewrite (proj2 (Z.ltb_ge tvl _) H1), (proj2 (Z.ltb_ge (addQuote s) 0) H2),
      (proj2 (Z.ltb_ge (existingPositionQuote s) 0) H3), (proj2 (Z.ltb_ge _ _) H4). cbn [orb]. split; [done|].
    destruct (isNewPosition s); [|done]. by rewrite H5.
Qed.

Lemma base_leg_pass cfg b h : isFinite (maxBaseLegPctOfHoldings cfg) = true ->
  exists r, guardBaseLeg cfg b h = inr r /\
  (r = None <-> (0 < b -> exists x pct, h = Some x /\ 0 < x /\ maxBaseLegPctOfHoldings cfg = Finite pct /\ (0 < pct)%Q /\
                                        b * 100 <= x * Qfloor pct)).
Proof.
  unfold guardBaseLeg. destruct (maxBaseLegPctOfHoldings cfg) as [| |q] eqn:Eq; try done. intros _.
  destruct (Z.leb_spec b 0) as [Hb|Hb]; [exists None; split; [done|]; split; [intros _ ?; lia|done]|].
  cbn [num_le js_num]. destruct (Qle_bool q (inject_Z 0)) eqn:E.
  - exists (Some G_BASE_LEG_CAP). split; [done|]. split; [done|]. intros H. destruct (H Hb) as (x & pct & _ & _ & [= <-] & Hp & _).
    apply Qle_bool_iff in E. by apply Qle_not_lt in E.
  - assert (0 < q)%Q as Hq. { apply Qnot_le_lt. intros X%Qle_bool_iff. unfold inject_Z in *. congruence. }
    destruct h as [x|].
    2: { exists (Some G_BASE_LEG_CAP). split; [done|]. split; [done|]. intros H. by destruct (H Hb) as (? & ? & [=] & _). }
    destruct (Z.leb_spec x 0) as [Hx|Hx].
    { exists (Some G_BASE_LEG_CAP). split; [done|]. split; [done|]. intros H. destruct (H Hb) as (? & ? & [= <-] & ? & _). lia. }
    cbn [num_floor js_num]. assert (Qfloor (inject_Z (Qfloor q)) = Qfloor q) as -> by apply Qfloor_Z.
    assert (0 <= Qfloor q) as Hf. { change 0 with (Qfloor (inject_Z 0)). apply Qfloor_resp_le. by apply Qlt_le_weak. }
    assert (0 <= x * Qfloor q) as Hp by nia. rewrite Z.quot_div_nonneg by lia.
    pose proof (Z.mul_div_le (x * Qfloor q) 100 ltac:(lia)). pose proof (Z.mul_succ_div_gt (x * Qfloor q) 100 ltac:(lia)).
    destruct (Z.ltb_spec (x * Qfloor q / 100) b) as [Hl|Hl]; (eexists; split; [reflexivity|]).
    + split; [done|]. intros H1. destruct (H1 Hb) as (x' & pct & [= <-] & _ & [= <-] & _ & Hle). lia.
    + split; [|done]. intros _ _. exists x, q. split_and!; try done. lia.
Qed.

Lemma spend_pass cfg t : guardSpend cfg t = None <->
  0 < amount t /\ forall l, limitsFor cfg (mint t) = Some l -> amount t <= maxSpendPerAction l.
Proof.
  unfold guardSpend. destruct (Z.leb_spec (amount t) 0); [split; [done|lia]|].
  destruct (limitsFor _ _) as [l|]; [|naive_solver]. destruct (Z.ltb_spec (maxSpendPerAction l) (amount t)).
  - split; [done|]. intros [_ H1]. specialize (H1 l eq_refl). lia.
  - split; [|done]. intros _. split; [lia|]. by intros ? [= <-].
Qed.

(** An order to open or add liquidity passes exactly when every condition holds:
    each mint was read and is clean, the rug heat was read and is below the
    threshold, the pool's depth is known and above the floor, the input and what the
    position will hold are within their caps, a new position has a slot, the base
    leg is within its share of known holdings, and the range is well-formed.  With a
    finite configuration the check never throws. *)
Theorem lp_open_admitted cfg s :
  isFinite (maxRugHeat cfg) = true -> isFinite (maxConcurrentPositions cfg) = true ->
  isFinite (maxBaseLegPctOfHoldings cfg) = true ->
  exists r, guardLpOpen cfg s = inr r /\ (r = None <-> lp_open_ok cfg s).
Proof.
  intros H1 H2 H3. unfold guardLpOpen. destruct (base_leg_pass cfg (lo_baseAmount s) (lo_baseHoldings s) H3) as (b & -> & Hb).
  cbn [rbind]. eexists. split; [reflexivity|]. rewrite first_None, !Forall_cons, Forall_nil, authorities_pass, heat_pass, spend_pass, Hb by done.
  pose proof (pool_pass cfg _ (lo_sizing s) eq_refl H2) as Hp. split.
  - intros (A & B & C & D & E & F & G & _). destruct (proj1 Hp) as [P Q]; [done|]. by split.
  - intros []. destruct (proj2 Hp) as [P Q]; [done|]. auto 12.
Qed.

(** The leg a withdrawal declares is positive, in wrapped SOL, and at least the fees it
    names. *)
Lemma withdraw_leg_positive fee sigs rent t : withdrawInputLeg fee sigs rent = inr t -> 0 <= default 0 rent ->
  mint t = WSOL_MINT /\ 0 < amount t /\ BASE_FEE_LAMPORTS * Z.max 1 (default 1 sigs) + default 0 rent <= amount t.
Proof.
  unfold withdrawInputLeg, BASE_FEE_LAMPORTS. intros H Hr. cbn zeta in H.
  destruct fee as [|[]|q]; try done; injection H as <-; cbn [mint amount]; case_match; bool_hyps; (split; [done|lia]).
Qed.

Definition demo_mint (m : string) : option MintInfo :=
  Some {| info_mint := m; info_decimals := 9; programId := "token"; isToken2022 := false; freezeAuthority := None;
          mintAuthority := None |}.

(** A tenth of a SOL into a new position of a deep pool. *)
Definition demo_open (heat : option number) : LpOpenSubject := {|
  lo_sizing := {| ls_pool := {| ps_quoteMint := WSOL_MINT; ps_activeLevel := js_num 5; ps_liquidityQuote := Some (60 * 10 ^ 9) |};
                  addQuote := 10 ^ 8; existingPositionQuote := 0; openPositions := 4; isNewPosition := true |};
  lo_input := {| mint := WSOL_MINT; amount := 10 ^ 8; decimals := 9 |}; lo_baseAmount := 250; lo_baseHoldings := Some 1000;
  lo_mints := [demo_mint WSOL_MINT; demo_mint "base"]; lo_rugHeat := heat; lo_lowerLevel := js_num (-20);
  lo_upperLevel := js_num 30 |}.

Lemma lp_open_admitted_witness :
  guardLpOpen defaultPoolGuardConfig (demo_open None) = inr (Some G_RUG_HEAT) /\
  lp_open_ok defaultPoolGuardConfig (demo_open (Some (js_num 20))).
Proof.
  split; [by vm_compute|].
  destruct (lp_open_admitted defaultPoolGuardConfig (demo_open (Some (js_num 20))) eq_refl eq_refl eq_refl) as (r & Hr & H).
  apply H. vm_compute in Hr. congruence.
Defined.
