(* ===== verification/PumpTrades.v ===== *)
(** Trades on a pump.fun curve: reading its state (`src/pools/pumpfun/client.ts`),
    routing (`migration.ts`), building the instructions (`instructions.ts`) and the tools
    `pumpfun_buy` and `pumpfun_sell` (`src/pools/tools/pumpfun.ts`).

    A tool is an effect tree over the chain reader, the mint reader, the signals engine
    and the trade gateway.  Texts of summaries and warnings, the UI price and the
    read-only tool `pumpfun_curve` are left out; an error is its code or message. *)
From Stdlib Require Import QArith Qround.
From S2P Require Import Prelude Doubles Prog Money Contracts Bytes Curve PumpCurve PoolGuards.
#[local] Open Scope string_scope.
#[local] Open Scope list_scope.
#[local] Open Scope Z_scope.

(** *** Instructions *)

Record PumpAccountSlot {K : Type} : Type := { slot_name : string; pubkey : K; isSigner : bool; isWritable : bool }.
Arguments PumpAccountSlot : clear implicits.

Record TransactionInstruction {K : Type} : Type := { ix_programId : K; ix_keys : list (K * bool * bool); ix_data : list Z }.
Arguments TransactionInstruction : clear implicits.

(** What else of the library is used: the compute-budget instructions, the system program
    and the bytes of a version-0 transaction. *)
Class TxBuilder `{Web3} : Type := {
  systemProgram : PublicKey;
  setComputeUnitLimit : number -> result (TransactionInstruction PublicKey);
  setComputeUnitPrice : number -> result (TransactionInstruction PublicKey);
  compileV0 : PublicKey -> string -> list (TransactionInstruction PublicKey) -> result (list Z)
}.

Definition BUY_DISCRIMINATOR : list Z := [102; 6; 61; 18; 1; 218; 235; 234].
Definition SELL_DISCRIMINATOR : list Z := [51; 230; 133; 164; 1; 127; 131; 173].

Record BuiltTx : Type := {
  bt_unsignedTxBase64 : string; bt_recentBlockhash : string; bt_priorityFeeLamports : number; bt_computeUnitLimit : number
}.

Section Instructions.
Context `{TxBuilder}.
#[local] Open Scope result_scope.

Record CurveIxContext : Type := {
  cx_user : PublicKey; cx_mint : PublicKey; cx_creator : PublicKey; cx_feeRecipient : PublicKey;
  cx_programId : option PublicKey; cx_feeProgramId : option PublicKey; cx_tokenProgramId : option PublicKey
}.

Record Derived : Type := {
  d_programId : PublicKey; d_feeProgramId : PublicKey; d_tokenProgramId : PublicKey; d_global : PublicKey;
  d_curve : PublicKey; d_curveAta : PublicKey; d_userAta : PublicKey; d_creatorVault : PublicKey;
  d_eventAuthority : PublicKey; d_globalVolume : PublicKey; d_userVolume : PublicKey; d_feeConfig : PublicKey
}.

Definition derive (ctx : CurveIxContext) : Derived :=
  let program := default PUMP_PROGRAM_ID (cx_programId ctx) in
  let feeProgram := default PUMP_FEE_PROGRAM_ID (cx_feeProgramId ctx) in
  let tokenProgram := default TOKEN_PROGRAM_ID (cx_tokenProgramId ctx) in
  let curve := bondingCurvePda (cx_mint ctx) program in
  {| d_programId := program; d_feeProgramId := feeProgram; d_tokenProgramId := tokenProgram; d_global := globalPda program;
     d_curve := curve; d_curveAta := associatedTokenAddress (cx_mint ctx) curve tokenProgram;
     d_userAta := associatedTokenAddress (cx_mint ctx) (cx_user ctx) tokenProgram;
     d_creatorVault := creatorVaultPda (cx_creator ctx) program; d_eventAuthority := eventAuthorityPda program;
     d_globalVolume := globalVolumeAccumulatorPda program;
     d_userVolume := userVolumeAccumulatorPda (cx_user ctx) program; d_feeConfig := feeConfigPda program feeProgram |}.

Definition slot (name : string) (key : PublicKey) (signer writable : bool) : PumpAccountSlot PublicKey :=
  {| slot_name := name; pubkey := key; isSigner := signer; isWritable := writable |}.

Definition buyAccounts (ctx : CurveIxContext) : list (PumpAccountSlot PublicKey) :=
  let d := derive ctx in [
    slot "global" (d_global d) false false;
    slot "fee_recipient" (cx_feeRecipient ctx) false true;
    slot "mint" (cx_mint ctx) false false;
    slot "bonding_curve" (d_curve d) false true;
    slot "associated_bonding_curve" (d_curveAta d) false true;
    slot "associated_user" (d_userAta d) false true;
    slot "user" (cx_user ctx) true true;
    slot "system_program" systemProgram false false;
    slot "token_program" (d_tokenProgramId d) false false;
    slot "creator_vault" (d_creatorVault d) false true;
    slot "event_authority" (d_eventAuthority d) false false;
    slot "program" (d_programId d) false false;
    slot "global_volume_accumulator" (d_globalVolume d) false false;
    slot "user_volume_accumulator" (d_userVolume d) false true;
    slot "fee_config" (d_feeConfig d) false false;
    slot "fee_program" (d_feeProgramId d) false false].

Definition sellAccounts (ctx : CurveIxContext) : list (PumpAccountSlot PublicKey) :=
  let d := derive ctx in [
    slot "global" (d_global d) false false;
    slot "fee_recipient" (cx_feeRecipient ctx) false true;
    slot "mint" (cx_mint ctx) false false;
    slot "bonding_curve" (d_curve d) false true;
    slot "associated_bonding_curve" (d_curveAta d) false true;
    slot "associated_user" (d_userAta d) false true;
    slot "user" (cx_user ctx) true true;
    slot "system_program" systemProgram false false;
    slot "creator_vault" (d_creatorVault d) false true;
    slot "token_program" (d_tokenProgramId d) false false;
    slot "event_authority" (d_eventAuthority d) false false;
    slot "program" (d_programId d) false false;
    slot "fee_config" (d_feeConfig d) false false;
    slot "fee_program" (d_feeProgramId d) false false].

Definition toKeys (slots : list (PumpAccountSlot PublicKey)) : list (PublicKey * bool * bool) :=
  map (fun s => (pubkey s, isSigner s, isWritable s)) slots.

Definition buildBuyInstruction (ctx : CurveIxContext) (tokenAmount maxSolCostLamports : Z) (trackVolume : option bool) :
    result (TransactionInstruction PublicKey) :=
  let? amount := write_u64 tokenAmount in
  let? cost := write_u64 maxSolCostLamports in
  let track := match trackVolume with Some false => 0 | _ => 1 end in
  inr {| ix_programId := default PUMP_PROGRAM_ID (cx_programId ctx); ix_keys := toKeys (buyAccounts ctx);
         ix_data := BUY_DISCRIMINATOR ++ amount ++ cost ++ [track] |}.

Definition buildSellInstruction (ctx : CurveIxContext) (tokenAmount minSolOutputLamports : Z) :
    result (TransactionInstruction PublicKey) :=
  let? amount := write_u64 tokenAmount in
  let? output := write_u64 minSolOutputLamports in
  inr {| ix_programId := default PUMP_PROGRAM_ID (cx_programId ctx); ix_keys := toKeys (sellAccounts ctx);
         ix_data := SELL_DISCRIMINATOR ++ amount ++ output |}.

(** `createAssociatedTokenAccountIdempotentInstruction` of `chains/solana/spl.ts` *)
Definition createIdempotent (payer associatedToken owner mint tokenProgram associatedProgram : PublicKey) :
    TransactionInstruction PublicKey :=
  {| ix_programId := associatedProgram;
     ix_keys := [(payer, true, true); (associatedToken, false, true); (owner, false, false); (mint, false, false);
                 (systemProgram, false, false); (tokenProgram, false, false)];
     ix_data := [1] |}.

Definition ensureUserAtaInstruction (ctx : CurveIxContext) : TransactionInstruction PublicKey :=
  let tokenProgram := default TOKEN_PROGRAM_ID (cx_tokenProgramId ctx) in
  createIdempotent (cx_user ctx) (associatedTokenAddress (cx_mint ctx) (cx_user ctx) tokenProgram) (cx_user ctx)
    (cx_mint ctx) tokenProgram ASSOCIATED_TOKEN_PROGRAM_ID.

Definition DEFAULT_CU_LIMIT : number := js_num 250000.

Definition buildUnsignedTx (payer : PublicKey) (instructions : list (TransactionInstruction PublicKey))
    (blockhash : string) (priorityFeeLamports : number) (computeUnitLimit : option number) : result BuiltTx :=
  let cuLimit := default DEFAULT_CU_LIMIT computeUnitLimit in
  check negb (isFinite priorityFeeLamports) || num_lt priorityFeeLamports (js_num 0) else "RangeError";
  let microLamports := num_floor (num_div (num_mul priorityFeeLamports (js_num 1000000)) cuLimit) in
  let actualFeeLamports := num_floor (num_div (num_mul microLamports cuLimit) (js_num 1000000)) in
  let? limit := setComputeUnitLimit cuLimit in
  let? price := setComputeUnitPrice microLamports in
  let? wire := compileV0 payer blockhash (limit :: price :: instructions) in
  inr {| bt_unsignedTxBase64 := base64 wire; bt_recentBlockhash := blockhash;
         bt_priorityFeeLamports := actualFeeLamports; bt_computeUnitLimit := cuLimit |}.

(** `pickFeeRecipient`, with an integer seed. *)
Definition pickFeeRecipient (recipients : list string) (primary : string) (seed : Z) : result PublicKey :=
  match recipients with
  | [] => key_of_text primary
  | _ => match recipients !! Z.to_nat (Z.abs seed mod Z.of_nat (length recipients)) with
         | Some k => key_of_text k
         | None => inl "Invalid public key input"
         end
  end.
End Instructions.

(** *** The state of a curve *)

#[local] Open Scope prog_scope.

Record AccountSnapshot : Type := { ac_owner : string; ac_data : list Z }.

Inductive FeeSource : Type := tiered | flat | global_fees | fallback.

#[export] Instance FeeSource_eq_dec : EqDecision FeeSource.
Proof. solve_decision. Defined.

Record CurveState : Type := {
  cs_mint : string; cs_curveAddress : string; cs_creator : option string; cs_feeBps : Z; cs_fees : Fees;
  cs_feeSource : FeeSource; cs_marketCapLamports : Z; cs_progressPct : number; cs_tokenDecimals : Z;
  cs_tokenProgramId : string; cs_solPaired : bool; cs_isMayhemMode : option bool; cs_isCashbackCoin : option bool;
  cs_global : GlobalAccount; cs_raw : BondingCurveAccount
}.

Definition reserves_of (c : CurveState) : CurveReserves := ba_reserves (cs_raw c).

(** What the tools ask for. *)
Inductive peff : Type -> Type :=
  | GetMultipleAccounts (addresses : list string) : peff (string + list (option AccountSnapshot))%type
  | GetLatestBlockhash : peff (string + (string * Z))%type
  | GetTokenBalance (owner mint : string) : peff (string + Z)%type
  | GetMintInfo (mint : string) : peff (string + MintInfo)%type
  | RugHeatScore (mint : string) : peff (string + number)%type
  | Execute (intent : TradeIntent) (o : ExecuteOptions) : peff ExecuteResult.

Definition ptask : Type -> Type := prog peff string.

Definition ask {R} (e : peff (string + R)%type) : ptask R := let* r := trigger e in raise r.

(** `Number(z)`: the nearest double. *)
Definition num_of_bigint (z : Z) : number := round_double (inject_Z z).

Definition PUMP_TOKEN_DECIMALS : Z := 6.
Definition FALLBACK_PROTOCOL_FEE_BPS : Z := 100.
Definition FALLBACK_CREATOR_FEE_BPS : Z := 5.

(** `Math.max(x, y)` *)
Definition num_max (x y : number) : number :=
  match x, y with NaN, _ | _, NaN => NaN | _, _ => if num_le x y then y else x end.

Definition curveProgressPct (r : CurveReserves) (initialRealTokenReserves : Z) : number :=
  if initialRealTokenReserves <=? 0 then js_num 0
  else
    let sold := initialRealTokenReserves - realTokenReserves r in
    let pct := num_mul (num_div (num_of_bigint sold) (num_of_bigint initialRealTokenReserves)) (js_num 100) in
    num_min (js_num 100) (num_max (js_num 0) pct).

Definition decodeMintDecimals (data : option (list Z)) : option Z :=
  match data with Some l => if (length l <? 45)%nat then None else l !! 44%nat | None => None end.

Section Client.
Context `{TxBuilder}.

Record PumpFunClientOptions : Type := { co_programId : option PublicKey; co_feeProgramId : option PublicKey }.

(** The fee split: the tier table, its flat row, the fields of Global, a fallback. *)
Definition fee_split (feeAcc : option AccountSnapshot) (global : GlobalAccount) (marketCap : Z) : Fees * FeeSource :=
  match feeAcc with
  | Some acc =>
      match (let? cfg := decodeFeeConfig (ac_data acc) in
             if (0 <? length (feeTiers cfg))%nat
             then let? f := calculateFeeTier (feeTiers cfg) marketCap in inr (f, tiered)
             else inr (flatFees cfg, flat))%result with
      | inr x => x
      | inl _ => ({| lpFeeBps := 0; protocolFeeBps := feeBasisPoints global;
                     creatorFeeBps := default 0 (creatorFeeBasisPoints global) |}, global_fees)
      end
  | None =>
      match creatorFeeBasisPoints global with
      | Some creator => ({| lpFeeBps := 0; protocolFeeBps := feeBasisPoints global; creatorFeeBps := creator |}, global_fees)
      | None => ({| lpFeeBps := 0; protocolFeeBps := FALLBACK_PROTOCOL_FEE_BPS; creatorFeeBps := FALLBACK_CREATOR_FEE_BPS |},
                 fallback)
      end
  end.

(** The part of `readCurve` after the accounts are there. *)
Definition curve_state (mint curveAddress : string) (curveAcc globalAcc : AccountSnapshot)
    (feeAcc mintAcc : option AccountSnapshot) : result CurveState :=
  (let? raw := decodeBondingCurve (ac_data curveAcc) in
   let? global := decodeGlobal (ac_data globalAcc) in
   let r := ba_reserves raw in
   let? cap := bondingCurveMarketCap (tokenTotalSupply r) (virtualSolReserves r) (virtualTokenReserves r) in
   let '(f, source) := fee_split feeAcc global cap in
   inr {| cs_mint := mint; cs_curveAddress := curveAddress; cs_creator := ba_creator raw; cs_feeBps := curveFeeBps f;
          cs_fees := f; cs_feeSource := source; cs_marketCapLamports := cap;
          cs_progressPct := curveProgressPct r (initialRealTokenReserves global);
          cs_tokenDecimals := default PUMP_TOKEN_DECIMALS (decodeMintDecimals (option_map ac_data mintAcc));
          cs_tokenProgramId := default (toBase58 TOKEN_PROGRAM_ID) (option_map ac_owner mintAcc);
          cs_solPaired := isSolPaired raw; cs_isMayhemMode := ba_isMayhemMode raw;
          cs_isCashbackCoin := ba_isCashbackCoin raw; cs_global := global; cs_raw := raw |})%result.

(** `readCurve`; an answer that is too short reads as missing accounts. *)
Definition readCurve (o : PumpFunClientOptions) (mint : string) : ptask (option CurveState) :=
  let* mintPk := raise (key_of_text mint) in
  let program := default PUMP_PROGRAM_ID (co_programId o) in
  let feeProgram := default PUMP_FEE_PROGRAM_ID (co_feeProgramId o) in
  let curveAddress := toBase58 (bondingCurvePda mintPk program) in
  let* accounts := ask (GetMultipleAccounts
    [curveAddress; toBase58 (globalPda program); toBase58 (feeConfigPda program feeProgram); mint]) in
  let account (i : nat) : option AccountSnapshot := default None (accounts !! i) in
  match account 0%nat with
  | None => Ret None
  | Some curveAcc =>
      match account 1%nat with
      | None => Throw "POOL_VENUE_ERROR"
      | Some globalAcc =>
          let* c := raise (curve_state mint curveAddress curveAcc globalAcc (account 2%nat) (account 3%nat)) in
          Ret (Some c)
      end
  end.

(** *** Routing *)

Inductive CurveRoute : Type := bonding_curve | jupiter.

(** A route and the code of its refusal, if any. *)
Definition RoutingDecision : Type := (CurveRoute * option PoolGuardCode)%type.

Definition routeForMissingCurve : RoutingDecision := (jupiter, None).

Definition routeForCurve (c : CurveState) : RoutingDecision :=
  if Curve.complete (reserves_of c) then (jupiter, None)
  else if negb (cs_solPaired c) then (bonding_curve, Some G_UNSUPPORTED_CURVE)
  else if negb (streq (cs_tokenProgramId c) (toBase58 TOKEN_PROGRAM_ID)) then (bonding_curve, Some G_TOKEN2022)
  else if bool_decide (cs_creator c = None) then (bonding_curve, Some G_UNSUPPORTED_CURVE)
  else if bool_decide (cs_isMayhemMode c = Some true) || bool_decide (cs_isCashbackCoin c = Some true)
       then (bonding_curve, Some G_UNSUPPORTED_CURVE)
  else (bonding_curve, None).
End Client.

(** *** The tools *)

(** `fromBaseUnits` of `kernel/money.ts` *)
Definition fromBaseUnits (amount : Z) (decimals : Z) : number :=
  let magnitude := Z.abs amount in
  let base := 10 ^ decimals in
  let value := num_add (num_of_bigint (Z.quot magnitude base))
                 (num_div (num_of_bigint (Z.rem magnitude base)) (num_of_bigint base)) in
  if amount <? 0 then num_neg value else value.

(** The impact of a trade of [cost] lamports for [amount] tokens, a field of both quotes of
    `pumpfun/math.ts`. *)
Definition priceImpact (r : CurveReserves) (cost amount : Z) : number :=
  let spot := num_div (num_of_bigint (virtualSolReserves r)) (num_of_bigint (virtualTokenReserves r)) in
  let effective := num_div (num_of_bigint cost) (num_of_bigint amount) in
  if num_gt spot (js_num 0) then num_mul (num_div (num_sub effective spot) spot) (js_num 100) else js_num 0.

Record Delegation : Type := {
  dg_inputMint : string; dg_outputMint : string; dg_amountUi : number; dg_slippageBps : option Z
}.

(** The codes of `PoolGuardError`. *)
Definition code_name (c : PoolGuardCode) : string :=
  match c with
  | G_SPEND_CAP => "POOL_SPEND_CAP" | G_POSITION_CAP => "POOL_POSITION_CAP" | G_MAX_POSITIONS => "POOL_MAX_POSITIONS"
  | G_BASE_LEG_CAP => "POOL_BASE_LEG_CAP" | G_MINT_AUTHORITY => "POOL_MINT_AUTHORITY"
  | G_FREEZE_AUTHORITY => "POOL_FREEZE_AUTHORITY" | G_TOKEN2022 => "POOL_TOKEN2022" | G_RUG_HEAT => "POOL_RUG_HEAT"
  | G_LIQUIDITY_FLOOR => "POOL_LIQUIDITY_FLOOR" | G_SLIPPAGE => "POOL_SLIPPAGE" | G_RANGE_INVALID => "POOL_RANGE_INVALID"
  | G_MIGRATED => "POOL_MIGRATED" | G_EXTRA_SIGNER => "POOL_EXTRA_SIGNER" | G_VENUE_ERROR => "POOL_VENUE_ERROR"
  | G_UNSUPPORTED_CURVE => "POOL_UNSUPPORTED_CURVE"
  end.

(** `if (refusal) throwRefusal(refusal)` *)
Definition throw_refusal (r : option PoolGuardCode) : ptask unit :=
  match r with Some c => Throw (code_name c) | None => Ret tt end.

Definition DEFAULT_CURVE_SLIPPAGE_BPS : Z := 100.

Section Tools.
Context `{TxBuilder}.

(** The dependencies; [pd_signals] says whether a signals engine is wired. *)
Record PoolsDeps : Type := {
  pd_client : PumpFunClientOptions; pd_guards : PoolGuardConfig; pd_signals : bool; pd_priorityFeeLamports : option number
}.

Context (deps : PoolsDeps) (ownerWallet : string).

Definition loadCurve (mint : string) : ptask (option CurveState * RoutingDecision) :=
  let* curve := readCurve (pd_client deps) mint in
  match curve with
  | None => Ret (None, routeForMissingCurve)
  | Some c => Ret (Some c, routeForCurve c)
  end.

Definition readRugHeat (mint : string) : ptask (option number) :=
  if pd_signals deps
  then catch (let* score := ask (RugHeatScore mint) in Ret (Some score)) (fun _ => Ret None)
  else Ret None.

Definition feeRecipientFor (c : CurveState) (seed : Z) : result PublicKey :=
  pickFeeRecipient (feeRecipients (cs_global c)) (feeRecipient (cs_global c)) seed.

Definition ixContext (c : CurveState) (user : string) (seed : Z) : result CurveIxContext :=
  match truthy (cs_creator c) with
  | None => inl (code_name G_UNSUPPORTED_CURVE)
  | Some creator =>
      (let? u := key_of_text user in
       let? m := key_of_text (cs_mint c) in
       let? cr := key_of_text creator in
       let? fee := feeRecipientFor c seed in
       inr {| cx_user := u; cx_mint := m; cx_creator := cr; cx_feeRecipient := fee; cx_programId := None;
              cx_feeProgramId := None; cx_tokenProgramId := None |})%result
  end.

Inductive Warning : Type := W_may_migrate | W_fallback_fee | W_high_impact.

Record BuiltIntent : Type := { bi_intent : TradeIntent; bi_poolAddress : string; bi_warnings : list Warning }.

Definition if_warn (b : bool) (w : Warning) : list Warning := if b then [w] else [].

Definition priorityFee : number := default (js_num 200000) (pd_priorityFeeLamports deps).

Definition seed_of (c : CurveState) : Z := Z.rem (virtualSolReserves (reserves_of c)) 7.

(** `toTradeIntent(draft)`, at the boundary of a tool. *)
Definition intent_of (d : IntentDraft) : ptask TradeIntent :=
  match toTradeIntent d with inl c => Throw (code_name c) | inr i => Ret i end.

(** *** `pumpfun_buy` *)

Record BuyConfig : Type := { by_mint : string; by_amountUi : number; by_slippageBps : option Z }.

(** `buySchema` *)
Definition buySchema (c : BuyConfig) : bool :=
  (32 <=? String.length (by_mint c))%nat && num_gt (by_amountUi c) (js_num 0) &&
  match by_slippageBps c with Some s => (0 <? s) && (s <=? 5000) | None => true end.

Definition buy_draft (cfg : BuyConfig) (c : CurveState) (q : BuyQuote) (slippageBps : Z) (built : BuiltTx)
    (lastValidBlockHeight : Z) : IntentDraft :=
  {| dr_kind := "curve_buy"; dr_source := "pumpfun_buy";
     dr_input := {| mint := WSOL_MINT; amount := bq_maxSolCostLamports q; decimals := SOL_DECIMALS |};
     dr_output := {| out_mint := by_mint cfg; out_decimals := Z.to_nat (cs_tokenDecimals c) |};
     dr_inputProvenance := None; dr_outputProvenance := Some untrusted;
     dr_unsignedTxBase64 := bt_unsignedTxBase64 built; dr_recentBlockhash := bt_recentBlockhash built;
     dr_lastValidBlockHeight := lastValidBlockHeight; dr_priorityFeeLamports := bt_priorityFeeLamports built;
     dr_summary := ""; expectedOut := bq_tokenAmount q; minOut := bq_tokenAmount q; dr_slippageBps := slippageBps;
     dr_routeLabel := "pump.fun bonding curve";
     dr_priceImpactPct := Some (priceImpact (reserves_of c) (bq_solCostLamports q) (bq_tokenAmount q)) |}.

Definition buy_warnings (c : CurveState) (q : BuyQuote) : list Warning :=
  if_warn (num_gt (cs_progressPct c) (js_num 90)) W_may_migrate ++
  if_warn (bool_decide (cs_feeSource c = fallback)) W_fallback_fee ++
  if_warn (num_gt (priceImpact (reserves_of c) (bq_solCostLamports q) (bq_tokenAmount q)) (js_num 5)) W_high_impact.

(** The end of `build` of `makePumpfunBuyTool`, once the mint was looked up. *)
Definition buy_on_curve (cfg : BuyConfig) (c : CurveState) (solBudget slippageBps : Z) (mintInfo : option MintInfo) :
    ptask (Delegation + BuiltIntent) :=
  let* heat := readRugHeat (by_mint cfg) in
  throw_refusal (guardCurveBuy (pd_guards deps)
    {| ct_input := {| mint := WSOL_MINT; amount := solBudget; decimals := SOL_DECIMALS |};
       ct_slippageBps := js_num slippageBps;
       ct_curve := {| PoolGuards.realSolReserves := Some (Curve.realSolReserves (reserves_of c));
                      PoolGuards.complete := Curve.complete (reserves_of c) |};
       ct_mints := [mintInfo]; ct_rugHeat := heat |}) ;;
  let* q := raise (quoteBuyForSolBudget (reserves_of c) solBudget (cs_feeBps c) (js_num slippageBps)) in
  let* '(blockhash, lastValidBlockHeight) := ask GetLatestBlockhash in
  let* ctxIx := raise (ixContext c ownerWallet (seed_of c)) in
  let* payer := raise (key_of_text ownerWallet) in
  let* ix := raise (buildBuyInstruction ctxIx (bq_tokenAmount q) (bq_maxSolCostLamports q) None) in
  let* built := raise (buildUnsignedTx payer [ensureUserAtaInstruction ctxIx; ix] blockhash priorityFee None) in
  let* intent := intent_of (buy_draft cfg c q slippageBps built lastValidBlockHeight) in
  Ret (inr {| bi_intent := intent; bi_poolAddress := cs_curveAddress c; bi_warnings := buy_warnings c q |}).

(** `build` of `makePumpfunBuyTool` *)
Definition build_buy (cfg : BuyConfig) : ptask (Delegation + BuiltIntent) :=
  let* '(curve, route) := loadCurve (by_mint cfg) in
  let delegated : Delegation := {| dg_inputMint := WSOL_MINT; dg_outputMint := by_mint cfg; dg_amountUi := by_amountUi cfg;
                                   dg_slippageBps := by_slippageBps cfg |} in
  match curve, route.1 with
  | None, _ | _, jupiter => Ret (inl delegated)
  | Some c, bonding_curve =>
      throw_refusal route.2 ;;
      match toBaseUnits_number (by_amountUi cfg) SOL_DECIMALS with
      | None => Throw "RangeError"
      | Some solBudget =>
          let* mintInfo := catch (let* i := ask (GetMintInfo (by_mint cfg)) in Ret (Some i)) (fun _ => Ret None) in
          buy_on_curve cfg c solBudget (default DEFAULT_CURVE_SLIPPAGE_BPS (by_slippageBps cfg)) mintInfo
      end
  end.

(** What `simulate` shows: a delegation, or the intent and its warnings. *)
Definition buy_simulate (cfg : BuyConfig) : ptask (Delegation + BuiltIntent) := build_buy cfg.

(** What `execute` answers; [Delegated] is an error of the tool. *)
Inductive ToolOutcome : Type :=
  | Delegated (d : Delegation)
  | Executed (isError : bool) (r : ExecuteResult).

Definition outcome_of (r : ExecuteResult) : ToolOutcome :=
  Executed (match res_error r with Some _ => negb (bool_decide (res_state r = confirmed)) | None => false end) r.

Definition submit (out : Delegation + BuiltIntent) (key : string) (confirmedByUser : option bool) : ptask ToolOutcome :=
  match out with
  | inl d => Ret (Delegated d)
  | inr b =>
      let* r := trigger (Execute (bi_intent b) {| idempotencyKey := key; dryRun := false;
                                                  confirmedByUser := default false confirmedByUser |}) in
      Ret (outcome_of r)
  end.

Definition buy_execute (cfg : BuyConfig) (key : string) (confirmedByUser : option bool) : ptask ToolOutcome :=
  let* out := build_buy cfg in submit out key confirmedByUser.

(** *** `pumpfun_sell` *)

Record SellConfig : Type := {
  sl_mint : string; sl_amountUi : option number; sl_percent : option number; sl_slippageBps : option Z
}.

(** `sellSchema` *)
Definition sellSchema (c : SellConfig) : bool :=
  (32 <=? String.length (sl_mint c))%nat &&
  match sl_amountUi c with Some a => num_gt a (js_num 0) | None => true end &&
  match sl_percent c with Some p => num_gt p (js_num 0) && num_le p (js_num 100) | None => true end &&
  match sl_slippageBps c with Some s => (0 <? s) && (s <=? 5000) | None => true end &&
  match sl_amountUi c, sl_percent c with None, None => false | _, _ => true end.

(** `(holdings * BigInt(Math.round(percent ?? 100))) / 100n` *)
Definition share (holdings : Z) (percent : option number) : Z :=
  Z.quot (holdings * round_number (default (js_num 100) percent)) 100.

Definition sell_draft (cfg : SellConfig) (c : CurveState) (amount : Z) (q : SellQuote) (slippageBps : Z) (built : BuiltTx)
    (lastValidBlockHeight : Z) : IntentDraft :=
  {| dr_kind := "curve_sell"; dr_source := "pumpfun_sell";
     dr_input := {| mint := sl_mint cfg; amount := amount; decimals := Z.to_nat (cs_tokenDecimals c) |};
     dr_output := {| out_mint := WSOL_MINT; out_decimals := SOL_DECIMALS |};
     dr_inputProvenance := Some untrusted; dr_outputProvenance := Some user;
     dr_unsignedTxBase64 := bt_unsignedTxBase64 built; dr_recentBlockhash := bt_recentBlockhash built;
     dr_lastValidBlockHeight := lastValidBlockHeight; dr_priorityFeeLamports := bt_priorityFeeLamports built;
     dr_summary := ""; expectedOut := sq_netSolLamports q; minOut := sq_minSolOutputLamports q; dr_slippageBps := slippageBps;
     dr_routeLabel := "pump.fun bonding curve";
     dr_priceImpactPct := Some (priceImpact (reserves_of c) (sq_grossSolLamports q) amount) |}.

(** The end of `build` of `makePumpfunSellTool`, once the amount is known. *)
Definition sell_on_curve (cfg : SellConfig) (c : CurveState) (holdings tokenAmount slippageBps : Z) :
    ptask (Delegation + BuiltIntent) :=
  (if tokenAmount <=? 0 then Throw (code_name G_SPEND_CAP) else Ret tt) ;;
  (if holdings <? tokenAmount then Throw (code_name G_SPEND_CAP) else Ret tt) ;;
  throw_refusal (guardCurveSell (pd_guards deps)
    {| mint := sl_mint cfg; amount := tokenAmount; decimals := Z.to_nat (cs_tokenDecimals c) |} (js_num slippageBps)
    (Curve.complete (reserves_of c))) ;;
  let* q := raise (quoteSell (reserves_of c) tokenAmount (cs_feeBps c) (js_num slippageBps)) in
  let* '(blockhash, lastValidBlockHeight) := ask GetLatestBlockhash in
  let* ctxIx := raise (ixContext c ownerWallet (seed_of c)) in
  let* payer := raise (key_of_text ownerWallet) in
  let* ix := raise (buildSellInstruction ctxIx tokenAmount (sq_minSolOutputLamports q)) in
  let* built := raise (buildUnsignedTx payer [ix] blockhash priorityFee None) in
  let* intent := intent_of (sell_draft cfg c tokenAmount q slippageBps built lastValidBlockHeight) in
  Ret (inr {| bi_intent := intent; bi_poolAddress := cs_curveAddress c;
              bi_warnings := if_warn (bool_decide (cs_feeSource c = fallback)) W_fallback_fee |}).

(** `build` of `makePumpfunSellTool` *)
Definition build_sell (cfg : SellConfig) : ptask (Delegation + BuiltIntent) :=
  let* '(curve, route) := loadCurve (sl_mint cfg) in
  let* holdings := catch (ask (GetTokenBalance ownerWallet (sl_mint cfg))) (fun _ => Ret 0) in
  match curve, route.1 with
  | None, _ | _, jupiter =>
      let decimals := match curve with Some c => cs_tokenDecimals c | None => 6 end in
      Ret (inl {| dg_inputMint := sl_mint cfg; dg_outputMint := WSOL_MINT;
                  dg_amountUi := default (fromBaseUnits (share holdings (sl_percent cfg)) decimals) (sl_amountUi cfg);
                  dg_slippageBps := sl_slippageBps cfg |})
  | Some c, bonding_curve =>
      throw_refusal route.2 ;;
      let* tokenAmount := match sl_amountUi cfg with
                          | Some a => match toBaseUnits_number a (Z.to_nat (cs_tokenDecimals c)) with
                                      | Some n => Ret n
                                      | None => Throw "RangeError"
                                      end
                          | None => Ret (share holdings (sl_percent cfg))
                          end in
      sell_on_curve cfg c holdings tokenAmount (default DEFAULT_CURVE_SLIPPAGE_BPS (sl_slippageBps cfg))
  end.

Definition sell_execute (cfg : SellConfig) (key : string) (confirmedByUser : option bool) : ptask ToolOutcome :=
  let* out := build_sell cfg in submit out key confirmedByUser.
End Tools.
