(* ===== verification/PumpSafety.v ===== *)
(** What the pump.fun tools hand to the trade gateway.

    Whatever the chain, the signals engine and the library answer, a buy is offered only
    for a live curve that was read in the same run and passed every guard, for the
    amounts the unsigned transaction carries. *)
From Stdlib Require Import Ascii QArith Qround.
From S2P Require Import Prelude Doubles Prog Money Contracts TradeGateway StrategyExec Bytes Curve PumpCurve PoolGuards PumpTrades.
#[local] Open Scope string_scope.
#[local] Open Scope list_scope.
#[local] Open Scope Z_scope.
#[local] Open Scope prog_scope.

Lemma round_js_num z : round_number (js_num z) = z.
Proof.
  unfold round_number, js_num, Qfloor, Qplus, inject_Z. cbn. rewrite Z.mul_1_r.
  replace (z * 2 + 1) with (1 + z * 2) by lia. rewrite Z.div_add by lia. done.
Qed.

Lemma num_lt_js a b : num_lt (js_num a) (js_num b) = false -> b <= a.
Proof. unfold num_lt, num_le, js_num. intros H. apply negb_false_iff in H. apply Qle_bool_iff in H. by rewrite Zle_Qle. Qed.

Section Buys.
Context `{TxBuilder} (deps : PoolsDeps) (ownerWallet : string).

Definition pump_history : Type := list (Prog.event peff).

Definition slippage_or_default (o : option Z) : Z := default DEFAULT_CURVE_SLIPPAGE_BPS o.

(** The accounts asked for a curve: the curve's address and the two shared accounts as
    program addresses of the pump program, and the mint itself. *)
Definition asked_accounts (m : PublicKey) (mnt : string) : list string :=
  let pump := default PUMP_PROGRAM_ID (co_programId (pd_client deps)) in
  let fee_program := default PUMP_FEE_PROGRAM_ID (co_feeProgramId (pd_client deps)) in
  [toBase58 (findProgramAddress [bytes_of_text "bonding-curve"; toBuffer m] pump);
   toBase58 (findProgramAddress [bytes_of_text "global"] pump);
   toBase58 (findProgramAddress [bytes_of_text "fee_config"; toBuffer pump] fee_program); mnt].

(** The row of a tier table for a market capitalisation: the last one whose threshold is
    reached, and the first one below all of them. *)
Inductive tier_of (cap : Z) : list FeeTier -> Fees -> Prop :=
  | tier_below t ts : cap < marketCapLamportsThreshold t -> tier_of cap (t :: ts) (fees t)
  | tier_reached l1 t l2 : marketCapLamportsThreshold t <= cap ->
      Forall (fun x => cap < marketCapLamportsThreshold x) l2 -> tier_of cap (l1 ++ t :: l2) (fees t).

(** The fee rate of a curve: protocol and creator shares of the fee account's tier, of its
    flat row, of the global account, or the documented fallback. *)
Inductive charged (fee_account : option AccountSnapshot) (g : GlobalAccount) (r : CurveReserves) : Z -> Prop :=
  | charged_tier acc cfg f : fee_account = Some acc -> decodeFeeConfig (ac_data acc) = inr cfg ->
      tier_of (Z.quot (virtualSolReserves r * tokenTotalSupply r) (virtualTokenReserves r)) (feeTiers cfg) f ->
      charged fee_account g r (protocolFeeBps f + creatorFeeBps f)
  | charged_flat acc cfg : fee_account = Some acc -> decodeFeeConfig (ac_data acc) = inr cfg -> feeTiers cfg = [] ->
      charged fee_account g r (protocolFeeBps (flatFees cfg) + creatorFeeBps (flatFees cfg))
  | charged_undecoded acc e : fee_account = Some acc -> decodeFeeConfig (ac_data acc) = inl e ->
      charged fee_account g r (feeBasisPoints g + default 0 (creatorFeeBasisPoints g))
  | charged_global creator : fee_account = None -> creatorFeeBasisPoints g = Some creator ->
      charged fee_account g r (feeBasisPoints g + creator)
  | charged_fallback : fee_account = None -> creatorFeeBasisPoints g = None -> charged fee_account g r 105.

(** The state of the curve of a mint as this run read it: from the account at the curve's
    own address, with the fee rate that the accounts of the same answer charge. *)
Definition read_curve (mnt : string) (c : CurveState) (h : pump_history) : Prop :=
  exists m accounts acc gacc,
    key_of_text mnt = inr m /\ Event (GetMultipleAccounts (asked_accounts m mnt)) (inr accounts) ∈ h /\
    accounts !! 0%nat = Some (Some acc) /\ accounts !! 1%nat = Some (Some gacc) /\
    decodeBondingCurve (ac_data acc) = inr (cs_raw c) /\ decodeGlobal (ac_data gacc) = inr (cs_global c) /\
    charged (default None (accounts !! 2%nat)) (cs_global c) (reserves_of c) (cs_feeBps c) /\
    cs_mint c = mnt /\ cs_creator c = ba_creator (cs_raw c) /\
    cs_isMayhemMode c = ba_isMayhemMode (cs_raw c) /\ cs_isCashbackCoin c = ba_isCashbackCoin (cs_raw c) /\
    cs_solPaired c = isSolPaired (cs_raw c).

(** The accounts of a trade on the curve of a mint, in the program's order; a recipient of
    fees is one the global account lists. *)
Definition fee_recipient_of (g : GlobalAccount) (k : PublicKey) : Prop :=
  exists t, key_of_text t = inr k /\ t ∈ feeRecipient g :: feeRecipients g.

Definition buy_keys (m creator recipient user : PublicKey) : list (PublicKey * bool * bool) :=
  let pda seeds := findProgramAddress seeds PUMP_PROGRAM_ID in
  let ata owner := findProgramAddress [toBuffer owner; toBuffer TOKEN_PROGRAM_ID; toBuffer m] ASSOCIATED_TOKEN_PROGRAM_ID in
  let curve := pda [bytes_of_text "bonding-curve"; toBuffer m] in
  [(pda [bytes_of_text "global"], false, false); (recipient, false, true); (m, false, false); (curve, false, true);
   (ata curve, false, true); (ata user, false, true); (user, true, true); (systemProgram, false, false);
   (TOKEN_PROGRAM_ID, false, false); (pda [bytes_of_text "creator-vault"; toBuffer creator], false, true);
   (pda [bytes_of_text "__event_authority"], false, false); (PUMP_PROGRAM_ID, false, false);
   (pda [bytes_of_text "global_volume_accumulator"], false, false);
   (pda [bytes_of_text "user_volume_accumulator"; toBuffer user], false, true);
   (findProgramAddress [bytes_of_text "fee_config"; toBuffer PUMP_PROGRAM_ID] PUMP_FEE_PROGRAM_ID, false, false);
   (PUMP_FEE_PROGRAM_ID, false, false)].

(** The transaction spends at most [cost] lamports for exactly [tokens] of the mint: the
    owner pays, the token account it needs is created, and the buy names the accounts of
    that mint's curve, its creator and a recipient of fees. *)
Definition buys_exactly (wire64 blockhash : string) (c : CurveState) (tokens cost : Z) : Prop :=
  exists payer m creator ct recipient limit price ata ix wire,
    key_of_text ownerWallet = inr payer /\ key_of_text (cs_mint c) = inr m /\ ba_creator (cs_raw c) = Some ct /\
    key_of_text ct = inr creator /\ fee_recipient_of (cs_global c) recipient /\
    compileV0 payer blockhash [limit; price; ata; ix] = inr wire /\ wire64 = base64 wire /\
    setComputeUnitLimit (js_num 250000) = inr limit /\
    (exists micro, setComputeUnitPrice micro = inr price) /\
    ix_programId ata = ASSOCIATED_TOKEN_PROGRAM_ID /\ ix_data ata = [1] /\
    ix_keys ata = [(payer, true, true);
      (findProgramAddress [toBuffer payer; toBuffer TOKEN_PROGRAM_ID; toBuffer m] ASSOCIATED_TOKEN_PROGRAM_ID, false, true);
      (payer, false, false); (m, false, false); (systemProgram, false, false); (TOKEN_PROGRAM_ID, false, false)] /\
    ix_programId ix = PUMP_PROGRAM_ID /\ ix_keys ix = buy_keys m creator recipient payer /\
    read_le 8 8 (ix_data ix) = inr tokens /\ read_le 8 16 (ix_data ix) = inr cost /\
    take 8 (ix_data ix) = BUY_DISCRIMINATOR /\ length (ix_data ix) = 25%nat.

(** The options of an `execute` of the tools. *)
Definition key_options (key : string) (confirmed : bool) : ExecuteOptions :=
  {| idempotencyKey := key; dryRun := false; confirmedByUser := confirmed |}.

(** What a run has read and checked when it offers the intent [i]. *)
Record buy_checked (cfg : BuyConfig) (i : TradeIntent) (h : pump_history) : Prop := {
  bc_curve : exists c budget q, let slippage := slippage_or_default (by_slippageBps cfg) in
    read_curve (by_mint cfg) c h /\ Curve.complete (reserves_of c) = false /\ isSolPaired (cs_raw c) = true /\
    ba_isMayhemMode (cs_raw c) <> Some true /\ ba_isCashbackCoin (cs_raw c) <> Some true /\
    minCurveRealSolLamports (pd_guards deps) <= Curve.realSolReserves (reserves_of c) /\
    toBaseUnits_number (by_amountUi cfg) SOL_DECIMALS = Some budget /\
    0 < budget <= maxSpendPerAction (pg_sol (pd_guards deps)) /\
    quoteBuyForSolBudget (reserves_of c) budget (cs_feeBps c) (js_num slippage) = inr q /\
    amount (input i) = bq_maxSolCostLamports q /\ bq_totalLamports q <= amount (input i) /\
    amount (input i) * 10000 <= budget * (10000 + slippage) /\
    outAmount (Contracts.quote i) = bq_tokenAmount q /\ minOutAmount (Contracts.quote i) = bq_tokenAmount q /\
    Event GetLatestBlockhash (inr (recentBlockhash i, lastValidBlockHeight i)) ∈ h /\
    buys_exactly (unsignedTxBase64 i) (recentBlockhash i) c (bq_tokenAmount q) (bq_maxSolCostLamports q);
  bc_mint : exists info, Event (GetMintInfo (by_mint cfg)) (inr info) ∈ h /\ mint_ok (pd_guards deps) (Some info);
  bc_heat : exists score, Event (RugHeatScore (by_mint cfg)) (inr (Finite score)) ∈ h /\
    num_le (maxRugHeat (pd_guards deps)) (Finite score) = false;
  bc_slippage : num_gt (js_num (slippage_or_default (by_slippageBps cfg))) (maxCurveSlippageBps (pd_guards deps)) = false;
  bc_shape : Contracts.kind i = "curve_buy" /\ mint (input i) = WSOL_MINT /\ out_mint (output i) = by_mint cfg /\
    Contracts.outputProvenance i = untrusted
}.

(** An offer to the trade gateway. *)
Definition is_offer (ev : Prog.event peff) : bool :=
  match ev with Event e _ => match e with Execute _ _ => true | _ => false end end.

Definition nothing_offered (h : pump_history) : Prop := Forall (fun ev => is_offer ev = false) h.

(** What must hold when an intent is offered. *)
Definition offer_pre (P : TradeIntent -> ExecuteOptions -> pump_history -> Prop) R (e : peff R) (h : pump_history) : Prop :=
  match e with Execute i o => P i o h | _ => True end.

Lemma ensures_raise {A} pre ans upd (r : Prelude.result A) Q (h : pump_history) :
  ensures (E := peff) pre ans upd (raise r) Q h <-> Q r h.
Proof. by destruct r. Qed.

Lemma read_data d a b (rest : list Z) :
  length d = 8%nat -> 0 <= a < 2 ^ 64 -> 0 <= b < 2 ^ 64 ->
  let l := d ++ le_bytes 8 a ++ le_bytes 8 b ++ rest in
  read_le 8 8 l = inr a /\ read_le 8 16 l = inr b /\ take 8 l = d /\ length l = (24 + length rest)%nat.
Proof.
  intros Hd Ha Hb l. subst l. split_and!.
  - rewrite <- Hd at 2. by apply read_le_middle.
  - rewrite app_assoc. rewrite <- (read_le_middle (d ++ le_bytes 8 a) 8 b rest Hb). f_equal.
    by rewrite length_app, length_le_bytes, Hd.
  - rewrite <- Hd. apply take_app_length.
  - rewrite !length_app, !length_le_bytes, Hd. lia.
Qed.

Lemma pickFeeRecipient_inr l primary seed k :
  pickFeeRecipient l primary seed = inr k -> exists t, key_of_text t = inr k /\ t ∈ primary :: l.
Proof.
  unfold pickFeeRecipient. destruct l as [|x l]; [intros Hk; exists primary; split; [done|by left]|].
  destruct (_ !! _) as [t|] eqn:Ht; [|done]. intros Hk. exists t. split; [done|]. right. by eapply list_elem_of_lookup_2.
Qed.

Lemma ixContext_inr c user seed cx : ixContext c user seed = inr cx ->
  key_of_text user = inr (cx_user cx) /\ cx_programId cx = None /\ cx_feeProgramId cx = None /\ cx_tokenProgramId cx = None /\
  key_of_text (cs_mint c) = inr (cx_mint cx) /\
  (exists ct, cs_creator c = Some ct /\ key_of_text ct = inr (cx_creator cx)) /\ fee_recipient_of (cs_global c) (cx_feeRecipient cx).
Proof.
  unfold ixContext, feeRecipientFor, truthy. destruct (cs_creator c) as [ct|]; [|done]. destruct (streq _ _); [done|].
  intros Hc. open_result Hc. injection Hc as <-. cbn. split_and!; try done; [by exists ct|]. by eapply pickFeeRecipient_inr.
Qed.

Lemma buildUnsignedTx_inr payer ixs bh fee cu b :
  buildUnsignedTx payer ixs bh fee cu = inr b ->
  exists limit price micro wire, compileV0 payer bh (limit :: price :: ixs) = inr wire /\ bt_unsignedTxBase64 b = base64 wire /\
    setComputeUnitLimit (default DEFAULT_CU_LIMIT cu) = inr limit /\ setComputeUnitPrice micro = inr price /\
    bt_recentBlockhash b = bh.
Proof. unfold buildUnsignedTx. intros Hb. open_result Hb. injection Hb as <-. do 4 eexists. split_and!; done. Qed.

Lemma buy_transaction cx payer ix bh fee b tokens cost seed c :
  ixContext c ownerWallet seed = inr cx -> key_of_text ownerWallet = inr payer -> cs_creator c = ba_creator (cs_raw c) ->
  buildBuyInstruction cx tokens cost None = inr ix ->
  buildUnsignedTx payer [ensureUserAtaInstruction cx; ix] bh fee None = inr b ->
  buys_exactly (bt_unsignedTxBase64 b) bh c tokens cost.
Proof.
  intros (Hu & Hp & Hf & Ht0 & Hm & (ct & Hct & Hcr) & Hr)%ixContext_inr Hk Hraw Hix
    (limit & price & micro & wire & Hw & Hb & Hl & Hpr & _)%buildUnsignedTx_inr.
  unfold buildBuyInstruction in Hix. open_result Hix. injection Hix as <-.
  apply write_u64_spec in Ha as [Ht ->]. apply write_u64_spec in Ha0 as [Hc ->].
  destruct (read_data BUY_DISCRIMINATOR tokens cost [1] eq_refl Ht Hc) as (H1 & H2 & H3 & H4).
  assert (payer = cx_user cx) as -> by congruence.
  unfold buys_exactly. exists (cx_user cx), (cx_mint cx), (cx_creator cx), ct, (cx_feeRecipient cx), limit, price.
  do 3 eexists. split_and!; [done|done|congruence|done|done|exact Hw|done|exact Hl|by eexists|done|done| | | |done..].
  - cbn. by rewrite Ht0.
  - cbn. by rewrite Hp.
  - cbn. unfold derive, bondingCurvePda, associatedTokenAddress. cbn. by rewrite Hp, Hf, Ht0.
Qed.

(** *** What was checked *)

Lemma last_tier_spec cap l f : last_tier (rev l) cap = Some f ->
  exists l1 t l2, l = l1 ++ t :: l2 /\ marketCapLamportsThreshold t <= cap /\
    Forall (fun x => cap < marketCapLamportsThreshold x) l2 /\ f = fees t.
Proof.
  induction l as [|x l IH] using rev_ind; [done|]. rewrite rev_app_distr. cbn [rev app last_tier].
  destruct (Z.leb_spec (marketCapLamportsThreshold x) cap) as [Hx|Hx].
  - intros [= <-]. exists l, x, []. split_and!; [done|done|constructor|done].
  - intros (l1 & t & l2 & -> & Ht & Hl & ->)%IH. exists l1, t, (l2 ++ [x]). split_and!; [by rewrite <- app_assoc|done| |done].
    apply Forall_app. split; [done|]. by constructor.
Qed.

Lemma last_tier_some cap l t : t ∈ l -> marketCapLamportsThreshold t <= cap -> exists f, last_tier l cap = Some f.
Proof.
  induction l as [|x l IH]; [by intros ?%not_elem_of_nil|]. intros [->|Hin]%elem_of_cons Ht; cbn.
  - rewrite (proj2 (Z.leb_le _ _) Ht). by eexists.
  - destruct (_ <=? _); [by eexists|by apply IH].
Qed.

Lemma calculateFeeTier_spec tiers cap f : calculateFeeTier tiers cap = inr f -> tier_of cap tiers f.
Proof.
  unfold calculateFeeTier. destruct tiers as [|x l]; [done|]. destruct (Z.ltb_spec cap (marketCapLamportsThreshold x)) as [Hx|Hx].
  - intros [= <-]. by constructor.
  - destruct (last_tier_some cap (rev (x :: l)) x) as [f' Hf']; [apply list_elem_of_In; rewrite <- in_rev; by left|done|].
    rewrite Hf'. intros [= <-]. apply last_tier_spec in Hf' as (l1 & t & l2 & -> & Ht & Hl & ->). by constructor.
Qed.

Lemma fee_split_charged fa g r :
  charged fa g r (curveFeeBps (fee_split fa g (Z.quot (virtualSolReserves r * tokenTotalSupply r) (virtualTokenReserves r))).1).
Proof.
  set (cap := Z.quot _ _). unfold fee_split. destruct fa as [acc|].
  - destruct (decodeFeeConfig (ac_data acc)) as [e|cfg] eqn:Hd; cbn [rbind]; [by eapply charged_undecoded|].
    destruct (feeTiers cfg) as [|t ts] eqn:Ht; [by eapply charged_flat|]. cbn [length Nat.ltb Nat.leb].
    destruct (calculateFeeTier (t :: ts) cap) as [e|f] eqn:Hf.
    + unfold calculateFeeTier in Hf. destruct (_ <? _) in Hf; discriminate Hf.
    + apply calculateFeeTier_spec in Hf. rewrite <- Ht in Hf. by eapply charged_tier.
  - destruct (creatorFeeBasisPoints g) eqn:Hg; [by eapply charged_global|by apply charged_fallback].
Qed.

Lemma curve_state_raw mint addr a g f m c : curve_state mint addr a g f m = inr c ->
  decodeBondingCurve (ac_data a) = inr (cs_raw c) /\ decodeGlobal (ac_data g) = inr (cs_global c) /\
  charged f (cs_global c) (reserves_of c) (cs_feeBps c) /\ cs_mint c = mint /\ cs_creator c = ba_creator (cs_raw c) /\
  cs_isMayhemMode c = ba_isMayhemMode (cs_raw c) /\ cs_isCashbackCoin c = ba_isCashbackCoin (cs_raw c) /\
  cs_solPaired c = isSolPaired (cs_raw c).
Proof.
  unfold curve_state, bondingCurveMarketCap. intros Hc. open_result Hc.
  apply rbind_inr in Ha1 as (_ & _ & [= <-]). pose proof (fee_split_charged f a1 (ba_reserves a0)) as Hf.
  destruct (fee_split _ _ _) as [fs src]. injection Hc as <-. by rewrite Ha.
Qed.

Lemma route_live c : routeForCurve c = (bonding_curve, None) ->
  Curve.complete (reserves_of c) = false /\ cs_solPaired c = true /\
  cs_isMayhemMode c <> Some true /\ cs_isCashbackCoin c <> Some true.
Proof.
  unfold routeForCurve. destruct (Curve.complete _); [done|]. destruct (cs_solPaired c); cbn [negb]; [|done].
  destruct (streq _ _); cbn [negb]; [|done]. destruct (bool_decide (cs_creator c = None)); [done|].
  destruct (bool_decide (cs_isMayhemMode c = Some true)) eqn:H1; [done|].
  destruct (bool_decide (cs_isCashbackCoin c = Some true)) eqn:H2; [done|]. by bool_hyps.
Qed.

Lemma max_cost_bound r budget fee s q :
  0 <= s -> quoteBuyForSolBudget r budget fee (js_num s) = inr q -> bq_maxSolCostLamports q * 10000 <= budget * (10000 + s).
Proof.
  intros Hs Hq. pose proof (buy_amounts _ _ _ _ _ Hq) as (_ & H1 & H2 & H3 & H4 & _).
  unfold quoteBuyForSolBudget in Hq. rewrite round_js_num in Hq. open_result Hq. injection Hq as <-. cbn -[Z.mul Z.add] in *.
  match goal with |- context [Z.quot ?x 10000 * 10000 <= _] => pose proof (quot_bounds x 10000) as Hb' end.
  specialize (Hb' ltac:(nia) ltac:(lia)). nia.
Qed.

Lemma curve_buy_pass cfg s : guardCurveBuy cfg s = None ->
  Forall (mint_ok cfg) (ct_mints s) /\
  (exists score, ct_rugHeat s = Some (Finite score) /\ num_le (maxRugHeat cfg) (Finite score) = false) /\
  (exists r, PoolGuards.realSolReserves (ct_curve s) = Some r /\ minCurveRealSolLamports cfg <= r) /\
  num_lt (ct_slippageBps s) (js_num 0) = false /\ num_gt (ct_slippageBps s) (maxCurveSlippageBps cfg) = false /\
  0 < amount (ct_input s) /\ (forall l, limitsFor cfg (mint (ct_input s)) = Some l -> amount (ct_input s) <= maxSpendPerAction l).
Proof.
  unfold guardCurveBuy. rewrite first_None, !Forall_cons. intros (H1 & H2 & H3 & H4 & H5 & _).
  apply authorities_pass in H1 as [_ H1]. apply spend_pass in H5 as [H5 H6]. split_and!; try done.
  - unfold guardRugHeat in H2. destruct (ct_rugHeat s) as [[| |x]|]; try done. exists x. split; [done|].
    cbn [isFinite negb] in H2. by destruct (num_le _ _).
  - unfold guardCurveLiquidity in H3. destruct (PoolGuards.complete _); [done|].
    destruct (PoolGuards.realSolReserves _) as [r|]; [|done]. exists r. split; [done|].
    destruct (Z.ltb_spec r (minCurveRealSolLamports cfg)); [done|lia].
  - unfold guardCurveSlippage in H4. destruct (num_lt _ _); [by rewrite orb_true_r in H4|done].
  - unfold guardCurveSlippage in H4. destruct (_ || _); [done|]. by destruct (num_gt _ _).
Qed.

Lemma toTradeIntent_inr d i : toTradeIntent d = inr i ->
  Contracts.kind i = dr_kind d /\ input i = dr_input d /\ output i = dr_output d /\
  Contracts.inputProvenance i = default user (dr_inputProvenance d) /\
  Contracts.outputProvenance i = default untrusted (dr_outputProvenance d) /\
  unsignedTxBase64 i = dr_unsignedTxBase64 d /\ outAmount (Contracts.quote i) = expectedOut d /\
  minOutAmount (Contracts.quote i) = minOut d /\ minOut d <= expectedOut d /\ 0 < amount (dr_input d).
Proof.
  unfold toTradeIntent. destruct (Z.leb_spec (amount (dr_input d)) 0); [done|].
  destruct (Z.ltb_spec (expectedOut d) (minOut d)); [done|]. destruct (streq _ _); [done|]. destruct (_ || _); [done|].
  intros [= <-]. cbn. split_and!; done || lia.
Qed.

Lemma toTradeIntent_expiry d i : toTradeIntent d = inr i ->
  recentBlockhash i = dr_recentBlockhash d /\ lastValidBlockHeight i = dr_lastValidBlockHeight d.
Proof. unfold toTradeIntent. repeat (case_match; [done|]). by intros [= <-]. Qed.

(** A build that offered nothing and whose intent is as checked. *)
Definition built_as (chk : TradeIntent -> pump_history -> Prop) (r : string + (Delegation + BuiltIntent)) (h : pump_history) :
    Prop :=
  match r with
  | inr o => nothing_offered h /\ match o with inr b => chk (bi_intent b) h | inl _ => True end
  | inl _ => True
  end.

Section Runs.
Context (P : TradeIntent -> ExecuteOptions -> pump_history -> Prop).

#[local] Abbreviation runs p Q h := (ensures (E := peff) (offer_pre P) (fun _ _ _ => True) record_event p Q h).

Lemma read_curve_mono mnt c h h' : h ⊆ h' -> read_curve mnt c h -> read_curve mnt c h'.
Proof. intros Hsub (m & l & acc & gacc & Hm & Hin & Hr). exists m, l, acc, gacc. split; [done|]. split; [by apply Hsub|done]. Qed.

Lemma read_curve_more mnt c h ev : read_curve mnt c h -> read_curve mnt c (ev :: h).
Proof. apply read_curve_mono. intros x Hx. by right. Qed.

Lemma loadCurve_runs mnt Q h : nothing_offered h ->
  (forall e h', Q (inl e) h') -> (forall rt h', nothing_offered h' -> Q (inr (None, rt)) h') ->
  (forall c h', nothing_offered h' -> read_curve mnt c h' -> Q (inr (Some c, routeForCurve c)) h') ->
  runs (loadCurve deps mnt) Q h.
Proof.
  intros Hn He H1 H2. unfold loadCurve, readCurve. apply ensures_bind, ensures_bind, ensures_raise.
  destruct (key_of_text mnt) as [e|mk] eqn:Hmk; [apply He|]. cbn. split; [done|]. intros [e|accounts] _; cbn; [apply He|].
  destruct (accounts !! 0%nat) as [[acc|]|] eqn:E0; cbn; [|by apply H1; constructor..].
  destruct (accounts !! 1%nat) as [[g|]|] eqn:E1; cbn; try apply He.
  apply ensures_bind, ensures_raise. destruct (curve_state _ _ _ _ _ _) as [e|c] eqn:Ec; cbn; [apply He|].
  apply H2; [by constructor|]. apply curve_state_raw in Ec. exists mk, accounts, acc, g.
  split; [done|]. split; [by left|]. split; [done|]. split; [done|]. exact Ec.
Qed.

Lemma readRugHeat_runs mnt Q h : nothing_offered h ->
  (forall e h', Q (inl e) h') ->
  (forall heat h', nothing_offered h' -> h ⊆ h' ->
     (forall x, heat = Some x -> Event (RugHeatScore mnt) (inr x) ∈ h') -> Q (inr heat) h') ->
  runs (readRugHeat deps mnt) Q h.
Proof.
  intros Hn He Hq. unfold readRugHeat. destruct (pd_signals deps); [|by apply Hq].
  apply ensures_catch. cbn. split; [done|]. intros [e|score] _; cbn; apply Hq; try (by constructor); try (intros x Hx; by right).
  intros x [= <-]. by left.
Qed.

(** The pure end of a buy: the quote, the transaction and the intent. *)
Lemma buy_built cfg c h budget info heat q bh lv cx payer ix b i :
  nothing_offered h -> read_curve (by_mint cfg) c h -> routeForCurve c = (bonding_curve, None) ->
  toBaseUnits_number (by_amountUi cfg) SOL_DECIMALS = Some budget ->
  guardCurveBuy (pd_guards deps)
    {| ct_input := {| mint := WSOL_MINT; amount := budget; decimals := SOL_DECIMALS |};
       ct_slippageBps := js_num (slippage_or_default (by_slippageBps cfg));
       ct_curve := {| PoolGuards.realSolReserves := Some (Curve.realSolReserves (reserves_of c));
                      PoolGuards.complete := Curve.complete (reserves_of c) |};
       ct_mints := [info]; ct_rugHeat := heat |} = None ->
  quoteBuyForSolBudget (reserves_of c) budget (cs_feeBps c) (js_num (slippage_or_default (by_slippageBps cfg))) = inr q ->
  ixContext c ownerWallet (seed_of c) = inr cx -> key_of_text ownerWallet = inr payer ->
  buildBuyInstruction cx (bq_tokenAmount q) (bq_maxSolCostLamports q) None = inr ix ->
  buildUnsignedTx payer [ensureUserAtaInstruction cx; ix] bh (priorityFee deps) None = inr b ->
  toTradeIntent (buy_draft cfg c q (slippage_or_default (by_slippageBps cfg)) b lv) = inr i ->
  Event GetLatestBlockhash (inr (bh, lv)) ∈ h ->
  (forall x, info = Some x -> Event (GetMintInfo (by_mint cfg)) (inr x) ∈ h) ->
  (forall x, heat = Some x -> Event (RugHeatScore (by_mint cfg)) (inr x) ∈ h) ->
  buy_checked cfg i h.
Proof.
  intros Hn Hread Hroute Hbudget Hguard Hq Hcx Hpayer Hix Hb Hi Hbh Hinfo Hheat.
  apply route_live in Hroute as (Hlive & Hpaired & Hmayhem & Hcashback).
  apply curve_buy_pass in Hguard as (Hm & (score & Hs & Hscore) & (r & [= <-] & Hr) & Hneg & Hmax & Hpos & Hcap). cbn in *.
  pose proof (buildUnsignedTx_inr _ _ _ _ _ _ Hb) as (_ & _ & _ & _ & _ & _ & _ & _ & Hbhash).
  pose proof (toTradeIntent_expiry _ _ Hi) as [Hrb Hlv]. cbn in Hrb, Hlv. rewrite Hbhash in Hrb.
  apply num_lt_js in Hneg. apply toTradeIntent_inr in Hi as (K1 & K2 & K3 & K4 & K5 & K6 & K7 & K8 & _). cbn in *.
  pose proof (buy_amounts _ _ _ _ _ Hq) as (_ & _ & _ & _ & _ & Htotal & _).
  apply Forall_cons in Hm as [Hm _]. split.
  - exists c, budget, q. cbv zeta. rewrite K2, K6, K7, K8, Hrb, Hlv.
    pose proof Hread as (_ & _ & _ & _ & _ & _ & _ & _ & _ & _ & _ & _ & Hcr & Hmy & Hcb & Hsol).
    split_and!; try done; [congruence|congruence|congruence|by apply Hcap|by eapply max_cost_bound|by eapply buy_transaction].
  - pose proof Hm as (x & Hx & _). exists x. split; [by apply Hinfo|]. by rewrite <- Hx.
  - exists score. split; [by apply Hheat|done].
  - done.
  - rewrite K1, K2, K3, K5. done.
Qed.

Lemma buy_on_curve_runs cfg c budget info h :
  nothing_offered h -> read_curve (by_mint cfg) c h -> routeForCurve c = (bonding_curve, None) ->
  toBaseUnits_number (by_amountUi cfg) SOL_DECIMALS = Some budget ->
  (forall x, info = Some x -> Event (GetMintInfo (by_mint cfg)) (inr x) ∈ h) ->
  runs (buy_on_curve deps ownerWallet cfg c budget (slippage_or_default (by_slippageBps cfg)) info)
    (built_as (buy_checked cfg)) h.
Proof.
  intros Hn Hc Hroute Hbudget Hinfo. unfold buy_on_curve. apply ensures_bind, readRugHeat_runs; [done|done|].
  intros heat h' Hn' Hsub Hheat. destruct (guardCurveBuy _ _) eqn:Hguard; [by cbn|]. cbn [throw_refusal bind].
  apply ensures_bind, ensures_raise. destruct (quoteBuyForSolBudget _ _ _ _) as [e|q] eqn:Hq; [done|].
  cbn. split; [done|]. intros [e|[bh lv]] _; [by cbn|]. cbn.
  apply ensures_bind, ensures_raise. destruct (ixContext _ _ _) as [e|cx] eqn:Hcx; [done|].
  apply ensures_bind, ensures_raise. destruct (key_of_text ownerWallet) as [e|payer] eqn:Hpayer; [done|].
  apply ensures_bind, ensures_raise. destruct (buildBuyInstruction _ _ _ _) as [e|ix] eqn:Hix; [done|].
  apply ensures_bind, ensures_raise. destruct (buildUnsignedTx _ _ _ _ _) as [e|b] eqn:Hb; [done|].
  unfold intent_of. destruct (toTradeIntent _) as [e|i] eqn:Hi; [by cbn|]. cbn. split; [by constructor|].
  eapply (buy_built cfg c); try done; [by constructor| |by left|intros x Hx; right; by apply Hsub, Hinfo|intros x Hx; right; by apply Hheat].
  by apply read_curve_more, (read_curve_mono _ _ _ _ Hsub).
Qed.

Lemma build_buy_runs cfg h : nothing_offered h -> runs (build_buy deps ownerWallet cfg) (built_as (buy_checked cfg)) h.
Proof.
  intros Hn. unfold build_buy. apply ensures_bind. apply loadCurve_runs; [done|done|by cbn|].
  intros c h1 Hn1 Hc. cbn [fst snd]. destruct (routeForCurve c) as [[|] ref] eqn:Hroute; cbn [fst snd]; [|by cbn].
  destruct ref as [code|]; [by cbn|]. cbn [throw_refusal bind].
  destruct (toBaseUnits_number _ _) as [budget|] eqn:Hbudget; [|by cbn].
  apply ensures_bind, ensures_catch. cbn. split; [done|].
  intros [e|x] _; cbn; apply buy_on_curve_runs; try done; try (by constructor); try (by apply read_curve_more).
  intros x' [= <-]. by left.
Qed.

Lemma submit_runs chk key confirmed build h :
  runs build (built_as chk) h ->
  (forall i h', nothing_offered h' -> chk i h' -> P i (key_options key (default false confirmed)) h') ->
  runs (let* out := build in submit out key confirmed) (fun _ _ => True) h.
Proof.
  intros Hb HP. apply ensures_bind. eapply ensures_mono; [exact Hb|]. intros [e|[d|b]] h'; cbn; [done|done|].
  intros [Hn Hc]. split; [|done]. by apply HP.
Qed.
End Runs.

(** C38: an intent `pumpfun_buy` offers the gateway, whatever its environment answers, is
    the only one of its run and follows from what the run read: the account at the
    bonding-curve address of the configured mint decodes to a live, SOL-paired curve above
    the liquidity floor that is neither in mayhem mode nor a cashback coin, the mint has no
    live authorities unless the operator listed it, the rug heat is below the limit and the
    slippage within bounds.  The amounts are the quote of that curve for the budget, within
    the cap per action, at the fee rate that the fee account (its tier for the market
    capitalisation, or its flat row), the global account or the documented fallback
    charges.  The input leg is the `max_sol_cost` of the quote, at least the quoted total
    and above the budget by the slippage at most; both outputs are its tokens.  The
    unsigned transaction, on a blockhash read in this run, carries exactly these two amounts in
    an instruction of the pump program whose accounts are those of the mint, of its curve's
    creator and of a listed fee recipient, after the creation of the owner's token account
    for that mint.  Without the user's confirmation the gateway then simulates, reserves,
    signs and broadcasts nothing. *)
Theorem curve_buys_checked cfg key confirmed l1 i o r l2 p :
  traces (buy_execute deps ownerWallet cfg key confirmed) (l1 ++ Event (Execute i o) r :: l2) p ->
  buy_checked cfg i (rev l1) /\ nothing_offered l1 /\ o = key_options key (default false confirmed) /\
  (confirmed <> Some true -> forall d, only harmless (TradeGateway.execute d i o)).
Proof.
  intros Ht.
  assert (follows (offer_pre (fun i o h => buy_checked cfg i h /\ nothing_offered h /\ o = key_options key (default false confirmed)))
    (fun _ _ _ => True) record_event (buy_execute deps ownerWallet cfg key confirmed) []) as Hf.
  { eapply ensures_follows, (submit_runs _ (buy_checked cfg)); [by apply build_buy_runs, Forall_nil|]. by intros i' h' Hn Hc. }
  destruct (history_allowed _ _ _ _ _ _ Hf Ht) as (Hc & Hn & ->). split; [done|]. split.
  { apply Forall_rev in Hn. by rewrite rev_involutive in Hn. }
  split; [done|]. intros Hno d. apply unpinned_harmless; [right; apply (bc_shape _ _ _ Hc)| |done].
  by destruct confirmed as [[|]|].
Qed.
(** *** Sells *)

(** The transaction sells exactly [tokens] for at least [least] lamports. *)
Definition sells_exactly (wire64 : string) (tokens least : Z) : Prop :=
  exists payer blockhash limit price ix wire,
    key_of_text ownerWallet = inr payer /\ compileV0 payer blockhash [limit; price; ix] = inr wire /\
    wire64 = base64 wire /\ ix_programId ix = PUMP_PROGRAM_ID /\
    (exists k, ix_keys ix !! 6%nat = Some (k, true, true) /\ key_of_text ownerWallet = inr k) /\
    read_le 8 8 (ix_data ix) = inr tokens /\ read_le 8 16 (ix_data ix) = inr least /\
    take 8 (ix_data ix) = SELL_DISCRIMINATOR /\ length (ix_data ix) = 24%nat.

Record sell_checked (cfg : SellConfig) (i : TradeIntent) (h : pump_history) : Prop := {
  sc_curve : exists c q, read_curve (sl_mint cfg) c h /\ Curve.complete (reserves_of c) = false /\ isSolPaired (cs_raw c) = true /\
    quoteSell (reserves_of c) (amount (input i)) (cs_feeBps c) (js_num (slippage_or_default (sl_slippageBps cfg))) = inr q /\
    outAmount (Contracts.quote i) = sq_netSolLamports q /\ minOutAmount (Contracts.quote i) = sq_minSolOutputLamports q /\
    sells_exactly (unsignedTxBase64 i) (amount (input i)) (sq_minSolOutputLamports q);
  sc_held : exists held, Event (GetTokenBalance ownerWallet (sl_mint cfg)) (inr held) ∈ h /\
    0 < amount (input i) <= held /\ (sl_amountUi cfg = None -> amount (input i) = share held (sl_percent cfg));
  sc_slippage : num_gt (js_num (slippage_or_default (sl_slippageBps cfg))) (maxCurveSlippageBps (pd_guards deps)) = false;
  sc_shape : Contracts.kind i = "curve_sell" /\ mint (input i) = sl_mint cfg /\ out_mint (output i) = WSOL_MINT /\
    Contracts.inputProvenance i = untrusted
}.

Lemma sell_transaction cx payer ix bh fee b tokens least seed c :
  ixContext c ownerWallet seed = inr cx -> key_of_text ownerWallet = inr payer ->
  buildSellInstruction cx tokens least = inr ix -> buildUnsignedTx payer [ix] bh fee None = inr b ->
  sells_exactly (bt_unsignedTxBase64 b) tokens least.
Proof.
  intros (Hu & Hp & _)%ixContext_inr Hk Hix (limit & price & micro & wire & Hw & Hb & _)%buildUnsignedTx_inr.
  unfold buildSellInstruction in Hix. open_result Hix. injection Hix as <-.
  apply write_u64_spec in Ha as [Ht ->]. apply write_u64_spec in Ha0 as [Hc ->].
  destruct (read_data SELL_DISCRIMINATOR tokens least [] eq_refl Ht Hc) as (H1 & H2 & H3 & H4). rewrite app_nil_r in *.
  unfold sells_exactly. do 6 eexists. split_and!; [done|exact Hw|done| |exists (cx_user cx); split; [done|done]|done..].
  cbn. by rewrite Hp.
Qed.

Section SellRuns.
Context (P : TradeIntent -> ExecuteOptions -> pump_history -> Prop).

#[local] Abbreviation runs p Q h := (ensures (E := peff) (offer_pre P) (fun _ _ _ => True) record_event p Q h).

Lemma sell_on_curve_runs cfg c held tokens h :
  nothing_offered h -> read_curve (sl_mint cfg) c h -> routeForCurve c = (bonding_curve, None) ->
  (0 < tokens <= held -> Event (GetTokenBalance ownerWallet (sl_mint cfg)) (inr held) ∈ h) ->
  (sl_amountUi cfg = None -> tokens = share held (sl_percent cfg)) ->
  runs (sell_on_curve deps ownerWallet cfg c held tokens (slippage_or_default (sl_slippageBps cfg)))
    (built_as (sell_checked cfg)) h.
Proof.
  intros Hn Hc Hroute Hheld Hshare. apply route_live in Hroute as (Hlive & Hpaired & _). unfold sell_on_curve.
  destruct (Z.leb_spec tokens 0); [by cbn|]. destruct (Z.ltb_spec held tokens); [by cbn|]. cbn [bind].
  destruct (guardCurveSell _ _ _ _) eqn:Hguard; [by cbn|]. cbn [throw_refusal bind].
  apply ensures_bind, ensures_raise. destruct (quoteSell _ _ _ _) as [e|q] eqn:Hq; [done|].
  cbn. split; [done|]. intros [e|[bh lv]] _; [by cbn|]. cbn.
  apply ensures_bind, ensures_raise. destruct (ixContext _ _ _) as [e|cx] eqn:Hcx; [done|].
  apply ensures_bind, ensures_raise. destruct (key_of_text ownerWallet) as [e|payer] eqn:Hpayer; [done|].
  apply ensures_bind, ensures_raise. destruct (buildSellInstruction _ _ _) as [e|ix] eqn:Hix; [done|].
  apply ensures_bind, ensures_raise. destruct (buildUnsignedTx _ _ _ _ _) as [e|b] eqn:Hb; [done|].
  unfold intent_of. destruct (toTradeIntent _) as [e|i] eqn:Hi; [by cbn|]. cbn. split; [by constructor|].
  apply toTradeIntent_inr in Hi as (K1 & K2 & K3 & K4 & K5 & K6 & K7 & K8 & _). cbn in *. split.
  - exists c, q. rewrite K2, K6, K7, K8. cbn.
    pose proof Hc as (_ & _ & _ & _ & _ & _ & _ & _ & _ & _ & _ & _ & _ & _ & _ & Hsol).
    split_and!; try done; [by apply read_curve_more|congruence|by eapply sell_transaction].
  - exists held. rewrite K2. cbn. split; [right; by apply Hheld|]. split; [lia|done].
  - unfold guardCurveSell in Hguard. rewrite Hlive, first_None, Forall_cons in Hguard. destruct Hguard as [Hs _].
    unfold guardCurveSlippage in Hs. destruct (_ || _); [done|]. by destruct (num_gt _ _).
  - rewrite K1, K2, K3, K4. done.
Qed.

Lemma build_sell_runs cfg h : nothing_offered h -> runs (build_sell deps ownerWallet cfg) (built_as (sell_checked cfg)) h.
Proof.
  intros Hn. unfold build_sell. apply ensures_bind. apply loadCurve_runs; [done|done| |].
  - intros rt h1 Hn1. apply ensures_bind, ensures_catch. cbn. split; [done|]. intros [e|held] _; cbn; split; try done; by constructor.
  - intros c h1 Hn1 Hc. apply ensures_bind, ensures_catch. cbn. split; [done|].
    assert (forall held rv, (0 < held -> rv = inr held) ->
      let h2 := record_event _ (GetTokenBalance ownerWallet (sl_mint cfg)) rv h1 in
      routeForCurve c = (bonding_curve, None) -> forall tokens,
      (sl_amountUi cfg = None -> tokens = share held (sl_percent cfg)) ->
      runs (sell_on_curve deps ownerWallet cfg c held tokens (slippage_or_default (sl_slippageBps cfg)))
        (built_as (sell_checked cfg)) h2) as Hend.
    { intros held rv Hrv h2 Hroute tokens Hs. apply sell_on_curve_runs; [by constructor|by apply read_curve_more|done| |done].
      intros Hb. subst h2. rewrite Hrv by lia. by left. }
    intros rv _.
    assert (forall held, (0 < held -> rv = inr held) ->
      runs (match (routeForCurve c).1 with
            | jupiter => Ret (inl {| dg_inputMint := sl_mint cfg; dg_outputMint := WSOL_MINT;
                dg_amountUi := default (fromBaseUnits (share held (sl_percent cfg)) (cs_tokenDecimals c)) (sl_amountUi cfg);
                dg_slippageBps := sl_slippageBps cfg |})
            | bonding_curve => throw_refusal (routeForCurve c).2 ;;
                let* tokens := match sl_amountUi cfg with
                          | Some a => match toBaseUnits_number a (Z.to_nat (cs_tokenDecimals c)) with
                                      | Some n => Ret n | None => Throw "RangeError" end
                          | None => Ret (share held (sl_percent cfg)) end in
                sell_on_curve deps ownerWallet cfg c held tokens (default DEFAULT_CURVE_SLIPPAGE_BPS (sl_slippageBps cfg))
            end) (built_as (sell_checked cfg)) (record_event _ (GetTokenBalance ownerWallet (sl_mint cfg)) rv h1)) as Hall.
    { intros held Hrv. destruct (routeForCurve c) as [[|] [code|]] eqn:Hroute; cbn [fst snd]; try by cbn.
      - cbn [throw_refusal bind]. destruct (sl_amountUi cfg) as [a|] eqn:Ha.
        + destruct (toBaseUnits_number _ _) as [n|]; [|by cbn]. cbn [bind]. by apply (Hend held rv Hrv eq_refl); rewrite ?Ha.
        + cbn [bind]. by apply (Hend held rv Hrv eq_refl).
      - cbn. split; [by constructor|done].
      - cbn. split; [by constructor|done]. }
    destruct rv as [e|held]; cbn; apply Hall; [lia|done].
Qed.
End SellRuns.

(** The same of `pumpfun_sell`: what is offered is held by the wallet, the share asked for
    when no amount was given, for the proceeds of a quote on the curve read in this run,
    and the transaction carries the amount and the minimum of that quote. *)
Theorem curve_sells_checked cfg key confirmed l1 i o r l2 p :
  traces (sell_execute deps ownerWallet cfg key confirmed) (l1 ++ Event (Execute i o) r :: l2) p ->
  sell_checked cfg i (rev l1) /\ nothing_offered l1 /\ o = key_options key (default false confirmed) /\
  (confirmed <> Some true -> forall d, only harmless (TradeGateway.execute d i o)).
Proof.
  intros Ht.
  assert (follows (offer_pre (fun i o h => sell_checked cfg i h /\ nothing_offered h /\ o = key_options key (default false confirmed)))
    (fun _ _ _ => True) record_event (sell_execute deps ownerWallet cfg key confirmed) []) as Hf.
  { eapply ensures_follows, (submit_runs _ (sell_checked cfg)); [by apply build_sell_runs, Forall_nil|]. by intros i' h' Hn Hc. }
  destruct (history_allowed _ _ _ _ _ _ Hf Ht) as (Hc & Hn & ->). split; [done|]. split.
  { apply Forall_rev in Hn. by rewrite rev_involutive in Hn. }
  split; [done|]. intros Hno d. apply unpinned_harmless; [left; apply (sc_shape _ _ _ Hc)| |done].
  by destruct confirmed as [[|]|].
Qed.
End Buys.

(** *** Witness and findings *)

#[local] Existing Instance demo_web3.

#[local] Instance demo_builder : TxBuilder := {|
  systemProgram := []; setComputeUnitLimit := fun _ => inr {| ix_programId := []; ix_keys := []; ix_data := [2] |};
  setComputeUnitPrice := fun _ => inr {| ix_programId := []; ix_keys := []; ix_data := [3] |};
  compileV0 := fun _ _ ixs => inr (List.concat (map ix_data ixs)) |}.

Definition demo_reserves : CurveReserves :=
  {| virtualSolReserves := 40000000000; virtualTokenReserves := 804750000000000; Curve.realSolReserves := 10000000000;
     realTokenReserves := 524850000000000; tokenTotalSupply := 1000000000000000; Curve.complete := false |}.

Definition demo_curve_account : AccountSnapshot :=
  {| ac_owner := "pump"; ac_data := curve_bytes demo_reserves (replicate 32 65) (replicate 32 0) false false |}.

Definition demo_global_account : AccountSnapshot :=
  {| ac_owner := "pump"; ac_data := GLOBAL_DISCRIMINATOR ++ [1] ++ replicate 64 66 ++ le_bytes 8 1073000000000000 ++
       le_bytes 8 30000000000 ++ le_bytes 8 793100000000000 ++ le_bytes 8 1000000000000000 ++ le_bytes 8 100 |}.

Definition demo_mint_account : AccountSnapshot := {| ac_owner := "TokenkegQfeZyiNwAJbNbGKPFXCWuBvf9Ss623VQ5DA"; ac_data := replicate 82 6 |}.

Definition demo_pump_answers (R : Type) (e : peff R) (u : unit) : R * unit :=
  (match e in peff R return R with
   | GetMultipleAccounts _ => inr [Some demo_curve_account; Some demo_global_account; None; Some demo_mint_account]
   | GetLatestBlockhash => inr ("hash", 9)
   | GetTokenBalance _ _ => inr 5000000
   | GetMintInfo m => inr {| info_mint := m; info_decimals := 6%nat; programId := "token"; isToken2022 := false;
                             freezeAuthority := None; mintAuthority := None |}
   | RugHeatScore _ => inr (js_num 20)
   | Execute _ _ => duplicate_result "trade" None
   end, u).

Definition demo_deps : PoolsDeps :=
  {| pd_client := {| co_programId := None; co_feeProgramId := None |}; pd_guards := defaultPoolGuardConfig; pd_signals := true;
     pd_priorityFeeLamports := None |}.

Definition demo_mint : string := "MintMintMintMintMintMintMintMint".

Definition demo_buy_config : BuyConfig := {| by_mint := demo_mint; by_amountUi := Finite (1 # 2); by_slippageBps := Some 300 |}.

Definition demo_buy_trace : list (Prog.event peff) :=
  run_trace demo_pump_answers (buy_execute demo_deps "owner" demo_buy_config "key" None) tt.

(** The intents offered in a trace. *)
Definition offers_of (l : list (Prog.event peff)) : list TradeIntent :=
  List.concat (map (fun ev => match ev with Event e _ => match e with Execute i _ => [i] | _ => [] end end) l).

(** The intent of the run. *)
Definition demo_intent : TradeIntent :=
  match (run demo_pump_answers (build_buy demo_deps "owner" demo_buy_config) tt).1 with
  | inr (inr b) => bi_intent b
  | _ => {| kind := ""; source := ""; input := {| mint := ""; amount := 0; decimals := 0 |};
            output := {| out_mint := ""; out_decimals := 0 |}; inputProvenance := user; outputProvenance := user;
            unsignedTxBase64 := ""; recentBlockhash := ""; lastValidBlockHeight := 0; landMode := self_rpc; landHandle := None;
            priorityFeeLamports := js_num 0;
            Contracts.quote := {| inAmount := 0; outAmount := 0; minOutAmount := 0; priceImpactPct := js_num 0; routeLabel := "";
              slippage_bps := 0; contextSlot := None |}; perp := None; summary := "" |}
  end.

Lemma curve_buys_checked_witness :
  exists l1 r, demo_buy_trace = l1 ++ [Event (Execute demo_intent (key_options "key" false)) r] /\
    buy_checked demo_deps "owner" demo_buy_config demo_intent (rev l1) /\ amount (input demo_intent) = 514999998.
Proof.
  exists (take 4 demo_buy_trace), (duplicate_result "trade" None).
  split; [vm_compute; reflexivity|]. split; [|vm_compute; reflexivity].
  apply (curve_buys_checked demo_deps "owner" demo_buy_config "key" None (take 4 demo_buy_trace) demo_intent
    (key_options "key" false) (duplicate_result "trade" None) [] (finished (run demo_pump_answers (buy_execute demo_deps "owner" demo_buy_config "key" None) tt).1)).
  assert (take 4 demo_buy_trace ++ [Event (Execute demo_intent (key_options "key" false)) (duplicate_result "trade" None)] =
          demo_buy_trace) as -> by (vm_compute; reflexivity).
  apply (run_traces demo_pump_answers (buy_execute demo_deps "owner" demo_buy_config "key" None) tt).
Defined.

(** The budget is within the cap per action, and the intent spends more: its input leg is
    the budget with the slippage on top, which no guard of the tool looks at. *)
Lemma spend_above_cap :
  map (fun i => amount (input i)) (offers_of demo_buy_trace) = [514999998] /\
  maxSpendPerAction (pg_sol defaultPoolGuardConfig) = 500000000 /\ buySchema demo_buy_config = true.
Proof. by vm_compute. Qed.

(** The amount and the percentage of a sale are documented as mutually exclusive: the schema
    takes both, and the tool then ignores the percentage. *)
Lemma both_sizes_accepted :
  sellSchema {| sl_mint := demo_mint; sl_amountUi := Some (js_num 1); sl_percent := Some (js_num 50); sl_slippageBps := None |} = true.
Proof. by vm_compute. Qed.

(** A percentage below one half, which the schema takes, sells nothing of any holding. *)
Lemma small_percent_sells_nothing held : share held (Some (Finite (2 # 5))) = 0.
Proof. unfold share. cbn. by rewrite Z.mul_0_r. Qed.
