(* ===== verification/Venue.v ===== *)
(** Meteora DLMM as a venue (`src/pools/meteora/venue.ts`, the mapping of a pool in
    `real-sdk.ts`, `compileV0` of `sdk-port.ts`).

    The port to the SDK, the data API and the chain are effects: a pool handle is the
    state it was opened with.  Of the data API's answer only the rate is kept, and
    discovery (`listPools`), names, volumes and descriptions are left out. *)
From stdpp Require Import gmap.
From S2P Require Import Prelude Doubles Prog Money Contracts Bytes PumpCurve PoolGuards Bins Rebalance PumpTrades.
From Stdlib Require Import QArith Qround.
#[local] Open Scope string_scope.
#[local] Open Scope list_scope.
#[local] Open Scope Z_scope.
#[local] Open Scope prog_scope.

(** *** What the port speaks of *)

Record SdkPosition : Type := {
  sp_publicKey : string; sp_owner : string; sp_lowerBinId : Z; sp_upperBinId : Z; totalXAmount : Z; totalYAmount : Z;
  feeX : Z; feeY : Z
}.

Record SdkPoolState : Type := {
  sd_address : string; sd_binStep : Z; sd_activeBinId : Z; tokenXMint : string; tokenXDecimals : Z; tokenXProgramId : string;
  tokenYMint : string; tokenYDecimals : Z; tokenYProgramId : string; sd_baseFeeBps : number; reserveX : Z; reserveY : Z
}.

Record AddLiquidityArgs : Type := {
  al_owner : string; al_positionAddress : option string; al_lowerBinId : Z; al_upperBinId : Z; al_totalXAmount : Z;
  al_totalYAmount : Z; al_shape : LiquidityShape
}.

Record RemoveLiquidityArgs : Type := {
  rl_owner : string; rl_positionAddress : string; fromBinId : Z; toBinId : Z; rl_bpsToRemove : Z; claimAndClose : bool
}.

(** The base fee of a pool in basis points, as the mapping of a pool computes it. *)
Definition baseFeeBps_of (baseFactor binStep : number) : number :=
  if num_gt baseFactor (js_num 0) then num_div (num_mul baseFactor binStep) (js_num 100) else js_num 0.

(** *** What the venue speaks of *)

(** `PoolSummary`, in full but for what is only shown. *)
Record LpPool : Type := {
  lp_address : string; lp_baseMint : string; lp_baseDecimals : Z; lp_quoteMint : string; lp_quoteDecimals : Z;
  levelStepBps : Z; activeLevel : Z; activePrice : number; baseFeeBps : number; liquidityQuote : option Z;
  feeApr24hPct : option number; hasToken2022 : bool
}.

Record LpPosition : Type := {
  po_poolAddress : string; positionAddress : string; po_owner : string; po_baseDecimals : Z; po_quoteDecimals : Z;
  lowerLevel : Z; upperLevel : Z; po_baseAmount : Z; po_quoteAmount : Z; unclaimedFeeBase : Z; unclaimedFeeQuote : Z
}.

Record VenueTxDraft : Type := {
  vd_unsignedTxBase64 : string; vd_recentBlockhash : string; vd_lastValidBlockHeight : Z; vd_priorityFeeLamports : number;
  vd_extraSigners : list string
}.

Record OpenLiquidityRequest : Type := {
  or_poolAddress : string; or_owner : string; or_quoteAmount : Z; or_baseAmount : Z; or_lowerLevel : Z; or_upperLevel : Z;
  or_shape : LiquidityShape; or_priorityFeeLamports : number; or_positionAddress : option string
}.

Record RemoveLiquidityRequest : Type := {
  rr_poolAddress : string; rr_positionAddress : string; rr_owner : string; rr_bpsToRemove : Z; rr_claimFees : bool;
  rr_closePosition : bool; rr_priorityFeeLamports : number
}.

Definition TOKEN_2022 : string := "TokenzQdBNbLqP5VEhdkAS6EPFLC1PHnBqCXEpPxuEb".

Section Venue.
Context `{TxBuilder} (pow : number -> Z -> number) (hasApi : bool).

Record SdkTxParts : Type := { instructions : list (TransactionInstruction PublicKey); pt_extraSigners : list string }.

(** What the venue and the tools ask for. *)
Inductive veff : Type -> Type :=
  | OpenPool (address : string) : veff (string + SdkPoolState)%type
  | PositionsOf (pool : SdkPoolState) (owner : string) : veff (string + list SdkPosition)%type
  | PositionsOfUser (owner : string) : veff (string + list (string * SdkPosition))%type
  | BuildAddLiquidity (pool : SdkPoolState) (args : AddLiquidityArgs) : veff (string + SdkTxParts)%type
  | BuildRemoveLiquidity (pool : SdkPoolState) (args : RemoveLiquidityArgs) : veff (string + SdkTxParts)%type
  | BuildClaimFees (pool : SdkPoolState) (owner position : string) : veff (string + SdkTxParts)%type
  | ApiGetPool (address : string) : veff (string + option number)%type
  | LatestBlockhash : veff (string + (string * Z))%type
  | TokenBalance (owner mint : string) : veff (string + Z)%type
  | MintInfoOf (mint : string) : veff (string + MintInfo)%type
  | RugHeatOf (mint : string) : veff (string + number)%type
  | ReadNow : veff Z
  | LedgerHistory (position : string) (now : Z) : veff RebalanceHistory
  | LedgerRecord (position : string) (at_ : Z) : veff unit
  | SubmitIntent (intent : TradeIntent) (o : ExecuteOptions) : veff ExecuteResult.

Definition vtask : Type -> Type := prog veff string.

Definition vask {R} (e : veff (string + R)%type) : vtask R := let* r := trigger e in raise r.

(** A promise that is settled, not awaited for its value. *)
Definition settle {A} (p : vtask A) : vtask (string + A) := catch (let* x := p in Ret (inr x)) (fun e => Ret (inl e)).

(** `p.catch(() => null)` *)
Definition or_null {A} (p : vtask A) : vtask (option A) := catch (let* x := p in Ret (Some x)) (fun _ => Ret None).

(** *** Mapping *)

Definition summaryFromSdk (st : SdkPoolState) (apr : option number) : result LpPool :=
  (let? price := uiPriceOfBin pow (sd_activeBinId st) (sd_binStep st) (tokenXDecimals st) (tokenYDecimals st) in
   inr {| lp_address := sd_address st; lp_baseMint := tokenXMint st; lp_baseDecimals := tokenXDecimals st;
          lp_quoteMint := tokenYMint st; lp_quoteDecimals := tokenYDecimals st; levelStepBps := sd_binStep st;
          activeLevel := sd_activeBinId st; activePrice := price; baseFeeBps := sd_baseFeeBps st;
          liquidityQuote := Some (reserveY st); feeApr24hPct := apr;
          hasToken2022 := streq (tokenXProgramId st) TOKEN_2022 || streq (tokenYProgramId st) TOKEN_2022 |})%result.

Definition positionFromSdk (p : SdkPosition) (st : SdkPoolState) : LpPosition :=
  {| po_poolAddress := sd_address st; positionAddress := sp_publicKey p; po_owner := sp_owner p;
     po_baseDecimals := tokenXDecimals st; po_quoteDecimals := tokenYDecimals st; lowerLevel := sp_lowerBinId p;
     upperLevel := sp_upperBinId p; po_baseAmount := totalXAmount p; po_quoteAmount := totalYAmount p;
     unclaimedFeeBase := feeX p; unclaimedFeeQuote := feeY p |}.

(** *** Reads *)

Definition getPool (address : string) : vtask LpPool :=
  let* st := vask (OpenPool address) in
  let* api := if hasApi then or_null (vask (ApiGetPool address)) else Ret None in
  raise (summaryFromSdk st (default None api)).

Definition find_position (address : string) (l : list SdkPosition) : option SdkPosition :=
  List.find (fun p => streq (sp_publicKey p) address) l.

Definition getPosition (poolAddress position owner : string) : vtask (option LpPosition) :=
  let* st := vask (OpenPool poolAddress) in
  let* l := vask (PositionsOf st owner) in
  Ret ((fun p => positionFromSdk p st) <$> find_position position l).

(** The loop of `listPositions`: a pool is opened once. *)
Fixpoint list_all (l : list (string * SdkPosition)) (byPool : gmap string SdkPoolState) : vtask (list LpPosition) :=
  match l with
  | [] => Ret []
  | (pool, p) :: l' =>
      let* st := match byPool !! pool with Some st => Ret st | None => vask (OpenPool pool) end in
      let* rest := list_all l' (<[pool := st]> byPool) in
      Ret (positionFromSdk p st :: rest)
  end.

Definition listPositions (owner : string) (poolAddress : option string) : vtask (list LpPosition) :=
  match truthy poolAddress with
  | Some a =>
      let* st := vask (OpenPool a) in
      let* l := vask (PositionsOf st owner) in
      Ret (map (fun p => positionFromSdk p st) l)
  | None => let* l := vask (PositionsOfUser owner) in list_all l ∅
  end.

(** *** Builders *)

Definition cuLimit : number := js_num 600000.

(** `#draft`, with `compileV0` *)
Definition draft (parts : SdkTxParts) (payer : string) (priorityFeeLamports : number) : vtask VenueTxDraft :=
  let* '(blockhash, lastValidBlockHeight) := vask LatestBlockhash in
  let microLamports := num_floor (num_div (num_mul (num_max (js_num 0) priorityFeeLamports) (js_num 1000000)) cuLimit) in
  let* limit := raise (setComputeUnitLimit cuLimit) in
  let* price := raise (setComputeUnitPrice microLamports) in
  let* key := raise (key_of_text payer) in
  let* wire := raise (compileV0 key blockhash (limit :: price :: instructions parts)) in
  Ret {| vd_unsignedTxBase64 := base64 wire; vd_recentBlockhash := blockhash; vd_lastValidBlockHeight := lastValidBlockHeight;
         vd_priorityFeeLamports := num_floor (num_div (num_mul microLamports cuLimit) (js_num 1000000));
         vd_extraSigners := pt_extraSigners parts |}.

Definition add_args (r : OpenLiquidityRequest) : AddLiquidityArgs :=
  {| al_owner := or_owner r; al_positionAddress := truthy (or_positionAddress r); al_lowerBinId := or_lowerLevel r;
     al_upperBinId := or_upperLevel r; al_totalXAmount := or_baseAmount r; al_totalYAmount := or_quoteAmount r;
     al_shape := or_shape r |}.

Definition buildOpen (r : OpenLiquidityRequest) : vtask VenueTxDraft :=
  let* st := vask (OpenPool (or_poolAddress r)) in
  let* parts := vask (BuildAddLiquidity st (add_args r)) in
  draft parts (or_owner r) (or_priorityFeeLamports r).

Definition remove_args (r : RemoveLiquidityRequest) (target : SdkPosition) : RemoveLiquidityArgs :=
  {| rl_owner := rr_owner r; rl_positionAddress := rr_positionAddress r; fromBinId := sp_lowerBinId target;
     toBinId := sp_upperBinId target; rl_bpsToRemove := rr_bpsToRemove r;
     claimAndClose := rr_closePosition r && (rr_bpsToRemove r =? 10000) |}.

Definition buildRemove (r : RemoveLiquidityRequest) : vtask VenueTxDraft :=
  let* st := vask (OpenPool (rr_poolAddress r)) in
  let* l := vask (PositionsOf st (rr_owner r)) in
  match find_position (rr_positionAddress r) l with
  | None => Throw (code_name G_VENUE_ERROR)
  | Some target =>
      if (rr_bpsToRemove r <=? 0) || (10000 <? rr_bpsToRemove r) then Throw (code_name G_RANGE_INVALID)
      else
        let* parts := vask (BuildRemoveLiquidity st (remove_args r target)) in
        draft parts (rr_owner r) (rr_priorityFeeLamports r)
  end.

Definition buildClaimFees (poolAddress position owner : string) (priorityFeeLamports : number) : vtask VenueTxDraft :=
  let* st := vask (OpenPool poolAddress) in
  let* parts := vask (BuildClaimFees st owner position) in
  draft parts owner priorityFeeLamports.
End Venue.

Arguments veff {_}.
Arguments vtask {_}.
Arguments SdkTxParts {_}.

(** A pool of the base factor 10000 and steps of 25 takes 10000 * 25 * 10 / 10^9, a quarter
    of a percent; the mapping calls it 2500 basis points. *)
Lemma base_fee_hundredfold : baseFeeBps_of (js_num 10000) (js_num 25) = js_num 2500.
Proof. vm_compute. reflexivity. Qed.
