(* ===== verification/LpTools.v ===== *)
(** The liquidity tools `pools_open`, `pools_close` and `pools_rebalance`
    (`src/pools/tools/pools.ts`) over the venue of [Venue], and what they hand to the
    trade gateway.

    Promises that run together are settled one after the other and then awaited in the
    order of the source, so every one is asked for whichever fails.  Summaries, warnings
    and the read-only tools are left out. *)
From S2P Require Import Prelude Doubles Prog Money Contracts TradeGateway Bytes PumpCurve PoolGuards Bins Rebalance PumpTrades StrategyExec PumpSafety Venue.
From Stdlib Require Import QArith Qround.
#[local] Open Scope string_scope.
#[local] Open Scope list_scope.
#[local] Open Scope Z_scope.
#[local] Open Scope prog_scope.

Record LpDeps : Type := {
  ld_guards : PoolGuardConfig; ld_rebalancePolicy : RebalancePolicy; ld_signals : bool;
  ld_priorityFeeLamports : option number
}.

Record OpenConfig : Type := {
  op_poolAddress : string; op_quoteAmountUi : number; op_baseAmountUi : option number; op_belowBins : option Z;
  op_aboveBins : option Z; op_shape : option LiquidityShape; op_positionAddress : option string
}.

Definition up_to (m : Z) (o : option Z) : bool := match o with Some n => (0 <=? n) && (n <=? m) | None => true end.

Definition address_ok (o : option string) : bool := match o with Some s => (32 <=? String.length s)%nat | None => true end.

Definition openSchema (c : OpenConfig) : bool :=
  address_ok (Some (op_poolAddress c)) && num_gt (op_quoteAmountUi c) (js_num 0) &&
  match op_baseAmountUi c with Some a => num_le (js_num 0) a | None => true end &&
  up_to 69 (op_belowBins c) && up_to 69 (op_aboveBins c) && address_ok (op_positionAddress c).

Record CloseConfig : Type := {
  cl_poolAddress : string; cl_positionAddress : string; cl_bpsToRemove : option Z; cl_claimFees : option bool;
  cl_closePosition : option bool
}.

Definition closeSchema (c : CloseConfig) : bool :=
  address_ok (Some (cl_poolAddress c)) && address_ok (Some (cl_positionAddress c)) &&
  match cl_bpsToRemove c with Some b => (0 <? b) && (b <=? 10000) | None => true end.

Record RebalanceConfig : Type := {
  rb_poolAddress : string; rb_positionAddress : string; rb_dryRun : option bool; rb_entryPrice : option number
}.

Definition rebalanceSchema (c : RebalanceConfig) : bool :=
  address_ok (Some (rb_poolAddress c)) && address_ok (Some (rb_positionAddress c)) &&
  match rb_entryPrice c with Some p => num_gt p (js_num 0) | None => true end.

(** `BigInt(x)`, which refuses what is no integer. *)
Definition big_int (x : number) : Prelude.result Z :=
  match x with Finite q => if num_isInteger x then inr (Qfloor q) else inl "RangeError" | _ => inl "RangeError" end.

(** A number that counts as true. *)
Definition truthy_number (o : option number) : option number :=
  match o with Some (Finite q) => if is_zero q then None else o | Some NaN => None | _ => o end.

(** `rangeAroundActive` with the span of a configuration: of a fraction the whole part
    counts, and against NaN nothing is shrunk. *)
Definition range_around (active below above : Z) (maxSpan : number) : Prelude.result BinRange :=
  match maxSpan with
  | Finite q => rangeAroundActive active below above (Qfloor q)
  | Infinite false => rangeAroundActive active below above MAX_BIN_PER_POSITION
  | Infinite true => rangeAroundActive active below above 1
  | NaN =>
      (let? _u := assertBinId active in
       check (below <? 0) || (above <? 0) else "below/above must be non-negative integers";
       inr {| lowerBinId := Z.max MIN_BIN_ID (active - below); upperBinId := Z.min MAX_BIN_ID (active + above) |})%result
  end.

Definition shape_text (s : LiquidityShape) : string := match s with spot => "spot" | curve => "curve" | bidask => "bid-ask" end.

(** The part of a pool the guards read. *)
Definition guard_pool (p : LpPool) : PoolSummary :=
  {| ps_quoteMint := lp_quoteMint p; ps_activeLevel := js_num (activeLevel p); ps_liquidityQuote := liquidityQuote p |}.

(** *** Money *)

Definition priority_fee (deps : LpDeps) : number := default (js_num 200000) (ld_priorityFeeLamports deps).

Definition quoteCostOfLamports (pow : number -> Z -> number) (lamports : Z) (pool : LpPool) : Prelude.result Z :=
  if lp_quoteDecimals pool =? 9 then inr lamports
  else
    let scale := pow (js_num 10) (Z.max 0 (9 - lp_quoteDecimals pool)) in
    (let? n := big_int (match scale with Finite q => if is_zero q then js_num 1 else scale | _ => scale end) in
     check n =? 0 else "RangeError";
     inr (Z.quot lamports n))%result.

Definition baseValuedInQuote (pow : number -> Z -> number) (p : LpPosition) (uiPrice : number) : Z :=
  if po_baseAmount p <=? 0 then 0
  else if negb (isFinite uiPrice) || num_le uiPrice (js_num 0) then 0
  else
    let value := num_mul (num_mul (num_div (num_of_bigint (po_baseAmount p)) (pow (js_num 10) (po_baseDecimals p))) uiPrice)
                   (pow (js_num 10) (po_quoteDecimals p)) in
    if negb (isFinite value) || num_lt value (js_num 0) then 0
    else match num_round value with Finite q => Qfloor q | _ => 0 end.

(** The projection of fees: the rate is a percentage of the notional. *)
Definition fees_per_day (notional : Z) (apr : option number) : Prelude.result (option Z) :=
  match apr with
  | Some a =>
      if isFinite a && num_le (js_num 0) a
      then (let? r := to_bigint (num_round (num_mul a (js_num 1000000))) in inr (Some (Z.quot (notional * r) 100000000)))%result
      else inr None
  | None => inr None
  end.

Inductive LpOutcome : Type :=
  | Shown
  | Answered (isError : bool) (r : ExecuteResult).

Definition refused (r : ExecuteResult) : bool :=
  match res_error r with Some _ => negb (bool_decide (res_state r = confirmed)) | None => false end.

Section Tools.
Context `{TxBuilder} (pow : number -> Z -> number) (hasApi : bool) (deps : LpDeps) (ownerWallet : string).

Definition throw_code (r : option PoolGuardCode) : vtask unit := match r with Some c => Throw (code_name c) | None => Ret tt end.

Definition to_base (x : number) (decimals : Z) : vtask Z :=
  match toBaseUnits_number x (Z.to_nat decimals) with Some n => Ret n | None => Throw "RangeError" end.

Definition lp_intent (d : IntentDraft) : vtask TradeIntent :=
  match toTradeIntent d with inl c => Throw (code_name c) | inr i => Ret i end.

Definition read_heat (mint : string) : vtask (option number) :=
  if ld_signals deps then or_null (vask (RugHeatOf mint)) else Ret None.

Definition gateway_execute (i : TradeIntent) (key : string) (confirmedByUser : option bool) : vtask ExecuteResult :=
  trigger (SubmitIntent i {| idempotencyKey := key; dryRun := false; confirmedByUser := default false confirmedByUser |}).

(** *** `pools_open` *)

Definition open_request (cfg : OpenConfig) (quoteAmount baseAmount : Z) (range : BinRange) : OpenLiquidityRequest :=
  {| or_poolAddress := op_poolAddress cfg; or_owner := ownerWallet; or_quoteAmount := quoteAmount; or_baseAmount := baseAmount;
     or_lowerLevel := lowerBinId range; or_upperLevel := upperBinId range; or_shape := default spot (op_shape cfg);
     or_priorityFeeLamports := priority_fee deps; or_positionAddress := truthy (op_positionAddress cfg) |}.

Definition open_draft (cfg : OpenConfig) (pool : LpPool) (quoteAmount : Z) (d : VenueTxDraft) : IntentDraft :=
  {| dr_kind := match truthy (op_positionAddress cfg) with Some _ => "lp_add" | None => "lp_open" end;
     dr_source := "pools_open";
     dr_input := {| mint := lp_quoteMint pool; amount := quoteAmount; decimals := Z.to_nat (lp_quoteDecimals pool) |};
     dr_output := {| out_mint := lp_baseMint pool; out_decimals := Z.to_nat (lp_baseDecimals pool) |};
     dr_inputProvenance := None; dr_outputProvenance := Some untrusted;
     dr_unsignedTxBase64 := vd_unsignedTxBase64 d; dr_recentBlockhash := vd_recentBlockhash d;
     dr_lastValidBlockHeight := vd_lastValidBlockHeight d; dr_priorityFeeLamports := vd_priorityFeeLamports d;
     dr_summary := ""; expectedOut := 0; minOut := 0; dr_slippageBps := 0;
     dr_routeLabel := ("meteora-dlmm " ++ shape_text (default spot (op_shape cfg)))%string; dr_priceImpactPct := None |}.

(** What the guards judge. *)
Definition open_subject (cfg : OpenConfig) (pool : LpPool) (quoteAmount baseAmount : Z) (holdings : option Z)
    (mints : list (option MintInfo)) (heat : option number) (openPositions : list LpPosition) (existing : option LpPosition)
    (range : BinRange) : LpOpenSubject :=
  {| lo_sizing := {| ls_pool := guard_pool pool; addQuote := quoteAmount;
                     existingPositionQuote := match existing with Some p => po_quoteAmount p | None => 0 end;
                     openPositions := Z.of_nat (length openPositions);
                     isNewPosition := bool_decide (truthy (op_positionAddress cfg) = None) |};
     lo_input := {| mint := lp_quoteMint pool; amount := quoteAmount; decimals := Z.to_nat (lp_quoteDecimals pool) |};
     lo_baseAmount := baseAmount; lo_baseHoldings := holdings; lo_mints := mints; lo_rugHeat := heat;
     lo_lowerLevel := js_num (lowerBinId range); lo_upperLevel := js_num (upperBinId range) |}.

(** The end of `build`, once the subject is known. *)
Definition open_judged (cfg : OpenConfig) (pool : LpPool) (quoteAmount baseAmount : Z) (range : BinRange) (s : LpOpenSubject) :
    vtask TradeIntent :=
  let* refusal := raise (guardLpOpen (ld_guards deps) s) in
  throw_code refusal ;;
  let* d := buildOpen (open_request cfg quoteAmount baseAmount range) in
  throw_code (assertWalletSignableAlone (vd_extraSigners d)) ;;
  raise (assertBinStep (levelStepBps pool)) ;;
  lp_intent (open_draft cfg pool quoteAmount d).

(** `build` of `makePoolsOpenTool` *)
Definition build_open (cfg : OpenConfig) : vtask TradeIntent :=
  let* pool := getPool pow hasApi (op_poolAddress cfg) in
  let* quoteAmount := to_base (op_quoteAmountUi cfg) (lp_quoteDecimals pool) in
  let* baseAmount := match truthy_number (op_baseAmountUi cfg) with
                     | Some a => to_base a (lp_baseDecimals pool)
                     | None => Ret 0
                     end in
  let* range := raise (range_around (activeLevel pool) (default 10 (op_belowBins cfg)) (default 10 (op_aboveBins cfg))
                         (maxLevelSpan (ld_guards deps))) in
  let* baseMint := or_null (vask (MintInfoOf (lp_baseMint pool))) in
  let* quoteMint := or_null (vask (MintInfoOf (lp_quoteMint pool))) in
  let* listed := settle (listPositions ownerWallet None) in
  let* holdings := if 0 <? baseAmount then or_null (vask (TokenBalance ownerWallet (lp_baseMint pool))) else Ret (Some 0) in
  let* found := match truthy (op_positionAddress cfg) with
                | Some p => settle (getPosition (op_poolAddress cfg) p ownerWallet)
                | None => Ret (inr None)
                end in
  let* openPositions := raise listed in
  let* existing := raise found in
  let* heat := read_heat (lp_baseMint pool) in
  open_judged cfg pool quoteAmount baseAmount range
    (open_subject cfg pool quoteAmount baseAmount holdings [baseMint; quoteMint] heat openPositions existing range).

Definition open_execute (cfg : OpenConfig) (key : string) (confirmedByUser : option bool) : vtask LpOutcome :=
  let* i := build_open cfg in
  let* r := gateway_execute i key confirmedByUser in
  Ret (Answered (refused r) r).

(** *** `pools_close` *)

(** A position of this wallet, or an error. *)
Definition own_position (found : option LpPosition) : vtask LpPosition :=
  match found with
  | None => Throw (code_name G_VENUE_ERROR)
  | Some p => if streq (po_owner p) ownerWallet then Ret p else Throw (code_name G_VENUE_ERROR)
  end.

Definition exit_draft (kind source route : string) (pool : LpPool) (leg : TokenAmount) (d : VenueTxDraft) : IntentDraft :=
  {| dr_kind := kind; dr_source := source; dr_input := leg;
     dr_output := {| out_mint := lp_quoteMint pool; out_decimals := Z.to_nat (lp_quoteDecimals pool) |};
     dr_inputProvenance := None; dr_outputProvenance := Some untrusted;
     dr_unsignedTxBase64 := vd_unsignedTxBase64 d; dr_recentBlockhash := vd_recentBlockhash d;
     dr_lastValidBlockHeight := vd_lastValidBlockHeight d; dr_priorityFeeLamports := vd_priorityFeeLamports d;
     dr_summary := ""; expectedOut := 0; minOut := 0; dr_slippageBps := 0; dr_routeLabel := route; dr_priceImpactPct := None |}.

(** A withdrawal: the transaction, that the wallet signs it alone, and its intent. *)
Definition withdraw (kind source route : string) (pool : LpPool) (request : RemoveLiquidityRequest) : vtask TradeIntent :=
  let* d := buildRemove request in
  throw_code (assertWalletSignableAlone (vd_extraSigners d)) ;;
  let* leg := raise (withdrawInputLeg (vd_priorityFeeLamports d) None None) in
  lp_intent (exit_draft kind source route pool leg d).

Definition close_request (cfg : CloseConfig) : RemoveLiquidityRequest :=
  let bps := default 10000 (cl_bpsToRemove cfg) in
  {| rr_poolAddress := cl_poolAddress cfg; rr_positionAddress := cl_positionAddress cfg; rr_owner := ownerWallet;
     rr_bpsToRemove := bps; rr_claimFees := default true (cl_claimFees cfg);
     rr_closePosition := default true (cl_closePosition cfg) && (bps =? 10000);
     rr_priorityFeeLamports := priority_fee deps |}.

Definition close_kind (cfg : CloseConfig) : string :=
  if default 10000 (cl_bpsToRemove cfg) =? 10000 then "lp_close" else "lp_remove".

(** `build` of `makePoolsCloseTool` *)
Definition build_close (cfg : CloseConfig) : vtask TradeIntent :=
  let* pool := getPool pow hasApi (cl_poolAddress cfg) in
  let* found := getPosition (cl_poolAddress cfg) (cl_positionAddress cfg) ownerWallet in
  own_position found ;;
  withdraw (close_kind cfg) "pools_close" "meteora-dlmm withdraw" pool (close_request cfg).

Definition close_execute (cfg : CloseConfig) (key : string) (confirmedByUser : option bool) : vtask LpOutcome :=
  let* i := build_close cfg in
  let* r := gateway_execute i key confirmedByUser in
  Ret (Answered (refused r) r).

(** *** `pools_rebalance` *)

Definition notional_of (pool : LpPool) (p : LpPosition) : Z := po_quoteAmount p + baseValuedInQuote pow p (activePrice pool).

Definition economics_of (cfg : RebalanceConfig) (pool : LpPool) (p : LpPosition) (fees : option Z) : Prelude.result RebalanceEconomics :=
  (let? fee := big_int (num_add (priority_fee deps) (js_num 10000)) in
   let? tx := quoteCostOfLamports pow (2 * fee) pool in
   let? bps := big_int (num_max (js_num 1) (baseFeeBps pool)) in
   inr {| projectedFeesPerDayQuote := fees; txCostQuote := Some tx;
          inventorySwapCostQuote := Some (Z.quot (notional_of pool p * bps) 10000);
          positionNotionalQuote := Some (notional_of pool p); entryUiPrice := rb_entryPrice cfg;
          claimableFeesQuote := unclaimedFeeQuote p |})%result.

Definition rebalance_subject (pool : LpPool) (p : LpPosition) (e : RebalanceEconomics) (h : RebalanceHistory) (now : Z) :
    RebalanceSubject :=
  {| rs_poolAddress := po_poolAddress p; rs_lowerLevel := lowerLevel p; rs_upperLevel := upperLevel p;
     pool_address := lp_address pool; pool_activeLevel := activeLevel pool; pool_levelStepBps := levelStepBps pool;
     pool_baseDecimals := lp_baseDecimals pool; pool_quoteDecimals := lp_quoteDecimals pool;
     rs_policy := ld_rebalancePolicy deps; rs_economics := e; rs_history := Some h; rs_now := now |}.

(** `decide` *)
Definition decide (cfg : RebalanceConfig) : vtask (LpPool * LpPosition * RebalanceDecision) :=
  let* a := settle (getPool pow hasApi (rb_poolAddress cfg)) in
  let* b := settle (getPosition (rb_poolAddress cfg) (rb_positionAddress cfg) ownerWallet) in
  let* pool := raise a in
  let* found := raise b in
  let* p := own_position found in
  let* now := trigger ReadNow in
  let* fees := raise (fees_per_day (notional_of pool p) (feeApr24hPct pool)) in
  let* h := trigger (LedgerHistory (rb_positionAddress cfg) now) in
  let* e := raise (economics_of cfg pool p fees) in
  let* d := raise (decideRebalance pow (rebalance_subject pool p e h now)) in
  Ret (pool, p, d).

(** The configuration handed back for the second step. *)
Record FollowUp : Type := {
  fu_poolAddress : string; fu_quoteAmountUi : number; fu_belowBins : Z; fu_aboveBins : Z; fu_shape : LiquidityShape
}.

Definition follow_up (cfg : RebalanceConfig) (pool : LpPool) (p : LpPosition) (target : BinRange) : FollowUp :=
  {| fu_poolAddress := rb_poolAddress cfg;
     fu_quoteAmountUi := num_div (num_of_bigint (po_quoteAmount p)) (pow (js_num 10) (po_quoteDecimals p));
     fu_belowBins := activeLevel pool - lowerBinId target; fu_aboveBins := upperBinId target - activeLevel pool;
     fu_shape := rp_shape (ld_rebalancePolicy deps) |}.

Definition exit_request (cfg : RebalanceConfig) : RemoveLiquidityRequest :=
  {| rr_poolAddress := rb_poolAddress cfg; rr_positionAddress := rb_positionAddress cfg; rr_owner := ownerWallet;
     rr_bpsToRemove := 10000; rr_claimFees := true; rr_closePosition := true; rr_priorityFeeLamports := priority_fee deps |}.

(** `build` of `makePoolsRebalanceTool`; [None] where there is nothing to do. *)
Definition build_rebalance (cfg : RebalanceConfig) : vtask (option (TradeIntent * FollowUp)) :=
  let* '(pool, p, d) := decide cfg in
  match rd_targetRange d with
  | None => Ret None
  | Some target =>
      if default false (rb_dryRun cfg) then Ret None
      else
        throw_code (guardLevelRange (ld_guards deps) (js_num (lowerBinId target)) (js_num (upperBinId target))
                      (js_num (activeLevel pool))) ;;
        let* i := withdraw "lp_rebalance" "pools_rebalance" "meteora-dlmm rebalance-exit" pool (exit_request cfg) in
        Ret (Some (i, follow_up cfg pool p target))
  end.

Definition rebalance_execute (cfg : RebalanceConfig) (key : string) (confirmedByUser : option bool) : vtask LpOutcome :=
  let* built := build_rebalance cfg in
  match built with
  | None => Ret Shown
  | Some (i, _) =>
      let* r := gateway_execute i key confirmedByUser in
      if refused r then Ret (Answered true r)
      else
        let* now := trigger ReadNow in
        trigger (LedgerRecord (rb_positionAddress cfg) now) ;;
        Ret (Answered false r)
  end.
End Tools.

(** *** What a run has asked and been told *)

Section Safety.
Context `{TxBuilder} (pow : number -> Z -> number) (hasApi : bool) (deps : LpDeps) (ownerWallet : string).

Definition lp_history : Type := list (Prog.event veff).

(** An effect that changes something. *)
Definition acts R (e : veff R) : bool := match e with SubmitIntent _ _ => true | LedgerRecord _ _ => true | _ => false end.

Definition is_act (ev : Prog.event veff) : bool := match ev with Event e _ => acts _ e end.

Definition calm (h : lp_history) : Prop := Forall (fun ev => is_act ev = false) h.

(** A fact that stays true as the run goes on. *)
Class Lasting (fact : lp_history -> Prop) : Prop := lasting h h' : h ⊆ h' -> fact h -> fact h'.

#[local] Instance lasting_const (P : Prop) : Lasting (fun _ => P).
Proof. by intros h h'. Qed.

#[local] Instance lasting_event ev : Lasting (elem_of ev).
Proof. intros h h' Hs Hin. by apply Hs. Qed.

#[local] Instance lasting_imp (P : Prop) (p : lp_history -> Prop) : Lasting p -> Lasting (fun h => P -> p h).
Proof. intros Hp h h' Hs Hi HP. by eapply Hp, Hi. Qed.

#[local] Instance lasting_and p q : Lasting p -> Lasting q -> Lasting (fun h => p h /\ q h).
Proof. intros Hp Hq h h' Hs [? ?]. split; [by eapply Hp|by eapply Hq]. Qed.

#[local] Instance lasting_exists {A} (p : A -> lp_history -> Prop) : (forall a, Lasting (p a)) -> Lasting (fun h => exists a, p a h).
Proof. intros Hp h h' Hs [a Ha]. exists a. by eapply Hp. Qed.

#[local] Instance lasting_forall {A} (p : A -> lp_history -> Prop) : (forall a, Lasting (p a)) -> Lasting (fun h => forall a, p a h).
Proof. intros Hp h h' Hs Ha a. by eapply Hp. Qed.

Section Runs.
Context (P : TradeIntent -> ExecuteOptions -> lp_history -> Prop) (L : string -> Z -> lp_history -> Prop).

Definition act_pre R (e : veff R) (h : lp_history) : Prop :=
  match e with SubmitIntent i o => P i o h | LedgerRecord p t => L p t h | _ => True end.

(** From a history with [G], [p] changes nothing and answers with [F]. *)
Definition obtains {A} (G : lp_history -> Prop) (p : vtask A) (F : A -> lp_history -> Prop) : Prop :=
  forall h, calm h -> G h -> ensures (E := veff) act_pre (fun _ _ _ => True) record_event p
    (fun r h' => calm h' /\ h ⊆ h' /\ forall a, r = inr a -> F a h') h.

Lemma obtains_ret {A} (G : lp_history -> Prop) (a : A) (F : A -> lp_history -> Prop) :
  (forall h, G h -> F a h) -> obtains G (Ret a) F.
Proof. intros Hf h Hc Hg. split; [done|]. split; [done|]. intros ? [= <-]. by apply Hf. Qed.

Lemma obtains_throw {A} (G : lp_history -> Prop) x (F : A -> lp_history -> Prop) : obtains G (Throw x) F.
Proof. intros h Hc Hg. split; [done|]. split; [done|]. by intros a [=]. Qed.

Lemma obtains_bind {A B} G (p : vtask A) (f : A -> vtask B) F F' :
  Lasting G -> obtains G p F -> (forall a, obtains (fun h => G h /\ F a h) (f a) F') -> obtains G (bind p f) F'.
Proof.
  intros HG Hp Hf h Hc Hg. apply ensures_bind. eapply ensures_mono; [by apply Hp|]. intros [x|a] h' (Hc' & Hs & Ha).
  - split; [done|]. split; [done|]. by intros ? [=].
  - eapply ensures_mono; [apply Hf; [done|split; [by eapply HG|by apply Ha]]|]. intros r h'' (H1 & H2 & H3).
    split; [done|]. split; [by etransitivity|done].
Qed.

Lemma obtains_mono {A} (G G' : lp_history -> Prop) (p : vtask A) (F F' : A -> lp_history -> Prop) :
  obtains G p F -> (forall h, G' h -> G h) -> (forall a h, F a h -> F' a h) -> obtains G' p F'.
Proof.
  intros Hp HG HF h Hc Hg. eapply ensures_mono; [by apply Hp, HG|]. intros r h' (H1 & H2 & H3). split; [done|]. split; [done|].
  intros a Ha. by apply HF, H3.
Qed.

(** What a task gives from any history, and a tree that goes on with it. *)
Lemma obtains_step {A B} G (p : vtask A) (f : A -> vtask B) F F' :
  Lasting G -> obtains (fun _ => True) p F -> (forall a, obtains (fun h => G h /\ F a h) (f a) F') -> obtains G (bind p f) F'.
Proof. intros HG Hp. apply obtains_bind; [done|]. by eapply obtains_mono. Qed.

(** The end of a tree: what was known is known still. *)
Lemma obtains_keep {A} (G : lp_history -> Prop) (p : vtask A) F F' : Lasting G -> obtains (fun _ => True) p F ->
  (forall a h, G h -> F a h -> F' a h) -> obtains G p F'.
Proof.
  intros HG Hp Hf h Hc Hg. eapply ensures_mono; [by apply Hp|]. intros r h' (H1 & H2 & H3). split; [done|]. split; [done|].
  intros a Ha. apply Hf; [by eapply HG|by apply H3].
Qed.

Lemma obtains_raise {A} G (r : Prelude.result A) : obtains G (raise r) (fun a _ => r = inr a).
Proof. destruct r; [apply obtains_throw|by apply obtains_ret]. Qed.

Lemma idle_allowed R (e : veff R) h : acts R e = false -> act_pre R e h.
Proof. by destruct e. Qed.

Lemma obtains_vask {R} G (e : veff (string + R)%type) : acts _ e = false -> obtains G (vask e) (fun a h => Event e (inr a) ∈ h).
Proof.
  intros He h Hc _. unfold vask. cbn. split; [by apply idle_allowed|]. intros r _.
  assert (calm (record_event _ e r h)) as Hc' by (by constructor).
  assert (h ⊆ record_event _ e r h) as Hs by (intros x Hx; by right).
  destruct r as [x|a]; cbn; (split; [done|]; split; [done|]); [by intros ? [=]|]. intros ? [= <-]. by left.
Qed.

Lemma obtains_trigger {R} G (e : veff R) : acts _ e = false -> obtains G (trigger e) (fun a h => Event e a ∈ h).
Proof.
  intros He h Hc _. cbn. split; [by apply idle_allowed|]. intros r _. split; [by constructor|].
  split; [intros x Hx; by right|]. intros ? [= <-]. by left.
Qed.

Lemma obtains_settle {A} G (p : vtask A) (F : A -> lp_history -> Prop) : obtains G p F ->
  obtains G (settle p) (fun r h => forall a, r = inr a -> F a h).
Proof.
  intros Hp h Hc Hg. unfold settle. apply ensures_catch, ensures_bind. eapply ensures_mono; [by apply Hp|].
  intros [x|a] h' (H1 & H2 & H3); cbn; (split; [done|]; split; [done|]); intros ? [= <-]; [by intros ? [=]|].
  intros ? [= <-]. by apply H3.
Qed.

Lemma obtains_or_null {A} G (p : vtask A) (F : A -> lp_history -> Prop) : obtains G p F ->
  obtains G (or_null p) (fun r h => forall a, r = Some a -> F a h).
Proof.
  intros Hp h Hc Hg. unfold or_null. apply ensures_catch, ensures_bind. eapply ensures_mono; [by apply Hp|].
  intros [x|a] h' (H1 & H2 & H3); cbn; (split; [done|]; split; [done|]); intros ? [= <-]; [by intros ? [=]|].
  intros ? [= <-]. by apply H3.
Qed.

(** *** The venue *)

(** A pool as this run read it: the state the SDK opened at the address, and a rate only
    where the data API gave one. *)
Definition pool_read (address : string) (pool : LpPool) (h : lp_history) : Prop :=
  exists st, Event (OpenPool address) (inr st) ∈ h /\
    (feeApr24hPct pool <> None -> Event (ApiGetPool address) (inr (feeApr24hPct pool)) ∈ h) /\
    lp_address pool = sd_address st /\ lp_baseMint pool = tokenXMint st /\ lp_baseDecimals pool = tokenXDecimals st /\
    lp_quoteMint pool = tokenYMint st /\ lp_quoteDecimals pool = tokenYDecimals st /\ levelStepBps pool = sd_binStep st /\
    activeLevel pool = sd_activeBinId st /\ baseFeeBps pool = sd_baseFeeBps st /\ liquidityQuote pool = Some (reserveY st) /\
    uiPriceOfBin pow (sd_activeBinId st) (sd_binStep st) (tokenXDecimals st) (tokenYDecimals st) = inr (activePrice pool).

(** What the SDK answered about a position of the wallet: the position as it stands in the
    pool, or that the wallet has none at this address. *)
Definition position_answer (pool position : string) (o : option LpPosition) (h : lp_history) : Prop :=
  exists st l, Event (OpenPool pool) (inr st) ∈ h /\ Event (PositionsOf st ownerWallet) (inr l) ∈ h /\
    match o with
    | Some p => exists sp, sp ∈ l /\ sp_publicKey sp = position /\
        p = {| po_poolAddress := sd_address st; positionAddress := position; po_owner := sp_owner sp;
               po_baseDecimals := tokenXDecimals st; po_quoteDecimals := tokenYDecimals st; lowerLevel := sp_lowerBinId sp;
               upperLevel := sp_upperBinId sp; po_baseAmount := totalXAmount sp; po_quoteAmount := totalYAmount sp;
               unclaimedFeeBase := feeX sp; unclaimedFeeQuote := feeY sp |}
    | None => forall sp, sp ∈ l -> sp_publicKey sp <> position
    end.

(** A position this run found among those of the wallet. *)
Definition position_read (pool position : string) (p : LpPosition) : lp_history -> Prop := position_answer pool position (Some p).

(** The transaction of a draft: the instructions of the SDK on a blockhash of this run,
    behind a compute budget that costs the priority fee, paid by the wallet. *)
Definition drafted (parts : SdkTxParts) (d : VenueTxDraft) (h : lp_history) : Prop :=
  let fee := default (js_num 200000) (ld_priorityFeeLamports deps) in
  let micro := num_floor (num_div (num_mul (num_max (js_num 0) fee) (js_num 1000000)) (js_num 600000)) in
  vd_extraSigners d = pt_extraSigners parts /\
  Event LatestBlockhash (inr (vd_recentBlockhash d, vd_lastValidBlockHeight d)) ∈ h /\
  vd_priorityFeeLamports d = num_floor (num_div (num_mul micro (js_num 600000)) (js_num 1000000)) /\
  exists key limit price wire, key_of_text ownerWallet = inr key /\
    setComputeUnitLimit (js_num 600000) = inr limit /\ setComputeUnitPrice micro = inr price /\
    compileV0 key (vd_recentBlockhash d) (limit :: price :: instructions parts) = inr wire /\
    vd_unsignedTxBase64 d = base64 wire.

(** An intent carries a draft. *)
Definition carries (i : TradeIntent) (d : VenueTxDraft) : Prop :=
  unsignedTxBase64 i = vd_unsignedTxBase64 d /\ recentBlockhash i = vd_recentBlockhash d /\
  lastValidBlockHeight i = vd_lastValidBlockHeight d.

#[local] Instance lasting_pool address pool : Lasting (pool_read address pool).
Proof. unfold pool_read. apply _. Qed.

#[local] Instance lasting_position pool position o : Lasting (position_answer pool position o).
Proof. unfold position_answer. apply _. Qed.

#[local] Instance lasting_drafted parts d : Lasting (drafted parts d).
Proof. unfold drafted. apply _. Qed.

(** A pure step keeps what is known. *)
Lemma obtains_last {A} (G : lp_history -> Prop) (r : Prelude.result A) (F : A -> lp_history -> Prop) :
  (forall a h, r = inr a -> G h -> F a h) -> obtains G (raise r) F.
Proof. intros Hf. destruct r; [apply obtains_throw|]. apply obtains_ret. intros h Hg. by apply Hf. Qed.

Lemma obtains_getPool address : obtains (fun _ => True) (getPool pow hasApi address) (pool_read address).
Proof.
  unfold getPool. eapply obtains_bind; [apply _|by apply obtains_vask|]. intros st.
  apply obtains_step with (F := fun o h => forall a, o = Some a -> Event (ApiGetPool address) (inr a) ∈ h); [apply _| |].
  - destruct hasApi; [|by apply obtains_ret]. by apply obtains_or_null, (obtains_vask (fun _ => True)).
  - intros api. apply obtains_last. intros pool h Hp [[_ Hst] Ha]. unfold summaryFromSdk in Hp.
    apply rbind_inr in Hp as (price & Hprice & [= <-]). exists st. cbn. split_and!; try done.
    destruct api as [a|]; [|done]. intros _. by apply Ha.
Qed.

Lemma find_position_spec position l :
  match find_position position l with
  | Some sp => sp ∈ l /\ sp_publicKey sp = position
  | None => forall sp, sp ∈ l -> sp_publicKey sp <> position
  end.
Proof.
  unfold find_position. induction l as [|x l IH]; cbn; [by intros sp ?%not_elem_of_nil|]. destruct (streq _ _) eqn:Hx.
  - split; [by left|by apply streq_spec].
  - destruct (List.find _ l) as [sp|]; [destruct IH as [H1 H2]; split; [by right|done]|].
    intros sp [->|Hin]%elem_of_cons; [intros He; apply streq_spec in He; congruence|by apply IH].
Qed.

Lemma obtains_getPosition pool position :
  obtains (fun _ => True) (getPosition pool position ownerWallet) (position_answer pool position).
Proof.
  unfold getPosition. eapply obtains_bind; [apply _|by apply obtains_vask|]. intros st.
  eapply obtains_bind; [apply _|by apply obtains_vask|]. intros l. apply obtains_ret. intros h [[_ Hst] Hl].
  exists st, l. split; [done|]. split; [done|]. pose proof (find_position_spec position l) as Hf.
  destruct (find_position position l) as [sp|]; cbn; [|done]. destruct Hf as [Hin <-]. by exists sp.
Qed.

Lemma obtains_list_all l : forall byPool, obtains (fun _ => True) (list_all l byPool) (fun ps _ => length ps = length l).
Proof.
  induction l as [|[pool p] l IH]; intros byPool; cbn [list_all]; [by apply obtains_ret|].
  apply obtains_step with (F := fun _ _ => True); [apply _| |].
  - destruct (byPool !! pool); [by apply obtains_ret|]. eapply obtains_mono; [by apply (obtains_vask (fun _ => True))|done|done].
  - intros st. eapply obtains_step; [apply _|apply IH|]. intros rest. apply obtains_ret. intros h [_ Hl]. cbn. by rewrite Hl.
Qed.

(** The positions the wallet has, as many as the SDK listed. *)
Lemma obtains_listPositions : obtains (fun _ => True) (listPositions ownerWallet None)
  (fun ps h => exists l, Event (PositionsOfUser ownerWallet) (inr l) ∈ h /\ length ps = length l).
Proof.
  unfold listPositions. cbn [truthy]. eapply obtains_bind; [apply _|by apply obtains_vask|]. intros l.
  eapply obtains_keep; [apply _|apply (obtains_list_all l ∅)|]. intros ps h [_ Hl] Hn. by exists l.
Qed.

Lemma obtains_draft parts :
  obtains (fun _ => True) (draft parts ownerWallet (priority_fee deps)) (drafted parts).
Proof.
  unfold draft. eapply obtains_bind; [apply _|by apply obtains_vask|].
  intros [bh lv]. eapply obtains_bind; [apply _|apply obtains_raise|]. intros limit.
  eapply obtains_bind; [apply _|apply obtains_raise|]. intros price.
  eapply obtains_bind; [apply _|apply obtains_raise|]. intros key.
  eapply obtains_bind; [apply _|apply obtains_raise|]. intros wire.
  apply obtains_ret. intros h [[[[[_ Hb] Hl] Hp] Hk] Hw]. split; [done|]. split; [done|]. split; [done|].
  by exists key, limit, price, wire.
Qed.

(** The SDK was asked for liquidity to add, and the draft is what it gave. *)
Definition add_built (pool : string) (args : AddLiquidityArgs) (d : VenueTxDraft) (h : lp_history) : Prop :=
  exists st parts, Event (OpenPool pool) (inr st) ∈ h /\ Event (BuildAddLiquidity st args) (inr parts) ∈ h /\ drafted parts d h.

(** The SDK was asked to take liquidity from a position this run found again, over all of
    its bins. *)
Definition remove_built (pool position : string) (bps : Z) (close : bool) (d : VenueTxDraft) (h : lp_history) : Prop :=
  exists st l target parts, Event (OpenPool pool) (inr st) ∈ h /\ Event (PositionsOf st ownerWallet) (inr l) ∈ h /\
    target ∈ l /\ sp_publicKey target = position /\ 0 < bps <= 10000 /\
    Event (BuildRemoveLiquidity st
      {| rl_owner := ownerWallet; rl_positionAddress := position; fromBinId := sp_lowerBinId target;
         toBinId := sp_upperBinId target; rl_bpsToRemove := bps; claimAndClose := close |}) (inr parts) ∈ h /\
    drafted parts d h.

Lemma obtains_buildOpen r : or_owner r = ownerWallet -> or_priorityFeeLamports r = priority_fee deps ->
  obtains (fun _ => True) (buildOpen r) (add_built (or_poolAddress r) (add_args r)).
Proof.
  intros Ho Hfee. unfold buildOpen. rewrite Ho, Hfee. eapply obtains_bind; [apply _|by apply obtains_vask|]. intros st.
  eapply obtains_bind; [apply _|by apply obtains_vask|]. intros parts.
  eapply obtains_keep; [apply _|apply obtains_draft|]. intros d h [[_ K1] K2] K3. by exists st, parts.
Qed.

Lemma obtains_buildRemove r : rr_owner r = ownerWallet -> rr_priorityFeeLamports r = priority_fee deps ->
  obtains (fun _ => True) (buildRemove r)
    (remove_built (rr_poolAddress r) (rr_positionAddress r) (rr_bpsToRemove r) (rr_closePosition r && (rr_bpsToRemove r =? 10000))).
Proof.
  intros Ho Hfee. unfold buildRemove. rewrite Ho, Hfee. eapply obtains_bind; [apply _|by apply obtains_vask|]. intros st.
  eapply obtains_bind; [apply _|by apply obtains_vask|]. intros l.
  pose proof (find_position_spec (rr_positionAddress r) l) as Hf.
  destruct (find_position _ l) as [target|]; [|apply obtains_throw].
  destruct (_ || _) eqn:Hb; [apply obtains_throw|]. bool_hyps.
  eapply obtains_bind; [apply _|by apply obtains_vask|]. intros parts.
  eapply obtains_keep; [apply _|apply obtains_draft|]. intros d h [[[_ K1] K2] K3] K4. exists st, l, target, parts.
  unfold remove_args in K3. rewrite Ho in K3. split_and!; try done; try apply Hf; lia.
Qed.

(** *** The tools *)

(** What a withdrawal declares and carries: the transaction the SDK built for this position,
    and as its input leg the priority fee of that transaction and the fee of one signature. *)
Record withdrawal (kind : string) (pool : LpPool) (address position : string) (bps : Z) (close : bool) (i : TradeIntent)
    (h : lp_history) : Prop := {
  wd_built : exists d, remove_built address position bps close d h /\ vd_extraSigners d = [] /\ carries i d /\
    amount (input i) = match vd_priorityFeeLamports d with Finite q => Z.max 0 (Qfloor q) + 5000 | _ => 5000 end;
  wd_shape : Contracts.kind i = kind /\ mint (input i) = WSOL_MINT /\ out_mint (output i) = lp_quoteMint pool /\
    Contracts.outputProvenance i = untrusted
}.

Lemma obtains_lp_intent G d : obtains G (lp_intent d) (fun i _ => toTradeIntent d = inr i).
Proof. unfold lp_intent. destruct (toTradeIntent d); [apply obtains_throw|by apply obtains_ret]. Qed.

Lemma obtains_throw_code G c : obtains G (throw_code c) (fun _ _ => c = None).
Proof. destruct c; [apply obtains_throw|by apply obtains_ret]. Qed.

Lemma withdrawInputLeg_exact fee t : withdrawInputLeg fee None None = inr t ->
  mint t = WSOL_MINT /\ amount t = match fee with Finite q => Z.max 0 (Qfloor q) + 5000 | _ => 5000 end.
Proof.
  unfold withdrawInputLeg, BASE_FEE_LAMPORTS. intros Hl. cbn zeta in Hl.
  destruct fee as [|[]|q]; try done; injection Hl as <-; cbn [mint amount default]; (split; [done|]);
    repeat match goal with |- context [?a <? ?b] => destruct (Z.ltb_spec a b) end; lia.
Qed.

Lemma obtains_withdraw kind source route pool r : rr_owner r = ownerWallet -> rr_priorityFeeLamports r = priority_fee deps ->
  obtains (fun _ => True) (withdraw kind source route pool r)
    (withdrawal kind pool (rr_poolAddress r) (rr_positionAddress r) (rr_bpsToRemove r)
       (rr_closePosition r && (rr_bpsToRemove r =? 10000))).
Proof.
  intros Ho Hfee. unfold withdraw. eapply obtains_bind; [apply _|by apply obtains_buildRemove|]. intros d.
  eapply obtains_bind; [apply _|apply obtains_throw_code|]. intros ?.
  eapply obtains_bind; [apply _|apply obtains_raise|]. intros leg.
  eapply obtains_keep; [apply _|apply obtains_lp_intent|]. intros i h [[[_ Hd] Hx] Hleg] Hi.
  pose proof (toTradeIntent_expiry _ _ Hi) as [E1 E2].
  apply toTradeIntent_inr in Hi as (K1 & K2 & K3 & _ & K5 & K6 & _). cbn in *.
  apply withdrawInputLeg_exact in Hleg as [Hm Ha]. split.
  - exists d. rewrite K2. split_and!; try done. unfold assertWalletSignableAlone in Hx. by destruct (vd_extraSigners d).
  - rewrite K1, K2, K3, K5. done.
Qed.

(** What a run of `pools_close` has checked when it offers an intent. *)
Record close_checked (cfg : CloseConfig) (i : TradeIntent) (h : lp_history) : Prop := {
  cc_position : exists pool p, let bps := default 10000 (cl_bpsToRemove cfg) in pool_read (cl_poolAddress cfg) pool h /\
    position_read (cl_poolAddress cfg) (cl_positionAddress cfg) p h /\ po_owner p = ownerWallet /\
    withdrawal (if bps =? 10000 then "lp_close" else "lp_remove") pool (cl_poolAddress cfg) (cl_positionAddress cfg) bps
      (default true (cl_closePosition cfg) && (bps =? 10000)) i h
}.

Lemma obtains_own found : obtains (fun _ => True) (own_position ownerWallet found)
  (fun p _ => found = Some p /\ po_owner p = ownerWallet).
Proof.
  unfold own_position. destruct found as [p|]; [|apply obtains_throw]. destruct (streq _ _) eqn:Ho; [|apply obtains_throw].
  apply obtains_ret. intros _ _. split; [done|by apply streq_spec].
Qed.

Lemma obtains_close cfg : obtains (fun _ => True) (build_close pow hasApi deps ownerWallet cfg) (close_checked cfg).
Proof.
  unfold build_close. eapply obtains_bind; [apply _|apply obtains_getPool|]. intros pool.
  eapply obtains_step; [apply _|apply obtains_getPosition|]. intros found.
  eapply obtains_step; [apply _|apply obtains_own|]. intros p.
  eapply obtains_keep; [apply _|by apply obtains_withdraw|]. intros i h [[[_ K1] K2] [-> K3]] K4. split.
  exists pool, p. cbv zeta. split_and!; try done. cbn in K4. by rewrite <- andb_assoc, andb_diag in K4.
Qed.

(** Moving a position to [target] pays: the fees its pool's rate projects over the horizon,
    for the share the new span has of them, exceed two transactions, the swap of the
    inventory at the base fee and the divergence since the entry price. *)
Definition pays (cfg : RebalanceConfig) (pool : LpPool) (p : LpPosition) (target : BinRange) : Prop :=
  let policy := ld_rebalancePolicy deps in
  let notional := po_quoteAmount p + baseValuedInQuote pow p (activePrice pool) in
  let share := num_div (js_num (upperLevel p - lowerLevel p + 1)) (js_num (upperBinId target - lowerBinId target + 1)) in
  exists apr rate factor fee tx bps loss,
    feeApr24hPct pool = Some apr /\ to_bigint (num_round (num_mul apr (js_num 1000000))) = inr rate /\
    to_bigint (num_max0 (num_round (num_mul (num_mul (num_div (horizonMs policy) (js_num 86400000)) share) (js_num 1000000)))) =
      inr factor /\
    big_int (num_add (priority_fee deps) (js_num 10000)) = inr fee /\ quoteCostOfLamports pow (2 * fee) pool = inr tx /\
    big_int (num_max (js_num 1) (baseFeeBps pool)) = inr bps /\
    (requireIlRecovery policy = false /\ loss = 0 \/
     exists entry price il lossBps, rb_entryPrice cfg = Some entry /\
       uiPriceOfBin pow (activeLevel pool) (levelStepBps pool) (lp_baseDecimals pool) (lp_quoteDecimals pool) = inr price /\
       divergenceLossPct (num_div price entry) = inr il /\
       to_bigint (num_round (num_mul (num_abs il) (js_num 100))) = inr lossBps /\ loss = Z.quot (notional * lossBps) 10000) /\
    let fees := Z.quot (Z.quot (notional * rate) 100000000 * factor) 1000000 in
    let net := fees - (tx + Z.quot (notional * bps) 10000) - loss in
    0 < net /\ minNetBenefitQuote policy <= net.

(** The active bin is beyond the drift the policy allows, or near an edge of the position. *)
Definition drifted (pool : LpPool) (p : LpPosition) : Prop :=
  let policy := ld_rebalancePolicy deps in let active := activeLevel pool in
  active < lowerLevel p /\ driftBins policy < lowerLevel p - active \/
  upperLevel p < active /\ driftBins policy < active - upperLevel p \/
  lowerLevel p <= active <= upperLevel p /\ (driftBins policy < 0 \/
    exists f, activePositionInRange {| lowerBinId := lowerLevel p; upperBinId := upperLevel p |} active = Some f /\
      lowerLevel p < upperLevel p /\ num_gt (edgeTriggerPct policy) (js_num 0) = true /\
      (num_le f (edgeTriggerPct policy) = true \/ num_le (num_sub (js_num 1) (edgeTriggerPct policy)) f = true)).

(** What a run of `pools_rebalance` has checked when it offers an intent: the brakes, with
    the history the ledger gave, and that moving the position pays. *)
Record rebalance_checked (cfg : RebalanceConfig) (i : TradeIntent) (h : lp_history) : Prop := {
  rc_decision : exists pool p now hist target, let policy := ld_rebalancePolicy deps in
    pool_read (rb_poolAddress cfg) pool h /\ position_read (rb_poolAddress cfg) (rb_positionAddress cfg) p h /\
    po_owner p = ownerWallet /\ Event ReadNow now ∈ h /\ Event (LedgerHistory (rb_positionAddress cfg) now) hist ∈ h /\
    rb_dryRun cfg <> Some true /\ drifted pool p /\
    countInWindow hist < maxPerDay policy /\ (forall t, lastAt hist = Some t -> minIntervalMs policy <= now - t) /\
    pays cfg pool p target /\ lowerBinId target <= activeLevel pool <= upperBinId target /\
    activeLevel pool - targetBelowBins policy <= lowerBinId target /\
    upperBinId target <= activeLevel pool + targetAboveBins policy /\
    1 <= binSpan (lowerBinId target) (upperBinId target) <= MAX_BIN_PER_POSITION /\
    guardLevelRange (ld_guards deps) (js_num (lowerBinId target)) (js_num (upperBinId target)) (js_num (activeLevel pool)) = None /\
    withdrawal "lp_rebalance" pool (rb_poolAddress cfg) (rb_positionAddress cfg) 10000 true i h
}.

Lemma obtains_decide cfg : obtains (fun _ => True) (decide pow hasApi deps ownerWallet cfg)
  (fun x h => let '(pool, p, d) := x in exists now hist e,
    pool_read (rb_poolAddress cfg) pool h /\ position_read (rb_poolAddress cfg) (rb_positionAddress cfg) p h /\
    po_owner p = ownerWallet /\ Event ReadNow now ∈ h /\ Event (LedgerHistory (rb_positionAddress cfg) now) hist ∈ h /\
    (exists fees, fees_per_day (notional_of pow pool p) (feeApr24hPct pool) = inr fees /\
       economics_of pow deps cfg pool p fees = inr e) /\
    decideRebalance pow (rebalance_subject deps pool p e hist now) = inr d).
Proof.
  unfold decide. eapply obtains_bind; [apply _|apply obtains_settle, obtains_getPool|]. intros a.
  eapply obtains_step; [apply _|apply obtains_settle, obtains_getPosition|]. intros b.
  eapply obtains_bind; [apply _|apply obtains_raise|]. intros pool.
  eapply obtains_bind; [apply _|apply obtains_raise|]. intros found.
  eapply obtains_step; [apply _|apply obtains_own|]. intros p.
  eapply obtains_bind; [apply _|by apply obtains_trigger|]. intros now.
  eapply obtains_bind; [apply _|apply obtains_raise|]. intros fees.
  eapply obtains_bind; [apply _|by apply obtains_trigger|]. intros hist.
  eapply obtains_bind; [apply _|apply obtains_raise|]. intros e.
  eapply obtains_bind; [apply _|apply obtains_raise|]. intros d.
  apply obtains_ret. intros h [[[[[[[[[[_ K1] K2] ->] ->] [-> K3]] K4] K5] K6] K7] K8].
  exists now, hist, e. split_and!; try done; [by apply K1|by apply (K2 _ eq_refl)|by exists fees].
Qed.

(** A decision to move pays, by the economics the tool gives it. *)
Lemma decided_pays cfg pool p fees e hist now d target :
  fees_per_day (notional_of pow pool p) (feeApr24hPct pool) = inr fees -> economics_of pow deps cfg pool p fees = inr e ->
  decideRebalance pow (rebalance_subject deps pool p e hist now) = inr d -> rd_targetRange d = Some target ->
  pays cfg pool p target.
Proof.
  intros Hfees He Hd Ht. destruct (rebalance_sound _ _ _ _ Hd Ht) as (Hle & _ & _ & _ & Hspan & _ & b & ph & perDay & tx & sw & _ &
    Hph & Hpd & Htx & Hsw & Hpos & Hmin & pct & Hdiv).
  unfold economics_of in He. open_result He. injection He as <-. cbn in Hle, Hph, Hpd, Htx, Hsw, Hmin, Hdiv. simplify_eq.
  unfold fees_per_day in Hfees. destruct (feeApr24hPct pool) as [apr|] eqn:Hapr; [|done].
  destruct (isFinite apr && num_le (js_num 0) apr); [|done]. open_result Hfees. injection Hfees as <-.
  unfold fees_over_horizon in Hph. cbn in Hph. unfold binSpan in *.
  rewrite (proj2 (Z.ltb_lt _ _)) in Hph by lia. rewrite (proj2 (Z.ltb_lt _ _)) in Hph by lia. cbn [andb] in Hph.
  apply rbind_inr in Hph as (factor & Hfactor & [= <-]).
  unfold pays. cbv zeta. do 7 eexists. do 6 (split; [eassumption|]). split; [|split; [exact Hpos|exact Hmin]].
  unfold divergence_cost in Hdiv. cbn in Hdiv. destruct (requireIlRecovery _); cbn [negb] in Hdiv; [right|left; by simplify_eq].
  destruct (rb_entryPrice cfg) as [entry|]; [|done]. destruct (_ || _ || _); [done|]. open_result Hdiv. simplify_eq.
  do 4 eexists. split_and!; try done.
Qed.

(** It is made only when the active bin has moved far enough. *)
Lemma decided_drifted pool p e hist now d target :
  decideRebalance pow (rebalance_subject deps pool p e hist now) = inr d -> rd_targetRange d = Some target -> drifted pool p.
Proof.
  intros Hd Ht. destruct (rebalance_sound _ _ _ _ Hd Ht) as (Hle & _ & Hm & _). cbn in Hle.
  assert (rd_currentRange d = {| lowerBinId := lowerLevel p; upperBinId := upperLevel p |}) as Hr.
  { unfold decideRebalance, hold in Hd.
    repeat match type of Hd with (if ?b then _ else _) = _ => destruct b; [by simplify_eq|] end.
    apply rbind_inr in Hd as (t' & _ & Hd). destruct (_ && _) in Hd; [by simplify_eq|].
    apply rbind_inr in Hd as ([b|] & _ & Hd); [|by simplify_eq]. destruct (_ || _) in Hd; simplify_eq; cbn in *; by simplify_eq. }
  rewrite Hr in Hm. unfold moved, binDrift in Hm. cbn in Hm. unfold drifted. cbv zeta.
  destruct (Z.ltb_spec (upperLevel p) (activeLevel pool)) as [Hu|Hu].
  - right. left. split; [done|]. unfold activePositionInRange, isActiveInRange in Hm. cbn in Hm.
    rewrite (proj2 (Z.leb_gt _ _) Hu), andb_false_r, orb_false_r in Hm. bool_hyps. lia.
  - destruct (Z.ltb_spec (activeLevel pool) (lowerLevel p)) as [Hl|Hl].
    + left. split; [done|]. unfold activePositionInRange, isActiveInRange in Hm. cbn in Hm.
      rewrite (proj2 (Z.leb_gt _ _) Hl), orb_false_r in Hm. bool_hyps. lia.
    + right. right. split; [lia|]. apply orb_true_iff in Hm as [Hm|Hm]; [left; bool_hyps; lia|right].
      destruct (activePositionInRange _ _) as [f|]; [|done]. exists f. unfold binSpan in Hm.
      apply andb_true_iff in Hm as [[H1 H2]%andb_true_iff H3%orb_true_iff]. apply Z.ltb_lt in H2. split_and!; done || lia.
Qed.

Lemma obtains_rebalance cfg : obtains (fun _ => True) (build_rebalance pow hasApi deps ownerWallet cfg)
  (fun o h => match o with Some (i, _) => rebalance_checked cfg i h | None => True end).
Proof.
  unfold build_rebalance. eapply obtains_bind; [apply _|apply obtains_decide|]. intros [[pool p] d].
  destruct (rd_targetRange d) as [target|] eqn:Ht; [|by apply obtains_ret].
  destruct (default false (rb_dryRun cfg)) eqn:Hdry; [by apply obtains_ret|].
  eapply obtains_bind; [apply _|apply obtains_throw_code|]. intros ?.
  eapply obtains_step; [apply _|by apply obtains_withdraw|]. intros i.
  apply obtains_ret. intros h [[[_ (now & hist & e & K1 & K2 & K3 & K4 & K5 & (fees & Hfees & He) & K6)] K7] K8]. split.
  destruct (decide_brakes _ _ _ K6 ltac:(congruence)) as [B1 B2].
  pose proof (rebalance_sound _ _ _ _ K6 Ht) as (_ & _ & _ & S1 & S2 & _).
  pose proof (decided_target _ _ _ _ K6 Ht) as Htarget. apply rangeAroundActive_spec in Htarget as (_ & _ & _ & _ & _ & T1 & T2).
  unfold isActiveInRange in S1. cbn in S1, T1, T2. apply andb_true_iff in S1 as [S1 S3]. apply Z.leb_le in S1, S3.
  exists pool, p, now, hist, target. cbv zeta. split_and!; try done; try lia.
  - intros Hd. by rewrite Hd in Hdry.
  - by eapply decided_drifted.
  - by eapply decided_pays.
Qed.

(** What a run of `pools_open` has checked when it offers an intent. *)
Record open_checked (cfg : OpenConfig) (i : TradeIntent) (h : lp_history) : Prop := {
  oc_judged : exists pool q b base quote heat listed existing range limits tvl d,
    let g := ld_guards deps in let target := truthy (op_positionAddress cfg) in
    pool_read (op_poolAddress cfg) pool h /\
    (* the amounts asked for *)
    toBaseUnits_number (op_quoteAmountUi cfg) (Z.to_nat (lp_quoteDecimals pool)) = Some q /\
    match truthy_number (op_baseAmountUi cfg) with
    | Some a => toBaseUnits_number a (Z.to_nat (lp_baseDecimals pool)) = Some b
    | None => b = 0
    end /\
    (* the mints and the heat *)
    Event (MintInfoOf (lp_baseMint pool)) (inr base) ∈ h /\ Event (MintInfoOf (lp_quoteMint pool)) (inr quote) ∈ h /\
    mint_ok g (Some base) /\ mint_ok g (Some quote) /\
    Event (RugHeatOf (lp_baseMint pool)) (inr (Finite heat)) ∈ h /\ num_lt (Finite heat) (maxRugHeat g) = true /\
    (* the caps of the quote mint, and the position as it stands *)
    limitsFor g (lp_quoteMint pool) = Some limits /\ 0 < q <= maxSpendPerAction limits /\
    liquidityQuote pool = Some tvl /\ minPoolLiquidityQuote limits <= tvl /\
    match target with
    | Some a => exists o, position_answer (op_poolAddress cfg) a o h /\
        existing = match o with Some p => po_quoteAmount p | None => 0 end
    | None => existing = 0
    end /\
    0 <= existing /\ existing + q <= maxLpPositionQuote limits /\
    (* the slots and the holdings *)
    Event (PositionsOfUser ownerWallet) (inr listed) ∈ h /\
    (target = None -> num_lt (js_num (Z.of_nat (length listed))) (maxConcurrentPositions g) = true) /\
    (0 < b -> exists held pct, Event (TokenBalance ownerWallet (lp_baseMint pool)) (inr held) ∈ h /\ 0 < held /\
       maxBaseLegPctOfHoldings g = Finite pct /\ (0 < pct)%Q /\ b * 100 <= held * Qfloor pct) /\
    (* the bins *)
    lowerBinId range <= activeLevel pool <= upperBinId range /\
    activeLevel pool - default 10 (op_belowBins cfg) <= lowerBinId range /\
    upperBinId range <= activeLevel pool + default 10 (op_aboveBins cfg) /\
    1 <= binSpan (lowerBinId range) (upperBinId range) <= MAX_BIN_PER_POSITION /\
    guardLevelRange g (js_num (lowerBinId range)) (js_num (upperBinId range)) (js_num (activeLevel pool)) = None /\
    (* the transaction and the intent *)
    add_built (op_poolAddress cfg)
      {| al_owner := ownerWallet; al_positionAddress := target; al_lowerBinId := lowerBinId range;
         al_upperBinId := upperBinId range; al_totalXAmount := b; al_totalYAmount := q;
         al_shape := default spot (op_shape cfg) |} d h /\
    vd_extraSigners d = [] /\ carries i d /\
    input i = {| mint := lp_quoteMint pool; amount := q; decimals := Z.to_nat (lp_quoteDecimals pool) |} /\
    out_mint (output i) = lp_baseMint pool;
  oc_shape : Contracts.kind i = match truthy (op_positionAddress cfg) with Some _ => "lp_add" | None => "lp_open" end /\
    Contracts.outputProvenance i = untrusted
}.

Lemma obtains_to_base G x d : obtains G (to_base x d) (fun n _ => toBaseUnits_number x (Z.to_nat d) = Some n).
Proof. unfold to_base. destruct (toBaseUnits_number _ _); [by apply obtains_ret|apply obtains_throw]. Qed.

Lemma obtains_heat mint : obtains (fun _ => True) (read_heat deps mint)
  (fun o h => forall x, o = Some x -> Event (RugHeatOf mint) (inr x) ∈ h).
Proof. unfold read_heat. destruct (ld_signals deps); [by apply obtains_or_null, obtains_vask|]. apply obtains_ret. by intros h _ x. Qed.

Lemma obtains_judged cfg pool q b range s :
  obtains (fun _ => True) (open_judged deps ownerWallet cfg pool q b range s) (fun i h =>
    guardLpOpen (ld_guards deps) s = inr None /\
    exists d, add_built (op_poolAddress cfg) (add_args (open_request deps ownerWallet cfg q b range)) d h /\ vd_extraSigners d = [] /\
      toTradeIntent (open_draft cfg pool q d) = inr i).
Proof.
  unfold open_judged. eapply obtains_bind; [apply _|apply obtains_raise|]. intros refusal.
  eapply obtains_bind; [apply _|apply obtains_throw_code|]. intros ?.
  eapply obtains_step; [apply _|by apply obtains_buildOpen|]. intros d.
  eapply obtains_bind; [apply _|apply obtains_throw_code|]. intros ?.
  eapply obtains_bind; [apply _|apply obtains_raise|]. intros ?.
  eapply obtains_keep; [apply _|apply obtains_lp_intent|]. intros i h [[[[[_ K1] ->] K3] K4] _] K5. split; [done|].
  exists d. split_and!; try done. unfold assertWalletSignableAlone in K4. by destruct (vd_extraSigners d).
Qed.

Lemma truthy_truthy o : truthy (truthy o) = truthy o.
Proof. unfold truthy. destruct o as [s|]; [|done]. by destruct (streq s "") eqn:Hs; rewrite ?Hs. Qed.

Lemma range_around_spec active below above m r : isFinite m = true -> range_around active below above m = inr r ->
  lowerBinId r <= active <= upperBinId r /\ 1 <= binSpan (lowerBinId r) (upperBinId r) <= MAX_BIN_PER_POSITION /\
  active - below <= lowerBinId r /\ upperBinId r <= active + above.
Proof.
  intros Hm Hr. destruct m; try done. apply rangeAroundActive_spec in Hr as (H1 & _ & H2 & _ & _ & H3 & H4).
  unfold isActiveInRange in H1. apply andb_true_iff in H1 as [? ?]. bool_hyps. lia.
Qed.

Definition finite_guards : Prop :=
  isFinite (maxRugHeat (ld_guards deps)) = true /\ isFinite (maxConcurrentPositions (ld_guards deps)) = true /\
  isFinite (maxBaseLegPctOfHoldings (ld_guards deps)) = true /\ isFinite (maxLevelSpan (ld_guards deps)) = true.

#[local] Instance lasting_found cfg (o : option LpPosition) :
  Lasting (fun h => match truthy (op_positionAddress cfg) with
                    | Some a => position_answer (op_poolAddress cfg) a o h | None => o = None end).
Proof. destruct (truthy _); apply _. Qed.

Lemma obtains_open cfg : finite_guards ->
  obtains (fun _ => True) (build_open pow hasApi deps ownerWallet cfg) (open_checked cfg).
Proof.
  intros (F1 & F2 & F3 & F4). unfold build_open. eapply obtains_bind; [apply _|apply obtains_getPool|]. intros pool.
  eapply obtains_bind; [apply _|apply obtains_to_base|]. intros q.
  apply obtains_step with (F := fun n _ => match truthy_number (op_baseAmountUi cfg) with
    | Some a => toBaseUnits_number a (Z.to_nat (lp_baseDecimals pool)) = Some n | None => n = 0 end); [apply _| |].
  { destruct (truthy_number _); [apply obtains_to_base|by apply obtains_ret]. }
  intros b. eapply obtains_bind; [apply _|apply obtains_raise|]. intros range.
  eapply obtains_bind; [apply _|by apply obtains_or_null, obtains_vask|]. intros m1.
  eapply obtains_bind; [apply _|by apply obtains_or_null, obtains_vask|]. intros m2.
  eapply obtains_step; [apply _|apply obtains_settle, obtains_listPositions|]. intros listed.
  apply obtains_step with (F := fun o h => 0 < b -> forall x, o = Some x -> Event (TokenBalance ownerWallet (lp_baseMint pool)) (inr x) ∈ h);
    [apply _| |].
  { destruct (Z.ltb_spec 0 b); [|apply obtains_ret; intros ???; lia].
    eapply obtains_mono; [by apply obtains_or_null, (obtains_vask (fun _ => True))|done|done]. }
  intros holdings.
  apply obtains_step with (F := fun r h => forall o, r = inr o ->
    match truthy (op_positionAddress cfg) with Some a => position_answer (op_poolAddress cfg) a o h | None => o = None end);
    [apply _| |].
  { destruct (truthy (op_positionAddress cfg)) as [a|]; [|by apply obtains_ret; intros h _ o [= <-]].
    apply obtains_settle, obtains_getPosition. }
  intros found. eapply obtains_bind; [apply _|apply obtains_raise|]. intros ps.
  eapply obtains_bind; [apply _|apply obtains_raise|]. intros existing.
  eapply obtains_step; [apply _|apply obtains_heat|]. intros heat.
  eapply obtains_keep; [apply _|apply obtains_judged|]. intros i h Hg [Hok (d & Hd & Hx & Hi)].
  destruct Hg as [[[[[[[[[[[[_ K1] K2] K2b] K3] K4] K5] K6] K7] K8] ->] ->] K10].
  destruct (lp_open_admitted _ (open_subject cfg pool q b holdings [m1; m2] heat ps existing range) F1 F2 F3) as (refusal & Hr & Hiff).
  rewrite Hok in Hr. injection Hr as <-.
  pose proof (toTradeIntent_expiry _ _ Hi) as [E1 E2].
  apply toTradeIntent_inr in Hi as (I1 & I2 & I3 & _ & I5 & I6 & _). cbn in I1, I2, I3, I5, I6, E1, E2.
  split; [|by rewrite I1, I5]. destruct (K6 _ eq_refl) as (l & Hl & Hlen).
  destruct (range_around_spec _ _ _ _ _ F4 K3) as (R1 & R2 & R3 & R4).
  destruct (proj1 Hiff eq_refl) as [O1 (x & O2 & O3) [O4 O5] (lim & tvl & O6 & O7 & O8 & O9 & O10 & O11) O12 O13 O14].
  cbn in O1, O2, O3, O4, O5, O6, O7, O8, O9, O10, O11, O12, O13, O14. destruct O1 as [_ O1].
  apply Forall_cons in O1 as [M1 [M2 _]%Forall_cons]. pose proof M1 as (base & -> & _). pose proof M2 as (quote & -> & _). subst heat.
  exists pool, q, b, base, quote, x, l, (match existing with Some p => po_quoteAmount p | None => 0 end), range, lim, tvl, d.
  cbv zeta. rewrite I2, I3. specialize (K8 _ eq_refl). rewrite Hlen in O12.
  split_and!; try done; try lia; [by apply K4|by apply K5|by apply K10|by apply O5| | | |].
  - destruct (truthy (op_positionAddress cfg)); [by exists existing|by subst existing].
  - intros Hn. apply O12. by apply bool_decide_eq_true.
  - intros Hb. destruct (O13 Hb) as (held & pct & H1 & H2). exists held, pct. split; [by apply K7|done].
  - unfold add_args, open_request in Hd. cbn in Hd. by rewrite truthy_truthy in Hd.
Qed.
End Runs.

(** *** What reaches the gateway *)

Inductive lp_call : Type :=
  | Open (cfg : OpenConfig)
  | Close (cfg : CloseConfig)
  | Rebalance (cfg : RebalanceConfig).

Definition lp_execute (c : lp_call) (key : string) (confirmed : option bool) : vtask LpOutcome :=
  match c with
  | Open cfg => open_execute pow hasApi deps ownerWallet cfg key confirmed
  | Close cfg => close_execute pow hasApi deps ownerWallet cfg key confirmed
  | Rebalance cfg => rebalance_execute pow hasApi deps ownerWallet cfg key confirmed
  end.

Definition lp_checked (c : lp_call) (i : TradeIntent) (h : lp_history) : Prop :=
  match c with
  | Open cfg => open_checked cfg i h
  | Close cfg => close_checked cfg i h
  | Rebalance cfg => rebalance_checked cfg i h
  end.

(** What must hold when an intent is offered, and when a rebalance is recorded. *)
Definition offered (c : lp_call) (key : string) (confirmed : option bool) (i : TradeIntent) (o : ExecuteOptions) (h : lp_history) :
    Prop :=
  lp_checked c i h /\ calm h /\ o = key_options key (default false confirmed).

Definition recorded (c : lp_call) (p : string) (t : Z) (h : lp_history) : Prop :=
  exists cfg i o r h0, c = Rebalance cfg /\ p = rb_positionAddress cfg /\ h = Event ReadNow t :: Event (SubmitIntent i o) r :: h0 /\
    refused r = false /\ calm h0.

Lemma lp_execute_runs c key confirmed : finite_guards ->
  ensures (E := veff) (act_pre (offered c key confirmed) (recorded c)) (fun _ _ _ => True) record_event
    (lp_execute c key confirmed) (fun _ _ => True) [].
Proof.
  intros Hf. assert (calm []) as Hc by constructor. destruct c as [cfg|cfg|cfg]; cbn [lp_execute].
  - apply ensures_bind. eapply ensures_mono; [by apply (obtains_open _ _ cfg Hf)|]. intros [x|i] h (H1 & _ & H3); [done|].
    cbn. split; [|done]. split_and!; try done. by apply H3.
  - apply ensures_bind. eapply ensures_mono; [by apply (obtains_close _ _ cfg)|]. intros [x|i] h (H1 & _ & H3); [done|].
    cbn. split; [|done]. split_and!; try done. by apply H3.
  - apply ensures_bind. eapply ensures_mono; [by apply (obtains_rebalance _ _ cfg)|].
    intros [x|[[i fu]|]] h (H1 & _ & H3); [done| |done]. cbn. split.
    { split_and!; try done. by apply (H3 _ eq_refl). }
    intros r _. destruct (refused r) eqn:Hr; [done|]. cbn. split; [done|]. intros now _. split; [|done].
    by exists cfg, i, (key_options key (default false confirmed)), r, h.
Qed.
End Safety.

(** C37: for pool limits that are finite numbers ([finite_guards]: the heat, position,
    base-leg and span limits of the configuration), an intent a liquidity tool offers the
    gateway, whatever the SDK, the chain and the ledger answer, is the only one of its run
    and follows from what the run read.  An opening: both mints and the heat it read pass,
    the amount is within the cap per action and, with what the position it adds to holds in
    the pool, within the position cap, a new position finds a free slot among those the
    wallet has, a base leg is within its share of the balance, the range lies around the
    active bin, no wider than asked and fits a position, and the SDK built the transaction
    for this wallet with just these amounts and bins.  A withdrawal: the position is one
    of this wallet in the pool, the SDK built it over all the bins of that position with
    the share and the closing asked for, and the leg declared is its priority fee and one
    signature.  A rebalance moreover found the price drifted, keeps the interval and the
    daily number of the ledger's history, and pays: the fees projected from the pool's rate
    exceed two transactions, the inventory's swap at the base fee and the divergence since
    entry by the floor of the policy.  Every transaction is on a blockhash of the run,
    paid by the wallet, and needs no signer beyond it.  Without the user's confirmation the
    gateway then simulates, reserves, signs and broadcasts nothing.  A rebalance is
    recorded only after the gateway took its intent. *)
Theorem lp_offers_checked `{TxBuilder} pow hasApi deps ownerWallet c key confirmed :
  finite_guards deps ->
  (forall l1 i o r l2 p, traces (lp_execute pow hasApi deps ownerWallet c key confirmed) (l1 ++ Event (SubmitIntent i o) r :: l2) p ->
     lp_checked pow deps ownerWallet c i (rev l1) /\ calm l1 /\ o = key_options key (default false confirmed) /\
     (confirmed <> Some true -> forall d, only harmless (TradeGateway.execute d i o))) /\
  (forall l1 pos t r l2 p, traces (lp_execute pow hasApi deps ownerWallet c key confirmed) (l1 ++ Event (LedgerRecord pos t) r :: l2) p ->
     recorded c pos t (rev l1)).
Proof.
  intros Hf. pose proof (ensures_follows _ _ _ _ _ _ (lp_execute_runs pow hasApi deps ownerWallet c key confirmed Hf)) as Hr. split.
  - intros l1 i o r l2 p Ht. destruct (history_allowed _ _ _ _ _ _ Hr Ht) as (Hc & Hn & ->). split; [done|]. split.
    { apply Forall_rev in Hn. by rewrite rev_involutive in Hn. }
    split; [done|]. intros Hno d. apply unpinned_harmless; [right| |done].
    + destruct c; cbn in Hc; [apply Hc|destruct Hc as [(? & ? & _ & _ & _ & Hw)]; apply Hw|].
      destruct Hc as [(? & ? & ? & ? & ? & ? & ? & Hw)]. apply Hw.
    + by destruct confirmed as [[|]|].
  - intros l1 pos t r l2 p Ht. exact (history_allowed _ _ _ _ _ _ Hr Ht).
Qed.

(** *** Runs worth knowing *)

#[local] Existing Instance demo_web3.
#[local] Existing Instance demo_builder.

Definition demo_state : SdkPoolState :=
  {| sd_address := "pool"; sd_binStep := 25; sd_activeBinId := 5; tokenXMint := "base"; tokenXDecimals := 9; tokenXProgramId := "token";
     tokenYMint := WSOL_MINT; tokenYDecimals := 9; tokenYProgramId := "token"; sd_baseFeeBps := js_num 25; reserveX := 10 ^ 12;
     reserveY := 60 * 10 ^ 9 |}.

Definition demo_sdk_position (key : string) (quote : Z) : SdkPosition :=
  {| sp_publicKey := key; sp_owner := "owner"; sp_lowerBinId := -5; sp_upperBinId := 15; totalXAmount := 10 ^ 9;
     totalYAmount := quote; feeX := 0; feeY := 0 |}.

(** A venue where the wallet has [own] in the pool and [all] in total. *)
Definition demo_venue (own : list SdkPosition) (all : list (string * SdkPosition)) R (e : veff R) (w : unit) : R * unit :=
  (match e in veff R return R with
   | OpenPool _ => inr demo_state
   | PositionsOf _ _ => inr own
   | PositionsOfUser _ => inr all
   | BuildAddLiquidity _ _ => inr {| instructions := [{| ix_programId := []; ix_keys := []; ix_data := [9] |}]; pt_extraSigners := [] |}
   | BuildRemoveLiquidity _ _ => inr {| instructions := [{| ix_programId := []; ix_keys := []; ix_data := [7] |}]; pt_extraSigners := [] |}
   | BuildClaimFees _ _ _ => inl "unused"
   | ApiGetPool _ => inl "unused"
   | LatestBlockhash => inr ("hash", 100)
   | TokenBalance _ _ => inr 0
   | MintInfoOf m => inr {| info_mint := m; info_decimals := 9; programId := "token"; isToken2022 := false; freezeAuthority := None;
                            mintAuthority := None |}
   | RugHeatOf _ => inr (js_num 20)
   | ReadNow => 0
   | LedgerHistory _ _ => EMPTY_HISTORY
   | LedgerRecord _ _ => tt
   | SubmitIntent _ _ => duplicate_result "trade" None
   end, w).

Definition demo_lp_deps : LpDeps :=
  {| ld_guards := defaultPoolGuardConfig; ld_rebalancePolicy := defaultRebalancePolicy; ld_signals := true;
     ld_priorityFeeLamports := None |}.

(** A tenth of a SOL into the position ["mine"]. *)
Definition demo_add : OpenConfig :=
  {| op_poolAddress := "pool"; op_quoteAmountUi := Finite (1 # 10); op_baseAmountUi := None; op_belowBins := None; op_aboveBins := None;
     op_shape := None; op_positionAddress := Some "mine" |}.

Definition demo_lp_trace (own : list SdkPosition) (all : list (string * SdkPosition)) : list (Prog.event veff) :=
  run_trace (demo_venue own all) (lp_execute demo_pow false demo_lp_deps "owner" (Open demo_add) "key" None) tt.

Definition intents_of (l : list (Prog.event veff)) : list TradeIntent :=
  omap (fun ev => match ev with Event e _ => match e with SubmitIntent i _ => Some i | _ => None end end) l.

Definition demo_own : list SdkPosition := [demo_sdk_position "mine" (10 ^ 9)].

Definition demo_added : list (Prog.event veff) := demo_lp_trace demo_own [("pool", demo_sdk_position "mine" (10 ^ 9))].

Definition demo_lp_intent : TradeIntent :=
  match (run (demo_venue demo_own [("pool", demo_sdk_position "mine" (10 ^ 9))]) (build_open demo_pow false demo_lp_deps "owner" demo_add) tt).1 with
  | inr i => i
  | inl _ => demo_intent
  end.

Lemma lp_offers_checked_witness :
  exists l1 r, demo_added = l1 ++ [Event (SubmitIntent demo_lp_intent (key_options "key" false)) r] /\
    lp_checked demo_pow demo_lp_deps "owner" (Open demo_add) demo_lp_intent (rev l1) /\ amount (input demo_lp_intent) = 10 ^ 8.
Proof.
  exists (take 11 demo_added), (duplicate_result "trade" None).
  split; [vm_compute; reflexivity|]. split; [|vm_compute; reflexivity].
  apply (proj1 (lp_offers_checked demo_pow false demo_lp_deps "owner" (Open demo_add) "key" None
    ltac:(repeat split; reflexivity)) (take 11 demo_added) demo_lp_intent (key_options "key" false) (duplicate_result "trade" None) []
    (finished (run (demo_venue demo_own [("pool", demo_sdk_position "mine" (10 ^ 9))])
      (lp_execute demo_pow false demo_lp_deps "owner" (Open demo_add) "key" None) tt).1)).
  assert (take 11 demo_added ++ [Event (SubmitIntent demo_lp_intent (key_options "key" false)) (duplicate_result "trade" None)] =
          demo_added) as -> by (vm_compute; reflexivity).
  unfold demo_added, demo_lp_trace. exact (run_traces (demo_venue demo_own [("pool", demo_sdk_position "mine" (10 ^ 9))])
    (lp_execute demo_pow false demo_lp_deps "owner" (Open demo_add) "key" None) tt).
Defined.

(** A position address the wallet does not have counts as a position of nothing that exists
    already: liquidity is added to it with every slot taken. *)
Lemma foreign_position_added :
  map (fun i => (Contracts.kind i, amount (input i))) (intents_of (demo_lp_trace [] (repeat ("pool", demo_sdk_position "other" (10 ^ 9)) 5)))
    = [("lp_add", 10 ^ 8)] /\
  maxConcurrentPositions defaultPoolGuardConfig = js_num 5 /\ find_position "mine" [] = None.
Proof. vm_compute. done. Qed.

(** Whether fees are claimed is an option of `pools_close` that no builder reads. *)
Lemma claim_fees_ignored `{TxBuilder} pow hasApi deps owner pool position bps close c1 c2 :
  build_close pow hasApi deps owner
    {| cl_poolAddress := pool; cl_positionAddress := position; cl_bpsToRemove := bps; cl_claimFees := c1; cl_closePosition := close |} =
  build_close pow hasApi deps owner
    {| cl_poolAddress := pool; cl_positionAddress := position; cl_bpsToRemove := bps; cl_claimFees := c2; cl_closePosition := close |}.
Proof. reflexivity. Qed.

(** The configuration of the second step, as `pools_open` gets it. *)
Definition config_of (f : FollowUp) : OpenConfig :=
  {| op_poolAddress := fu_poolAddress f; op_quoteAmountUi := fu_quoteAmountUi f; op_baseAmountUi := None;
     op_belowBins := Some (fu_belowBins f); op_aboveBins := Some (fu_aboveBins f); op_shape := Some (fu_shape f);
     op_positionAddress := None |}.

(** A position the price has fallen below holds the base only, and the second step of its
    rebalance is refused by the schema of the tool it is meant for. *)
Lemma follow_up_refused cfg pool p target : po_quoteAmount p = 0 -> po_quoteDecimals p = 9 ->
  openSchema (config_of (follow_up demo_pow demo_lp_deps cfg pool p target)) = false.
Proof.
  intros Hq Hd. unfold openSchema, config_of, follow_up. cbn [op_poolAddress op_quoteAmountUi fu_quoteAmountUi]. rewrite Hq, Hd.
  assert (num_gt (num_div (num_of_bigint 0) (demo_pow (js_num 10) 9)) (js_num 0) = false) as -> by (vm_compute; reflexivity).
  by rewrite andb_false_r.
Qed.

(** A rate of 365 percent a year, one percent a day, is projected as 365 percent a day. *)
Lemma yearly_rate_taken_daily : fees_per_day 1000000 (Some (js_num 365)) = inr (Some 3650000).
Proof. vm_compute. reflexivity. Qed.
